(* ===== verification/_CoqProject ===== *)
-Q . S2P
Prelude.v
Types.v
Text.v
Bus.v
Json.v
SecurityConfig.v
TierMachine.v
AutoLock.v
Config.v
RateLimit.v
Secrets.v
PromptRegistry.v
Prog.v
AtomicFile.v
Rely.v
Codec.v
PersistedRateLimit.v
Gate.v
MasterPassword.v
ConfigStore.v
Unlock.v
Wire.v
Transfer.v
Crypto.v
Envelope.v
RecFormat.v
RecIndex.v
RecText.v
StorageCap.v
Recorder.v
RecQueue.v
RecMigrate.v
RecConvert.v
Connection.v
KnownHosts.v
WebDav.v
Sync.v
Iso8601.v
Tables.v
Dao.v
Apply.v
ApplyLaws.v
Lfs.v
Compose.v
ComposeLaws.v
MergeDelivers.v
Snapshot.v
Replicate.v
Migration.v
FolderTree.v
FolderPaths.v
Wipe.v
Release.v
Snippet.v
Update.v
AuthCompose.v
Agent.v
SessionTree.v
History.v
