(* ===== verification/Prelude.v ===== *)
(** * The core of LetsFLUTssh: a verification library

    LetsFLUTssh is an SSH client.  Its logic is the Rust crate [lfs_core]
    ([rust/crates/lfs_core/src] under [src/]); the crate [lfs_os_security] binds the platform
    security services, [lfs_frb] forwards calls from the Flutter interface.  This library models
    the parts of [lfs_core] whose correctness the user's secrets and data rest on, and proves what
    they promise.  Definitions carry the names of the source; paths below are relative to
    [rust/crates/lfs_core/src].

    ** How the program fits together

    Everything hangs off the process-wide [AppState] ([app.rs]): the event bus, the secret store,
    the tier machine, the auto-lock machine, the configuration store, the database slot, the
    registries of connections, transfers, recordings and prompts.  Handlers are asynchronous tasks
    that take short locks on these parts and publish events; the interface reacts to the events and
    answers prompts.  Unlocking puts the database key into the secret store and opens the database;
    connecting reads credentials from it, checks the host key against the known-hosts table and
    hands a session to the registry; recordings are written under keys wrapped by the database key;
    sync ships the database as an encrypted archive to a WebDAV resource.

    ** Files

    Foundations: [Prelude] (tactics, machine integers, little-endian bytes); [Text] (characters,
    UTF-8, splitting, decimal integers: the Standard Library of Rust); [Types] and [Bus]
    ([bus/mod.rs], the events and the shared enumerations); [Json] (the values of serde_json);
    [Prog] (sequences of atomic calls with [run], [crash], [run_env], [calls], [interleave], and the
    operating system [Os]); [Rely] (a program while other tasks change the state by a relation);
    [AtomicFile] ([write_bytes_atomic] of [path.rs], written once against the class [Vfs] of a file
    system and run on [Os] and on a disk that a power loss can set back); [Codec] and [Crypto] (classes of the third-party functions with their
    documented laws; [Crypto] also models the wrappers of [crypto.rs]).

    Security: [SecurityConfig] ([security/mod.rs]); [TierMachine] ([security/tier_machine.rs]);
    [AutoLock] ([autolock.rs]); [RateLimit] ([rate_limit.rs]); [PersistedRateLimit]
    ([security/persisted_rate_limit.rs] and its actor); [Secrets] ([secrets.rs]);
    [PromptRegistry] ([security/prompt_registry.rs]); [Gate] ([security/keychain_password_gate.rs]
    and its actor); [MasterPassword] ([security/master_password.rs]); [Unlock]
    ([security/tier_unlock_orchestrator.rs] and the database slot of [app.rs], composing all of the
    above).

    Configuration: [Config] ([config/mod.rs], [security/capabilities.rs]); [ConfigStore]
    ([config_store.rs]).

    Sessions: [Wire] ([ssh/wire.rs]); [KnownHosts] ([known_hosts.rs], [known_hosts_parser.rs],
    [db/known_hosts.rs], the host-key check of [ssh/mod.rs]); [Connection] ([connection/mod.rs],
    [security/credential_prompt.rs]); [AuthCompose] ([connection/auth_compose.rs] with the staging
    functions of [db/]); [Agent] ([ssh_agent/]); [SessionTree] ([session_tree.rs]); [Snippet]
    ([snippet_template.rs]); [History] ([session_history.rs], [transfer_conflict.rs]); [Transfer]
    ([transfer/mod.rs], [transfer/driver.rs]).

    Recordings: [RecFormat] (the encrypted container and playback: [recorder/mod.rs],
    [recorder/reader.rs]); [RecIndex] ([recorder/index_sidecar.rs]); [RecText] (asciinema text);
    [StorageCap] ([recorder/storage_cap.rs]); [Recorder] (the registry of [recorder/mod.rs]);
    [RecQueue] ([recorder/queue.rs]); [RecMigrate] and [RecConvert] ([recorder/migrate.rs]).

    Synchronisation and the database: [WebDav] ([webdav/client.rs], [webdav/auth.rs]); [Sync]
    ([sync/service.rs]); [Envelope] ([archive/envelope.rs]); [Iso8601] ([archive/iso8601.rs]); [Tables] (the schema of [db/mod.rs] and
    the statements, each a change of the tables or its refusal; the class [Database] is SQLite with
    its transactions); [Dao] (a module per file of [db/]); [Apply] ([archive/apply/mod.rs] and
    [sync/merge.rs]); [ApplyLaws] (what an import or a merge leaves behind); [Lfs]
    ([archive/mod.rs]: the container, its reader and preview); [Compose] ([archive/compose/mod.rs]);
    [ComposeLaws] (a composed row read back); [MergeDelivers] (what a merge on a working database
    installs), [Snapshot] (what a composed snapshot lists once opened) and [Replicate], which joins
    the two; [FolderTree] ([folder_path.rs] and the operations of [db/folders.rs] that move and
    delete folders) and [FolderPaths] (the cached path sets).

    Startup and reset: [Migration] ([migration/mod.rs], [migration/registry.rs],
    [migration/artefacts.rs]); [Wipe] ([security/wipe.rs], [security/wipe_keychain.rs],
    [security/recovery.rs], the marker files).

    Updates: [Release] ([update/metadata.rs]) and [Update] ([update/http.rs],
    [update/orchestrator.rs], [update/signing.rs]).
    ** Conventions

    A Rust integer is a [Z]; where an operation can leave its width the reduction is written out
    ([wrap_i64] and its companions).  A byte is a [Z], a byte string a [list Z]; a [String] is a
    Rocq [string] of its UTF-8 bytes where it is only compared and stored, the list of its
    characters where it is taken apart.  [usize] is unbounded where only lengths of what is in
    memory are added; [Wire], which adds lengths an input claims, takes its width as the parameter
    [Usize].  A [HashMap] is a [gmap].  A [Result] is a sum, an [Option]
    an [option].  A panic the source can reach is
    an outcome of its own ([None], or [Panicked] in [Wire]).  The clock, random bytes and
    fresh identifiers are arguments; a theorem that needs them fresh or ordered says so.

    A locked section is one atomic call.  An asynchronous handler is a [prog], so other tasks can
    run between any two of its calls ([run_env], [interleave]) and a power loss can fall there
    ([crash]).  File operations fail when the fault list says so, with nothing written.
    [write_bytes_atomic] is the sequence of its calls, so a cut inside it leaves its temporary file;
    that the target holds the old content or the new is proved ([AtomicFile.write_goes]), after a
    power loss included ([AtomicFile.crash_survives]).  Page locks are requests the operating system
    may refuse: [Secrets] keeps the requests and what they pin page by page.

    Third-party code (RustCrypto, base64, serde's text form, SQLite, russh, reqwest, the platform
    vaults) is a parameter or the method of a class; the laws are what its documentation promises.
    Authenticated encryption is ideal: a box opens only under its own key, nonce and associated
    data.  Every theorem with such laws or other hypotheses has a witness over concrete functions.

    ** Fuel and bounds

    [Utf8.decode] and the frame iterators recurse on the length of what is left and
    [Utf8.chunks], [RecFormat] and [RecText] prove that this much is enough; the decimal printer
    has one step per binary digit; playback is proved to end within as many reads as there are
    bytes and two more ([RecFormat.playback_terminates]); the retry loop of a connect attempt is
    bounded by [MAX_CREDENTIAL_PROMPTS] as in the source; the walk up the folder tree makes at most
    one round per folder ([FolderTree.climb_enough]), the recursive deletion reaches its fixed point
    within as many ([FolderTree.round_closed]), Kahn's loop pops each artefact once
    ([Migration.kahn_result]); the chain of migrations of an artefact has no bound in the code,
    [Migration.migrations_converge] gives the fuel that is enough.

    ** What the theorems show

    Unlocking: the seven attempts with a secret grant exactly what an abstract specification grants, guessing is
    braked, a first launch is followed by unlocks with the same password, no secret outlives a
    sealing prompt ([Unlock]); records of the key derivation read back within their caps and a
    tampered one that decodes to other parameters never unlocks ([MasterPassword]); the gate verifies exactly the set password and
    its failures say what they leave ([Gate]); attempts are counted across restarts and no
    failure, status call or late write shortens a cooldown ([PersistedRateLimit], [RateLimit]); the secret store is a map,
    and each resident buffer is one whose lock was requested and not yet released ([Secrets]); an idle session locks ([AutoLock]).
    Configuration: loading is total and bounded, saving and loading are inverse, a save survives
    a power loss at any moment and no setting is lost ([Config], [ConfigStore]).
    Sessions: a host key is accepted only when it was stored or the user accepted this very prompt,
    import only adds, export reads back ([KnownHosts]); a dial uses exactly the credential the
    tables and the typed input determine, and every typed secret is handed back to be dropped
    ([AuthCompose]); the connection registry is consistent under
    every interleaving, every attempt closes exactly once and shows what the handshake answered
    ([Connection]); transfer rows are exact and a task settles once ([Transfer]); signatures are
    converted exactly ([Wire]).
    Recordings: what is recorded plays back, splices and truncations are refused or reported, seeking
    lands on the frame, playback terminates ([RecFormat], [RecIndex], [Recorder], [RecText]); queues
    keep every byte ([RecQueue]); eviction is oldest first ([StorageCap]); key rotation and
    conversion can be cut anywhere without losing a recording ([RecMigrate], [RecConvert]).
    Synchronisation: a push replaces only the snapshot it put there itself, a pulled snapshot is not
    merged twice ([Sync]); requests are addressed to the origin of the base URL and a Digest client logs in
    ([WebDav]).  A replacing import and a merge are all or nothing at every crash point, and a merge
    overwrites no live row that is not older than the peer's ([ApplyLaws]); time stamps read back
    ([Iso8601]); a sealed archive opens with its password and as nothing else ([Envelope]);
    a snapshot of one device merged on another brings every newer key and SSH session there
    ([Replicate]).  A folder rename moves exactly one subtree, a recursive deletion removes exactly
    one, and the cached path sets agree with the table ([FolderTree], [FolderPaths]).
    Startup: the migrations run in an order that respects every dependency, end, and bring every
    artefact to its target or say why not ([Migration]); an interrupted wipe is before, after or
    marked and can be finished, and no recovery prompt destroys anything without consent ([Wipe]).
    Updates: whatever the network answers, a downloaded update is the published artefact of its
    name, and an unfinished one leaves no installer ([Update]); addresses, asset names, manifests
    and changelogs are read as their formats say ([Release]).
    The agent signs only after a consent and lists exactly what its policy shows ([Agent]); the
    sidebar's forest holds every session under its folder and nothing else ([SessionTree]).
    Examples named after a defect ([Connection.reconnect_lists_twice],
    [RecConvert.torn_recording_blocks_conversion], and others) are runs of the model that show the
    code doing something its comments or its callers do not expect.

    ** Not modelled

    The SSH protocol itself, SFTP, S3 and the XML of WebDAV listings: the code calls russh,
    russh-sftp, reqwest and an XML parser, and what they do is not in the repository.  The zip format of
    an archive: the zip crate.  The terminal emulator, the FIDO2 and PKCS#11 clients, the
    platform vaults and [lfs_os_security]: foreign calls.  [lfs_frb] and the Dart interface:
    generated or forwarding code.  tokio's channels and its scheduler: a channel is the list of what was
    sent, a schedule is any interleaving of calls.  Also left out: port forwarding, QR
    payloads, the OpenSSH importer and the log sanitiser. *)
From Stdlib Require Import ZArith Lia.
From stdpp Require Import prelude gmap strings list.

#[export] Set Default Goal Selector "!".

Create HintDb lfs discriminated.

(** ** Tactics shared by the development *)

(** Case analysis on every [match]/[if]/[decide] of the goal and the context,
    closing the branches that are contradictory or immediate. *)
Ltac cases :=
  repeat (case_match || case_decide || case_bool_decide); simplify_eq/=; try done.

(** Turn the boolean tests of the context into the propositions they decide. *)
Ltac breflect :=
  repeat match goal with
  | H : (_ <? _)%Z = true |- _ => apply Z.ltb_lt in H
  | H : (_ <? _)%Z = false |- _ => apply Z.ltb_ge in H
  | H : (_ <=? _)%Z = true |- _ => apply Z.leb_le in H
  | H : (_ <=? _)%Z = false |- _ => apply Z.leb_gt in H
  | H : (_ =? _)%Z = true |- _ => apply Z.eqb_eq in H
  | H : (_ =? _)%Z = false |- _ => apply Z.eqb_neq in H
  | H : (_ && _)%bool = true |- _ => apply andb_true_iff in H; destruct H
  | H : (_ || _)%bool = false |- _ => apply orb_false_iff in H; destruct H
  | H : negb _ = true |- _ => apply negb_true_iff in H
  | H : negb _ = false |- _ => apply negb_false_iff in H
  end.

(** ** Machine integers

    A Rust integer is a [Z]; the width is written out where an operation of the
    code can leave it.  The release profile of the workspace does not enable
    overflow checks, so arithmetic wraps in two's complement. *)
Definition in_i64 (z : Z) : Prop := (- 2 ^ 63 <= z < 2 ^ 63)%Z.
Definition in_u8 (z : Z) : Prop := (0 <= z < 2 ^ 8)%Z.
Definition in_u32 (z : Z) : Prop := (0 <= z < 2 ^ 32)%Z.
Definition in_u64 (z : Z) : Prop := (0 <= z < 2 ^ 64)%Z.

(** Two's-complement reduction to [i64], reduction to [u32] and [u64]. *)
Definition wrap_i64 (z : Z) : Z := ((z + 2 ^ 63) mod 2 ^ 64 - 2 ^ 63)%Z.
Definition wrap_u32 (z : Z) : Z := (z mod 2 ^ 32)%Z.
Definition wrap_u64 (z : Z) : Z := (z mod 2 ^ 64)%Z.

Ltac int_unfold :=
  unfold in_i64, in_u8, in_u32, in_u64, wrap_i64, wrap_u32, wrap_u64 in *.

Lemma wrap_i64_id z : in_i64 z -> wrap_i64 z = z.
Proof. int_unfold. intros. rewrite Z.mod_small; lia. Qed.

Lemma wrap_i64_range z : in_i64 (wrap_i64 z).
Proof. int_unfold. pose proof (Z.mod_pos_bound (z + 2 ^ 63) (2 ^ 64)). lia. Qed.

Lemma wrap_u32_id z : in_u32 z -> wrap_u32 z = z.
Proof. apply Z.mod_small. Qed.

Lemma wrap_u32_range z : in_u32 (wrap_u32 z).
Proof. apply Z.mod_pos_bound. lia. Qed.

Lemma wrap_u64_id z : in_u64 z -> wrap_u64 z = z.
Proof. apply Z.mod_small. Qed.

Lemma wrap_u64_range z : in_u64 (wrap_u64 z).
Proof. apply Z.mod_pos_bound. lia. Qed.

#[export] Hint Resolve wrap_i64_range wrap_u32_range wrap_u64_range : lfs.

(** ** Big-endian bytes ([u32::to_be_bytes], [from_be_bytes]) *)
Definition to_be32 (n : Z) : list Z :=
  [Z.shiftr n 24 mod 256; Z.shiftr n 16 mod 256; Z.shiftr n 8 mod 256; n mod 256]%Z.

Definition from_be32 (a b c d : Z) : Z := (((a * 256 + b) * 256 + c) * 256 + d)%Z.

Lemma be32_roundtrip n : (0 <= n < 2 ^ 32)%Z ->
  match to_be32 n with [a; b; c; d] => from_be32 a b c d = n | _ => False end.
Proof.
  intros Hn. unfold to_be32, from_be32. rewrite !Z.shiftr_div_pow2 by lia.
  change (2 ^ 24)%Z with 16777216%Z. change (2 ^ 16)%Z with 65536%Z. change (2 ^ 8)%Z with 256%Z.
  change (2 ^ 32)%Z with 4294967296%Z in Hn. Z.to_euclidean_division_equations. lia.
Qed.

(** ** Little-endian bytes ([to_le_bytes], [from_le_bytes]) *)
Fixpoint le_bytes (n : nat) (z : Z) : list Z :=
  match n with
  | O => []
  | S n => (z mod 256)%Z :: le_bytes n (z / 256)%Z
  end.

Definition le_value (bs : list Z) : Z := foldr (fun b acc => (b + 256 * acc)%Z) 0%Z bs.

Lemma le_bytes_length n z : length (le_bytes n z) = n.
Proof. revert z. induction n as [|n IH]; intros z; simpl; [done|]. by rewrite IH. Qed.

Lemma le_value_bytes n z : le_value (le_bytes n z) = (z mod 256 ^ Z.of_nat n)%Z.
Proof.
  revert z. induction n as [|n IH]; intros z; [by rewrite Z.mod_1_r|].
  cbn [le_bytes le_value foldr]. change (foldr _ _ ?l) with (le_value l). rewrite IH.
  rewrite Nat2Z.inj_succ, Z.pow_succ_r by lia.
  rewrite Z.rem_mul_r by lia. lia.
Qed.

Lemma le_value_bytes_id n z : (0 <= z < 256 ^ Z.of_nat n)%Z -> le_value (le_bytes n z) = z.
Proof. intros Hz. rewrite le_value_bytes. by apply Z.mod_small. Qed.

Lemma le_bytes_inj n x y :
  (0 <= x < 256 ^ Z.of_nat n)%Z -> (0 <= y < 256 ^ Z.of_nat n)%Z -> le_bytes n x = le_bytes n y -> x = y.
Proof. intros Hx Hy He. rewrite <-(le_value_bytes_id n x), <-(le_value_bytes_id n y) by done. by rewrite He. Qed.
