(* ===== verification/Types.v ===== *)
(** * Enumerations shared by several components

    The event bus carries values of enumerations that belong to the components
    it serves ([connection], [transfer], [portforward], [recovery_prompt]); they
    are kept here so that [Bus] can be required by all of those components. *)
From stdpp Require Import prelude strings.
From S2P Require Import Prelude.

Inductive ConnectionState := Disconnected | Connecting | Connected.

Inductive ConnectionPhase := SocketConnect | HostKeyVerify | Authenticate | OpenChannel.

Inductive StepStatus := InProgress | StepSuccess | StepFailed.

Record ProgressStep := {
  phase : ConnectionPhase;
  step_status : StepStatus;
  step_detail : option string
}.

Inductive RecoveryPromptKind :=
| DbCorruptDetected (reason : string)
| VaultStateMissing (tier_label : string)
| LegacyStateFound (config_version_on_disk : Z) (orphan_artefacts : bool).

Inductive TaskState := Queued | Running | Completed | Failed | Cancelled.

Inductive RuleStatus := RuleIdle | RuleListening | RuleError.

#[export] Instance ConnectionState_eq_dec : EqDecision ConnectionState.
Proof. solve_decision. Defined.

#[export] Instance ConnectionPhase_eq_dec : EqDecision ConnectionPhase.
Proof. solve_decision. Defined.

#[export] Instance StepStatus_eq_dec : EqDecision StepStatus.
Proof. solve_decision. Defined.

#[export] Instance ProgressStep_eq_dec : EqDecision ProgressStep.
Proof. solve_decision. Defined.

#[export] Instance RecoveryPromptKind_eq_dec : EqDecision RecoveryPromptKind.
Proof. solve_decision. Defined.

#[export] Instance TaskState_eq_dec : EqDecision TaskState.
Proof. solve_decision. Defined.

#[export] Instance RuleStatus_eq_dec : EqDecision RuleStatus.
Proof. solve_decision. Defined.
