(* ===== verification/Text.v ===== *)
(** * Text: the standard library's view of bytes and characters

    A Rust [char] is a Unicode scalar value, here a [Z]; a [str] is the list of its
    characters, its bytes are [Utf8.encode] of them.  [Utf8.decode] is
    [str::from_utf8], [Utf8.lossy] is [String::from_utf8_lossy] (every maximal invalid
    prefix becomes one U+FFFD).  The components that take text apart (recordings,
    known hosts) are written over these lists. *)
From Stdlib Require Import ZArith Lia Ascii.
From stdpp Require Import prelude gmap strings list.
From S2P Require Import Prelude.

Open Scope Z_scope.

Definition char_ok (c : Z) : Prop := 0 <= c < 55296 \/ 57344 <= c < 1114112.

#[export] Instance char_ok_dec c : Decision (char_ok c).
Proof. unfold char_ok. apply _. Defined.

(** The characters of an ASCII literal of the source. *)
Definition lit (s : string) : list Z :=
  (fun a => Z.of_nat (Ascii.nat_of_ascii a)) <$> String.list_ascii_of_string s.

Module Utf8.

Definition encode_char (c : Z) : list Z :=
  if c <? 128 then [c]
  else if c <? 2048 then [192 + c / 64; 128 + c mod 64]
  else if c <? 65536 then [224 + c / 4096; 128 + (c / 64) mod 64; 128 + c mod 64]
  else [240 + c / 262144; 128 + (c / 4096) mod 64; 128 + (c / 64) mod 64; 128 + c mod 64].

Definition encode (cs : list Z) : list Z := cs ≫= encode_char.

Definition within (lo hi b : Z) : bool := (lo <=? b) && (b <=? hi).
Definition cont (b : Z) : bool := within 128 191 b.

(** Which second bytes may follow a three-byte or four-byte lead. *)
Definition second3 (b0 b1 : Z) : bool :=
  if b0 =? 224 then within 160 191 b1 else if b0 =? 237 then within 128 159 b1 else cont b1.
Definition second4 (b0 b1 : Z) : bool :=
  if b0 =? 240 then within 144 191 b1 else if b0 =? 244 then within 128 143 b1 else cont b1.

(** One character (or [None] for an invalid sequence) and the bytes after it. *)
Definition step2 (b0 : Z) (r : list Z) : option Z * list Z :=
  match r with
  | b1 :: r1 => if cont b1 then (Some ((b0 - 192) * 64 + (b1 - 128)), r1) else (None, r)
  | [] => (None, [])
  end.

Definition step3 (b0 : Z) (r : list Z) : option Z * list Z :=
  match r with
  | b1 :: r1 =>
      if second3 b0 b1 then
        match r1 with
        | b2 :: r2 =>
            if cont b2 then (Some ((b0 - 224) * 4096 + (b1 - 128) * 64 + (b2 - 128)), r2)
            else (None, r1)
        | [] => (None, [])
        end
      else (None, r)
  | [] => (None, [])
  end.

Definition step4 (b0 : Z) (r : list Z) : option Z * list Z :=
  match r with
  | b1 :: r1 =>
      if second4 b0 b1 then
        match r1 with
        | b2 :: r2 =>
            if cont b2 then
              match r2 with
              | b3 :: r3 =>
                  if cont b3 then
                    (Some ((b0 - 240) * 262144 + (b1 - 128) * 4096 + (b2 - 128) * 64 + (b3 - 128)), r3)
                  else (None, r2)
              | [] => (None, [])
              end
            else (None, r1)
        | [] => (None, [])
        end
      else (None, r)
  | [] => (None, [])
  end.

Definition step (b0 : Z) (r : list Z) : option Z * list Z :=
  if within 0 127 b0 then (Some b0, r)
  else if within 194 223 b0 then step2 b0 r
  else if within 224 239 b0 then step3 b0 r
  else if within 240 244 b0 then step4 b0 r
  else (None, r).

Fixpoint chunks (fuel : nat) (bs : list Z) : list (option Z) :=
  match fuel, bs with
  | S fuel, b0 :: r => let '(o, r') := step b0 r in o :: chunks fuel r'
  | _, _ => []
  end.

Definition decode (bs : list Z) : option (list Z) := mapM id (chunks (length bs) bs).

Definition lossy (bs : list Z) : list Z := default 65533 <$> chunks (length bs) bs.

End Utf8.

(** ** Characters and slices *)

(** [char::is_whitespace]. *)
Definition is_whitespace (c : Z) : bool :=
  (c =? 32) || Utf8.within 9 13 c || (c =? 133) || (c =? 160) || (c =? 5760)
  || Utf8.within 8192 8202 c || (c =? 8232) || (c =? 8233) || (c =? 8239) || (c =? 8287)
  || (c =? 12288).

Fixpoint trim_start_by (p : Z -> bool) (s : list Z) : list Z :=
  match s with c :: s' => if p c then trim_start_by p s' else s | [] => [] end.

Definition trim_end_by (p : Z -> bool) (s : list Z) : list Z := rev (trim_start_by p (rev s)).

Definition trim (s : list Z) : list Z := trim_end_by is_whitespace (trim_start_by is_whitespace s).

(** The piece up to the first character satisfying [p], and what follows it. *)
Fixpoint split_once_by (p : Z -> bool) (s : list Z) : option (list Z * list Z) :=
  match s with
  | [] => None
  | c :: s' =>
      if p c then Some ([], s')
      else match split_once_by p s' with Some (a, b) => Some (c :: a, b) | None => None end
  end.

(** [str::split]: one piece more than separators. *)
Fixpoint split_by (p : Z -> bool) (s : list Z) : list (list Z) :=
  match s with
  | [] => [[]]
  | c :: s' =>
      if p c then [] :: split_by p s'
      else match split_by p s' with h :: t => (c :: h) :: t | [] => [[c]] end
  end.

Definition split_whitespace (s : list Z) : list (list Z) :=
  filter (fun w => w <> []) (split_by is_whitespace s).

(** ** Integers

    Decimal [Display] of a non-negative integer. *)
Fixpoint decimal_loop (fuel : nat) (n : Z) (acc : list Z) : list Z :=
  match fuel with
  | O => acc
  | S fuel =>
      let acc := (48 + n mod 10) :: acc in
      if n / 10 =? 0 then acc else decimal_loop fuel (n / 10) acc
  end.

Definition decimal (n : Z) : list Z := decimal_loop (S (Z.to_nat (Z.log2 n))) n [].

(** [Display] of a signed integer. *)
Definition display_int (n : Z) : list Z := if n <? 0 then 45 :: decimal (- n) else decimal n.

Fixpoint digits_value (acc : Z) (s : list Z) : option Z :=
  match s with
  | [] => Some acc
  | c :: s => if Utf8.within 48 57 c then digits_value (acc * 10 + (c - 48)) s else None
  end.

Definition parse_digits (s : list Z) : option Z := match s with [] => None | _ => digits_value 0 s end.

(** [str::parse] for an integer type with bounds [lo], [hi]: an optional sign ([-] only
    where [lo] is negative), then digits; [None] is a [ParseIntError]. *)
Definition parse_int (lo hi : Z) (s : list Z) : option Z :=
  let value :=
    match s with
    | 43 :: r => parse_digits r
    | 45 :: r => if lo <? 0 then Z.opp <$> parse_digits r else None
    | _ => parse_digits s
    end in
  match value with Some v => if Utf8.within lo hi v then Some v else None | None => None end.

Definition parse_u32 : list Z -> option Z := parse_int 0 (2 ^ 32 - 1).
Definition parse_i64 : list Z -> option Z := parse_int (- 2 ^ 63) (2 ^ 63 - 1).

(** A [String] of the event payloads: the bytes of the text. *)
Definition to_string (s : list Z) : string :=
  String.string_of_list_ascii ((fun b => Ascii.ascii_of_nat (Z.to_nat b)) <$> Utf8.encode s).

(** [{:02x}] of a byte. *)
Definition hex_byte (b : Z) : list Z :=
  let digit n := if n <? 10 then 48 + n else 87 + n in [digit (b / 16); digit (b mod 16)].

(** ** UTF-8 facts *)

Lemma step2_ok q m r : 2 <= q < 32 -> 0 <= m < 64 ->
  Utf8.step (192 + q) (128 + m :: r) = (Some (q * 64 + m), r).
Proof.
  intros Hq Hm. unfold Utf8.step, Utf8.step2, Utf8.cont, Utf8.within.
  repeat (case_match; try lia). do 2 f_equal. lia.
Qed.

Lemma step3_ok q n m r : 0 <= q < 16 -> 0 <= n < 64 -> 0 <= m < 64 ->
  char_ok (q * 4096 + n * 64 + m) -> 2048 <= q * 4096 + n * 64 + m ->
  Utf8.step (224 + q) (128 + n :: 128 + m :: r) = (Some (q * 4096 + n * 64 + m), r).
Proof.
  intros Hq Hn Hm Hc Hl. unfold Utf8.step, Utf8.step3, Utf8.second3, Utf8.cont, Utf8.within, char_ok in *.
  repeat (case_match; try lia); do 2 f_equal; lia.
Qed.

Lemma step4_ok q k n m r : 0 <= q < 8 -> 0 <= k < 64 -> 0 <= n < 64 -> 0 <= m < 64 ->
  65536 <= q * 262144 + k * 4096 + n * 64 + m < 1114112 ->
  Utf8.step (240 + q) (128 + k :: 128 + n :: 128 + m :: r) =
  (Some (q * 262144 + k * 4096 + n * 64 + m), r).
Proof.
  intros Hq Hk Hn Hm Hl. unfold Utf8.step, Utf8.step4, Utf8.second4, Utf8.cont, Utf8.within in *.
  repeat (case_match; try lia); do 2 f_equal; lia.
Qed.

Lemma step_encode c r :
  char_ok c -> exists b0 r0, Utf8.encode_char c = b0 :: r0 /\ Utf8.step b0 (r0 ++ r) = (Some c, r).
Proof.
  intros Hc. unfold Utf8.encode_char.
  destruct (c <? 128) eqn:E1; [|destruct (c <? 2048) eqn:E2; [|destruct (c <? 65536) eqn:E3]];
    breflect; do 2 eexists; (split; [done|]); cbn [app];
    assert (0 <= c < 1114112) by (unfold char_ok in Hc; lia).
  - unfold Utf8.step, Utf8.within. case_match; [done|lia].
  - rewrite step2_ok; [do 2 f_equal|..]; Z.to_euclidean_division_equations; lia.
  - assert (Hs : c / 4096 * 4096 + c / 64 mod 64 * 64 + c mod 64 = c)
      by (Z.to_euclidean_division_equations; lia).
    rewrite step3_ok; rewrite ?Hs; try done; Z.to_euclidean_division_equations; lia.
  - assert (Hs : c / 262144 * 262144 + c / 4096 mod 64 * 4096 + c / 64 mod 64 * 64 + c mod 64 = c)
      by (Z.to_euclidean_division_equations; lia).
    rewrite step4_ok; rewrite ?Hs; try done; Z.to_euclidean_division_equations; lia.
Qed.

Lemma step_length b0 r : (length (Utf8.step b0 r).2 <= length r)%nat.
Proof.
  unfold Utf8.step, Utf8.step2, Utf8.step3, Utf8.step4. repeat case_match; simpl; lia.
Qed.

Lemma chunks_fuel n bs : (length bs <= n)%nat -> Utf8.chunks n bs = Utf8.chunks (length bs) bs.
Proof.
  revert bs. induction (lt_wf n) as [n _ IH]. intros [|b0 r] Hn; [by destruct n|].
  destruct n as [|n]; [simpl in Hn; lia|]. cbn [Utf8.chunks length] in *.
  pose proof (step_length b0 r) as Hl. destruct (Utf8.step b0 r) as [o r']; simpl in Hl.
  f_equal. rewrite (IH n) by lia. symmetry. apply IH; lia.
Qed.

Lemma chunks_cons b0 r :
  Utf8.chunks (length (b0 :: r)) (b0 :: r) =
  (Utf8.step b0 r).1 :: Utf8.chunks (length (Utf8.step b0 r).2) (Utf8.step b0 r).2.
Proof.
  cbn [Utf8.chunks length]. pose proof (step_length b0 r) as Hl.
  destruct (Utf8.step b0 r) as [o r']; simpl in *. f_equal. by apply chunks_fuel.
Qed.

Lemma chunks_encode cs r :
  Forall char_ok cs ->
  Utf8.chunks (length (Utf8.encode cs ++ r)) (Utf8.encode cs ++ r) =
  (Some <$> cs) ++ Utf8.chunks (length r) r.
Proof.
  induction 1 as [|c cs Hc _ IH]; [done|].
  unfold Utf8.encode in *. rewrite bind_cons, <-app_assoc.
  destruct (step_encode c ((cs ≫= Utf8.encode_char) ++ r) Hc) as (b0 & r0 & -> & Hs).
  rewrite <-app_comm_cons, chunks_cons, Hs. cbn [fst snd]. by rewrite IH.
Qed.

Lemma mapM_id_Some {A} (l : list A) : mapM id (Some <$> l) = Some l.
Proof. induction l as [|a l IH]; [done|]. rewrite fmap_cons. cbn [mapM id]. simpl. by rewrite IH. Qed.

(** What was encoded is decoded, by the strict and by the lossy reader. *)
Lemma utf8_decode_encode cs : Forall char_ok cs -> Utf8.decode (Utf8.encode cs) = Some cs.
Proof.
  intros Hc. unfold Utf8.decode. pose proof (chunks_encode cs [] Hc) as Hk.
  rewrite app_nil_r in Hk. rewrite Hk. simpl. rewrite app_nil_r. apply mapM_id_Some.
Qed.

Lemma lossy_encode cs : Forall char_ok cs -> Utf8.lossy (Utf8.encode cs) = cs.
Proof.
  intros Hc. unfold Utf8.lossy. pose proof (chunks_encode cs [] Hc) as Hk.
  rewrite app_nil_r in Hk. rewrite Hk. simpl. rewrite app_nil_r, <-list_fmap_compose.
  apply list_fmap_id.
Qed.

(** Every character a reader produces is a scalar value. *)
Lemma step_char_ok b0 r c r' : Utf8.step b0 r = (Some c, r') -> char_ok c.
Proof.
  unfold Utf8.step, Utf8.step2, Utf8.step3, Utf8.step4, Utf8.second3, Utf8.second4, Utf8.cont,
    Utf8.within, char_ok.
  intros H. repeat (case_match; simplify_eq/=; try done); lia.
Qed.

Lemma lossy_ok bs : Forall char_ok (Utf8.lossy bs).
Proof.
  unfold Utf8.lossy. generalize (length bs) as n. intros n. revert bs.
  induction n as [|n IH]; intros [|b0 r]; simpl; try constructor.
  destruct (Utf8.step b0 r) as [[c|] r'] eqn:Hs; rewrite fmap_cons; constructor; try apply IH.
  - by apply step_char_ok in Hs.
  - apply (bool_decide_unpack _). by vm_compute.
Qed.

(** Conversely the bytes are the encoding of what was decoded. *)
Lemma step_sound b0 r c r' : Utf8.step b0 r = (Some c, r') -> b0 :: r = Utf8.encode_char c ++ r'.
Proof.
  unfold Utf8.step, Utf8.step2, Utf8.step3, Utf8.step4, Utf8.second3, Utf8.second4, Utf8.cont,
    Utf8.within, Utf8.encode_char.
  intros H. repeat (case_match; simplify_eq/=; try lia; try done).
  all: repeat (f_equal; try (Z.to_euclidean_division_equations; lia)).
Qed.

Lemma decode_sound bs cs : Utf8.decode bs = Some cs -> Utf8.encode cs = bs.
Proof.
  unfold Utf8.decode. revert cs.
  remember (length bs) as n eqn:Hn. revert bs Hn. induction (lt_wf n) as [n _ IH].
  intros [|b0 r] -> cs Hd; [by injection Hd as <-|].
  rewrite chunks_cons in Hd. pose proof (step_length b0 r) as Hl.
  destruct (Utf8.step b0 r) as [o r'] eqn:Hs. cbn [fst snd] in *. cbn [mapM] in Hd.
  destruct o as [c|]; [|done]. cbn in Hd.
  destruct (mapM id (Utf8.chunks (length r') r')) as [cs'|] eqn:Hm; [|done].
  injection Hd as <-.
  rewrite (step_sound _ _ _ _ Hs). unfold Utf8.encode. rewrite bind_cons. f_equal.
  eapply IH; [|done|exact Hm]. simpl. lia.
Qed.

Lemma decode_ok bs cs : Utf8.decode bs = Some cs -> Forall char_ok cs.
Proof.
  unfold Utf8.decode. generalize (length bs) as n. intros n. revert bs cs.
  induction n as [|n IH]; intros [|b0 r] cs Hd; try by injection Hd as <-.
  cbn [Utf8.chunks] in Hd.
  destruct (Utf8.step b0 r) as [[c|] r'] eqn:Hs; [|done]. cbn in Hd.
  destruct (mapM id (Utf8.chunks n r')) as [cs'|] eqn:Hm; [|done]. injection Hd as <-.
  constructor; [by apply step_char_ok in Hs|]. by eapply IH.
Qed.

(** ** Integer facts *)
Definition is_digit (c : Z) : Prop := 48 <= c <= 57.

Lemma decimal_loop_digits fuel n acc :
  Forall is_digit acc -> Forall is_digit (decimal_loop fuel n acc).
Proof.
  revert n acc. induction fuel as [|fuel IH]; intros n acc Ha; [done|]. cbn [decimal_loop].
  assert (Hd : Forall is_digit ((48 + n mod 10) :: acc)).
  { constructor; [|done]. unfold is_digit. pose proof (Z.mod_pos_bound n 10). lia. }
  case_match; auto.
Qed.

Lemma decimal_digits n : Forall is_digit (decimal n).
Proof. apply decimal_loop_digits. constructor. Qed.

Lemma decimal_nonempty n : decimal n <> [].
Proof.
  unfold decimal. generalize (Z.to_nat (Z.log2 n)) as k. intros k. cbn [decimal_loop].
  assert (Hg : forall k n acc, acc <> [] -> decimal_loop k n acc <> []).
  { clear. induction k as [|k IH]; intros n acc Ha; [done|]. cbn [decimal_loop]. case_match; [done|by apply IH]. }
  case_match; [done|by apply Hg].
Qed.

Lemma digits_value_loop fuel n acc :
  0 <= n < 2 ^ Z.of_nat fuel -> (0 < fuel)%nat ->
  digits_value 0 (decimal_loop fuel n acc) = digits_value n acc.
Proof.
  revert n acc. induction fuel as [|fuel IH]; intros n acc Hn Hf; [lia|]. cbn [decimal_loop].
  assert (Hstep : forall a, a * 10 + n mod 10 = n -> digits_value a ((48 + n mod 10) :: acc) = digits_value n acc).
  { intros a Ha. cbn [digits_value]. unfold Utf8.within. pose proof (Z.mod_pos_bound n 10).
    destruct (_ && _) eqn:E; [f_equal; lia|]. apply andb_false_iff in E as [?|?]; lia. }
  destruct (n / 10 =? 0) eqn:E.
  - apply Z.eqb_eq in E. apply Hstep. pose proof (Z.div_mod n 10). lia.
  - apply Z.eqb_neq in E. rewrite Nat2Z.inj_succ, Z.pow_succ_r in Hn by lia.
    assert (0 <= n / 10 < 2 ^ Z.of_nat fuel) by (Z.to_euclidean_division_equations; lia).
    destruct fuel as [|fuel]; [simpl in *; lia|]. rewrite IH by lia. apply Hstep.
    pose proof (Z.div_mod n 10). lia.
Qed.

Lemma parse_digits_decimal n : 0 <= n -> parse_digits (decimal n) = Some n.
Proof.
  intros Hn. unfold parse_digits. destruct (decimal n) as [|c r] eqn:Hd; [by apply decimal_nonempty in Hd|].
  rewrite <-Hd. unfold decimal. rewrite digits_value_loop; [done| |lia]. split; [done|].
  rewrite Nat2Z.inj_succ, Z2Nat.id by apply Z.log2_nonneg.
  destruct (decide (n = 0)) as [->|]; [done|]. apply Z.log2_spec. lia.
Qed.

(** What an integer is written as reads back. *)
Lemma parse_int_decimal lo hi n : 0 <= n -> lo <= n <= hi -> parse_int lo hi (decimal n) = Some n.
Proof.
  intros Hn Hr. unfold parse_int. pose proof (parse_digits_decimal n Hn) as Hp.
  pose proof (decimal_digits n) as Hd. unfold Utf8.within.
  assert (Hsign : forall c r, decimal n = c :: r -> c <> 43 /\ c <> 45).
  { intros c r He. rewrite He in Hd. apply Forall_cons in Hd as [Hc _]. unfold is_digit in Hc. lia. }
  assert (Hv : match decimal n with
               | 43 :: r => parse_digits r
               | 45 :: r => if lo <? 0 then Z.opp <$> parse_digits r else None
               | _ => parse_digits (decimal n) end = Some n).
  { destruct (decimal n) as [|c r]; [done|]. destruct (Hsign c r eq_refl).
    repeat (case_match; try done; try lia). }
  rewrite Hv. destruct (_ && _) eqn:E; [done|]. apply andb_false_iff in E as [?|?]; lia.
Qed.

(** ** Splitting and trimming facts *)
Definition free (p : Z -> bool) (s : list Z) : Prop := Forall (fun c => p c = false) s.

Lemma split_by_free p s : free p s -> split_by p s = [s].
Proof. induction 1 as [|c s Hc _ IH]; [done|]. cbn [split_by]. by rewrite Hc, IH. Qed.

Lemma split_by_app p a c b : free p a -> p c = true -> split_by p (a ++ c :: b) = a :: split_by p b.
Proof.
  intros Ha Hc. induction Ha as [|x a Hx _ IH]; cbn [app split_by]; [by rewrite Hc|]. by rewrite Hx, IH.
Qed.

Lemma split_once_by_app p a c b : free p a -> p c = true -> split_once_by p (a ++ c :: b) = Some (a, b).
Proof.
  intros Ha Hc. induction Ha as [|x a Hx _ IH]; cbn [app split_once_by]; [by rewrite Hc|]. by rewrite Hx, IH.
Qed.

(** Terminated pieces split back, with an empty last piece. *)
Lemma split_by_terminated {A} p c (f : A -> list Z) l :
  p c = true -> Forall (fun x => free p (f x)) l -> split_by p (l ≫= fun x => f x ++ [c]) = (f <$> l) ++ [[]].
Proof.
  intros Hc. induction 1 as [|x l Hx _ IH]; [done|].
  rewrite bind_cons, <-app_assoc. cbn [app]. by rewrite split_by_app, IH.
Qed.

Lemma trim_start_by_id p s : (forall c, head s = Some c -> p c = false) -> trim_start_by p s = s.
Proof. destruct s as [|c s]; intros Hh; [done|]. cbn [trim_start_by]. by rewrite Hh. Qed.

Lemma trim_id s :
  (forall c, head s = Some c -> is_whitespace c = false) -> (forall c, last s = Some c -> is_whitespace c = false) ->
  trim s = s.
Proof.
  intros Hh Hl. unfold trim, trim_end_by. rewrite (trim_start_by_id _ s) by done.
  rewrite trim_start_by_id; [apply rev_involutive|]. intros c Hc. apply Hl.
  rewrite rev_alt in Hc. fold (reverse s) in Hc. by rewrite head_reverse in Hc.
Qed.

Lemma free_app p a b : free p a -> free p b -> free p (a ++ b).
Proof. apply Forall_app_2. Qed.

Lemma free_weaken (p q : Z -> bool) s : (forall c, p c = true -> q c = true) -> free q s -> free p s.
Proof.
  intros Hpq Hs. apply (Forall_impl _ _ _ Hs). intros c Hc. destruct (p c) eqn:E; [|done]. apply Hpq in E. congruence.
Qed.

Lemma trim_free s : free is_whitespace s -> trim s = s.
Proof.
  intros Hs. apply trim_id; intros c Hc.
  - destruct s; [done|]. injection Hc as ->. by apply Forall_cons in Hs as [? _].
  - apply last_Some_elem_of in Hc. by apply (proj1 (Forall_forall _ _) Hs).
Qed.
