(* ===== verification/Bus.v ===== *)
(** * The typed event bus ([bus/mod.rs])

    One broadcast channel per topic; an event is routed by [topic].  The channel
    itself is tokio's: what the bus owns is which topics have a channel, how many
    receivers each channel was asked for, and which events it has handed to the
    channels, in order. *)
From Stdlib Require Import ZArith.
From stdpp Require Import prelude gmap strings list finite.
From S2P Require Import Prelude Types.

Inductive EventTopic :=
| Diagnostics | Connection | PortForward | Transfer | Recorder | AutoLock | Import
| Update | KnownHosts | Sessions | Keys | Config | Tier | SecurityPrompt
| SecurityCapabilities | CoreLogTopic | SshAgent.

#[export] Instance EventTopic_eq_dec : EqDecision EventTopic.
Proof. solve_decision. Defined.

(** [EventTopic::ALL], in declaration order. *)
Definition ALL : list EventTopic :=
  [ Diagnostics; Connection; PortForward; Transfer; Recorder; AutoLock; Import;
    Update; KnownHosts; Sessions; Keys; Config; Tier; SecurityPrompt;
    SecurityCapabilities; CoreLogTopic; SshAgent ].

Inductive CoreLogLevel := Info | Warn | Error.

Inductive KnownHostPromptKind := NewHost | KeyChanged.

Inductive Event :=
| Echoed (payload : string)
| ConnectionStateChanged (id : string) (state : ConnectionState)
| ConnectionProgress (id : string) (step : ProgressStep)
| ConnectionError (id detail : string)
| ConnectionRemoved (id : string)
| ConnectionActiveCountChanged (count : Z)
| AutoLockLocked
| AutoLockUnlocked
| AutoLockTimeoutChanged (minutes : Z)
| ConfigChanged (json : string)
| TierStateChanged (state_wire_name : string)
| UnlockCascadeReady (tier_wire : string) (has_key : bool)
| CredentialPromptRequest (prompt_id session_id kind_wire_name : string)
| KeychainProbePromptRequest (prompt_id : string)
| HardwareVaultProbePromptRequest (prompt_id : string)
| HardwareVaultUnlockPromptRequest (prompt_id : string) (pin : option string)
| HardwareVaultSealPromptRequest (prompt_id db_key_secret_id : string)
    (pin_secret_id : option string)
| RecoveryPromptRequest (prompt_id : string) (kind : RecoveryPromptKind)
    (choices : list string)
| SecurityCapabilitiesChanged (json : string)
| RecorderStarted (id path : string)
| RecorderStopped (id : string)
| RecorderBytesWritten (id : string) (total_bytes : Z)
| RecorderRotateRequested (id : string) (bytes_written : Z)
| RecorderWriteFailed (id kind detail : string)
| TransferTaskAdded (id : string)
| TransferTaskState (id : string) (state : TaskState)
| TransferTaskProgress (id : string) (bytes_done bytes_total : Z)
| TransferTaskError (id detail : string)
| PortForwardRegistered (id : string)
| PortForwardStatus (id : string) (status : RuleStatus) (detail : option string)
| PortForwardRemoved (id : string)
| UpdateDownloadProgress (url : string) (written_bytes : Z) (total_bytes : option Z)
| UpdateVerifyingStarted (url : string)
| UpdateDownloadCompleted (url path : string)
| KnownHostsChanged
| SessionsChanged
| KeysChanged
| KnownHostPromptRequest (prompt_id host : string) (port : Z)
    (key_type fingerprint : string) (kind : KnownHostPromptKind)
| KnownHostPromptResolved (prompt_id : string) (accepted : bool)
| CoreLog (level : CoreLogLevel) (name message : string)
| SshAgentSignaturePrompt (request_id key_id key_label : string) (requester : option string).

#[export] Instance CoreLogLevel_eq_dec : EqDecision CoreLogLevel.
Proof. solve_decision. Defined.

#[export] Instance KnownHostPromptKind_eq_dec : EqDecision KnownHostPromptKind.
Proof. solve_decision. Defined.

#[export] Instance Event_eq_dec : EqDecision Event.
Proof. solve_decision. Defined.

Definition topic (e : Event) : EventTopic :=
  match e with
  | Echoed _ => Diagnostics
  | ConnectionStateChanged _ _ | ConnectionProgress _ _ | ConnectionError _ _
  | ConnectionRemoved _ | ConnectionActiveCountChanged _ => Connection
  | AutoLockLocked | AutoLockUnlocked | AutoLockTimeoutChanged _ => AutoLock
  | RecorderStarted _ _ | RecorderStopped _ | RecorderBytesWritten _ _
  | RecorderRotateRequested _ _ | RecorderWriteFailed _ _ _ => Recorder
  | TransferTaskAdded _ | TransferTaskState _ _ | TransferTaskProgress _ _ _
  | TransferTaskError _ _ => Transfer
  | PortForwardRegistered _ | PortForwardStatus _ _ _ | PortForwardRemoved _ => PortForward
  | UpdateDownloadProgress _ _ _ | UpdateVerifyingStarted _
  | UpdateDownloadCompleted _ _ => Update
  | KnownHostsChanged => KnownHosts
  | SessionsChanged => Sessions
  | KeysChanged => Keys
  | ConfigChanged _ => Config
  | TierStateChanged _ | UnlockCascadeReady _ _ => Tier
  | CoreLog _ _ _ => CoreLogTopic
  | SshAgentSignaturePrompt _ _ _ _ => SshAgent
  | CredentialPromptRequest _ _ _ => SecurityPrompt
  | KeychainProbePromptRequest _ => SecurityPrompt
  | HardwareVaultProbePromptRequest _ => SecurityPrompt
  | HardwareVaultUnlockPromptRequest _ _ => SecurityPrompt
  | HardwareVaultSealPromptRequest _ _ _ => SecurityPrompt
  | RecoveryPromptRequest _ _ _ => SecurityPrompt
  | SecurityCapabilitiesChanged _ => SecurityCapabilities
  | KnownHostPromptRequest _ _ _ _ _ _ | KnownHostPromptResolved _ _ => KnownHosts
  end.

(** [ALL] lists every topic once, which is what [EventBus::new] and the [expect]
    of [subscribe] rely on. *)
Lemma ALL_complete t : t ∈ ALL.
Proof. destruct t; unfold ALL; set_solver. Qed.

Lemma ALL_NoDup : NoDup ALL.
Proof. apply (bool_decide_unpack _). vm_compute. exact I. Qed.

#[export, program] Instance EventTopic_finite : Finite EventTopic := {| enum := ALL |}.
Next Obligation. apply ALL_NoDup. Qed.
Next Obligation. apply ALL_complete. Qed.

(** ** The bus *)
Record EventBus := mkBus {
  senders : gmap EventTopic nat;
  sent : list Event
}.

Module EventBus.

Definition new : EventBus :=
  mkBus (foldl (fun m t => <[t := 0%nat]> m) ∅ ALL) [].

(** [publish]: the number of receivers the channel delivers to; an event whose
    topic has no channel is dropped. *)
Definition publish (e : Event) (b : EventBus) : nat * EventBus :=
  match senders b !! topic e with
  | None => (0%nat, b)
  | Some n => (n, mkBus (senders b) (sent b ++ [e]))
  end.

(** [subscribe]: [None] is the panic of the [expect]. *)
Definition subscribe (t : EventTopic) (b : EventBus) : option EventBus :=
  match senders b !! t with
  | None => None
  | Some n => Some (mkBus (<[t := S n]> (senders b)) (sent b))
  end.

Definition subscriber_count (b : EventBus) : nat :=
  map_fold (fun _ n acc => (n + acc)%nat) 0%nat (senders b).

Definition publish_ssh_agent_prompt (request_id key_id key_label : string)
    (requester : option string) (b : EventBus) : nat * EventBus :=
  publish (SshAgentSignaturePrompt request_id key_id key_label requester) b.

End EventBus.

(** The state a bus can be in: every topic has its channel. *)
Definition bus_wf (b : EventBus) : Prop := forall t, is_Some (senders b !! t).

Lemma bus_wf_new : bus_wf EventBus.new.
Proof. intros t. destruct t; vm_compute; eauto. Qed.

Lemma bus_wf_publish e b : bus_wf b -> bus_wf (EventBus.publish e b).2.
Proof. intros H t. unfold EventBus.publish. case_match; apply H. Qed.

Lemma publish_sent e b : bus_wf b -> sent (EventBus.publish e b).2 = sent b ++ [e].
Proof.
  intros H. unfold EventBus.publish. destruct (H (topic e)) as [n Hn]. by rewrite Hn.
Qed.

Lemma publish_senders e b : senders (EventBus.publish e b).2 = senders b.
Proof. unfold EventBus.publish. by case_match. Qed.

#[export] Hint Resolve bus_wf_new bus_wf_publish : lfs.

(** The calls on the bus. *)
Inductive bus_op :=
| Publish (e : Event)
| Subscribe (t : EventTopic).

(** [None] when the call panics. *)
Definition bus_step (b : EventBus) (o : bus_op) : option EventBus :=
  match o with
  | Publish e => Some (EventBus.publish e b).2
  | Subscribe t => EventBus.subscribe t b
  end.

Fixpoint bus_run (b : EventBus) (os : list bus_op) : option EventBus :=
  match os with
  | [] => Some b
  | o :: os => match bus_step b o with Some b' => bus_run b' os | None => None end
  end.

Definition published (os : list bus_op) : list Event :=
  omap (fun o => match o with Publish e => Some e | Subscribe _ => None end) os.

Lemma subscribe_wf t b :
  bus_wf b -> exists b', EventBus.subscribe t b = Some b' /\ bus_wf b' /\ sent b' = sent b.
Proof.
  intros H. unfold EventBus.subscribe. destruct (H t) as [n Hn]. rewrite Hn.
  eexists. split; [done|]. split; [|done]. intros t'. simpl.
  rewrite lookup_insert. case_decide; [eauto|apply H].
Qed.

(** the bus never panics and never drops an event: from [EventBus::new], any
    sequence of publishes and subscribes runs to the end ([subscribe]'s [expect]
    cannot fail and [publish] never takes its missing-channel branch), and the
    events handed to the channels are exactly the published ones, in order. *)
Theorem bus_is_total (os : list bus_op) :
  exists b, bus_run EventBus.new os = Some b /\ bus_wf b /\ sent b = published os.
Proof.
  assert (forall b, bus_wf b -> exists b', bus_run b os = Some b' /\ bus_wf b' /\
    sent b' = sent b ++ published os) as Hgen.
  { induction os as [|o os IH]; intros b Hb; simpl.
    - exists b. by rewrite app_nil_r.
    - destruct o as [e|t]; simpl.
      + destruct (IH _ (bus_wf_publish e b Hb)) as (b' & Hr & Hw & Hs).
        exists b'. rewrite Hs, publish_sent, <-app_assoc by done. done.
      + destruct (subscribe_wf t b Hb) as (b1 & -> & Hw1 & Hs1).
        destruct (IH b1 Hw1) as (b' & Hr & Hw & Hs).
        exists b'. by rewrite Hs, Hs1. }
  apply (Hgen EventBus.new). apply bus_wf_new.
Qed.
