(* ===== verification/Json.v ===== *)
(** * JSON values as the code sees them

    [serde_json]'s [Value] and [Map]: the constructors and the accessors the source
    matches on ([get], [as_bool], [as_str], [as_i64], [as_u64], [as_f64],
    [as_object], [insert], [extend], [remove]).  A [Number] is an unsigned integer, a
    negative integer or a double; a double is the Standard Library's executable
    model of IEEE 754 (53-bit precision, 1024 maximal exponent).  Text is left to
    the serializer: see [SerdeText]. *)
From Stdlib Require Import ZArith Lia.
From Stdlib Require Import Floats.SpecFloat.
From stdpp Require Import prelude gmap strings list.
From S2P Require Import Prelude.

(** ** Doubles *)
Notation f64 := spec_float.

#[export] Instance f64_eq_dec : EqDecision f64.
Proof. solve_decision. Defined.

Definition f64_lt (a b : f64) : bool := SFltb a b.
Definition f64_le (a b : f64) : bool := SFleb a b.

(** [f64::clamp]: two comparisons, so a NaN passes through. *)
Definition f64_clamp (x lo hi : f64) : f64 :=
  let x := if f64_lt x lo then lo else x in
  if f64_lt hi x then hi else x.

(** [n as f64] for an integer. *)
Definition f64_of_Z (n : Z) : f64 := binary_normalize 53 1024 n 0 false.

(** [n / 2]: the literals of the code are halves of integers. *)
Definition f64_half (n : Z) : f64 := binary_normalize 53 1024 n (-1) false.

#[global] Arguments f64_lt : simpl never.
#[global] Arguments f64_le : simpl never.
#[global] Arguments f64_clamp : simpl never.
#[global] Arguments f64_of_Z : simpl never.
#[global] Arguments f64_half : simpl never.

Definition f64_is_nan (x : f64) : bool := match x with S754_nan => true | _ => false end.

Definition f64_is_finite (x : f64) : bool :=
  match x with S754_zero _ | S754_finite _ _ _ => true | _ => false end.

Lemma finite_not_nan x : f64_is_finite x = true -> f64_is_nan x = false.
Proof. by destruct x. Qed.

(** Clamping to an ordered pair of bounds lands between them and is idempotent. *)
Lemma f64_clamp_idemp x lo hi :
  f64_lt lo lo = false -> f64_lt hi hi = false -> f64_lt hi lo = false -> f64_lt lo hi = true ->
  f64_clamp (f64_clamp x lo hi) lo hi = f64_clamp x lo hi.
Proof.
  intros Hl Hh Hhl Hlh. unfold f64_clamp.
  assert (Hlt : f64_lt hi lo = false) by done.
  destruct (f64_lt x lo) eqn:E1.
  - by rewrite Hlt, Hl, Hlt.
  - destruct (f64_lt hi x) eqn:E2; [by rewrite Hlt, Hh|by rewrite E1, E2].
Qed.

(** Comparison is antisymmetric, so a double that is no NaN compares with any bound. *)
Lemma SFcompare_sym x y : SFcompare y x = CompOpp <$> SFcompare x y.
Proof.
  destruct x as [sx|sx| |sx mx ex], y as [sy|sy| |sy my ey]; try done;
    try (destruct sx; done); try (destruct sy; done).
  - destruct sx, sy; done.
  - destruct sx, sy; simpl; try done;
      rewrite (Z.compare_antisym ex ey); destruct (ex ?= ey)%Z; simpl; try done;
      replace (Pos.compare_cont Eq my mx) with (CompOpp (Pos.compare_cont Eq mx my))
        by apply (Pos.compare_cont_antisym mx my Eq);
      by destruct (Pos.compare_cont _ _ _).
Qed.

Lemma SFcompare_some x y :
  f64_is_nan x = false -> f64_is_nan y = false -> is_Some (SFcompare x y).
Proof. destruct x as [[]|[]| |[] mx ex], y as [[]|[]| |[] my ey]; simpl; try done; eauto;
  destruct (_ ?= _)%Z; eauto. Qed.

Lemma f64_not_lt x y :
  f64_is_nan x = false -> f64_is_nan y = false -> f64_lt x y = false -> f64_le y x = true.
Proof.
  unfold f64_lt, f64_le, SFltb, SFleb. intros Hx Hy. rewrite (SFcompare_sym x y).
  destruct (SFcompare_some x y Hx Hy) as [c ->]. by destruct c.
Qed.

Lemma f64_clamp_in_range x lo hi :
  f64_is_nan x = false -> f64_is_nan lo = false -> f64_is_nan hi = false ->
  f64_lt hi lo = false ->
  f64_le lo (f64_clamp x lo hi) = true /\ f64_le (f64_clamp x lo hi) hi = true.
Proof.
  intros Hx Hlo Hhi Hlt. unfold f64_clamp.
  assert (Hrefl : forall y, f64_is_nan y = false -> f64_le y y = true).
  { intros y Hy. apply f64_not_lt; try done. unfold f64_lt, SFltb.
    pose proof (SFcompare_sym y y) as Hs. destruct (SFcompare y y) as [[]|]; simplify_eq/=; done. }
  destruct (f64_lt x lo) eqn:E1.
  - rewrite Hlt. split; [by apply Hrefl|by apply f64_not_lt].
  - destruct (f64_lt hi x) eqn:E2.
    + split; [by apply f64_not_lt|by apply Hrefl].
    + split; by apply f64_not_lt.
Qed.

(** ** Values *)
Inductive number :=
| PosInt (n : Z)
| NegInt (n : Z)
| Float (x : f64).

Inductive json :=
| JNull
| JBool (b : bool)
| JNumber (n : number)
| JString (s : string)
| JArray (l : list json)
| JObject (m : gmap string json).

Notation jmap := (gmap string json).

Module Json.

Definition as_object (v : json) : option jmap :=
  match v with JObject m => Some m | _ => None end.

Definition as_bool (v : json) : option bool :=
  match v with JBool b => Some b | _ => None end.

Definition as_str (v : json) : option string :=
  match v with JString s => Some s | _ => None end.

Definition as_i64 (v : json) : option Z :=
  match v with
  | JNumber (PosInt n) => if (n <? 2 ^ 63)%Z then Some n else None
  | JNumber (NegInt n) => Some n
  | _ => None
  end.

Definition as_u64 (v : json) : option Z :=
  match v with JNumber (PosInt n) => Some n | _ => None end.

Definition as_f64 (v : json) : option f64 :=
  match v with
  | JNumber (PosInt n) | JNumber (NegInt n) => Some (f64_of_Z n)
  | JNumber (Float x) => Some x
  | _ => None
  end.

(** [json!(n)] for the integer and the float types; a non-finite double has no JSON
    form and becomes [null]. *)
Definition of_i64 (n : Z) : json := JNumber (if (n <? 0)%Z then NegInt n else PosInt n).
Definition of_u64 (n : Z) : json := JNumber (PosInt n).
Definition of_f64 (x : f64) : json := if f64_is_finite x then JNumber (Float x) else JNull.

(** [Map::extend]: the later entries win. *)
Definition extend (m new : jmap) : jmap := new ∪ m.

(** [json.get(k).and_then(f).unwrap_or(d)], the reading idiom of the decoders. *)
Definition get_or {A} (m : jmap) (k : string) (f : json -> option A) (d : A) : A :=
  default d (m !! k ≫= f).

End Json.

#[global] Arguments Json.of_i64 : simpl never.
#[global] Arguments Json.of_f64 : simpl never.
#[global] Arguments Json.as_i64 : simpl never.

Lemma as_i64_of_i64 n : in_i64 n -> Json.as_i64 (Json.of_i64 n) = Some n.
Proof.
  intros Hn. unfold Json.of_i64, Json.as_i64. destruct (n <? 0)%Z eqn:E; [done|].
  int_unfold. destruct (n <? 2 ^ 63)%Z eqn:E2; [done|]. breflect. lia.
Qed.

Lemma as_f64_of_f64 x : f64_is_finite x = true -> Json.as_f64 (Json.of_f64 x) = Some x.
Proof. intros H. unfold Json.of_f64. by rewrite H. Qed.

(** The numbers the parser produces are finite doubles: JSON text has no other. *)
Definition number_finite (v : json) : Prop :=
  match v with JNumber (Float x) => f64_is_finite x = true | _ => True end.

Definition numbers_finite (m : jmap) : Prop := forall k v, m !! k = Some v -> number_finite v.

(** Shifting and rounding keep a mantissa non-negative, so an integer never
    converts to a NaN. *)
Lemma iter_pos_nonneg (f : shr_record -> shr_record) p r :
  (forall r, 0 <= shr_m r -> 0 <= shr_m (f r))%Z ->
  (0 <= shr_m r)%Z -> (0 <= shr_m (SpecFloat.iter_pos f p r))%Z.
Proof. intros Hf. revert r. induction p; intros r Hr; simpl; auto. Qed.

Lemma shr_fexp_nonneg m e l :
  (0 <= m)%Z -> (0 <= shr_m (fst (shr_fexp 53 1024 m e l)))%Z.
Proof.
  intros Hm. unfold shr_fexp, shr.
  assert (H0 : (0 <= shr_m (shr_record_of_loc m l))%Z) by (destruct l as [|[]]; done).
  destruct (_ - e)%Z as [|p|p]; simpl; [done| |done].
  apply iter_pos_nonneg; [|done].
  intros [q r s] Hq. simpl in Hq. destruct q as [|[q|q|]|]; simpl; lia.
Qed.

Lemma round_nearest_even_nonneg m l : (0 <= m)%Z -> (0 <= round_nearest_even m l)%Z.
Proof. intros. destruct l as [|[]]; simpl; try case_match; lia. Qed.

(** The ranges of the numbers a parsed document holds, at its top level. *)
Definition number_ok (n : number) : Prop :=
  match n with
  | PosInt n => in_u64 n
  | NegInt n => (- 2 ^ 63 <= n < 0)%Z
  | Float x => f64_is_finite x = true
  end.

Definition json_ok (v : json) : Prop :=
  match v with
  | JObject m => forall k n, m !! k = Some (JNumber n) -> number_ok n
  | JNumber n => number_ok n
  | _ => True
  end.

Lemma as_i64_range v n : json_ok v -> Json.as_i64 v = Some n -> in_i64 n.
Proof.
  destruct v as [| |[x|x|x]| | |]; unfold Json.as_i64; simpl; int_unfold; try done.
  - intros Hx. destruct (x <? 2 ^ 63)%Z eqn:E; [|done]. intros [= <-]. breflect. lia.
  - intros Hx [= <-]. lia.
Qed.

Lemma json_ok_lookup m k v : json_ok (JObject m) -> m !! k = Some v ->
  forall n, v = JNumber n -> json_ok v.
Proof. intros Hm Hk n ->. simpl. by eapply Hm. Qed.

Lemma f64_of_Z_not_nan n : f64_is_nan (f64_of_Z n) = false.
Proof.
  assert (Haux : forall s m e l, (0 <= m)%Z ->
    f64_is_nan (binary_round_aux 53 1024 s m e l) = false).
  { intros s m e l Hm. unfold binary_round_aux.
    pose proof (shr_fexp_nonneg m e l Hm) as H1.
    destruct (shr_fexp 53 1024 m e l) as [r e1]. simpl in H1.
    pose proof (shr_fexp_nonneg _ e1 loc_Exact
      (round_nearest_even_nonneg _ (loc_of_shr_record r) H1)) as H2.
    destruct (shr_fexp _ _ _ e1 _) as [r2 e2]. simpl in H2.
    destruct (shr_m r2) as [|p|p]; [done|by case_match|lia]. }
  unfold f64_of_Z, binary_normalize, binary_round.
  destruct n as [|p|p]; [done| |]; case_match; apply Haux; lia.
Qed.

Lemma get_or_f64_not_nan m k d :
  numbers_finite m -> f64_is_nan d = false -> f64_is_nan (Json.get_or m k Json.as_f64 d) = false.
Proof.
  intros Hm Hd. unfold Json.get_or. destruct (m !! k) as [v|] eqn:Hk; simpl; [|done].
  apply Hm in Hk. destruct v as [| |n| | |]; simpl; try done.
  destruct n as [n|n|x]; simpl; [apply f64_of_Z_not_nan..|]. by apply finite_not_nan.
Qed.

(** Writing and reading text: [Value::to_string] and [serde_json::from_str].  A
    document is [text_exact] when its text reads back as itself; serde_json promises
    that for documents whose doubles survive the decimal round trip. *)
Class SerdeText := {
  to_text : json -> string;
  from_text : string -> option json;
  from_text_finite : forall t m, from_text t = Some (JObject m) -> numbers_finite m
}.

Definition text_exact `{SerdeText} (v : json) : Prop := from_text (to_text v) = Some v.
