(* ===== verification/SecurityConfig.v ===== *)
(** * Security tiers and their configuration ([security/mod.rs])

    The tier, its modifier bag, the persisted configuration with its JSON form, and
    the mapping from the setup wizard's choice to a configuration and the slot the
    typed secret travels in. *)
From Stdlib Require Import ZArith.
From stdpp Require Import prelude gmap strings list.
From S2P Require Import Prelude Json.

Inductive SecurityTier := Plaintext | Keychain | Hardware | Paranoid.

#[export] Instance SecurityTier_eq_dec : EqDecision SecurityTier.
Proof. solve_decision. Defined.

Module SecurityTier.

Definition is_paranoid (t : SecurityTier) : bool := bool_decide (t = Paranoid).

Definition has_keychain (t : SecurityTier) : bool :=
  match t with Keychain | Hardware => true | _ => false end.

Definition has_hardware_vault (t : SecurityTier) : bool := bool_decide (t = Hardware).

Definition wire_name (t : SecurityTier) : string :=
  match t with
  | Plaintext => "plaintext"
  | Keychain => "keychain"
  | Hardware => "hardware"
  | Paranoid => "paranoid"
  end.

Definition from_wire_name (name : string) : option SecurityTier :=
  if decide (name = "plaintext") then Some Plaintext
  else if decide (name = "keychain") then Some Keychain
  else if decide (name = "hardware") then Some Hardware
  else if decide (name = "paranoid") then Some Paranoid
  else None.

End SecurityTier.

Record SecurityTierModifiers := { password : bool; biometric : bool }.

#[export] Instance SecurityTierModifiers_eq_dec : EqDecision SecurityTierModifiers.
Proof. solve_decision. Defined.

Module SecurityTierModifiers.

Definition default : SecurityTierModifiers := {| password := false; biometric := false |}.

Definition is_valid_for_tier (m : SecurityTierModifiers) (tier : SecurityTier) : bool :=
  if biometric m && negb (password m) then false
  else if bool_decide (tier = Hardware) && negb (password m) then false
  else true.

Definition to_json_map (m : SecurityTierModifiers) : jmap :=
  <["biometric" := JBool (biometric m)]> (<["password" := JBool (password m)]> ∅).

Definition from_json_map (json : jmap) : SecurityTierModifiers :=
  {| password := Json.get_or json "password" Json.as_bool (password default);
     biometric := Json.get_or json "biometric" Json.as_bool (biometric default) |}.

End SecurityTierModifiers.

Record SecurityConfig := { tier : SecurityTier; modifiers : SecurityTierModifiers }.

#[export] Instance SecurityConfig_eq_dec : EqDecision SecurityConfig.
Proof. solve_decision. Defined.

Module SecurityConfig.

Definition defaults : SecurityConfig :=
  {| tier := Plaintext; modifiers := {| password := false; biometric := false |} |}.

Definition is_paranoid (c : SecurityConfig) : bool := SecurityTier.is_paranoid (tier c).
Definition is_plaintext (c : SecurityConfig) : bool := bool_decide (tier c = Plaintext).
Definition uses_keychain (c : SecurityConfig) : bool := bool_decide (tier c = Keychain).
Definition uses_hardware_vault (c : SecurityConfig) : bool := bool_decide (tier c = Hardware).

Definition has_user_secret (c : SecurityConfig) : bool :=
  match tier c with
  | Paranoid | Hardware => true
  | Keychain => password (modifiers c)
  | Plaintext => false
  end.

Definition to_json_value (c : SecurityConfig) : json :=
  JObject
    (<["modifiers" := JObject (SecurityTierModifiers.to_json_map (modifiers c))]>
      (<["tier" := JString (SecurityTier.wire_name (tier c))]> ∅)).

Definition from_json_value (value : json) : SecurityConfig :=
  let d := defaults in
  match Json.as_object value with
  | None => d
  | Some obj =>
      {| tier := Json.get_or obj "tier"
           (fun v => Json.as_str v ≫= SecurityTier.from_wire_name) (tier d);
         modifiers := Json.get_or obj "modifiers"
           (fun v => SecurityTierModifiers.from_json_map <$> Json.as_object v) (modifiers d) |}
  end.

End SecurityConfig.

(** ** The setup wizard *)
Inductive WizardTier := WizPlaintext | WizKeychain | WizHardware | WizParanoid.

Record MappedSetupChoice := {
  choice_tier : SecurityTier;
  choice_modifiers : SecurityTierModifiers;
  master_password : option string;
  short_password : option string;
  pin : option string
}.

Definition map_wizard_choice (chosen : WizardTier) (pw bio : bool)
    (typed_secret : option string) : MappedSetupChoice :=
  let effective_password := match chosen with WizHardware => true | _ => pw end in
  let mods := {| password := effective_password; biometric := bio |} in
  match chosen with
  | WizPlaintext => Build_MappedSetupChoice Plaintext mods None None None
  | WizKeychain =>
      if pw then Build_MappedSetupChoice Keychain mods None typed_secret None
      else Build_MappedSetupChoice Keychain mods None None None
  | WizHardware => Build_MappedSetupChoice Hardware mods typed_secret None None
  | WizParanoid => Build_MappedSetupChoice Paranoid mods typed_secret None None
  end.

(** ** Laws *)
Lemma tier_wire_roundtrip t : SecurityTier.from_wire_name (SecurityTier.wire_name t) = Some t.
Proof. by destruct t. Qed.

Lemma from_wire_name_Some n t :
  SecurityTier.from_wire_name n = Some t <-> n = SecurityTier.wire_name t.
Proof.
  split; [|intros ->; apply tier_wire_roundtrip].
  unfold SecurityTier.from_wire_name. repeat case_decide; intros; simplify_eq; done.
Qed.

Lemma modifiers_roundtrip m :
  SecurityTierModifiers.from_json_map (SecurityTierModifiers.to_json_map m) = m.
Proof. by destruct m. Qed.

(** a security configuration survives its JSON form, whatever other keys a newer
    or hand-edited file carries beside [tier] and [modifiers]; and any value whose
    [tier] is not one of the four wire names reads as plaintext, never as a tier the
    user did not pick. *)
Theorem security_config_roundtrip (c : SecurityConfig) (extra : jmap) (v : json) :
  SecurityConfig.from_json_value (SecurityConfig.to_json_value c) = c /\
  (forall m, SecurityConfig.to_json_value c = JObject m ->
    SecurityConfig.from_json_value (JObject (Json.extend extra m)) = c) /\
  (forall t, tier (SecurityConfig.from_json_value v) = t -> t <> Plaintext ->
    exists m, v = JObject m /\ m !! "tier" = Some (JString (SecurityTier.wire_name t))).
Proof.
  assert (Hrt : forall m, m !! "tier" = Some (JString (SecurityTier.wire_name (tier c))) ->
    m !! "modifiers" = Some (JObject (SecurityTierModifiers.to_json_map (modifiers c))) ->
    SecurityConfig.from_json_value (JObject m) = c).
  { intros m Ht Hm. unfold SecurityConfig.from_json_value, Json.get_or; simpl.
    rewrite Ht, Hm; simpl. rewrite tier_wire_roundtrip, modifiers_roundtrip. by destruct c. }
  split; [by apply Hrt|]. split.
  - intros m [= <-]. apply Hrt; unfold Json.extend; by apply lookup_union_Some_l.
  - intros t Ht Hne. destruct v as [| | | | |m]; simpl in Ht; try congruence.
    exists m. split; [done|]. unfold Json.get_or in Ht.
    destruct (m !! "tier") as [w|] eqn:Hw; simpl in Ht; [|congruence].
    destruct w as [| | |s| |]; simpl in Ht; try congruence.
    destruct (SecurityTier.from_wire_name s) as [t'|] eqn:Hs; simpl in Ht; [|congruence].
    apply from_wire_name_Some in Hs. congruence.
Qed.

(** The secrets the mapped choice carries, over its three slots. *)
Definition routed (c : MappedSetupChoice) : list string :=
  omap id [master_password c; short_password c; pin c].

Definition chosen_config (c : MappedSetupChoice) : SecurityConfig :=
  {| tier := choice_tier c; modifiers := choice_modifiers c |}.

(** the wizard's mapping loses no secret and leaks none: the typed secret is
    routed exactly once when the chosen configuration has a user secret and not at
    all otherwise, it never uses the legacy [pin] slot, and the configuration is
    valid for its tier exactly when biometric was not asked for without a password
    (the Hardware tier forces the password on). *)
Theorem wizard_routes_secret (w : WizardTier) (pw bio : bool) (secret : option string) :
  let c := map_wizard_choice w pw bio secret in
  routed c = (if SecurityConfig.has_user_secret (chosen_config c) then omap id [secret] else []) /\
  pin c = None /\
  SecurityTierModifiers.is_valid_for_tier (choice_modifiers c) (choice_tier c) =
    (negb bio || password (choice_modifiers c)).
Proof.
  destruct w, pw, bio, secret; repeat split; done.
Qed.
