(* ===== verification/TierMachine.v ===== *)
(** * The tier machine ([security/tier_machine.rs])

    The lock state of the active tier, its transition table, and the process-wide
    machine that publishes every committed transition on the bus. *)
From Stdlib Require Import ZArith Lia.
From stdpp Require Import prelude gmap strings list.
From S2P Require Import Prelude Types Bus Json SecurityConfig.

Inductive TierState := Locked | Unlocking | Unlocked | Wiping.

#[export] Instance TierState_eq_dec : EqDecision TierState.
Proof. solve_decision. Defined.

Definition wire_name (s : TierState) : string :=
  match s with
  | Locked => "locked"
  | Unlocking => "unlocking"
  | Unlocked => "unlocked"
  | Wiping => "wiping"
  end.

Inductive UnlockFailureReason :=
| WrongSecret
| PluginUnavailable (code : string)
| UserCancelled
| Corruption (detail : string).

Inductive TierEvent :=
| UnlockRequested
| UnlockSucceeded
| UnlockFailed (reason : UnlockFailureReason)
| LockRequested
| Wiped.

Definition next_state (current : TierState) (event : TierEvent) : option TierState :=
  match current, event with
  | Locked, UnlockRequested => Some Unlocking
  | Locked, Wiped => Some Wiping
  | Unlocking, UnlockSucceeded => Some Unlocked
  | Unlocking, UnlockFailed _ => Some Locked
  | Unlocking, LockRequested => Some Locked
  | Unlocked, LockRequested => Some Locked
  | Unlocked, Wiped => Some Wiping
  | Wiping, _ => None
  | _, _ => None
  end.

Record Machine := mkMachine { state : TierState; active_tier : SecurityTier }.

(** Every operation reads and writes the machine and the process's bus. *)
Module Machine.

Definition new (initial_tier : SecurityTier) : Machine := mkMachine Locked initial_tier.

Definition dispatch (event : TierEvent) (m : Machine) (b : EventBus) :
    option TierState * (Machine * EventBus) :=
  match next_state (state m) event with
  | None => (None, (m, b))
  | Some next =>
      (Some next,
       (mkMachine next (active_tier m), (EventBus.publish (TierStateChanged (wire_name next)) b).2))
  end.

Definition set_tier (t : SecurityTier) (m : Machine) : Machine := mkMachine (state m) t.

Definition try_advance (m : Machine) (b : EventBus) : option TierState * (Machine * EventBus) :=
  if decide (state m = Unlocking) then
    match active_tier m with
    | Plaintext => dispatch UnlockSucceeded m b
    | _ => (None, (m, b))
    end
  else (None, (m, b)).

(** The process singleton: [instance] seeds it, [instance_dispatch] swaps the tier and
    dispatches in one critical section. *)
Definition instance : Machine := new Plaintext.

Definition instance_dispatch (t : SecurityTier) (event : TierEvent) (m : Machine) (b : EventBus) :
    option TierState * (Machine * EventBus) :=
  dispatch event (set_tier t m) b.

End Machine.

(** ** Runs *)
Inductive machine_op :=
| Dispatch (e : TierEvent)
| InstanceDispatch (t : SecurityTier) (e : TierEvent)
| SetTier (t : SecurityTier)
| TryAdvance.

Definition machine_exec (mb : Machine * EventBus) (o : machine_op) :
    option TierState * (Machine * EventBus) :=
  let '(m, b) := mb in
  match o with
  | Dispatch e => Machine.dispatch e m b
  | InstanceDispatch t e => Machine.instance_dispatch t e m b
  | SetTier t => (None, (Machine.set_tier t m, b))
  | TryAdvance => Machine.try_advance m b
  end.

Definition machine_run (mb : Machine * EventBus) (os : list machine_op) : Machine * EventBus :=
  foldl (fun mb o => (machine_exec mb o).2) mb os.

(** What a subscriber of the tier topic sees: the wire names, in order. *)
Definition tier_trace (b : EventBus) : list string :=
  omap (fun e => match e with TierStateChanged w => Some w | _ => None end) (sent b).

Lemma publish_tier_trace n b :
  bus_wf b ->
  tier_trace (EventBus.publish (TierStateChanged n) b).2 = tier_trace b ++ [n].
Proof. intros Hb. unfold tier_trace. by rewrite publish_sent, omap_app. Qed.

Lemma publish_tier_trace_other e b :
  bus_wf b -> (forall w, e <> TierStateChanged w) ->
  tier_trace (EventBus.publish e b).2 = tier_trace b.
Proof.
  intros Hb He. unfold tier_trace. rewrite publish_sent, omap_app by done. simpl.
  destruct e; try (by rewrite app_nil_r). by destruct (He state_wire_name).
Qed.

(** Every operation either changes nothing a subscriber sees, or commits one
    transition of the table and announces it. *)
Lemma machine_exec_cases m b o :
  bus_wf b ->
  let '(r, (m', b')) := machine_exec (m, b) o in
  bus_wf b' /\
  ((r = None /\ state m' = state m /\ b' = b) \/
   exists e, next_state (state m) e = Some (state m') /\ r = Some (state m') /\
     tier_trace b' = tier_trace b ++ [wire_name (state m')]).
Proof.
  intros Hb.
  assert (Hd : forall e m0, state m0 = state m ->
    let '(r, (m', b')) := Machine.dispatch e m0 b in
    bus_wf b' /\
    ((r = None /\ state m' = state m /\ b' = b) \/
     exists e, next_state (state m) e = Some (state m') /\ r = Some (state m') /\
       tier_trace b' = tier_trace b ++ [wire_name (state m')])).
  { intros e m0 Hm0. unfold Machine.dispatch. rewrite Hm0.
    destruct (next_state (state m) e) as [n|] eqn:Hn.
    - split; [by apply bus_wf_publish|]. right. exists e. simpl.
      by rewrite publish_tier_trace.
    - split; [done|]. left. done. }
  destruct o as [e|t e|t|]; simpl.
  - by apply Hd.
  - by apply Hd.
  - split; [done|]. by left.
  - unfold Machine.try_advance. case_decide; [|split; [done|by left]].
    destruct (active_tier m); [by apply Hd|split; [done|by left]..].
Qed.

(** A trace is a path of the table from [s] to [t]. *)
Fixpoint path (s : TierState) (names : list string) (t : TierState) : Prop :=
  match names with
  | [] => s = t
  | n :: names => exists s' e, next_state s e = Some s' /\ n = wire_name s' /\ path s' names t
  end.

Lemma path_snoc s names t e u :
  path s names t -> next_state t e = Some u -> path s (names ++ [wire_name u]) u.
Proof.
  revert s. induction names as [|n names IH]; simpl; intros s.
  - intros -> Hn. by exists u, e.
  - intros (s' & e' & Hn & -> & Hp) Hu. exists s', e'. eauto.
Qed.

Lemma machine_run_path m b os :
  bus_wf b ->
  let '(m', b') := machine_run (m, b) os in
  bus_wf b' /\ exists l, tier_trace b' = tier_trace b ++ l /\ path (state m) l (state m').
Proof.
  intros Hb. induction os as [|o os IH] using rev_ind.
  - simpl. split; [done|]. exists []. by rewrite app_nil_r.
  - unfold machine_run in *. rewrite foldl_app. simpl.
    destruct (foldl _ (m, b) os) as [m1 b1]. destruct IH as (Hb1 & l & Hl & Hp).
    pose proof (machine_exec_cases m1 b1 o Hb1) as Hc.
    destruct (machine_exec (m1, b1) o) as [r [m2 b2]]. simpl.
    destruct Hc as (Hb2 & [(_ & Hs & ->)|(e & Hn & _ & Ht)]); (split; [done|]).
    + exists l. by rewrite Hs.
    + exists (l ++ [wire_name (state m2)]). rewrite Ht, Hl, app_assoc.
      split; [done|]. by eapply path_snoc.
Qed.

Lemma path_app s l1 l2 t :
  path s (l1 ++ l2) t <-> exists u, path s l1 u /\ path u l2 t.
Proof.
  revert s. induction l1 as [|n l1 IH]; intros s; simpl.
  - split; [by exists s|]. by intros (u & -> & ?).
  - setoid_rewrite IH. naive_solver.
Qed.

Lemma path_last s l n t : path s (l ++ [n]) t -> n = wire_name t.
Proof. rewrite path_app. simpl. naive_solver. Qed.

Lemma wire_name_inj s1 s2 : wire_name s1 = wire_name s2 -> s1 = s2.
Proof. by destruct s1, s2. Qed.

(** In a path, [unlocked] is announced right after [unlocking], and nothing is
    announced after [wiping]. *)
Lemma path_unlocked s l1 l2 t :
  path s (l1 ++ "unlocked" :: l2) t -> s <> Unlocking -> exists l, l1 = l ++ ["unlocking"].
Proof.
  rewrite path_app. intros (u & Hp & s' & e & Hn & Hw & _) Hs.
  assert (u = Unlocking) as -> by (destruct u, e; simplify_eq/=; done).
  induction l1 as [|n l _] using rev_ind; [by simplify_eq/=|].
  apply path_last in Hp as ->. by exists l.
Qed.

Lemma path_wiping l t : path Wiping l t -> l = [] /\ t = Wiping.
Proof. destruct l; simpl; [done|]. intros (s' & e & Hn & _). by destruct e. Qed.

(** what the interface sees is the lock state.  After any sequence of dispatches,
    tier swaps and self-advances on the process's machine: the last announced name is
    the machine's state ([locked] before any); an [unlocked] announcement always comes
    immediately after an [unlocking] one, so the database is never announced open
    without an unlock in progress; and [wiping] is final: it is the last announcement
    ever made. *)
Theorem tier_trace_is_lock_state (os : list machine_op) :
  let '(m, b) := machine_run (Machine.instance, EventBus.new) os in
  default "locked" (last (tier_trace b)) = wire_name (state m) /\
  (forall l1 l2, tier_trace b = l1 ++ "unlocked" :: l2 -> exists l, l1 = l ++ ["unlocking"]) /\
  (forall l1 l2, tier_trace b = l1 ++ "wiping" :: l2 -> l2 = [] /\ state m = Wiping).
Proof.
  pose proof (machine_run_path Machine.instance EventBus.new os bus_wf_new) as Hrun.
  destruct (machine_run _ os) as [m b]. destruct Hrun as (_ & l & Hl & Hp).
  simpl in Hp. assert (Htr : tier_trace b = l) by (by rewrite Hl). rewrite Htr.
  split; [|split].
  - clear Hl Htr. induction l as [|n l _] using rev_ind; [simpl in Hp; by rewrite <-Hp|].
    rewrite last_snoc. by apply path_last in Hp.
  - intros l1 l2 ->. by eapply path_unlocked.
  - intros l1 l2 ->. apply path_app in Hp as (u & _ & s' & e & _ & Hw & Hp2).
    apply (wire_name_inj Wiping) in Hw as <-. by apply path_wiping in Hp2.
Qed.

(** The swap of [instance_dispatch] is not conditional on the dispatch: a rejected
    event still leaves the new tier active. *)
Lemma instance_dispatch_swaps t e m b :
  active_tier (Machine.instance_dispatch t e m b).2.1 = t.
Proof. unfold Machine.instance_dispatch, Machine.dispatch. by case_match. Qed.

Lemma dispatch_wf e m b : bus_wf b -> bus_wf (Machine.dispatch e m b).2.2.
Proof. intros Hb. unfold Machine.dispatch. case_match; [by apply bus_wf_publish|done]. Qed.

#[export] Hint Resolve dispatch_wf : lfs.
