(* ===== verification/AutoLock.v ===== *)
(** * The auto-lock machine ([autolock.rs])

    Every operation is a critical section on the inner state followed by effects
    made after the guard is dropped ([fire_lock], a publish, the ticker's second
    critical section).  A section returns the new state and the continuation it
    leaves behind; [tails] holds the continuations of the calls that are between the
    two, so that calls from several tasks interleave where the code lets them. *)
From Stdlib Require Import ZArith Lia.
From stdpp Require Import prelude gmap strings list.
From S2P Require Import Prelude Types Bus.

Inductive LifecycleState := Foreground | Background.

#[export] Instance LifecycleState_eq_dec : EqDecision LifecycleState.
Proof. solve_decision. Defined.

Record State := mkState {
  last_activity_ms : Z;
  lock_after_ms : Z;
  lifecycle : LifecycleState;
  locked : bool
}.

(** What is left of a call once its first critical section is over. *)
Inductive tail :=
| TickerLock
| FireLock
| PublishLocked
| PublishUnlocked
| PublishTimeout (minutes : Z).

#[export] Instance tail_eq_dec : EqDecision tail.
Proof. solve_decision. Defined.

Module AutoLockMachine.

Definition new (now : Z) : State := mkState now 0 Foreground false.

Definition on_pointer_activity (now : Z) (g : State) : State * list tail :=
  (mkState now (lock_after_ms g) (lifecycle g) (locked g), []).

Definition on_lifecycle_change (s : LifecycleState) (now : Z) (g : State) : State * list tail :=
  let was := lifecycle g in
  if (bool_decide (s = Background) && (0 <? lock_after_ms g)%Z && negb (locked g))%bool then
    (mkState (last_activity_ms g) (lock_after_ms g) s true, [FireLock])
  else if decide (s = was) then
    (mkState (last_activity_ms g) (lock_after_ms g) s (locked g), [])
  else
    (mkState now (lock_after_ms g) s (locked g), []).

Definition set_timeout_minutes (minutes now : Z) (g : State) : State * list tail :=
  (mkState now (wrap_i64 (Z.max minutes 0 * 60000)) (lifecycle g) (locked g),
   [PublishTimeout (Z.max minutes 0)]).

Definition request_lock (g : State) : State * list tail :=
  if locked g then (g, [])
  else (mkState (last_activity_ms g) (lock_after_ms g) (lifecycle g) true, [FireLock]).

Definition unlock (now : Z) (g : State) : State * list tail :=
  if negb (locked g) then (g, [])
  else (mkState now (lock_after_ms g) (lifecycle g) false, [PublishUnlocked]).

(** One turn of the ticker's loop: the test under the first guard... *)
Definition should_lock (now : Z) (g : State) : bool :=
  (negb (locked g) && (0 <? lock_after_ms g)%Z &&
   (lock_after_ms g <=? wrap_i64 (now - last_activity_ms g))%Z)%bool.

Definition ticker (now : Z) (g : State) : State * list tail :=
  (g, if should_lock now g then [TickerLock] else []).

(** ... and the flip under the second. *)
Definition ticker_lock (g : State) : State * list tail :=
  if locked g then (g, [])
  else (mkState (last_activity_ms g) (lock_after_ms g) (lifecycle g) true, [FireLock]).

End AutoLockMachine.

Section Machine.
Import AutoLockMachine.

(** [lock_action] works on a state of the application; [None] before it is set. *)
Context {A : Type} (lock_action : option (A -> A)).

Record world := mkWorld {
  inner : State;
  app : A;
  bus : EventBus;
  tails : list tail
}.

Definition run_action (a : A) : A :=
  match lock_action with Some f => f a | None => a end.

(** [fire_lock]: the side-effect chain, then the event. *)
Definition fire_lock (a : A) : A * list tail := (run_action a, [PublishLocked]).

Definition exec_tail (t : tail) (w : world) : world :=
  match t with
  | TickerLock =>
      let '(g, ts) := ticker_lock (inner w) in mkWorld g (app w) (bus w) (tails w ++ ts)
  | FireLock =>
      let '(a, ts) := fire_lock (app w) in mkWorld (inner w) a (bus w) (tails w ++ ts)
  | PublishLocked =>
      mkWorld (inner w) (app w) (EventBus.publish AutoLockLocked (bus w)).2 (tails w)
  | PublishUnlocked =>
      mkWorld (inner w) (app w) (EventBus.publish AutoLockUnlocked (bus w)).2 (tails w)
  | PublishTimeout m =>
      mkWorld (inner w) (app w) (EventBus.publish (AutoLockTimeoutChanged m) (bus w)).2 (tails w)
  end.

Inductive al_op :=
| Pointer (now : Z)
| Lifecycle (s : LifecycleState) (now : Z)
| SetTimeout (minutes now : Z)
| RequestLock
| Unlock (now : Z)
| Tick (now : Z)
| Resume (n : nat).

Definition section (o : al_op) (g : State) : State * list tail :=
  match o with
  | Pointer now => on_pointer_activity now g
  | Lifecycle s now => on_lifecycle_change s now g
  | SetTimeout m now => set_timeout_minutes m now g
  | RequestLock => request_lock g
  | Unlock now => unlock now g
  | Tick now => ticker now g
  | Resume _ => (g, [])
  end.

(** One atomic step: a critical section, or the next piece of a call in flight. *)
Definition al_step (w : world) (o : al_op) : world :=
  match o with
  | Resume n =>
      match tails w !! n with
      | Some t => exec_tail t (mkWorld (inner w) (app w) (bus w) (delete n (tails w)))
      | None => w
      end
  | _ => let '(g, ts) := section o (inner w) in mkWorld g (app w) (bus w) (tails w ++ ts)
  end.

Definition al_run (w : world) (os : list al_op) : world := foldl al_step w os.

(** A call that runs to its end undisturbed: no continuation is longer than three. *)
Definition call (o : al_op) (w : world) : world :=
  al_run w [o; Resume 0; Resume 0; Resume 0].

(** ** Accounting *)
Definition events (e : Event) (b : EventBus) : nat := length (filter (eq e) (sent b)).
Definition in_flight (t : tail) (w : world) : nat := length (filter (eq t) (tails w)).

Lemma events_publish e e' b :
  bus_wf b -> events e (EventBus.publish e' b).2 = (events e b + if decide (e = e') then 1 else 0)%nat.
Proof.
  intros Hb. unfold events. rewrite publish_sent, filter_app, length_app by done.
  rewrite filter_cons, filter_nil. by case_decide.
Qed.

Lemma count_delete (t u : tail) n (l : list tail) :
  l !! n = Some u ->
  length (filter (eq t) l) =
    (length (filter (eq t) (delete n l)) + if decide (t = u) then 1 else 0)%nat.
Proof.
  intros Hl. rewrite (delete_take_drop l n).
  rewrite <-(take_drop_middle l n u Hl) at 1. rewrite !filter_app, !length_app, filter_cons.
  case_decide; simpl; lia.
Qed.

Lemma iter_eq (f : A -> A) a n m : n = m -> Nat.iter n f a = Nat.iter m f a.
Proof. by intros ->. Qed.

Lemma iter_next (f : A -> A) a n m : S n = m -> f (Nat.iter n f a) = Nat.iter m f a.
Proof. by intros <-. Qed.

Definition books (w : world) (a0 : A) : Prop :=
  bus_wf (bus w) /\
  (events AutoLockLocked (bus w) + in_flight FireLock w + in_flight PublishLocked w =
   events AutoLockUnlocked (bus w) + in_flight PublishUnlocked w + Nat.b2n (locked (inner w)))%nat /\
  app w = Nat.iter (events AutoLockLocked (bus w) + in_flight PublishLocked w)%nat run_action a0.

Lemma in_flight_app t g a b ts ts' :
  in_flight t (mkWorld g a b (ts ++ ts')) =
  (length (filter (eq t) ts) + length (filter (eq t) ts'))%nat.
Proof. unfold in_flight; simpl. by rewrite filter_app, length_app. Qed.

(** A critical section that flips [locked] leaves the matching continuation. *)
Lemma section_books o g :
  let '(g', ts) := section o g in
  (Nat.b2n (locked g) + length (filter (eq FireLock) ts) =
   Nat.b2n (locked g') + length (filter (eq PublishUnlocked) ts))%nat /\
  filter (eq PublishLocked) ts = [].
Proof.
  destruct o as [now|s now|m now| |now|now|n]; simpl;
    unfold on_lifecycle_change, request_lock, unlock, should_lock;
    destruct (locked g) eqn:Hl; simpl; rewrite ?andb_false_r;
    repeat (case_match || case_decide); simplify_eq/=; try done; by rewrite Hl.
Qed.

Lemma books_step w o a0 : books w a0 -> books (al_step w o) a0.
Proof.
  intros (Hb & Hc & Ha).
  assert ((exists n, o = Resume n) \/ al_step w o =
    let '(g, ts) := section o (inner w) in mkWorld g (app w) (bus w) (tails w ++ ts))
    as [[n ->]|Hs] by (destruct o; eauto).
  - simpl. destruct (tails w !! n) as [t|] eqn:Hn; [|done].
    pose proof (fun u => count_delete u t n (tails w) Hn) as Hd.
    unfold in_flight in Hc, Ha.
    pose proof (Hd FireLock) as Hf. pose proof (Hd PublishLocked) as Hp.
    pose proof (Hd PublishUnlocked) as Hu.
    destruct t; simpl in Hf, Hp, Hu; unfold books; simpl; unfold ticker_lock; simpl;
      destruct (locked (inner w)) eqn:Hl; simpl in Hc |- *; rewrite ?Hl;
      rewrite ?in_flight_app, ?events_publish by done; unfold in_flight in *; simpl;
      (split; [auto with lfs|split; [lia|]]); rewrite Ha;
      first [apply iter_next; lia | apply iter_eq; lia].
  - rewrite Hs. pose proof (section_books o (inner w)) as Hsec.
    destruct (section o (inner w)) as [g ts]. destruct Hsec as [Hsum Hpl].
    unfold books. rewrite !in_flight_app, Hpl. unfold in_flight in *. simpl.
    split; [done|split; [lia|]]. rewrite Ha. apply iter_eq. simpl. lia.
Qed.

(** the lock's books balance in every interleaving.  After any sequence of
    atomic steps of any number of calls and the ticker, each transition to locked is
    matched by exactly one run of the lock action (secrets wiped, database closed)
    followed by exactly one [AutoLockLocked], each release by exactly one
    [AutoLockUnlocked], counting those still in flight: so once no call is in
    flight, locked events exceed unlocked events by one exactly when the machine is
    locked, and the action ran once per locked event. *)
Theorem lock_events_balance (now0 : Z) (a0 : A) (os : list al_op) :
  let w := al_run (mkWorld (new now0) a0 EventBus.new []) os in
  (events AutoLockLocked (bus w) + in_flight FireLock w + in_flight PublishLocked w =
   events AutoLockUnlocked (bus w) + in_flight PublishUnlocked w + Nat.b2n (locked (inner w)))%nat /\
  app w = Nat.iter (events AutoLockLocked (bus w) + in_flight PublishLocked w)%nat run_action a0.
Proof.
  assert (Hgen : forall w, books w a0 -> books (al_run w os) a0).
  { induction os as [|o os IH]; intros w Hw; [done|]. apply IH. by apply books_step. }
  destruct (Hgen (mkWorld (new now0) a0 EventBus.new [])) as (_ & H); [|done].
  split; [apply bus_wf_new|done].
Qed.

(** ** The idle timer *)
Lemma tick_call now w :
  tails w = [] -> bus_wf (bus w) ->
  call (Tick now) w =
    if should_lock now (inner w) then
      mkWorld (mkState (last_activity_ms (inner w)) (lock_after_ms (inner w))
                 (lifecycle (inner w)) true)
        (run_action (app w)) (EventBus.publish AutoLockLocked (bus w)).2 []
    else w.
Proof.
  destruct w as [[la lt lc lk] a b ts]. intros Ht Hb. simpl in Ht; subst ts.
  unfold call; simpl. unfold should_lock; simpl.
  destruct lk; simpl; [done|]. by destruct ((0 <? lt)%Z && _)%bool.
Qed.

Lemma ticks_while_locked w ts :
  locked (inner w) = true -> tails w = [] -> bus_wf (bus w) ->
  foldl (fun w t => call (Tick t) w) w ts = w.
Proof.
  intros Hl Ht Hw. induction ts as [|t ts IH]; [done|]. simpl.
  rewrite tick_call by done. unfold should_lock. rewrite Hl. apply IH.
Qed.

(** the idle timer is exact at the ticker's resolution.  For an unlocked machine
    with a timeout set, and any sequence of ticks with no other call between them,
    the machine locks iff some tick comes at least the timeout after the last
    activity; the lock action then ran exactly once and the event was published
    exactly once, however many ticks follow. *)
Theorem idle_session_locks (g : State) (a : A) (b : EventBus) (ts : list Z)
    (Hg : locked g = false) (Hlt : (0 < lock_after_ms g)%Z) (Hb : bus_wf b)
    (Hts : Forall (fun t => in_i64 (t - last_activity_ms g)) ts) :
  let w := foldl (fun w t => call (Tick t) w) (mkWorld g a b []) ts in
  let due := existsb (fun t => lock_after_ms g <=? t - last_activity_ms g)%Z ts in
  locked (inner w) = due /\ tails w = [] /\
  app w = (if due then run_action a else a) /\
  sent (bus w) = (if due then sent b ++ [AutoLockLocked] else sent b).
Proof.
  induction Hts as [|t ts Ht Hts IH]; simpl; [done|].
  rewrite tick_call by done. unfold should_lock. simpl. rewrite Hg. simpl.
  replace (0 <? lock_after_ms g)%Z with true by (symmetry; by apply Z.ltb_lt).
  rewrite wrap_i64_id by done. simpl.
  destruct (lock_after_ms g <=? t - last_activity_ms g)%Z; simpl; [|done].
  rewrite ticks_while_locked by (simpl; auto with lfs). simpl. by rewrite publish_sent.
Qed.

End Machine.

Lemma idle_session_locks_witness :
  let g := mkState 1000 60000 Foreground false in
  sent (bus (foldl (fun w t => call (Some S) (Tick t) w)
    (mkWorld g 0%nat EventBus.new []) [2000; 61000; 62000]%Z)) = [AutoLockLocked].
Proof.
  apply (idle_session_locks (Some S) (mkState 1000 60000 Foreground false) 0%nat EventBus.new
    [2000; 61000; 62000]%Z).
  - reflexivity.
  - reflexivity.
  - apply bus_wf_new.
  - repeat constructor; vm_compute; intuition discriminate.
Defined.

(** Because the effects follow the guard, a release can overtake the lock it ends:
    the machine is then unlocked although the secrets were wiped afterwards and
    [AutoLockLocked] is the last event the interface saw. *)
Example unlock_overtakes_lock :
  let w := al_run (Some S) (mkWorld (AutoLockMachine.new 0) 0%nat EventBus.new [])
    [RequestLock; Unlock 5; Resume 1; Resume 0; Resume 0] in
  locked (inner w) = false /\ tails w = [] /\ app w = 1%nat /\
  sent (bus w) = [AutoLockUnlocked; AutoLockLocked].
Proof. vm_compute. repeat split. Qed.
