(* ===== verification/Config.v ===== *)
(** * The application configuration ([config/mod.rs], [security/capabilities.rs])

    The sub-configurations with their validation, clamping and JSON forms, the
    capability snapshot cached in the file, and the top-level [AppConfig]. *)
From Stdlib Require Import ZArith Lia.
From Stdlib Require Import Floats.SpecFloat.
From stdpp Require Import prelude gmap strings list.
From S2P Require Import Prelude Json SecurityConfig.

Local Open Scope Z_scope.

(** [slice.contains(&x)] on a list of names, and [(lo..=hi).contains(&x)]. *)
Definition contains (l : list string) (s : string) : bool := bool_decide (s ∈ l).
Definition in_range (lo hi x : Z) : bool := (lo <=? x) && (x <=? hi).
Definition f64_in_range (lo hi x : f64) : bool := f64_le lo x && f64_le x hi.

(** [and_then(as_str).map(String::from)]. *)
Definition opt_str (m : jmap) (k : string) : option string := m !! k ≫= Json.as_str.

Record TerminalConfig := { font_size : f64; theme : string; scrollback : Z }.

Definition VALID_THEMES : list string := ["dark"; "light"; "system"].
Definition MAX_SCROLLBACK : Z := 100000.

Module TerminalConfig.

Definition default : TerminalConfig :=
  {| font_size := f64_of_Z 14; theme := "system"; scrollback := 5000 |}.

Definition validate (c : TerminalConfig) : option string :=
  if negb (f64_in_range (f64_of_Z 6) (f64_of_Z 72) (font_size c)) then
    Some "Font size must be 6-72"
  else if negb (contains VALID_THEMES (theme c)) then
    Some "Theme must be one of: dark, light, system"
  else if scrollback c <? 100 then Some "Scrollback must be at least 100"
  else None.

Definition sanitized (c : TerminalConfig) : TerminalConfig :=
  let d := default in
  {| font_size := f64_clamp (font_size c) (f64_of_Z 6) (f64_of_Z 72);
     theme := if contains VALID_THEMES (theme c) then theme c else theme d;
     scrollback :=
       if scrollback c <? 100 then scrollback d
       else if MAX_SCROLLBACK <? scrollback c then MAX_SCROLLBACK
       else scrollback c |}.

Definition to_json_object (c : TerminalConfig) : jmap :=
  <["scrollback" := Json.of_i64 (scrollback c)]>
  (<["theme" := JString (theme c)]>
  (<["font_size" := Json.of_f64 (font_size c)]> ∅)).

Definition from_json_object (m : jmap) : TerminalConfig :=
  let d := default in
  sanitized
    {| font_size := Json.get_or m "font_size" Json.as_f64 (font_size d);
       theme := Json.get_or m "theme" Json.as_str (theme d);
       scrollback := Json.get_or m "scrollback" Json.as_i64 (scrollback d) |}.

End TerminalConfig.

Record SshDefaults := {
  keepalive_sec : Z;
  default_port : Z;
  ssh_timeout_sec : Z;
  verbose_connection_log : bool
}.

Module SshDefaults.

Definition default : SshDefaults :=
  {| keepalive_sec := 30; default_port := 22; ssh_timeout_sec := 10;
     verbose_connection_log := false |}.

Definition validate (c : SshDefaults) : option string :=
  if keepalive_sec c <? 0 then Some "Keep-alive must be non-negative"
  else if negb (in_range 1 65535 (default_port c)) then Some "Port must be 1-65535"
  else if ssh_timeout_sec c <? 1 then Some "SSH timeout must be at least 1 second"
  else None.

Definition sanitized (c : SshDefaults) : SshDefaults :=
  let d := default in
  {| keepalive_sec := if keepalive_sec c <? 0 then keepalive_sec d else keepalive_sec c;
     default_port :=
       if negb (in_range 1 65535 (default_port c)) then default_port d else default_port c;
     ssh_timeout_sec := if ssh_timeout_sec c <? 1 then ssh_timeout_sec d else ssh_timeout_sec c;
     verbose_connection_log := verbose_connection_log c |}.

Definition to_json_object (c : SshDefaults) : jmap :=
  <["verbose_connection_log" := JBool (verbose_connection_log c)]>
  (<["ssh_timeout_sec" := Json.of_i64 (ssh_timeout_sec c)]>
  (<["default_port" := Json.of_i64 (default_port c)]>
  (<["keepalive_sec" := Json.of_i64 (keepalive_sec c)]> ∅))).

Definition from_json_object (m : jmap) : SshDefaults :=
  let d := default in
  sanitized
    {| keepalive_sec := Json.get_or m "keepalive_sec" Json.as_i64 (keepalive_sec d);
       default_port := Json.get_or m "default_port" Json.as_i64 (default_port d);
       ssh_timeout_sec := Json.get_or m "ssh_timeout_sec" Json.as_i64 (ssh_timeout_sec d);
       verbose_connection_log :=
         Json.get_or m "verbose_connection_log" Json.as_bool (verbose_connection_log d) |}.

End SshDefaults.

Record UiConfig := {
  toast_duration_ms : Z;
  window_width : f64;
  window_height : f64;
  ui_scale : f64;
  show_folder_sizes : bool
}.

Module UiConfig.

Definition default : UiConfig :=
  {| toast_duration_ms := 4000; window_width := f64_of_Z 1100; window_height := f64_of_Z 650;
     ui_scale := f64_of_Z 1; show_folder_sizes := false |}.

Definition validate (c : UiConfig) : option string :=
  if toast_duration_ms c <? 500 then Some "Toast duration must be at least 500ms"
  else if f64_lt (window_width c) (f64_of_Z 200) then Some "Window width must be at least 200"
  else if f64_lt (window_height c) (f64_of_Z 200) then Some "Window height must be at least 200"
  else if negb (f64_in_range (f64_half 1) (f64_of_Z 2) (ui_scale c)) then
    Some "UI scale must be 0.5-2.0"
  else None.

Definition sanitized (c : UiConfig) : UiConfig :=
  let d := default in
  {| toast_duration_ms :=
       if toast_duration_ms c <? 500 then toast_duration_ms d else toast_duration_ms c;
     window_width :=
       if f64_lt (window_width c) (f64_of_Z 200) then window_width d else window_width c;
     window_height :=
       if f64_lt (window_height c) (f64_of_Z 200) then window_height d else window_height c;
     ui_scale := f64_clamp (ui_scale c) (f64_half 1) (f64_of_Z 2);
     show_folder_sizes := show_folder_sizes c |}.

Definition to_json_object (c : UiConfig) : jmap :=
  <["show_folder_sizes" := JBool (show_folder_sizes c)]>
  (<["ui_scale" := Json.of_f64 (ui_scale c)]>
  (<["window_height" := Json.of_f64 (window_height c)]>
  (<["window_width" := Json.of_f64 (window_width c)]>
  (<["toast_duration_ms" := Json.of_i64 (toast_duration_ms c)]> ∅)))).

Definition from_json_object (m : jmap) : UiConfig :=
  let d := default in
  sanitized
    {| toast_duration_ms := Json.get_or m "toast_duration_ms" Json.as_i64 (toast_duration_ms d);
       window_width := Json.get_or m "window_width" Json.as_f64 (window_width d);
       window_height := Json.get_or m "window_height" Json.as_f64 (window_height d);
       ui_scale := Json.get_or m "ui_scale" Json.as_f64 (ui_scale d);
       show_folder_sizes := Json.get_or m "show_folder_sizes" Json.as_bool (show_folder_sizes d) |}.

End UiConfig.

Inductive LogLevel := LogInfo | LogWarn | LogError.

Module LogLevel.

Definition wire_name (l : LogLevel) : string :=
  match l with LogInfo => "info" | LogWarn => "warn" | LogError => "error" end.

Definition from_wire_name (s : string) : option LogLevel :=
  if decide (s = "info") then Some LogInfo
  else if decide (s = "warn") then Some LogWarn
  else if decide (s = "error") then Some LogError
  else None.

End LogLevel.

Record BehaviorConfig := {
  log_level : option LogLevel;
  check_updates_on_start : bool;
  skipped_version : option string;
  fido2_prefer_direct_hid : bool
}.

(** [if let Some(x) = o { m.insert(k, x) }] *)
Definition insert_some {A} (k : string) (f : A -> json) (o : option A) (m : jmap) : jmap :=
  match o with Some x => <[k := f x]> m | None => m end.

Module BehaviorConfig.

Definition default : BehaviorConfig :=
  {| log_level := None; check_updates_on_start := true; skipped_version := None;
     fido2_prefer_direct_hid := false |}.

Definition to_json_object (c : BehaviorConfig) : jmap :=
  let m := insert_some "log_level" (fun l => JString (LogLevel.wire_name l)) (log_level c) ∅ in
  let m := <["check_updates_on_start" := JBool (check_updates_on_start c)]> m in
  let m := insert_some "skipped_version" JString (skipped_version c) m in
  <["fido2_prefer_direct_hid" := JBool (fido2_prefer_direct_hid c)]> m.

Definition from_json_object (m : jmap) : BehaviorConfig :=
  let d := default in
  {| log_level :=
       match opt_str m "log_level" ≫= LogLevel.from_wire_name with
       | Some l => Some l
       | None => log_level d
       end;
     check_updates_on_start :=
       Json.get_or m "check_updates_on_start" Json.as_bool (check_updates_on_start d);
     skipped_version := opt_str m "skipped_version";
     fido2_prefer_direct_hid :=
       Json.get_or m "fido2_prefer_direct_hid" Json.as_bool (fido2_prefer_direct_hid d) |}.

End BehaviorConfig.

Definition SUPPORTED_LOCALES : list string :=
  ["en"; "ru"; "zh"; "de"; "ja"; "pt"; "es"; "fr"; "ko"; "ar"; "fa"; "tr"; "vi"; "id"; "hi"].

Definition SYNC_PASSWORD_SECRET_ID : string := "sync.webdav.password".
Definition SYNC_PASSPHRASE_SECRET_ID : string := "sync.passphrase".
Definition SYNC_DEFAULT_REMOTE_PATH : string := "letsflutssh.lfs".

Record SyncConfig := {
  enabled : bool;
  webdav_url : string;
  webdav_username : string;
  webdav_password_ref : string;
  webdav_auth_method : string;
  passphrase_ref : string;
  remote_path : string;
  last_pushed_at_ms : Z;
  last_pulled_at_ms : Z;
  last_pushed_sha256 : string;
  last_pushed_etag : string;
  last_pulled_etag : string;
  last_pulled_sha256 : string
}.

Definition SYNC_VALID_AUTH_METHODS : list string := ["basic"; "digest"; "bearer"].

Module SyncConfig.

Definition default : SyncConfig :=
  {| enabled := false; webdav_url := ""; webdav_username := "";
     webdav_password_ref := SYNC_PASSWORD_SECRET_ID; webdav_auth_method := "basic";
     passphrase_ref := SYNC_PASSPHRASE_SECRET_ID; remote_path := SYNC_DEFAULT_REMOTE_PATH;
     last_pushed_at_ms := 0; last_pulled_at_ms := 0; last_pushed_sha256 := "";
     last_pushed_etag := ""; last_pulled_etag := ""; last_pulled_sha256 := "" |}.

Definition is_empty (s : string) : bool := match s with EmptyString => true | _ => false end.

Definition sanitized (c : SyncConfig) : SyncConfig :=
  let d := default in
  {| enabled := enabled c; webdav_url := webdav_url c; webdav_username := webdav_username c;
     webdav_password_ref :=
       if is_empty (webdav_password_ref c) then webdav_password_ref d else webdav_password_ref c;
     webdav_auth_method :=
       if contains SYNC_VALID_AUTH_METHODS (webdav_auth_method c) then webdav_auth_method c
       else webdav_auth_method d;
     passphrase_ref := if is_empty (passphrase_ref c) then passphrase_ref d else passphrase_ref c;
     remote_path := if is_empty (remote_path c) then remote_path d else remote_path c;
     last_pushed_at_ms := Z.max (last_pushed_at_ms c) 0;
     last_pulled_at_ms := Z.max (last_pulled_at_ms c) 0;
     last_pushed_sha256 := last_pushed_sha256 c; last_pushed_etag := last_pushed_etag c;
     last_pulled_etag := last_pulled_etag c; last_pulled_sha256 := last_pulled_sha256 c |}.

Definition to_json_object (c : SyncConfig) : jmap :=
  <["sync_last_pulled_sha256" := JString (last_pulled_sha256 c)]>
  (<["sync_last_pulled_etag" := JString (last_pulled_etag c)]>
  (<["sync_last_pushed_etag" := JString (last_pushed_etag c)]>
  (<["sync_last_pushed_sha256" := JString (last_pushed_sha256 c)]>
  (<["sync_last_pulled_at_ms" := Json.of_i64 (last_pulled_at_ms c)]>
  (<["sync_last_pushed_at_ms" := Json.of_i64 (last_pushed_at_ms c)]>
  (<["sync_remote_path" := JString (remote_path c)]>
  (<["sync_passphrase_ref" := JString (passphrase_ref c)]>
  (<["sync_webdav_auth_method" := JString (webdav_auth_method c)]>
  (<["sync_webdav_password_ref" := JString (webdav_password_ref c)]>
  (<["sync_webdav_username" := JString (webdav_username c)]>
  (<["sync_webdav_url" := JString (webdav_url c)]>
  (<["sync_enabled" := JBool (enabled c)]> ∅)))))))))))).

Definition from_json_object (m : jmap) : SyncConfig :=
  let d := default in
  sanitized
    {| enabled := Json.get_or m "sync_enabled" Json.as_bool (enabled d);
       webdav_url := Json.get_or m "sync_webdav_url" Json.as_str (webdav_url d);
       webdav_username := Json.get_or m "sync_webdav_username" Json.as_str (webdav_username d);
       webdav_password_ref :=
         Json.get_or m "sync_webdav_password_ref" Json.as_str (webdav_password_ref d);
       webdav_auth_method :=
         Json.get_or m "sync_webdav_auth_method" Json.as_str (webdav_auth_method d);
       passphrase_ref := Json.get_or m "sync_passphrase_ref" Json.as_str (passphrase_ref d);
       remote_path := Json.get_or m "sync_remote_path" Json.as_str (remote_path d);
       last_pushed_at_ms :=
         Json.get_or m "sync_last_pushed_at_ms" Json.as_i64 (last_pushed_at_ms d);
       last_pulled_at_ms :=
         Json.get_or m "sync_last_pulled_at_ms" Json.as_i64 (last_pulled_at_ms d);
       last_pushed_sha256 :=
         Json.get_or m "sync_last_pushed_sha256" Json.as_str (last_pushed_sha256 d);
       last_pushed_etag := Json.get_or m "sync_last_pushed_etag" Json.as_str (last_pushed_etag d);
       last_pulled_etag := Json.get_or m "sync_last_pulled_etag" Json.as_str (last_pulled_etag d);
       last_pulled_sha256 :=
         Json.get_or m "sync_last_pulled_sha256" Json.as_str (last_pulled_sha256 d) |}.

End SyncConfig.

(** ** Capabilities ([security/capabilities.rs]) *)
Inductive KeyringProbeResult := Available | LinuxNoSecretService | ProbeFailed.

Module KeyringProbeResult.

Definition wire_name (r : KeyringProbeResult) : string :=
  match r with
  | Available => "available"
  | LinuxNoSecretService => "linuxNoSecretService"
  | ProbeFailed => "probeFailed"
  end.

Definition from_wire_name (name : string) : option KeyringProbeResult :=
  if decide (name = "available") then Some Available
  else if decide (name = "linuxNoSecretService") then Some LinuxNoSecretService
  else if decide (name = "probeFailed") then Some ProbeFailed
  else None.

End KeyringProbeResult.

Record SecurityCapabilities := {
  keychain_available : bool;
  hardware_vault_available : bool;
  biometric_available : bool;
  fprintd_available : bool;
  is_linux_host : bool;
  keychain_probe : KeyringProbeResult;
  hardware_probe_code : string
}.

Definition bool_or_false (v : option json) : bool :=
  match v with Some (JBool true) => true | _ => false end.

Module SecurityCapabilities.

Definition defaults : SecurityCapabilities :=
  {| keychain_available := false; hardware_vault_available := false;
     biometric_available := false; fprintd_available := false; is_linux_host := false;
     keychain_probe := ProbeFailed; hardware_probe_code := "unknown" |}.

Definition can_offer_biometric_modifier (c : SecurityCapabilities) : bool :=
  if is_linux_host c then biometric_available c || fprintd_available c else biometric_available c.

Definition to_json_value (c : SecurityCapabilities) : json :=
  JObject
    (<["hardware_probe_code" := JString (hardware_probe_code c)]>
    (<["keychain_probe" := JString (KeyringProbeResult.wire_name (keychain_probe c))]>
    (<["is_linux_host" := JBool (is_linux_host c)]>
    (<["fprintd_available" := JBool (fprintd_available c)]>
    (<["biometric_available" := JBool (biometric_available c)]>
    (<["hardware_vault_available" := JBool (hardware_vault_available c)]>
    (<["keychain_available" := JBool (keychain_available c)]> ∅))))))).

Definition from_json_value (value : json) : option SecurityCapabilities :=
  obj ← Json.as_object value;
  probe_name ← obj !! "keychain_probe" ≫= Json.as_str;
  probe ← KeyringProbeResult.from_wire_name probe_name;
  hardware_code ← obj !! "hardware_probe_code" ≫= Json.as_str;
  Some {| keychain_available := bool_or_false (obj !! "keychain_available");
          hardware_vault_available := bool_or_false (obj !! "hardware_vault_available");
          biometric_available := bool_or_false (obj !! "biometric_available");
          fprintd_available := bool_or_false (obj !! "fprintd_available");
          is_linux_host := bool_or_false (obj !! "is_linux_host");
          keychain_probe := probe;
          hardware_probe_code := hardware_code |}.

End SecurityCapabilities.

(** ** The top level *)
Definition DEFAULT_RECORDINGS_STORAGE_CAP_BYTES : Z := 500 * 1024 * 1024.
Definition MAX_RECORDINGS_STORAGE_CAP_BYTES : Z := 1024 * 1024 * 1024 * 1024.
Definition DEFAULT_TRANSFER_WORKERS : Z := 4.
Definition MAX_TRANSFER_WORKERS : Z := 10.

(** [migration::SchemaVersions::CONFIG] *)
Definition SchemaVersions_CONFIG : Z := 1.

Record AppConfig := {
  terminal : TerminalConfig;
  ssh : SshDefaults;
  ui : UiConfig;
  behavior : BehaviorConfig;
  transfer_workers : Z;
  max_history : Z;
  locale : option string;
  security : option SecurityConfig;
  security_probe_cache : option SecurityCapabilities;
  recordings_storage_cap_bytes : Z;
  sync : SyncConfig
}.

Definition read_security_config (m : jmap) : option SecurityConfig :=
  tier_str ← m !! "security_tier" ≫= Json.as_str;
  t ← SecurityTier.from_wire_name tier_str;
  let mods := Json.get_or m "security_modifiers"
    (fun v => SecurityTierModifiers.from_json_map <$> Json.as_object v)
    SecurityTierModifiers.default in
  Some {| tier := t; modifiers := mods |}.

Module AppConfig.

Definition default : AppConfig :=
  {| terminal := TerminalConfig.default; ssh := SshDefaults.default; ui := UiConfig.default;
     behavior := BehaviorConfig.default; transfer_workers := DEFAULT_TRANSFER_WORKERS;
     max_history := 500; locale := None; security := None; security_probe_cache := None;
     recordings_storage_cap_bytes := DEFAULT_RECORDINGS_STORAGE_CAP_BYTES;
     sync := SyncConfig.default |}.

Definition validate (c : AppConfig) : option string :=
  match TerminalConfig.validate (terminal c) with
  | Some e => Some e
  | None =>
  match SshDefaults.validate (ssh c) with
  | Some e => Some e
  | None =>
  match UiConfig.validate (ui c) with
  | Some e => Some e
  | None =>
      if transfer_workers c <? 1 then Some "Transfer workers must be at least 1"
      else if max_history c <? 0 then Some "Max history must be non-negative"
      else None
  end end end.

Definition sanitized (c : AppConfig) : AppConfig :=
  let d := default in
  {| terminal := TerminalConfig.sanitized (terminal c);
     ssh := SshDefaults.sanitized (ssh c);
     ui := UiConfig.sanitized (ui c);
     behavior := behavior c;
     transfer_workers :=
       if transfer_workers c <? 1 then transfer_workers d
       else if MAX_TRANSFER_WORKERS <? transfer_workers c then MAX_TRANSFER_WORKERS
       else transfer_workers c;
     max_history := if max_history c <? 0 then max_history d else max_history c;
     locale := locale c ≫= (fun l => if contains SUPPORTED_LOCALES l then Some l else None);
     security := security c;
     security_probe_cache := security_probe_cache c;
     recordings_storage_cap_bytes :=
       if (recordings_storage_cap_bytes c =? 0) ||
          (MAX_RECORDINGS_STORAGE_CAP_BYTES <? recordings_storage_cap_bytes c)
       then recordings_storage_cap_bytes d
       else recordings_storage_cap_bytes c;
     sync := SyncConfig.sanitized (sync c) |}.

Definition to_json_value (c : AppConfig) : json :=
  let m := <["config_schema_version" := Json.of_i64 SchemaVersions_CONFIG]> (∅ : jmap) in
  let m := Json.extend m (TerminalConfig.to_json_object (terminal c)) in
  let m := Json.extend m (SshDefaults.to_json_object (ssh c)) in
  let m := Json.extend m (UiConfig.to_json_object (ui c)) in
  let m := Json.extend m (BehaviorConfig.to_json_object (behavior c)) in
  let m := <["transfer_workers" := Json.of_i64 (transfer_workers c)]> m in
  let m := <["max_history" := Json.of_i64 (max_history c)]> m in
  let m := <["recordings_storage_cap_bytes" := Json.of_u64 (recordings_storage_cap_bytes c)]> m in
  let m := Json.extend m (SyncConfig.to_json_object (sync c)) in
  let m := insert_some "locale" JString (locale c) m in
  let m := match security c with
           | Some sec =>
               <["security_modifiers" := JObject (SecurityTierModifiers.to_json_map (modifiers sec))]>
               (<["security_tier" := JString (SecurityTier.wire_name (tier sec))]> m)
           | None => m
           end in
  JObject (<["security_probe_cache" :=
    match security_probe_cache c with
    | Some k => SecurityCapabilities.to_json_value k
    | None => JNull
    end]> m).

Definition from_json_value (value : json) : AppConfig :=
  match Json.as_object value with
  | None => default
  | Some obj =>
      let d := default in
      let sec := read_security_config obj in
      let cache := obj !! "security_probe_cache" ≫= SecurityCapabilities.from_json_value in
      sanitized
        {| terminal := TerminalConfig.from_json_object obj;
           ssh := SshDefaults.from_json_object obj;
           ui := UiConfig.from_json_object obj;
           behavior := BehaviorConfig.from_json_object obj;
           transfer_workers := Json.get_or obj "transfer_workers" Json.as_i64 (transfer_workers d);
           max_history := Json.get_or obj "max_history" Json.as_i64 (max_history d);
           locale := opt_str obj "locale";
           security := sec;
           security_probe_cache := cache;
           recordings_storage_cap_bytes :=
             Json.get_or obj "recordings_storage_cap_bytes" Json.as_u64
               (recordings_storage_cap_bytes d);
           sync := SyncConfig.from_json_object obj |}
  end.

End AppConfig.

(** The keys [strip_for_export] removes, in its order. *)
Definition stripped_keys : list string :=
  ["security_tier"; "security_modifiers"; "security_probe_cache"; "config_schema_version";
   "sync_enabled"; "sync_webdav_url"; "sync_webdav_username"; "sync_webdav_password_ref";
   "sync_webdav_auth_method"; "sync_passphrase_ref"; "sync_remote_path";
   "sync_last_pushed_at_ms"; "sync_last_pulled_at_ms"; "sync_last_pushed_sha256";
   "sync_last_pushed_etag"; "sync_last_pulled_etag"; "sync_last_pulled_sha256"].

Definition strip_for_export (value : json) : json :=
  match Json.as_object value with
  | None => value
  | Some obj => JObject (foldl (fun m k => delete k m) obj stripped_keys)
  end.

(** ** Clamping *)
Ltac ints := repeat case_match; simplify_eq/=; breflect; try lia; try done.

Lemma terminal_sanitized_idemp c :
  TerminalConfig.sanitized (TerminalConfig.sanitized c) = TerminalConfig.sanitized c.
Proof.
  unfold TerminalConfig.sanitized; simpl. f_equal.
  - by apply f64_clamp_idemp.
  - by destruct (contains VALID_THEMES (theme c)) eqn:E; [rewrite E|].
  - unfold MAX_SCROLLBACK. ints.
Qed.

Lemma ssh_sanitized_idemp c : SshDefaults.sanitized (SshDefaults.sanitized c) = SshDefaults.sanitized c.
Proof. unfold SshDefaults.sanitized, in_range; simpl. f_equal; ints. Qed.

Lemma ui_sanitized_idemp c : UiConfig.sanitized (UiConfig.sanitized c) = UiConfig.sanitized c.
Proof.
  unfold UiConfig.sanitized; simpl. f_equal.
  - ints.
  - by destruct (f64_lt (window_width c) (f64_of_Z 200)) eqn:E; [|rewrite E].
  - by destruct (f64_lt (window_height c) (f64_of_Z 200)) eqn:E; [|rewrite E].
  - by apply f64_clamp_idemp.
Qed.

Lemma sync_sanitized_idemp c : SyncConfig.sanitized (SyncConfig.sanitized c) = SyncConfig.sanitized c.
Proof.
  unfold SyncConfig.sanitized; simpl. f_equal; try lia.
  - by destruct (webdav_password_ref c).
  - by destruct (contains SYNC_VALID_AUTH_METHODS (webdav_auth_method c)) eqn:E; [rewrite E|].
  - by destruct (passphrase_ref c).
  - by destruct (remote_path c).
Qed.

Lemma app_sanitized_idemp c : AppConfig.sanitized (AppConfig.sanitized c) = AppConfig.sanitized c.
Proof.
  unfold AppConfig.sanitized; simpl. f_equal.
  - apply terminal_sanitized_idemp.
  - apply ssh_sanitized_idemp.
  - apply ui_sanitized_idemp.
  - unfold MAX_TRANSFER_WORKERS, DEFAULT_TRANSFER_WORKERS. ints.
  - ints.
  - destruct (locale c) as [l|]; simpl; [|done].
    by destruct (contains SUPPORTED_LOCALES l) eqn:E; simpl; [rewrite E|].
  - unfold MAX_RECORDINGS_STORAGE_CAP_BYTES, DEFAULT_RECORDINGS_STORAGE_CAP_BYTES.
    destruct ((recordings_storage_cap_bytes c =? 0) || _) eqn:E; [done|by rewrite E].
  - apply sync_sanitized_idemp.
Qed.

(** Everything the rest of the program may assume of a loaded configuration: it
    validates, and the bounds [validate] does not look at hold as well. *)
Record in_bounds (c : AppConfig) : Prop := {
  ib_valid : AppConfig.validate c = None;
  ib_scrollback : 100 <= scrollback (terminal c) <= MAX_SCROLLBACK;
  ib_workers : 1 <= transfer_workers c <= MAX_TRANSFER_WORKERS;
  ib_history : 0 <= max_history c;
  ib_cap : recordings_storage_cap_bytes c <> 0 /\
    recordings_storage_cap_bytes c <= MAX_RECORDINGS_STORAGE_CAP_BYTES;
  ib_locale : forall l, locale c = Some l -> l ∈ SUPPORTED_LOCALES;
  ib_auth : webdav_auth_method (sync c) ∈ SYNC_VALID_AUTH_METHODS;
  ib_refs : webdav_password_ref (sync c) <> "" /\ passphrase_ref (sync c) <> "" /\
    remote_path (sync c) <> "";
  ib_stamps : 0 <= last_pushed_at_ms (sync c) /\ 0 <= last_pulled_at_ms (sync c)
}.

Lemma terminal_sanitized_valid c :
  f64_is_nan (font_size c) = false -> TerminalConfig.validate (TerminalConfig.sanitized c) = None.
Proof.
  intros Hn. unfold TerminalConfig.validate, TerminalConfig.sanitized, f64_in_range; simpl.
  destruct (f64_clamp_in_range (font_size c) (f64_of_Z 6) (f64_of_Z 72)) as [-> ->]; try done.
  simpl. destruct (contains VALID_THEMES (theme c)) eqn:E; [rewrite E|];
    unfold MAX_SCROLLBACK; simpl; ints.
Qed.

Lemma ssh_sanitized_valid c : SshDefaults.validate (SshDefaults.sanitized c) = None.
Proof. unfold SshDefaults.validate, SshDefaults.sanitized, in_range; simpl. ints. Qed.

Lemma ui_sanitized_valid c :
  f64_is_nan (ui_scale c) = false -> UiConfig.validate (UiConfig.sanitized c) = None.
Proof.
  intros Hn. unfold UiConfig.validate, UiConfig.sanitized, f64_in_range; simpl.
  destruct (f64_clamp_in_range (ui_scale c) (f64_half 1) (f64_of_Z 2)) as [-> ->]; try done.
  simpl.
  destruct (f64_lt (window_width c) (f64_of_Z 200)) eqn:E1, (f64_lt (window_height c) (f64_of_Z 200)) eqn:E2;
    rewrite ?E1, ?E2; ints.
Qed.

Lemma sanitized_in_bounds c :
  f64_is_nan (font_size (terminal c)) = false -> f64_is_nan (ui_scale (ui c)) = false ->
  in_bounds (AppConfig.sanitized c).
Proof.
  intros Hf Hu. split; simpl.
  - unfold AppConfig.validate; simpl.
    rewrite terminal_sanitized_valid, ssh_sanitized_valid, ui_sanitized_valid by done.
    unfold MAX_TRANSFER_WORKERS, DEFAULT_TRANSFER_WORKERS. ints.
  - unfold MAX_SCROLLBACK. ints.
  - unfold MAX_TRANSFER_WORKERS, DEFAULT_TRANSFER_WORKERS. ints.
  - ints.
  - unfold MAX_RECORDINGS_STORAGE_CAP_BYTES, DEFAULT_RECORDINGS_STORAGE_CAP_BYTES. ints.
  - intros l. destruct (locale c) as [l0|]; simpl; [|done].
    destruct (contains SUPPORTED_LOCALES l0) eqn:E; [|done]. intros [= <-].
    by apply bool_decide_eq_true in E.
  - destruct (contains SYNC_VALID_AUTH_METHODS (webdav_auth_method (sync c))) eqn:E.
    + by apply bool_decide_eq_true in E.
    + by apply (bool_decide_unpack _).
  - by destruct (webdav_password_ref (sync c)), (passphrase_ref (sync c)), (remote_path (sync c)).
  - lia.
Qed.

Lemma default_sanitized : AppConfig.sanitized AppConfig.default = AppConfig.default.
Proof. by vm_compute. Qed.

Lemma default_in_bounds : in_bounds AppConfig.default.
Proof. rewrite <-default_sanitized. by apply sanitized_in_bounds. Qed.

Lemma from_json_not_nan m :
  numbers_finite m ->
  f64_is_nan (font_size (TerminalConfig.from_json_object m)) = false /\
  f64_is_nan (ui_scale (UiConfig.from_json_object m)) = false.
Proof.
  intros Hm.
  assert (Hc : forall x lo hi, f64_is_nan x = false -> f64_is_nan lo = false ->
    f64_is_nan hi = false -> f64_is_nan (f64_clamp x lo hi) = false).
  { intros x lo hi ???. unfold f64_clamp. repeat case_match; done. }
  split; simpl; apply Hc; try done; by apply get_or_f64_not_nan.
Qed.

(** whatever [config.json] contains, the loaded configuration is in bounds: any
    JSON value (another shape, missing or mistyped fields, hand-edited garbage) loads
    to a configuration that validates, respects the ceilings on scrollback, workers
    and the recordings cap, names a shipped locale and a known auth method, and is a
    fixed point of [sanitized]. *)
Theorem config_load_in_bounds (v : json)
    (Hv : forall m, v = JObject m -> numbers_finite m) :
  in_bounds (AppConfig.from_json_value v) /\
  AppConfig.sanitized (AppConfig.from_json_value v) = AppConfig.from_json_value v.
Proof.
  destruct v as [| | | | |m]; try (split; [apply default_in_bounds|apply default_sanitized]).
  destruct (from_json_not_nan m) as [Hf Hu]; [by apply Hv|].
  split; [by apply sanitized_in_bounds|apply app_sanitized_idemp].
Qed.

Lemma config_load_in_bounds_witness :
  let v := JObject {["scrollback" := JNumber (PosInt 100000000); "font_size" := JString "big"]} in
  in_bounds (AppConfig.from_json_value v) /\
  AppConfig.sanitized (AppConfig.from_json_value v) = AppConfig.from_json_value v.
Proof.
  apply config_load_in_bounds. intros m [= <-].
  intros k v Hk. apply lookup_insert_Some in Hk as [[_ <-]|[_ Hk]]; [done|].
  apply lookup_singleton_Some in Hk as [_ <-]. done.
Defined.

(** ** The JSON round trip *)

(** The ranges of the Rust types, and doubles with a JSON form. *)
Record representable (c : AppConfig) : Prop := {
  rep_font : f64_is_finite (font_size (terminal c)) = true;
  rep_scrollback : in_i64 (scrollback (terminal c));
  rep_ssh : in_i64 (keepalive_sec (ssh c)) /\ in_i64 (default_port (ssh c)) /\
    in_i64 (ssh_timeout_sec (ssh c));
  rep_toast : in_i64 (toast_duration_ms (ui c));
  rep_window : f64_is_finite (window_width (ui c)) = true /\
    f64_is_finite (window_height (ui c)) = true;
  rep_scale : f64_is_finite (ui_scale (ui c)) = true;
  rep_workers : in_i64 (transfer_workers c);
  rep_history : in_i64 (max_history c);
  rep_stamps : in_i64 (last_pushed_at_ms (sync c)) /\ in_i64 (last_pulled_at_ms (sync c))
}.

Lemma get_or_hit {A} (m : jmap) k (f : json -> option A) d v x :
  m !! k = Some v -> f v = Some x -> Json.get_or m k f d = x.
Proof. intros Hm Hf. unfold Json.get_or. by rewrite Hm; simpl; rewrite Hf. Qed.

(** [m] carries every entry of [sub]. *)
Definition carries (m sub : jmap) : Prop := sub ⊆ m.

(** Rewrite the decoder's reads of known keys into the fields that were written. *)
Ltac hit k v x :=
  rewrite (get_or_hit _ k _ _ v x);
  [|eapply lookup_weaken; [|eassumption]; vm_compute; reflexivity
   |first [reflexivity | by apply as_f64_of_f64 | by apply as_i64_of_i64]].

Lemma terminal_read c m :
  f64_is_finite (font_size c) = true -> in_i64 (scrollback c) ->
  carries m (TerminalConfig.to_json_object c) ->
  TerminalConfig.from_json_object m = TerminalConfig.sanitized c.
Proof.
  intros Hf Hs Hm. unfold TerminalConfig.from_json_object.
  hit "font_size" (Json.of_f64 (font_size c)) (font_size c).
  hit "theme" (JString (theme c)) (theme c).
  hit "scrollback" (Json.of_i64 (scrollback c)) (scrollback c).
  by destruct c.
Qed.

Lemma ssh_read c m :
  in_i64 (keepalive_sec c) -> in_i64 (default_port c) -> in_i64 (ssh_timeout_sec c) ->
  carries m (SshDefaults.to_json_object c) ->
  SshDefaults.from_json_object m = SshDefaults.sanitized c.
Proof.
  intros Hk Hp Ht Hm. unfold SshDefaults.from_json_object.
  hit "keepalive_sec" (Json.of_i64 (keepalive_sec c)) (keepalive_sec c).
  hit "default_port" (Json.of_i64 (default_port c)) (default_port c).
  hit "ssh_timeout_sec" (Json.of_i64 (ssh_timeout_sec c)) (ssh_timeout_sec c).
  hit "verbose_connection_log" (JBool (verbose_connection_log c)) (verbose_connection_log c).
  by destruct c.
Qed.

Lemma ui_read c m :
  in_i64 (toast_duration_ms c) -> f64_is_finite (window_width c) = true ->
  f64_is_finite (window_height c) = true -> f64_is_finite (ui_scale c) = true ->
  carries m (UiConfig.to_json_object c) ->
  UiConfig.from_json_object m = UiConfig.sanitized c.
Proof.
  intros Ht Hw Hh Hs Hm. unfold UiConfig.from_json_object.
  hit "toast_duration_ms" (Json.of_i64 (toast_duration_ms c)) (toast_duration_ms c).
  hit "window_width" (Json.of_f64 (window_width c)) (window_width c).
  hit "window_height" (Json.of_f64 (window_height c)) (window_height c).
  hit "ui_scale" (Json.of_f64 (ui_scale c)) (ui_scale c).
  hit "show_folder_sizes" (JBool (show_folder_sizes c)) (show_folder_sizes c).
  by destruct c.
Qed.

Lemma sync_read c m :
  in_i64 (last_pushed_at_ms c) -> in_i64 (last_pulled_at_ms c) ->
  carries m (SyncConfig.to_json_object c) ->
  SyncConfig.from_json_object m = SyncConfig.sanitized c.
Proof.
  intros Hs Hl Hm. unfold SyncConfig.from_json_object.
  hit "sync_enabled" (JBool (enabled c)) (enabled c).
  hit "sync_webdav_url" (JString (webdav_url c)) (webdav_url c).
  hit "sync_webdav_username" (JString (webdav_username c)) (webdav_username c).
  hit "sync_webdav_password_ref" (JString (webdav_password_ref c)) (webdav_password_ref c).
  hit "sync_webdav_auth_method" (JString (webdav_auth_method c)) (webdav_auth_method c).
  hit "sync_passphrase_ref" (JString (passphrase_ref c)) (passphrase_ref c).
  hit "sync_remote_path" (JString (remote_path c)) (remote_path c).
  hit "sync_last_pushed_at_ms" (Json.of_i64 (last_pushed_at_ms c)) (last_pushed_at_ms c).
  hit "sync_last_pulled_at_ms" (Json.of_i64 (last_pulled_at_ms c)) (last_pulled_at_ms c).
  hit "sync_last_pushed_sha256" (JString (last_pushed_sha256 c)) (last_pushed_sha256 c).
  hit "sync_last_pushed_etag" (JString (last_pushed_etag c)) (last_pushed_etag c).
  hit "sync_last_pulled_etag" (JString (last_pulled_etag c)) (last_pulled_etag c).
  hit "sync_last_pulled_sha256" (JString (last_pulled_sha256 c)) (last_pulled_sha256 c).
  by destruct c.
Qed.

Lemma capabilities_roundtrip c :
  SecurityCapabilities.from_json_value (SecurityCapabilities.to_json_value c) = Some c.
Proof. destruct c as [[] [] [] [] [] [] code]; vm_compute; reflexivity. Qed.

Lemma carries_empty m : carries m ∅.
Proof. apply map_empty_subseteq. Qed.

Lemma carries_insert m sub k v : m !! k = Some v -> carries m sub -> carries m (<[k := v]> sub).
Proof.
  intros Hk Hs. apply map_subseteq_spec. intros k' v'. rewrite lookup_insert_Some.
  intros [[<- <-]|[_ H]]; [done|]. by eapply lookup_weaken.
Qed.

Definition to_json_map (c : AppConfig) : jmap :=
  default ∅ (Json.as_object (AppConfig.to_json_value c)).

(** The entries that are written only when set, and the configuration without them. *)
Definition optional_keys : list string :=
  ["locale"; "security_tier"; "security_modifiers"; "security_probe_cache"; "log_level";
   "skipped_version"].

Definition plain (c : AppConfig) : AppConfig :=
  {| terminal := terminal c; ssh := ssh c; ui := ui c;
     behavior := {| log_level := None; check_updates_on_start := check_updates_on_start (behavior c);
       skipped_version := None; fido2_prefer_direct_hid := fido2_prefer_direct_hid (behavior c) |};
     transfer_workers := transfer_workers c; max_history := max_history c; locale := None;
     security := None; security_probe_cache := None;
     recordings_storage_cap_bytes := recordings_storage_cap_bytes c; sync := sync c |}.

Lemma lookup_insert_some_ne {A} k k' (f : A -> json) o m :
  k <> k' -> insert_some k f o m !! k' = m !! k'.
Proof. destruct o; simpl; [apply lookup_insert_ne|done]. Qed.

Lemma lookup_security_ne (o : option SecurityConfig) (X : jmap) k :
  k <> "security_tier" -> k <> "security_modifiers" ->
  (match o with
   | Some sec =>
       <["security_modifiers" := JObject (SecurityTierModifiers.to_json_map (modifiers sec))]>
       (<["security_tier" := JString (SecurityTier.wire_name (tier sec))]> X)
   | None => X
   end) !! k = X !! k.
Proof. intros H1 H2. destruct o; [|done]. by rewrite !lookup_insert_ne by done. Qed.

Lemma lookup_insert_congr (k k' : string) (x : json) (m m' : jmap) :
  m !! k' = m' !! k' -> <[k := x]> m !! k' = <[k := x]> m' !! k'.
Proof. intros H. rewrite !lookup_insert. by case_decide. Qed.

Lemma lookup_extend_congr (k : string) (m m' n n' : jmap) :
  n !! k = n' !! k -> m !! k = m' !! k -> Json.extend m n !! k = Json.extend m' n' !! k.
Proof. intros H1 H2. unfold Json.extend. by rewrite !lookup_union, H1, H2. Qed.

Lemma to_json_plain c k :
  k ∉ optional_keys -> to_json_map c !! k = to_json_map (plain c) !! k.
Proof.
  intros Hk. assert (k <> "locale" /\ k <> "security_tier" /\ k <> "security_modifiers" /\
    k <> "security_probe_cache" /\ k <> "log_level" /\ k <> "skipped_version")
    as (H1 & H2 & H3 & H4 & H5 & H6) by (unfold optional_keys in Hk; set_solver).
  unfold to_json_map, AppConfig.to_json_value; simpl.
  rewrite !lookup_insert_ne by done.
  rewrite lookup_security_ne by done.
  rewrite lookup_insert_some_ne by done.
  apply lookup_extend_congr; [done|]. do 3 apply lookup_insert_congr.
  apply lookup_extend_congr; [|done]. unfold BehaviorConfig.to_json_object; simpl.
  apply lookup_insert_congr. rewrite lookup_insert_some_ne by done.
  apply lookup_insert_congr. by rewrite lookup_insert_some_ne by done.
Qed.

Lemma not_optional k : bool_decide (k ∈ optional_keys) = false -> k ∉ optional_keys.
Proof. by intros H%bool_decide_eq_false. Qed.

(** A fixed key of the written object holds the field's value. *)
Ltac written := rewrite to_json_plain by (apply not_optional; vm_compute; reflexivity);
  vm_compute; reflexivity.
Ltac carry := repeat (apply carries_insert; [written|]); apply carries_empty.

Lemma app_carries c :
  carries (to_json_map c) (TerminalConfig.to_json_object (terminal c)) /\
  carries (to_json_map c) (SshDefaults.to_json_object (ssh c)) /\
  carries (to_json_map c) (UiConfig.to_json_object (ui c)) /\
  carries (to_json_map c) (SyncConfig.to_json_object (sync c)).
Proof. repeat split; carry. Qed.

Definition log_level_json (l : LogLevel) : json := JString (LogLevel.wire_name l).

Lemma optional_written c :
  to_json_map c !! "log_level" = log_level_json <$> log_level (behavior c) /\
  to_json_map c !! "skipped_version" = JString <$> skipped_version (behavior c) /\
  to_json_map c !! "locale" = JString <$> locale c /\
  to_json_map c !! "security_tier" =
    (fun s => JString (SecurityTier.wire_name (tier s))) <$> security c /\
  to_json_map c !! "security_modifiers" =
    (fun s => JObject (SecurityTierModifiers.to_json_map (modifiers s))) <$> security c /\
  to_json_map c !! "security_probe_cache" =
    Some (match security_probe_cache c with
          | Some k => SecurityCapabilities.to_json_value k | None => JNull end).
Proof.
  destruct c as [tc sc uc [[ll|] cu [sv|] fp] tw mh [lo|] [s|] k cap sy];
    repeat split; vm_compute; reflexivity.
Qed.

Lemma behavior_read c : BehaviorConfig.from_json_object (to_json_map c) = behavior c.
Proof.
  pose proof (optional_written c) as (Hl & Hs & _).
  unfold BehaviorConfig.from_json_object, opt_str. rewrite Hl, Hs.
  rewrite (get_or_hit _ "check_updates_on_start" _ _ (JBool (check_updates_on_start (behavior c)))
    (check_updates_on_start (behavior c))); [|written|done].
  rewrite (get_or_hit _ "fido2_prefer_direct_hid" _ _ (JBool (fido2_prefer_direct_hid (behavior c)))
    (fido2_prefer_direct_hid (behavior c))); [|written|done].
  by destruct (behavior c) as [[[]|] ? [] ?].
Qed.

Lemma security_read c : read_security_config (to_json_map c) = security c.
Proof.
  pose proof (optional_written c) as (_ & _ & _ & Ht & Hm & _).
  unfold read_security_config, Json.get_or. rewrite Ht, Hm.
  destruct (security c) as [[t ms]|]; simpl; [|done].
  rewrite tier_wire_roundtrip. simpl. by rewrite modifiers_roundtrip.
Qed.

(** writing a configuration and reading it back gives the sanitized
    configuration: every field of every section, the security choice and the probe
    cache included, survives [config.json]; nothing else does. *)
Theorem config_roundtrip (c : AppConfig) (Hc : representable c) :
  AppConfig.from_json_value (AppConfig.to_json_value c) = AppConfig.sanitized c.
Proof.
  destruct Hc as [Hf Hsb (Hk & Hp & Hto) Ht (Hw & Hh) Hsc Hwk Hhi (Hps & Hpl)].
  assert (Hobj : Json.as_object (AppConfig.to_json_value c) = Some (to_json_map c)) by done.
  unfold AppConfig.from_json_value. rewrite Hobj.
  pose proof (app_carries c) as (H1 & H2 & H3 & H4).
  pose proof (optional_written c) as (_ & _ & Hlo & _ & _ & Hca).
  rewrite (terminal_read (terminal c)), (ssh_read (ssh c)), (ui_read (ui c)), (sync_read (sync c)),
    behavior_read, security_read by done.
  rewrite (get_or_hit _ "transfer_workers" _ _ (Json.of_i64 (transfer_workers c)) (transfer_workers c));
    [|written|by apply as_i64_of_i64].
  rewrite (get_or_hit _ "max_history" _ _ (Json.of_i64 (max_history c)) (max_history c));
    [|written|by apply as_i64_of_i64].
  rewrite (get_or_hit _ "recordings_storage_cap_bytes" _ _
    (Json.of_u64 (recordings_storage_cap_bytes c)) (recordings_storage_cap_bytes c)); [|written|done].
  unfold opt_str. rewrite Hlo, Hca.
  assert (Hcache : (Some (match security_probe_cache c with
      | Some k => SecurityCapabilities.to_json_value k | None => JNull end)
      ≫= SecurityCapabilities.from_json_value) = security_probe_cache c).
  { destruct (security_probe_cache c); [apply capabilities_roundtrip|done]. }
  rewrite Hcache. unfold AppConfig.sanitized; simpl.
  rewrite terminal_sanitized_idemp, ssh_sanitized_idemp, ui_sanitized_idemp, sync_sanitized_idemp.
  by destruct (locale c).
Qed.

Lemma config_roundtrip_witness :
  let c := {| terminal := TerminalConfig.default; ssh := SshDefaults.default;
              ui := UiConfig.default; behavior := BehaviorConfig.default; transfer_workers := 6;
              max_history := 10; locale := Some "ru";
              security := Some {| tier := Hardware;
                modifiers := {| password := true; biometric := true |} |};
              security_probe_cache := Some SecurityCapabilities.defaults;
              recordings_storage_cap_bytes := 5; sync := SyncConfig.default |} in
  AppConfig.from_json_value (AppConfig.to_json_value c) = AppConfig.sanitized c.
Proof.
  apply config_roundtrip. split; try reflexivity; repeat split; vm_compute; discriminate.
Defined.

(** ** The export *)
Lemma lookup_strip (ks : list string) (m : jmap) k :
  foldl (fun m k => delete k m) m ks !! k = if decide (k ∈ ks) then None else m !! k.
Proof.
  revert m. induction ks as [|k' ks IH]; intros m; simpl; [done|].
  rewrite IH, lookup_delete. repeat case_decide; set_solver.
Qed.

(** The portable part of a configuration. *)
Definition portable (c : AppConfig) : AppConfig :=
  {| terminal := terminal c; ssh := ssh c; ui := ui c; behavior := behavior c;
     transfer_workers := transfer_workers c; max_history := max_history c; locale := locale c;
     security := None; security_probe_cache := None;
     recordings_storage_cap_bytes := recordings_storage_cap_bytes c; sync := SyncConfig.default |}.

Lemma sync_keys c k : k ∉ stripped_keys -> SyncConfig.to_json_object c !! k = None.
Proof.
  intros Hk. unfold SyncConfig.to_json_object.
  repeat (rewrite lookup_insert_ne; [|intros <-; apply Hk; by apply (bool_decide_unpack _)]).
  apply lookup_empty.
Qed.

Lemma to_json_portable c k :
  k ∉ stripped_keys -> to_json_map c !! k = to_json_map (portable c) !! k.
Proof.
  intros Hk. assert (Hne : k <> "security_tier" /\ k <> "security_modifiers" /\
    k <> "security_probe_cache") by (unfold stripped_keys in Hk; set_solver).
  destruct Hne as (H1 & H2 & H3).
  unfold to_json_map, AppConfig.to_json_value; simpl. rewrite !lookup_insert_ne by done.
  rewrite lookup_security_ne by done.
  assert (HX : forall X s, Json.extend X (SyncConfig.to_json_object s) !! k = X !! k).
  { intros X s. unfold Json.extend. rewrite lookup_union, sync_keys by done.
    by destruct (X !! k). }
  destruct (locale c) as [l|]; cbn [insert_some]; [apply lookup_insert_congr|]; by rewrite !HX.
Qed.

Lemma sync_read_stripped m :
  (forall k, k ∈ stripped_keys -> m !! k = None) ->
  SyncConfig.from_json_object m = SyncConfig.default.
Proof.
  intros Hm. unfold SyncConfig.from_json_object, Json.get_or.
  rewrite !Hm by (by apply (bool_decide_unpack _)). done.
Qed.

(** an exported configuration says nothing about this installation.  Two
    configurations that agree on the portable preferences export to the same value,
    whatever their security tier, probe cache and sync settings are, and importing an
    export never yields a security choice, a probe cache or sync settings. *)
Theorem export_is_portable (c c' : AppConfig) (Hp : portable c = portable c') :
  strip_for_export (AppConfig.to_json_value c) = strip_for_export (AppConfig.to_json_value c') /\
  forall v, let i := AppConfig.from_json_value (strip_for_export v) in
    security i = None /\ security_probe_cache i = None /\ sync i = SyncConfig.default.
Proof.
  split.
  - change (JObject (foldl (fun m k => delete k m) (to_json_map c) stripped_keys) =
      JObject (foldl (fun m k => delete k m) (to_json_map c') stripped_keys)).
    f_equal. apply map_eq. intros k. rewrite !lookup_strip. case_decide as Hk; [done|].
    by rewrite (to_json_portable c), (to_json_portable c'), Hp.
  - intros v i. subst i. destruct v as [| | | | |m]; try done.
    change (strip_for_export (JObject m))
      with (JObject (foldl (fun m k => delete k m) m stripped_keys)).
    set (m' := foldl _ _ _).
    assert (Hm : forall k, k ∈ stripped_keys -> m' !! k = None).
    { intros k Hk. subst m'. rewrite lookup_strip. by case_decide. }
    simpl. rewrite sync_read_stripped by done. unfold read_security_config.
    rewrite !Hm by (by apply (bool_decide_unpack _)). done.
Qed.

Lemma export_is_portable_witness :
  let c := AppConfig.default in
  let c' := {| terminal := terminal c; ssh := ssh c; ui := ui c; behavior := behavior c;
     transfer_workers := transfer_workers c; max_history := max_history c; locale := locale c;
     security := Some SecurityConfig.defaults; security_probe_cache := None;
     recordings_storage_cap_bytes := recordings_storage_cap_bytes c;
     sync := SyncConfig.default |} in
  strip_for_export (AppConfig.to_json_value c) = strip_for_export (AppConfig.to_json_value c').
Proof. intros c c'. apply (export_is_portable c c'). reflexivity. Defined.
