(* ===== verification/RateLimit.v ===== *)
(** * The in-memory password-attempt limiter ([rate_limit.rs])

    [InMemoryRateLimiter] is one limiter: its state is the Rust [State] behind
    the mutex, the clock is the argument [now] of the operations that read it.
    [InMemoryRateLimiterRegistry] is the process-wide map of limiters. *)
From Stdlib Require Import ZArith Lia.
From stdpp Require Import prelude gmap strings list.
From S2P Require Import Prelude.

Local Open Scope Z_scope.

(** Seconds to wait after [n] consecutive failures. *)
Definition BACKOFF_SCHEDULE : list Z := [0; 1; 2; 4; 8; 16; 32; 60; 60; 60].

Record RateLimitStatus := {
  failure_count : Z;
  cooldown_remaining_ms : Z
}.

Definition is_locked (s : RateLimitStatus) : bool := 0 <? cooldown_remaining_ms s.

#[export] Instance RateLimitStatus_eq_dec : EqDecision RateLimitStatus.
Proof. solve_decision. Defined.

Module InMemoryRateLimiter.

Record State := mkState {
  state_failure_count : Z;
  next_retry_at_ms : option Z
}.

#[export] Instance State_eq_dec : EqDecision State.
Proof. solve_decision. Defined.

Definition new : State := mkState 0 None.

Definition status (now : Z) (g : State) : RateLimitStatus :=
  let cooldown :=
    match next_retry_at_ms g with
    | Some at_ => Z.max (wrap_i64 (at_ - now)) 0
    | None => 0
    end in
  {| failure_count := state_failure_count g; cooldown_remaining_ms := cooldown |}.

Definition cap : Z := Z.of_nat (length BACKOFF_SCHEDULE) - 1.

(** [BACKOFF_SCHEDULE[i]]: the index panics out of range; [step_index_in_range]
    shows it never is, so the default is never taken. *)
Definition step (n : Z) : Z := default 0 (BACKOFF_SCHEDULE !! Z.to_nat n).

Definition record_failure (now : Z) (g : State) : State :=
  let n := Z.min (wrap_u32 (state_failure_count g + 1)) cap in
  let secs := step n in
  mkState n (if secs =? 0 then None else Some (wrap_i64 (now + secs * 1000))).

Definition record_success (g : State) : State := mkState 0 None.

End InMemoryRateLimiter.

Module InMemoryRateLimiterRegistry.

Definition Registry := gmap string InMemoryRateLimiter.State.

Definition new : Registry := ∅.

(** [entry(id).or_default()]: the limiter under [id], created when absent. *)
Definition entry_or_default (id : string) (g : gmap string InMemoryRateLimiter.State) :
    InMemoryRateLimiter.State := default InMemoryRateLimiter.new (g !! id).

Definition status (now : Z) (id : string) (g : gmap string InMemoryRateLimiter.State) :
    RateLimitStatus * gmap string InMemoryRateLimiter.State :=
  let l := entry_or_default id g in
  (InMemoryRateLimiter.status now l, <[id := l]> g).

Definition record_failure (now : Z) (id : string) (g : gmap string InMemoryRateLimiter.State) :
    gmap string InMemoryRateLimiter.State :=
  <[id := InMemoryRateLimiter.record_failure now (entry_or_default id g)]> g.

Definition record_success (id : string) (g : gmap string InMemoryRateLimiter.State) :
    gmap string InMemoryRateLimiter.State :=
  <[id := InMemoryRateLimiter.record_success (entry_or_default id g)]> g.

Definition drop_id (id : string) (g : gmap string InMemoryRateLimiter.State) :
    bool * gmap string InMemoryRateLimiter.State :=
  (bool_decide (is_Some (g !! id)), delete id g).

Definition count (g : gmap string InMemoryRateLimiter.State) : nat := size g.

End InMemoryRateLimiterRegistry.

(** ** One limiter: the schedule *)
Section Limiter.
Import InMemoryRateLimiter.

Lemma cap_eq : cap = 9.
Proof. reflexivity. Qed.

Lemma step_pos n : 0 < n <= 9 -> 0 < step n <= 60.
Proof.
  intros Hn. assert (n = 1 \/ n = 2 \/ n = 3 \/ n = 4 \/ n = 5 \/ n = 6 \/
    n = 7 \/ n = 8 \/ n = 9) as Hc by lia.
  by destruct_or! Hc; subst n.
Qed.

(** The index [record_failure] computes is one of the schedule's. *)
Lemma step_index_in_range n :
  0 <= n -> is_Some (BACKOFF_SCHEDULE !! Z.to_nat (Z.min (wrap_u32 n) cap)).
Proof.
  intros Hn. apply lookup_lt_is_Some.
  pose proof (wrap_u32_range n). int_unfold. rewrite cap_eq. simpl. lia.
Qed.

(** The well-formed states: the counter is an index of the schedule, and a
    deadline is armed exactly when the counter is positive. *)
Definition wf (g : State) : Prop :=
  0 <= state_failure_count g <= cap /\
  (is_Some (next_retry_at_ms g) <-> 0 < state_failure_count g).

Lemma wf_new : wf new.
Proof. split; [rewrite cap_eq; simpl; lia|]. simpl. rewrite is_Some_alt. split; [done|lia]. Qed.

Lemma record_failure_eq now g :
  0 <= state_failure_count g <= cap ->
  record_failure now g =
    mkState (Z.min (state_failure_count g + 1) cap)
      (Some (wrap_i64 (now + step (Z.min (state_failure_count g + 1) cap) * 1000))).
Proof.
  rewrite cap_eq. intros Hg. unfold record_failure. rewrite cap_eq.
  rewrite wrap_u32_id by (int_unfold; lia).
  pose proof (step_pos (Z.min (state_failure_count g + 1) 9)).
  destruct (Z.eqb_spec (step (Z.min (state_failure_count g + 1) 9)) 0); [lia|done].
Qed.

Lemma wf_record_failure now g : wf g -> wf (record_failure now g).
Proof.
  intros [Hc _]. rewrite record_failure_eq by done. rewrite cap_eq in *.
  split; simpl; [rewrite cap_eq; lia|]. rewrite is_Some_alt. split; [lia|done].
Qed.

Lemma wf_record_success g : wf (record_success g).
Proof. apply wf_new. Qed.

End Limiter.

#[export] Hint Resolve wf_new wf_record_failure wf_record_success : lfs.

(** ** Histories of attempts

    [Failed t] is [record_failure] with the clock at [t]; [Passed] is
    [record_success]. *)
Inductive attempt :=
| Failed (now : Z)
| Passed.

Definition apply_attempt (g : InMemoryRateLimiter.State) (a : attempt) :
    InMemoryRateLimiter.State :=
  match a with
  | Failed now => InMemoryRateLimiter.record_failure now g
  | Passed => InMemoryRateLimiter.record_success g
  end.

Definition run_attempts (g : InMemoryRateLimiter.State) (h : list attempt) :
    InMemoryRateLimiter.State := foldl apply_attempt g h.

(** The abstract state: the times of the failures since the last success, the
    most recent first. *)
Definition streak_step (s : list Z) (a : attempt) : list Z :=
  match a with Failed now => now :: s | Passed => [] end.

Definition streak (h : list attempt) : list Z := foldl streak_step [] h.

(** What the limiter's state must be for a streak of failures. *)
Definition state_of_streak (s : list Z) : InMemoryRateLimiter.State :=
  match s with
  | [] => InMemoryRateLimiter.new
  | t :: _ =>
      let n := Z.min (Z.of_nat (length s)) 9 in
      InMemoryRateLimiter.mkState n
        (Some (wrap_i64 (t + InMemoryRateLimiter.step n * 1000)))
  end.

Lemma wf_run_attempts g h : wf g -> wf (run_attempts g h).
Proof.
  revert g. induction h as [|[now|] h IH]; intros g Hg; simpl; [done| |];
    apply IH; eauto with lfs.
Qed.

Lemma state_of_streak_count s :
  InMemoryRateLimiter.state_failure_count (state_of_streak s) = Z.min (Z.of_nat (length s)) 9.
Proof. by destruct s. Qed.

Lemma apply_attempt_streak s a :
  apply_attempt (state_of_streak s) a = state_of_streak (streak_step s a).
Proof.
  destruct a as [now|]; simpl; [|done].
  rewrite record_failure_eq, state_of_streak_count, cap_eq.
  - replace (Z.min (Z.min (Z.of_nat (length s)) 9 + 1) 9)
      with (Z.min (Z.of_nat (S (length s))) 9) by lia. done.
  - rewrite state_of_streak_count, cap_eq. lia.
Qed.

(** the limiter is a function of the current streak of failures: after any
    history, the counter is the length of the streak clamped at the last
    schedule slot, and the deadline is armed [schedule[counter]] seconds after
    the last failure of the streak; a success forgets everything before it. *)
Theorem limiter_refines_streak (h : list attempt) :
  run_attempts InMemoryRateLimiter.new h = state_of_streak (streak h).
Proof.
  change InMemoryRateLimiter.new with (state_of_streak []).
  unfold run_attempts, streak. generalize (@nil Z). induction h as [|a h IH]; intros s; simpl.
  - done.
  - rewrite apply_attempt_streak. apply IH.
Qed.

(** ** The brake on guessing

    [guess g ts] makes one wrong guess at each time of [ts], the way a caller of
    the limiter does: it asks [status] first and stops at the first time the
    limiter is locked. *)
Fixpoint guess (g : InMemoryRateLimiter.State) (ts : list Z) : option InMemoryRateLimiter.State :=
  match ts with
  | [] => Some g
  | t :: ts =>
      if is_locked (InMemoryRateLimiter.status t g) then None
      else guess (InMemoryRateLimiter.record_failure t g) ts
  end.

(** Seconds of wait owed after [n] more failures from a counter of [k]. *)
Fixpoint wait_from (k : Z) (n : nat) : Z :=
  match n with
  | O => 0
  | S n => InMemoryRateLimiter.step (Z.min (k + 1) 9) + wait_from (Z.min (k + 1) 9) n
  end.

(** The clock stays where adding a minute cannot overflow an [i64]. *)
Definition sane_time (t : Z) : Prop := 0 <= t < 2 ^ 62.

Lemma unlocked_after_failure t t' g :
  wf g -> sane_time t -> sane_time t' ->
  is_locked (InMemoryRateLimiter.status t' (InMemoryRateLimiter.record_failure t g)) = false ->
  t + 1000 * InMemoryRateLimiter.step
        (Z.min (InMemoryRateLimiter.state_failure_count g + 1) 9) <= t'.
Proof.
  intros [Hc _] Ht Ht'. rewrite record_failure_eq, cap_eq in * by done.
  pose proof (step_pos (Z.min (InMemoryRateLimiter.state_failure_count g + 1) 9)) as Hs.
  unfold is_locked, InMemoryRateLimiter.status; simpl. intros Hl. breflect.
  unfold sane_time in *.
  rewrite (wrap_i64_id (t + _)) in Hl by (int_unfold; lia).
  rewrite wrap_i64_id in Hl by (int_unfold; lia). lia.
Qed.

Lemma guess_wait t ts g g' :
  wf g -> sane_time t -> Forall sane_time ts ->
  guess (InMemoryRateLimiter.record_failure t g) ts = Some g' ->
  t + 1000 * wait_from (InMemoryRateLimiter.state_failure_count g) (length ts)
    <= default t (last ts).
Proof.
  revert t g. induction ts as [|t' ts IH]; intros t g Hg Ht Hts Hguess; simpl in *; [lia|].
  apply Forall_cons in Hts as [Ht' Hts].
  destruct (is_locked _) eqn:Hl; [done|].
  apply unlocked_after_failure in Hl; [|done..].
  pose proof (IH t' _ (wf_record_failure t g Hg) Ht' Hts Hguess) as Hw.
  rewrite (record_failure_eq t g) in Hw by apply Hg. simpl in Hw. rewrite cap_eq in Hw.
  assert (default t (last (t' :: ts)) = default t' (last ts)) as Hd.
  { destruct ts; [done|]. simpl. destruct (last (z :: ts)) eqn:E; [done|].
    by apply last_None in E. }
  simpl in Hd. rewrite Hd. lia.
Qed.

Lemma wait_from_cap n : wait_from 9 n = 60 * Z.of_nat n.
Proof.
  induction n as [|n IH]; [done|]. cbn [wait_from]. change (Z.min (9 + 1) 9) with 9.
  rewrite IH. change (InMemoryRateLimiter.step 9) with 60. lia.
Qed.

Lemma wait_from_0 n : wait_from 0 (9 + n) = 243 + 60 * Z.of_nat n.
Proof.
  change (9 + n)%nat with (S (S (S (S (S (S (S (S (S n))))))))).
  cbn [wait_from]. repeat match goal with |- context [Z.min (?a + 1) 9] =>
    let x := eval vm_compute in (Z.min (a + 1) 9) in change (Z.min (a + 1) 9) with x end.
  rewrite wait_from_cap. vm_compute InMemoryRateLimiter.step. lia.
Qed.

(** the backoff is a real brake on guessing.  A caller that asks the limiter
    before every attempt and guesses wrong [n + 10] times in a row, from a fresh
    limiter, needs at least [243 + 60 * n] seconds between its first and its last
    guess. *)
Theorem guessing_is_slow (t : Z) (ts : list Z) (n : nat) (g : InMemoryRateLimiter.State) :
  Forall sane_time (t :: ts) ->
  length ts = (9 + n)%nat ->
  guess InMemoryRateLimiter.new (t :: ts) = Some g ->
  default t (last ts) - t >= 1000 * (243 + 60 * Z.of_nat n).
Proof.
  intros Hs Hlen Hg. apply Forall_cons in Hs as [Ht Hts].
  change (guess InMemoryRateLimiter.new (t :: ts)) with
    (guess (InMemoryRateLimiter.record_failure t InMemoryRateLimiter.new) ts) in Hg.
  apply guess_wait in Hg; [|eauto with lfs..].
  rewrite Hlen in Hg. simpl InMemoryRateLimiter.state_failure_count in Hg.
  rewrite wait_from_0 in Hg. lia.
Qed.

(** A caller that waits exactly the schedule's cooldowns is let through. *)
Definition patient : list Z :=
  [1000; 3000; 7000; 15000; 31000; 63000; 123000; 183000; 243000; 303000].

Lemma guessing_is_slow_witness :
  exists g, guess InMemoryRateLimiter.new (0 :: patient) = Some g /\ 303000 - 0 >= 303000.
Proof.
  eexists. split; [reflexivity|].
  eapply (guessing_is_slow 0 patient 1).
  - unfold patient. repeat (apply Forall_cons; split; [unfold sane_time; lia|]). apply Forall_nil; exact I.
  - reflexivity.
  - reflexivity.
Defined.

(** ** The registry

    Two registries are equivalent when every id reads the same limiter: an absent
    entry and a fresh one cannot be told apart by [status], [record_failure] or
    [record_success] (only [count] sees the difference). *)
Section Registry.
Import InMemoryRateLimiterRegistry.

#[export] Instance registry_equiv : Equiv (gmap string InMemoryRateLimiter.State) :=
  fun g1 g2 => forall id, entry_or_default id g1 = entry_or_default id g2.

#[export] Instance registry_equivalence : Equivalence registry_equiv.
Proof.
  split.
  - intros g id. done.
  - intros g1 g2 H id. done.
  - intros g1 g2 g3 H1 H2 id. by rewrite H1.
Qed.

Lemma entry_insert_eq id l g : entry_or_default id (<[id := l]> g) = l.
Proof. unfold entry_or_default. by rewrite lookup_insert_eq. Qed.

Lemma entry_insert_ne id id' l g :
  id <> id' -> entry_or_default id' (<[id := l]> g) = entry_or_default id' g.
Proof. intros. unfold entry_or_default. by rewrite lookup_insert_ne. Qed.

Lemma entry_delete_eq id g : entry_or_default id (delete id g) = InMemoryRateLimiter.new.
Proof. unfold entry_or_default. by rewrite lookup_delete_eq. Qed.

Lemma entry_delete_ne id id' g :
  id <> id' -> entry_or_default id' (delete id g) = entry_or_default id' g.
Proof. intros. unfold entry_or_default. by rewrite lookup_delete_ne. Qed.

#[export] Instance insert_proper id :
  Proper ((=) ==> registry_equiv ==> registry_equiv)
    (insert id : InMemoryRateLimiter.State -> gmap string InMemoryRateLimiter.State -> _).
Proof.
  intros l ? <- g1 g2 H id'. destruct (decide (id = id')) as [<-|Hne].
  - by rewrite !entry_insert_eq.
  - by rewrite !entry_insert_ne.
Qed.

#[export] Instance record_failure_proper now id :
  Proper (registry_equiv ==> registry_equiv) (record_failure now id).
Proof. intros g1 g2 H. unfold record_failure. rewrite (H id). by apply insert_proper. Qed.

#[export] Instance record_success_proper id :
  Proper (registry_equiv ==> registry_equiv) (record_success id).
Proof. intros g1 g2 H. unfold record_success. rewrite (H id). by apply insert_proper. Qed.

(** Reading a status creates at most a fresh entry, which nobody can see. *)
Lemma status_equiv now id g : registry_equiv (status now id g).2 g.
Proof.
  intros id'. simpl. destruct (decide (id = id')) as [<-|Hne].
  - by rewrite entry_insert_eq.
  - by rewrite entry_insert_ne.
Qed.

(** The calls a registry serves. *)
Inductive command :=
| Status (now : Z) (id : string)
| RecordFailure (now : Z) (id : string)
| RecordSuccess (id : string)
| DropId (id : string).

Definition serve (g : gmap string InMemoryRateLimiter.State) (c : command) :
    gmap string InMemoryRateLimiter.State :=
  match c with
  | Status now id => (status now id g).2
  | RecordFailure now id => record_failure now id g
  | RecordSuccess id => record_success id g
  | DropId id => (drop_id id g).2
  end.

(** The calls as the limiter of [id] alone sees them. *)
Definition attempts_of (id : string) (c : command) : list attempt :=
  match c with
  | Status _ _ => []
  | RecordFailure now id' => if decide (id = id') then [Failed now] else []
  | RecordSuccess id' | DropId id' => if decide (id = id') then [Passed] else []
  end.

Lemma serve_entry id g c :
  entry_or_default id (serve g c) = run_attempts (entry_or_default id g) (attempts_of id c).
Proof.
  destruct c as [now id'|now id'|id'|id']; cbn -[InMemoryRateLimiterRegistry.status].
  - apply status_equiv.
  - unfold record_failure. case_decide as Hid; [subst|]; simpl.
    + by rewrite entry_insert_eq.
    + by rewrite entry_insert_ne.
  - unfold record_success. case_decide as Hid; [subst|]; simpl.
    + by rewrite entry_insert_eq.
    + by rewrite entry_insert_ne.
  - case_decide as Hid; [subst|]; simpl.
    + by rewrite entry_delete_eq.
    + by rewrite entry_delete_ne.
Qed.

(** the shared registry keeps the limiters apart.  Whatever calls the registry
    has served, the limiter of an id is exactly the limiter that saw that id's
    attempts only: no call on another id, no [status] and no automatic creation can
    reset or advance it, and dropping an id is a reset of that id alone. *)
Theorem registry_isolates_limiters (id : string) (cs : list command) :
  entry_or_default id (foldl serve new cs) =
    run_attempts InMemoryRateLimiter.new (cs ≫= attempts_of id).
Proof.
  change InMemoryRateLimiter.new with (entry_or_default id new).
  generalize new. induction cs as [|c cs IH]; intros g; [done|].
  simpl. rewrite IH, serve_entry. unfold run_attempts. by rewrite <-foldl_app.
Qed.

End Registry.
