(* ===== verification/Secrets.v ===== *)
(** * The secret store ([secrets.rs])

    A [Zeroizing<Vec<u8>>] is a heap buffer: its address and its bytes.  The store
    keeps the map from ids to buffers and asks the OS to pin ([lock_memory]) every
    resident non-empty buffer.  Pinning is best-effort: the result of a request is
    ignored, and the OS pins whole pages without counting.  The state therefore holds the
    requests that were made, [pin_calls], and nothing is said about what is pinned. *)
From Stdlib Require Import ZArith Lia.
From stdpp Require Import prelude gmap strings list fin_maps.
From S2P Require Import Prelude.

Definition ACTIVE_DBKEY_SECRET_ID : string := "app.dbkey.active".

Record buffer := mkBuffer { addr : N; bytes : list Z }.

(** A request to the OS, whose answer nobody reads. *)
Inductive pin_call :=
| LockMemory (at_ : N) (len : nat)
| UnlockMemory (at_ : N) (len : nat).

Record SecretStore := mkStore {
  inner : gmap string buffer;
  (** The requests so far, the latest first. *)
  pin_calls : list pin_call;
  (** A fresh buffer gets the next number; numbers name buffers and are never reused. *)
  next_addr : N
}.

Module SecretStore.

Definition new : SecretStore := mkStore ∅ [] 0.

(** [page_lock] and [page_unlock]: no-ops on an empty buffer. *)
Definition page_lock (b : buffer) (p : list pin_call) : list pin_call :=
  match bytes b with [] => p | bs => LockMemory (addr b) (length bs) :: p end.

Definition page_unlock (b : buffer) (p : list pin_call) : list pin_call :=
  match bytes b with [] => p | bs => UnlockMemory (addr b) (length bs) :: p end.

Definition unlock_old (old : option buffer) (p : list pin_call) : list pin_call :=
  match old with Some b => page_unlock b p | None => p end.

Definition put (id : string) (bs : list Z) (s : SecretStore) : SecretStore :=
  let z := mkBuffer (next_addr s) bs in
  let p := page_lock z (pin_calls s) in
  mkStore (<[id := z]> (inner s)) (unlock_old (inner s !! id) p) (N.succ (next_addr s)).

Definition has (id : string) (s : SecretStore) : bool := bool_decide (is_Some (inner s !! id)).

(** [get] hands out a copy, which is never pinned. *)
Definition get (id : string) (s : SecretStore) : option (list Z) := bytes <$> inner s !! id.

Definition drop_id (id : string) (s : SecretStore) : SecretStore :=
  mkStore (delete id (inner s)) (unlock_old (inner s !! id) (pin_calls s)) (next_addr s).

Definition take (id : string) (s : SecretStore) : option (list Z) * SecretStore :=
  (bytes <$> inner s !! id,
   mkStore (delete id (inner s)) (unlock_old (inner s !! id) (pin_calls s)) (next_addr s)).

Definition clear (s : SecretStore) : SecretStore :=
  mkStore ∅ (map_fold (fun _ b p => page_unlock b p) (pin_calls s) (inner s)) (next_addr s).

Definition rename (from to : string) (s : SecretStore) : bool * SecretStore :=
  if String.eqb from to then (has from s, s)
  else
    match inner s !! from with
    | None => (false, s)
    | Some buf =>
        let g := delete from (inner s) in
        (true, mkStore (<[to := buf]> g) (unlock_old (g !! to) (pin_calls s)) (next_addr s))
    end.

Definition ids (s : SecretStore) : list string := (map_to_list (inner s)).*1.

End SecretStore.

(** The buffers whose lock was requested and whose unlock was not requested since. *)
Fixpoint requested (calls : list pin_call) : gset N :=
  match calls with
  | [] => ∅
  | LockMemory a _ :: calls => {[a]} ∪ requested calls
  | UnlockMemory a _ :: calls => requested calls ∖ {[a]}
  end.

(** ** The invariant: exactly the locks of the resident non-empty buffers are outstanding *)
Section Pins.
Import SecretStore.

Definition resident (s : SecretStore) (a : N) : Prop :=
  exists id b, inner s !! id = Some b /\ bytes b <> [] /\ addr b = a.

Record store_wf (s : SecretStore) : Prop := {
  wf_fresh : forall id b, inner s !! id = Some b -> (addr b < next_addr s)%N;
  wf_distinct : forall id1 id2 b1 b2, inner s !! id1 = Some b1 -> inner s !! id2 = Some b2 ->
    addr b1 = addr b2 -> id1 = id2;
  wf_pins : forall a, a ∈ requested (pin_calls s) <-> resident s a
}.

Lemma store_wf_new : store_wf new.
Proof.
  split; simpl.
  - intros id b. by rewrite lookup_empty.
  - intros id1 id2 b1 b2. by rewrite lookup_empty.
  - intros a. split; [set_solver|]. intros (id & b & H & _). simpl in H. by rewrite lookup_empty in H.
Qed.

Lemma elem_of_unlock a b p : bytes b <> [] -> a ∈ requested (page_unlock b p) <-> a ∈ requested p /\ a <> addr b.
Proof. unfold page_unlock. destruct (bytes b); [done|]. cbn [requested]. set_solver. Qed.

Lemma unlock_empty b p : bytes b = [] -> page_unlock b p = p.
Proof. unfold page_unlock. by intros ->. Qed.

Lemma elem_of_lock a b p : a ∈ requested (page_lock b p) <-> a ∈ requested p \/ (bytes b <> [] /\ a = addr b).
Proof. unfold page_lock. destruct (bytes b); cbn [requested]; set_solver. Qed.

(** Removing the entry [old] of [id] (if any) and unpinning it. *)
Lemma elem_of_unlock_old s id a :
  store_wf s ->
  a ∈ requested (unlock_old (inner s !! id) (pin_calls s)) <->
  exists id' b, id' <> id /\ inner s !! id' = Some b /\ bytes b <> [] /\ addr b = a.
Proof.
  intros [Hf Hd Hp]. destruct (inner s !! id) as [old|] eqn:Hold; simpl.
  - destruct (decide (bytes old = [])) as [He|Hne].
    + rewrite unlock_empty by done. rewrite Hp. split.
      * intros (id' & b & Hl & Hb & Ha). exists id', b. split; [|done].
        intros ->. congruence.
      * intros (id' & b & _ & Hl). exists id', b. done.
    + rewrite elem_of_unlock by done. rewrite Hp. split.
      * intros [(id' & b & Hl & Hb & Ha) Hn]. exists id', b. split; [|done].
        intros ->. congruence.
      * intros (id' & b & Hid & Hl & Hb & Ha). split; [by exists id', b|].
        intros ->. apply Hid. by apply (Hd _ _ b old).
  - rewrite Hp. split.
    + intros (id' & b & Hl & Hb & Ha). exists id', b. split; [|done]. intros ->. congruence.
    + intros (id' & b & _ & Hl). by exists id', b.
Qed.

Lemma store_wf_delete s id :
  store_wf s ->
  store_wf (mkStore (delete id (inner s)) (unlock_old (inner s !! id) (pin_calls s)) (next_addr s)).
Proof.
  intros Hw. pose proof Hw as [Hf Hd Hp]. split; simpl.
  - intros id' b. rewrite lookup_delete_Some. naive_solver.
  - intros id1 id2 b1 b2. rewrite !lookup_delete_Some. naive_solver.
  - intros a. rewrite elem_of_unlock_old by done. unfold resident; simpl.
    setoid_rewrite lookup_delete_Some. naive_solver.
Qed.

Lemma unlock_old_lock s id z :
  store_wf s -> addr z = next_addr s ->
  requested (unlock_old (inner s !! id) (page_lock z (pin_calls s))) =
  requested (page_lock z (unlock_old (inner s !! id) (pin_calls s))).
Proof.
  intros [Hf Hd Hp] Hz. destruct (inner s !! id) as [old|] eqn:Hold; [|done]. simpl.
  apply Hf in Hold. unfold page_unlock, page_lock.
  destruct (bytes old); [done|]. destruct (bytes z); [done|]. cbn [requested].
  apply set_eq. intros a. rewrite Hz.
  destruct (decide (a = addr old)); set_solver by lia.
Qed.

Lemma store_wf_put id bs s : store_wf s -> store_wf (put id bs s).
Proof.
  intros Hw. pose proof (store_wf_delete s id Hw) as [Hf Hd Hp]. pose proof Hw as [Hf0 _ _].
  unfold put. simpl in *.
  assert (forall id' b, id <> id' -> inner s !! id' = Some b -> delete id (inner s) !! id' = Some b)
    as Hdel by (intros; by rewrite lookup_delete_ne).
  split; simpl.
  - intros id' b. rewrite lookup_insert. case_decide; [intros [= <-]; simpl; lia|].
    intros Hl. apply Hf0 in Hl. lia.
  - intros id1 id2 b1 b2. rewrite !lookup_insert. repeat case_decide; subst.
    + done.
    + intros [= <-] Hl Ha. apply Hf0 in Hl. simpl in Ha. lia.
    + intros Hl [= <-] Ha. apply Hf0 in Hl. simpl in Ha. lia.
    + eauto.
  - intros a. rewrite unlock_old_lock, elem_of_lock by done. rewrite Hp. unfold resident; simpl. split.
    + intros [(id' & b & Hl & Hb) | [Hne ->]].
      * apply lookup_delete_Some in Hl as [Hne Hl]. exists id', b.
        by rewrite lookup_insert_ne.
      * exists id, (mkBuffer (next_addr s) bs). by rewrite lookup_insert_eq.
    + intros (id' & b & Hl & Hb & Ha). rewrite lookup_insert in Hl. case_decide.
      * injection Hl as <-. right. done.
      * left. exists id', b. rewrite lookup_delete_ne; done.
Qed.

Lemma unlock_all (m : gmap string buffer) (p : list pin_call) a :
  a ∈ requested (map_fold (fun _ b q => page_unlock b q) p m) <->
  a ∈ requested p /\ ~ (exists id b, m !! id = Some b /\ bytes b <> [] /\ addr b = a).
Proof.
  revert p. induction m as [|id b m Hm Hfold IH] using map_first_key_ind; intros p.
  - rewrite map_fold_empty. setoid_rewrite lookup_empty. naive_solver.
  - rewrite map_fold_insert_first_key by done.
    destruct (decide (bytes b = [])) as [He|Hne].
    + rewrite unlock_empty, IH by done. setoid_rewrite lookup_insert_Some.
      split; intros [Ha Hn]; (split; [done|]); contradict Hn;
        destruct Hn as (id' & b' & Hl & Hb').
      * destruct Hl as [[-> ->]|[_ Hl]]; [by destruct Hb'|by exists id', b'].
      * exists id', b'. split; [right; split; [congruence|done]|done].
    + rewrite elem_of_unlock, IH by done. setoid_rewrite lookup_insert_Some. split.
      * intros [[Ha Hn] Hab]. split; [done|]. intros (id' & b' & Hl & Hb' & Ha').
        destruct Hl as [[-> ->]|[Hid Hl]]; [done|]. apply Hn. by exists id', b'.
      * intros [Ha Hn]. split; [split; [done|]|].
        -- contradict Hn. destruct Hn as (id' & b' & Hl & Hb). exists id', b'.
           split; [right; split; [congruence|done]|done].
        -- contradict Hn. exists id, b. naive_solver.
Qed.

Lemma store_wf_clear s : store_wf s -> store_wf (clear s).
Proof.
  intros [Hf Hd Hp]. unfold clear. split; simpl.
  - intros id b. by rewrite lookup_empty.
  - intros id1 id2 b1 b2. by rewrite lookup_empty.
  - intros a. rewrite unlock_all, Hp. unfold resident; simpl. setoid_rewrite lookup_empty.
    naive_solver.
Qed.

Lemma store_wf_rename from to s : store_wf s -> store_wf (rename from to s).2.
Proof.
  intros Hw. unfold rename. destruct (String.eqb_spec from to) as [_|Hne]; [done|].
  destruct (inner s !! from) as [buf|] eqn:Hfrom; [|done]. simpl.
  rewrite lookup_delete_ne by done.
  pose proof (store_wf_delete s to Hw) as [Hf Hd Hp]. pose proof Hw as [Hf0 Hd0 _]. simpl in *.
  split; simpl.
  - intros id b. rewrite lookup_insert. case_decide; [intros [= <-]; eauto|].
    rewrite lookup_delete_Some. naive_solver.
  - intros id1 id2 b1 b2. rewrite !lookup_insert. repeat case_decide; subst;
      rewrite ?lookup_delete_Some; [done| | |naive_solver].
    + intros [= <-] [Hx Hl] Ha. exfalso. apply Hx. eapply Hd0; eauto.
    + intros [Hx Hl] [= <-] Ha. exfalso. apply Hx. symmetry. eapply Hd0; eauto.
  - intros a. rewrite Hp. unfold resident; simpl. split.
    + intros (id & b & Hl & Hb & Ha). apply lookup_delete_Some in Hl as [Hto Hl].
      destruct (decide (id = from)) as [->|Hnf].
      * exists to, buf. rewrite lookup_insert_eq. simplify_eq. done.
      * exists id, b. rewrite lookup_insert_ne, lookup_delete_ne by done. done.
    + intros (id & b & Hl & Hb & Ha). rewrite lookup_insert in Hl. case_decide.
      * simplify_eq. exists from, b. by rewrite lookup_delete_ne.
      * apply lookup_delete_Some in Hl as [? Hl]. exists id, b. by rewrite lookup_delete_ne.
Qed.

End Pins.

#[export] Hint Resolve store_wf_new store_wf_delete store_wf_put store_wf_clear store_wf_rename : lfs.

(** ** The contract: a plain map from ids to bytes *)
Inductive secret_op :=
| Put (id : string) (bs : list Z)
| Has (id : string)
| Get (id : string)
| DropId (id : string)
| Take (id : string)
| Clear
| Rename (from to : string).

Inductive secret_result :=
| RUnit
| RBool (b : bool)
| RBytes (o : option (list Z)).

Definition secret_exec (s : SecretStore) (o : secret_op) : secret_result * SecretStore :=
  match o with
  | Put id bs => (RUnit, SecretStore.put id bs s)
  | Has id => (RBool (SecretStore.has id s), s)
  | Get id => (RBytes (SecretStore.get id s), s)
  | DropId id => (RUnit, SecretStore.drop_id id s)
  | Take id => let '(r, s') := SecretStore.take id s in (RBytes r, s')
  | Clear => (RUnit, SecretStore.clear s)
  | Rename from to => let '(r, s') := SecretStore.rename from to s in (RBool r, s')
  end.

(** The specification never mentions buffers or pins. *)
Definition secret_spec (m : gmap string (list Z)) (o : secret_op) :
    secret_result * gmap string (list Z) :=
  match o with
  | Put id bs => (RUnit, <[id := bs]> m)
  | Has id => (RBool (bool_decide (is_Some (m !! id))), m)
  | Get id => (RBytes (m !! id), m)
  | DropId id => (RUnit, delete id m)
  | Take id => (RBytes (m !! id), delete id m)
  | Clear => (RUnit, ∅)
  | Rename from to =>
      match m !! from with
      | None => (RBool false, m)
      | Some bs => (RBool true, <[to := bs]> (delete from m))
      end
  end.

(** Runs of the store and of the specification, collecting the results. *)
Fixpoint secret_run {S} (exec : S -> secret_op -> secret_result * S) (s : S) (os : list secret_op) :
    list secret_result * S :=
  match os with
  | [] => ([], s)
  | o :: os =>
      let '(r, s1) := exec s o in
      let '(rs, s2) := secret_run exec s1 os in (r :: rs, s2)
  end.

Definition contents (s : SecretStore) : gmap string (list Z) := bytes <$> inner s.

Lemma contents_lookup id s : contents s !! id = bytes <$> inner s !! id.
Proof. apply lookup_fmap. Qed.

Lemma has_contents id s : SecretStore.has id s = bool_decide (is_Some (contents s !! id)).
Proof.
  unfold SecretStore.has. rewrite contents_lookup.
  apply bool_decide_ext. by rewrite fmap_is_Some.
Qed.

Lemma secret_exec_spec s o :
  store_wf s ->
  (secret_exec s o).1 = (secret_spec (contents s) o).1 /\
  contents (secret_exec s o).2 = (secret_spec (contents s) o).2 /\
  store_wf (secret_exec s o).2.
Proof.
  intros Hw. destruct o as [id bs|id|id|id|id| |from to]; simpl.
  - split; [done|]. split; [apply fmap_insert|eauto with lfs].
  - by rewrite has_contents.
  - by rewrite contents_lookup.
  - split; [done|]. split; [apply fmap_delete|unfold SecretStore.drop_id; eauto with lfs].
  - split; [by rewrite contents_lookup|]. split; [apply fmap_delete|eauto with lfs].
  - split; [done|]. split; [apply fmap_empty|eauto with lfs].
  - pose proof (store_wf_rename from to s Hw) as Hw'. revert Hw'.
    unfold SecretStore.rename. rewrite contents_lookup, has_contents, contents_lookup.
    destruct (String.eqb_spec from to) as [<-|Hne]; destruct (inner s !! from) as [b|] eqn:Hb; simpl;
      intros Hw'; split; try done; split; try done.
    + rewrite insert_delete_eq. symmetry. apply insert_id. by rewrite contents_lookup, Hb.
    + unfold contents; simpl. by rewrite fmap_insert, fmap_delete.
Qed.

(** for any sequence of calls the secret store returns exactly what a map from
    ids to bytes returns, and in every state it reaches the buffers whose lock it has
    requested and not given back are exactly those of the resident non-empty secrets. *)
Theorem secret_store_refines_map (os : list secret_op) :
  let '(rs, s) := secret_run secret_exec SecretStore.new os in
  (rs, contents s) = secret_run secret_spec ∅ os /\
  forall a, a ∈ requested (pin_calls s) <-> resident s a.
Proof.
  assert (forall s, store_wf s ->
    let '(rs, s') := secret_run secret_exec s os in
    (rs, contents s') = secret_run secret_spec (contents s) os /\ store_wf s') as Hgen.
  { induction os as [|o os IH]; intros s Hw; simpl; [done|].
    destruct (secret_exec_spec s o Hw) as (Hr & Hc & Hw').
    destruct (secret_exec s o) as [r s1]; simpl in *.
    specialize (IH s1 Hw'). destruct (secret_run secret_exec s1 os) as [rs s2].
    destruct (secret_spec (contents s) o) as [r' m1]; simpl in *. subst.
    destruct IH as [IH Hw2]. by rewrite <-IH. }
  specialize (Hgen SecretStore.new store_wf_new).
  destruct (secret_run secret_exec SecretStore.new os) as [rs s].
  destruct Hgen as [Hrun Hw]. split; [|apply Hw].
  rewrite Hrun. reflexivity.
Qed.

(** A kernel that pins whole pages and does not count, [page] being the page of a buffer. *)
Fixpoint pinned_pages (page : N -> N) (calls : list pin_call) : gset N :=
  match calls with
  | [] => ∅
  | LockMemory a _ :: calls => {[page a]} ∪ pinned_pages page calls
  | UnlockMemory a _ :: calls => pinned_pages page calls ∖ {[page a]}
  end.

(** Dropping a secret unpins every other secret on its page. *)
Example drop_unpins_neighbour :
  let s := SecretStore.drop_id "b" (SecretStore.put "b" [2%Z] (SecretStore.put "a" [1%Z] SecretStore.new)) in
  SecretStore.has "a" s = true /\ pinned_pages (fun _ => 7%N) (pin_calls s) = ∅.
Proof. vm_compute. split; reflexivity. Qed.

(** The lookups the rest of the development uses. *)
Lemma get_put_eq id bs s : SecretStore.get id (SecretStore.put id bs s) = Some bs.
Proof. unfold SecretStore.get. simpl. by rewrite lookup_insert_eq. Qed.

Lemma get_put_ne id id' bs s :
  id <> id' -> SecretStore.get id' (SecretStore.put id bs s) = SecretStore.get id' s.
Proof. intros. unfold SecretStore.get. simpl. by rewrite lookup_insert_ne. Qed.

Lemma has_get id s : SecretStore.has id s = bool_decide (is_Some (SecretStore.get id s)).
Proof. rewrite has_contents, contents_lookup. done. Qed.

Lemma take_get id s : (SecretStore.take id s).1 = SecretStore.get id s.
Proof. done. Qed.

Lemma get_take_eq id s : SecretStore.get id (SecretStore.take id s).2 = None.
Proof. unfold SecretStore.get. simpl. by rewrite lookup_delete_eq. Qed.

Lemma get_take_ne id id' s :
  id <> id' -> SecretStore.get id' (SecretStore.take id s).2 = SecretStore.get id' s.
Proof. intros. unfold SecretStore.get. simpl. by rewrite lookup_delete_ne. Qed.
