(* ===== verification/PromptRegistry.v ===== *)
(** * The prompt registry ([security/prompt_registry.rs])

    A prompt id is parked with the sending half of a oneshot channel; the awaiting
    handler holds the receiving half.  [channels] is the heap of channels (a
    channel is named by its index), seen from the receiver: still waiting, woken
    with a response, woken with an error because the sender was dropped, or gone.
    [timers] holds the auto-cancel tasks that have not fired yet. *)
From Stdlib Require Import ZArith Lia.
From stdpp Require Import prelude gmap strings list.
From S2P Require Import Prelude.

Inductive receiver (R : Type) :=
| Waiting
| Woken (r : R)
| RecvError
| ReceiverDropped.
Arguments Waiting {R}.
Arguments Woken {R} r.
Arguments RecvError {R}.
Arguments ReceiverDropped {R}.

Record PromptRegistry (R : Type) := mkPrompts {
  pending : gmap string nat;
  channels : list (receiver R);
  timers : list string
}.
Arguments mkPrompts {R} _ _ _.
Arguments pending {R} _.
Arguments channels {R} _.
Arguments timers {R} _.

Module PromptRegistry.
Section Ops.
Context {R : Type}.
Implicit Types (s : PromptRegistry R) (id : string).

Definition new : PromptRegistry R := mkPrompts ∅ [] [].

(** Dropping a sender wakes a waiting receiver with an error. *)
Definition drop_sender (c : nat) (cs : list (receiver R)) : list (receiver R) :=
  match cs !! c with
  | Some Waiting => <[c := RecvError]> cs
  | _ => cs
  end.

Definition drop_old (old : option nat) (cs : list (receiver R)) : list (receiver R) :=
  match old with Some c => drop_sender c cs | None => cs end.

(** [register]: the fresh channel replaces the entry under [id], whose sender (if
    any) is dropped.  The result is the receiver's channel. *)
Definition register id s : nat * PromptRegistry R :=
  let c := length (channels s) in
  (c, mkPrompts (<[id := c]> (pending s))
        (drop_old (pending s !! id) (channels s ++ [Waiting])) (timers s)).

Definition register_with_timeout id s : nat * PromptRegistry R :=
  let '(c, s1) := register id s in
  (c, mkPrompts (pending s1) (channels s1) (id :: timers s1)).

(** [resolve]: [true] exactly when [tx.send] finds the receiver alive. *)
Definition resolve id (response : R) s : bool * PromptRegistry R :=
  match pending s !! id with
  | None => (false, s)
  | Some c =>
      match channels s !! c with
      | Some Waiting =>
          (true, mkPrompts (delete id (pending s)) (<[c := Woken response]> (channels s)) (timers s))
      | _ => (false, mkPrompts (delete id (pending s)) (channels s) (timers s))
      end
  end.

Definition cancel id s : PromptRegistry R :=
  mkPrompts (delete id (pending s)) (drop_old (pending s !! id) (channels s)) (timers s).

Definition pending_count s : nat := size (pending s).

(** The body of the task [register_with_timeout] spawns, once the [n]-th armed
    timer elapses. *)
Definition timer_fires (n : nat) s : PromptRegistry R :=
  match timers s !! n with
  | None => s
  | Some id =>
      let s' := cancel id s in
      mkPrompts (pending s') (channels s') (delete n (timers s))
  end.

(** The awaiting handler gives up and drops its receiver. *)
Definition drop_receiver (c : nat) s : PromptRegistry R :=
  match channels s !! c with
  | Some Waiting => mkPrompts (pending s) (<[c := ReceiverDropped]> (channels s)) (timers s)
  | _ => s
  end.

End Ops.
End PromptRegistry.

Section Laws.
Context {R : Type}.
Import PromptRegistry.
Implicit Types (s : PromptRegistry R) (id : string).

Inductive prompt_op :=
| Register (id : string)
| RegisterWithTimeout (id : string)
| Resolve (id : string) (response : R)
| Cancel (id : string)
| TimerFires (n : nat)
| DropReceiver (c : nat).

(** The call and whether it was a [resolve] that woke somebody. *)
Definition prompt_step s (o : prompt_op) : bool * PromptRegistry R :=
  match o with
  | Register id => (false, (register id s).2)
  | RegisterWithTimeout id => (false, (register_with_timeout id s).2)
  | Resolve id r => resolve id r s
  | Cancel id => (false, cancel id s)
  | TimerFires n => (false, timer_fires n s)
  | DropReceiver c => (false, drop_receiver c s)
  end.

(** A receiver that has been woken, has failed or is gone stays so. *)
Definition settled (x : receiver R) : Prop := x <> Waiting.

Lemma drop_sender_settled c c' x (cs : list (receiver R)) :
  cs !! c' = Some x -> settled x -> drop_sender c cs !! c' = Some x.
Proof.
  intros Hl Hx. unfold drop_sender. destruct (cs !! c) as [[]|] eqn:Hc; try done.
  destruct (decide (c = c')) as [->|]; [|by rewrite list_lookup_insert_ne].
  rewrite Hl in Hc. injection Hc as ->. by destruct Hx.
Qed.

Lemma drop_old_settled o c' x (cs : list (receiver R)) :
  cs !! c' = Some x -> settled x -> drop_old o cs !! c' = Some x.
Proof. destruct o; [apply drop_sender_settled|done]. Qed.

Lemma insert_settled c c' x y (cs : list (receiver R)) :
  cs !! c = Some Waiting -> cs !! c' = Some x -> settled x -> <[c := y]> cs !! c' = Some x.
Proof.
  intros Hc Hl Hx. rewrite list_lookup_insert_ne; [done|].
  intros ->. rewrite Hl in Hc. injection Hc as ->. by destruct Hx.
Qed.

Lemma prompt_step_settled s o c x :
  channels s !! c = Some x -> settled x -> channels (prompt_step s o).2 !! c = Some x.
Proof.
  intros Hl Hx. destruct o as [id|id|id r|id|n|c']; simpl.
  - apply drop_old_settled; [|done]. by apply lookup_app_l_Some.
  - apply drop_old_settled; [|done]. by apply lookup_app_l_Some.
  - unfold resolve. destruct (pending s !! id) as [c0|]; [|done].
    destruct (channels s !! c0) as [[]|] eqn:Hc0; simpl; try done. by apply insert_settled.
  - by apply drop_old_settled.
  - unfold timer_fires. destruct (timers s !! n); [|done]. by apply drop_old_settled.
  - unfold drop_receiver. destruct (channels s !! c') as [[]|] eqn:Hc'; simpl; try done.
    by apply insert_settled.
Qed.

Definition prompt_run s (os : list prompt_op) : PromptRegistry R :=
  foldl (fun s o => (prompt_step s o).2) s os.

Lemma prompt_run_settled s os c x :
  channels s !! c = Some x -> settled x -> channels (prompt_run s os) !! c = Some x.
Proof.
  revert s. induction os as [|o os IH]; intros s Hl Hx; [done|].
  apply IH; [|done]. by apply prompt_step_settled.
Qed.

(** How often the registrations of [id] were answered, and how many there were. *)
Definition registers id (o : prompt_op) : nat :=
  match o with
  | Register id' | RegisterWithTimeout id' => if decide (id = id') then 1%nat else 0%nat
  | _ => 0%nat
  end.

Definition answers id s (o : prompt_op) : nat :=
  match o with
  | Resolve id' _ => if decide (id = id') then (if (prompt_step s o).1 then 1%nat else 0%nat) else 0%nat
  | _ => 0%nat
  end.

Fixpoint count_run (f : PromptRegistry R -> prompt_op -> nat) s (os : list prompt_op) : nat :=
  match os with
  | [] => 0%nat
  | o :: os => (f s o + count_run f (prompt_step s o).2 os)%nat
  end.

Definition parked id s : nat := if decide (is_Some (pending s !! id)) then 1%nat else 0%nat.

Lemma parked_Some id s c : pending s !! id = Some c -> parked id s = 1%nat.
Proof. intros H. unfold parked. rewrite H. case_decide as Hd; [done|]. destruct Hd; eauto. Qed.

Lemma parked_None id s : pending s !! id = None -> parked id s = 0%nat.
Proof. intros H. unfold parked. rewrite H. case_decide as Hd; [by destruct Hd|done]. Qed.

Lemma parked_le id s : (parked id s <= 1)%nat.
Proof. unfold parked. case_decide; lia. Qed.

Lemma parked_delete id id' s s' :
  pending s' = delete id' (pending s) -> (parked id s' <= parked id s)%nat.
Proof.
  intros Hp. unfold parked. rewrite Hp. destruct (decide (id = id')) as [->|Hne].
  - rewrite lookup_delete_eq. case_decide as Hd; [by destruct Hd|]. lia.
  - by rewrite lookup_delete_ne.
Qed.

Lemma answers_bound id s o :
  (answers id s o + parked id (prompt_step s o).2 <= registers id o + parked id s)%nat.
Proof.
  destruct o as [id'|id'|id' r|id'|n|c']; simpl.
  - case_decide as Hid; [etrans; [apply parked_le|lia]|].
    unfold parked; simpl. by rewrite lookup_insert_ne.
  - case_decide as Hid; [etrans; [apply parked_le|lia]|].
    unfold parked; simpl. by rewrite lookup_insert_ne.
  - unfold resolve. destruct (pending s !! id') as [c0|] eqn:Hp.
    + assert (forall cs ts, (parked id (mkPrompts (delete id' (pending s)) cs ts) <= parked id s)%nat)
        as Hle by (intros; by eapply parked_delete).
      destruct (channels s !! c0) as [[]|]; simpl;
        case_decide as Hid; try (apply Hle); subst id'.
      rewrite (parked_Some _ _ _ Hp), parked_None by (simpl; by rewrite lookup_delete_eq). lia.
    + simpl. case_decide; lia.
  - by eapply parked_delete.
  - unfold timer_fires. destruct (timers s !! n) as [id'|]; [|done]. by eapply parked_delete.
  - unfold drop_receiver. by destruct (channels s !! c') as [[]|].
Qed.

(** every prompt is answered at most once.  In any interleaving of
    registrations, responses, cancellations, timeouts and abandoned receivers, the
    number of [resolve] calls on an id that report success is at most the number of
    registrations of that id, and a receiver that was woken (with a response or
    with the cancellation error) keeps that outcome forever. *)
Theorem prompt_answered_at_most_once (id : string) (os : list prompt_op) :
  (count_run (answers id) new os <= count_run (fun _ => registers id) new os)%nat /\
  forall os1 os2 c x, os = os1 ++ os2 ->
    channels (prompt_run new os1) !! c = Some x -> settled x ->
    channels (prompt_run new os) !! c = Some x.
Proof.
  split.
  - assert (forall s, (count_run (answers id) s os <=
      count_run (fun _ => registers id) s os + parked id s)%nat) as Hgen.
    { induction os as [|o os IH]; intros s; simpl; [lia|].
      pose proof (IH (prompt_step s o).2). pose proof (answers_bound id s o). lia. }
    specialize (Hgen new). rewrite parked_None in Hgen by done. lia.
  - intros os1 os2 c x -> Hl Hx. unfold prompt_run. rewrite foldl_app.
    by apply prompt_run_settled.
Qed.

(** The parked senders are live channels. *)
Definition prompts_wf s : Prop :=
  forall id c, pending s !! id = Some c -> (c < length (channels s))%nat.

Lemma prompts_wf_new : prompts_wf new.
Proof. intros id c. simpl. by rewrite lookup_empty. Qed.

Lemma length_drop_old o (cs : list (receiver R)) : length (drop_old o cs) = length cs.
Proof.
  destruct o as [c|]; [|done]. simpl. unfold drop_sender.
  destruct (cs !! c) as [[]|]; by rewrite ?length_insert.
Qed.

Lemma prompts_wf_step s o : prompts_wf s -> prompts_wf (prompt_step s o).2.
Proof.
  intros Hw. assert (forall id, prompts_wf (mkPrompts (<[id := length (channels s)]> (pending s))
    (drop_old (pending s !! id) (channels s ++ [Waiting])) (timers s))) as Hreg.
  { intros id id' c. simpl. rewrite length_drop_old, length_app. simpl.
    rewrite lookup_insert. case_decide; [intros [= <-]; lia|].
    intros Hl. apply Hw in Hl. lia. }
  assert (forall id c, delete id (pending s) !! c = None \/ delete id (pending s) !! c = pending s !! c)
    as Hdel by (intros; rewrite lookup_delete; case_decide; auto).
  assert (forall id cs ts, length cs = length (channels s) ->
    prompts_wf (mkPrompts (delete id (pending s)) cs ts)) as Hcan.
  { intros id cs ts Hlen id' c. simpl. rewrite Hlen.
    destruct (Hdel id id') as [-> | ->]; [done|apply Hw]. }
  destruct o as [id|id|id r|id|n|c']; simpl.
  - apply Hreg.
  - intros id' c. simpl. apply (Hreg id id' c).
  - unfold resolve. destruct (pending s !! id) as [c0|]; [|done].
    destruct (channels s !! c0) as [[]|]; simpl; apply Hcan; by rewrite ?length_insert.
  - apply Hcan. apply length_drop_old.
  - unfold timer_fires. destruct (timers s !! n) as [id'|]; [|done].
    apply Hcan. apply length_drop_old.
  - unfold drop_receiver. destruct (channels s !! c') as [[]|]; try done.
    intros id' c. simpl. rewrite length_insert. apply Hw.
Qed.

(** The channel of a registration is waiting right after it. *)
Lemma register_waits id s :
  prompts_wf s ->
  pending (register id s).2 !! id = Some (register id s).1 /\
  channels (register id s).2 !! (register id s).1 = Some Waiting.
Proof.
  intros Hw. simpl. split; [apply lookup_insert_eq|].
  destruct (pending s !! id) as [c|] eqn:Hp; simpl; [|by rewrite lookup_app_r, Nat.sub_diag].
  apply Hw in Hp. unfold drop_sender. destruct ((channels s ++ [Waiting]) !! c) as [[]|];
    rewrite ?list_lookup_insert_ne by lia; by rewrite lookup_app_r, Nat.sub_diag.
Qed.

(** A response, or a cancellation, right after [register] reaches that registration's
    receiver. *)
Lemma resolve_wakes id r s :
  prompts_wf s ->
  (resolve id r (register id s).2).1 = true /\
  channels (resolve id r (register id s).2).2 !! (register id s).1 = Some (Woken r).
Proof.
  intros [Hp Hc]%(register_waits id). unfold resolve. rewrite Hp, Hc. simpl. split; [done|].
  apply list_lookup_insert_eq. by eapply lookup_lt_Some.
Qed.

Lemma cancel_wakes id s :
  prompts_wf s ->
  channels (cancel id (register id s).2) !! (register id s).1 = Some RecvError.
Proof.
  intros [Hp Hc]%(register_waits id). unfold cancel. rewrite Hp.
  cbn [channels drop_old]. unfold drop_sender. rewrite Hc.
  apply list_lookup_insert_eq. by eapply lookup_lt_Some.
Qed.

End Laws.

#[export] Hint Resolve prompts_wf_step : lfs.

(** A timer outlives the prompt it was armed for: when an id is parked again, the
    first registration's timer cancels the second registration.  (The callers draw
    a fresh random id per prompt, so the case needs an id to repeat.) *)
Example stale_timer_cancels_new_prompt :
  let os := [RegisterWithTimeout "p"; Resolve "p" 1%Z; RegisterWithTimeout "p"; TimerFires 1] in
  channels (prompt_run PromptRegistry.new os) = [Woken 1%Z; RecvError].
Proof. vm_compute. reflexivity. Qed.
