(* ===== verification/Prog.v ===== *)
(** * Programs over the operating system

    The asynchronous handlers of the security stack are sequences of atomic calls:
    file operations, keychain operations, locked sections of a process-wide object.
    [prog W A] is such a sequence over a state [W]; each [Step] is one atomic call.
    [run] executes it undisturbed, [crash n] is the state after its first [n] calls
    (what the next launch finds after a power loss), and [run_env] lets other tasks
    change the state before each call.

    [Os] is the part of the state outside the process: the files of the support
    directory and the keychain.  [faults] is the environment's decision for the
    calls to come: [true] makes the call fail. *)
From Stdlib Require Import ZArith Lia.
From stdpp Require Import prelude gmap strings list.
From S2P Require Import Prelude.

Inductive prog (W A : Type) : Type :=
| Ret (a : A)
| Step {B : Type} (f : W -> B * W) (k : B -> prog W A).
Arguments Ret {W A} a.
Arguments Step {W A B} f k.

Fixpoint pbind {W A B} (p : prog W A) (q : A -> prog W B) : prog W B :=
  match p with
  | Ret a => q a
  | Step f k => Step f (fun b => pbind (k b) q)
  end.

(** One atomic call. *)
Definition call {W A} (f : W -> A * W) : prog W A := Step f Ret.

Declare Scope prog_scope.
Delimit Scope prog_scope with prog.
Notation "'let!' x := p 'in' q" := (pbind p (fun x => q))
  (at level 200, x name, p at level 100, q at level 200, right associativity) : prog_scope.

Fixpoint run {W A} (p : prog W A) (w : W) : A * W :=
  match p with
  | Ret a => (a, w)
  | Step f k => let '(b, w') := f w in run (k b) w'
  end.

Fixpoint crash {W A} (n : nat) (p : prog W A) (w : W) : W :=
  match n, p with
  | S n, Step f k => let '(b, w') := f w in crash n (k b) w'
  | _, _ => w
  end.

Fixpoint run_env {W A} (env : list (W -> W)) (p : prog W A) (w : W) : A * W :=
  match p with
  | Ret a => (a, w)
  | Step f k =>
      let '(e, env') := match env with e :: env' => (e, env') | [] => (id, []) end in
      let '(b, w') := f (e w) in run_env env' (k b) w'
  end.

(** The calls of an interrupted run, each with the states before and after it. *)
Fixpoint calls {W A} (env : list (W -> W)) (p : prog W A) (w : W) : list (W * W) :=
  match p with
  | Ret a => []
  | Step f k =>
      let '(e, env') := match env with e :: env' => (e, env') | [] => (id, []) end in
      let '(b, w') := f (e w) in (e w, w') :: calls env' (k b) w'
  end.

Lemma run_bind {W A B} (p : prog W A) (q : A -> prog W B) w :
  run (pbind p q) w = (let '(a, w') := run p w in run (q a) w').
Proof. revert w. induction p as [a|C f k IH]; intros w; simpl; [done|]. by destruct (f w). Qed.

Lemma run_call {W A} (f : W -> A * W) w : run (call f) w = f w.
Proof. simpl. by destruct (f w). Qed.

(** One call of an interrupted run: the environment moves first. *)
Definition env_head {W} (env : list (W -> W)) : W -> W := match env with e :: _ => e | [] => id end.

Lemma run_env_step {W A B} env (f : W -> B * W) (k : B -> prog W A) w :
  run_env env (Step f k) w = run_env (tail env) (k (f (env_head env w)).1) (f (env_head env w)).2.
Proof. destruct env as [|e env]; simpl; by destruct (f _). Qed.

Lemma calls_step {W A B} env (f : W -> B * W) (k : B -> prog W A) w :
  calls env (Step f k) w =
  (env_head env w, (f (env_head env w)).2) :: calls (tail env) (k (f (env_head env w)).1) (f (env_head env w)).2.
Proof. destruct env as [|e env]; simpl; by destruct (f _). Qed.

(** Without interference the environment is invisible. *)
Lemma run_env_nil {W A} (p : prog W A) w : run_env [] p w = run p w.
Proof. revert w. induction p as [a|C f k IH]; intros w; simpl; [done|]. unfold id. by destruct (f w). Qed.

(** A crash after the last call is a completed run. *)
Lemma crash_done {W A} (p : prog W A) w : exists n, forall m, (n <= m)%nat -> crash m p w = (run p w).2.
Proof.
  revert w. induction p as [a|C f k IH]; intros w.
  - exists 0%nat. intros m _. by destruct m.
  - simpl. destruct (f w) as [b w'] eqn:Hf. destruct (IH b w') as [n Hn].
    exists (S n). intros [|m] Hm; [lia|]. simpl. rewrite Hf. apply Hn. lia.
Qed.

(** A property of the state that every atomic call keeps holds at every crash point. *)
Inductive keeps {W A} (P : W -> Prop) : prog W A -> Prop :=
| keeps_ret a : keeps P (Ret a)
| keeps_step B (f : W -> B * W) k :
    (forall w, P w -> P (f w).2) -> (forall b, keeps P (k b)) -> keeps P (Step f k).

Lemma keeps_crash {W A} (P : W -> Prop) (p : prog W A) n w :
  keeps P p -> P w -> P (crash n p w).
Proof.
  intros Hk. revert n w. induction Hk as [a|B f k Hf Hk IH]; intros n w Hw; destruct n; simpl; try done.
  specialize (Hf w Hw). destruct (f w) as [b w']. by apply IH.
Qed.

Lemma keeps_run {W A} (P : W -> Prop) (p : prog W A) w : keeps P p -> P w -> P (run p w).2.
Proof.
  intros Hk. revert w. induction Hk as [a|B f k Hf Hk IH]; intros w Hw; simpl; [done|].
  specialize (Hf w Hw). destruct (f w) as [b w']. by apply IH.
Qed.

Lemma keeps_bind {W A B} (P : W -> Prop) (p : prog W A) (q : A -> prog W B) :
  keeps P p -> (forall a, keeps P (q a)) -> keeps P (pbind p q).
Proof. intros Hp Hq. induction Hp as [a|C f k Hf Hk IH]; simpl; [done|]. by constructor. Qed.

Lemma keeps_call {W A} (P : W -> Prop) (f : W -> A * W) :
  (forall w, P w -> P (f w).2) -> keeps P (call f).
Proof. intros Hf. constructor; [done|]. constructor. Qed.

Lemma keeps_inv {W A} (P : W -> Prop) (p : prog W A) :
  keeps P p ->
  match p with Ret _ => True | Step f k => (forall w, P w -> P (f w).2) /\ forall b, keeps P (k b) end.
Proof. by destruct 1. Qed.

(** A relation every atomic call of a program respects, whatever the state; a call is followed
    only by what its results can lead to. *)
Inductive each_call {W A} (P : W -> W -> Prop) : prog W A -> Prop :=
| each_ret a : each_call P (Ret a)
| each_step B (f : W -> B * W) k :
    (forall w, P w (f w).2) -> (forall w, each_call P (k (f w).1)) -> each_call P (Step f k).

(** What a program can return, whatever other tasks do in between. *)
Inductive produces {W A} (Q : A -> Prop) : prog W A -> Prop :=
| produces_ret a : Q a -> produces Q (Ret a)
| produces_step B (f : W -> B * W) k : (forall w, produces Q (k (f w).1)) -> produces Q (Step f k).

Lemma produces_inv {W A} (Q : A -> Prop) (p : prog W A) :
  produces Q p -> match p with Ret a => Q a | Step f k => forall w, produces Q (k (f w).1) end.
Proof. by destruct 1. Qed.

Lemma produces_bind {W A B} (Q : A -> Prop) (Q' : B -> Prop) (p : prog W A) (q : A -> prog W B) :
  produces Q p -> (forall a, Q a -> produces Q' (q a)) -> produces Q' (pbind p q).
Proof. intros Hp Hq. induction Hp as [a Ha|C f k Hk IH]; simpl; [by apply Hq|]. by constructor. Qed.

Lemma produces_call {W A} (Q : A -> Prop) (f : W -> A * W) : (forall w, Q (f w).1) -> produces Q (call f).
Proof. intros Hf. constructor. intros w. by constructor. Qed.

Lemma produces_mono {W A} (Q Q' : A -> Prop) (p : prog W A) : produces Q p -> (forall a, Q a -> Q' a) -> produces Q' p.
Proof. intros Hp HQ. induction Hp as [a Ha|B f k _ IH]; constructor; [by apply HQ|done]. Qed.

Lemma produces_run_env {W A} (Q : A -> Prop) (p : prog W A) env w : produces Q p -> Q (run_env env p w).1.
Proof.
  intros Hp. revert env w. induction Hp as [a Ha|B f k _ IH]; intros env w; [done|]. cbn [run_env].
  destruct env as [|e env]; cbv beta iota; [specialize (IH (id w))|specialize (IH (e w))]; destruct (f _); apply IH.
Qed.

Lemma each_call_bind_of {W A B} (Q : A -> Prop) (P : W -> W -> Prop) (p : prog W A) (q : A -> prog W B) :
  each_call P p -> produces Q p -> (forall a, Q a -> each_call P (q a)) -> each_call P (pbind p q).
Proof.
  intros Hp Hr Hq. induction Hp as [a|C f k Hf Hk IH]; apply produces_inv in Hr; simpl; [by apply Hq|].
  constructor; [done|]. intros w. apply IH, Hr.
Qed.

Lemma each_call_bind {W A B} (P : W -> W -> Prop) (p : prog W A) (q : A -> prog W B) :
  each_call P p -> (forall a, each_call P (q a)) -> each_call P (pbind p q).
Proof. intros Hp Hq. induction Hp as [a|C f k Hf Hk IH]; simpl; [done|]. by constructor. Qed.

Lemma each_call_call {W A} (P : W -> W -> Prop) (f : W -> A * W) :
  (forall w, P w (f w).2) -> each_call P (call f).
Proof. intros Hf. constructor; [done|]. constructor. Qed.

Lemma each_call_calls {W A} (P : W -> W -> Prop) (p : prog W A) env w :
  each_call P p -> Forall (fun ss => P ss.1 ss.2) (calls env p w).
Proof.
  intros Hp. revert env w. induction Hp as [a|B f k Hf Hk IH]; intros env w; [by apply Forall_nil_2|].
  rewrite calls_step. apply Forall_cons_2; [apply Hf|apply IH].
Qed.

(** A reflexive and transitive such relation holds between the start and any later moment. *)
Lemma each_call_crash {W A} (R : W -> W -> Prop) (p : prog W A) n w : (forall w, R w w) -> (forall a b c, R a b -> R b c -> R a c) ->
  each_call R p -> R w (crash n p w).
Proof.
  intros Hrefl Htrans Hp. revert n w. induction Hp as [a|B f k Hf Hk IH]; intros [|n] w; cbn [crash]; try apply Hrefl.
  specialize (Hf w). specialize (IH w n). destruct (f w) as [b w']. eapply Htrans; [exact Hf|apply IH].
Qed.

Lemma each_call_run {W A} (R : W -> W -> Prop) (p : prog W A) w : (forall w, R w w) -> (forall a b c, R a b -> R b c -> R a c) ->
  each_call R p -> R w (run p w).2.
Proof. intros Hr Ht Hp. destruct (crash_done p w) as [n Hn]. rewrite <- (Hn n) by done. by apply each_call_crash. Qed.

(** What an undisturbed run returns and leaves. *)
Definition wp {W A} (p : prog W A) (Q : A -> W -> Prop) (w : W) : Prop := Q (run p w).1 (run p w).2.

Lemma wp_ret {W A} (a : A) (Q : A -> W -> Prop) w : Q a w -> wp (Ret a) Q w.
Proof. done. Qed.

Lemma wp_call {W A} (f : W -> A * W) (Q : A -> W -> Prop) w : Q (f w).1 (f w).2 -> wp (call f) Q w.
Proof. unfold wp. by rewrite run_call. Qed.

Lemma wp_bind {W A B} (p : prog W A) (q : A -> prog W B) Q w : wp p (fun a => wp (q a) Q) w -> wp (pbind p q) Q w.
Proof. unfold wp. rewrite run_bind. by destruct (run p w). Qed.

Lemma wp_mono {W A} (p : prog W A) (Q Q' : A -> W -> Prop) w : (forall a w', Q a w' -> Q' a w') -> wp p Q w -> wp p Q' w.
Proof. unfold wp. auto. Qed.

(** [I] holds at every moment of a program and what it returns satisfies [Q], whatever a call
    answers and however other tasks that keep [I] interleave. *)
Fixpoint ensures {W A} (I : W -> Prop) (p : prog W A) (Q : A -> Prop) : Prop :=
  match p with
  | Ret a => Q a
  | Step f k => forall w, I w -> I (f w).2 /\ ensures I (k (f w).1) Q
  end.

Lemma ensures_bind {W A B} (I : W -> Prop) (p : prog W A) (q : A -> prog W B) Q R :
  ensures I p Q -> (forall a, Q a -> ensures I (q a) R) -> ensures I (pbind p q) R.
Proof.
  intros Hp Hq. induction p as [a|C f k IH]; simpl in *; [by apply Hq|].
  intros w Hw. destruct (Hp w Hw) as [Hf Hk]. split; [done|by apply IH].
Qed.

Lemma ensures_mono {W A} (I : W -> Prop) (p : prog W A) (Q R : A -> Prop) :
  (forall a, Q a -> R a) -> ensures I p Q -> ensures I p R.
Proof.
  intros HQ Hp. induction p as [a|C f k IH]; simpl in *; [by apply HQ|].
  intros w Hw. destruct (Hp w Hw) as [Hf Hk]. split; [done|by apply IH].
Qed.

Lemma ensures_call {W A} (I : W -> Prop) (f : W -> A * W) (Q : A -> Prop) :
  (forall w, I w -> I (f w).2 /\ Q (f w).1) -> ensures I (call f) Q.
Proof. done. Qed.

Lemma ensures_run {W A} (I : W -> Prop) (p : prog W A) Q w :
  ensures I p Q -> I w -> Q (run p w).1 /\ I (run p w).2.
Proof.
  revert w. induction p as [a|C f k IH]; simpl; intros w Hp Hw; [done|].
  destruct (Hp w Hw) as [Hf Hk]. destruct (f w) as [b w']. by apply IH.
Qed.

Lemma ensures_crash {W A} (I : W -> Prop) (p : prog W A) Q n w : ensures I p Q -> I w -> I (crash n p w).
Proof.
  revert n w. induction p as [a|C f k IH]; intros [|n] w Hp Hw; simpl in *; try done.
  destruct (Hp w Hw) as [Hf Hk]. destruct (f w) as [b w']. by apply IH.
Qed.

(** A program over a part of the state. *)
Fixpoint zoom {W V A} (get : W -> V) (set : V -> W -> W) (p : prog V A) : prog W A :=
  match p with
  | Ret a => Ret a
  | Step f k => Step (fun w => let '(b, v) := f (get w) in (b, set v w)) (fun b => zoom get set (k b))
  end.

Lemma ensures_zoom {W V A} (get : W -> V) (set : V -> W -> W) (I : V -> Prop) (p : prog V A) Q :
  (forall v w, get (set v w) = v) -> ensures I p Q -> ensures (fun w => I (get w)) (zoom get set p) Q.
Proof.
  intros Hgs Hp. induction p as [a|C f k IH]; simpl in *; [done|].
  intros w Hw. destruct (Hp (get w) Hw) as [Hf Hk]. destruct (f (get w)) as [b v].
  simpl in *. rewrite Hgs. eauto.
Qed.

Section Zoom.
Context {W V : Type} (get : W -> V) (set : V -> W -> W).
Hypothesis get_set : forall v w, get (set v w) = v.
Hypothesis set_set : forall v v' w, set v (set v' w) = set v w.
Hypothesis set_get : forall w, set (get w) w = w.

Lemma run_zoom {A} (p : prog V A) w : run (zoom get set p) w = ((run p (get w)).1, set (run p (get w)).2 w).
Proof using All.
  revert w. induction p as [a|B f k IH]; intros w; cbn [zoom run fst snd]; [by rewrite set_get|].
  destruct (f (get w)) as [b v]. by rewrite IH, get_set, set_set.
Qed.

Lemma crash_zoom {A} n (p : prog V A) w : crash n (zoom get set p) w = set (crash n p (get w)) w.
Proof using All.
  revert n w. induction p as [a|B f k IH]; intros [|n] w; cbn [zoom crash]; rewrite ?set_get; try done.
  destruct (f (get w)) as [b v]. by rewrite IH, get_set, set_set.
Qed.
End Zoom.

(** ** Tasks side by side

    Tasks of [tasks] are started at any time; the calls of those running interleave. *)
Section Interleave.
Context {W : Type} (tasks : prog W unit -> Prop) (w0 : W).

Inductive interleave : list (prog W unit) -> W -> Prop :=
| il_start : interleave [] w0
| il_spawn ps w p : interleave ps w -> tasks p -> interleave (p :: ps) w
| il_call ps1 ps2 B (f : W -> B * W) k w :
    interleave (ps1 ++ Step f k :: ps2) w -> interleave (ps1 ++ k (f w).1 :: ps2) (f w).2.

Lemma interleave_keeps (P : W -> Prop) ps w :
  (forall p, tasks p -> keeps P p) -> P w0 -> interleave ps w -> P w /\ Forall (keeps P) ps.
Proof.
  intros Ht H0. induction 1 as [|ps w p _ [Hw Hps] Hp|ps1 ps2 B f k w _ [Hw Hps]]; [done|auto|].
  apply Forall_app in Hps as [H1 H2]. apply Forall_cons in H2 as [Hk H2].
  apply keeps_inv in Hk as [Hf Hk]. split; [auto|]. apply Forall_app. auto.
Qed.
End Interleave.

(** A program interrupted by its environment goes on with what is left of it. *)
Lemma run_env_bind {W A B} (p : prog W A) (q : A -> prog W B) env w :
  exists env1, (forall P : (W -> W) -> Prop, Forall P env -> Forall P env1) /\
    run_env env (pbind p q) w = run_env env1 (q (run_env env p w).1) (run_env env p w).2.
Proof.
  revert env w. induction p as [a|C f k IH]; intros env w; simpl; [by exists env|].
  destruct env as [|e env]; [destruct (f (id w)) as [b w1]|destruct (f (e w)) as [b w1]].
  - apply IH.
  - destruct (IH b env w1) as (env1 & H1 & H2). exists env1. split; [|done].
    intros P HP. apply H1. by apply Forall_cons in HP as [_ ?].
Qed.

(** The same, with the calls. *)
Lemma calls_bind {W A B} (p : prog W A) (q : A -> prog W B) env w :
  exists env1, (forall P : (W -> W) -> Prop, Forall P env -> Forall P env1) /\
    run_env env (pbind p q) w = run_env env1 (q (run_env env p w).1) (run_env env p w).2 /\
    calls env (pbind p q) w = calls env p w ++ calls env1 (q (run_env env p w).1) (run_env env p w).2.
Proof.
  revert env w. induction p as [a|C f k IH]; intros env w; [by exists env|]. cbn [pbind].
  rewrite !run_env_step, !calls_step. destruct (IH (f (env_head env w)).1 (tail env) (f (env_head env w)).2) as (env1 & H1 & -> & ->).
  exists env1. split; [|done]. intros P HP. apply H1. destruct env; [done|]. by apply Forall_cons in HP as [_ ?].
Qed.

Lemma run_env_keeps {W A} (P : W -> Prop) (p : prog W A) env w :
  keeps P p -> Forall (fun e => forall w, P w -> P (e w)) env -> P w -> P (run_env env p w).2.
Proof.
  intros Hk. revert env w. induction Hk as [a|B f k Hf Hk IH]; intros env w He Hw; [done|]. simpl.
  destruct env as [|e env].
  - specialize (Hf w Hw). unfold id. destruct (f w). by apply IH.
  - apply Forall_cons in He as [He1 He]. specialize (Hf (e w) (He1 w Hw)). destruct (f (e w)). by apply IH.
Qed.

(** A property of every state a crash of a program started in [w] can leave. *)
Definition always {W A} (I : W -> Prop) (p : prog W A) (w : W) : Prop := forall n, I (crash n p w).

Lemma always_ret {W A} (I : W -> Prop) (a : A) w : I w -> always I (Ret a) w.
Proof. intros Hw n. by destruct n. Qed.

Lemma always_start {W A} (I : W -> Prop) (p : prog W A) w : always I p w -> I w.
Proof. intros Hp. exact (Hp 0%nat). Qed.

Lemma always_run {W A} (I : W -> Prop) (p : prog W A) w : always I p w -> I (run p w).2.
Proof. intros Hp. destruct (crash_done p w) as [n Hn]. rewrite <-(Hn n) by done. apply Hp. Qed.

Lemma always_bind {W A B} (I : W -> Prop) (p : prog W A) (q : A -> prog W B) w :
  always I p w -> always I (q (run p w).1) (run p w).2 -> always I (pbind p q) w.
Proof.
  revert w. induction p as [a|C f k IH]; intros w Hp Hq; simpl in *; [done|].
  intros [|n]; [exact (Hp 0%nat)|]. simpl. destruct (f w) as [b w'] eqn:Hf.
  apply IH; [|by destruct (run (k b) w')]. intros m. specialize (Hp (S m)). simpl in Hp. by rewrite Hf in Hp.
Qed.

Lemma always_call {W A} (I : W -> Prop) (f : W -> A * W) w : I w -> I (f w).2 -> always I (call f) w.
Proof. intros Hw Hf [|n]; [done|]. simpl. destruct (f w) as [b w']. by destruct n. Qed.

(** ** The operating system *)
Inductive io_error := NotFound | OtherError.

Record Os := mkOs {
  files : gmap string (list Z);
  keychain : gmap string (list Z);
  faults : list bool
}.

Module Os.

(** The environment's verdict on the next call. *)
Definition next_fault (o : Os) : bool * Os :=
  match faults o with
  | b :: fs => (b, mkOs (files o) (keychain o) fs)
  | [] => (false, o)
  end.

Definition fallible {A} (f : Os -> (io_error + A) * Os) (o : Os) : (io_error + A) * Os :=
  let '(b, o') := next_fault o in if b then (inl OtherError, o') else f o'.

Definition read_file (path : string) : Os -> (io_error + list Z) * Os :=
  fallible (fun o => (match files o !! path with Some b => inr b | None => inl NotFound end, o)).

Definition remove_file (path : string) : Os -> (io_error + unit) * Os :=
  fallible (fun o =>
    match files o !! path with
    | Some _ => (inr (), mkOs (delete path (files o)) (keychain o) (faults o))
    | None => (inl NotFound, o)
    end).

Definition create_dir_all : Os -> (io_error + unit) * Os := fallible (fun o => (inr (), o)).

(** [Path::exists] answers [false] on an error. *)
Definition exists_ (path : string) (o : Os) : bool * Os :=
  let '(b, o') := next_fault o in
  (if b then false else bool_decide (is_Some (files o' !! path)), o').

Definition keychain_read (k : string) : Os -> (io_error + option (list Z)) * Os :=
  fallible (fun o => (inr (keychain o !! k), o)).

Definition keychain_write (k : string) (b : list Z) : Os -> (io_error + unit) * Os :=
  fallible (fun o => (inr (), mkOs (files o) (<[k := b]> (keychain o)) (faults o))).

Definition keychain_delete (k : string) : Os -> (io_error + unit) * Os :=
  fallible (fun o => (inr (), mkOs (files o) (delete k (keychain o)) (faults o))).

(** The next launch: what a crash or a restart leaves behind. *)
Definition durable (o : Os) : gmap string (list Z) * gmap string (list Z) := (files o, keychain o).

End Os.

(** A fallible call fails with the files as they were, or works on them. *)
Lemma fallible_cases {A} (f : Os -> (io_error + A) * Os) o :
  (exists o', Os.fallible f o = (inl OtherError, o') /\ files o' = files o /\ faults o <> []) \/
  (exists o', Os.fallible f o = f o' /\ files o' = files o /\ (faults o = [] -> o' = o)).
Proof.
  unfold Os.fallible, Os.next_fault. destruct (faults o) as [|[] fs] eqn:Hf; [right|left|right]; by eexists.
Qed.
