(* ===== verification/AtomicFile.v ===== *)
(** * Atomic file writes ([path.rs], [write_bytes_atomic])

    The write goes to a temporary file beside the target: draw a suffix, create it, write,
    flush, rename over the target, flush the directory.  [Vfs] is the interface to the file
    system; [write_bytes_atomic] is written once against it and runs on two of them.  [Os] is
    what processes see: every call is a moment another process, or the next launch after a
    kill, can look at.  [Disk] also knows what a power loss can take back: data that was not
    flushed and names that changed since their directory was.  The theorems: a complete write
    on [Os] replaces the target, a failed or interrupted one leaves it, and nothing but the
    target and its temporary file changes; and on [Disk], whenever the power goes, the target
    holds what it could have held before, or all of the new content.

    The suffix is drawn at random; a draw that hits an existing name makes the creation fail,
    which is one of the failures the environment can choose.  So the model draws the first
    suffix that is free.  Permissions are not modelled. *)
From Stdlib Require Import ZArith Lia.
From stdpp Require Import prelude gmap strings list.
From S2P Require Import Prelude Prog.

Open Scope Z_scope.

(** ** The temporary name *)

(** [{suffix:08x}]: at least eight hexadecimal digits. *)
Definition hex_char (d : Z) : Ascii.ascii := Ascii.ascii_of_nat (Z.to_nat (if d <? 10 then 48 + d else 87 + d)).

Fixpoint hex_digits (k : nat) (n : Z) : string :=
  match k with
  | O => EmptyString
  | S k => (hex_digits k (n / 16) ++ String (hex_char (n mod 16)) EmptyString)%string
  end.

Definition hex8 (n : Z) : string := hex_digits (Nat.max 8 (Z.to_nat (Z.log2 n / 4 + 1))) n.

Definition tmp_name (path : string) (salt : Z) : string := (path ++ ".tmp" ++ hex8 salt)%string.

Lemma hex_char_code x : 0 <= x < 16 -> Ascii.nat_of_ascii (hex_char x) = Z.to_nat (if x <? 10 then 48 + x else 87 + x).
Proof. intros Hx. unfold hex_char. apply Ascii.nat_ascii_embedding. destruct (x <? 10); lia. Qed.

Lemma hex_char_inj d e : 0 <= d < 16 -> 0 <= e < 16 -> hex_char d = hex_char e -> d = e.
Proof.
  intros Hd He Hde%(f_equal Ascii.nat_of_ascii). rewrite !hex_char_code in Hde by done.
  destruct (Z.ltb_spec d 10), (Z.ltb_spec e 10); lia.
Qed.

Lemma append_cons c s t : (String c s ++ t = String c (s ++ t))%string.
Proof. done. Qed.

Lemma append_assoc a b c : ((a ++ b) ++ c = a ++ b ++ c)%string.
Proof. induction a as [|x a IH]; [done|]. by rewrite !append_cons, IH. Qed.

Lemma app_last_inj s t c d : (s ++ String c EmptyString = t ++ String d EmptyString)%string -> s = t /\ c = d.
Proof.
  revert t. induction s as [|x s IH]; intros [|y t]; rewrite ?append_cons; [by intros [= ->]| | |].
  - intros [= _ He]. by destruct t.
  - intros [= _ He]. by destruct s.
  - intros [= -> He]. by destruct (IH t He) as [-> ->].
Qed.

Lemma length_append s t : String.length (s ++ t) = (String.length s + String.length t)%nat.
Proof. induction s as [|c s IH]; [done|]. rewrite append_cons. cbn [String.length]. by rewrite IH. Qed.

Lemma length_hex_digits k n : String.length (hex_digits k n) = k.
Proof. revert n. induction k as [|k IH]; intros n; [done|]. cbn [hex_digits]. rewrite length_append, IH. cbn [String.length]. lia. Qed.

Lemma hex_digits_inj k n m : 0 <= n < 16 ^ Z.of_nat k -> 0 <= m < 16 ^ Z.of_nat k -> hex_digits k n = hex_digits k m -> n = m.
Proof.
  revert n m. induction k as [|k IH]; intros n m Hn Hm; [cbn in *; lia|].
  rewrite Nat2Z.inj_succ, Z.pow_succ_r in * by lia. cbn [hex_digits]. intros [Hq Hc]%app_last_inj.
  apply IH in Hq; [|split; [apply Z.div_pos; lia|apply Z.div_lt_upper_bound; lia]..].
  apply hex_char_inj in Hc; [|apply Z.mod_pos_bound; lia..].
  rewrite (Z.div_mod n 16), (Z.div_mod m 16), Hq, Hc by lia. done.
Qed.

Lemma hex8_inj n m : 0 <= n -> 0 <= m -> hex8 n = hex8 m -> n = m.
Proof.
  intros Hn Hm He. unfold hex8 in He. set (k n := Nat.max 8 (Z.to_nat (Z.log2 n / 4 + 1))) in *.
  assert (Hk : k n = k m) by (apply (f_equal String.length) in He; by rewrite !length_hex_digits in He).
  fold (k n) (k m) in He. rewrite <- Hk in He.
  assert (Hr : forall x, 0 <= x -> 0 <= x < 16 ^ Z.of_nat (k x)).
  { intros x Hx. split; [done|]. destruct (Z.eq_dec x 0) as [->|Hx0]; [apply Z.pow_pos_nonneg; lia|].
    destruct (Z.log2_spec x) as [_ Hl]; [lia|]. eapply Z.lt_le_trans; [exact Hl|].
    change 16 with (2 ^ 4). rewrite <- Z.pow_mul_r by lia. apply Z.pow_le_mono_r; [lia|].
    assert (0 <= Z.log2 x / 4) by (apply Z.div_pos; [apply Z.log2_nonneg|lia]).
    assert (Z.log2 x < 4 * (Z.log2 x / 4 + 1)) by (pose proof (Z.mul_succ_div_gt (Z.log2 x) 4 eq_refl); lia). unfold k. lia. }
  apply (hex_digits_inj (k n)); [by apply Hr|rewrite Hk; by apply Hr|done].
Qed.

Lemma tmp_name_inj path n m : 0 <= n -> 0 <= m -> tmp_name path n = tmp_name path m -> n = m.
Proof. intros Hn Hm He. unfold tmp_name in He. apply hex8_inj; [done..|]. by do 2 apply (inj _) in He. Qed.

Lemma tmp_name_ne path n : tmp_name path n <> path.
Proof. unfold tmp_name. induction path as [|c path IH]; [done|]. rewrite append_cons. congruence. Qed.

(** The first suffix whose name is free. *)
Section Salt.
Context {A : Type} (m : gmap string A) (path : string).

Definition free_salt : Z :=
  default 0 (List.find (fun n => bool_decide (m !! tmp_name path n = None)) (seqZ 0 (Z.of_nat (S (size m))))).

Lemma free_salt_spec : m !! tmp_name path free_salt = None /\ 0 <= free_salt.
Proof using.
  unfold free_salt. destruct (List.find _ _) as [n|] eqn:Hf; cbn.
  { apply List.find_some in Hf as [Hin Hn]. apply bool_decide_eq_true in Hn. split; [done|].
    apply list_elem_of_In, elem_of_seqZ in Hin. lia. }
  exfalso. set (names := tmp_name path <$> seqZ 0 (Z.of_nat (S (size m)))).
  assert (Hd : NoDup names).
  { apply NoDup_fmap_2_strong; [|apply NoDup_seqZ]. intros x y Hx Hy. rewrite !elem_of_seqZ in *. apply tmp_name_inj; lia. }
  assert (Hs : (list_to_set names : gset string) ⊆ dom m).
  { intros x [n [-> Hn]]%elem_of_list_to_set%list_elem_of_fmap. apply elem_of_dom.
    assert (Hb := List.find_none _ _ Hf n). rewrite <- list_elem_of_In in Hb. specialize (Hb Hn).
    apply bool_decide_eq_false in Hb. destruct (m !! tmp_name path n); [eauto|done]. }
  apply subseteq_size in Hs. rewrite size_list_to_set, size_dom in Hs by done. unfold names in Hs.
  rewrite length_fmap, length_seqZ in Hs. lia.
Qed.
End Salt.

(** ** The interface to a file system *)
Class Vfs (W C : Type) := {
  draw_tmp : string -> W -> string * W;
  (** [O_CREAT | O_EXCL]. *)
  create_new : string -> W -> (io_error + unit) * W;
  write_all : string -> C -> W -> (io_error + unit) * W;
  sync_data : string -> W -> (io_error + unit) * W;
  unlink : string -> W -> (io_error + unit) * W;
  rename : string -> string -> W -> (io_error + unit) * W;
  (** Opens the directory of a file and flushes it; failures are ignored. *)
  sync_dir_of : string -> W -> unit * W
}.

Open Scope prog_scope.

Section Write.
Context `{Vfs W C}.

(** A step after which a failure removes the temporary file. *)
Definition or_clean_up (tmp : string) (f : W -> (io_error + unit) * W) (k : prog W (io_error + unit)) : prog W (io_error + unit) :=
  let! r := call f in
  match r with
  | inr _ => k
  | inl e => let! _ := call (unlink tmp) in Ret (inl e)
  end.

Definition write_bytes_atomic (path : string) (bytes : C) : prog W (io_error + unit) :=
  let! tmp := call (draw_tmp path) in
  let! r := call (create_new tmp) in
  match r with
  | inl e => Ret (inl e)
  | inr _ =>
      or_clean_up tmp (write_all tmp bytes)
        (or_clean_up tmp (sync_data tmp)
          (or_clean_up tmp (rename tmp path)
            (let! _ := call (sync_dir_of path) in Ret (inr ()))))
  end.
End Write.

(** ** What processes see *)
Module OsFs.
Definition draw_tmp (path : string) (o : Os) : string * Os := (tmp_name path (free_salt (files o) path), o).

Definition create_new (tmp : string) : Os -> (io_error + unit) * Os :=
  Os.fallible (fun o =>
    match files o !! tmp with
    | Some _ => (inl OtherError, o)
    | None => (inr (), mkOs (<[tmp := []]> (files o)) (keychain o) (faults o))
    end).

(** Through the handle: a file that lost its name meanwhile gets none back.  A write that fails
    half-way leaves a part of the data; the file is removed next, and the model keeps it empty. *)
Definition write_all (tmp : string) (b : list Z) : Os -> (io_error + unit) * Os :=
  Os.fallible (fun o => (inr (), mkOs (alter (fun _ => b) tmp (files o)) (keychain o) (faults o))).

Definition sync_data (tmp : string) : Os -> (io_error + unit) * Os := Os.fallible (fun o => (inr (), o)).

Definition rename (src dst : string) : Os -> (io_error + unit) * Os :=
  Os.fallible (fun o =>
    match files o !! src with
    | Some b => (inr (), mkOs (<[dst := b]> (delete src (files o))) (keychain o) (faults o))
    | None => (inl NotFound, o)
    end).

Definition sync_dir_of (path : string) (o : Os) : unit * Os := ((), (Os.next_fault o).2).

#[global] Instance os_vfs : Vfs Os (list Z) :=
  {| AtomicFile.draw_tmp := draw_tmp; AtomicFile.create_new := create_new; AtomicFile.write_all := write_all;
     AtomicFile.sync_data := sync_data; AtomicFile.unlink := Os.remove_file; AtomicFile.rename := rename;
     AtomicFile.sync_dir_of := sync_dir_of |}.
End OsFs.

(** ** One run and its crash points at once

    [I] holds wherever the run is cut, [Q] of what it returns and leaves. *)
Definition goes {W A} (I : W -> Prop) (Q : A -> W -> Prop) (p : prog W A) (w : W) : Prop := always I p w /\ wp p Q w.

Lemma goes_ret {W A} (I : W -> Prop) (Q : A -> W -> Prop) a w : I w -> Q a w -> goes I Q (Ret a) w.
Proof. intros Hi Hq. split; [by apply always_ret|by apply wp_ret]. Qed.

Lemma goes_call {W A B} (I : W -> Prop) (Q : B -> W -> Prop) (f : W -> A * W) (k : A -> prog W B) w :
  I w -> goes I Q (k (f w).1) (f w).2 -> goes I Q (pbind (call f) k) w.
Proof.
  intros Hi [Ha Hw]. split.
  - apply always_bind; [apply always_call; [done|by eapply always_start]|by rewrite run_call].
  - by apply wp_bind, wp_call.
Qed.

Lemma goes_bind {W A B} (I : W -> Prop) (Q : B -> W -> Prop) (p : prog W A) (q : A -> prog W B) w :
  goes I (fun a w' => goes I Q (q a) w') p w -> goes I Q (pbind p q) w.
Proof.
  intros [Ha Hw]. unfold wp in Hw. split.
  - apply always_bind; [done|apply Hw].
  - apply wp_bind. apply Hw.
Qed.

Lemma goes_mono {W A} (I I' : W -> Prop) (Q Q' : A -> W -> Prop) (p : prog W A) w :
  goes I Q p w -> (forall w', I w' -> I' w') -> (forall a w', Q a w' -> Q' a w') -> goes I' Q' p w.
Proof. intros [Ha Hw] Hi Hq. split; [intros n; apply Hi, Ha|by eapply wp_mono]. Qed.

Lemma goes_or_clean_up `{Vfs W C} (I : W -> Prop) Q tmp f (k : prog W (io_error + unit)) w :
  I w ->
  ((f w).1 = inr () -> goes I Q k (f w).2) ->
  (forall e, (f w).1 = inl e -> I (f w).2 /\ let w' := (unlink tmp (f w).2).2 in I w' /\ Q (inl e) w') ->
  goes I Q (or_clean_up tmp f k) w.
Proof.
  intros Hi Hk He. apply goes_call; [done|]. destruct (f w) as [[e|[]] w1]; cbn [fst snd] in *; [|by apply Hk].
  destruct (He e eq_refl) as (H1 & H2 & H3). apply goes_call; [done|]. by apply goes_ret.
Qed.

(** ** A write on what processes see *)
Section OsLaws.
Import OsFs.

(** A fallible call that fails leaves the files; one that succeeds changes them by [g]. *)
Definition steps (f : Os -> (io_error + unit) * Os) (g : gmap string (list Z) -> gmap string (list Z) -> Prop) (o : Os) : Prop :=
  keychain (f o).2 = keychain o /\
  match (f o).1 with inl _ => files (f o).2 = files o | inr _ => g (files o) (files (f o).2) end.

Lemma fallible_steps f g o : (forall fs, steps f g (mkOs (files o) (keychain o) fs)) -> steps (Os.fallible f) g o.
Proof.
  intros Hf. unfold steps, Os.fallible, Os.next_fault. destruct (faults o) as [|[] fs] eqn:Hfs; [|done|exact (Hf fs)].
  specialize (Hf []). destruct o; cbn in *; by subst.
Qed.

Lemma create_steps tmp o : files o !! tmp = None -> steps (create_new tmp) (fun m m' => m' = <[tmp := []]> m) o.
Proof. intros Hn. apply fallible_steps. intros fs. unfold steps. cbn. by rewrite Hn. Qed.

Lemma write_all_steps tmp b o : steps (write_all tmp b) (fun m m' => m' = alter (fun _ => b) tmp m) o.
Proof. by apply fallible_steps. Qed.

Lemma sync_steps tmp o : steps (sync_data tmp) (fun m m' => m' = m) o.
Proof. by apply fallible_steps. Qed.

Lemma rename_steps src dst b o : files o !! src = Some b -> steps (rename src dst) (fun m m' => m' = <[dst := b]> (delete src m)) o.
Proof. intros Hs. apply fallible_steps. intros fs. unfold steps. cbn. by rewrite Hs. Qed.

Lemma remove_steps tmp o : steps (Os.remove_file tmp) (fun m m' => m' = delete tmp m) o.
Proof. apply fallible_steps. intros fs. unfold steps. cbn. by destruct (files o !! tmp). Qed.

Context (path : string) (b : list Z).

(** [path] has its old content and nothing else but one temporary file changed, or [path] has the
    new content and nothing else changed. *)
Definition untouched (o o' : Os) : Prop :=
  keychain o' = keychain o /\ exists salt, forall k, k <> tmp_name path salt -> files o' !! k = files o !! k.

Definition replaced (o o' : Os) : Prop := keychain o' = keychain o /\ files o' = <[path := b]> (files o).

Definition holds_tmp (tmp : string) (o o' : Os) : Prop := keychain o' = keychain o /\ exists c, files o' = <[tmp := c]> (files o).

Lemma holds_untouched salt o o' : holds_tmp (tmp_name path salt) o o' -> untouched o o'.
Proof using. intros [Hk [c Hf]]. split; [done|]. exists salt. intros k Hne. by rewrite Hf, lookup_insert_ne. Qed.

Lemma remove_untouched salt o o' : holds_tmp (tmp_name path salt) o o' -> untouched o (Os.remove_file (tmp_name path salt) o').2.
Proof using.
  intros Hh. destruct (remove_steps (tmp_name path salt) o') as [Hk Hf]. destruct Hh as [Hk' [c Hf']]. split; [congruence|].
  exists salt. intros k Hne. destruct (Os.remove_file _ o').1; rewrite Hf, Hf'; [by rewrite lookup_insert_ne|].
  by rewrite lookup_delete_ne, lookup_insert_ne.
Qed.

Lemma untouched_refl o : untouched o o.
Proof using. split; [done|]. by exists 0. Qed.

Notation sound o := (fun o' => untouched o o' \/ replaced o o').
Notation result o := (fun r o' => match r with inr _ => replaced o o' | inl _ => untouched o o' end).

(** One step of the write while the target is as it was, with its clean-up. *)
Lemma goes_step salt (f : Os -> (io_error + unit) * Os) g (k : prog Os (io_error + unit)) (o o1 : Os) :
  holds_tmp (tmp_name path salt) o o1 -> steps f g o1 ->
  (keychain (f o1).2 = keychain o -> g (files o1) (files (f o1).2) -> goes (sound o) (result o) k (f o1).2) ->
  goes (sound o) (result o) (or_clean_up (tmp_name path salt) f k) o1.
Proof using.
  intros Hh [Hk Hf] Hg. apply goes_or_clean_up; [left; by eapply holds_untouched| |].
  - intros He. rewrite He in Hf. apply Hg; [|done]. destruct Hh; congruence.
  - intros e He. rewrite He in Hf. assert (Hh2 : holds_tmp (tmp_name path salt) o (f o1).2).
    { unfold holds_tmp in *. by rewrite Hk, Hf. }
    assert (Hu := remove_untouched salt o _ Hh2). split; [left; by eapply holds_untouched|]. split; [by left|done].
Qed.

Lemma write_goes o : goes (sound o) (result o) (write_bytes_atomic path b) o.
Proof using.
  apply goes_call; [left; apply untouched_refl|]. cbn [AtomicFile.draw_tmp os_vfs fst snd OsFs.draw_tmp].
  destruct (free_salt_spec (files o) path) as [Hfree _]. set (salt := free_salt (files o) path) in *.
  apply goes_call; [left; apply untouched_refl|]. cbn [AtomicFile.create_new os_vfs].
  destruct (create_steps _ o Hfree) as [Hk1 Hf1]. destruct (create_new _ o) as [[e|[]] o1]; cbn [fst snd] in *.
  { assert (untouched o o1) by (split; [done|]; exists 0; intros k _; by rewrite Hf1). apply goes_ret; auto. }
  eapply (goes_step salt); [split; eauto|apply write_all_steps|]. intros Hk2 Hf2.
  match goal with |- goes _ _ _ ?x => set (o2 := x) in *; clearbody o2 end. cbv beta in Hf2. rewrite Hf1, alter_insert_eq in Hf2.
  eapply (goes_step salt); [split; eauto|apply sync_steps|]. intros Hk3 Hf3.
  match goal with |- goes _ _ _ ?x => set (o3 := x) in *; clearbody o3 end. cbv beta in Hf3. rewrite Hf2 in Hf3.
  eapply (goes_step salt); [split; eauto|apply rename_steps; rewrite Hf3; apply lookup_insert_eq|]. intros Hk4 Hf4.
  match goal with |- goes _ _ _ ?x => set (o4 := x) in *; clearbody o4 end. cbv beta in Hf4. rewrite Hf3, delete_insert_eq, delete_id in Hf4 by done.
  assert (replaced o (Os.next_fault o4).2) by (unfold Os.next_fault; by destruct (faults o4)).
  apply goes_call; [by right|]. apply goes_ret; auto.
Qed.

Lemma write_crash n o : untouched o (crash n (write_bytes_atomic path b) o) \/ replaced o (crash n (write_bytes_atomic path b) o).
Proof using. apply (proj1 (write_goes o)). Qed.

Lemma write_run o : match run (write_bytes_atomic path b) o with (inr _, o') => replaced o o' | (inl _, o') => untouched o o' end.
Proof using. assert (Hw := proj2 (write_goes o)). unfold wp in Hw. by destruct (run _ o) as [[e|[]] o']. Qed.

(** Without failures the write succeeds. *)
Lemma write_calm fs kc : run (write_bytes_atomic path b) (mkOs fs kc []) = (inr (), mkOs (<[path := b]> fs) kc []).
Proof using.
  unfold write_bytes_atomic, or_clean_up. rewrite run_bind, run_call. cbn [AtomicFile.draw_tmp os_vfs OsFs.draw_tmp files].
  destruct (free_salt_spec fs path) as [Hfree _]. set (tmp := tmp_name path _) in *.
  rewrite run_bind, run_call. cbn [AtomicFile.create_new os_vfs]. unfold create_new, Os.fallible. cbn. rewrite Hfree. cbn.
  unfold rename, Os.fallible. cbn. rewrite alter_insert_eq, lookup_insert_eq. cbn.
  by rewrite delete_insert_eq, delete_id.
Qed.
End OsLaws.

(** Every single call changes the target or one of its temporary files at most. *)
Definition confined (may : string -> Prop) (o o' : Os) : Prop :=
  (forall k, ~ may k -> files o' !! k = files o !! k) /\ keychain o' = keychain o.

Section Confined.
Import OsFs.
Context (may : string -> Prop).

Lemma steps_confined f g o : steps f g o ->
  (forall m m', g m m' -> forall k, ~ may k -> m' !! k = m !! k) -> confined may o (f o).2.
Proof. intros [Hk Hf] Hg. split; [|done]. intros k Hm. destruct (f o).1; [by rewrite Hf|by eapply Hg]. Qed.

Lemma insert_confined (m : gmap string (list Z)) k k' c : may k -> ~ may k' -> <[k := c]> m !! k' = m !! k'.
Proof. intros Hk Hk'. rewrite lookup_insert_ne; [done|]. by intros ->. Qed.

Lemma delete_confined (m : gmap string (list Z)) k k' : may k -> ~ may k' -> delete k m !! k' = m !! k'.
Proof. intros Hk Hk'. rewrite lookup_delete_ne; [done|]. by intros ->. Qed.

Lemma create_confined tmp o : may tmp -> confined may o (create_new tmp o).2.
Proof.
  intros Ht. destruct (files o !! tmp) as [c|] eqn:Hc.
  - unfold create_new, Os.fallible, Os.next_fault. destruct (faults o) as [|[] fs]; cbn; rewrite ?Hc; done.
  - eapply steps_confined; [by apply create_steps|]. intros m m' -> k Hk. by apply insert_confined.
Qed.

Lemma rename_confined src dst o : may src -> may dst -> confined may o (rename src dst o).2.
Proof.
  intros Hs Hd. destruct (files o !! src) as [c|] eqn:Hc.
  - eapply steps_confined; [by apply rename_steps|]. intros m m' -> k Hk. rewrite insert_confined by done. by apply delete_confined.
  - unfold rename, Os.fallible, Os.next_fault. destruct (faults o) as [|[] fs]; cbn; rewrite ?Hc; done.
Qed.

Lemma remove_confined k o : may k -> confined may o (Os.remove_file k o).2.
Proof. intros Hk. eapply steps_confined; [apply remove_steps|]. intros m m' -> k' Hk'. by apply delete_confined. Qed.

Lemma clean_up_confined tmp f k : may tmp -> (forall o, confined may o (f o).2) -> each_call (confined may) k ->
  each_call (confined may) (or_clean_up tmp f k).
Proof.
  intros Ht Hf Hk. unfold or_clean_up. apply each_call_bind; [by apply each_call_call|]. intros [e|[]]; [|done].
  apply each_call_bind; [|constructor]. apply each_call_call. intros o. by apply remove_confined.
Qed.

Lemma write_confined path b : may path -> (forall salt, may (tmp_name path salt)) -> each_call (confined may) (write_bytes_atomic path b).
Proof.
  intros Hp Ht. unfold write_bytes_atomic. constructor; [done|]. intros o. cbn [AtomicFile.draw_tmp os_vfs OsFs.draw_tmp fst].
  set (salt := free_salt _ _). apply each_call_bind; [apply each_call_call; intros o'; by apply create_confined|].
  intros [e|[]]; [constructor|]. apply clean_up_confined; [done| |].
  { intros o'. eapply steps_confined; [apply write_all_steps|]. intros m m' -> k Hk. apply lookup_alter_ne. intros He. apply Hk. by rewrite <- He. }
  apply clean_up_confined; [done| |].
  { intros o'. eapply steps_confined; [apply sync_steps|]. by intros m m' ->. }
  apply clean_up_confined; [done|intros o'; by apply rename_confined|].
  apply each_call_bind; [|constructor]. apply each_call_call. intros o'. cbn. unfold Os.next_fault. by destruct (faults o').
Qed.
End Confined.

(** ** A disk that can lose its power *)

(** The directory of a path: what precedes its last slash. *)
Fixpoint dirname (path : string) : option string :=
  match path with
  | EmptyString => None
  | String c path' =>
      match dirname path' with
      | Some d => Some (String c d)
      | None => if bool_decide (c = Ascii.ascii_of_nat 47) then Some EmptyString else None
      end
  end.

Lemma dirname_app s t : dirname t = None -> dirname (s ++ t) = dirname s.
Proof. intros Ht. induction s as [|c s IH]; [done|]. rewrite append_cons. cbn [dirname]. by rewrite IH. Qed.

Lemma dirname_hex k n : dirname (hex_digits k n) = None.
Proof.
  revert n. induction k as [|k IH]; intros n; [done|]. cbn [hex_digits]. rewrite dirname_app; [done|]. cbn [dirname].
  rewrite bool_decide_eq_false_2; [done|]. intros He%(f_equal Ascii.nat_of_ascii).
  rewrite hex_char_code in He by (by apply Z.mod_pos_bound). change (Ascii.nat_of_ascii (Ascii.ascii_of_nat 47)) with 47%nat in He.
  assert (Hm := Z.mod_pos_bound n 16 eq_refl). destruct (Z.ltb_spec (n mod 16) 10); lia.
Qed.

Lemma dirname_tmp path salt : dirname (tmp_name path salt) = dirname path.
Proof. unfold tmp_name. apply dirname_app. rewrite dirname_app; [done|]. apply dirname_hex. Qed.

(** [flushed]: the data is on the disk. *)
Record file (C : Type) := mkFile { data : C; flushed : bool }.
Arguments mkFile {C} data flushed.
Arguments data {C} f.
Arguments flushed {C} f.

(** The names as processes see them, the states of the names a power loss may bring back, and
    which of the calls to come fail. *)
Record Disk (C : Type) := mkDisk {
  names : gmap string (file C);
  older : list (gmap string (file C));
  verdicts : list bool
}.
Arguments mkDisk {C} names older verdicts.
Arguments names {C} d.
Arguments older {C} d.
Arguments verdicts {C} d.

Module DiskFs.
Section Ops.
Context {C : Type} `{Inhabited C}.

Definition read (path : string) (d : Disk C) : option C := data <$> names d !! path.

Definition next_verdict (d : Disk C) : bool * Disk C :=
  match verdicts d with
  | b :: vs => (b, mkDisk (names d) (older d) vs)
  | [] => (false, d)
  end.

Definition fallible (f : Disk C -> (io_error + unit) * Disk C) (d : Disk C) : (io_error + unit) * Disk C :=
  let '(b, d') := next_verdict d in if b then (inl OtherError, d') else f d'.

(** A change of the names: until their directory is flushed the old ones may come back. *)
Definition change_names (m : gmap string (file C)) (d : Disk C) : Disk C := mkDisk m (names d :: older d) (verdicts d).

Definition draw_tmp (path : string) (d : Disk C) : string * Disk C := (tmp_name path (free_salt (names d) path), d).

Definition create_new (tmp : string) : Disk C -> (io_error + unit) * Disk C :=
  fallible (fun d =>
    match names d !! tmp with
    | Some _ => (inl OtherError, d)
    | None => (inr (), change_names (<[tmp := mkFile inhabitant false]> (names d)) d)
    end).

Definition write_all (tmp : string) (c : C) : Disk C -> (io_error + unit) * Disk C :=
  fallible (fun d => (inr (), mkDisk (alter (fun _ => mkFile c false) tmp (names d)) (older d) (verdicts d))).

Definition sync_data (tmp : string) : Disk C -> (io_error + unit) * Disk C :=
  fallible (fun d => (inr (), mkDisk (alter (fun f => mkFile (data f) true) tmp (names d)) (older d) (verdicts d))).

Definition unlink (tmp : string) : Disk C -> (io_error + unit) * Disk C :=
  fallible (fun d =>
    match names d !! tmp with
    | Some _ => (inr (), change_names (delete tmp (names d)) d)
    | None => (inl NotFound, d)
    end).

Definition rename (src dst : string) : Disk C -> (io_error + unit) * Disk C :=
  fallible (fun d =>
    match names d !! src with
    | Some f => (inr (), change_names (<[dst := f]> (delete src (names d))) d)
    | None => (inl NotFound, d)
    end).

(** Once a directory is flushed, the names in it no longer come back. *)
Definition sync_view (dir : option string) (now old : gmap string (file C)) : gmap string (file C) :=
  filter (fun kf => dirname kf.1 = dir) now ∪ filter (fun kf => dirname kf.1 <> dir) old.

Definition sync_dir_of (path : string) (d : Disk C) : unit * Disk C :=
  let '(b, d') := next_verdict d in
  ((), if b then d' else mkDisk (names d') (sync_view (dirname path) (names d') <$> older d') (verdicts d')).

#[global] Instance disk_vfs : Vfs (Disk C) C :=
  {| AtomicFile.draw_tmp := draw_tmp; AtomicFile.create_new := create_new; AtomicFile.write_all := write_all;
     AtomicFile.sync_data := sync_data; AtomicFile.unlink := unlink; AtomicFile.rename := rename;
     AtomicFile.sync_dir_of := sync_dir_of |}.

(** What may be there after a power loss: in each directory the names of one of the states it
    may come back to; behind a name its data if that was flushed, and anything if not. *)
Definition came_back (v : gmap string (file C)) (k : string) (m : string -> option C) : Prop :=
  match v !! k with
  | None => m k = None
  | Some f => if flushed f then m k = Some (data f) else is_Some (m k)
  end.

Definition power_loss (d : Disk C) (m : string -> option C) : Prop :=
  forall dir, exists v, v ∈ names d :: older d /\ forall k, dirname k = dir -> came_back v k m.
End Ops.
End DiskFs.

Lemma lookup_sync_view {C} dir (now old : gmap string (file C)) k :
  DiskFs.sync_view dir now old !! k = if decide (dirname k = dir) then now !! k else old !! k.
Proof.
  unfold DiskFs.sync_view. case_decide as Hd.
  - rewrite lookup_union, (map_lookup_filter_None_2 _ old) by (right; intros x _; by intros Hn).
    destruct (now !! k) as [f|] eqn:Hn.
    + by rewrite (map_lookup_filter_Some_2 _ _ k f) by done.
    + by rewrite map_lookup_filter_None_2 by (by left).
  - rewrite lookup_union, (map_lookup_filter_None_2 _ now) by (right; intros x _; by intros Hn).
    destruct (old !! k) as [f|] eqn:Hn.
    + by rewrite (map_lookup_filter_Some_2 _ _ k f) by done.
    + by rewrite map_lookup_filter_None_2 by (by left).
Qed.

Section DiskLaws.
Import DiskFs.
Context {C : Type} `{Inhabited C}.

Definition views (d : Disk C) : list (gmap string (file C)) := names d :: older d.

(** A fallible call that fails changes no name; one that succeeds changes them by [g]. *)
Definition moves (f : Disk C -> (io_error + unit) * Disk C) (g : Disk C -> Disk C -> Prop) (d : Disk C) : Prop :=
  match (f d).1 with
  | inl _ => names (f d).2 = names d /\ older (f d).2 = older d
  | inr _ => g d (f d).2
  end.

Lemma fallible_moves f (g : Disk C -> Disk C -> Prop) d :
  (forall d0 d1 d', names d0 = names d1 -> older d0 = older d1 -> g d0 d' -> g d1 d') ->
  (forall vs, moves f g (mkDisk (names d) (older d) vs)) -> moves (fallible f) g d.
Proof.
  intros Hg Hf. unfold moves, fallible, next_verdict in *. destruct d as [m o [|[] vs]]; cbn in *; [exact (Hf [])|done|].
  specialize (Hf vs). destruct (f _) as [[e|[]] d']; cbn in *; [done|]. by eapply Hg; [| |exact Hf].
Qed.

(** The new names, with the old ones possibly coming back, or not. *)
Definition renamed (m : gmap string (file C) -> gmap string (file C)) (d d' : Disk C) : Prop :=
  names d' = m (names d) /\ older d' = names d :: older d.
Definition rewritten (m : gmap string (file C) -> gmap string (file C)) (d d' : Disk C) : Prop :=
  names d' = m (names d) /\ older d' = older d.

Ltac by_verdict := apply fallible_moves; [by intros ? ? ? ? ? [? ?]; split; congruence|intros vs; unfold moves; cbn].

Lemma create_moves tmp d : names d !! tmp = None -> moves (create_new tmp) (renamed (insert tmp (mkFile inhabitant false))) d.
Proof. intros Hn. by_verdict. by rewrite Hn. Qed.

Lemma write_all_moves tmp c d : moves (write_all tmp c) (rewritten (alter (fun _ => mkFile c false) tmp)) d.
Proof. by by_verdict. Qed.

Lemma sync_moves tmp d : moves (sync_data tmp) (rewritten (alter (fun f => mkFile (data f) true) tmp)) d.
Proof. by by_verdict. Qed.

Lemma rename_moves src dst f d : names d !! src = Some f -> moves (rename src dst) (renamed (fun m => <[dst := f]> (delete src m))) d.
Proof. intros Hs. by_verdict. by rewrite Hs. Qed.

Lemma unlink_moves tmp d : moves (unlink tmp) (renamed (delete tmp)) d.
Proof. by_verdict. by destruct (names d !! tmp). Qed.

Context (path : string) (c : C) (d : Disk C).

(** Two states of the names agree but for a temporary file and, if [new], for the new content. *)
Definition agree (new : bool) (salt : Z) (v' v : gmap string (file C)) (k : string) : Prop :=
  k <> tmp_name path salt -> v' !! k = v !! k \/ (new = true /\ k = path /\ v' !! k = Some (mkFile c true)).

(** The names processes see agree with those before, and in every directory each state that may
    come back agrees with one that could have come back before. *)
Definition covers (new : bool) (d' : Disk C) : Prop := exists salt,
  (forall k, agree new salt (names d') (names d) k) /\
  forall v' dir, v' ∈ views d' -> exists v, v ∈ views d /\ forall k, dirname k = dir -> agree new salt v' v k.

Lemma agree_new salt v' v k : agree false salt v' v k -> agree true salt v' v k.
Proof using. intros Ha Hne. destruct (Ha Hne) as [?|[? _]]; [by left|done]. Qed.

Lemma covers_new d' : covers false d' -> covers true d'.
Proof using.
  intros (salt & Hl & Hs). exists salt. split; [intros k; by apply agree_new|].
  intros v' dir Hv'. destruct (Hs v' dir Hv') as (v & Hv & Hk). exists v. split; [done|]. intros k Hd. by apply agree_new, Hk.
Qed.

(** The temporary file is there with [f], and nothing else changed. *)
Definition staged (salt : Z) (f : file C) (d' : Disk C) : Prop :=
  names d' = <[tmp_name path salt := f]> (names d) /\ forall v, v ∈ older d' -> v ∈ views d.

Lemma covers_of salt d' : (forall k, k <> tmp_name path salt -> names d' !! k = names d !! k) ->
  (forall v', v' ∈ views d' -> exists v, v ∈ views d /\ forall k, k <> tmp_name path salt -> v' !! k = v !! k) -> covers false d'.
Proof using.
  intros Hl Hv. exists salt. split; [intros k Hne; left; by apply Hl|]. intros v' dir Hv'. destruct (Hv v' Hv') as (v & ? & Hk).
  exists v. split; [done|]. intros k _ Hne. left. by apply Hk.
Qed.

Lemma staged_views salt f d' : staged salt f d' -> forall v', v' ∈ views d' -> exists v, v ∈ views d /\ forall k, k <> tmp_name path salt -> v' !! k = v !! k.
Proof using.
  intros [Hn Ho] v' [->|Hv]%elem_of_cons; [|eauto]. exists (names d). split; [left|]. intros k Hne. by rewrite Hn, lookup_insert_ne.
Qed.

Lemma staged_covers salt f d' : staged salt f d' -> covers false d'.
Proof using.
  intros Hs. apply (covers_of salt); [|by eapply staged_views]. intros k Hne. destruct Hs as [-> _]. by rewrite lookup_insert_ne.
Qed.

Lemma unlink_covers salt f d' : staged salt f d' -> covers false (unlink (tmp_name path salt) d').2.
Proof using.
  intros Hs. assert (Hv := staged_views _ _ _ Hs). assert (Hm := unlink_moves (tmp_name path salt) d').
  unfold moves in Hm. destruct (unlink _ d') as [[e|[]] d1]; cbn [fst snd] in *; destruct Hm as [Hn Ho].
  { apply (staged_covers salt f). unfold staged in *. by rewrite Hn, Ho. }
  assert (Hk : forall k, k <> tmp_name path salt -> names d1 !! k = names d !! k).
  { intros k Hne. rewrite Hn, (proj1 Hs), lookup_delete_ne, lookup_insert_ne by done. done. }
  apply (covers_of salt); [done|]. unfold views in *. rewrite Ho.
  intros v' [->|Hv']%elem_of_cons; [|by apply Hv]. exists (names d). split; [left|done].
Qed.

Notation sound := (covers true).
Notation result := (fun r d' => match r with inr _ => covers true d' /\ read path d' = Some c | inl _ => covers false d' end).

Lemma disk_step salt fl f g (k : prog (Disk C) (io_error + unit)) d1 :
  staged salt fl d1 -> moves f g d1 -> (g d1 (f d1).2 -> goes sound result k (f d1).2) ->
  goes sound result (or_clean_up (tmp_name path salt) f k) d1.
Proof using.
  intros Hs Hm Hg. unfold moves in Hm. apply goes_or_clean_up; [by eapply covers_new, staged_covers| |].
  - intros He. rewrite He in Hm. by apply Hg.
  - intros e He. rewrite He in Hm. assert (Hs2 : staged salt fl (f d1).2) by (unfold staged in *; destruct Hm as [-> ->]; done).
    assert (Hu := unlink_covers _ _ _ Hs2). split; [by eapply covers_new, staged_covers|]. split; [by apply covers_new|done].
Qed.

(** The new names after the rename, and the disk once the directory was flushed or not. *)
Lemma renamed_covers salt d1 d2 :
  staged salt (mkFile c true) d1 -> names d !! tmp_name path salt = None ->
  renamed (fun m => <[path := mkFile c true]> (delete (tmp_name path salt) m)) d1 d2 ->
  covers true d2 /\ covers true (sync_dir_of path d2).2 /\ read path (sync_dir_of path d2).2 = Some c.
Proof using.
  intros Hs Hfree [Hn Ho]. assert (Hv := staged_views _ _ _ Hs). destruct Hs as [Hn1 Ho1].
  rewrite Hn1, delete_insert_eq, delete_id in Hn by done.
  assert (Hnow : forall k, agree true salt (names d2) (names d) k).
  { intros k _. rewrite Hn. destruct (decide (k = path)) as [->|Hne]; [right; by rewrite lookup_insert_eq|left; by rewrite lookup_insert_ne]. }
  assert (H2 : covers true d2).
  { exists salt. split; [done|]. intros v' dir [->|Hv']%elem_of_cons; [exists (names d); split; [left|done]|].
    rewrite Ho in Hv'. destruct (Hv v' Hv') as (v & ? & Hk). exists v. split; [done|]. intros k _ Hne. left. by apply Hk. }
  split; [done|]. unfold sync_dir_of. destruct (next_verdict d2) as [b d3] eqn:Hd3.
  assert (H3 : names d3 = names d2 /\ older d3 = older d2) by (unfold next_verdict in Hd3; destruct (verdicts d2); by injection Hd3 as _ <-).
  destruct H3 as [Hn3 Ho3]. assert (Hr : read path d3 = Some c) by (unfold read; by rewrite Hn3, Hn, lookup_insert_eq).
  destruct H2 as (s & Hl & Hs). destruct b; cbn [snd].
  - split; [|done]. exists s. unfold views in *. by rewrite Hn3, Ho3.
  - split; [|done]. exists s. unfold views. cbn [names older]. rewrite Hn3, Ho3. split; [done|].
    intros v' dir [->|[v0 [-> Hv0]]%list_elem_of_fmap]%elem_of_cons; [apply (Hs (names d2) dir); left|].
    destruct (decide (dir = dirname path)) as [->|Hdir].
    + destruct (Hs (names d2) (dirname path)) as (v & Hv' & Hk); [left|]. exists v. split; [done|]. intros k Hd. unfold agree.
      rewrite lookup_sync_view, decide_True by done. by apply Hk.
    + destruct (Hs v0 dir) as (v & Hv' & Hk); [by right|]. exists v. split; [done|]. intros k Hd. unfold agree.
      rewrite lookup_sync_view, decide_False by congruence. by apply Hk.
Qed.

Lemma write_disk_goes : goes sound result (write_bytes_atomic path c) d.
Proof using.
  assert (Hrefl : covers false d) by (apply (covers_of 0); eauto).
  apply goes_call; [by apply covers_new|]. cbn [AtomicFile.draw_tmp disk_vfs fst snd DiskFs.draw_tmp].
  destruct (free_salt_spec (names d) path) as [Hfree _]. set (salt := free_salt (names d) path) in *.
  apply goes_call; [by apply covers_new|]. cbn [AtomicFile.create_new disk_vfs].
  assert (Hm := create_moves _ d Hfree). unfold moves in Hm. destruct (create_new _ d) as [[e|[]] d1]; cbn [fst snd] in *.
  { assert (covers false d1). { destruct Hm as [Hn Ho]. apply (covers_of 0); unfold views; rewrite ?Hn, ?Ho; eauto. } apply goes_ret; [by apply covers_new|done]. }
  assert (H1 : staged salt (mkFile inhabitant false) d1) by (destruct Hm as [Hn Ho]; split; [done|]; by rewrite Ho). clear Hm.
  eapply (disk_step salt); [done|apply write_all_moves|]. intros [Hn2 Ho2].
  match goal with |- goes _ _ _ ?x => set (d2 := x) in *; clearbody d2 end.
  assert (H2 : staged salt (mkFile c false) d2) by (destruct H1 as [H1 H1']; split; [by rewrite Hn2, H1, alter_insert_eq|by rewrite Ho2]).
  eapply (disk_step salt); [done|apply sync_moves|]. intros [Hn3 Ho3].
  match goal with |- goes _ _ _ ?x => set (d3 := x) in *; clearbody d3 end.
  assert (H3 : staged salt (mkFile c true) d3) by (destruct H2 as [H2 H2']; split; [by rewrite Hn3, H2, alter_insert_eq|by rewrite Ho3]).
  eapply (disk_step salt); [done|apply rename_moves; rewrite (proj1 H3); apply lookup_insert_eq|]. intros H4.
  match goal with |- goes _ _ _ ?x => set (d4 := x) in *; clearbody d4 end.
  destruct (renamed_covers salt d3 d4 H3 Hfree H4) as (H5 & H6 & H7).
  apply goes_call; [done|]. apply goes_ret; [done|]. split; done.
Qed.

(** A power loss brings back what an earlier one could have brought back, but for a temporary
    file and, if [new], for the whole new content at [path]. *)
Definition survives (new : bool) (m : string -> option C) : Prop :=
  exists m0 salt, power_loss d m0 /\ forall k, k <> tmp_name path salt -> m k = m0 k \/ (new = true /\ k = path /\ m k = Some c).

Lemma rebuild d' salt v v' m (replaced_ : string -> bool) :
  (forall w' dir, w' ∈ views d' -> exists w, w ∈ views d /\ forall k, dirname k = dir -> k <> tmp_name path salt -> k <> path -> w' !! k = w !! k) ->
  power_loss d' m -> v ∈ views d -> (forall k, dirname k = dirname path -> replaced_ k = false -> v' !! k = v !! k /\ came_back v' k m) ->
  (forall k, replaced_ k = true -> dirname k = dirname path) ->
  power_loss d (fun k => if replaced_ k then data <$> v !! k else m k).
Proof using.
  intros Hcov Hm Hv Hsame Hin dir. destruct (decide (dir = dirname path)) as [->|Hdir].
  - exists v. split; [done|]. intros k Hk. unfold came_back. destruct (replaced_ k) eqn:Hr.
    + destruct (v !! k) as [f|]; cbn; [|done]. destruct (flushed f); eauto.
    + destruct (Hsame k Hk Hr) as [Hvk Hc]. unfold came_back in Hc. by rewrite Hvk in Hc.
  - destruct (Hm dir) as (w' & Hw' & Hb). destruct (Hcov w' dir Hw') as (w & Hw & Hk). exists w. split; [done|].
    intros k Hkd. unfold came_back. destruct (replaced_ k) eqn:Hr; [by rewrite (Hin k Hr) in Hkd|].
    rewrite <- (Hk k Hkd); [by apply Hb| |]; intros ->; [by rewrite dirname_tmp in Hkd|done].
Qed.

Lemma covers_survives new d' m : covers new d' -> power_loss d' m -> survives new m.
Proof using.
  intros (salt & _ & Hs) Hm. destruct (Hm (dirname path)) as (v' & Hv' & Hb). destruct (Hs v' (dirname path) Hv') as (v & Hv & Hk).
  assert (Hcov : forall w' dir, w' ∈ views d' -> exists w, w ∈ views d /\
    forall k, dirname k = dir -> k <> tmp_name path salt -> k <> path -> w' !! k = w !! k).
  { intros w' dir Hw'. destruct (Hs w' dir Hw') as (w & Hw & Hwk). exists w. split; [done|].
    intros k Hd Hne Hnp. by destruct (Hwk k Hd Hne) as [?|(_ & ? & _)]. }
  destruct (Hk path eq_refl ltac:(intros He; by apply (tmp_name_ne path salt))) as [Hp|(-> & _ & Hp)].
  - set (rp := fun k => bool_decide (k = tmp_name path salt)). exists (fun k => if rp k then data <$> v !! k else m k), salt. split.
    + apply (rebuild d' salt v v' m rp Hcov Hm Hv); unfold rp.
      * intros k Hd Hne%bool_decide_eq_false. split; [|by apply Hb]. by destruct (Hk k Hd Hne) as [?|(_ & -> & _)].
      * intros k ->%bool_decide_eq_true. apply dirname_tmp.
    + intros k Hne. left. unfold rp. by rewrite bool_decide_eq_false_2.
  - set (rp := fun k => bool_decide (k = tmp_name path salt) || bool_decide (k = path)). exists (fun k => if rp k then data <$> v !! k else m k), salt. split.
    + apply (rebuild d' salt v v' m rp Hcov Hm Hv); unfold rp.
      * intros k Hd [Hne%bool_decide_eq_false Hnp%bool_decide_eq_false]%orb_false_iff. split; [|by apply Hb].
        by destruct (Hk k Hd Hne) as [?|(_ & ? & _)].
      * intros k [->%bool_decide_eq_true| ->%bool_decide_eq_true]%orb_true_iff; [apply dirname_tmp|done].
    + intros k Hne. destruct (decide (k = path)) as [->|Hnp].
      * right. split; [done|]. split; [done|]. specialize (Hb path eq_refl). unfold came_back in Hb. by rewrite Hp in Hb.
      * left. unfold rp. by rewrite !bool_decide_eq_false_2.
Qed.

(** What processes see: all names as before, but for a temporary file and the new content. *)
Lemma covers_read new d' : covers new d' -> exists salt, forall k, k <> tmp_name path salt ->
  read k d' = read k d \/ (new = true /\ k = path /\ read k d' = Some c).
Proof using.
  intros (salt & Hl & _). exists salt. intros k Hne. unfold read. destruct (Hl k Hne) as [-> |(? & ? & ->)]; auto.
Qed.

Lemma crash_survives n m : power_loss (crash n (write_bytes_atomic path c) d) m -> survives true m.
Proof using. apply covers_survives, (proj1 write_disk_goes). Qed.

Lemma run_survives m : let '(r, d') := run (write_bytes_atomic path c) d in
  power_loss d' m -> survives (match r with inr _ => true | inl _ => false end) m.
Proof using.
  assert (Hw := proj2 write_disk_goes). unfold wp in Hw. destruct (run _ d) as [[e|[]] d']; cbn [fst snd] in Hw; [|destruct Hw as [Hw _]]; by apply covers_survives.
Qed.

(** Without failures the write succeeds, and no power loss undoes it. *)
Lemma run_durable : verdicts d = [] -> exists o,
  run (write_bytes_atomic path c) d = (inr (), mkDisk (<[path := mkFile c true]> (names d)) o []) /\
  forall m, power_loss (mkDisk (<[path := mkFile c true]> (names d)) o []) m -> m path = Some c.
Proof using.
  intros Hv. destruct d as [m0 o0 vs]. cbn in Hv. subst vs.
  destruct (free_salt_spec m0 path) as [Hfree _]. set (tmp := tmp_name path (free_salt m0 path)) in *.
  assert (Hn : <[path := mkFile c true]> (delete tmp (<[tmp := mkFile c true]> m0)) = <[path := mkFile c true]> m0)
    by by rewrite delete_insert_eq, delete_id.
  exists (sync_view (dirname path) (<[path := mkFile c true]> m0) <$> [<[tmp := mkFile c true]> m0; m0] ++ o0). split.
  - unfold write_bytes_atomic, or_clean_up. rewrite run_bind, run_call. cbn [AtomicFile.draw_tmp disk_vfs DiskFs.draw_tmp names]. fold tmp.
    rewrite run_bind, run_call. cbn [AtomicFile.create_new disk_vfs]. unfold create_new, fallible. cbn. rewrite Hfree. cbn.
    unfold rename, fallible. cbn. rewrite !alter_insert_eq, lookup_insert_eq. cbn. by rewrite Hn.
  - intros m Hm. destruct (Hm (dirname path)) as (v & Hv & Hb). specialize (Hb path eq_refl). unfold came_back in Hb.
    apply elem_of_cons in Hv as [->|[v0 [-> _]]%list_elem_of_fmap]; cbn [names] in Hb.
    + by rewrite lookup_insert_eq in Hb.
    + by rewrite lookup_sync_view, decide_True, lookup_insert_eq in Hb.
Qed.
End DiskLaws.

(** The power may go and take nothing. *)
Lemma power_loss_live {C} `{Inhabited C} (d : Disk C) : DiskFs.power_loss d (fun k => DiskFs.read k d).
Proof.
  intros dir. exists (names d). split; [left|]. intros k _. unfold DiskFs.came_back, DiskFs.read.
  destruct (names d !! k) as [f|]; [|done]. destruct (flushed f); cbn; eauto.
Qed.
