(* ===== verification/Rely.v ===== *)
(** * Programs among other tasks

    [run_env] lets other tasks change the state before each call.  [under R p Q w] says what a
    program does when they change it by [R] only: [Q] holds of its result, of the states its
    calls found and of the state it leaves. *)
From Stdlib Require Import ZArith Lia.
From stdpp Require Import prelude list.
From S2P Require Import Prelude Prog.

Section Under.
Context {W : Type} (R : W -> W -> Prop).

Fixpoint under {A} (p : prog W A) (Q : A -> list W -> W -> Prop) (w : W) : Prop :=
  match p with
  | Ret a => Q a [] w
  | Step f k => forall s, R w s -> under (k (f s).1) (fun a found w' => Q a (s :: found) w') (f s).2
  end.

Lemma under_ret {A} (a : A) (Q : A -> list W -> W -> Prop) w : Q a [] w -> under (Ret a) Q w.
Proof. done. Qed.

Lemma under_weaken {A} (p : prog W A) (Q Q' : A -> list W -> W -> Prop) w :
  (forall a found w', Q a found w' -> Q' a found w') -> under p Q w -> under p Q' w.
Proof.
  revert Q Q' w. induction p as [a|B f k IH]; intros Q Q' w HQ; cbn; [apply HQ|]. intros Hp s Hs.
  eapply IH; [|by apply Hp]. intros a found w'. apply HQ.
Qed.

Lemma under_bind {A B} (p : prog W A) (q : A -> prog W B) Q w :
  under p (fun a found w' => under (q a) (fun b found' w'' => Q b (found ++ found') w'') w') w -> under (pbind p q) Q w.
Proof.
  revert Q w. induction p as [a|C f k IH]; intros Q w; cbn; [by apply under_weaken|]. intros Hp s Hs. by apply IH, Hp.
Qed.

Lemma under_call {A} (f : W -> A * W) (Q : A -> list W -> W -> Prop) w :
  (forall s, R w s -> Q (f s).1 [s] (f s).2) -> under (call f) Q w.
Proof. done. Qed.

(** One call first. *)
Lemma under_step {A B} (f : W -> A * W) (q : A -> prog W B) Q w :
  (forall s, R w s -> under (q (f s).1) (fun b found w' => Q b (s :: found) w') (f s).2) -> under (pbind (call f) q) Q w.
Proof. intros Hq s Hs. by apply Hq. Qed.

(** What holds under every interference by [R] holds of every interrupted run. *)
Lemma under_run_env {A} env (p : prog W A) Q w : (forall w, R w w) ->
  Forall (fun e => forall w, R w (e w)) env -> under p Q w ->
  Q (run_env env p w).1 (calls env p w).*1 (run_env env p w).2.
Proof.
  intros Hr. revert env Q w. induction p as [a|B f k IH]; intros env Q w He Hp; [done|].
  rewrite run_env_step, calls_step. cbn [fmap list_fmap].
  assert (R w (env_head env w)) as Hw by (by destruct He; [apply Hr|]).
  apply (IH _ (tail env) (fun a found w' => Q a (env_head env w :: found) w')); [by destruct He; [apply Forall_nil_2|]|]. by apply Hp.
Qed.

End Under.
