(* ===== verification/Codec.v ===== *)
(** * The encodings and the cryptography the security stack relies on

    [Codec] lists the third-party functions the file formats go through (base64,
    UTF-8, serde_json's text form, HKDF and HMAC) and what their documentation
    promises.  The JSON law is stated for the flat documents these formats use, whose
    numbers are integers. *)
From Stdlib Require Import ZArith Lia Ascii.
From Stdlib Require Import Floats.SpecFloat.
From stdpp Require Import prelude gmap strings list countable.
From S2P Require Import Prelude Json.

Notation byte_list := (list Z).

Definition scalar (v : json) : Prop :=
  match v with
  | JNull | JBool _ | JString _ => True
  | JNumber (PosInt n) => (0 <= n < 2 ^ 64)%Z
  | JNumber (NegInt n) => (- 2 ^ 63 <= n < 0)%Z
  | _ => False
  end.

Definition flat (v : json) : Prop :=
  match v with JObject m => forall k x, m !! k = Some x -> scalar x | _ => scalar v end.

Definition bytes_ok (b : byte_list) : Prop := Forall in_u8 b.

(** Text that stands for itself inside a JSON string literal. *)
Definition plain_char (c : Ascii.ascii) : bool :=
  let n := Ascii.nat_of_ascii c in
  (32 <=? n)%nat && negb (n =? 34)%nat && negb (n =? 92)%nat.

Definition plain (s : string) : Prop := forallb plain_char (String.list_ascii_of_string s) = true.

(** The double quote, and a string literal of a document. *)
Definition dq : string := String (Ascii.ascii_of_nat 34) EmptyString.
Definition quoted (s : string) : string := (dq ++ s ++ dq)%string.

Class Codec := {
  b64_encode : byte_list -> string;
  b64_decode : string -> option byte_list;
  utf8 : string -> byte_list;
  from_utf8 : byte_list -> option string;
  json_to_string : json -> string;
  json_from_str : string -> option json;
  hkdf_sha256 : byte_list -> byte_list -> byte_list -> byte_list;
  hmac_sha256 : byte_list -> byte_list -> byte_list;
  b64_roundtrip : forall b, bytes_ok b -> b64_decode (b64_encode b) = Some b;
  b64_plain : forall b, plain (b64_encode b);
  utf8_bytes : forall s, bytes_ok (utf8 s);
  hmac_bytes : forall k m, bytes_ok (hmac_sha256 k m);
  hmac_nonempty : forall k m, hmac_sha256 k m <> [];
  utf8_roundtrip : forall s, from_utf8 (utf8 s) = Some s;
  json_roundtrip : forall v, flat v -> json_from_str (json_to_string v) = Some v;
  (** An object literal with one number and two plain string fields. *)
  json_literal : forall k1 k2 k3 a b, plain k1 -> plain k2 -> plain k3 -> plain a -> plain b ->
    k1 <> k2 -> k1 <> k3 -> k2 <> k3 ->
    json_from_str ("{" ++ quoted k1 ++ ":1," ++ quoted k2 ++ ":" ++ quoted a ++ "," ++
      quoted k3 ++ ":" ++ quoted b ++ "}")%string =
    Some (JObject (<[k3 := JString b]> (<[k2 := JString a]> (<[k1 := JNumber (PosInt 1)]> ∅))));
  json_parsed_ok : forall s v, json_from_str s = Some v -> json_ok v
}.

Lemma scalar_of_i64 n : in_i64 n -> scalar (Json.of_i64 n).
Proof.
  int_unfold. intros Hn. unfold Json.of_i64. destruct (n <? 0)%Z eqn:E; breflect; simpl; lia.
Qed.

(** ** A concrete instance

    The laws have a model: base64 is the identity on bytes, the MAC is a
    concatenation reduced to bytes, and the text of a document is a prefix code. *)
Definition string_codes (s : string) : byte_list :=
  (fun a => Z.of_nat (Ascii.nat_of_ascii a)) <$> String.list_ascii_of_string s.

Definition code_char (z : Z) : option Ascii.ascii :=
  if bool_decide (in_u8 z) then Some (Ascii.ascii_of_nat (Z.to_nat z)) else None.

Definition codes_string (bs : byte_list) : option string :=
  String.string_of_list_ascii <$> mapM code_char bs.

#[export] Instance in_u8_dec z : Decision (in_u8 z).
Proof. unfold in_u8. apply _. Defined.

Lemma char_code_u8 a : in_u8 (Z.of_nat (Ascii.nat_of_ascii a)).
Proof. pose proof (Ascii.nat_ascii_bounded a). int_unfold. lia. Qed.

Lemma code_char_code a : code_char (Z.of_nat (Ascii.nat_of_ascii a)) = Some a.
Proof.
  unfold code_char. rewrite bool_decide_eq_true_2 by apply char_code_u8.
  by rewrite Nat2Z.id, Ascii.ascii_nat_embedding.
Qed.

Lemma codes_string_codes s : codes_string (string_codes s) = Some s.
Proof.
  unfold codes_string, string_codes.
  transitivity (Some (String.string_of_list_ascii (String.list_ascii_of_string s)));
    [|by rewrite String.string_of_list_ascii_of_string].
  assert (Hm : mapM code_char ((fun a => Z.of_nat (Ascii.nat_of_ascii a)) <$>
    String.list_ascii_of_string s) = Some (String.list_ascii_of_string s)); [|by rewrite Hm].
  induction (String.list_ascii_of_string s) as [|a l IH]; [done|].
  rewrite fmap_cons. cbn [mapM]. rewrite code_char_code. simpl. by rewrite IH.
Qed.

Lemma string_codes_of_codes bs s : codes_string bs = Some s -> string_codes s = bs.
Proof.
  unfold codes_string, string_codes. intros Hs.
  destruct (mapM code_char bs) as [l|] eqn:Hl; simplify_eq/=.
  rewrite String.list_ascii_of_string_of_list_ascii.
  apply mapM_Some in Hl. induction Hl as [|z a bs l Ha _ IH]; [done|].
  rewrite fmap_cons, IH. f_equal.
  unfold code_char in Ha. case_bool_decide as Hz; simplify_eq.
  rewrite Ascii.nat_ascii_embedding; int_unfold; lia.
Qed.

Lemma codes_string_bytes bs : bytes_ok bs -> is_Some (codes_string bs).
Proof.
  intros Hb. unfold codes_string. apply fmap_is_Some.
  apply mapM_is_Some. eapply Forall_impl; [|exact Hb]. intros z Hz. simpl.
  unfold code_char. rewrite bool_decide_eq_true_2 by done. eauto.
Qed.

Lemma string_codes_u8 s : bytes_ok (string_codes s).
Proof. apply Forall_fmap, Forall_true. intros a. apply char_code_u8. Qed.

(** Base64 is hexadecimal here. *)
Definition hex_digit (n : nat) : Ascii.ascii := Ascii.ascii_of_nat (65 + n).
Definition hex_value (c : Ascii.ascii) : nat := (Ascii.nat_of_ascii c - 65)%nat.

Fixpoint concrete_b64 (bs : byte_list) : string :=
  match bs with
  | [] => EmptyString
  | z :: bs =>
      let n := Z.to_nat (z mod 256) in
      String (hex_digit (n / 16)) (String (hex_digit (n mod 16)) (concrete_b64 bs))
  end.

Fixpoint concrete_unb64 (s : string) : option byte_list :=
  match s with
  | EmptyString => Some []
  | String a (String b s) =>
      bs ← concrete_unb64 s; Some (Z.of_nat (16 * hex_value a + hex_value b) :: bs)
  | _ => None
  end.

Lemma hex_nibble n : (n < 16)%nat -> hex_value (hex_digit n) = n /\ plain_char (hex_digit n) = true.
Proof. intros Hn. do 16 (destruct n as [|n]; [by vm_compute|]). lia. Qed.

Lemma byte_nibbles z : (Z.to_nat (z mod 256) / 16 < 16)%nat /\ (Z.to_nat (z mod 256) mod 16 < 16)%nat.
Proof.
  pose proof (Z.mod_pos_bound z 256). split; [|by apply Nat.mod_upper_bound].
  apply Nat.Div0.div_lt_upper_bound. lia.
Qed.

Lemma concrete_b64_roundtrip bs : bytes_ok bs -> concrete_unb64 (concrete_b64 bs) = Some bs.
Proof.
  induction 1 as [|z bs Hz _ IH]; [done|]. cbn [concrete_b64 concrete_unb64].
  rewrite IH. cbn [mbind option_bind]. destruct (byte_nibbles z) as [H1 H2].
  destruct (hex_nibble _ H1) as [-> _]. destruct (hex_nibble _ H2) as [-> _].
  rewrite <-Nat.div_mod_eq.
  rewrite Z2Nat.id by (apply Z.mod_pos_bound; lia).
  by rewrite Z.mod_small by exact Hz.
Qed.

Lemma concrete_b64_plain bs : plain (concrete_b64 bs).
Proof.
  unfold plain. induction bs as [|z bs IH]; [done|]. cbn [concrete_b64].
  destruct (byte_nibbles z) as [H1 H2].
  destruct (hex_nibble _ H1) as [_ Hp1]. destruct (hex_nibble _ H2) as [_ Hp2].
  cbn [String.list_ascii_of_string forallb]. by rewrite Hp1, Hp2, IH.
Qed.

(** A reader of the one object literal above. *)
Fixpoint until_quote (s : string) : option (string * string) :=
  match s with
  | EmptyString => None
  | String c s =>
      if (Ascii.nat_of_ascii c =? 34)%nat then Some (EmptyString, s)
      else match until_quote s with Some (t, r) => Some (String c t, r) | None => None end
  end.

Fixpoint skip (lit s : string) : option string :=
  match lit, s with
  | EmptyString, _ => Some s
  | String a lit, String b s => if Ascii.eqb a b then skip lit s else None
  | _, _ => None
  end.

Definition read_quoted (s : string) : option (string * string) := s ← skip dq s; until_quote s.

Definition read_literal (s : string) : option json :=
  '(k1, s) ← read_quoted s; s ← skip ":1," s;
  '(k2, s) ← read_quoted s; s ← skip ":" s;
  '(a, s) ← read_quoted s; s ← skip "," s;
  '(k3, s) ← read_quoted s; s ← skip ":" s;
  '(b, s) ← read_quoted s; s ← skip "}" s;
  match s with
  | EmptyString =>
      Some (JObject (<[k3 := JString b]> (<[k2 := JString a]> (<[k1 := JNumber (PosInt 1)]> ∅))))
  | _ => None
  end.

Lemma skip_app lit s : skip lit (lit ++ s)%string = Some s.
Proof.
  induction lit as [|c lit IH]; [by destruct s|].
  change (String c lit ++ s)%string with (String c (lit ++ s)%string). simpl.
  by rewrite Ascii.eqb_refl.
Qed.

Lemma until_quote_plain t r : plain t -> until_quote (t ++ dq ++ r)%string = Some (t, r).
Proof.
  unfold plain. induction t as [|c t IH]; intros Hp; [done|].
  cbn [String.list_ascii_of_string forallb] in Hp. apply andb_true_iff in Hp as [Hc Hp].
  change (String c t ++ dq ++ r)%string with (String c (t ++ dq ++ r)%string).
  cbn [until_quote]. unfold plain_char in Hc.
  destruct (Ascii.nat_of_ascii c =? 34)%nat eqn:E; [by rewrite andb_false_r in Hc|].
  rewrite IH by done. done.
Qed.

Lemma string_app_assoc (a b c : string) : ((a ++ b) ++ c = a ++ (b ++ c))%string.
Proof.
  induction a as [|x a IH]; [done|].
  change (String x ((a ++ b) ++ c) = String x (a ++ (b ++ c)))%string. by rewrite IH.
Qed.

Lemma read_quoted_plain t r : plain t -> read_quoted (quoted t ++ r)%string = Some (t, r).
Proof.
  intros Hp. unfold read_quoted, quoted. rewrite !string_app_assoc, skip_app. cbn [mbind option_bind].
  by apply until_quote_plain.
Qed.

Lemma read_literal_spec k1 k2 k3 a b :
  plain k1 -> plain k2 -> plain k3 -> plain a -> plain b ->
  read_literal (quoted k1 ++ ":1," ++ quoted k2 ++ ":" ++ quoted a ++ "," ++
      quoted k3 ++ ":" ++ quoted b ++ "}")%string =
    Some (JObject (<[k3 := JString b]> (<[k2 := JString a]> (<[k1 := JNumber (PosInt 1)]> ∅)))).
Proof.
  intros. unfold read_literal.
  do 5 (rewrite read_quoted_plain by done; cbn [mbind option_bind]; rewrite ?skip_app;
    cbn [mbind option_bind]). done.
Qed.

(** The prefix code: a string is its characters, each after a [1], and a [0]. *)
Fixpoint put_str (s rest : string) : string :=
  match s with
  | EmptyString => String "0"%char rest
  | String c s => String "1"%char (String c (put_str s rest))
  end.

Fixpoint get_str (s : string) : option (string * string) :=
  match s with
  | String "0"%char rest => Some (EmptyString, rest)
  | String "1"%char (String c s) =>
      match get_str s with Some (t, rest) => Some (String c t, rest) | None => None end
  | _ => None
  end.

Lemma get_put_str s rest : get_str (put_str s rest) = Some (s, rest).
Proof. induction s as [|c s IH]; simpl; [done|]. by rewrite IH. Qed.

Fixpoint pos_to_string (p : positive) : string :=
  match p with
  | xH => EmptyString
  | xO p => String "0"%char (pos_to_string p)
  | xI p => String "1"%char (pos_to_string p)
  end.

Fixpoint string_to_pos (s : string) : option positive :=
  match s with
  | EmptyString => Some xH
  | String "0"%char s => xO <$> string_to_pos s
  | String "1"%char s => xI <$> string_to_pos s
  | _ => None
  end.

Lemma string_to_pos_to_string p : string_to_pos (pos_to_string p) = Some p.
Proof. induction p as [p IH|p IH|]; simpl; by rewrite ?IH. Qed.

Definition put_scalar (v : json) (rest : string) : string :=
  match v with
  | JBool true => String "t"%char rest
  | JBool false => String "f"%char rest
  | JNumber (PosInt Z0) => String "z"%char rest
  | JNumber (PosInt (Zpos p)) => String "p"%char (put_str (pos_to_string p) rest)
  | JNumber (NegInt (Zneg p)) => String "m"%char (put_str (pos_to_string p) rest)
  | JString s => String "s"%char (put_str s rest)
  | _ => String "n"%char rest
  end.

Definition get_number (f : positive -> Z) (s : string) : option (Z * string) :=
  '(d, rest) ← get_str s; p ← string_to_pos d; Some (f p, rest).

Definition get_scalar (s : string) : option (json * string) :=
  match s with
  | String "t"%char rest => Some (JBool true, rest)
  | String "f"%char rest => Some (JBool false, rest)
  | String "z"%char rest => Some (JNumber (PosInt 0), rest)
  | String "p"%char rest =>
      '(n, rest) ← get_number Zpos rest;
      if bool_decide (in_u64 n) then Some (JNumber (PosInt n), rest) else None
  | String "m"%char rest =>
      '(n, rest) ← get_number Zneg rest;
      if bool_decide (- 2 ^ 63 <= n < 0)%Z then Some (JNumber (NegInt n), rest) else None
  | String "s"%char rest => '(t, rest) ← get_str rest; Some (JString t, rest)
  | String "n"%char rest => Some (JNull, rest)
  | _ => None
  end.

#[export] Instance in_u64_dec z : Decision (in_u64 z).
Proof. unfold in_u64. apply _. Defined.

Lemma get_put_scalar v rest : scalar v -> get_scalar (put_scalar v rest) = Some (v, rest).
Proof.
  destruct v as [|[]|[[|p|p]|[|p|p]|x]| | |]; try done; intros Hn; simpl;
    unfold get_number; rewrite ?get_put_str; simpl; rewrite ?string_to_pos_to_string; simpl;
    try (by rewrite bool_decide_eq_true_2 by (int_unfold; simpl in *; lia));
    simpl in Hn; first [done | lia].
Qed.

Fixpoint put_fields (l : list (string * json)) : string :=
  match l with
  | [] => EmptyString
  | (k, v) :: l => put_str k (put_scalar v (put_fields l))
  end.

Fixpoint get_fields (fuel : nat) (s : string) : option (list (string * json)) :=
  match s, fuel with
  | EmptyString, _ => Some []
  | _, 0%nat => None
  | _, S fuel =>
      '(k, s) ← get_str s; '(v, s) ← get_scalar s; l ← get_fields fuel s; Some ((k, v) :: l)
  end.

Lemma get_put_fields l fuel :
  Forall (fun kv => scalar kv.2) l -> (length l <= fuel)%nat -> get_fields fuel (put_fields l) = Some l.
Proof.
  intros Hl. revert fuel. induction Hl as [|[k v] l Hv _ IH]; intros fuel Hf.
  - by destruct fuel.
  - destruct fuel as [|fuel]; simpl in Hf; [lia|]. cbn [put_fields].
    assert (Hne : get_fields (S fuel) (put_str k (put_scalar v (put_fields l))) =
      ('(k, s) ← get_str (put_str k (put_scalar v (put_fields l)));
       '(v, s) ← get_scalar s; l ← get_fields fuel s; Some ((k, v) :: l))) by (by destruct k).
    rewrite Hne, get_put_str. simpl. simpl in Hv. rewrite get_put_scalar by done. simpl.
    rewrite IH by lia. done.
Qed.

Definition doc_to_string (v : json) : string :=
  match v with
  | JObject m => String "o"%char (put_fields (map_to_list m))
  | v => String "v"%char (put_scalar v EmptyString)
  end.

Definition doc_from_string (s : string) : option json :=
  match s with
  | String "o"%char s => l ← get_fields (String.length s) s; Some (JObject (list_to_map l))
  | String "v"%char s => '(v, rest) ← get_scalar s; if bool_decide (rest = EmptyString) then Some v else None
  | String "{"%char s => read_literal s
  | _ => None
  end.

Lemma length_put_str s rest : (String.length rest < String.length (put_str s rest))%nat.
Proof. induction s; simpl; lia. Qed.

Lemma length_put_scalar v rest : (String.length rest < String.length (put_scalar v rest))%nat.
Proof.
  destruct v as [|[]|[[|p|p]|[|p|p]|x]|s| |]; simpl; try lia;
    match goal with |- context [put_str ?d rest] => pose proof (length_put_str d rest); lia end.
Qed.

Lemma length_put_fields l : (length l <= String.length (put_fields l))%nat.
Proof.
  induction l as [|[k v] l IH]; simpl; [lia|].
  pose proof (length_put_str k (put_scalar v (put_fields l))).
  pose proof (length_put_scalar v (put_fields l)). lia.
Qed.

Lemma doc_roundtrip v : flat v -> doc_from_string (doc_to_string v) = Some v.
Proof.
  intros Hv. destruct v as [| | | | |m]; try done;
    try (unfold doc_from_string, doc_to_string; rewrite get_put_scalar by done; done).
  unfold doc_from_string, doc_to_string. rewrite get_put_fields.
  - simpl. by rewrite list_to_map_to_list.
  - apply list.Forall_forall. intros [k x] Hx%elem_of_map_to_list. by apply (Hv k).
  - apply length_put_fields.
Qed.

Lemma get_scalar_ok s v rest : get_scalar s = Some (v, rest) -> json_ok v.
Proof.
  intros Hs. destruct s as [|c s]; [done|].
  unfold get_scalar in Hs. repeat case_match; simplify_eq/=; try (int_unfold; lia);
    match type of Hs with
    | context [get_number ?f ?s] => destruct (get_number f s) as [[z r]|]
    | context [get_str ?s] => destruct (get_str s) as [[t r]|]
    end; simplify_eq/=; try case_bool_decide; simplify_eq/=; done.
Qed.

Lemma get_fields_ok fuel s l k n :
  get_fields fuel s = Some l -> (k, JNumber n) ∈ l -> number_ok n.
Proof.
  revert s l. induction fuel as [|fuel IH]; intros s l Hl Hk.
  - destruct s; simplify_eq/=. by apply elem_of_nil in Hk.
  - destruct s as [|c s]; simplify_eq/=; [by apply elem_of_nil in Hk|].
    match type of Hl with (?o ≫= _) = _ => destruct o as [[k' s1]|]; simplify_eq/= end.
    destruct (get_scalar s1) as [[v s2]|] eqn:Hv; simplify_eq/=.
    destruct (get_fields fuel s2) as [l'|] eqn:Hl'; simplify_eq/=.
    apply elem_of_cons in Hk as [[= <- <-]|Hk]; [by apply (get_scalar_ok _ _ _ Hv)|by eapply IH].
Qed.

Lemma read_literal_ok s v : read_literal s = Some v -> json_ok v.
Proof.
  unfold read_literal. intros Hs.
  repeat match type of Hs with
  | (?o ≫= _) = _ => destruct o as [?|]; simplify_eq/=
  | (let '(_, _) := ?p in _) = _ => destruct p
  | match ?s with EmptyString => _ | _ => _ end = _ => destruct s; simplify_eq/=
  end.
  intros k n. rewrite !lookup_insert_Some, lookup_empty. int_unfold.
  intros [[_ ?]|[_ [[_ ?]|[_ [[_ [= <-]]|[_ ?]]]]]]; simplify_eq/=; int_unfold; lia.
Qed.

Lemma doc_parsed_ok s v : doc_from_string s = Some v -> json_ok v.
Proof.
  intros Hs. unfold doc_from_string in Hs. destruct s as [|c s]; [done|].
  repeat (case_match; try done); subst; try (by eapply read_literal_ok);
    match type of Hs with
    | context [get_fields ?n ?s] =>
        destruct (get_fields n s) as [l|] eqn:Hl; simplify_eq/=; intros k n' Hk;
        apply elem_of_list_to_map_2 in Hk; by eapply get_fields_ok
    | context [get_scalar ?s] =>
        destruct (get_scalar s) as [[v' r]|] eqn:Hv; simplify_eq/=; case_bool_decide; simplify_eq;
        by eapply get_scalar_ok
    end.
Qed.

#[export, program] Instance concrete_codec : Codec := {|
  b64_encode := concrete_b64;
  b64_decode := concrete_unb64;
  utf8 := string_codes;
  from_utf8 := codes_string;
  json_to_string := doc_to_string;
  json_from_str := doc_from_string;
  hkdf_sha256 k s i := k;
  hmac_sha256 k m := (fun z => z mod 2 ^ 8)%Z <$> (36%Z :: k ++ m)
|}.
Next Obligation. apply concrete_b64_roundtrip. Qed.
Next Obligation. apply concrete_b64_plain. Qed.
Next Obligation. apply string_codes_u8. Qed.
Next Obligation.
  intros k m. apply Forall_fmap, Forall_true. intros z. apply (Z.mod_pos_bound z (2 ^ 8)). done.
Qed.
Next Obligation. done. Qed.
Next Obligation. apply codes_string_codes. Qed.
Next Obligation. apply doc_roundtrip. Qed.
Next Obligation. intros. by apply read_literal_spec. Qed.
Next Obligation. apply doc_parsed_ok. Qed.

(** ** Concrete document text

    The prefix code extended with doubles and one level of nesting: enough for a
    configuration document. *)
Definition put_bool (b : bool) (rest : string) : string :=
  String (if b then "t" else "f")%char rest.

Definition get_bool (s : string) : option (bool * string) :=
  match s with
  | String "t"%char rest => Some (true, rest)
  | String "f"%char rest => Some (false, rest)
  | _ => None
  end.

Definition put_value (v : json) (rest : string) : string :=
  match v with
  | JNumber (Float (S754_zero s)) => String "Z"%char (put_bool s rest)
  | JNumber (Float (S754_finite s m e)) =>
      String "g"%char (put_bool s (put_str (pos_to_string m) (put_scalar (Json.of_i64 e) rest)))
  | JObject m => String "o"%char (put_str (put_fields (map_to_list m)) rest)
  | _ => put_scalar v rest
  end.

Definition get_value (s : string) : option (json * string) :=
  match s with
  | String "Z"%char s => '(b, rest) ← get_bool s; Some (JNumber (Float (S754_zero b)), rest)
  | String "g"%char s =>
      '(b, s) ← get_bool s; '(d, s) ← get_str s; m ← string_to_pos d; '(v, rest) ← get_scalar s;
      e ← Json.as_i64 v; Some (JNumber (Float (S754_finite b m e)), rest)
  | String "o"%char s =>
      '(d, rest) ← get_str s; l ← get_fields (String.length d) d; Some (JObject (list_to_map l), rest)
  | _ => get_scalar s
  end.

Fixpoint put_values (l : list (string * json)) : string :=
  match l with
  | [] => EmptyString
  | (k, v) :: l => put_str k (put_value v (put_values l))
  end.

Fixpoint get_values (fuel : nat) (s : string) : option (list (string * json)) :=
  match s, fuel with
  | EmptyString, _ => Some []
  | _, 0%nat => None
  | _, S fuel =>
      '(k, s) ← get_str s; '(v, s) ← get_value s; l ← get_values fuel s; Some ((k, v) :: l)
  end.

Lemma get_value_finite s v rest : get_value s = Some (v, rest) -> number_finite v.
Proof.
  assert (Hsc : get_scalar s = Some (v, rest) -> number_finite v).
  { intros Hv. apply get_scalar_ok in Hv. by destruct v as [| |[]| | |]. }
  intros Hs. destruct s as [|c s]; [done|]. unfold get_value in Hs.
  repeat (case_match; try done); subst; try (by apply Hsc);
    repeat match type of Hs with
    | (?o ≫= _) = _ => destruct o as [?|]; simplify_eq/=
    | (let '(_, _) := ?p in _) = _ => destruct p; simplify_eq/=
    end; done.
Qed.

Lemma get_values_finite fuel s l k v : get_values fuel s = Some l -> (k, v) ∈ l -> number_finite v.
Proof.
  revert s l. induction fuel as [|fuel IH]; intros s l Hl Hk.
  - destruct s; simplify_eq/=. by apply elem_of_nil in Hk.
  - destruct s as [|c s]; simplify_eq/=; [by apply elem_of_nil in Hk|].
    match type of Hl with (?o ≫= _) = _ => destruct o as [[k' s1]|]; simplify_eq/= end.
    destruct (get_value s1) as [[v' s2]|] eqn:Hv; simplify_eq/=.
    destruct (get_values fuel s2) as [l'|] eqn:Hl'; simplify_eq/=.
    apply elem_of_cons in Hk as [[= <- <-]|Hk]; [by eapply get_value_finite|by eapply IH].
Qed.

Definition document_text (v : json) : string :=
  match v with JObject m => put_values (map_to_list m) | _ => EmptyString end.

Definition document_read (s : string) : option json :=
  l ← get_values (String.length s) s; Some (JObject (list_to_map l)).

Lemma document_finite t m : document_read t = Some (JObject m) -> numbers_finite m.
Proof.
  intros Ht k v Hk. unfold document_read in Ht.
  destruct (get_values _ t) as [l|] eqn:Hl; simplify_eq/=.
  apply elem_of_list_to_map_2 in Hk. by eapply get_values_finite.
Qed.

#[export] Instance concrete_serde : SerdeText :=
  {| to_text := document_text; from_text := document_read; from_text_finite := document_finite |}.
