(* ===== verification/PersistedRateLimit.v ===== *)
(** * The persisted attempt limiter
      ([security/persisted_rate_limit.rs], [security/persisted_rate_limit_actor.rs])

    The first part is the authenticated file format; the second the process-wide
    registry: per id a file path, a key and a cached state.  The registry's mutex
    makes every method one atomic step; a disk write is a task that was handed to the
    blocking pool ([writes]) and completes, or fails, later and in any order. *)
From Stdlib Require Import ZArith Lia.
From stdpp Require Import prelude gmap strings list.
From S2P Require Import Prelude Json RateLimit Codec.

Local Open Scope Z_scope.

Definition SIGNING_KEY_HKDF_INFO : byte_list := string_codes "lfs/persisted-rate-limit/v2".
Definition SIGNING_KEY_HKDF_SALT : byte_list := string_codes "lfs/persisted-rate-limit/salt/v2".

Record PersistedState := mkPersisted {
  p_failure_count : Z;
  next_retry_at_millis : option Z
}.

#[export] Instance PersistedState_eq_dec : EqDecision PersistedState.
Proof. solve_decision. Defined.

Section Format.
Context `{Codec}.

Definition derive_signing_key (gate_hmac : byte_list) : byte_list :=
  hkdf_sha256 gate_hmac SIGNING_KEY_HKDF_SALT SIGNING_KEY_HKDF_INFO.

Definition payload_json (st : PersistedState) : json :=
  JObject (<["next_retry_at_millis" :=
               match next_retry_at_millis st with Some n => Json.of_i64 n | None => JNull end]>
          (<["failure_count" := Json.of_i64 (p_failure_count st)]> ∅)).

Definition encode_state (st : PersistedState) (gate_hmac : byte_list) : byte_list :=
  let signing_key := derive_signing_key gate_hmac in
  let payload_bytes := utf8 (json_to_string (payload_json st)) in
  let hmac := hmac_sha256 signing_key payload_bytes in
  let frame := JObject (<["hmac" := JString (b64_encode hmac)]>
                       (<["payload" := JString (b64_encode payload_bytes)]> ∅)) in
  utf8 (json_to_string frame).

(** The code's result is never [Err]; [None] is its [Ok(None)]. *)
Definition decode_state (bytes gate_hmac : byte_list) : option PersistedState :=
  text ← from_utf8 bytes;
  frame ← json_from_str text;
  obj ← Json.as_object frame;
  payload_b64 ← obj !! "payload" ≫= Json.as_str;
  hmac_b64 ← obj !! "hmac" ≫= Json.as_str;
  payload_bytes ← b64_decode payload_b64;
  claimed ← b64_decode hmac_b64;
  let signing_key := derive_signing_key gate_hmac in
  let expected := hmac_sha256 signing_key payload_bytes in
  if negb (bool_decide (claimed = expected)) then None
  else
    payload_text ← from_utf8 payload_bytes;
    payload ← json_from_str payload_text;
    payload_obj ← Json.as_object payload;
    let failure_count := Json.get_or payload_obj "failure_count" Json.as_i64 0 in
    let next := payload_obj !! "next_retry_at_millis" ≫= Json.as_i64 in
    Some (mkPersisted failure_count next).

(** The range of the Rust fields. *)
Definition persisted_ok (st : PersistedState) : Prop :=
  in_i64 (p_failure_count st) /\ forall n, next_retry_at_millis st = Some n -> in_i64 n.

Lemma flat_pair k1 v1 k2 v2 :
  scalar v1 -> scalar v2 -> flat (JObject (<[k1 := v1]> (<[k2 := v2]> ∅))).
Proof.
  intros H1 H2 k x. rewrite !lookup_insert_Some, lookup_empty.
  intros [[_ <-]|[_ [[_ <-]|[_ ?]]]]; done.
Qed.

Lemma decode_encode st k : persisted_ok st -> decode_state (encode_state st k) k = Some st.
Proof.
  intros [Hc Hn]. unfold decode_state, encode_state.
  rewrite utf8_roundtrip. simpl. rewrite json_roundtrip by (by apply flat_pair). simpl.
  rewrite (lookup_insert_ne _ "hmac" "payload"), !lookup_insert_eq by done. simpl.
  rewrite b64_roundtrip by auto using utf8_bytes, hmac_bytes. simpl.
  rewrite b64_roundtrip by auto using utf8_bytes, hmac_bytes. simpl.
  rewrite bool_decide_eq_true_2 by done. simpl. rewrite utf8_roundtrip. simpl.
  rewrite json_roundtrip.
  - simpl. unfold Json.get_or.
    rewrite (lookup_insert_ne _ "next_retry_at_millis" "failure_count"), !lookup_insert_eq by done.
    simpl. rewrite as_i64_of_i64 by done. simpl.
    destruct st as [c [n|]]; simpl; [|done]. by rewrite as_i64_of_i64 by (by apply Hn).
  - apply flat_pair; [|by apply scalar_of_i64].
    destruct (next_retry_at_millis st) eqn:E; [|done]. apply scalar_of_i64. by apply Hn.
Qed.

(** the file format round-trips and authenticates.  Decoding what was encoded
    under the same gate key gives back the state; and any bytes that decode at all
    carry a payload whose tag is the HMAC of exactly that payload under the key
    derived from the gate's HMAC, so a file written without that key is never read
    as a state. *)
Theorem persisted_state_authentic (st : PersistedState) (k : byte_list) (Hst : persisted_ok st) :
  decode_state (encode_state st k) k = Some st /\
  forall bytes st', decode_state bytes k = Some st' ->
    exists text m payload tag p64 t64,
      from_utf8 bytes = Some text /\ json_from_str text = Some (JObject m) /\
      m !! "payload" = Some (JString p64) /\ m !! "hmac" = Some (JString t64) /\
      b64_decode p64 = Some payload /\ b64_decode t64 = Some tag /\
      tag = hmac_sha256 (derive_signing_key k) payload.
Proof.
  split; [by apply decode_encode|]. intros bytes st' Hd. unfold decode_state in Hd.
  destruct (from_utf8 bytes) as [text|] eqn:E1; [|done]. simpl in Hd.
  destruct (json_from_str text) as [[| | | | |m]|] eqn:E2; try done. simpl in Hd.
  destruct (m !! "payload") as [[| | |p64| |]|] eqn:E3; try done. simpl in Hd.
  destruct (m !! "hmac") as [[| | |t64| |]|] eqn:E4; try done. simpl in Hd.
  destruct (b64_decode p64) as [payload|] eqn:E5; [|done]. simpl in Hd.
  destruct (b64_decode t64) as [tag|] eqn:E6; [|done]. simpl in Hd.
  case_bool_decide as Htag; [|done]. by exists text, m, payload, tag, p64, t64.
Qed.

End Format.

(** ** The registry *)
Record Entry := mkEntry {
  file_path : string;
  hmac_key : byte_list;
  state : option PersistedState;
  loaded : bool;
  pending_write : option nat
}.

(** The registry with the disk and the write tasks in flight: [rt] says whether a
    runtime is reachable, [read_fails] which paths cannot be read. *)
Record world := mkWorld {
  inner : gmap string Entry;
  disk : gmap string byte_list;
  writes : list (nat * (string * byte_list));
  next_task : nat;
  rt : bool;
  read_fails : string -> bool
}.

Module PersistedRateLimiterRegistry.
Section Ops.
Context `{Codec}.

Definition new (d : gmap string byte_list) (runtime : bool) (fails : string -> bool) : world :=
  mkWorld ∅ d [] 0 runtime fails.

Definition snapshot_status (now : Z) (e : Entry) : RateLimitStatus :=
  if negb (loaded e) then {| failure_count := 0; cooldown_remaining_ms := 0 |}
  else
    match state e with
    | None => {| failure_count := 0; cooldown_remaining_ms := 0 |}
    | Some st =>
        {| failure_count := wrap_u32 (Z.max (p_failure_count st) 0);
           cooldown_remaining_ms :=
             match next_retry_at_millis st with
             | Some next => Z.max (wrap_i64 (next - now)) 0
             | None => 0
             end |}
    end.

Definition zero_state : PersistedState := mkPersisted 0 None.

Definition last_slot : Z := Z.of_nat (length BACKOFF_SCHEDULE) - 1.

Definition read_state (now : Z) (path : string) (key : byte_list) (w : world) :
    option PersistedState :=
  let raw := if read_fails w path then None else disk w !! path in
  match raw with
  | None => Some zero_state
  | Some bytes =>
      match decode_state bytes key with
      | Some st => Some st
      | None =>
          let max_secs := default 0 (last BACKOFF_SCHEDULE) in
          Some (mkPersisted last_slot (Some (wrap_i64 (now + max_secs * 1000))))
      end
  end.

(** [write_state_async]: a task on the blocking pool, or an inline write. *)
Definition write_state_async (path : string) (key : byte_list) (st : PersistedState) (w : world) :
    option nat * world :=
  let bytes := encode_state st key in
  if rt w then
    (Some (next_task w),
     mkWorld (inner w) (disk w) (writes w ++ [(next_task w, (path, bytes))]) (S (next_task w))
       (rt w) (read_fails w))
  else
    (None,
     mkWorld (inner w) (<[path := bytes]> (disk w)) (writes w) (next_task w) (rt w) (read_fails w)).

Definition set_entry (id : string) (e : Entry) (w : world) : world :=
  mkWorld (<[id := e]> (inner w)) (disk w) (writes w) (next_task w) (rt w) (read_fails w).

Definition init_or_get (now : Z) (id path : string) (key : byte_list) (w : world) :
    RateLimitStatus * world :=
  let entry := default (mkEntry path key None false None) (inner w !! id) in
  let entry :=
    if negb (bool_decide (file_path entry = path)) || negb (bool_decide (hmac_key entry = key)) then
      mkEntry path key None false (pending_write entry)
    else entry in
  let entry :=
    if negb (loaded entry) then
      mkEntry (file_path entry) (hmac_key entry)
        (read_state now (file_path entry) (hmac_key entry) w) true (pending_write entry)
    else entry in
  (snapshot_status now entry, set_entry id entry w).

Definition status (now : Z) (id : string) (w : world) : RateLimitStatus :=
  match inner w !! id with
  | Some e => snapshot_status now e
  | None => {| failure_count := 0; cooldown_remaining_ms := 0 |}
  end.

(** [BACKOFF_SCHEDULE.get(next_count as usize).unwrap_or(0)] *)
Definition schedule_at (n : Z) : Z :=
  if n <? 0 then 0 else default 0 (BACKOFF_SCHEDULE !! Z.to_nat n).

Definition next_failure (now : Z) (current : PersistedState) : PersistedState :=
  let next_count := Z.min (wrap_i64 (p_failure_count current + 1)) last_slot in
  let secs := schedule_at next_count in
  let candidate := if secs =? 0 then None else Some (wrap_i64 (now + secs * 1000)) in
  let next :=
    match candidate, next_retry_at_millis current with
    | Some new, Some prev => Some (Z.max new prev)
    | Some new, None => Some new
    | None, prev => prev
    end in
  mkPersisted next_count next.

Definition record_failure (now : Z) (id : string) (w : world) : RateLimitStatus * world :=
  match inner w !! id with
  | None => ({| failure_count := 0; cooldown_remaining_ms := 0 |}, w)
  | Some e =>
      let st := next_failure now (default zero_state (state e)) in
      let '(task, w1) := write_state_async (file_path e) (hmac_key e) st w in
      let e' := mkEntry (file_path e) (hmac_key e) (Some st) true task in
      (snapshot_status now e', set_entry id e' w1)
  end.

Definition record_success (id : string) (w : world) : world :=
  match inner w !! id with
  | None => w
  | Some e =>
      let '(task, w1) := write_state_async (file_path e) (hmac_key e) zero_state w in
      set_entry id (mkEntry (file_path e) (hmac_key e) (Some zero_state) true task) w1
  end.

Definition take_pending_write (id : string) (w : world) : option nat * world :=
  match inner w !! id with
  | None => (None, w)
  | Some e =>
      (pending_write e, set_entry id (mkEntry (file_path e) (hmac_key e) (state e) (loaded e) None) w)
  end.

Definition clear (id : string) (w : world) : world :=
  match inner w !! id with
  | None => w
  | Some e =>
      mkWorld (delete id (inner w)) (delete (file_path e) (disk w)) (writes w) (next_task w) (rt w)
        (read_fails w)
  end.

(** The [n]-th task in flight runs: [write_state_sync], whose error is dropped. *)
Definition write_done (n : nat) (ok : bool) (w : world) : world :=
  match writes w !! n with
  | None => w
  | Some (_, (path, bytes)) =>
      mkWorld (inner w) (if ok then <[path := bytes]> (disk w) else disk w)
        (delete n (writes w)) (next_task w) (rt w) (read_fails w)
  end.

(** The process ends; the next one starts from the disk. *)
Definition restart (w : world) : world :=
  mkWorld ∅ (disk w) [] 0 (rt w) (read_fails w).

End Ops.
End PersistedRateLimiterRegistry.

(** ** Histories *)
Inductive prl_op :=
| InitOrGet (now : Z) (id path : string) (key : byte_list)
| Status (now : Z) (id : string)
| RecordFailure (now : Z) (id : string)
| RecordSuccess (id : string)
| TakePending (id : string)
| Clear (id : string)
| WriteDone (n : nat) (ok : bool)
| Restart.

Section Laws.
Context `{Codec}.
Import PersistedRateLimiterRegistry.

Definition prl_step (w : world) (o : prl_op) : world :=
  match o with
  | InitOrGet now id path key => (init_or_get now id path key w).2
  | Status _ _ => w
  | RecordFailure now id => (record_failure now id w).2
  | RecordSuccess id => record_success id w
  | TakePending id => (take_pending_write id w).2
  | Clear id => clear id w
  | WriteDone n ok => write_done n ok w
  | Restart => restart w
  end.

Definition prl_run (w : world) (os : list prl_op) : world := foldl prl_step w os.

Lemma write_async_inner path key st w : inner (write_state_async path key st w).2 = inner w.
Proof. unfold write_state_async. by destruct (rt w). Qed.

(** ** The cooldown floor *)

(** The calls that may lower a limiter on purpose: a success, a wipe, a new process,
    or registering the id under another file or key. *)
Definition lowers (id : string) (e : Entry) (o : prl_op) : bool :=
  match o with
  | InitOrGet _ id' path key =>
      bool_decide (id' = id) &&
        negb (bool_decide (path = file_path e) && bool_decide (key = hmac_key e))
  | RecordSuccess id' | Clear id' => bool_decide (id' = id)
  | Restart => true
  | _ => false
  end.

Definition floor (st st' : PersistedState) : Prop :=
  (forall d, next_retry_at_millis st = Some d ->
     exists d', next_retry_at_millis st' = Some d' /\ d <= d') /\
  (0 <= p_failure_count st <= last_slot -> p_failure_count st <= p_failure_count st' <= last_slot).

Lemma floor_refl st : floor st st.
Proof. split; [|lia]. intros d Hd. exists d. split; [done|lia]. Qed.

Lemma floor_trans st1 st2 st3 : floor st1 st2 -> floor st2 st3 -> floor st1 st3.
Proof.
  intros [H1 H2] [H3 H4]. split; [|lia].
  intros d Hd. destruct (H1 d Hd) as (d2 & Hd2 & ?). destruct (H3 d2 Hd2) as (d3 & ? & ?).
  exists d3. split; [done|lia].
Qed.

#[export] Instance floor_preorder : PreOrder floor.
Proof. split; [exact floor_refl|exact floor_trans]. Qed.

Lemma next_failure_floor now st : floor st (next_failure now st).
Proof.
  unfold next_failure. split; simpl.
  - intros d ->. case_match; eexists; (split; [done|lia]).
  - unfold last_slot. simpl. intros. rewrite wrap_i64_id by (int_unfold; lia). lia.
Qed.

(** The entry of [id] after one more call. *)
Lemma entry_floor w id e st o :
  inner w !! id = Some e -> state e = Some st -> loaded e = true -> lowers id e o = false ->
  exists e' st', inner (prl_step w o) !! id = Some e' /\ state e' = Some st' /\
    loaded e' = true /\ file_path e' = file_path e /\ hmac_key e' = hmac_key e /\ floor st st'.
Proof.
  intros He Hst Hld Hlow.
  assert (Hsame : forall m : gmap string Entry, m !! id = Some e ->
    exists e' st', m !! id = Some e' /\ state e' = Some st' /\
      loaded e' = true /\ file_path e' = file_path e /\ hmac_key e' = hmac_key e /\ floor st st').
  { intros m Hm. exists e, st. repeat (split; [done|]); apply floor_refl. }
  destruct o as [now id' path key|now id'|now id'|id'|id'|id'|n ok|]; simpl in *.
  - unfold init_or_get; simpl. destruct (decide (id' = id)) as [->|Hne].
    + rewrite bool_decide_eq_true_2 in Hlow by done. simpl in Hlow.
      apply negb_false_iff, andb_true_iff in Hlow as [Hp Hk].
      apply bool_decide_eq_true in Hp as ->. apply bool_decide_eq_true in Hk as ->.
      rewrite He. simpl. rewrite !bool_decide_eq_true_2 by done. simpl. rewrite Hld. simpl.
      apply Hsame. simpl. by rewrite lookup_insert_eq.
    + apply Hsame. simpl. by rewrite lookup_insert_ne.
  - by apply Hsame.
  - unfold record_failure. destruct (decide (id' = id)) as [->|Hne].
    + rewrite He, Hst. simpl. destruct (write_state_async _ _ _ w) as [task w1] eqn:Hw.
      simpl. rewrite lookup_insert_eq.
      eexists _, _. split; [done|]. simpl. repeat (split; [done|]). apply next_failure_floor.
    + destruct (inner w !! id') as [e1|]; [|by apply Hsame].
      pose proof (write_async_inner (file_path e1) (hmac_key e1)
        (next_failure now (default zero_state (state e1))) w) as Hi.
      destruct (write_state_async _ _ _ w) as [task w1]. simpl in *.
      apply Hsame. simpl. by rewrite Hi, lookup_insert_ne.
  - unfold record_success. case_bool_decide as Hne; [done|].
    destruct (inner w !! id') as [e1|]; [|by apply Hsame].
    pose proof (write_async_inner (file_path e1) (hmac_key e1) zero_state w) as Hi.
    destruct (write_state_async _ _ _ w) as [task w1]. simpl in *.
    apply Hsame. simpl. by rewrite Hi, lookup_insert_ne.
  - unfold take_pending_write. destruct (inner w !! id') as [e1|] eqn:He1; [|by apply Hsame].
    simpl. destruct (decide (id' = id)) as [->|Hne].
    + rewrite lookup_insert_eq. replace e1 with e by congruence.
      eexists _, st. split; [done|]. simpl. repeat (split; [done|]). apply floor_refl.
    + apply Hsame. simpl. by rewrite lookup_insert_ne.
  - unfold clear. case_bool_decide as Hne; [done|].
    destruct (inner w !! id'); apply Hsame; simpl; [by rewrite lookup_delete_ne|done].
  - unfold write_done. destruct (writes w !! n) as [[? [? ?]]|]; by apply Hsame.
  - done.
Qed.

(** C37. A cooldown, once issued, is never shortened.  Let a limiter be registered and loaded.
    Whatever happens next - further failures at any clock readings, the clock set backwards
    between them, status calls, a registration under the same file and key, the traffic of other
    limiters, writes completing or failing in any order - but not a success, a clear of the id, a
    new process or a registration of the id under another file or key, its deadline never moves
    earlier, and a failure count within the backoff schedule (at most [last_slot]) never drops. *)
Theorem cooldown_never_shortened (w : world) (id : string) (e : Entry) (st : PersistedState)
    (os : list prl_op)
    (He : inner w !! id = Some e) (Hst : state e = Some st) (Hld : loaded e = true)
    (Hos : forallb (fun o => negb (lowers id e o)) os = true) :
  exists e' st', inner (prl_run w os) !! id = Some e' /\ state e' = Some st' /\
    (forall d, next_retry_at_millis st = Some d ->
       exists d', next_retry_at_millis st' = Some d' /\ d <= d') /\
    (0 <= p_failure_count st <= last_slot ->
       p_failure_count st <= p_failure_count st' <= last_slot).
Proof.
  assert (Hgen : forall w e1 st1, inner w !! id = Some e1 -> state e1 = Some st1 ->
    loaded e1 = true -> file_path e1 = file_path e -> hmac_key e1 = hmac_key e ->
    exists e' st', inner (prl_run w os) !! id = Some e' /\ state e' = Some st' /\ floor st1 st').
  { clear w He st Hst Hld. induction os as [|o os IH]; intros w e1 st1 He Hs Hl Hp Hk.
    - exists e1, st1. repeat (split; [done|]); apply floor_refl.
    - simpl in Hos. apply andb_true_iff in Hos as [Ho Hos]. apply negb_true_iff in Ho.
      assert (Ho1 : lowers id e1 o = false) by (destruct o; simpl in *; by rewrite ?Hp, ?Hk).
      destruct (entry_floor w id e1 st1 o He Hs Hl Ho1) as (e2 & st2 & He2 & Hs2 & Hl2 & Hp2 & Hk2 & Hf).
      destruct (IH Hos (prl_step w o) e2 st2) as (e' & st' & ? & ? & Hf'); try congruence.
      exists e', st'. repeat (split; [done|]). by apply (floor_trans _ _ _ Hf Hf'). }
  destruct (Hgen w e st) as (e' & st' & ? & ? & Hf & Hc); try done. by exists e', st'.
Qed.

(** ** Restarting *)

(** The disk once the writes in flight have landed, oldest first. *)
Definition landed (w : world) : gmap string byte_list :=
  foldl (fun d t => <[t.2.1 := t.2.2]> d) (disk w) (writes w).

(** The file on its way to the disk says what the cache says. *)
Definition synced (id path : string) (key : byte_list) (w : world) : Prop :=
  exists st task, inner w !! id = Some (mkEntry path key (Some st) true task) /\
    persisted_ok st /\ landed w !! path = Some (encode_state st key).

Definition settle (w : world) : world :=
  prl_run w (replicate (length (writes w)) (WriteDone 0 true)).

Lemma landed_write_done w : landed (write_done 0 true w) = landed w.
Proof. unfold landed, write_done. destruct (writes w) as [|[? [? ?]] ws] eqn:E; simpl; by rewrite ?E. Qed.

Lemma settle_spec w : writes (settle w) = [] /\ disk (settle w) = landed w /\
  inner (settle w) = inner w /\ rt (settle w) = rt w /\ read_fails (settle w) = read_fails w.
Proof.
  unfold settle. remember (length (writes w)) as n eqn:Hn. revert w Hn.
  induction n as [|n IH]; intros w Hn.
  - simpl. unfold landed. destruct (writes w); [done|]. simpl in Hn. lia.
  - simpl. destruct (IH (write_done 0 true w)) as (H1 & H2 & H3 & H4 & H5).
    { unfold write_done. destruct (writes w) as [|[? [? ?]] ws]; simpl in *; lia. }
    rewrite landed_write_done in H2.
    assert (inner (write_done 0 true w) = inner w /\ rt (write_done 0 true w) = rt w /\
      read_fails (write_done 0 true w) = read_fails w) as (H6 & H7 & H8)
      by (unfold write_done; destruct (writes w) as [|[? [? ?]] ws]; done).
    unfold prl_run in *. rewrite H1, H2, H3, H4, H5, H6, H7, H8. done.
Qed.

Lemma write_async_landed path key st w :
  (rt w = false -> writes w = []) ->
  landed (write_state_async path key st w).2 = <[path := encode_state st key]> (landed w).
Proof.
  intros Hrt. unfold write_state_async, landed. destruct (rt w); simpl.
  - by rewrite foldl_app.
  - by rewrite Hrt.
Qed.

Lemma next_failure_ok now st : persisted_ok st -> persisted_ok (next_failure now st).
Proof.
  intros [Hc Hn]. unfold next_failure. split; simpl.
  - pose proof (wrap_i64_range (p_failure_count st + 1)). unfold last_slot. int_unfold. simpl. lia.
  - intros n. pose proof (wrap_i64_range (now +
      schedule_at (Z.min (wrap_i64 (p_failure_count st + 1)) last_slot) * 1000)) as Hw.
    destruct (_ =? 0); [apply Hn|].
    destruct (next_retry_at_millis st) as [p|] eqn:Hp; intros [= <-]; [|done].
    specialize (Hn p eq_refl). int_unfold. lia.
Qed.

Lemma as_i64_field m k n : json_ok (JObject m) -> (m !! k ≫= Json.as_i64) = Some n -> in_i64 n.
Proof.
  intros Hm Hk. destruct (m !! k) as [v|] eqn:Hv; [|done]. simpl in Hk.
  apply (as_i64_range v); [|done].
  assert (Hnum : exists x, v = JNumber x) by (destruct v; try done; eauto).
  destruct Hnum as [x ->]. simpl. by eapply Hm.
Qed.

Lemma decode_state_ok b k st : decode_state b k = Some st -> persisted_ok st.
Proof.
  unfold decode_state. intros Hd.
  destruct (from_utf8 b) as [t|]; [|done]. simpl in Hd.
  destruct (json_from_str t) as [f|]; [|done]. simpl in Hd.
  destruct (Json.as_object f) as [obj|]; [|done]. simpl in Hd.
  destruct (obj !! "payload" ≫= Json.as_str) as [p64|]; [|done]. simpl in Hd.
  destruct (obj !! "hmac" ≫= Json.as_str) as [t64|]; [|done]. simpl in Hd.
  destruct (b64_decode p64) as [pb|]; [|done]. simpl in Hd.
  destruct (b64_decode t64) as [tag|]; [|done]. simpl in Hd.
  destruct (negb _); [done|].
  destruct (from_utf8 pb) as [pt|]; [|done]. simpl in Hd.
  destruct (json_from_str pt) as [v|] eqn:Hv; [|done]. simpl in Hd.
  apply json_parsed_ok in Hv. destruct v as [| | | | |m]; simplify_eq/=.
  split; simpl.
  - unfold Json.get_or. destruct (m !! "failure_count" ≫= Json.as_i64) eqn:E; simpl;
      [by eapply as_i64_field|int_unfold; lia].
  - intros n Hn. by eapply as_i64_field.
Qed.

Lemma read_state_ok now path key w st : read_state now path key w = Some st -> persisted_ok st.
Proof.
  unfold read_state. intros Hr. destruct (if read_fails w path then None else disk w !! path) as [b|].
  - destruct (decode_state b key) as [st'|] eqn:Hd; injection Hr as <-; [by eapply decode_state_ok|].
    split; simpl; [int_unfold; unfold last_slot; simpl; lia|]. intros n [= <-]. apply wrap_i64_range.
  - injection Hr as <-. split; simpl; [int_unfold; lia|done].
Qed.

Definition writes_ok (w : world) : Prop := rt w = false -> writes w = [].

(** The traffic of one limiter, its writes landing in order. *)
Definition own_traffic (id : string) (o : prl_op) : bool :=
  match o with
  | RecordFailure _ id' | RecordSuccess id' | Status _ id' | TakePending id' => bool_decide (id' = id)
  | WriteDone n ok => (n =? 0)%nat && ok
  | _ => false
  end.

(** A recorded attempt leaves cache and disk-to-be in agreement, whatever was there. *)
Lemma record_synced id path key st w :
  writes_ok w -> persisted_ok st ->
  let '(task, w1) := write_state_async path key st w in
  let w' := set_entry id (mkEntry path key (Some st) true task) w1 in
  synced id path key w' /\ writes_ok w' /\ read_fails w' = read_fails w.
Proof.
  intros Hw Hst. pose proof (write_async_landed path key st w Hw) as Hl.
  unfold write_state_async in *. destruct (rt w) eqn:Hrt; simpl in *; (split; [|split; [|done]]).
  - eexists st, _. simpl. rewrite lookup_insert_eq. repeat (split; [done|]).
    unfold landed in *; simpl in *. rewrite Hl. apply lookup_insert_eq.
  - intros Hx. simpl in Hx. congruence.
  - eexists st, _. simpl. rewrite lookup_insert_eq. repeat (split; [done|]).
    unfold landed in *; simpl in *. rewrite Hl. apply lookup_insert_eq.
  - intros _. by apply Hw.
Qed.

Lemma zero_state_ok : persisted_ok zero_state.
Proof. split; simpl; [int_unfold; lia|done]. Qed.

Lemma own_traffic_synced id path key o w :
  own_traffic id o = true -> synced id path key w -> writes_ok w ->
  synced id path key (prl_step w o) /\ writes_ok (prl_step w o) /\
  read_fails (prl_step w o) = read_fails w.
Proof.
  intros Ho Hsy Hw. pose proof Hsy as (st & task & He & Hok & Hd).
  destruct o as [| |now id'|id'|id'| |n ok|]; simpl in Ho; try done.
  - apply bool_decide_eq_true in Ho as ->. simpl. unfold record_failure. rewrite He. simpl.
    pose proof (record_synced id path key _ w Hw (next_failure_ok now st Hok)) as Hr.
    by destruct (write_state_async _ _ _ w).
  - apply bool_decide_eq_true in Ho as ->. simpl. unfold record_success. rewrite He. simpl.
    pose proof (record_synced id path key _ w Hw zero_state_ok) as Hr.
    by destruct (write_state_async _ _ _ w).
  - apply bool_decide_eq_true in Ho as ->. simpl. unfold take_pending_write. rewrite He. simpl.
    split; [|done]. eexists st, _. simpl. rewrite lookup_insert_eq. done.
  - apply andb_true_iff in Ho as [Hn ->]. apply Nat.eqb_eq in Hn as ->. simpl.
    split; [|split].
    + exists st, task. rewrite landed_write_done. unfold write_done.
      destruct (writes w) as [|[? [? ?]] ws]; done.
    + unfold writes_ok, write_done. destruct (writes w) as [|[? [? ?]] ws] eqn:E; simpl; [done|].
      intros Hrt. specialize (Hw Hrt). congruence.
    + unfold write_done. by destruct (writes w) as [|[? [? ?]] ws].
Qed.

Lemma traffic_synced id path key os w :
  forallb (own_traffic id) os = true -> synced id path key w -> writes_ok w ->
  synced id path key (prl_run w os) /\ read_fails (prl_run w os) = read_fails w.
Proof.
  revert w. induction os as [|o os IH]; intros w Hos Hs Hw; [done|].
  simpl in Hos. apply andb_true_iff in Hos as [Ho Hos].
  destruct (own_traffic_synced id path key o w Ho Hs Hw) as (Hs1 & Hw1 & Hr1).
  destruct (IH _ Hos Hs1 Hw1) as (? & Hr). split; [done|]. simpl. by rewrite Hr.
Qed.

(** A new process that registers the id again reads what the old one knew. *)
Lemma restart_synced id path key w now :
  synced id path key w -> read_fails w path = false ->
  (init_or_get now id path key (restart (settle w))).1 = status now id w.
Proof.
  intros (st & task & He & Hok & Hd) Hf.
  destruct (settle_spec w) as (H1 & H2 & H3 & H4 & H5).
  unfold init_or_get, status. simpl. rewrite lookup_empty. simpl.
  rewrite !bool_decide_eq_true_2 by done. simpl. rewrite He.
  unfold read_state. simpl. by rewrite H5, Hf, H2, Hd, decode_encode by done.
Qed.

(** Registering an unknown id caches a state within the Rust ranges. *)
Lemma init_new now id path key w :
  inner w !! id = None ->
  exists st, persisted_ok st /\
    (init_or_get now id path key w).2 = set_entry id (mkEntry path key (Some st) true None) w.
Proof.
  intros Hn. unfold init_or_get. rewrite Hn. simpl. rewrite !bool_decide_eq_true_2 by done. simpl.
  destruct (read_state now path key w) as [st|] eqn:Hr.
  - exists st. split; [by eapply read_state_ok|done].
  - exfalso. unfold read_state in Hr. repeat case_match; done.
Qed.

End Laws.

(** the counter survives a restart.  A limiter is registered on any disk; a first
    failure and then any of its own traffic follows (more failures, successes, status
    calls), its writes landing in order at any moments.  Once the pending writes have
    landed, a new process that registers the limiter again reports exactly the
    failure count and remaining cooldown the old process would have reported: killing
    the application buys no extra guess. *)
Theorem restart_keeps_cooldown `{Codec} (w : world) (id path : string) (key : byte_list)
    (now0 t now : Z) (os : list prl_op)
    (Hw : writes_ok w) (Hf : read_fails w path = false) (Hnew : inner w !! id = None)
    (Hos : forallb (own_traffic id) os = true) :
  let w1 := (PersistedRateLimiterRegistry.init_or_get now0 id path key w).2 in
  let w2 := prl_run w1 (RecordFailure t id :: os) in
  (PersistedRateLimiterRegistry.init_or_get now id path key
     (PersistedRateLimiterRegistry.restart (settle w2))).1
  = PersistedRateLimiterRegistry.status now id w2.
Proof.
  intros w1 w2. destruct (init_new now0 id path key w Hnew) as (st & Hok & Hw1).
  assert (Hsy : synced id path key (prl_step w1 (RecordFailure t id)) /\
    writes_ok (prl_step w1 (RecordFailure t id)) /\
    read_fails (prl_step w1 (RecordFailure t id)) = read_fails w1).
  { subst w1. rewrite Hw1. simpl. unfold PersistedRateLimiterRegistry.record_failure. simpl.
    rewrite lookup_insert_eq. simpl.
    pose proof (record_synced id path key _
      (PersistedRateLimiterRegistry.set_entry id (mkEntry path key (Some st) true None) w) Hw
      (next_failure_ok t st Hok)) as Hr.
    by destruct (PersistedRateLimiterRegistry.write_state_async _ _ _ _). }
  destruct Hsy as (Hs & Hwo & Hr).
  destruct (traffic_synced id path key os _ Hos Hs Hwo) as [Hs2 Hr2].
  apply restart_synced; [exact Hs2|].
  transitivity (read_fails w1 path); [|subst w1; by rewrite Hw1].
  by rewrite <-Hr, <-Hr2.
Qed.

(** ** Witnesses *)
Definition demo : world := PersistedRateLimiterRegistry.new ∅ true (fun _ => false).

Lemma persisted_state_authentic_witness :
  let st := mkPersisted 3 (Some 1700000000000) in
  decode_state (encode_state st [7; 7]) [7; 7] = Some st /\ decode_state (encode_state st [7; 7]) [7; 8] = None.
Proof.
  split; [|vm_compute; reflexivity].
  apply (persisted_state_authentic (mkPersisted 3 (Some 1700000000000)) [7; 7]).
  split; [vm_compute; split; congruence|]. intros n [= <-]. vm_compute. split; congruence.
Defined.

Lemma cooldown_never_shortened_witness :
  let e := mkEntry "f" [1] (Some (mkPersisted 2 (Some 5000))) true None in
  let w := PersistedRateLimiterRegistry.set_entry "l" e demo in
  exists e' st', inner (prl_run w [RecordFailure 0 "l"; Status 0 "l"; WriteDone 0 true]) !! "l" = Some e' /\
    state e' = Some st' /\
    (forall d, Some 5000 = Some d -> exists d', next_retry_at_millis st' = Some d' /\ d <= d') /\
    (0 <= 2 <= PersistedRateLimiterRegistry.last_slot ->
       2 <= p_failure_count st' <= PersistedRateLimiterRegistry.last_slot).
Proof.
  apply (cooldown_never_shortened _ "l" (mkEntry "f" [1] (Some (mkPersisted 2 (Some 5000))) true None)
    (mkPersisted 2 (Some 5000))); reflexivity.
Defined.

Lemma restart_keeps_cooldown_witness :
  (PersistedRateLimiterRegistry.init_or_get 2500 "l" "f" [1]
    (PersistedRateLimiterRegistry.restart (settle (prl_run
      (PersistedRateLimiterRegistry.init_or_get 0 "l" "f" [1] demo).2
      [RecordFailure 1000 "l"; RecordFailure 2000 "l"; WriteDone 0 true])))).1
  = {| failure_count := 2; cooldown_remaining_ms := 1500 |}.
Proof.
  etransitivity; [apply (restart_keeps_cooldown demo "l" "f" [1] 0 1000 2500
    [RecordFailure 2000 "l"; WriteDone 0 true]); [discriminate|reflexivity|reflexivity|reflexivity]|].
  vm_compute. reflexivity.
Defined.

(** Nothing orders two writes in flight: when the older one lands last, the next
    process starts from the older count. *)
Example overtaken_write_lowers_counter :
  let w := prl_run (PersistedRateLimiterRegistry.init_or_get 0 "l" "f" [1] demo).2
    [RecordFailure 1000 "l"; RecordFailure 2000 "l"; WriteDone 1 true; WriteDone 0 true] in
  failure_count (PersistedRateLimiterRegistry.status 2500 "l" w) = 2 /\
  failure_count (PersistedRateLimiterRegistry.init_or_get 2500 "l" "f" [1]
    (PersistedRateLimiterRegistry.restart w)).1 = 1.
Proof. vm_compute. split; reflexivity. Qed.
