(* ===== verification/Gate.v ===== *)
(** * The keychain password gate
      ([security/keychain_password_gate.rs], [security/keychain_password_gate_actor.rs])

    The envelope [{salt, hmac}] on disk, the pepper in the keychain, and the
    commands over both.  The random salt and pepper are arguments of
    [set_password]; an error message is a constructor that names the failed step. *)
From Stdlib Require Import ZArith Lia.
From stdpp Require Import prelude gmap strings list.
From S2P Require Import Prelude Json RateLimit Prog AtomicFile Codec PersistedRateLimit.

Local Open Scope prog_scope.

Definition SALT_LENGTH : nat := 32.
Definition PEPPER_LENGTH : nat := 32.
Definition DISK_BLOB_VERSION : Z := 1.

Definition PEPPER_KEY : string := "letsflutssh_l2_pepper".
Definition RATE_LIMIT_STATE_FILE : string := "rate_limit_state.bin".
Definition HASH_FILE_NAME : string := "security_pass_hash.bin".

(** [support_dir.join(name)] *)
Definition join (dir name : string) : string := (dir ++ "/" ++ name)%string.

Record DiskBlob := mkBlob { blob_salt : byte_list; blob_hmac : byte_list }.

Inductive BlobError :=
| ParseJson
| NotAnObject
| UnsupportedVersion (v : Z)
| MissingSalt
| MissingHmac
| SaltDecode
| HmacDecode
| EmptySaltOrHmac.

Inductive GateError :=
| VerifyRead
| ReadBlob
| CreateSupportDir
| AtomicWrite
| KeychainWrite (rolled_back : bool)
| ClearFailed (disk keychain : bool).

Section Gate.
Context `{Codec}.

Definition compute_gate_hmac (pepper salt password : byte_list) : byte_list :=
  hmac_sha256 pepper (salt ++ password).

(** The hand-built literal; its [v] is [DISK_BLOB_VERSION]. *)
Definition encode_disk_blob (salt hmac : byte_list) : string :=
  "{" ++ quoted "v" ++ ":1," ++ quoted "salt" ++ ":" ++ quoted (b64_encode salt) ++ "," ++
  quoted "hmac" ++ ":" ++ quoted (b64_encode hmac) ++ "}".

Definition is_empty (b : byte_list) : bool := match b with [] => true | _ => false end.

Definition decode_disk_blob (blob : string) : BlobError + DiskBlob :=
  match json_from_str blob with
  | None => inl ParseJson
  | Some value =>
  match Json.as_object value with
  | None => inl NotAnObject
  | Some obj =>
  let rest :=
    match obj !! "salt" ≫= Json.as_str with
    | None => inl MissingSalt
    | Some salt_b64 =>
    match obj !! "hmac" ≫= Json.as_str with
    | None => inl MissingHmac
    | Some hmac_b64 =>
    match b64_decode salt_b64 with
    | None => inl SaltDecode
    | Some salt =>
    match b64_decode hmac_b64 with
    | None => inl HmacDecode
    | Some hmac => if is_empty salt || is_empty hmac then inl EmptySaltOrHmac else inr (mkBlob salt hmac)
    end end end end in
  match obj !! "v" ≫= Json.as_u64 with
  | Some v => if negb (v =? DISK_BLOB_VERSION)%Z then inl (UnsupportedVersion v) else rest
  | None => rest
  end
  end end.

(** [verify_password]: the error is reserved for a read failure other than a missing
    file; every other miss is [false]. *)
Definition verify_password (dir : string) (password : byte_list) : prog Os (GateError + bool) :=
  let! raw := call (Os.read_file (join dir HASH_FILE_NAME)) in
  match raw with
  | inl NotFound => Ret (inr false)
  | inl OtherError => Ret (inl VerifyRead)
  | inr bytes =>
  match from_utf8 bytes with
  | None => Ret (inr false)
  | Some blob_str =>
  match decode_disk_blob blob_str with
  | inl _ => Ret (inr false)
  | inr decoded =>
      let! pepper := call (Os.keychain_read PEPPER_KEY) in
      match pepper with
      | inr (Some pepper) =>
          if is_empty pepper then Ret (inr false)
          else Ret (inr (bool_decide
                 (compute_gate_hmac pepper (blob_salt decoded) password = blob_hmac decoded)))
      | _ => Ret (inr false)
      end
  end end end.

Definition is_configured (dir : string) : prog Os bool :=
  let! e := call (Os.exists_ (join dir HASH_FILE_NAME)) in
  if negb e then Ret false
  else
    let! pepper := call (Os.keychain_read PEPPER_KEY) in
    match pepper with
    | inr (Some bytes) => Ret (negb (is_empty bytes))
    | _ => Ret false
    end.

Definition read_decoded_blob (dir : string) : prog Os (GateError + option DiskBlob) :=
  let! raw := call (Os.read_file (join dir HASH_FILE_NAME)) in
  match raw with
  | inl NotFound => Ret (inr None)
  | inl OtherError => Ret (inl ReadBlob)
  | inr bytes =>
      match from_utf8 bytes with
      | None => Ret (inr None)
      | Some s => Ret (inr (match decode_disk_blob s with inr b => Some b | inl _ => None end))
      end
  end.

Definition set_password (dir : string) (password salt pepper : byte_list) :
    prog Os (GateError + unit) :=
  let hmac := compute_gate_hmac pepper salt password in
  let blob := encode_disk_blob salt hmac in
  let hash_path := join dir HASH_FILE_NAME in
  let! d := call Os.create_dir_all in
  match d with
  | inl _ => Ret (inl CreateSupportDir)
  | inr _ =>
  let! wr := write_bytes_atomic hash_path (utf8 blob) in
  match wr with
  | inl _ => Ret (inl AtomicWrite)
  | inr _ =>
  let! kw := call (Os.keychain_write PEPPER_KEY pepper) in
  match kw with
  | inl _ =>
      let! rb := call (Os.remove_file hash_path) in
      match rb with
      | inl _ => Ret (inl (KeychainWrite false))
      | inr _ => Ret (inl (KeychainWrite true))
      end
  | inr _ =>
      let! _ := call (Os.remove_file (join dir RATE_LIMIT_STATE_FILE)) in
      Ret (inr ())
  end end end.

Definition clear (dir : string) : prog Os (GateError + unit) :=
  let! d := call (Os.remove_file (join dir HASH_FILE_NAME)) in
  let disk_err := match d with inl OtherError => true | _ => false end in
  let! k := call (Os.keychain_delete PEPPER_KEY) in
  let key_err := match k with inl _ => true | inr _ => false end in
  Ret (if disk_err || key_err then inl (ClearFailed disk_err key_err) else inr ()).

(** The limiter's registry shares the support directory's files. *)
Definition with_disk (d : gmap string byte_list) (w : world) : world :=
  mkWorld (inner w) d (writes w) (next_task w) (rt w) (read_fails w).

Definition on_os {A} (f : Os -> A * Os) (ow : Os * world) : A * (Os * world) :=
  let '(a, o') := f ow.1 in (a, (o', ow.2)).

Fixpoint lift_os {A} (p : prog Os A) : prog (Os * world) A :=
  match p with
  | Ret a => Ret a
  | Step f k => Step (on_os f) (fun b => lift_os (k b))
  end.

(** [id] is the fresh random id, [now] the limiter's clock. *)
Definition build_persisted_rate_limiter (dir id : string) (now : Z) :
    prog (Os * world) (GateError + option string) :=
  let! decoded := lift_os (read_decoded_blob dir) in
  match decoded with
  | inl e => Ret (inl e)
  | inr None => Ret (inr None)
  | inr (Some b) =>
      let! d := call (on_os Os.create_dir_all) in
      match d with
      | inl _ => Ret (inl CreateSupportDir)
      | inr _ =>
          let! _ := call (fun ow : Os * world =>
            (tt, (ow.1, (PersistedRateLimiterRegistry.init_or_get now id
               (join dir RATE_LIMIT_STATE_FILE) (blob_hmac b) (with_disk (files ow.1) ow.2)).2))) in
          Ret (inr (Some id))
      end
  end.

(** ** Laws *)
Lemma blob_roundtrip salt hmac :
  bytes_ok salt -> bytes_ok hmac -> salt <> [] -> hmac <> [] ->
  decode_disk_blob (encode_disk_blob salt hmac) = inr (mkBlob salt hmac).
Proof.
  intros Hs Hh Hs0 Hh0. unfold decode_disk_blob, encode_disk_blob.
  rewrite json_literal by (try done; apply b64_plain). simpl.
  rewrite (lookup_insert_ne _ "hmac" "v"), (lookup_insert_ne _ "salt" "v"),
    (lookup_insert_ne _ "hmac" "salt"), !lookup_insert_eq by done. simpl.
  rewrite !b64_roundtrip by done. by destruct salt, hmac.
Qed.

(** What a launch reads: the envelope file and the keychain entry. *)
Definition gate_state (dir : string) (o : Os) : option byte_list * option byte_list :=
  (files o !! join dir HASH_FILE_NAME, keychain o !! PEPPER_KEY).

Lemma join_ne dir a b : a <> b -> join dir a <> join dir b.
Proof. unfold join. intros Hab Heq. apply Hab. by do 2 apply (inj _) in Heq. Qed.

Lemma hash_ne_rate dir : join dir HASH_FILE_NAME <> join dir RATE_LIMIT_STATE_FILE.
Proof. by apply join_ne. Qed.

Lemma verify_stored dir o salt hmac pepper password :
  faults o = [] -> bytes_ok salt -> bytes_ok hmac -> salt <> [] -> hmac <> [] -> pepper <> [] ->
  gate_state dir o = (Some (utf8 (encode_disk_blob salt hmac)), Some pepper) ->
  run (verify_password dir password) o =
    (inr (bool_decide (compute_gate_hmac pepper salt password = hmac)), o).
Proof.
  intros Hf Hs Hh Hs0 Hh0 Hp [= Hfile Hkey]. destruct o as [fs kc ft]; simpl in *; subst ft.
  unfold verify_password; simpl. unfold Os.read_file, Os.fallible; simpl. rewrite Hfile. simpl.
  rewrite utf8_roundtrip, blob_roundtrip by done. simpl.
  unfold Os.keychain_read, Os.fallible; simpl. rewrite Hkey. simpl. by destruct pepper.
Qed.

Lemma configured_stored dir o b pepper :
  faults o = [] -> pepper <> [] -> gate_state dir o = (Some b, Some pepper) ->
  run (is_configured dir) o = (true, o).
Proof.
  intros Hf Hp [= Hfile Hkey]. destruct o as [fs kc ft]; simpl in *; subst ft.
  unfold is_configured; simpl. unfold Os.exists_; simpl. rewrite Hfile.
  rewrite bool_decide_eq_true_2 by eauto. simpl.
  unfold Os.keychain_read, Os.fallible; simpl. rewrite Hkey. simpl. by destruct pepper.
Qed.

Lemma run_set_password dir password salt pepper fs kc :
  run (set_password dir password salt pepper) (mkOs fs kc []) =
    (inr (),
     mkOs (delete (join dir RATE_LIMIT_STATE_FILE) (<[join dir HASH_FILE_NAME :=
             utf8 (encode_disk_blob salt (compute_gate_hmac pepper salt password))]> fs))
       (<[PEPPER_KEY := pepper]> kc) []).
Proof.
  unfold set_password. rewrite run_bind, run_call. cbn [Os.create_dir_all Os.fallible Os.next_fault faults].
  rewrite run_bind, write_calm. cbn. unfold Os.remove_file, Os.fallible. cbn.
  set (fs1 := <[_ := _]> fs).
  destruct (fs1 !! join dir RATE_LIMIT_STATE_FILE) as [b|] eqn:Hb; [done|]. cbn.
  by rewrite delete_id.
Qed.

(** configuring the gate works.  When no call fails, [set_password] succeeds, the
    gate is configured, the old attempt counter is gone, and from then on a password
    is accepted exactly when its keyed hash under the new pepper and salt is the one
    of the password that was set; nothing else on disk or in the keychain changes. *)
Theorem set_password_verifies (dir : string) (password salt pepper : byte_list) (o : Os)
    (Hf : faults o = []) (Hs : bytes_ok salt) (Hs0 : salt <> []) (Hp0 : pepper <> []) :
  let '(r, o') := run (set_password dir password salt pepper) o in
  r = inr () /\
  (run (is_configured dir) o').1 = true /\
  (forall p, (run (verify_password dir p) o').1 =
     inr (bool_decide (hmac_sha256 pepper (salt ++ p) = hmac_sha256 pepper (salt ++ password)))) /\
  files o' !! join dir RATE_LIMIT_STATE_FILE = None /\
  (forall f, f <> join dir HASH_FILE_NAME -> f <> join dir RATE_LIMIT_STATE_FILE ->
     files o' !! f = files o !! f) /\
  (forall k, k <> PEPPER_KEY -> keychain o' !! k = keychain o !! k).
Proof.
  destruct o as [fs kc ft]; simpl in Hf; subst ft.
  pose proof (hash_ne_rate dir) as Hne.
  rewrite run_set_password. set (h := compute_gate_hmac pepper salt password).
  set (fs1 := <[join dir HASH_FILE_NAME := utf8 (encode_disk_blob salt h)]> fs).
  set (o' := mkOs (delete (join dir RATE_LIMIT_STATE_FILE) fs1) (<[PEPPER_KEY := pepper]> kc) []).
  assert (Hgate : gate_state dir o' = (Some (utf8 (encode_disk_blob salt h)), Some pepper)).
  { unfold gate_state; simpl. unfold fs1. rewrite lookup_delete_ne, !lookup_insert_eq by congruence. done. }
  split; [done|]. split; [by rewrite (configured_stored dir o' _ pepper eq_refl Hp0 Hgate)|]. split; [|split; [|split]].
  - intros p. rewrite (verify_stored dir o' salt h pepper p); try done; [apply hmac_bytes|apply hmac_nonempty].
  - apply lookup_delete_eq.
  - intros f H1 H2. simpl. unfold fs1. by rewrite lookup_delete_ne, lookup_insert_ne by congruence.
  - intros k Hk. simpl. by rewrite lookup_insert_ne by congruence.
Qed.

(** The states a configuration attempt can leave: nothing done, the new envelope with
    the old pepper, both new, or the envelope rolled back. *)
Definition set_password_states (dir : string) (new_blob pepper : byte_list) (o : Os) :
    list (option byte_list * option byte_list) :=
  let '(f, k) := gate_state dir o in
  [(f, k); (Some new_blob, k); (Some new_blob, Some pepper); (None, k)].

(** A temporary file of a file in [dir] is in [dir]. *)
Lemma tmp_join dir name salt : tmp_name (join dir name) salt = join dir (tmp_name name salt).
Proof. unfold tmp_name, join. by rewrite !append_assoc. Qed.

Lemma hash_tmp_ne dir salt : join dir HASH_FILE_NAME <> tmp_name (join dir HASH_FILE_NAME) salt /\
  join dir RATE_LIMIT_STATE_FILE <> tmp_name (join dir HASH_FILE_NAME) salt.
Proof. split; [by intros He; apply (tmp_name_ne (join dir HASH_FILE_NAME) salt)|]. rewrite tmp_join. by apply join_ne. Qed.

Section Outcomes.
Context (dir : string) (password salt pepper : byte_list) (o : Os).
Let blob := utf8 (encode_disk_blob salt (compute_gate_hmac pepper salt password)).

(** Where an attempt can be cut. *)
Definition configuring (o' : Os) : Prop :=
  gate_state dir o' ∈ set_password_states dir blob pepper o /\
  (gate_state dir o' <> (Some blob, Some pepper) ->
     files o' !! join dir RATE_LIMIT_STATE_FILE = files o !! join dir RATE_LIMIT_STATE_FILE).

Definition configured (r : GateError + unit) (o' : Os) : Prop :=
  match r with
  | inr _ => gate_state dir o' = (Some blob, Some pepper)
  | inl CreateSupportDir | inl AtomicWrite => gate_state dir o' = gate_state dir o
  | inl (KeychainWrite true) => gate_state dir o' = (None, keychain o !! PEPPER_KEY)
  | inl (KeychainWrite false) => gate_state dir o' = (Some blob, keychain o !! PEPPER_KEY)
  | _ => False
  end.

Lemma configuring_same o' : keychain o' = keychain o ->
  (forall k, k = join dir HASH_FILE_NAME \/ k = join dir RATE_LIMIT_STATE_FILE -> files o' !! k = files o !! k) ->
  configuring o' /\ gate_state dir o' = gate_state dir o.
Proof using.
  intros Hk Hf. unfold configuring, set_password_states, gate_state. rewrite Hk, !Hf by auto. split; [|done]. split; [left|done].
Qed.

Lemma keychain_half_goes o' : keychain o' = keychain o -> files o' = <[join dir HASH_FILE_NAME := blob]> (files o) ->
  goes configuring configured
    (let! kw := call (Os.keychain_write PEPPER_KEY pepper) in
     match kw with
     | inl _ =>
         let! rb := call (Os.remove_file (join dir HASH_FILE_NAME)) in
         match rb with inl _ => Ret (inl (KeychainWrite false)) | inr _ => Ret (inl (KeychainWrite true)) end
     | inr _ => let! _ := call (Os.remove_file (join dir RATE_LIMIT_STATE_FILE)) in Ret (inr ())
     end) o'.
Proof using.
  intros Hk Hf. destruct o' as [fs' kc' ft]. cbn in Hk, Hf. subst kc' fs'.
  pose proof (hash_ne_rate dir) as Hne. unfold goes, wp, configuring, configured, set_password_states, gate_state. cbn [files keychain].
  generalize (files o) as fs. generalize (keychain o) as kc. intros kc fs. generalize blob as bl. revert Hne. generalize (join dir HASH_FILE_NAME) as h. generalize (join dir RATE_LIMIT_STATE_FILE) as r.
  generalize PEPPER_KEY as pk. intros pk r h Hne bl. pose proof (lookup_insert_ne fs h r bl Hne) as Hr. split; [intros n|].
  - destruct ft as [|[] [|[] ft]], n as [|[|[|n]]]; simpl;
      unfold Os.remove_file, Os.keychain_write, Os.fallible; simpl; rewrite ?Hr, ?lookup_insert_eq; simpl;
      try (destruct (fs !! r) eqn:Hfr; simpl);
      rewrite ?lookup_delete_ne by congruence; rewrite ?lookup_insert_eq, ?lookup_delete_eq;
      rewrite ?lookup_delete_ne by congruence; rewrite ?Hr; (split; [set_solver|congruence]).
  - destruct ft as [|[] [|[] ft]]; simpl;
      unfold Os.remove_file, Os.keychain_write, Os.fallible; simpl; rewrite ?Hr, ?lookup_insert_eq; simpl;
      try (destruct (fs !! r) eqn:Hfr; simpl);
      rewrite ?lookup_delete_ne by congruence; by rewrite ?lookup_insert_eq, ?lookup_delete_eq.
Qed.

Lemma set_password_goes : goes configuring configured (set_password dir password salt pepper) o.
Proof using.
  unfold set_password. fold blob.
  assert (Hstart : configuring o) by (by apply configuring_same). apply goes_call; [done|].
  assert (Hs : steps Os.create_dir_all (fun m m' => m' = m) o) by by apply fallible_steps.
  destruct Hs as [Hk1 Hf1]. destruct (Os.create_dir_all o) as [[e|[]] o1]; cbn [fst snd] in *.
  { destruct (configuring_same o1) as [Hc Hg]; [done|intros k _; by rewrite Hf1|]. apply goes_ret; [done|exact Hg]. }
  assert (Huntouched : forall o2, untouched (join dir HASH_FILE_NAME) o1 o2 -> configuring o2 /\ gate_state dir o2 = gate_state dir o).
  { intros o2 [Hk2 [s Hf2]]. destruct (hash_tmp_ne dir s) as [Ht1 Ht2]. apply configuring_same; [congruence|].
    intros k Hk. rewrite Hf2, Hf1; [done|]. destruct Hk; congruence. }
  apply goes_bind. eapply goes_mono; [apply write_goes| |].
  - intros o2 [Hu|[Hk2 Hf2]]; [by apply Huntouched|]. rewrite Hk1 in Hk2. rewrite Hf1 in Hf2. by apply (always_start _ _ _ (proj1 (keychain_half_goes o2 Hk2 Hf2))).
  - intros [e|[]] o2; cbv beta.
    + intros Hu. destruct (Huntouched o2 Hu) as [Hc Hg]. apply goes_ret; [done|exact Hg].
    + intros [Hk2 Hf2]. rewrite Hk1 in Hk2. rewrite Hf1 in Hf2. by apply keychain_half_goes.
Qed.
End Outcomes.

(** what a failed or interrupted [set_password] leaves.  Whatever calls fail, the
    result tells the state: success means both halves are new, a failure before the
    keychain step means nothing changed, [KeychainWrite true] means the envelope was
    withdrawn, [KeychainWrite false] that the new envelope stays beside the old
    pepper; and a crash after any number of calls leaves one of exactly four states,
    the wiped attempt counter occurring only once both halves are new. *)
Theorem set_password_outcomes (dir : string) (password salt pepper : byte_list) (o : Os) (n : nat) :
  let blob := utf8 (encode_disk_blob salt (compute_gate_hmac pepper salt password)) in
  let p := set_password dir password salt pepper in
  let '(r, o') := run p o in
  match r with
  | inr _ => gate_state dir o' = (Some blob, Some pepper)
  | inl CreateSupportDir | inl AtomicWrite => gate_state dir o' = gate_state dir o
  | inl (KeychainWrite true) => gate_state dir o' = (None, keychain o !! PEPPER_KEY)
  | inl (KeychainWrite false) => gate_state dir o' = (Some blob, keychain o !! PEPPER_KEY)
  | _ => False
  end /\
  gate_state dir (crash n p o) ∈ set_password_states dir blob pepper o /\
  (gate_state dir (crash n p o) <> (Some blob, Some pepper) ->
     files (crash n p o) !! join dir RATE_LIMIT_STATE_FILE =
     files o !! join dir RATE_LIMIT_STATE_FILE).
Proof.
  intros blob p. destruct (set_password_goes dir password salt pepper o) as [Ha Hw]. fold blob p in Ha, Hw. unfold wp in Hw.
  specialize (Ha n). destruct (run p o) as [r o']. split; [exact Hw|exact Ha].
Qed.

Lemma run_lift_os {A} (p : prog Os A) o (w : world) :
  run (lift_os p) (o, w) = (let '(a, o') := run p o in (a, (o', w))).
Proof.
  revert o. induction p as [a|B f k IH]; intros o; simpl; [done|].
  unfold on_os; simpl. destruct (f o) as [b o']. apply IH.
Qed.

Lemma verify_half_missing dir p fs kc :
  fs !! join dir HASH_FILE_NAME = None \/ kc !! PEPPER_KEY = None ->
  (run (verify_password dir p) (mkOs fs kc [])).1 = inr false.
Proof.
  unfold verify_password; simpl. unfold Os.read_file, Os.fallible; simpl. intros Hmiss.
  destruct (fs !! join dir HASH_FILE_NAME) as [b|]; [|done].
  destruct Hmiss as [Hx|Hk]; [done|]. simpl.
  destruct (from_utf8 b) as [t|]; [|done]. destruct (decode_disk_blob t); [done|]. simpl.
  unfold Os.keychain_read, Os.fallible; simpl. by rewrite Hk.
Qed.

(** [clear] drops each half independently and reports what it could not drop:
    the envelope (the pepper) survives exactly when the result says its deletion
    failed, so a successful [clear], and even a failed one that removed either half,
    leaves a gate that accepts no password. *)
Theorem clear_revokes (dir : string) (o : Os) :
  let '(r, o') := run (clear dir) o in
  gate_state dir o' =
    match r with
    | inr _ => (None, None)
    | inl (ClearFailed d k) =>
        (if d then (gate_state dir o).1 else None, if k then (gate_state dir o).2 else None)
    | inl _ => gate_state dir o
    end /\
  (match r with inl (ClearFailed true true) => False | _ => True end ->
   forall p, (run (verify_password dir p) (mkOs (files o') (keychain o') [])).1 = inr false).
Proof.
  destruct o as [fs kc ft]. pose proof (verify_half_missing dir) as Hv. revert Hv.
  unfold gate_state, clear. simpl files. simpl keychain.
  generalize (verify_password dir) as vp.
  generalize (join dir HASH_FILE_NAME) as h. generalize PEPPER_KEY as pk. intros pk h vp Hv.
  destruct ft as [|[] [|[] ft]]; simpl;
    unfold Os.remove_file, Os.keychain_delete, Os.fallible; simpl;
    try (destruct (fs !! h) eqn:Hfh); simpl;
    rewrite ?lookup_delete_eq, ?Hfh; simpl; (split; [done|]); intros Hr p; try done;
    apply Hv; rewrite ?lookup_delete_eq; auto.
Qed.

(** changing the password starts a fresh attempt counter under the new key.
    Once [set_password] has succeeded, building the limiter finds the new envelope,
    registers the fresh id under the new hash as key, and reports no failure and no
    cooldown, whatever the old counter was. *)
Theorem rotation_resets_limiter (dir id : string) (password salt pepper : byte_list) (now : Z)
    (o : Os) (w : world)
    (Hf : faults o = []) (Hs : bytes_ok salt) (Hs0 : salt <> []) (Hid : inner w !! id = None) :
  let o1 := (run (set_password dir password salt pepper) o).2 in
  let '(r, (o2, w2)) := run (build_persisted_rate_limiter dir id now) (o1, w) in
  r = inr (Some id) /\ o2 = o1 /\
  hmac_key <$> inner w2 !! id = Some (compute_gate_hmac pepper salt password) /\
  PersistedRateLimiterRegistry.status now id w2 =
    {| failure_count := 0; cooldown_remaining_ms := 0 |}.
Proof.
  destruct o as [fs kc ft]; simpl in Hf; subst ft. rewrite run_set_password. cbn [snd].
  pose proof (hash_ne_rate dir) as Hne.
  set (h := compute_gate_hmac pepper salt password).
  assert (Hh : bytes_ok h /\ h <> []) by (split; [apply hmac_bytes|apply hmac_nonempty]).
  destruct Hh as [Hhb Hh0].
  unfold build_persisted_rate_limiter. rewrite run_bind, run_lift_os.
  unfold read_decoded_blob; simpl. unfold Os.read_file, Os.fallible; simpl.
  rewrite lookup_delete_ne, lookup_insert_eq by congruence. simpl.
  rewrite utf8_roundtrip, (blob_roundtrip salt h) by done.
  simpl.
  unfold PersistedRateLimiterRegistry.init_or_get, PersistedRateLimiterRegistry.status. simpl.
  rewrite Hid. simpl. rewrite !bool_decide_eq_true_2 by done. simpl.
  rewrite lookup_insert_eq. split; [done|]. split; [done|]. split; [done|].
  unfold PersistedRateLimiterRegistry.read_state. simpl.
  rewrite lookup_delete_eq. by destruct (read_fails w _).
Qed.

End Gate.

Definition demo_os : Os := mkOs ∅ ∅ [].

Lemma set_password_verifies_witness :
  let o' := (run (set_password "/d" [112%Z] [1%Z; 2%Z] [9%Z]) demo_os).2 in
  (run (verify_password "/d" [112%Z]) o').1 = inr true /\
  (run (verify_password "/d" [113%Z]) o').1 = inr false.
Proof.
  pose proof (set_password_verifies "/d" [112%Z] [1%Z; 2%Z] [9%Z] demo_os eq_refl) as Hw.
  destruct (run (set_password "/d" [112%Z] [1%Z; 2%Z] [9%Z]) demo_os) as [r o'].
  destruct Hw as (_ & _ & Hv & _).
  - repeat constructor; vm_compute; congruence.
  - done.
  - done.
  - split; (etransitivity; [apply Hv|vm_compute; reflexivity]).
Defined.

Lemma rotation_resets_limiter_witness :
  let o1 := (run (set_password "/d" [112%Z] [1%Z; 2%Z] [9%Z])
    (mkOs {["/d/rate_limit_state.bin" := [1%Z; 2%Z; 3%Z]]} ∅ [])).2 in
  let '(r, (o2, w2)) := run (build_persisted_rate_limiter "/d" "id-1" 5)
    (o1, PersistedRateLimiterRegistry.new ∅ true (fun _ => false)) in
  PersistedRateLimiterRegistry.status 5 "id-1" w2 =
    {| failure_count := 0; cooldown_remaining_ms := 0 |}.
Proof.
  pose proof (rotation_resets_limiter "/d" "id-1" [112%Z] [1%Z; 2%Z] [9%Z] 5
    (mkOs {["/d/rate_limit_state.bin" := [1%Z; 2%Z; 3%Z]]} ∅ [])
    (PersistedRateLimiterRegistry.new ∅ true (fun _ => false)) eq_refl) as Hw.
  intros o1. subst o1. cbv zeta in Hw.
  destruct (run (build_persisted_rate_limiter "/d" "id-1" 5) _) as [r [o2 w2]].
  apply Hw; [repeat constructor; vm_compute; congruence|done|done].
Defined.

(** Between the two writes of a password change neither password is accepted: the
    old envelope is gone and the new one does not match the old pepper. *)
Example crash_between_halves_locks_out :
  let old := (run (set_password "/d" [112%Z] [1%Z; 2%Z] [9%Z]) demo_os).2 in
  let o := crash 7 (set_password "/d" [113%Z] [3%Z; 4%Z] [8%Z]) old in
  (run (verify_password "/d" [112%Z]) old).1 = inr true /\
  (run (is_configured "/d") o).1 = true /\
  (run (verify_password "/d" [112%Z]) o).1 = inr false /\
  (run (verify_password "/d" [113%Z]) o).1 = inr false.
Proof. vm_compute. repeat split. Qed.
