(* ===== verification/MasterPassword.v ===== *)
(** * The master password ([security/master_password.rs])

    The KDF record's byte format with its sanity caps, the verifier file, and the
    operations of the Paranoid tier over the support directory.  Argon2id and
    AES-256-GCM are third-party ([Aead]); the random salt and nonce are arguments. *)
From Stdlib Require Import ZArith Lia.
From stdpp Require Import prelude gmap strings list.
From S2P Require Import Prelude Prog AtomicFile Codec Gate.

Local Open Scope Z_scope.
Local Open Scope prog_scope.

Definition KDF_FILE_NAME : string := "credentials.kdf".
Definition VERIFIER_FILE_NAME : string := "credentials.verify".
Definition KEY_FILE_NAME : string := "credentials.key".

Definition FILE_MAGIC : byte_list := [0x4C; 0x46; 0x4B; 0x44].
(** [migration::SchemaVersions::KDF] *)
Definition FILE_VERSION : Z := 1.
Definition HEADER_BASE_LEN : nat := 6.
Definition SALT_LENGTH : nat := 32.
Definition KEY_LENGTH : Z := 32.
Definition IV_LENGTH : nat := 12.
Definition VERIFIER_PLAINTEXT : byte_list := string_codes "LetsFLUTssh-verify".

Definition ARGON2ID_ALGO_ID : Z := 0x01.
Definition DEFAULT_MEMORY_KIB : Z := 64 * 1024.
Definition DEFAULT_ITERATIONS : Z := 3.
Definition DEFAULT_PARALLELISM : Z := 1.
Definition ARGON2ID_MAX_MEMORY_KIB : Z := 1024 * 1024.
Definition ARGON2ID_MAX_ITERATIONS : Z := 16.
Definition ARGON2ID_MAX_PARALLELISM : Z := 8.

Record KdfParams := mkParams { memory_kib : Z; iterations : Z; parallelism : Z }.

Inductive KdfError :=
| EmptyInput
| UnknownAlgorithm
| TruncatedParams
| ZeroParams
| MemoryCap
| IterationsCap
| ParallelismCap
| TruncatedHeader
| BadMagic
| UnsupportedVersion
| TruncatedSalt.

Module KdfParams.

Definition defaults : KdfParams := mkParams DEFAULT_MEMORY_KIB DEFAULT_ITERATIONS DEFAULT_PARALLELISM.

Definition encode (p : KdfParams) : byte_list :=
  [ARGON2ID_ALGO_ID] ++ to_be32 (memory_kib p) ++ to_be32 (iterations p) ++ [parallelism p].

Definition encoded_length : nat := 10.

Definition decode (bytes : byte_list) : KdfError + KdfParams :=
  match bytes with
  | [] => inl EmptyInput
  | algo :: rest =>
      if negb (algo =? ARGON2ID_ALGO_ID) then inl UnknownAlgorithm
      else
        match rest with
        | m1 :: m2 :: m3 :: m4 :: i1 :: i2 :: i3 :: i4 :: par :: _ =>
            let mem := from_be32 m1 m2 m3 m4 in
            let iter := from_be32 i1 i2 i3 i4 in
            if (mem =? 0) || (iter =? 0) || (par =? 0) then inl ZeroParams
            else if ARGON2ID_MAX_MEMORY_KIB <? mem then inl MemoryCap
            else if ARGON2ID_MAX_ITERATIONS <? iter then inl IterationsCap
            else if ARGON2ID_MAX_PARALLELISM <? par then inl ParallelismCap
            else inr (mkParams mem iter par)
        | _ => inl TruncatedParams
        end
  end.

End KdfParams.

Record KdfRecord := mkRecord { params : KdfParams; salt : byte_list }.

Definition encode_kdf_record (p : KdfParams) (slt : byte_list) : byte_list :=
  let pb := KdfParams.encode p in
  FILE_MAGIC ++ [FILE_VERSION] ++ take 1 pb ++ pb ++ slt.

Definition decode_kdf_record (bytes : byte_list) : KdfError + KdfRecord :=
  if (length bytes <? HEADER_BASE_LEN + 1 + SALT_LENGTH)%nat then inl TruncatedHeader
  else if negb (bool_decide (take (length FILE_MAGIC) bytes = FILE_MAGIC)) then inl BadMagic
  else
    let version := nth (length FILE_MAGIC) bytes 0 in
    if negb (version =? FILE_VERSION) then inl UnsupportedVersion
    else
      match KdfParams.decode (drop HEADER_BASE_LEN bytes) with
      | inl e => inl e
      | inr p =>
          let salt_start := (HEADER_BASE_LEN + KdfParams.encoded_length)%nat in
          if (length bytes <? salt_start + SALT_LENGTH)%nat then inl TruncatedSalt
          else inr (mkRecord p (take SALT_LENGTH (drop salt_start bytes)))
      end.

(** Argon2id and AES-GCM.  [open_seal] is decryption of what was encrypted;
    [open_auth] is the authenticity the tag provides, stated for the ideal cipher:
    a sealed box opens only under its own key, nonce and associated data. *)
Class Aead := {
  argon2id : byte_list -> byte_list -> Z -> Z -> Z -> Z -> option byte_list;
  seal : byte_list -> byte_list -> byte_list -> byte_list -> option byte_list;
  open : byte_list -> byte_list -> byte_list -> byte_list -> option byte_list;
  seal_nonempty : forall k n pt aad c, seal k n pt aad = Some c -> c <> [];
  open_seal : forall k n pt aad c, seal k n pt aad = Some c -> open k n c aad = Some pt;
  open_auth : forall k n pt aad c k' n' aad' pt', seal k n pt aad = Some c ->
    open k' n' c aad' = Some pt' -> k' = k /\ n' = n /\ aad' = aad
}.

Inductive MpError :=
| NotEnabled
| ReadKdf
| ReadVerifier
| BadKdf (e : KdfError)
| Argon2Failed
| SealFailed
| WriteKdf
| WriteVerifier
| DeleteFailed (name : string)
| WrongCurrentPassword.

Section Ops.
Context `{Aead}.

Definition derive_key (password slt : byte_list) (p : KdfParams) : MpError + byte_list :=
  match argon2id password slt (memory_kib p) (iterations p) (parallelism p) KEY_LENGTH with
  | Some k => inr k
  | None => inl Argon2Failed
  end.

Definition encrypt_verifier (key kdf_header nonce : byte_list) : MpError + byte_list :=
  match seal key nonce VERIFIER_PLAINTEXT kdf_header with
  | Some body => inr (nonce ++ body)
  | None => inl SealFailed
  end.

(** [crypto::aes_gcm_decrypt]: the envelope without associated data. *)
Definition aes_gcm_decrypt (key data : byte_list) : option byte_list :=
  if (length data <? IV_LENGTH)%nat then None
  else open key (take IV_LENGTH data) (drop IV_LENGTH data) [].

Definition verify_against_verifier (key verifier kdf_header : byte_list) : bool :=
  if (length verifier <? IV_LENGTH + 1)%nat then false
  else
    let nonce := take IV_LENGTH verifier in
    let body := drop IV_LENGTH verifier in
    match open key nonce body kdf_header with
    | Some pt => bool_decide (pt = VERIFIER_PLAINTEXT)
    | None =>
        match aes_gcm_decrypt key verifier with
        | Some pt => bool_decide (pt = VERIFIER_PLAINTEXT)
        | None => false
        end
    end.

Definition is_enabled (dir : string) : prog Os bool := call (Os.exists_ (join dir KDF_FILE_NAME)).

Definition read_kdf_record (dir : string) : prog Os (MpError + KdfRecord) :=
  let path := join dir KDF_FILE_NAME in
  let! e := call (Os.exists_ path) in
  if negb e then Ret (inl NotEnabled)
  else
    let! raw := call (Os.read_file path) in
    match raw with
    | inl _ => Ret (inl ReadKdf)
    | inr bytes =>
        Ret (match decode_kdf_record bytes with inl e => inl (BadKdf e) | inr r => inr r end)
    end.

Definition derive_key_from_disk (dir : string) (password : byte_list) : prog Os (MpError + byte_list) :=
  let! r := read_kdf_record dir in
  Ret (match r with inl e => inl e | inr rec => derive_key password (salt rec) (params rec) end).

Definition verify_and_derive (dir : string) (password : byte_list) :
    prog Os (MpError + option byte_list) :=
  let! r := read_kdf_record dir in
  match r with
  | inl e => Ret (inl e)
  | inr rec =>
      let vpath := join dir VERIFIER_FILE_NAME in
      let! e := call (Os.exists_ vpath) in
      if negb e then Ret (inl NotEnabled)
      else
        let! raw := call (Os.read_file vpath) in
        match raw with
        | inl _ => Ret (inl ReadVerifier)
        | inr verifier =>
            match derive_key password (salt rec) (params rec) with
            | inl e => Ret (inl e)
            | inr key =>
                let kdf_header := encode_kdf_record (params rec) (salt rec) in
                Ret (inr (if verify_against_verifier key verifier kdf_header then Some key else None))
            end
        end
  end.

(** [slt] and [nonce] are the fresh random bytes. *)
Definition enable (dir : string) (password : byte_list) (p : KdfParams) (slt nonce : byte_list) :
    prog Os (MpError + byte_list) :=
  match derive_key password slt p with
  | inl e => Ret (inl e)
  | inr key =>
      let kdf_bytes := encode_kdf_record p slt in
      match encrypt_verifier key kdf_bytes nonce with
      | inl e => Ret (inl e)
      | inr verifier =>
          let! w1 := write_bytes_atomic (join dir KDF_FILE_NAME) kdf_bytes in
          match w1 with
          | inl _ => Ret (inl WriteKdf)
          | inr _ =>
              let! w2 := write_bytes_atomic (join dir VERIFIER_FILE_NAME) verifier in
              match w2 with
              | inl _ => Ret (inl WriteVerifier)
              | inr _ => Ret (inr key)
              end
          end
      end
  end.

Definition change_password (dir : string) (old_password new_password : byte_list) (p : KdfParams)
    (slt nonce : byte_list) : prog Os (MpError + byte_list) :=
  let! v := verify_and_derive dir old_password in
  match v with
  | inl e => Ret (inl e)
  | inr None => Ret (inl WrongCurrentPassword)
  | inr (Some _) => enable dir new_password p slt nonce
  end.

Fixpoint delete_files (dir : string) (names : list string) : prog Os (MpError + unit) :=
  match names with
  | [] => Ret (inr ())
  | name :: names =>
      let path := join dir name in
      let! e := call (Os.exists_ path) in
      if e then
        let! r := call (Os.remove_file path) in
        match r with inl _ => Ret (inl (DeleteFailed name)) | inr _ => delete_files dir names end
      else delete_files dir names
  end.

Definition disable (dir : string) : prog Os (MpError + unit) :=
  delete_files dir [KDF_FILE_NAME; VERIFIER_FILE_NAME].

Definition reset (dir : string) : prog Os (MpError + unit) :=
  delete_files dir [KDF_FILE_NAME; VERIFIER_FILE_NAME; KEY_FILE_NAME].

End Ops.

(** ** The record format *)

(** What [enable] is called with, and what the Rust types guarantee. *)
Record params_ok (p : KdfParams) : Prop := {
  ok_memory : 0 < memory_kib p <= ARGON2ID_MAX_MEMORY_KIB;
  ok_iterations : 0 < iterations p <= ARGON2ID_MAX_ITERATIONS;
  ok_parallelism : 0 < parallelism p <= ARGON2ID_MAX_PARALLELISM
}.

Lemma params_roundtrip p rest : params_ok p -> KdfParams.decode (KdfParams.encode p ++ rest) = inr p.
Proof.
  intros [Hm Hi Hp].
  assert (Hmr : 0 <= memory_kib p < 2 ^ 32) by (unfold ARGON2ID_MAX_MEMORY_KIB in *; lia).
  assert (Hir : 0 <= iterations p < 2 ^ 32) by (unfold ARGON2ID_MAX_ITERATIONS in *; lia).
  pose proof (be32_roundtrip _ Hmr) as Em. pose proof (be32_roundtrip _ Hir) as Ei.
  unfold to_be32 in Em, Ei. unfold KdfParams.encode, to_be32, KdfParams.decode.
  cbn [app]. rewrite Em, Ei. simpl.
  destruct (Z.eqb_spec (memory_kib p) 0); [lia|]. destruct (Z.eqb_spec (iterations p) 0); [lia|].
  destruct (Z.eqb_spec (parallelism p) 0); [lia|]. simpl.
  destruct (Z.ltb_spec ARGON2ID_MAX_MEMORY_KIB (memory_kib p)); [lia|].
  destruct (Z.ltb_spec ARGON2ID_MAX_ITERATIONS (iterations p)); [lia|].
  destruct (Z.ltb_spec ARGON2ID_MAX_PARALLELISM (parallelism p)); [lia|].
  by destruct p.
Qed.

Lemma record_roundtrip p slt :
  params_ok p -> length slt = SALT_LENGTH ->
  decode_kdf_record (encode_kdf_record p slt) = inr (mkRecord p slt).
Proof.
  intros Hp Hs. unfold decode_kdf_record.
  assert (Hlen : length (encode_kdf_record p slt) = 48%nat).
  { unfold encode_kdf_record, KdfParams.encode, to_be32. simpl. by rewrite Hs. }
  rewrite Hlen. cbn [Nat.ltb Nat.leb]. change (48 <? HEADER_BASE_LEN + 1 + SALT_LENGTH)%nat with false.
  change (48 <? HEADER_BASE_LEN + KdfParams.encoded_length + SALT_LENGTH)%nat with false.
  cbn [negb]. change (take (length FILE_MAGIC) (encode_kdf_record p slt)) with FILE_MAGIC.
  rewrite bool_decide_eq_true_2 by done. cbn [negb].
  change (nth (length FILE_MAGIC) (encode_kdf_record p slt) 0) with FILE_VERSION.
  change (drop HEADER_BASE_LEN (encode_kdf_record p slt)) with (KdfParams.encode p ++ slt).
  rewrite params_roundtrip by done. rewrite Z.eqb_refl. cbn [negb].
  change (drop (HEADER_BASE_LEN + KdfParams.encoded_length) (encode_kdf_record p slt)) with slt.
  by rewrite take_ge by lia.
Qed.

Lemma params_decode_ok bytes p : bytes_ok bytes -> KdfParams.decode bytes = inr p -> params_ok p.
Proof.
  unfold bytes_ok. intros Hb Hd. unfold KdfParams.decode in Hd.
  do 10 (destruct bytes as [|? bytes]; [repeat case_match; done|]).
  repeat match type of Hb with Forall _ (_ :: _) => apply Forall_cons in Hb as [? Hb] end.
  repeat case_match; simplify_eq. breflect.
  split; simpl; unfold from_be32 in *; int_unfold; lia.
Qed.

Lemma record_decode_ok bytes r :
  bytes_ok bytes -> decode_kdf_record bytes = inr r -> params_ok (params r) /\ length (salt r) = SALT_LENGTH.
Proof.
  intros Hb Hd. unfold decode_kdf_record in Hd.
  destruct (_ <? _)%nat eqn:E1; [done|]. destruct (negb (bool_decide _)); [done|].
  destruct (negb (_ =? _)); [done|].
  destruct (KdfParams.decode (drop HEADER_BASE_LEN bytes)) as [e|p] eqn:Ep; [done|].
  destruct (length bytes <? HEADER_BASE_LEN + KdfParams.encoded_length + SALT_LENGTH)%nat eqn:E2; [done|].
  injection Hd as <-. simpl. apply Nat.ltb_ge in E2. split.
  - eapply params_decode_ok; [|exact Ep]. by apply Forall_drop.
  - rewrite length_take, length_drop. unfold HEADER_BASE_LEN, KdfParams.encoded_length, SALT_LENGTH in *. lia.
Qed.

(** C5: the KDF record round-trips, and no file can make the unlock run away: every
    record the decoder accepts asks for at most 1 GiB, 16 iterations and 8 lanes, has
    no zero parameter and carries a full salt. *)
Theorem kdf_record_roundtrip_and_caps (p : KdfParams) (slt : byte_list)
    (Hp : params_ok p) (Hs : length slt = SALT_LENGTH) :
  decode_kdf_record (encode_kdf_record p slt) = inr (mkRecord p slt) /\
  forall bytes r, bytes_ok bytes -> decode_kdf_record bytes = inr r ->
    params_ok (params r) /\ length (salt r) = SALT_LENGTH.
Proof. split; [by apply record_roundtrip|apply record_decode_ok]. Qed.

(** ** Unlocking *)
Section Laws.
Context `{Aead}.

Lemma kdf_ne_verifier dir : join dir KDF_FILE_NAME <> join dir VERIFIER_FILE_NAME.
Proof. by apply join_ne. Qed.

Lemma run_verify dir password fs kc kb vb r :
  fs !! join dir KDF_FILE_NAME = Some kb -> fs !! join dir VERIFIER_FILE_NAME = Some vb ->
  decode_kdf_record kb = inr r ->
  (run (verify_and_derive dir password) (mkOs fs kc [])).1 =
    match derive_key password (salt r) (params r) with
    | inl e => inl e
    | inr key =>
        inr (if verify_against_verifier key vb (encode_kdf_record (params r) (salt r))
             then Some key else None)
    end.
Proof.
  intros Hk Hv Hd. unfold verify_and_derive, read_kdf_record. simpl. unfold Os.exists_; simpl.
  rewrite Hk, bool_decide_eq_true_2 by eauto. simpl.
  unfold Os.read_file, Os.fallible; simpl. rewrite Hk. simpl. rewrite Hd. simpl.
  unfold Os.exists_; simpl. rewrite Hv, bool_decide_eq_true_2 by eauto. simpl.
  rewrite Hv. simpl. by destruct (derive_key _ _ _).
Qed.

Lemma header_nonempty p slt : encode_kdf_record p slt <> [].
Proof. done. Qed.

(** A verifier sealed under a key and a header opens under no other. *)
Lemma verifier_exact key key' nonce hdr hdr' body :
  length nonce = IV_LENGTH -> hdr <> [] -> seal key nonce VERIFIER_PLAINTEXT hdr = Some body ->
  verify_against_verifier key' (nonce ++ body) hdr' = bool_decide (key' = key /\ hdr' = hdr).
Proof.
  intros Hn Hh Hs. pose proof (seal_nonempty _ _ _ _ _ Hs) as Hne.
  assert (Ht : take IV_LENGTH (nonce ++ body) = nonce) by (rewrite <-Hn; apply take_app_length).
  assert (Hd : drop IV_LENGTH (nonce ++ body) = body) by (rewrite <-Hn; apply drop_app_length).
  assert (Hlen : (IV_LENGTH + 1 <= length (nonce ++ body))%nat)
    by (rewrite length_app, Hn; destruct body; [done|simpl; lia]).
  unfold verify_against_verifier, aes_gcm_decrypt. rewrite Ht, Hd.
  rewrite (proj2 (Nat.ltb_ge _ _) Hlen).
  rewrite (proj2 (Nat.ltb_ge (length (nonce ++ body)) IV_LENGTH)) by lia.
  destruct (open key' nonce body hdr') as [pt|] eqn:Ho.
  - destruct (open_auth _ _ _ _ _ _ _ _ _ Hs Ho) as (-> & _ & ->).
    rewrite (open_seal _ _ _ _ _ Hs) in Ho. injection Ho as <-.
    by rewrite !bool_decide_eq_true_2.
  - rewrite (bool_decide_eq_false_2 (key' = key /\ hdr' = hdr)).
    + destruct (open key' nonce body []) as [pt|] eqn:Ho2; [|done].
      destruct (open_auth _ _ _ _ _ _ _ _ _ Hs Ho2) as (_ & _ & Hx). by destruct Hh.
    + intros [-> ->]. rewrite (open_seal _ _ _ _ _ Hs) in Ho. done.
Qed.

Lemma run_enable dir password p slt nonce key body fs kc :
  derive_key password slt p = inr key ->
  seal key nonce VERIFIER_PLAINTEXT (encode_kdf_record p slt) = Some body ->
  run (enable dir password p slt nonce) (mkOs fs kc []) =
    (inr key, mkOs (<[join dir VERIFIER_FILE_NAME := nonce ++ body]>
                   (<[join dir KDF_FILE_NAME := encode_kdf_record p slt]> fs)) kc []).
Proof. intros Hk Hs. unfold enable, encrypt_verifier. by rewrite Hk, Hs, run_bind, write_calm, run_bind, write_calm. Qed.

(** C6: after [enable] the vault opens for that password and only for it.  When no
    call fails, [enable] returns the derived key and writes both files; from then on
    [verify_and_derive] returns the same key for every password that derives it and
    rejects every password that derives another. *)
Theorem enable_then_unlock (dir : string) (password : byte_list) (p : KdfParams)
    (slt nonce key body : byte_list) (fs kc : gmap string byte_list)
    (Hp : params_ok p) (Hs : length slt = SALT_LENGTH) (Hn : length nonce = IV_LENGTH)
    (Hkey : derive_key password slt p = inr key)
    (Hseal : seal key nonce VERIFIER_PLAINTEXT (encode_kdf_record p slt) = Some body) :
  let '(r, o) := run (enable dir password p slt nonce) (mkOs fs kc []) in
  r = inr key /\
  forall password', (run (verify_and_derive dir password') o).1 =
    match derive_key password' slt p with
    | inl e => inl e
    | inr key' => inr (if bool_decide (key' = key) then Some key else None)
    end.
Proof.
  rewrite (run_enable _ _ _ _ _ _ _ _ _ Hkey Hseal). split; [done|]. intros password'.
  pose proof (kdf_ne_verifier dir) as Hne.
  rewrite (run_verify dir password' _ kc (encode_kdf_record p slt) (nonce ++ body) (mkRecord p slt)).
  - simpl. destruct (derive_key password' slt p) as [e|key']; [done|].
    rewrite (verifier_exact key key' nonce _ _ body Hn (header_nonempty p slt) Hseal).
    destruct (decide (key' = key)) as [->|Hk].
    + by rewrite !bool_decide_eq_true_2.
    + rewrite !bool_decide_eq_false_2; [done|done|]. by intros [? _].
  - by rewrite lookup_insert_ne, lookup_insert_eq by congruence.
  - by rewrite lookup_insert_eq.
  - by apply record_roundtrip.
Qed.

(** C7: the KDF record is bound to the verifier.  Once the vault is enabled, replacing
    [credentials.kdf] by any file that decodes to other parameters or another salt
    makes every password fail, the right one included: whoever edits the record can
    not make the application accept a key derived under it. *)
Theorem tampered_record_never_unlocks (dir : string) (password : byte_list) (p : KdfParams)
    (slt nonce key body kb : byte_list) (r : KdfRecord) (fs kc : gmap string byte_list)
    (Hp : params_ok p) (Hs : length slt = SALT_LENGTH) (Hn : length nonce = IV_LENGTH)
    (Hkb : bytes_ok kb) (Hdec : decode_kdf_record kb = inr r) (Hr : r <> mkRecord p slt)
    (Hkey : derive_key password slt p = inr key)
    (Hseal : seal key nonce VERIFIER_PLAINTEXT (encode_kdf_record p slt) = Some body) :
  let o := (run (enable dir password p slt nonce) (mkOs fs kc [])).2 in
  let o' := (run (write_bytes_atomic (join dir KDF_FILE_NAME) kb) o).2 in
  forall password' key', (run (verify_and_derive dir password') o').1 <> inr (Some key').
Proof.
  rewrite (run_enable _ _ _ _ _ _ _ _ _ Hkey Hseal). intros o o' password' key'.
  pose proof (kdf_ne_verifier dir) as Hne.
  assert (Ho : o' = mkOs (<[join dir KDF_FILE_NAME := kb]> (files o)) kc []) by (subst o' o; cbn [snd]; by rewrite write_calm).
  rewrite Ho. subst o o'. cbn [snd files].
  rewrite (run_verify dir password' _ kc kb (nonce ++ body) r).
  - destruct (derive_key password' (salt r) (params r)) as [e|k]; [done|].
    rewrite (verifier_exact key k nonce _ _ body Hn (header_nonempty p slt) Hseal).
    rewrite bool_decide_eq_false_2; [done|]. intros [_ Hh]. apply Hr.
    destruct (record_decode_ok kb r Hkb Hdec) as [Hp' Hs'].
    pose proof (record_roundtrip (params r) (salt r) Hp' Hs') as E1.
    rewrite Hh, (record_roundtrip p slt Hp Hs) in E1. destruct r. simpl in E1. congruence.
  - by rewrite lookup_insert_eq.
  - rewrite lookup_insert_ne by done. apply lookup_insert_eq.
  - done.
Qed.

End Laws.

(** ** A concrete cipher

    The box is the concatenation of its inputs, length-prefixed. *)
Definition framed (b : byte_list) : byte_list := Z.of_nat (length b) :: b.

Definition unframe (b : byte_list) : option (byte_list * byte_list) :=
  match b with
  | n :: rest =>
      if bool_decide (0 <= n) then Some (take (Z.to_nat n) rest, drop (Z.to_nat n) rest) else None
  | [] => None
  end.

Lemma unframe_framed b rest : unframe (framed b ++ rest) = Some (b, rest).
Proof.
  simpl. rewrite bool_decide_eq_true_2 by lia. rewrite Nat2Z.id.
  by rewrite take_app_length, drop_app_length.
Qed.

Definition toy_seal (k n pt aad : byte_list) : option byte_list :=
  Some (framed k ++ framed n ++ framed aad ++ pt).

Definition toy_open (k n c aad : byte_list) : option byte_list :=
  '(k', c) ← unframe c; '(n', c) ← unframe c; '(aad', pt) ← unframe c;
  if bool_decide (k' = k) && bool_decide (n' = n) && bool_decide (aad' = aad) then Some pt else None.

Lemma toy_seal_eq k n pt aad c :
  toy_seal k n pt aad = Some c -> c = framed k ++ framed n ++ framed aad ++ pt.
Proof. unfold toy_seal. congruence. Qed.

Lemma toy_open_seal k n pt aad k' n' aad' :
  toy_open k' n' (framed k ++ framed n ++ framed aad ++ pt) aad' =
    if bool_decide (k = k') && bool_decide (n = n') && bool_decide (aad = aad') then Some pt else None.
Proof.
  unfold toy_open. rewrite unframe_framed. cbn [mbind option_bind].
  rewrite unframe_framed. cbn [mbind option_bind]. by rewrite unframe_framed.
Qed.

#[export, program] Instance concrete_aead : Aead := {|
  argon2id pw slt m t p len := Some (pw ++ slt ++ [m; t; p; len]);
  seal := toy_seal;
  open := toy_open
|}.
Next Obligation. intros k n pt aad c Hc. by rewrite (toy_seal_eq _ _ _ _ _ Hc). Qed.
Next Obligation.
  intros k n pt aad c Hc. rewrite (toy_seal_eq _ _ _ _ _ Hc), toy_open_seal. by rewrite !bool_decide_eq_true_2.
Qed.
Next Obligation.
  intros k n pt aad c k' n' aad' pt' Hc. rewrite (toy_seal_eq _ _ _ _ _ Hc), toy_open_seal.
  repeat case_bool_decide; simplify_eq/=; done.
Qed.

Definition demo_salt : byte_list := replicate 32 7.
Definition demo_nonce : byte_list := replicate 12 9.

Definition demo_key : byte_list := [1] ++ demo_salt ++ [65536; 3; 1; 32].
Definition demo_body : byte_list :=
  default [] (toy_seal demo_key demo_nonce VERIFIER_PLAINTEXT
    (encode_kdf_record KdfParams.defaults demo_salt)).

Lemma kdf_record_roundtrip_and_caps_witness :
  decode_kdf_record (encode_kdf_record KdfParams.defaults demo_salt) =
    inr (mkRecord KdfParams.defaults demo_salt).
Proof. apply kdf_record_roundtrip_and_caps; [split; vm_compute; split; congruence|reflexivity]. Defined.

Lemma enable_then_unlock_witness :
  let o := (run (enable "/d" [1] KdfParams.defaults demo_salt demo_nonce) (mkOs ∅ ∅ [])).2 in
  (run (verify_and_derive "/d" [2]) o).1 = inr None.
Proof.
  pose proof (enable_then_unlock "/d" [1] KdfParams.defaults demo_salt demo_nonce demo_key demo_body ∅ ∅) as Hw.
  destruct (run (enable "/d" [1] KdfParams.defaults demo_salt demo_nonce) (mkOs ∅ ∅ [])) as [r o].
  edestruct Hw as [_ Hv].
  - split; vm_compute; split; congruence.
  - reflexivity.
  - reflexivity.
  - reflexivity.
  - reflexivity.
  - etransitivity; [apply (Hv [2])|]. vm_compute. reflexivity.
Defined.

Lemma tampered_record_never_unlocks_witness :
  let o := (run (enable "/d" [1] KdfParams.defaults demo_salt demo_nonce) (mkOs ∅ ∅ [])).2 in
  let kb := encode_kdf_record (mkParams 1 1 1) demo_salt in
  let o' := (run (write_bytes_atomic "/d/credentials.kdf" kb) o).2 in
  (run (verify_and_derive "/d" [1]) o').1 <> inr (Some ([1] ++ demo_salt ++ [1; 1; 1; 32])).
Proof.
  intros o kb o'.
  eapply (tampered_record_never_unlocks "/d" [1] KdfParams.defaults demo_salt demo_nonce demo_key demo_body
    (encode_kdf_record (mkParams 1 1 1) demo_salt) (mkRecord (mkParams 1 1 1) demo_salt) ∅ ∅);
    try reflexivity.
  - split; vm_compute; split; congruence.
  - repeat constructor; vm_compute; congruence.
  - discriminate.
Defined.

(** The two files are replaced one after the other: after a crash between the writes
    of a password change, neither the old nor the new password opens the vault. *)
Example crash_between_files_locks_out :
  let old := (run (enable "/d" [1] KdfParams.defaults demo_salt demo_nonce) (mkOs ∅ ∅ [])).2 in
  let o := crash 10 (change_password "/d" [1] [2] KdfParams.defaults (replicate 32 8) demo_nonce) old in
  (run (verify_and_derive "/d" [1]) old).1 <> inr None /\
  (run (verify_and_derive "/d" [1]) o).1 = inr None /\
  (run (verify_and_derive "/d" [2]) o).1 = inr None.
Proof. vm_compute. split; [discriminate|]. split; reflexivity. Qed.
