(* ===== verification/ConfigStore.v ===== *)
(** * The configuration store ([config_store.rs])

    The actor behind [config.json]: an in-memory state, a debounced pending write and
    the bus notification.  Every method is a sequence of atomic calls over [world]: a
    critical section on [Inner], a disk operation, a publish.  The clock is an argument
    ([now], in milliseconds); the disk is the one of [AtomicFile], which can lose its power and
    decides which operations fail. *)
From Stdlib Require Import ZArith Lia.
From stdpp Require Import prelude gmap strings list.
From S2P Require Import Prelude Types Bus Json SecurityConfig Config Prog AtomicFile Codec.

Local Open Scope prog_scope.

Definition DEBOUNCE : Z := 300.
Definition FILE_NAME : string := "config.json".

Record Inner := mkInner {
  file_path : option string;
  current : option AppConfig;
  pending : option AppConfig;
  pending_at : option Z;
  loaded_from_disk : bool
}.

(** A file is text or not UTF-8. *)
Inductive content := NotUtf8 | Text (t : string).

#[export] Instance content_inhabited : Inhabited content := populate (Text "").

(** [bus] is [None] until the application state exists. *)
Record world := mkWorld {
  inner : Inner;
  disk : Disk content;
  bus : option EventBus
}.

Definition on_a_disk (d : Disk content) (w : world) : world := mkWorld (inner w) d (bus w).

Inductive StoreError :=
| InitParse
| InitUtf8
| ParseError
| NotInitialised
| NoCurrentState
| WriteFailed.

Module Store.
Section Ops.
Context `{SerdeText}.

Definition new : Inner := mkInner None None None None false.

(** A locked section, and the disk operations. *)
Definition section {A} (f : Inner -> A * Inner) (w : world) : A * world :=
  let '(a, g) := f (inner w) in (a, mkWorld g (disk w) (bus w)).

Definition on_disk {A} (p : prog (Disk content) A) : prog world A := zoom disk on_a_disk p.

Definition read_file (path : string) (d : Disk content) : option content * Disk content :=
  let '(b, d') := DiskFs.next_verdict d in ((if b then None else DiskFs.read path d'), d').

Definition publish (e : Event) (w : world) : unit * world :=
  (tt, mkWorld (inner w) (disk w)
         (match bus w with Some b => Some (EventBus.publish e b).2 | None => None end)).

Definition to_string (c : AppConfig) : string := to_text (AppConfig.to_json_value c).

Definition init (support_dir : string) : prog world (StoreError + string) :=
  let path := (support_dir ++ "/" ++ FILE_NAME)%string in
  let! raw := on_disk (call (read_file path)) in
  let parsed :=
    match raw with
    | Some NotUtf8 => inl InitUtf8
    | Some (Text t) =>
        match from_text t with
        | Some v => inr (true, AppConfig.from_json_value v)
        | None => inl InitParse
        end
    | None => inr (false, AppConfig.default)
    end in
  match parsed with
  | inl e => Ret (inl e)
  | inr (loaded, cfg) =>
      let! _ := call (section (fun _ => (tt, mkInner (Some path) (Some cfg) None None loaded))) in
      Ret (inr (to_string cfg))
  end.

Definition was_loaded_from_disk (g : Inner) : bool := loaded_from_disk g.

Definition get_json (g : Inner) : option string := to_string <$> current g.

Definition get_app_config (g : Inner) : option AppConfig := current g.

(** The common tail of the setters: swap the state and arm the timer. *)
Definition arm (now : Z) (c : AppConfig) (g : Inner) : Inner :=
  mkInner (file_path g) (Some c) (Some c) (Some (now + DEBOUNCE)%Z) (loaded_from_disk g).

Definition set_json (now : Z) (new_json : string) : prog world (StoreError + unit) :=
  match from_text new_json with
  | None => Ret (inl ParseError)
  | Some value =>
      let cfg := AppConfig.from_json_value value in
      call (section (fun g =>
        match file_path g with
        | None => (inl NotInitialised, g)
        | Some _ => (inr tt, arm now cfg g)
        end))
  end.

(** The partial updates: [None] from [f] is the idempotent skip. *)
Definition update_with (now : Z) (f : AppConfig -> option AppConfig) (g : Inner) :
    (StoreError + unit) * Inner :=
  match file_path g with
  | None => (inl NotInitialised, g)
  | Some _ =>
      match current g with
      | None => (inl NoCurrentState, g)
      | Some cur => match f cur with None => (inr tt, g) | Some c => (inr tt, arm now c g) end
      end
  end.

Definition with_sync (s : SyncConfig) (c : AppConfig) : AppConfig :=
  {| terminal := terminal c; ssh := ssh c; ui := ui c; behavior := behavior c;
     transfer_workers := transfer_workers c; max_history := max_history c; locale := locale c;
     security := security c; security_probe_cache := security_probe_cache c;
     recordings_storage_cap_bytes := recordings_storage_cap_bytes c; Config.sync := s |}.

Definition with_probe_cache (p : option SecurityCapabilities) (c : AppConfig) : AppConfig :=
  {| terminal := terminal c; ssh := ssh c; ui := ui c; behavior := behavior c;
     transfer_workers := transfer_workers c; max_history := max_history c; locale := locale c;
     security := security c; security_probe_cache := p;
     recordings_storage_cap_bytes := recordings_storage_cap_bytes c; Config.sync := Config.sync c |}.

Definition with_security (s : option SecurityConfig) (c : AppConfig) : AppConfig :=
  {| terminal := terminal c; ssh := ssh c; ui := ui c; behavior := behavior c;
     transfer_workers := transfer_workers c; max_history := max_history c; locale := locale c;
     security := s; security_probe_cache := security_probe_cache c;
     recordings_storage_cap_bytes := recordings_storage_cap_bytes c; Config.sync := Config.sync c |}.

Definition update_sync (now : Z) (s : SyncConfig) : prog world (StoreError + unit) :=
  call (section (update_with now (fun c => Some (with_sync (SyncConfig.sanitized s) c)))).

Definition update_security_probe_cache (now : Z) (caps : option SecurityCapabilities) :
    prog world (StoreError + unit) :=
  call (section (update_with now (fun c => Some (with_probe_cache caps c)))).

(** The tier under the modifiers already stored. *)
Definition resolve_tier (t : SecurityTier) (c : AppConfig) : SecurityConfig :=
  {| tier := t; modifiers := default SecurityTierModifiers.default (modifiers <$> security c) |}.

Definition set_tier (now : Z) (t : SecurityTier) : Inner -> (StoreError + unit) * Inner :=
  update_with now (fun c =>
    if decide (security c = Some (resolve_tier t c)) then None
    else Some (with_security (Some (resolve_tier t c)) c)).

Definition update_security_tier (now : Z) (t : SecurityTier) : prog world (StoreError + unit) :=
  call (section (set_tier now t)).

(** [write_to_disk]: the directory, then the atomic write. *)
Definition write_to_disk (path json : string) : prog world (StoreError + unit) :=
  let! dir_fails := on_disk (call DiskFs.next_verdict) in
  if dir_fails : bool then Ret (inl WriteFailed)
  else
    let! r := on_disk (write_bytes_atomic path (Text json)) in
    match r with inr _ => Ret (inr tt) | inl _ => Ret (inl WriteFailed) end.

Definition flush : prog world (StoreError + option string) :=
  let! taken := call (section (fun g =>
    match file_path g with
    | None => (None, g)
    | Some path =>
        (Some (path, match pending g with Some p => Some p | None => current g end),
         mkInner (file_path g) (current g) None None (loaded_from_disk g))
    end)) in
  match taken with
  | None => Ret (inr None)
  | Some (_, None) => Ret (inr None)
  | Some (path, Some cfg) =>
      let json := to_string cfg in
      let! wr := write_to_disk path json in
      match wr with
      | inl e => Ret (inl e)
      | inr _ =>
          let! _ := call (publish (ConfigChanged json)) in
          Ret (inr (Some json))
      end
  end.

Definition due (now : Z) (g : Inner) : bool :=
  match pending_at g, pending g with
  | Some when, Some _ => bool_decide (when <= now)%Z
  | _, _ => false
  end.

Definition tick_if_due (now : Z) : prog world (StoreError + bool) :=
  let! d := call (section (fun g => (due now g, g))) in
  if d then
    let! r := flush in
    match r with inl e => Ret (inl e) | inr _ => Ret (inr true) end
  else Ret (inr false).

End Ops.
End Store.

(** ** Complete calls *)
Inductive store_op :=
| Init (dir : string)
| SetJson (now : Z) (t : string)
| UpdateSync (now : Z) (s : SyncConfig)
| UpdateProbeCache (now : Z) (c : option SecurityCapabilities)
| UpdateTier (now : Z) (t : SecurityTier)
| Flush
| Tick (now : Z).

Section Laws.
Context `{SerdeText}.
Import Store.

Definition store_exec (w : world) (o : store_op) : world :=
  match o with
  | Init dir => (run (init dir) w).2
  | SetJson now t => (run (set_json now t) w).2
  | UpdateSync now s => (run (update_sync now s) w).2
  | UpdateProbeCache now c => (run (update_security_probe_cache now c) w).2
  | UpdateTier now t => (run (update_security_tier now t) w).2
  | Flush => (run flush w).2
  | Tick now => (run (tick_if_due now) w).2
  end.

Definition store_run (w : world) (os : list store_op) : world := foldl store_exec w os.

Lemma load_in_bounds t v : from_text t = Some v -> in_bounds (AppConfig.from_json_value v).
Proof.
  intros Ht. destruct v as [| | | | |m]; try apply default_in_bounds.
  apply (sanitized_in_bounds); simpl; by apply from_json_not_nan, (from_text_finite t).
Qed.

Lemma with_sync_in_bounds s c : in_bounds c -> in_bounds (with_sync (SyncConfig.sanitized s) c).
Proof.
  intros [H1 H2 H3 H4 H5 H6 H7 H8 H9].
  destruct (sanitized_in_bounds (with_sync s AppConfig.default)) as [_ _ _ _ _ _ S1 S2 S3]; try done.
Qed.

Lemma with_probe_cache_in_bounds p c : in_bounds c -> in_bounds (with_probe_cache p c).
Proof. by intros [H1 H2 H3 H4 H5 H6 H7 H8 H9]. Qed.

Lemma with_security_in_bounds s c : in_bounds c -> in_bounds (with_security s c).
Proof. by intros [H1 H2 H3 H4 H5 H6 H7 H8 H9]. Qed.

(** What a setter does to the state: nothing, or one in-bounds change. *)
Definition changes (o : store_op) (g g' : Inner) : Prop :=
  g' = g \/
  exists c now, g' = arm now c g /\ in_bounds c /\ is_Some (file_path g).

Definition setter (o : store_op) : bool :=
  match o with Init _ | Flush | Tick _ => false | _ => true end.

Lemma setter_changes o w :
  setter o = true -> (forall c, current (inner w) = Some c -> in_bounds c) ->
  exists g', store_exec w o = mkWorld g' (disk w) (bus w) /\ changes o (inner w) g'.
Proof.
  intros Ho Hc.
  assert (Hsec : forall now f,
    (forall c c', in_bounds c -> f c = Some c' -> in_bounds c') ->
    exists g', (run (call (section (update_with now f))) w).2 =
      mkWorld g' (disk w) (bus w) /\ changes o (inner w) g').
  { intros now f Hf. rewrite run_call. unfold section, update_with.
    destruct w as [g d b]; simpl in *.
    destruct (file_path g) eqn:Hp; [|eexists; split; [done|by left]].
    destruct (current g) as [c|] eqn:Hcur; [|eexists; split; [done|by left]].
    destruct (f c) as [c'|] eqn:Hfc; (eexists; split; [done|]); [|by left].
    right. exists c', now. split; [done|]. split; [|rewrite Hp; eauto]. by eapply Hf; [apply Hc|]. }
  destruct o as [| now t|now s|now p|now t| |]; try done; simpl.
  - unfold set_json. destruct (from_text t) as [v|] eqn:Ht; simpl.
    + unfold section. destruct w as [g d b]; simpl in *.
      destruct (file_path g) eqn:Hp; simpl; eexists; (split; [done|]); [|by left].
      right. exists (AppConfig.from_json_value v), now. split; [done|].
      split; [by eapply load_in_bounds|]. rewrite Hp. eauto.
    + exists (inner w). split; [by destruct w|by left].
  - apply Hsec. intros c c' Hb [= <-]. by apply with_sync_in_bounds.
  - apply Hsec. intros c c' Hb [= <-]. by apply with_probe_cache_in_bounds.
  - apply Hsec. intros c c' Hb. case_decide; [done|]. intros [= <-]. by apply with_security_in_bounds.
Qed.

(** ** [flush] *)
Definition target (g : Inner) : option (string * AppConfig) :=
  match file_path g, pending g, current g with
  | Some p, Some c, _ => Some (p, c)
  | Some p, None, Some c => Some (p, c)
  | _, _, _ => None
  end.

Definition unarmed (g : Inner) : Inner :=
  match file_path g with
  | None => g
  | Some _ => mkInner (file_path g) (current g) None None (loaded_from_disk g)
  end.

Lemma run_on_disk {A} (p : prog (Disk content) A) w :
  run (on_disk p) w = ((run p (disk w)).1, on_a_disk (run p (disk w)).2 w).
Proof. apply run_zoom; try done. by intros []. Qed.



(** Without failing operations. *)
Lemma run_flush g d b : verdicts d = [] ->
  match target g with
  | None => run flush (mkWorld g d b) = (inr None, mkWorld (unarmed g) d b)
  | Some (p, c) => exists o,
      let d' := mkDisk (<[p := mkFile (Text (to_string c)) true]> (names d)) o [] in
      run flush (mkWorld g d b) =
        (inr (Some (to_string c)),
         mkWorld (unarmed g) d'
           (match b with Some b => Some (EventBus.publish (ConfigChanged (to_string c)) b).2 | None => None end)) /\
      forall m, DiskFs.power_loss d' m -> m p = Some (Text (to_string c))
  end.
Proof.
  intros Hv. assert (Hgo : forall p c, exists o, let d' := mkDisk (<[p := mkFile (Text (to_string c)) true]> (names d)) o [] in
    (forall g, run (write_to_disk p (to_string c)) (mkWorld g d b) = (inr tt, mkWorld g d' b)) /\
    forall m, DiskFs.power_loss d' m -> m p = Some (Text (to_string c))).
  { intros p c. destruct (run_durable p (Text (to_string c)) d Hv) as (o & Hr & Hm). exists o. split; [|done]. intros g0.
    unfold write_to_disk. rewrite run_bind, run_on_disk, run_call. unfold DiskFs.next_verdict. cbn [disk]. rewrite Hv. cbn [fst snd].
    change (on_a_disk d (mkWorld g0 d b)) with (mkWorld g0 d b). rewrite run_bind, run_on_disk. cbn [disk]. by rewrite Hr. }
  unfold flush, target, unarmed. destruct g as [[p|] [c|] [q|] pa l]; cbn [file_path pending current]; try done.
  all: match goal with |- context [mkFile (Text (to_string ?x)) true] => destruct (Hgo p x) as (o & Hr & Hm); exists o; split; [|done] end; rewrite run_bind, run_call; cbn [section fst snd disk bus inner file_path current pending loaded_from_disk];
    rewrite run_bind; by rewrite Hr.
Qed.







(** ** Nothing is lost *)

(** After the launch that loaded [c0], with [d0] in the file. *)
Record account (path : string) (c0 : AppConfig) (d0 : option content) (w : world) : Prop := {
  acc_path : file_path (inner w) = Some path;
  acc_faults : verdicts (disk w) = [];
  acc_current : exists c, current (inner w) = Some c /\ in_bounds c /\
    match pending (inner w) with
    | Some p => p = c /\ is_Some (pending_at (inner w))
    | None => DiskFs.read path (disk w) = Some (Text (to_string c)) \/
        (c = c0 /\ DiskFs.read path (disk w) = d0)
    end
}.

Lemma account_flush path c0 d0 w :
  account path c0 d0 w -> account path c0 d0 (run flush w).2 /\
  pending (inner (run flush w).2) = None.
Proof.
  intros [Hp Hf (c & Hc & Hb & Hpend)]. destruct w as [g d b].
  cbn [inner disk bus] in *. assert (Hr := run_flush g d b Hf).
  assert (Ht : target g = Some (path, c)).
  { unfold target. rewrite Hp, Hc. destruct (pending g); naive_solver. }
  rewrite Ht in Hr. destruct Hr as (o & -> & _). unfold unarmed. rewrite Hp. split; [|done]. split; [done|done|].
  exists c. split; [done|]. split; [done|]. left. unfold DiskFs.read. cbn. by rewrite lookup_insert_eq.
Qed.

Lemma account_step path c0 d0 w o :
  match o with Init _ => False | _ => True end ->
  account path c0 d0 w -> account path c0 d0 (store_exec w o).
Proof.
  intros Ho Ha. destruct (setter o) eqn:Hs.
  - pose proof Ha as [Hp Hf (c & Hc & Hb & Hpend)].
    destruct (setter_changes o w Hs) as (g' & -> & [->|(c' & now & -> & Hb' & _)]).
    + intros c1 Hc1. congruence.
    + split; simpl; try done. exists c. done.
    + split; simpl; try done. exists c'. split; [done|]. split; [done|]. split; [done|]. eauto.
  - destruct o as [| | | | | |now]; try done; cbn [store_exec].
    + by apply account_flush.
    + unfold tick_if_due. rewrite run_bind, run_call. unfold section.
      destruct w as [g d b]. cbn [inner disk bus].
      destruct (due now g); [|done]. rewrite run_bind.
      pose proof (account_flush path c0 d0 (mkWorld g d b) Ha) as [Hfl _].
      by destruct (run flush (mkWorld g d b)) as [[e|r] w'].
Qed.

(** no change of settings is lost.  After a launch, and any sequence of setter
    calls, ticks and flushes run to completion without disk failures, the store still
    has one current configuration, in bounds, and it is either pending with its timer
    armed, or what [config.json] holds, or the configuration loaded at launch,
    unchanged; and a flush leaves nothing pending. *)
Theorem settings_are_never_lost (path : string) (c0 : AppConfig) (w : world) (os : list store_op)
    (Hp : file_path (inner w) = Some path) (Hc : current (inner w) = Some c0)
    (Hb : in_bounds c0) (Hn : pending (inner w) = None) (Hf : verdicts (disk w) = [])
    (Hos : forall d, Init d ∉ os) :
  let w' := store_run w os in
  (exists c, current (inner w') = Some c /\ in_bounds c /\
    match pending (inner w') with
    | Some p => p = c /\ is_Some (pending_at (inner w'))
    | None => DiskFs.read path (disk w') = Some (Text (to_string c)) \/
        (c = c0 /\ DiskFs.read path (disk w') = DiskFs.read path (disk w))
    end) /\
  pending (inner (store_exec w' Flush)) = None.
Proof.
  assert (Hgen : forall w1, account path c0 (DiskFs.read path (disk w)) w1 -> account path c0 (DiskFs.read path (disk w)) (store_run w1 os)).
  { clear Hp Hc Hn Hf. induction os as [|o os IH]; intros w1 Ha; [done|]. apply IH.
    - intros d Hd. apply (Hos d). by right.
    - apply account_step; [|done]. destruct o; try done. apply (Hos dir). by left. }
  destruct (Hgen w) as [Hp' Hf' Hc'].
  { split; try done. exists c0. rewrite Hn. auto. }
  split; [exact Hc'|]. apply (account_flush path c0 (DiskFs.read path (disk w))). by split.
Qed.

(** what a flush wrote is what the next launch loads.  For a store whose current
    configuration is representable and whose text reads back, a flush without
    failures publishes that text once, and a fresh process initialised on the same
    directory loads exactly that configuration and knows it came from disk. *)
Theorem flush_survives_restart (dir : string) (g : Inner) (c : AppConfig)
    (d : Disk content) (b : EventBus) (Hd : verdicts d = [])
    (Hp : file_path g = Some (dir ++ "/" ++ FILE_NAME)%string)
    (Hc : current g = Some c) (Hpend : forall p, pending g = Some p -> p = c)
    (Hs : AppConfig.sanitized c = c) (Hr : representable c)
    (Ht : text_exact (AppConfig.to_json_value c)) (Hb : bus_wf b) :
  let '(r, w) := run flush (mkWorld g d (Some b)) in
  r = inr (Some (to_string c)) /\
  (sent <$> bus w) = Some (sent b ++ [ConfigChanged (to_string c)]) /\
  let '(r2, w2) := run (init dir) (mkWorld new (disk w) None) in
  r2 = inr (to_string c) /\ get_app_config (inner w2) = Some c /\
  was_loaded_from_disk (inner w2) = true.
Proof.
  assert (Hfl := run_flush g d (Some b) Hd).
  assert (Htg : target g = Some ((dir ++ "/" ++ FILE_NAME)%string, c)).
  { unfold target. rewrite Hp, Hc. destruct (pending g) as [p|]; [|done].
    by rewrite (Hpend p). }
  rewrite Htg in Hfl. destruct Hfl as (o & -> & _). split; [done|]. split; [simpl; by rewrite publish_sent|].
  unfold init. rewrite run_bind, run_on_disk, run_call. unfold read_file, DiskFs.read; simpl.
  rewrite lookup_insert_eq. unfold to_string. unfold text_exact in Ht. simpl. rewrite Ht.
  rewrite config_roundtrip, Hs by done. simpl. done.
Qed.

End Laws.

(** ** Witnesses and two limits *)
Definition demo_config : AppConfig :=
  Store.with_security (Some {| tier := Keychain; modifiers := SecurityTierModifiers.default |})
    AppConfig.default.

Definition demo_path : string := "/d/config.json".


(** After six calls, the data written and flushed but not renamed, only the temporary file is
    there. *)
Example cut_before_rename_leaves_tmp :
  let w := mkWorld (mkInner (Some demo_path) (Some demo_config) (Some demo_config) (Some 300%Z) false) (mkDisk ∅ [] []) None in
  (map_to_list (names (disk (crash 6 Store.flush w)))).*1 = ["/d/config.json.tmp00000000"%string] /\
  (map_to_list (names (disk (run Store.flush w).2))).*1 = [demo_path].
Proof. vm_compute. split; reflexivity. Qed.

Lemma settings_are_never_lost_witness :
  let w := mkWorld (mkInner (Some demo_path) (Some AppConfig.default) None None false) (mkDisk ∅ [] []) None in
  let w' := store_run w [UpdateTier 0 Keychain; Tick 100; Tick 400] in
  DiskFs.read demo_path (disk w') = Some (Text (Store.to_string demo_config)) /\
  pending (inner (store_exec w' Flush)) = None.
Proof.
  split; [vm_compute; reflexivity|].
  apply (settings_are_never_lost demo_path AppConfig.default); try reflexivity.
  - apply default_in_bounds.
  - intros d Hd. repeat (apply elem_of_cons in Hd as [Hd|Hd]; [done|]). by apply elem_of_nil in Hd.
Defined.

Lemma flush_survives_restart_witness :
  let g := mkInner (Some demo_path) (Some demo_config) (Some demo_config) (Some 300%Z) false in
  let '(r, w) := run Store.flush (mkWorld g (mkDisk ∅ [] []) (Some EventBus.new)) in
  let '(r2, w2) := run (Store.init "/d") (mkWorld Store.new (disk w) None) in
  Store.get_app_config (inner w2) = Some demo_config.
Proof.
  pose proof (flush_survives_restart "/d"
    (mkInner (Some demo_path) (Some demo_config) (Some demo_config) (Some 300%Z) false)
    demo_config (mkDisk ∅ [] []) EventBus.new eq_refl eq_refl eq_refl) as Hw.
  cbv zeta. destruct (run Store.flush _) as [r w].
  destruct Hw as (_ & _ & Hw).
  - by intros p [= <-].
  - vm_compute. reflexivity.
  - split; try reflexivity; repeat split; vm_compute; discriminate.
  - vm_compute. reflexivity.
  - apply bus_wf_new.
  - destruct (run (Store.init "/d") _) as [r2 w2]. apply Hw.
Defined.

(** [flush] takes the pending state before it knows the write succeeded: after one
    failed write the change is no longer pending, and later ticks do not retry it. *)
Example failed_write_is_not_retried :
  let w := mkWorld (mkInner (Some demo_path) (Some AppConfig.default) None None false) (mkDisk ∅ []
    [true]) None in
  let w' := store_run w [UpdateTier 0 Keychain; Tick 400; Tick 500; Tick 600] in
  current (inner w') = Some demo_config /\ pending (inner w') = None /\
  DiskFs.read demo_path (disk w') = None.
Proof. vm_compute. repeat split. Qed.

(** Two flushes may overlap, because the guard is released before the write: the one
    that took the older configuration can write last. *)
Example overlapping_flush_writes_stale_state :
  let w := mkWorld (mkInner (Some demo_path) (Some AppConfig.default) None None false) (mkDisk ∅ [] []) None in
  let other w := store_exec (store_exec w (UpdateTier 0 Keychain)) Flush in
  let w' := (run_env [id; id; other] Store.flush w).2 in
  current (inner w') = Some demo_config /\ pending (inner w') = None /\
  DiskFs.read demo_path (disk w') = Some (Text (Store.to_string AppConfig.default)).
Proof. vm_compute. repeat split. Qed.
