(* ===== verification/Unlock.v ===== *)
(** * The unlock orchestrators ([security/tier_unlock_orchestrator.rs], [app.rs])

    The per-tier handlers that take the application from locked to unlocked and the
    first-launch handlers that create the key, over the application state they share:
    each call on the secret store, the bus, the tier machine, the limiters, the
    configuration store, the database slot, the file system or the keychain is one
    step.  Random values (keys, salts, nonces, prompt ids), the readings of the clock
    and whether the key-derivation task panicked are arguments.  [ui] is what the other
    tasks do to the application while a handler is parked on a prompt. *)
From Stdlib Require Import ZArith Lia.
From stdpp Require Import prelude gmap strings list.
From S2P Require Import Prelude Types Bus Json SecurityConfig TierMachine Config RateLimit Secrets.
From S2P Require Import PromptRegistry Prog Codec Gate MasterPassword ConfigStore.

Local Open Scope Z_scope.
Local Open Scope prog_scope.

Inductive UnlockOutcome :=
| Staged
| WrongSecret
| Cancelled
| PluginError (code : string)
| Corruption (detail : string).

(** How a call of a handler ends: with its outcome, with a panic that unwinds it, or
    not at all, because the prompt it awaits is never answered. *)
Inductive completion :=
| Done (o : UnlockOutcome)
| Panicked
| Parked.

Definition unlock_reply : Type := string + option byte_list.
Definition seal_reply : Type := string + unit.

Record App := mkApp {
  os : Os;
  secrets : SecretStore;
  bus : EventBus;
  machine : Machine;
  rate_limiters : InMemoryRateLimiterRegistry.Registry;
  store : ConfigStore.Inner;
  (** The open database: its path and the key it was opened with. *)
  db : option (string * byte_list);
  support_dir : option string;
  unlock_prompts : PromptRegistry unlock_reply;
  seal_prompts : PromptRegistry seal_reply
}.

Definition TIER_UNLOCK_KEY_ID : string := ACTIVE_DBKEY_SECRET_ID.
Definition ENCRYPTION_KEY_SLOT : string := "letsflutssh_encryption_key".
Definition KEYCHAIN_PW_UNLOCK_LIMITER_ID : string := "tier_unlock.keychain_with_password".
Definition PARANOID_UNLOCK_LIMITER_ID : string := "tier_unlock.paranoid".
Definition HARDWARE_UNLOCK_LIMITER_ID : string := "tier_unlock.hardware".
(** [db::DB_FILE_NAME] *)
Definition DB_FILE_NAME : string := "letsflutssh.db".

(** ** The calls, each on its part of the application *)
Definition on_os {A} (f : Os -> A * Os) (a : App) : A * App :=
  let '(r, o) := f (os a) in
  (r, mkApp o (secrets a) (bus a) (machine a) (rate_limiters a) (store a) (db a) (support_dir a)
        (unlock_prompts a) (seal_prompts a)).

Definition on_secrets {A} (f : SecretStore -> A * SecretStore) (a : App) : A * App :=
  let '(r, s) := f (secrets a) in
  (r, mkApp (os a) s (bus a) (machine a) (rate_limiters a) (store a) (db a) (support_dir a)
        (unlock_prompts a) (seal_prompts a)).

Definition publish (e : Event) (a : App) : unit * App :=
  (tt, mkApp (os a) (secrets a) (EventBus.publish e (bus a)).2 (machine a) (rate_limiters a)
         (store a) (db a) (support_dir a) (unlock_prompts a) (seal_prompts a)).

Definition instance_dispatch (t : SecurityTier) (e : TierEvent) (a : App) : unit * App :=
  let '(m, b) := (Machine.instance_dispatch t e (machine a) (bus a)).2 in
  (tt, mkApp (os a) (secrets a) b m (rate_limiters a) (store a) (db a) (support_dir a)
         (unlock_prompts a) (seal_prompts a)).

Definition on_limiters {A} (f : InMemoryRateLimiterRegistry.Registry -> A * InMemoryRateLimiterRegistry.Registry)
    (a : App) : A * App :=
  let '(r, g) := f (rate_limiters a) in
  (r, mkApp (os a) (secrets a) (bus a) (machine a) g (store a) (db a) (support_dir a)
        (unlock_prompts a) (seal_prompts a)).

Definition on_store {A} (f : ConfigStore.Inner -> A * ConfigStore.Inner) (a : App) : A * App :=
  let '(r, g) := f (store a) in
  (r, mkApp (os a) (secrets a) (bus a) (machine a) (rate_limiters a) g (db a) (support_dir a)
        (unlock_prompts a) (seal_prompts a)).

Definition on_unlock_prompts {A} (f : PromptRegistry unlock_reply -> A * PromptRegistry unlock_reply)
    (a : App) : A * App :=
  let '(r, p) := f (unlock_prompts a) in
  (r, mkApp (os a) (secrets a) (bus a) (machine a) (rate_limiters a) (store a) (db a)
        (support_dir a) p (seal_prompts a)).

Definition on_seal_prompts {A} (f : PromptRegistry seal_reply -> A * PromptRegistry seal_reply)
    (a : App) : A * App :=
  let '(r, p) := f (seal_prompts a) in
  (r, mkApp (os a) (secrets a) (bus a) (machine a) (rate_limiters a) (store a) (db a)
        (support_dir a) (unlock_prompts a) p).

(** A program over the operating system, run by the application. *)
Fixpoint lift_app {A} (p : prog Os A) : prog App A :=
  match p with
  | Ret a => Ret a
  | Step f k => Step (on_os f) (fun b => lift_app (k b))
  end.

(** What the parked handler finds when it is woken; [None] while nobody answered. *)
Definition received {R} (c : nat) (p : PromptRegistry R) : option (option R) :=
  match channels p !! c with
  | Some (Woken r) => Some (Some r)
  | Some RecvError => Some None
  | _ => None
  end.

Module Orchestrator.
Section Handlers.
Context `{Codec} `{Aead}.
(** [Db::open]: whether SQLCipher opens the file at a path under a key. *)
Variable db_open : gmap string byte_list -> string -> byte_list -> bool.
(** The texts of the platform's and the components' errors. *)
Variable show_io : io_error -> string.
Variable show_gate : GateError -> string.
Variable show_mp : MpError -> string.

Definition db_init (path : string) (key : byte_list) (a : App) : bool * App :=
  if db_open (files (os a)) path key
  then (true, mkApp (os a) (secrets a) (bus a) (machine a) (rate_limiters a) (store a)
                (Some (path, key)) (support_dir a) (unlock_prompts a) (seal_prompts a))
  else (false, a).

Definition stage_key (bytes : byte_list) : prog App unit :=
  call (on_secrets (fun s => (tt, SecretStore.put TIER_UNLOCK_KEY_ID bytes s))).

Definition run_post_unlock_cascade (now : Z) (tier : SecurityTier) : prog App unit :=
  let tier_wire := SecurityTier.wire_name tier in
  let! has_key := call (on_secrets (fun s => (SecretStore.has TIER_UNLOCK_KEY_ID s, s))) in
  let! dir := call (fun a => (support_dir a, a)) in
  match dir with
  | None => call (publish (UnlockCascadeReady tier_wire has_key))
  | Some dir =>
      let! key_bytes := call (on_secrets (fun s => (SecretStore.get TIER_UNLOCK_KEY_ID s, s))) in
      let! _ := call (db_init (join dir DB_FILE_NAME) (default [] key_bytes)) in
      let! _ := call (on_store (Store.set_tier now tier)) in
      let! _ := call (publish SessionsChanged) in
      let! _ := call (publish KeysChanged) in
      let! _ := call (publish KnownHostsChanged) in
      call (publish (UnlockCascadeReady tier_wire has_key))
  end.

(** The two ends every handler shares. *)
Definition succeed (now : Z) (t : SecurityTier) (bytes : byte_list) : prog App completion :=
  let! _ := stage_key bytes in
  let! _ := call (instance_dispatch t UnlockSucceeded) in
  let! _ := run_post_unlock_cascade now t in
  Ret (Done Staged).

Definition fail (t : SecurityTier) (reason : UnlockFailureReason) (o : UnlockOutcome) :
    prog App completion :=
  let! _ := call (instance_dispatch t (UnlockFailed reason)) in
  Ret (Done o).

Definition fail_plugin (t : SecurityTier) (code : string) : prog App completion :=
  fail t (PluginUnavailable code) (PluginError code).

Definition fail_corrupt (t : SecurityTier) (detail : string) : prog App completion :=
  fail t (TierMachine.Corruption detail) (Corruption detail).

Definition unlock_plaintext (now : Z) : prog App unit :=
  let! _ := call (instance_dispatch Plaintext UnlockRequested) in
  let! _ := stage_key [] in
  let! _ := call (instance_dispatch Plaintext UnlockSucceeded) in
  run_post_unlock_cascade now Plaintext.

(** The keychain read both keychain handlers end with. *)
Definition unlock_from_keychain (now : Z) (missing : string) : prog App completion :=
  let! read := call (on_os (Os.keychain_read ENCRYPTION_KEY_SLOT)) in
  match read with
  | inr (Some (b :: bs)) => succeed now Keychain (b :: bs)
  | inr _ => fail_plugin Keychain missing
  | inl e => fail_plugin Keychain ("keychain_read_failed: " ++ show_io e)
  end.

Definition unlock_keychain (now : Z) : prog App completion :=
  let! _ := call (instance_dispatch Keychain UnlockRequested) in
  unlock_from_keychain now "missing_keychain_entry".

Definition limiter_status (now : Z) (id : string) : prog App RateLimitStatus :=
  call (on_limiters (InMemoryRateLimiterRegistry.status now id)).

Definition record_failure (now : Z) (id : string) : prog App unit :=
  call (on_limiters (fun g => (tt, InMemoryRateLimiterRegistry.record_failure now id g))).

Definition record_success (id : string) : prog App unit :=
  call (on_limiters (fun g => (tt, InMemoryRateLimiterRegistry.record_success id g))).

(** [now i] is the handler's [i]-th reading of the clock: the status, the attempt,
    the configuration change. *)
Definition unlock_keychain_with_password (now : nat -> Z) (password : byte_list) :
    prog App completion :=
  let! _ := call (instance_dispatch Keychain UnlockRequested) in
  let! st := limiter_status (now 0%nat) KEYCHAIN_PW_UNLOCK_LIMITER_ID in
  if is_locked st then fail Keychain TierMachine.WrongSecret WrongSecret
  else
    let! dir := call (fun a => (support_dir a, a)) in
    match dir with
    | None => Ret Panicked
    | Some dir =>
        let! v := lift_app (verify_password dir password) in
        match v with
        | inl e => fail_corrupt Keychain (show_gate e)
        | inr false =>
            let! _ := record_failure (now 1%nat) KEYCHAIN_PW_UNLOCK_LIMITER_ID in
            fail Keychain TierMachine.WrongSecret WrongSecret
        | inr true =>
            let! _ := record_success KEYCHAIN_PW_UNLOCK_LIMITER_ID in
            unlock_from_keychain (now 2%nat) "missing_keychain_entry_after_verify"
        end
    end.

(** [spawn_blocking(...).await]: a body that panics, by itself or because no support
    directory is pinned, is [None]. *)
Definition blocking_task {A} (panics : bool) (body : string -> prog Os A) : prog App (option A) :=
  let! dir := call (fun a => (support_dir a, a)) in
  match dir with
  | None => Ret None
  | Some dir =>
      if panics then Ret None else let! r := lift_app (body dir) in Ret (Some r)
  end.

Definition unlock_paranoid (now : nat -> Z) (panics : bool) (password : byte_list) :
    prog App completion :=
  let! _ := call (instance_dispatch Paranoid UnlockRequested) in
  let! st := limiter_status (now 0%nat) PARANOID_UNLOCK_LIMITER_ID in
  if is_locked st then fail Paranoid TierMachine.WrongSecret WrongSecret
  else
    let! key := blocking_task panics (fun dir => verify_and_derive dir password) in
    match key with
    | Some (inr (Some (b :: bs))) =>
        let! _ := record_success PARANOID_UNLOCK_LIMITER_ID in
        succeed (now 2%nat) Paranoid (b :: bs)
    | Some (inr _) =>
        let! _ := record_failure (now 1%nat) PARANOID_UNLOCK_LIMITER_ID in
        fail Paranoid TierMachine.WrongSecret WrongSecret
    | Some (inl e) => fail_corrupt Paranoid (show_mp e)
    | None => fail_corrupt Paranoid "Argon2id task panicked"
    end.

Definition unlock_hardware (now : nat -> Z) (prompt_id : string) (ui : App -> App)
    (password : string) : prog App completion :=
  let! _ := call (instance_dispatch Hardware UnlockRequested) in
  if bool_decide (password = EmptyString) then fail_plugin Hardware "hardware_password_required"
  else
    let! st := limiter_status (now 0%nat) HARDWARE_UNLOCK_LIMITER_ID in
    if is_locked st then fail_plugin Hardware "hardware_vault_rate_limited"
    else
      let! c := call (on_unlock_prompts (PromptRegistry.register prompt_id)) in
      let! _ := call (publish (HardwareVaultUnlockPromptRequest prompt_id (Some password))) in
      let! _ := call (fun a => (tt, ui a)) in
      let! reply := call (fun a => (received c (unlock_prompts a), a)) in
      match reply with
      | Some (Some (inr (Some (b :: bs)))) =>
          let! _ := stage_key (b :: bs) in
          let! _ := record_success HARDWARE_UNLOCK_LIMITER_ID in
          let! _ := call (instance_dispatch Hardware UnlockSucceeded) in
          let! _ := run_post_unlock_cascade (now 2%nat) Hardware in
          Ret (Done Staged)
      | Some (Some (inr _)) =>
          let! _ := record_failure (now 1%nat) HARDWARE_UNLOCK_LIMITER_ID in
          fail Hardware TierMachine.WrongSecret WrongSecret
      | Some (Some (inl detail)) =>
          let! _ := record_failure (now 1%nat) HARDWARE_UNLOCK_LIMITER_ID in
          fail_plugin Hardware detail
      | Some None =>
          let! _ := call (on_unlock_prompts (fun p => (tt, PromptRegistry.cancel prompt_id p))) in
          fail_plugin Hardware "hardware_vault_prompt_cancelled"
      | None => Ret Parked
      end.

Definition first_launch_plaintext (now : Z) : prog App unit :=
  let! _ := call (instance_dispatch Plaintext UnlockRequested) in
  let! _ := stage_key [] in
  let! _ := call (instance_dispatch Plaintext UnlockSucceeded) in
  run_post_unlock_cascade now Plaintext.

Definition first_launch_paranoid (now : Z) (panics : bool) (password slt nonce : byte_list) :
    prog App completion :=
  let! _ := call (instance_dispatch Paranoid UnlockRequested) in
  let! result := blocking_task panics (fun dir => enable dir password KdfParams.defaults slt nonce) in
  match result with
  | Some (inr (b :: bs)) => succeed now Paranoid (b :: bs)
  | Some (inr []) => fail_corrupt Paranoid "master_password::enable returned empty key"
  | Some (inl e) => fail_corrupt Paranoid (show_mp e)
  | None => fail_corrupt Paranoid "Argon2id task panicked"
  end.

Definition write_to_keychain (bytes : byte_list) : prog App (string + unit) :=
  let! r := call (on_os (Os.keychain_write ENCRYPTION_KEY_SLOT bytes)) in
  Ret (match r with inl e => inl ("keychain_write_failed: " ++ show_io e)%string | inr _ => inr tt end).

Definition first_launch_keychain (now : Z) (key : byte_list) : prog App completion :=
  let! _ := call (instance_dispatch Keychain UnlockRequested) in
  let! wr := write_to_keychain key in
  match wr with
  | inr _ => succeed now Keychain key
  | inl detail => fail_plugin Keychain detail
  end.

Definition first_launch_keychain_with_password (now : Z) (password slt pepper key : byte_list) :
    prog App completion :=
  let! _ := call (instance_dispatch Keychain UnlockRequested) in
  let! dir := call (fun a => (support_dir a, a)) in
  match dir with
  | None => Ret Panicked
  | Some dir =>
      let! g := lift_app (set_password dir password slt pepper) in
      match g with
      | inl e => fail_corrupt Keychain (show_gate e)
      | inr _ =>
          let! wr := write_to_keychain key in
          match wr with
          | inr _ => succeed now Keychain key
          | inl detail =>
              let! _ := lift_app (Gate.clear dir) in
              fail_plugin Keychain detail
          end
      end
  end.

Definition db_key_secret_id (prompt_id : string) : string := ("seal_prompt.db_key." ++ prompt_id)%string.
Definition pin_secret_id (prompt_id : string) : string := ("seal_prompt.pin." ++ prompt_id)%string.

Definition put_secret (id : string) (bytes : byte_list) : prog App unit :=
  call (on_secrets (fun s => (tt, SecretStore.put id bytes s))).

Definition take_secret (id : string) : prog App (option byte_list) :=
  call (on_secrets (SecretStore.take id)).

Definition first_launch_hardware (now : Z) (prompt_id : string) (ui : App -> App) (key : byte_list)
    (pin : option string) : prog App completion :=
  let! _ := call (instance_dispatch Hardware UnlockRequested) in
  let! c := call (on_seal_prompts (PromptRegistry.register prompt_id)) in
  let! _ := put_secret (db_key_secret_id prompt_id) key in
  let! _ := match pin with
            | Some p => put_secret (pin_secret_id prompt_id) (utf8 p)
            | None => Ret tt
            end in
  let! _ := call (publish (HardwareVaultSealPromptRequest prompt_id (db_key_secret_id prompt_id)
                             (pin ≫= fun _ => Some (pin_secret_id prompt_id)))) in
  let! _ := call (fun a => (tt, ui a)) in
  let! reply := call (fun a => (received c (seal_prompts a), a)) in
  match reply with
  | None => Ret Parked
  | Some reply =>
      let! outcome :=
        match reply with
        | Some (inr _) => succeed now Hardware key
        | Some (inl detail) => fail_plugin Hardware detail
        | None =>
            let! _ := call (on_seal_prompts (fun p => (tt, PromptRegistry.cancel prompt_id p))) in
            fail_plugin Hardware "hardware_vault_seal_prompt_cancelled"
        end in
      let! _ := take_secret (db_key_secret_id prompt_id) in
      let! _ := match pin with
                | Some _ => let! _ := take_secret (pin_secret_id prompt_id) in Ret tt
                | None => Ret tt
                end in
      Ret outcome
  end.

Definition commit_biometric_unlock (now : Z) (t : SecurityTier) (bytes : byte_list) : prog App unit :=
  let! _ := call (instance_dispatch t UnlockRequested) in
  let! _ := stage_key bytes in
  let! _ := call (instance_dispatch t UnlockSucceeded) in
  run_post_unlock_cascade now t.

Definition commit_biometric_unlock_from_secret (now : Z) (t : SecurityTier) (secret_id : string) :
    prog App bool :=
  let! present := call (on_secrets (fun s => (SecretStore.has secret_id s, s))) in
  if negb present then Ret false
  else
    let! renamed :=
      if bool_decide (secret_id = TIER_UNLOCK_KEY_ID) then Ret true
      else call (on_secrets (SecretStore.rename secret_id TIER_UNLOCK_KEY_ID)) in
    if negb renamed then Ret false
    else
      let! _ := call (instance_dispatch t UnlockRequested) in
      let! _ := call (instance_dispatch t UnlockSucceeded) in
      let! _ := run_post_unlock_cascade now t in
      Ret true.

Definition cancel_unlock (t : SecurityTier) : prog App unit :=
  call (instance_dispatch t (UnlockFailed UserCancelled)).

End Handlers.
End Orchestrator.

(** ** How a handler moves the application *)
Section Frame.
Context (db_open : gmap string byte_list -> string -> byte_list -> bool).
Import Orchestrator.

(** [l] is what subscribers of the tier topic saw between [a] and [a']; the secrets,
    the database and the configuration are untouched. *)
Record kept (l : list string) (a a' : App) : Prop := {
  kept_secrets : secrets a' = secrets a;
  kept_db : db a' = db a;
  kept_store : store a' = store a;
  kept_dir : support_dir a' = support_dir a;
  kept_bus : bus_wf (bus a');
  kept_trace : tier_trace (bus a') = tier_trace (bus a) ++ l
}.

(** The database slot after an attempt to open [key]'s database over the files [fs]. *)
Definition db_after (fs : gmap string byte_list) (key : byte_list) (a : App) :
    option (string * byte_list) :=
  match support_dir a with
  | None => db a
  | Some dir =>
      if db_open fs (join dir DB_FILE_NAME) key then Some (join dir DB_FILE_NAME, key) else db a
  end.

Definition store_after (now : Z) (t : SecurityTier) (a : App) : ConfigStore.Inner :=
  match support_dir a with None => store a | Some _ => (Store.set_tier now t (store a)).2 end.

Record opened (now : Z) (t : SecurityTier) (key : byte_list) (l : list string) (a a' : App) : Prop := {
  opened_machine : machine a' = mkMachine Unlocked t;
  opened_key : SecretStore.get TIER_UNLOCK_KEY_ID (secrets a') = Some key;
  opened_others : forall id, id <> TIER_UNLOCK_KEY_ID ->
    SecretStore.get id (secrets a') = SecretStore.get id (secrets a);
  opened_db : db a' = db_after (files (os a')) key a;
  opened_store : store a' = store_after now t a;
  opened_trace : tier_trace (bus a') = tier_trace (bus a) ++ l;
  opened_ready : last (sent (bus a')) = Some (UnlockCascadeReady (SecurityTier.wire_name t) true)
}.

Record refused (t : SecurityTier) (l : list string) (a a' : App) : Prop := {
  refused_machine : machine a' = mkMachine Locked t;
  refused_kept : kept l a a'
}.

Lemma kept_refl a : bus_wf (bus a) -> kept [] a a.
Proof. intros Hb. split; try done. by rewrite app_nil_r. Qed.

Lemma publish_kept l e a a' :
  (forall w, e <> TierStateChanged w) -> kept l a a' -> kept l a (publish e a').2.
Proof.
  intros He [? ? ? ? Hb Ht]. split; simpl; try done; [by apply bus_wf_publish|].
  by rewrite publish_tier_trace_other.
Qed.

Lemma dispatch_kept l t e s a a' :
  next_state (state (machine a')) e = Some s -> kept l a a' ->
  kept (l ++ [wire_name s]) a (instance_dispatch t e a').2 /\
  machine (instance_dispatch t e a').2 = mkMachine s t.
Proof.
  intros Hn [? ? ? ? Hb Ht]. unfold instance_dispatch, Machine.instance_dispatch, Machine.dispatch.
  cbn [state Machine.set_tier]. rewrite Hn. simpl. split; [|done].
  split; simpl; try done; [by apply bus_wf_publish|].
  by rewrite publish_tier_trace, Ht, app_assoc.
Qed.

Lemma run_lift_app {A} (p : prog Os A) a :
  run (lift_app p) a =
    (let '(r, o) := run p (os a) in (r, (on_os (fun _ => (tt, o)) a).2)).
Proof.
  revert a. induction p as [r|B f k IH]; intros a; simpl; [by destruct a|].
  unfold on_os at 1. destruct (f (os a)) as [b o']. by rewrite IH.
Qed.

(** The cascade: everything it does besides the two side effects is announcing. *)
Lemma run_cascade now t key a :
  bus_wf (bus a) -> SecretStore.get TIER_UNLOCK_KEY_ID (secrets a) = Some key ->
  let a' := (run (run_post_unlock_cascade db_open now t) a).2 in
  machine a' = machine a /\ secrets a' = secrets a /\ os a' = os a /\
  rate_limiters a' = rate_limiters a /\ support_dir a' = support_dir a /\ bus_wf (bus a') /\
  db a' = db_after (files (os a)) key a /\ store a' = store_after now t a /\
  tier_trace (bus a') = tier_trace (bus a) /\
  last (sent (bus a')) = Some (UnlockCascadeReady (SecurityTier.wire_name t) true).
Proof.
  intros Hb Hk. assert (Hhas : SecretStore.has TIER_UNLOCK_KEY_ID (secrets a) = true).
  { unfold SecretStore.has. apply bool_decide_eq_true_2. unfold SecretStore.get in Hk.
    apply fmap_Some in Hk as (b & -> & _). eauto. }
  unfold run_post_unlock_cascade, db_after, store_after, on_secrets, on_store, db_init, publish.
  destruct a as [o s b m g st d [dir|] up sp]; cbn [bus secrets support_dir os db store] in *.
  - simpl. rewrite Hhas, Hk. simpl. destruct (db_open (files o) _ key); simpl;
      destruct (Store.set_tier now t st) as [r st']; simpl;
      repeat (split; [by auto using bus_wf_publish|]);
      (split; [by rewrite !publish_tier_trace_other by auto using bus_wf_publish|]);
      by rewrite publish_sent, last_snoc by auto using bus_wf_publish.
  - simpl. rewrite Hhas. simpl. repeat (split; [by auto using bus_wf_publish|]).
    split; [by rewrite publish_tier_trace_other|]. by rewrite publish_sent, last_snoc.
Qed.

Lemma stage_opened now t key l a a' :
  kept l a a' -> state (machine a') = Unlocking ->
  run (succeed db_open now t key) a' =
    (Done Staged, (run (succeed db_open now t key) a').2) /\
  opened now t key (l ++ ["unlocked"]) a (run (succeed db_open now t key) a').2 /\
  os (run (succeed db_open now t key) a').2 = os a' /\
  rate_limiters (run (succeed db_open now t key) a').2 = rate_limiters a'.
Proof.
  intros [Hs Hd Hst Hdir Hb Ht] Hm. unfold succeed, stage_key. rewrite run_bind, run_call.
  set (a1 := (on_secrets (fun s => (tt, SecretStore.put TIER_UNLOCK_KEY_ID key s)) a').2).
  assert (E1 : on_secrets (fun s => (tt, SecretStore.put TIER_UNLOCK_KEY_ID key s)) a' = (tt, a1)) by done.
  rewrite E1, run_bind, run_call.
  assert (Hk1 : kept [] a1 a1) by by apply kept_refl.
  destruct (dispatch_kept [] t UnlockSucceeded Unlocked a1 a1) as [Hk2 Hm2];
    [subst a1; simpl; by rewrite Hm|done|].
  destruct (instance_dispatch t UnlockSucceeded a1) as [[] a2] eqn:E2. cbn [snd] in Hk2, Hm2.
  rewrite run_bind.
  destruct Hk2 as [Hs2 Hd2 Hst2 Hdir2 Hb2 Ht2].
  assert (Hos2 : os a2 = os a' /\ rate_limiters a2 = rate_limiters a').
  { revert E2. unfold instance_dispatch. destruct (Machine.instance_dispatch _ _ _ _) as [r [m b]].
    simpl. by intros [= <-]. }
  pose proof (run_cascade now t key a2 Hb2) as Hc.
  destruct (run (run_post_unlock_cascade db_open now t) a2) as [[] a3]. cbn [snd] in Hc.
  destruct Hc as (C1 & C2 & C3 & C4 & C5 & C6 & C7 & C8 & C9 & C10);
    [rewrite Hs2; apply get_put_eq|].
  simpl. split; [done|]. split.
  - split.
    + congruence.
    + rewrite C2, Hs2. apply get_put_eq.
    + intros id Hid. rewrite C2, Hs2. subst a1; simpl. rewrite get_put_ne by congruence. by rewrite Hs.
    + rewrite C7, C3. unfold db_after. rewrite Hdir2, Hd2. subst a1; simpl. by rewrite Hdir, Hd.
    + rewrite C8. unfold store_after. rewrite Hdir2, Hst2. subst a1; simpl. by rewrite Hdir, Hst.
    + rewrite C9, Ht2. subst a1; simpl. by rewrite Ht, app_assoc.
    + done.
  - split; [by rewrite C3; apply Hos2|by rewrite C4; apply Hos2].
Qed.

Lemma fail_refused t reason o l a a' :
  kept l a a' -> state (machine a') = Unlocking ->
  run (fail t reason o) a' = (Done o, (instance_dispatch t (UnlockFailed reason) a').2) /\
  refused t (l ++ ["locked"]) a (instance_dispatch t (UnlockFailed reason) a').2.
Proof.
  intros Hk Hm. unfold fail. rewrite run_bind, run_call.
  destruct (dispatch_kept l t (UnlockFailed reason) Locked a a') as [Hk' Hm']; [by rewrite Hm|done|].
  destruct (instance_dispatch t (UnlockFailed reason) a') as [[] a2]. done.
Qed.

End Frame.

(** ** What an attempt grants *)

(** The handlers that settle: the unlocks of the four secret tiers and the first
    launches of three; the hardware prompt is answered with [answer], or dismissed. *)
Inductive attempt :=
| UnlockKeychain
| UnlockKeychainWithPassword (password : byte_list)
| UnlockParanoid (panics : bool) (password : byte_list)
| UnlockHardware (prompt_id : string) (answer : option unlock_reply) (password : string)
| FirstLaunchKeychain (key : byte_list)
| FirstLaunchKeychainWithPassword (password slt pepper key : byte_list)
| FirstLaunchParanoid (panics : bool) (password slt nonce : byte_list).

Definition attempt_tier (at_ : attempt) : SecurityTier :=
  match at_ with
  | UnlockParanoid _ _ | FirstLaunchParanoid _ _ _ _ => Paranoid
  | UnlockHardware _ _ _ => Hardware
  | _ => Keychain
  end.

Definition answer_unlock (prompt_id : string) (answer : option unlock_reply) (a : App) : App :=
  (on_unlock_prompts (fun p =>
     (tt, match answer with
          | Some r => (PromptRegistry.resolve prompt_id r p).2
          | None => PromptRegistry.cancel prompt_id p
          end)) a).2.

Definition nonempty (b : byte_list) : option byte_list := match b with [] => None | _ => Some b end.

Section Contract.
Context `{Codec} `{Aead}.
Context (db_open : gmap string byte_list -> string -> byte_list -> bool).
Context (show_io : io_error -> string) (show_gate : GateError -> string) (show_mp : MpError -> string).
Import Orchestrator.

Definition attempt_prog (now : nat -> Z) (at_ : attempt) : prog App completion :=
  match at_ with
  | UnlockKeychain => unlock_keychain db_open show_io (now 2%nat)
  | UnlockKeychainWithPassword p => unlock_keychain_with_password db_open show_io show_gate now p
  | UnlockParanoid panics p => unlock_paranoid db_open show_mp now panics p
  | UnlockHardware id answer p => unlock_hardware db_open now id (answer_unlock id answer) p
  | FirstLaunchKeychain key => first_launch_keychain db_open show_io (now 2%nat) key
  | FirstLaunchKeychainWithPassword p s pp key =>
      first_launch_keychain_with_password db_open show_io show_gate (now 2%nat) p s pp key
  | FirstLaunchParanoid panics p s n =>
      first_launch_paranoid db_open show_mp (now 2%nat) panics p s n
  end.

Definition locked_out (now : Z) (id : string) (a : App) : bool :=
  is_locked (InMemoryRateLimiterRegistry.status now id (rate_limiters a)).1.

(** The keychain's database key, as a read over [o] finds it. *)
Definition keychain_entry (o : Os) : option byte_list :=
  match (Os.keychain_read ENCRYPTION_KEY_SLOT o).1 with
  | inr (Some b) => nonempty b
  | _ => None
  end.

Definition keychain_stored (key : byte_list) (o : Os) : option byte_list :=
  match (Os.keychain_write ENCRYPTION_KEY_SLOT key o).1 with inr _ => Some key | inl _ => None end.

(** The key an attempt deserves, read off the state it starts from: no machine, no
    bus, no secret store, no counters. *)
Definition granted (now : nat -> Z) (at_ : attempt) (a : App) : option byte_list :=
  dir ← support_dir a;
  match at_ with
  | UnlockKeychain => keychain_entry (os a)
  | UnlockKeychainWithPassword p =>
      if locked_out (now 0%nat) KEYCHAIN_PW_UNLOCK_LIMITER_ID a then None
      else match run (verify_password dir p) (os a) with
           | (inr true, o) => keychain_entry o
           | _ => None
           end
  | UnlockParanoid panics p =>
      if panics || locked_out (now 0%nat) PARANOID_UNLOCK_LIMITER_ID a then None
      else match (run (verify_and_derive dir p) (os a)).1 with
           | inr (Some k) => nonempty k
           | _ => None
           end
  | UnlockHardware _ answer p =>
      if bool_decide (p = EmptyString) || locked_out (now 0%nat) HARDWARE_UNLOCK_LIMITER_ID a then None
      else match answer with Some (inr (Some k)) => nonempty k | _ => None end
  | FirstLaunchKeychain key => keychain_stored key (os a)
  | FirstLaunchKeychainWithPassword p s pp key =>
      match run (set_password dir p s pp) (os a) with
      | (inr _, o) => keychain_stored key o
      | _ => None
      end
  | FirstLaunchParanoid panics p s n =>
      if panics then None
      else match (run (enable dir p KdfParams.defaults s n) (os a)).1 with
           | inr k => nonempty k
           | inl _ => None
           end
  end.

(** A handler between its two dispatches. *)
Record going (t : SecurityTier) (a a1 : App) : Prop := {
  going_kept : kept ["unlocking"] a a1;
  going_machine : machine a1 = mkMachine Unlocking t
}.

Definition settled (now : Z) (t : SecurityTier) (g : option byte_list) (a : App)
    (ra : completion * App) : Prop :=
  match g with
  | Some key => ra.1 = Done Staged /\ opened db_open now t key ["unlocking"; "unlocked"] a ra.2
  | None => (exists o, ra.1 = Done o /\ o <> Staged) /\ refused t ["unlocking"; "locked"] a ra.2
  end.

Lemma begin t a :
  state (machine a) = Locked -> bus_wf (bus a) ->
  exists a1, instance_dispatch t UnlockRequested a = (tt, a1) /\ going t a a1 /\
    os a1 = os a /\ rate_limiters a1 = rate_limiters a /\ unlock_prompts a1 = unlock_prompts a.
Proof.
  intros Hm Hb. exists (instance_dispatch t UnlockRequested a).2.
  destruct (dispatch_kept [] t UnlockRequested Unlocking a a) as [Hk Hma];
    [by rewrite Hm|by apply kept_refl|].
  split; [by destruct (instance_dispatch t UnlockRequested a) as [[] ?]|].
  split; [done|]. unfold instance_dispatch. by destruct (Machine.instance_dispatch _ _ _ _) as [r [m b]].
Qed.

Lemma going_os {A} (f : Os -> A * Os) t a a1 : going t a a1 -> going t a (on_os f a1).2.
Proof. intros [[] ?]. unfold on_os. destruct (f _). by split. Qed.

Lemma going_limiters {A} (f : InMemoryRateLimiterRegistry.Registry -> A * InMemoryRateLimiterRegistry.Registry)
    t a a1 : going t a a1 -> going t a (on_limiters f a1).2.
Proof. intros [[] ?]. unfold on_limiters. destruct (f _). by split. Qed.

Lemma going_prompts {A} (f : PromptRegistry unlock_reply -> A * PromptRegistry unlock_reply)
    t a a1 : going t a a1 -> going t a (on_unlock_prompts f a1).2.
Proof. intros [[] ?]. unfold on_unlock_prompts. destruct (f _). by split. Qed.

Lemma going_publish e t a a1 :
  (forall w, e <> TierStateChanged w) -> going t a a1 -> going t a (publish e a1).2.
Proof. intros He [Hk ?]. split; [|done]. by apply publish_kept. Qed.

Lemma settled_succeed now t key a a1 :
  going t a a1 -> settled now t (Some key) a (run (succeed db_open now t key) a1).
Proof.
  intros [Hk Hm]. destruct (stage_opened db_open now t key _ a a1 Hk) as (E & Ho & _); [by rewrite Hm|].
  rewrite E. done.
Qed.

Lemma settled_fail now t reason o a a1 :
  o <> Staged -> going t a a1 -> settled now t None a (run (fail t reason o) a1).
Proof.
  intros Ho [Hk Hm]. destruct (fail_refused t reason o _ a a1 Hk) as [E Hr]; [by rewrite Hm|].
  rewrite E. split; [by exists o|done].
Qed.


Lemma on_os_eq {A} (f : Os -> A * Os) a : on_os f a = ((f (os a)).1, (on_os f a).2).
Proof. unfold on_os. by destruct (f (os a)). Qed.

Lemma on_limiters_eq {A} (f : InMemoryRateLimiterRegistry.Registry -> A * InMemoryRateLimiterRegistry.Registry) a :
  on_limiters f a = ((f (rate_limiters a)).1, (on_limiters f a).2).
Proof. unfold on_limiters. by destruct (f (rate_limiters a)). Qed.

Lemma on_os_os {A} (f : Os -> A * Os) a : os (on_os f a).2 = (f (os a)).2.
Proof. unfold on_os. by destruct (f (os a)). Qed.

Lemma on_limiters_frame {A} (f : InMemoryRateLimiterRegistry.Registry -> A * InMemoryRateLimiterRegistry.Registry) a :
  os (on_limiters f a).2 = os a /\ support_dir (on_limiters f a).2 = support_dir a /\
  unlock_prompts (on_limiters f a).2 = unlock_prompts a.
Proof. unfold on_limiters. by destruct (f (rate_limiters a)). Qed.

Lemma settled_entry now missing a a1 o :
  going Keychain a a1 -> os a1 = o ->
  settled now Keychain (keychain_entry o) a
    (run (unlock_from_keychain db_open show_io now missing) a1).
Proof.
  intros Hg <-. unfold unlock_from_keychain, keychain_entry.
  rewrite run_bind, run_call, on_os_eq. cbn [fst snd].
  pose proof (going_os (Os.keychain_read ENCRYPTION_KEY_SLOT) Keychain a a1 Hg) as Hg'.
  destruct (Os.keychain_read ENCRYPTION_KEY_SLOT (os a1)).1 as [e|[[|b bs]|]].
  - by apply settled_fail.
  - by apply settled_fail.
  - by apply settled_succeed.
  - by apply settled_fail.
Qed.

(** Reading the limiter changes nothing a later step looks at. *)
Lemma run_limiter_status {A} now id (k : RateLimitStatus -> prog App A) a1 :
  run (let! st := limiter_status now id in k st) a1 =
  run (k (InMemoryRateLimiterRegistry.status now id (rate_limiters a1)).1)
    (on_limiters (InMemoryRateLimiterRegistry.status now id) a1).2.
Proof. unfold limiter_status. by rewrite run_bind, run_call, on_limiters_eq. Qed.

Lemma run_record_success {A} id (q : prog App A) a1 :
  run (let! _ := record_success id in q) a1 =
  run q (on_limiters (fun g => (tt, InMemoryRateLimiterRegistry.record_success id g)) a1).2.
Proof. unfold record_success. by rewrite run_bind, run_call, on_limiters_eq. Qed.

Lemma run_record_failure {A} now id (q : prog App A) a1 :
  run (let! _ := record_failure now id in q) a1 =
  run q (on_limiters (fun g => (tt, InMemoryRateLimiterRegistry.record_failure now id g)) a1).2.
Proof. unfold record_failure. by rewrite run_bind, run_call, on_limiters_eq. Qed.

Lemma run_blocking {A B} panics (body : string -> prog Os A) (k : option A -> prog App B) dir a1 :
  support_dir a1 = Some dir ->
  run (let! r := blocking_task panics body in k r) a1 =
    if panics then run (k None) a1
    else run (k (Some (run (body dir) (os a1)).1))
           (on_os (fun _ => (tt, (run (body dir) (os a1)).2)) a1).2.
Proof.
  intros Hd. unfold blocking_task. rewrite run_bind, run_bind, run_call. rewrite Hd.
  destruct panics; [done|]. rewrite run_bind, run_lift_app. by destruct (run (body dir) (os a1)).
Qed.

Lemma attempt_keychain now a :
  state (machine a) = Locked -> bus_wf (bus a) -> is_Some (support_dir a) ->
  settled (now 2%nat) Keychain (granted now UnlockKeychain a) a (run (attempt_prog now UnlockKeychain) a).
Proof.
  intros Hm Hb [dir Hd]. destruct (begin Keychain a Hm Hb) as (a1 & E & Hg & Ho & _).
  unfold granted. rewrite Hd. cbn [attempt_prog mbind option_bind].
  unfold unlock_keychain. rewrite run_bind, run_call, E. by apply settled_entry.
Qed.

Lemma attempt_keychain_password now p a :
  state (machine a) = Locked -> bus_wf (bus a) -> is_Some (support_dir a) ->
  settled (now 2%nat) Keychain (granted now (UnlockKeychainWithPassword p) a) a
    (run (attempt_prog now (UnlockKeychainWithPassword p)) a).
Proof.
  intros Hm Hb [dir Hd]. destruct (begin Keychain a Hm Hb) as (a1 & E & Hg & Ho & Hl & _).
  unfold granted. rewrite Hd. cbn [attempt_prog mbind option_bind]. unfold locked_out.
  unfold unlock_keychain_with_password. rewrite run_bind, run_call, E, run_limiter_status, <-Hl.
  set (f := InMemoryRateLimiterRegistry.status _ _).
  destruct (on_limiters_frame f a1) as (Fo & Fd & _). pose proof (going_limiters f _ _ _ Hg) as Hg1.
  destruct (is_locked _); [by apply settled_fail|].
  rewrite run_bind, run_call, Fd, (kept_dir _ _ _ (going_kept _ _ _ Hg)), Hd.
  rewrite run_bind, run_lift_app, Fo, Ho.
  destruct (run (verify_password dir p) (os a)) as [[e|[]] o]; cbn [snd].
  - apply settled_fail; [done|]. by apply going_os.
  - rewrite run_record_success. apply settled_entry; [|by rewrite (proj1 (on_limiters_frame _ _))].
    by apply going_limiters, going_os.
  - rewrite run_record_failure. apply settled_fail; [done|]. by apply going_limiters, going_os.
Qed.

Lemma attempt_paranoid now panics p a :
  state (machine a) = Locked -> bus_wf (bus a) -> is_Some (support_dir a) ->
  settled (now 2%nat) Paranoid (granted now (UnlockParanoid panics p) a) a
    (run (attempt_prog now (UnlockParanoid panics p)) a).
Proof.
  intros Hm Hb [dir Hd]. destruct (begin Paranoid a Hm Hb) as (a1 & E & Hg & Ho & Hl & _).
  unfold granted. rewrite Hd. cbn [attempt_prog mbind option_bind]. unfold locked_out.
  unfold unlock_paranoid. rewrite run_bind, run_call, E, run_limiter_status, <-Hl.
  set (f := InMemoryRateLimiterRegistry.status _ _).
  destruct (on_limiters_frame f a1) as (Fo & Fd & _). pose proof (going_limiters f _ _ _ Hg) as Hg1.
  destruct (is_locked _); [rewrite orb_true_r; by apply settled_fail|]. rewrite orb_false_r.
  rewrite (run_blocking _ _ _ dir) by by rewrite Fd, (kept_dir _ _ _ (going_kept _ _ _ Hg)).
  destruct panics; [by apply settled_fail|]. rewrite Fo, Ho.
  set (v := run (verify_and_derive dir p) (os a)). clearbody v.
  destruct v as [[e|[[|b bs]|]] o]; cbn [fst snd nonempty].
  - apply settled_fail; [done|]. by apply going_os.
  - rewrite run_record_failure. apply settled_fail; [done|]. by apply going_limiters, going_os.
  - rewrite run_record_success. apply settled_succeed. by apply going_limiters, going_os.
  - rewrite run_record_failure. apply settled_fail; [done|]. by apply going_limiters, going_os.
Qed.

(** The hardware handler resets its limiter after staging, the others before. *)
Lemma stage_then_record {A} id bytes (q : prog App A) a :
  run (let! _ := stage_key bytes in let! _ := record_success id in q) a =
  run (let! _ := record_success id in let! _ := stage_key bytes in q) a.
Proof. done. Qed.

(** The answer of the prompt that was just registered reaches the parked handler. *)
Lemma answer_received {R} id (answer : option R) p :
  prompts_wf p ->
  received (PromptRegistry.register id p).1
    (match answer with
     | Some r => (PromptRegistry.resolve id r (PromptRegistry.register id p).2).2
     | None => PromptRegistry.cancel id (PromptRegistry.register id p).2
     end) = Some answer.
Proof.
  intros Hp. unfold received. destruct answer as [r|].
  - by rewrite (proj2 (resolve_wakes id r p Hp)).
  - by rewrite (cancel_wakes id p Hp).
Qed.

Lemma attempt_hardware now id answer p a :
  state (machine a) = Locked -> bus_wf (bus a) -> is_Some (support_dir a) ->
  prompts_wf (unlock_prompts a) ->
  settled (now 2%nat) Hardware (granted now (UnlockHardware id answer p) a) a
    (run (attempt_prog now (UnlockHardware id answer p)) a).
Proof.
  intros Hm Hb [dir Hd] Hp. destruct (begin Hardware a Hm Hb) as (a1 & E & Hg & Ho & Hl & Hu).
  unfold granted. rewrite Hd. cbn [attempt_prog mbind option_bind]. unfold locked_out.
  unfold unlock_hardware. rewrite run_bind, run_call, E.
  destruct (bool_decide _); [by apply settled_fail|]. rewrite run_limiter_status, <-Hl.
  set (f := InMemoryRateLimiterRegistry.status _ _). cbn [orb].
  destruct (on_limiters_frame f a1) as (_ & _ & Fu). pose proof (going_limiters f _ _ _ Hg) as Hg1.
  destruct (is_locked _); [by apply settled_fail|].
  set (a2 := (on_limiters f a1).2) in *.
  rewrite run_bind, run_call. unfold on_unlock_prompts at 1. rewrite Fu, Hu.
  destruct (PromptRegistry.register id (unlock_prompts a)) as [c p1] eqn:Er.
  assert (Hg2 : going Hardware a (on_unlock_prompts (fun _ => (tt, p1)) a2).2) by by apply going_prompts.
  unfold on_unlock_prompts in Hg2. cbn [snd] in Hg2.
  revert Hg2. generalize a2 as a0. intros a0. set (a3 := mkApp _ _ _ _ _ _ _ _ _ _). intros Hg3.
  assert (Hu3 : unlock_prompts a3 = p1) by done. clearbody a3. clear a2 Fu Hg1 a0.
  rewrite run_bind, run_call.
  pose proof (going_publish (HardwareVaultUnlockPromptRequest id (Some p)) _ _ _ ltac:(done) Hg3) as Hg4.
  destruct (publish _ a3) as [[] a4] eqn:E4. cbn [snd] in Hg4.
  assert (Hu4 : unlock_prompts a4 = p1) by (injection E4 as <-; done).
  rewrite run_bind, run_call, run_bind, run_call.
  assert (Hg5 : going Hardware a (answer_unlock id answer a4)) by by apply going_prompts.
  assert (Hr : received c (unlock_prompts (answer_unlock id answer a4)) = Some answer).
  { unfold answer_unlock, on_unlock_prompts. cbn [snd unlock_prompts]. rewrite Hu4.
    pose proof (answer_received id answer (unlock_prompts a) Hp) as Hr. by rewrite Er in Hr. }
  rewrite Hr. revert Hg5. generalize (answer_unlock id answer a4). intros a5 Hg5.
  destruct answer as [[e|[[|b bs]|]]|]; cbn [nonempty].
  - rewrite run_record_failure. by apply settled_fail, going_limiters.
  - rewrite run_record_failure. by apply settled_fail, going_limiters.
  - rewrite stage_then_record, run_record_success.
    apply (settled_succeed (now 2%nat) Hardware (b :: bs)). by apply going_limiters.
  - rewrite run_record_failure. by apply settled_fail, going_limiters.
  - rewrite run_bind, run_call. apply settled_fail; [done|]. by apply (going_prompts (fun p => (tt, _))).
Qed.

Lemma attempt_first_keychain now key a :
  state (machine a) = Locked -> bus_wf (bus a) -> is_Some (support_dir a) ->
  settled (now 2%nat) Keychain (granted now (FirstLaunchKeychain key) a) a
    (run (attempt_prog now (FirstLaunchKeychain key)) a).
Proof.
  intros Hm Hb [dir Hd]. destruct (begin Keychain a Hm Hb) as (a1 & E & Hg & Ho & _).
  unfold granted. rewrite Hd. cbn [attempt_prog mbind option_bind]. unfold keychain_stored.
  unfold first_launch_keychain, write_to_keychain.
  rewrite run_bind, run_call, E, run_bind, run_bind, run_call, on_os_eq, Ho. cbn [run].
  pose proof (going_os (Os.keychain_write ENCRYPTION_KEY_SLOT key) _ _ _ Hg) as Hg1.
  destruct (Os.keychain_write ENCRYPTION_KEY_SLOT key (os a)).1 as [e|[]].
  - by apply settled_fail.
  - by apply settled_succeed.
Qed.

Lemma attempt_first_keychain_password now p s pp key a :
  state (machine a) = Locked -> bus_wf (bus a) -> is_Some (support_dir a) ->
  settled (now 2%nat) Keychain (granted now (FirstLaunchKeychainWithPassword p s pp key) a) a
    (run (attempt_prog now (FirstLaunchKeychainWithPassword p s pp key)) a).
Proof.
  intros Hm Hb [dir Hd]. destruct (begin Keychain a Hm Hb) as (a1 & E & Hg & Ho & _).
  unfold granted. rewrite Hd. cbn [attempt_prog mbind option_bind]. unfold keychain_stored.
  unfold first_launch_keychain_with_password, write_to_keychain.
  rewrite run_bind, run_call, E, run_bind, run_call, (kept_dir _ _ _ (going_kept _ _ _ Hg)), Hd.
  rewrite run_bind, run_lift_app, Ho.
  destruct (run (set_password dir p s pp) (os a)) as [[e|[]] o].
  { apply settled_fail; [done|]. by apply going_os. }
  pose proof (going_os (fun _ => (tt, o)) _ _ _ Hg) as Hg1.
  rewrite run_bind, run_bind, run_call, on_os_eq, on_os_os. cbn [run snd].
  pose proof (going_os (Os.keychain_write ENCRYPTION_KEY_SLOT key) _ _ _ Hg1) as Hg2.
  destruct (Os.keychain_write ENCRYPTION_KEY_SLOT key o).1 as [e|[]].
  - rewrite run_bind, run_lift_app. destruct (run (Gate.clear dir) _) as [r o'].
    apply settled_fail; [done|]. by apply going_os.
  - by apply settled_succeed.
Qed.

Lemma attempt_first_paranoid now panics p s n a :
  state (machine a) = Locked -> bus_wf (bus a) -> is_Some (support_dir a) ->
  settled (now 2%nat) Paranoid (granted now (FirstLaunchParanoid panics p s n) a) a
    (run (attempt_prog now (FirstLaunchParanoid panics p s n)) a).
Proof.
  intros Hm Hb [dir Hd]. destruct (begin Paranoid a Hm Hb) as (a1 & E & Hg & Ho & _).
  unfold granted. rewrite Hd. cbn [attempt_prog mbind option_bind].
  unfold first_launch_paranoid. rewrite run_bind, run_call, E.
  rewrite (run_blocking _ _ _ dir) by by rewrite (kept_dir _ _ _ (going_kept _ _ _ Hg)).
  destruct panics; [by apply settled_fail|]. rewrite Ho.
  set (v := run (enable dir p KdfParams.defaults s n) (os a)). clearbody v.
  destruct v as [[e|[|b bs]] o]; cbn [fst snd nonempty].
  - apply settled_fail; [done|]. by apply going_os.
  - apply settled_fail; [done|]. by apply going_os.
  - apply settled_succeed. by apply going_os.
Qed.

(** C1: an attempt opens the application exactly when it deserves to.  Run undisturbed
    from a locked application with its support directory pinned, each of the seven
    handlers of [attempt] (not the plaintext and hardware first launches and not the
    biometric commits) completes; it completes
    with [Staged] exactly when the specification grants a key, and then that very key
    is in the active slot, no other secret changed, the database was opened
    with it if SQLCipher accepts it, the tier is recorded, the subscribers saw
    [unlocking] then [unlocked], and the cascade event came last; in every other case,
    a wrong secret, a missing key, a keychain, KDF, prompt or task failure, the
    machine is locked again, the subscribers saw [unlocking] then [locked], and no
    secret, database or setting changed. *)
Theorem unlock_refines_grant (now : nat -> Z) (at_ : attempt) (a : App)
    (Hm : state (machine a) = Locked) (Hb : bus_wf (bus a)) (Hd : is_Some (support_dir a))
    (Hp : prompts_wf (unlock_prompts a)) :
  let '(r, a') := run (attempt_prog now at_) a in
  let t := attempt_tier at_ in
  match granted now at_ a with
  | Some key =>
      r = Done Staged /\ opened db_open (now 2%nat) t key ["unlocking"; "unlocked"] a a'
  | None =>
      (exists o, r = Done o /\ o <> Staged) /\ refused t ["unlocking"; "locked"] a a'
  end.
Proof.
  assert (Hs : settled (now 2%nat) (attempt_tier at_) (granted now at_ a) a
    (run (attempt_prog now at_) a)).
  { destruct at_.
    - by apply attempt_keychain.
    - by apply attempt_keychain_password.
    - by apply attempt_paranoid.
    - by apply attempt_hardware.
    - by apply attempt_first_keychain.
    - by apply attempt_first_keychain_password.
    - by apply attempt_first_paranoid. }
  revert Hs. unfold settled. by destruct (run (attempt_prog now at_) a).
Qed.

(** ** Guessing through the orchestrator *)

Lemma dispatch_frame t e a :
  os (instance_dispatch t e a).2 = os a /\
  rate_limiters (instance_dispatch t e a).2 = rate_limiters a /\
  support_dir (instance_dispatch t e a).2 = support_dir a.
Proof. unfold instance_dispatch. by destruct (Machine.instance_dispatch _ _ _ _) as [r [m b]]. Qed.

Lemma run_fail_outcome t reason o a :
  run (fail t reason o) a = (Done o, (instance_dispatch t (UnlockFailed reason) a).2).
Proof.
  unfold fail. rewrite run_bind, run_call. by destruct (instance_dispatch t (UnlockFailed reason) a) as [[] a2].
Qed.

Notation entry := (InMemoryRateLimiterRegistry.entry_or_default KEYCHAIN_PW_UNLOCK_LIMITER_ID).

(** One attempt with a password the gate rejects. *)
Lemma wrong_guess now p dir a :
  support_dir a = Some dir -> run (verify_password dir p) (os a) = (inr false, os a) ->
  let a' := (run (unlock_keychain_with_password db_open show_io show_gate now p) a).2 in
  let locked := locked_out (now 0%nat) KEYCHAIN_PW_UNLOCK_LIMITER_ID a in
  (run (unlock_keychain_with_password db_open show_io show_gate now p) a).1 = Done WrongSecret /\
  os a' = os a /\ support_dir a' = Some dir /\
  entry (rate_limiters a') =
    if locked then entry (rate_limiters a)
    else InMemoryRateLimiter.record_failure (now 1%nat) (entry (rate_limiters a)).
Proof.
  intros Hd Hv. unfold unlock_keychain_with_password, locked_out.
  rewrite run_bind, run_call.
  destruct (dispatch_frame Keychain UnlockRequested a) as (Do & Dl & Dd).
  destruct (instance_dispatch Keychain UnlockRequested a) as [[] a1]. cbn [snd] in *.
  rewrite run_limiter_status, Dl. set (f := InMemoryRateLimiterRegistry.status _ _).
  assert (Fl : rate_limiters (on_limiters f a1).2 = (f (rate_limiters a1)).2)
    by (unfold on_limiters; by destruct (f (rate_limiters a1))).
  destruct (on_limiters_frame f a1) as (Fo & Fd & _).
  revert Fl Fo Fd. generalize (on_limiters f a1).2. intros a2 Fl Fo Fd.
  assert (Fe : entry (rate_limiters a2) = entry (rate_limiters a)).
  { rewrite Fl, Dl. subst f. unfold InMemoryRateLimiterRegistry.status. simpl. apply entry_insert_eq. }
  destruct (is_locked (f (rate_limiters a)).1).
  - rewrite run_fail_outcome. cbn [fst snd].
    destruct (dispatch_frame Keychain (UnlockFailed TierMachine.WrongSecret) a2) as (Eo & El & Ed).
    rewrite Eo, El, Ed. split; [done|]. split; [congruence|]. split; [congruence|done].
  - rewrite run_bind, run_call, Fd, Dd, Hd, run_bind, run_lift_app, Fo, Do, Hv.
    rewrite run_record_failure, run_fail_outcome. cbn [fst snd].
    match goal with |- context [instance_dispatch Keychain ?e ?x] =>
      destruct (dispatch_frame Keychain e x) as (Eo & El & Ed) end.
    rewrite Eo, El, Ed. split; [done|]. split; [done|]. split; [simpl; congruence|].
    simpl. unfold InMemoryRateLimiterRegistry.record_failure. rewrite entry_insert_eq. by rewrite Fe.
Qed.

Lemma verify_pure dir p o :
  Prog.faults o = [] -> (run (verify_password dir p) o).2 = o.
Proof.
  intros Hf. destruct o as [fs kc ft]; simpl in Hf; subst ft.
  unfold verify_password; simpl. unfold Os.read_file, Os.fallible; simpl.
  destruct (fs !! join dir HASH_FILE_NAME) as [b|]; [|done]. simpl.
  destruct (from_utf8 b) as [t|]; [|done]. destruct (decode_disk_blob t); [done|]. simpl.
  unfold Os.keychain_read, Os.fallible; simpl. destruct (kc !! PEPPER_KEY) as [pp|]; [|done].
  simpl. by destruct pp.
Qed.

(** A programmatic caller submits passwords one after the other, each with its own
    readings of the clock; the result is the times at which a password was compared. *)
Fixpoint attack (l : list ((nat -> Z) * byte_list)) (a : App) : list Z :=
  match l with
  | [] => []
  | (now, p) :: l =>
      let rest := attack l (run (unlock_keychain_with_password db_open show_io show_gate now p) a).2 in
      if locked_out (now 0%nat) KEYCHAIN_PW_UNLOCK_LIMITER_ID a then rest else now 0%nat :: rest
  end.

Record wrong (dir : string) (o : Os) (g : (nat -> Z) * byte_list) : Prop := {
  wrong_rejected : (run (verify_password dir g.2) o).1 = inr false;
  wrong_start : sane_time (g.1 0%nat);
  wrong_end : sane_time (g.1 1%nat);
  wrong_order : g.1 0%nat <= g.1 1%nat
}.

Lemma wrong_verify dir o g :
  Prog.faults o = [] -> wrong dir o g -> run (verify_password dir g.2) o = (inr false, o).
Proof.
  intros Hf [Hw _ _ _]. pose proof (verify_pure dir g.2 o Hf) as E.
  destruct (run (verify_password dir g.2) o). simpl in *. congruence.
Qed.

Lemma attack_wait l a dir t g :
  Prog.faults (os a) = [] -> support_dir a = Some dir -> Forall (wrong dir (os a)) l ->
  wf g -> sane_time t -> entry (rate_limiters a) = InMemoryRateLimiter.record_failure t g ->
  t + 1000 * wait_from (InMemoryRateLimiter.state_failure_count g) (length (attack l a))
    <= default t (last (attack l a)).
Proof.
  revert a t g. induction l as [|[now p] l IH]; intros a t g Hf Hd Hl Hg Ht He; [simpl; lia|].
  apply Forall_cons in Hl as [Hw Hl]. cbn [attack].
  destruct (wrong_guess now p dir a Hd (wrong_verify _ _ _ Hf Hw)) as (_ & Ho & Hd' & He').
  destruct Hw as [_ Hs0 Hs1 Hle]. cbn [fst] in *.
  destruct (locked_out (now 0%nat) KEYCHAIN_PW_UNLOCK_LIMITER_ID a) eqn:Hlo.
  { apply IH; rewrite ?Ho; try done. congruence. }
  rewrite He in He'.
  pose proof (wf_record_failure t g Hg) as Hg'.
  assert (Hwait : t + 1000 * InMemoryRateLimiter.step
      (Z.min (InMemoryRateLimiter.state_failure_count g + 1) 9) <= now 0%nat).
  { apply unlocked_after_failure; [done..|]. rewrite <-He. exact Hlo. }
  pose proof (IH _ (now 1%nat) _ ltac:(by rewrite Ho) Hd' ltac:(by rewrite Ho) Hg' Hs1 He') as Hr.
  rewrite (record_failure_eq t g) in Hr by apply Hg. simpl in Hr. rewrite cap_eq in Hr.
  set (ts := attack l _) in *. cbn [length wait_from].
  assert (Hlast : default t (last (now 0%nat :: ts)) = default (now 0%nat) (last ts)).
  { destruct ts as [|z ts]; [done|]. simpl. destruct (last (z :: ts)) eqn:El; [done|].
    by apply last_None in El. }
  rewrite Hlast. destruct (last ts) as [z|] eqn:El; simpl in *; [lia|].
  apply last_None in El. rewrite El in *. simpl in *. lia.
Qed.

(** C2: the password gate brakes a programmatic caller.  Whoever calls
    [unlock_keychain_with_password] any number of times, with any wrong passwords and at
    any moments, starting from a fresh limiter: for [n + 10] of its passwords to be
    compared at all, at least [243 + 60 * n] seconds must pass between the first
    comparison and the last.  The calls made in between answer [WrongSecret] whatever the
    password is. *)
Theorem orchestrator_brakes_guessing (l : list ((nat -> Z) * byte_list)) (a : App) (dir : string)
    (n : nat) (t0 t1 : Z)
    (Hf : Prog.faults (os a) = []) (Hd : support_dir a = Some dir) (Hl : Forall (wrong dir (os a)) l)
    (Hfresh : rate_limiters a !! KEYCHAIN_PW_UNLOCK_LIMITER_ID = None)
    (Hlen : length (attack l a) = (10 + n)%nat)
    (Hfst : head (attack l a) = Some t0) (Hlst : last (attack l a) = Some t1) :
  t1 - t0 >= 1000 * (243 + 60 * Z.of_nat n).
Proof.
  assert (He : entry (rate_limiters a) = InMemoryRateLimiter.new)
    by exact (f_equal (default InMemoryRateLimiter.new) Hfresh).
  clear Hfresh. revert a Hf Hd Hl Hlen Hfst Hlst He.
  induction l as [|[now p] l IH]; intros a Hf Hd Hl Hlen Hfst Hlst He; [done|].
  apply Forall_cons in Hl as [Hw Hl]. cbn [attack] in *.
  destruct (wrong_guess now p dir a Hd (wrong_verify _ _ _ Hf Hw)) as (_ & Ho & Hd' & He').
  destruct Hw as [_ Hs0 Hs1 Hle]. cbn [fst] in *. rewrite He in He'.
  destruct (locked_out (now 0%nat) KEYCHAIN_PW_UNLOCK_LIMITER_ID a).
  { apply (IH (run (unlock_keychain_with_password db_open show_io show_gate now p) a).2); rewrite ?Ho; done. }
  simpl in Hfst. injection Hfst as <-.
  pose proof (attack_wait l _ dir (now 1%nat) InMemoryRateLimiter.new ltac:(by rewrite Ho) Hd'
    ltac:(by rewrite Ho) wf_new Hs1 He') as Hr.
  set (ts := attack l _) in *. cbn [length] in Hlen. injection Hlen as Hlen.
  rewrite Hlen in Hr. change (InMemoryRateLimiter.state_failure_count InMemoryRateLimiter.new) with 0 in Hr.
  change (S (S (S (S (S (S (S (S (S n))))))))) with (9 + n)%nat in Hr. rewrite wait_from_0 in Hr.
  destruct ts as [|z ts]; [done|]. change (last (now 0%nat :: z :: ts)) with (last (z :: ts)) in Hlst.
  rewrite Hlst in Hr. simpl in Hr. lia.
Qed.

(** ** First launch, then unlock *)

Lemma run_succeed_os now t key a a1 :
  going t a a1 ->
  (run (succeed db_open now t key) a1).1 = Done Staged /\
  os (run (succeed db_open now t key) a1).2 = os a1.
Proof.
  intros [Hk Hm]. destruct (stage_opened db_open now t key _ a a1 Hk) as (E & _ & Ho & _);
    [by rewrite Hm|]. by rewrite E.
Qed.

(** What the gate's files and the keychain hold after a first launch with a password. *)
Lemma first_launch_os now p s pp key dir fs kc a :
  state (machine a) = Locked -> bus_wf (bus a) -> support_dir a = Some dir -> os a = mkOs fs kc [] ->
  let ra := run (first_launch_keychain_with_password db_open show_io show_gate now p s pp key) a in
  ra.1 = Done Staged /\
  Prog.faults (os ra.2) = [] /\
  gate_state dir (os ra.2) = (Some (utf8 (encode_disk_blob s (compute_gate_hmac pp s p))), Some pp) /\
  Prog.keychain (os ra.2) !! ENCRYPTION_KEY_SLOT = Some key.
Proof.
  intros Hm Hb Hd Ho. destruct (begin Keychain a Hm Hb) as (a1 & E & Hg & Ho1 & _).
  unfold first_launch_keychain_with_password, write_to_keychain.
  rewrite run_bind, run_call, E, run_bind, run_call, (kept_dir _ _ _ (going_kept _ _ _ Hg)), Hd.
  rewrite run_bind, run_lift_app, Ho1, Ho, run_set_password.
  set (o := mkOs _ _ _). pose proof (going_os (fun _ => (tt, o)) _ _ _ Hg) as Hg1.
  rewrite run_bind, run_bind, run_call, on_os_eq, on_os_os. cbn [run snd fst].
  pose proof (going_os (Os.keychain_write ENCRYPTION_KEY_SLOT key) _ _ _ Hg1) as Hg2.
  change (Os.keychain_write ENCRYPTION_KEY_SLOT key o).1 with (inr () : io_error + unit).
  destruct (run_succeed_os now Keychain key a _ Hg2) as [E1 E2]. rewrite E1, E2, on_os_os, on_os_os.
  subst o. unfold gate_state. simpl. split; [done|]. split; [done|].
  pose proof (hash_ne_rate dir) as Hne.
  rewrite lookup_delete_ne, lookup_insert_eq by congruence.
  split; [|apply lookup_insert_eq]. by rewrite lookup_insert_ne, lookup_insert_eq by done.
Qed.

(** C3: what a first launch creates, a later unlock recovers.  A first launch with a
    password succeeds when no call fails; and in any later process over the same disk
    and keychain, while the limiter is open, the unlock handler opens the application
    with the very key that was generated for every password whose keyed hash is that of
    the password set, and stays locked, as a wrong secret, for every other. *)
Theorem first_launch_then_unlock (now1 : Z) (now2 : nat -> Z) (p s pp key p' : byte_list)
    (dir : string) (a a2 : App)
    (Hm : state (machine a) = Locked) (Hb : bus_wf (bus a)) (Hd : support_dir a = Some dir)
    (Hf : Prog.faults (os a) = []) (Hs : bytes_ok s) (Hs0 : s <> []) (Hpp : pp <> []) (Hk : key <> [])
    (Hm2 : state (machine a2) = Locked) (Hb2 : bus_wf (bus a2)) (Hd2 : support_dir a2 = Some dir)
    (Hl2 : locked_out (now2 0%nat) KEYCHAIN_PW_UNLOCK_LIMITER_ID a2 = false) :
  let '(r1, a1) := run (first_launch_keychain_with_password db_open show_io show_gate now1 p s pp key) a in
  r1 = Done Staged /\
  (os a2 = os a1 ->
   let '(r2, a3) := run (unlock_keychain_with_password db_open show_io show_gate now2 p') a2 in
   if bool_decide (hmac_sha256 pp (s ++ p') = hmac_sha256 pp (s ++ p))
   then r2 = Done Staged /\ opened db_open (now2 2%nat) Keychain key ["unlocking"; "unlocked"] a2 a3
   else r2 = Done WrongSecret /\ refused Keychain ["unlocking"; "locked"] a2 a3).
Proof.
  destruct (os a) as [fs kc ft] eqn:Ho. simpl in Hf; subst ft.
  destruct (first_launch_os now1 p s pp key dir fs kc a Hm Hb Hd Ho) as (E1 & Ef & Eg & Ek).
  destruct (run (first_launch_keychain_with_password _ _ _ _ _ _ _ _) a) as [r1 a1]. cbn [fst snd] in *.
  split; [done|]. intros Hos. rewrite <-Hos in Ef, Eg, Ek.
  pose proof (verify_stored dir (os a2) s (compute_gate_hmac pp s p) pp p' Ef Hs
    (hmac_bytes _ _) Hs0 (hmac_nonempty _ _) Hpp Eg) as Hv.
  pose proof (attempt_keychain_password now2 p' a2 Hm2 Hb2 (mk_is_Some _ _ Hd2)) as Hset.
  unfold granted in Hset. rewrite Hd2 in Hset. cbn [mbind option_bind] in Hset.
  rewrite Hl2, Hv in Hset. unfold compute_gate_hmac in *. cbn [attempt_prog] in Hset.
  destruct (bool_decide _) eqn:Hbd.
  - assert (He : keychain_entry (os a2) = Some key).
    { unfold keychain_entry, Os.keychain_read, Os.fallible, Os.next_fault. rewrite Ef. simpl.
      rewrite Ek. by destruct key. }
    rewrite He in Hset. by destruct (run _ a2) as [r2 a3].
  - pose proof (wrong_guess now2 p' dir a2 Hd2 Hv) as (Hr & _).
    destruct (run _ a2) as [r2 a3]. split; [exact Hr|apply Hset].
Qed.

(** ** Transient secrets *)

Lemma cascade_secrets now t a : secrets (run (run_post_unlock_cascade db_open now t) a).2 = secrets a.
Proof.
  unfold run_post_unlock_cascade, on_secrets, on_store, db_init, publish.
  destruct a as [o s b m g st d [dir|] up sp]; simpl; [|done].
  destruct (db_open (files o) _ _); simpl; by destruct (Store.set_tier now t st).
Qed.

Lemma dispatch_secrets t e a : secrets (instance_dispatch t e a).2 = secrets a.
Proof. unfold instance_dispatch. by destruct (Machine.instance_dispatch _ _ _ _) as [r [m b]]. Qed.

Lemma run_call_snd {A B} (f : App -> A * App) (q : A -> prog App B) a :
  run (pbind (call f) q) a = run (q (f a).1) (f a).2.
Proof. rewrite run_bind, run_call. by destruct (f a). Qed.

Lemma run_call_bind {A B C} (f : App -> A * App) (q : A -> prog App B) (q' : B -> prog App C) a :
  run (pbind (pbind (call f) q) q') a = run (pbind (q (f a).1) q') (f a).2.
Proof. simpl. by destruct (f a). Qed.

Lemma succeed_secrets now t key a :
  (run (succeed db_open now t key) a).1 = Done Staged /\
  secrets (run (succeed db_open now t key) a).2 = SecretStore.put TIER_UNLOCK_KEY_ID key (secrets a).
Proof.
  unfold succeed, stage_key. rewrite !run_call_snd, run_bind.
  pose proof (cascade_secrets now t (instance_dispatch t UnlockSucceeded
    (on_secrets (fun s => (tt, SecretStore.put TIER_UNLOCK_KEY_ID key s)) a).2).2) as Hc.
  rewrite dispatch_secrets in Hc. by destruct (run (run_post_unlock_cascade db_open now t) _).
Qed.

Lemma transient_ids id :
  db_key_secret_id id <> pin_secret_id id /\ db_key_secret_id id <> TIER_UNLOCK_KEY_ID /\
  pin_secret_id id <> TIER_UNLOCK_KEY_ID.
Proof. by repeat split. Qed.

Lemma on_secrets_secrets {A} (f : SecretStore -> A * SecretStore) a :
  secrets (on_secrets f a).2 = (f (secrets a)).2.
Proof. unfold on_secrets. by destruct (f (secrets a)). Qed.

(** The clean-up at the end of the sealing handler. *)
Lemma run_drop_transients {A} id (pin : option string) (r : A) a :
  let a' := (run (let! _ := take_secret (db_key_secret_id id) in
                  let! _ := match pin with
                            | Some _ => let! _ := take_secret (pin_secret_id id) in Ret tt
                            | None => Ret tt
                            end in Ret r) a) in
  a'.1 = r /\
  SecretStore.get (db_key_secret_id id) (secrets a'.2) = None /\
  (is_Some pin -> SecretStore.get (pin_secret_id id) (secrets a'.2) = None) /\
  (forall i, i <> db_key_secret_id id -> i <> pin_secret_id id ->
     SecretStore.get i (secrets a'.2) = SecretStore.get i (secrets a)).
Proof.
  destruct (transient_ids id) as (H1 & _ & _).
  destruct pin as [p|]; unfold take_secret; rewrite !run_call_snd, ?run_call_bind; cbv zeta;
    cbn [pbind run fst snd]; rewrite !on_secrets_secrets; (split; [done|]).
  - rewrite get_take_ne, get_take_eq by congruence. split; [done|]. split; [by rewrite get_take_eq|].
    intros i Hi1 Hi2. by rewrite !get_take_ne by congruence.
  - rewrite get_take_eq. split; [done|]. split; [by intros []|].
    intros i Hi1 Hi2. by rewrite !get_take_ne by congruence.
Qed.

(** C4: the hardware first launch leaves no key behind in a transient slot.  Whatever
    the other tasks do to the application while the sealing prompt is open (answer it,
    dismiss it, lock, take the secrets or not), if the handler returns, neither
    transient slot of its prompt holds anything; and if it returns [Staged], the active
    slot holds exactly the generated key. *)
Theorem sealing_leaves_no_secret (now : Z) (prompt_id : string) (ui : App -> App) (key : byte_list)
    (pin : option string) (a : App) :
  let '(r, a') := run (first_launch_hardware db_open now prompt_id ui key pin) a in
  r = Parked \/
  (SecretStore.get (db_key_secret_id prompt_id) (secrets a') = None /\
   (is_Some pin -> SecretStore.get (pin_secret_id prompt_id) (secrets a') = None) /\
   (r = Done Staged -> SecretStore.get TIER_UNLOCK_KEY_ID (secrets a') = Some key)).
Proof.
  unfold first_launch_hardware. unfold put_secret at 1. rewrite !run_call_snd, run_bind.
  generalize ((on_seal_prompts (PromptRegistry.register prompt_id)
    (instance_dispatch Hardware UnlockRequested a).2).1). intros c.
  match goal with |- context [run ?q (on_secrets _ _).2] => destruct (run q _) as [[] a3] end.
  rewrite !run_call_snd. cbn [fst snd]. generalize (ui (publish (HardwareVaultSealPromptRequest prompt_id
    (db_key_secret_id prompt_id) (pin ≫= fun _ => Some (pin_secret_id prompt_id))) a3).2). intros a4.
  destruct (received c (seal_prompts a4)) as [reply|]; [|by left].
  rewrite run_bind. destruct (transient_ids prompt_id) as (_ & N1 & N2).
  assert (Ho : exists o a5, run match reply with
      | Some (inr _) => succeed db_open now Hardware key
      | Some (inl detail) => fail_plugin Hardware detail
      | None => let! _ := call (on_seal_prompts (fun p => (tt, PromptRegistry.cancel prompt_id p))) in
                fail_plugin Hardware "hardware_vault_seal_prompt_cancelled"
      end a4 = (o, a5) /\ (o = Done Staged -> SecretStore.get TIER_UNLOCK_KEY_ID (secrets a5) = Some key)).
  { destruct reply as [[e|[]]|].
    - unfold fail_plugin. rewrite run_fail_outcome. by do 2 eexists.
    - destruct (succeed_secrets now Hardware key a4) as [E1 E2].
      destruct (run (succeed _ _ _ _) a4) as [o a5]. exists o, a5. split; [done|]. intros _.
      cbn [snd] in E2. rewrite E2. apply get_put_eq.
    - unfold fail_plugin. rewrite run_call_snd, run_fail_outcome. by do 2 eexists. }
  destruct Ho as (o & a5 & -> & Hk).
  pose proof (run_drop_transients prompt_id pin o a5) as Hd. cbv zeta in Hd.
  destruct (run _ a5) as [r a6]. destruct Hd as (E & D1 & D2 & D3). cbn [fst snd] in *. subst r.
  right. split; [done|]. split; [done|]. intros Hs. by rewrite D3, Hk by done.
Qed.

(** ** The biometric path *)

(** The state the biometric handler works in once it has found the key. *)
Definition moved (secret_id : string) (a : App) : App :=
  if bool_decide (secret_id = TIER_UNLOCK_KEY_ID) then a
  else (on_secrets (SecretStore.rename secret_id TIER_UNLOCK_KEY_ID) a).2.

Lemma moved_frame secret_id key a :
  SecretStore.get secret_id (secrets a) = Some key ->
  (secret_id = TIER_UNLOCK_KEY_ID \/
   (SecretStore.rename secret_id TIER_UNLOCK_KEY_ID (secrets a)).1 = true) /\
  SecretStore.get TIER_UNLOCK_KEY_ID (secrets (moved secret_id a)) = Some key /\
  (secret_id <> TIER_UNLOCK_KEY_ID -> SecretStore.get secret_id (secrets (moved secret_id a)) = None) /\
  (forall id, id <> secret_id -> id <> TIER_UNLOCK_KEY_ID ->
     SecretStore.get id (secrets (moved secret_id a)) = SecretStore.get id (secrets a)) /\
  machine (moved secret_id a) = machine a /\ bus (moved secret_id a) = bus a /\
  db (moved secret_id a) = db a /\ support_dir (moved secret_id a) = support_dir a /\
  store (moved secret_id a) = store a /\ os (moved secret_id a) = os a.
Proof.
  intros Hk. unfold moved. destruct (decide (secret_id = TIER_UNLOCK_KEY_ID)) as [->|Hne].
  - rewrite bool_decide_eq_true_2 by done. split; [by left|]. by repeat (split; [done|]).
  - rewrite bool_decide_eq_false_2 by done. rewrite on_secrets_secrets.
    assert (Hfr : forall f : SecretStore -> bool * SecretStore, let a' := (on_secrets f a).2 in
      machine a' = machine a /\ bus a' = bus a /\ db a' = db a /\ support_dir a' = support_dir a /\
      store a' = store a /\ os a' = os a) by (intros f; unfold on_secrets; by destruct (f (secrets a))).
    unfold SecretStore.rename, SecretStore.get in *.
    rewrite (proj2 (String.eqb_neq secret_id TIER_UNLOCK_KEY_ID) Hne).
    apply fmap_Some in Hk as (b & Hb & ->). rewrite Hb. cbn [fst snd Secrets.inner].
    split; [by right|]. rewrite lookup_insert_eq. split; [done|]. split.
    { intros _. by rewrite lookup_insert_ne, lookup_delete_eq by congruence. }
    split. { intros id H1 H2. by rewrite lookup_insert_ne, lookup_delete_ne by congruence. }
    apply Hfr.
Qed.

(** the biometric fast path commits exactly the key it is handed.
    [commit_biometric_unlock_from_secret] answers [true] exactly when the named secret
    is in the store; when it is not, nothing at all changes.  When it is, whatever
    state the tier machine is in, the bytes end in the active slot, they are gone from
    the slot they came from, no other secret is touched, the database was opened with
    them if SQLCipher accepts them and the cascade event came last; and from a locked
    machine the tier ends unlocked. *)
Theorem biometric_commit_moves_key (now : Z) (t : SecurityTier) (secret_id : string) (a : App)
    (Hb : bus_wf (bus a)) :
  let '(r, a') := run (commit_biometric_unlock_from_secret db_open now t secret_id) a in
  match SecretStore.get secret_id (secrets a) with
  | None => r = false /\ a' = a
  | Some key =>
      r = true /\
      SecretStore.get TIER_UNLOCK_KEY_ID (secrets a') = Some key /\
      (secret_id <> TIER_UNLOCK_KEY_ID -> SecretStore.get secret_id (secrets a') = None) /\
      (forall id, id <> secret_id -> id <> TIER_UNLOCK_KEY_ID ->
         SecretStore.get id (secrets a') = SecretStore.get id (secrets a)) /\
      db a' = db_after db_open (files (os a)) key a /\
      last (sent (bus a')) = Some (UnlockCascadeReady (SecurityTier.wire_name t) true) /\
      (state (machine a) = Locked -> machine a' = mkMachine Unlocked t)
  end.
Proof.
  unfold commit_biometric_unlock_from_secret. rewrite run_call_snd. cbn [fst snd on_secrets].
  rewrite has_get.
  assert (Eta : mkApp (os a) (secrets a) (bus a) (machine a) (rate_limiters a) (store a) (db a)
    (support_dir a) (unlock_prompts a) (seal_prompts a) = a) by by destruct a.
  rewrite Eta. destruct (SecretStore.get secret_id (secrets a)) as [key|] eqn:Hk; [|done].
  rewrite bool_decide_eq_true_2 by eauto. cbn [negb].
  destruct (moved_frame secret_id key a Hk) as (Hr & M1 & M2 & M3 & M4 & M5 & M6 & M7 & M8 & M9).
  assert (E : run (if bool_decide (secret_id = TIER_UNLOCK_KEY_ID) then Ret true
    else call (on_secrets (SecretStore.rename secret_id TIER_UNLOCK_KEY_ID))) a = (true, moved secret_id a)).
  { unfold moved. destruct (decide (secret_id = TIER_UNLOCK_KEY_ID)) as [He|He].
    - by rewrite !bool_decide_eq_true_2.
    - rewrite !bool_decide_eq_false_2 by done. rewrite run_call. destruct Hr as [Hr|Hr]; [done|].
      revert Hr. unfold on_secrets. destruct (SecretStore.rename secret_id TIER_UNLOCK_KEY_ID (secrets a)).
      simpl. by intros ->. }
  rewrite run_bind, E. cbn [negb]. rewrite !run_call_snd.
  set (a1 := moved secret_id a) in *.
  set (a2 := (instance_dispatch t UnlockRequested a1).2).
  set (a3 := (instance_dispatch t UnlockSucceeded a2).2).
  assert (Hd3 : db a3 = db a /\ support_dir a3 = support_dir a /\ os a3 = os a /\ bus_wf (bus a3) /\
    (state (machine a) = Locked -> machine a3 = mkMachine Unlocked t)).
  { subst a2 a3. unfold instance_dispatch, Machine.instance_dispatch, Machine.dispatch, Machine.set_tier.
    cbn [state]. rewrite M4, M5, <-M6, <-M7, <-M9. destruct (state (machine a)); simpl;
      (repeat (split; [by auto using bus_wf_publish|])); done. }
  destruct Hd3 as (D1 & D2 & D3 & D4 & D5).
  assert (Hs3 : secrets a3 = secrets a1) by (subst a3 a2; by rewrite !dispatch_secrets).
  rewrite run_bind. pose proof (run_cascade db_open now t key a3 D4 ltac:(by rewrite Hs3)) as Hc.
  cbv zeta in Hc. destruct (run (run_post_unlock_cascade db_open now t) a3) as [[] a4]. cbn [run fst snd] in *.
  destruct Hc as (C1 & C2 & C3 & _ & _ & _ & C7 & _ & _ & C10). rewrite C2, Hs3.
  split; [done|]. split; [done|]. split; [done|]. split; [done|].
  split; [|split; [done|by rewrite C1]].
  rewrite C7, D3. unfold db_after. by rewrite D2, D1.
Qed.

End Contract.

#[export] Hint Resolve going_os going_limiters going_prompts : lfs.

(** ** Concrete runs *)
Import Orchestrator.

Definition demo_db (fs : gmap string byte_list) (path : string) (key : byte_list) : bool := true.

Definition demo_app (o : Os) : App :=
  mkApp o SecretStore.new EventBus.new Machine.instance InMemoryRateLimiterRegistry.new Store.new None
    (Some "/d") PromptRegistry.new PromptRegistry.new.

Definition demo_keychain : Os := mkOs ∅ {[ENCRYPTION_KEY_SLOT := [1; 2]]} [].

Definition quiet {A} (_ : A) : string := "error".

Lemma unlock_refines_grant_witness :
  let '(r, a') := run (attempt_prog demo_db quiet quiet quiet (fun _ => 0) UnlockKeychain) (demo_app demo_keychain) in
  r = Done Staged /\ SecretStore.get TIER_UNLOCK_KEY_ID (secrets a') = Some [1; 2].
Proof.
  pose proof (unlock_refines_grant demo_db quiet quiet quiet (fun _ => 0) UnlockKeychain
    (demo_app demo_keychain) eq_refl bus_wf_new (ex_intro _ "/d" eq_refl)) as Hw.
  destruct (run (attempt_prog demo_db quiet quiet quiet (fun _ => 0) UnlockKeychain) (demo_app demo_keychain))
    as [r a'].
  assert (Hg : granted (fun _ => 0) UnlockKeychain (demo_app demo_keychain) = Some [1; 2])
    by (vm_compute; reflexivity).
  rewrite Hg in Hw. destruct Hw as [Hr Ho]; [apply prompts_wf_new|].
  split; [exact Hr|apply Ho].
Defined.

(** Ten wrong guesses, as early as the limiter lets each through. *)
Definition demo_guesses : list ((nat -> Z) * byte_list) :=
  (fun t => (fun _ : nat => 1000 * t, [7])) <$> [0; 1; 3; 7; 15; 31; 63; 123; 183; 243].

Lemma orchestrator_brakes_guessing_witness :
  243000 - 0 >= 1000 * (243 + 60 * Z.of_nat 0).
Proof.
  apply (orchestrator_brakes_guessing demo_db quiet quiet demo_guesses (demo_app demo_keychain) "/d" 0 0 243000).
  - reflexivity.
  - reflexivity.
  - unfold demo_guesses. cbn [fmap list_fmap].
    repeat (apply Forall_cons_2; [split; vm_compute; [reflexivity|split; congruence..|congruence]|]).
    apply Forall_nil_2.
  - reflexivity.
  - vm_compute. reflexivity.
  - vm_compute. reflexivity.
  - vm_compute. reflexivity.
Defined.

Lemma first_launch_then_unlock_witness :
  let a := demo_app (mkOs ∅ ∅ []) in
  let '(r1, a1) := run (first_launch_keychain_with_password demo_db quiet quiet 0 [112] [1; 2] [9] [5; 6]) a in
  let '(r2, a3) := run (unlock_keychain_with_password demo_db quiet quiet (fun _ => 0) [112]) (demo_app (os a1)) in
  r1 = Done Staged /\ r2 = Done Staged /\ SecretStore.get TIER_UNLOCK_KEY_ID (secrets a3) = Some [5; 6].
Proof.
  intros a. subst a.
  pose proof (fun a2 => first_launch_then_unlock demo_db quiet quiet quiet 0 (fun _ => 0) [112] [1; 2] [9] [5; 6] [112]
    "/d" (demo_app (mkOs ∅ ∅ [])) a2 eq_refl bus_wf_new eq_refl eq_refl) as Hw.
  destruct (run (first_launch_keychain_with_password demo_db quiet quiet 0 [112] [1; 2] [9] [5; 6])
    (demo_app (mkOs ∅ ∅ []))) as [r1 a1].
  specialize (Hw (demo_app (os a1))).
  destruct Hw as [Hr1 Hw];
    [repeat constructor; vm_compute; congruence|discriminate..|reflexivity|apply bus_wf_new|reflexivity|
     reflexivity|].
  specialize (Hw eq_refl).
  destruct (run (unlock_keychain_with_password demo_db quiet quiet (fun _ => 0) [112]) (demo_app (os a1))) as [r2 a3].
  rewrite bool_decide_eq_true_2 in Hw by reflexivity. destruct Hw as [Hr2 Ho].
  split; [exact Hr1|]. split; [exact Hr2|apply Ho].
Defined.

Definition demo_biometric : App :=
  (on_secrets (fun s => (tt, SecretStore.put "bio" [3; 4] s)) (demo_app demo_keychain)).2.

Lemma biometric_commit_moves_key_witness :
  let '(r, a') := run (commit_biometric_unlock_from_secret demo_db 0 Keychain "bio") demo_biometric in
  r = true /\ SecretStore.get TIER_UNLOCK_KEY_ID (secrets a') = Some [3; 4].
Proof.
  pose proof (biometric_commit_moves_key demo_db 0 Keychain "bio" demo_biometric bus_wf_new) as Hw.
  destruct (run (commit_biometric_unlock_from_secret demo_db 0 Keychain "bio") demo_biometric) as [r a'].
  change (SecretStore.get "bio" (secrets demo_biometric)) with (Some [3; 4]) in Hw.
  split; apply Hw.
Defined.

(** A lock that lands while the handler awaits the keychain is lost: the machine is
    locked, but the handler still stages the key, opens the database and answers
    [Staged]. *)
Example lock_during_unlock_leaves_key :
  let '(r, a') := run_env [id; fun a => (instance_dispatch Keychain LockRequested a).2]
    (unlock_keychain demo_db quiet 0) (demo_app demo_keychain) in
  r = Done Staged /\ state (machine a') = Locked /\
  SecretStore.get TIER_UNLOCK_KEY_ID (secrets a') = Some [1; 2] /\
  db a' = Some ("/d/letsflutssh.db", [1; 2]) /\
  tier_trace (bus a') = ["unlocking"; "locked"].
Proof. vm_compute. repeat split. Qed.

(** The plaintext handler is not idempotent: on an unlocked application both
    dispatches are refused, but the active key is overwritten with the empty one and
    the database is opened again without a key. *)
Example plaintext_unlock_is_not_idempotent :
  let a1 := (run (unlock_keychain demo_db quiet 0) (demo_app demo_keychain)).2 in
  let a2 := (run (unlock_plaintext demo_db 0) a1).2 in
  db a1 = Some ("/d/letsflutssh.db", [1; 2]) /\
  SecretStore.get TIER_UNLOCK_KEY_ID (secrets a2) = Some [] /\
  db a2 = Some ("/d/letsflutssh.db", []) /\
  state (machine a2) = Unlocked /\ active_tier (machine a2) = Plaintext.
Proof. vm_compute. repeat split. Qed.
