(* ===== verification/Wire.v ===== *)
(** * SSH wire format ([ssh/wire.rs])

    The length-prefixed strings and integers of RFC 4251, the signature and public-key
    blobs built from them, and the strict DER reader that turns a hardware signer's
    [SEQUENCE { INTEGER r, INTEGER s }] into the wire form.  A position in a buffer is a
    [Z], as is a length.  [usize] has 64 bits on the desktop and 32 on the armv7 and i686 builds:
    where the reader adds a length it was told to a position, the sum wraps at that width
    ([usize_add]), and a slice whose bounds are out of order or out of the buffer panics.  A
    buffer has less than half the address space, so positions inside it do not wrap. *)
From Stdlib Require Import ZArith Lia.
From stdpp Require Import prelude strings list.
From S2P Require Import Prelude Codec MasterPassword.

Local Open Scope Z_scope.

Definition DER_MAX_LENGTH_BYTES : Z := 4.

Definition len (b : byte_list) : Z := Z.of_nat (length b).

Definition push_ssh_string (buf payload : byte_list) : byte_list :=
  buf ++ to_be32 (wrap_u32 (len payload)) ++ payload.

(** The loop both encoders share: drop a leading zero while the sign bit stays clear. *)
Fixpoint trim (m : byte_list) : byte_list :=
  match m with
  | a :: (b :: _) as m' =>
      if (a =? 0x00) && (Z.land b 0x80 =? 0) then trim m' else m
  | _ => m
  end.

Definition needs_pad (m : byte_list) : bool :=
  match m with a :: _ => negb (Z.land a 0x80 =? 0) | [] => false end.

Definition push_ssh_mpint (buf magnitude : byte_list) : byte_list :=
  let trimmed := trim magnitude in
  let pad := needs_pad trimmed in
  let n := match trimmed with [] => 0 | _ => len trimmed + (if pad then 1 else 0) end in
  buf ++ to_be32 (wrap_u32 n) ++ (if pad then [0x00] else []) ++ trimmed.

Inductive WireError :=
| BadSequenceTag
| BadSequenceLength
| TrailingBytes
| TruncatedLength
| BadLengthEncoding
| BadIntegerTag
| TruncatedInteger
| RawConcatShape (n : Z)
| Ed25519Length (n : Z)
| BadPoint (n first : Z).

(** An error the caller gets, or a panic. *)
Inductive WireStop := Refused (e : WireError) | Panicked.

(** ** The width of [usize] *)
Class Usize (width : Z) : Prop := usize_cases : width = 32 \/ width = 64.

#[export] Instance usize_32 : Usize 32.
Proof. by left. Qed.
#[export] Instance usize_64 : Usize 64.
Proof. by right. Qed.

(** [a + b] in a release build. *)
Definition usize_add (width a b : Z) : Z := (a + b) mod 2 ^ width.

(** [buf[idx]]; the callers have checked the bound. *)
Definition at_ (buf : byte_list) (idx : Z) : Z := default 0 (buf !! Z.to_nat idx).

Definition slice (buf : byte_list) (idx n : Z) : byte_list :=
  take (Z.to_nat n) (drop (Z.to_nat idx) buf).

(** [&buf[from..upto]]: [None] where it panics. *)
Definition range (buf : byte_list) (from upto : Z) : option byte_list :=
  if (from <=? upto) && (upto <=? len buf) then Some (slice buf from (upto - from)) else None.

(** The result is the length and the advanced position; four bytes fit both widths. *)
Definition read_der_length (buf : byte_list) (idx : Z) : WireError + (Z * Z) :=
  if len buf <=? idx then inl TruncatedLength
  else
    let first := at_ buf idx in
    let idx := idx + 1 in
    if Z.land first 0x80 =? 0 then inr (first, idx)
    else
      let nbytes := Z.land first 0x7f in
      if (nbytes =? 0) || (DER_MAX_LENGTH_BYTES <? nbytes) || (len buf <? idx + nbytes)
      then inl BadLengthEncoding
      else
        inr (foldl (fun n b => Z.lor (Z.shiftl n 8) b) 0 (slice buf idx nbytes), idx + nbytes).

Definition read_der_integer (width : Z) (buf : byte_list) (idx : Z) : WireStop + (byte_list * Z) :=
  if (len buf <=? idx) || negb (at_ buf idx =? 0x02) then inl (Refused BadIntegerTag)
  else
    match read_der_length buf (idx + 1) with
    | inl e => inl (Refused e)
    | inr (n, idx) =>
        if (len buf <? usize_add width idx n) || (n =? 0) then inl (Refused TruncatedInteger)
        else
          match range buf idx (usize_add width idx n) with
          | None => inl Panicked
          | Some content =>
              let bytes := trim content in
              inr ((if needs_pad bytes then 0x00 :: bytes else bytes), usize_add width idx n)
          end
    end.

Definition parse_ecdsa_der (width : Z) (der : byte_list) : WireStop + (byte_list * byte_list) :=
  if (len der <? 2) || negb (at_ der 0 =? 0x30) then inl (Refused BadSequenceTag)
  else
    match read_der_length der 1 with
    | inl e => inl (Refused e)
    | inr (seq_len, idx) =>
        if negb (usize_add width idx seq_len =? len der) then inl (Refused BadSequenceLength)
        else
          match read_der_integer width der idx with
          | inl e => inl e
          | inr (r, idx) =>
              match read_der_integer width der idx with
              | inl e => inl e
              | inr (s, idx) => if negb (idx =? len der) then inl (Refused TrailingBytes) else inr (r, s)
              end
          end
    end.

Definition ecdsa_der_to_ssh_mpint (width : Z) (der : byte_list) : WireStop + byte_list :=
  match parse_ecdsa_der width der with
  | inl e => inl e
  | inr (r, s) => inr (push_ssh_string (push_ssh_string [] r) s)
  end.

Definition ecdsa_raw_concat_to_ssh_mpint (rs : byte_list) : WireError + byte_list :=
  if negb (len rs mod 2 =? 0) || (len rs =? 0) then inl (RawConcatShape (len rs))
  else
    let half := len rs / 2 in
    inr (push_ssh_mpint (push_ssh_mpint [] (take (Z.to_nat half) rs)) (drop (Z.to_nat half) rs)).

Definition rsa_pkcs1_v15_sig_body (sig : byte_list) : byte_list := sig.

Definition ed25519_sig_body (sig : byte_list) : WireError + byte_list :=
  if negb (len sig =? 64) then inl (Ed25519Length (len sig)) else inr sig.

Definition encode_userauth_signature_field (wire_alg : string) (sig_body : byte_list) : byte_list :=
  let alg := string_codes wire_alg in
  let inner_len := len alg + len sig_body + 8 in
  push_ssh_string (push_ssh_string (to_be32 (wrap_u32 inner_len)) alg) sig_body.

Definition encode_public_ecdsa (alg curve : string) (size : Z) (point : byte_list) :
    WireError + byte_list :=
  if negb (len point =? size) || negb (at_ point 0 =? 0x04)
  then inl (BadPoint (len point) (at_ point 0))
  else inr (push_ssh_string (push_ssh_string (push_ssh_string [] (string_codes alg))
              (string_codes curve)) point).

Definition encode_public_ecdsa_p256 : byte_list -> WireError + byte_list :=
  encode_public_ecdsa "ecdsa-sha2-nistp256" "nistp256" 65.

Definition encode_public_ecdsa_p384 : byte_list -> WireError + byte_list :=
  encode_public_ecdsa "ecdsa-sha2-nistp384" "nistp384" 97.

Definition encode_public_ed25519 (raw : byte_list) : WireError + byte_list :=
  if negb (len raw =? 32) then inl (Ed25519Length (len raw))
  else inr (push_ssh_string (push_ssh_string [] (string_codes "ssh-ed25519")) raw).

Definition encode_public_rsa (modulus exponent : byte_list) : byte_list :=
  push_ssh_mpint (push_ssh_mpint (push_ssh_string [] (string_codes "ssh-rsa")) exponent) modulus.

(** ** The grammar the reader accepts *)

Definition be_value (b : byte_list) : Z := foldl (fun n x => n * 256 + x) 0 b.

(** [h] is a definite-length header for [n], in short form or with one to four bytes. *)
Inductive length_header : byte_list -> Z -> Prop :=
| short_form n : 0 <= n < 128 -> length_header [n] n
| long_form bs : (1 <= length bs <= 4)%nat -> length_header (128 + len bs :: bs) (be_value bs).

(** [b] is an [INTEGER] whose content is [content]. *)
Definition der_integer (b content : byte_list) : Prop :=
  content <> [] /\ exists h, length_header h (len content) /\ b = 0x02 :: h ++ content.

Definition der_signature (der r s : byte_list) : Prop :=
  exists h br bs, length_header h (len (br ++ bs)) /\ der_integer br r /\ der_integer bs s /\
    der = 0x30 :: h ++ br ++ bs.

(** An mpint body: the shortest big-endian form that reads as non-negative. *)
Definition canonical (m : byte_list) : Prop :=
  match m with
  | [] => False
  | a :: m' => a < 128 /\ match m' with b :: _ => a = 0 -> 128 <= b | [] => True end
  end.

Definition normalise (content : byte_list) : byte_list :=
  let m := trim content in if needs_pad m then 0x00 :: m else m.

Definition ssh_string (b : byte_list) : byte_list := to_be32 (wrap_u32 (len b)) ++ b.

(** ** Bits of a byte *)
Lemma u8_forall (P : Z -> bool) : forallb P (seqZ 0 256) = true -> forall a, in_u8 a -> P a = true.
Proof.
  rewrite forallb_forall. intros HP a Ha. apply HP. apply list_elem_of_In, elem_of_seqZ.
  int_unfold. lia.
Qed.

Lemma land_80 a : in_u8 a -> (Z.land a 0x80 =? 0) = (a <? 128).
Proof.
  intros Ha. apply Bool.eqb_prop. revert a Ha.
  apply (u8_forall (fun a => Bool.eqb (Z.land a 0x80 =? 0) (a <? 128))). vm_compute. reflexivity.
Qed.

Lemma land_7f a : in_u8 a -> 128 <= a -> Z.land a 0x7f = a - 128.
Proof.
  intros Ha Hle. assert (Hb : ((a <? 128) || (Z.land a 0x7f =? a - 128)) = true).
  { revert a Ha Hle. intros a Ha _. revert a Ha.
    apply (u8_forall (fun a => (a <? 128) || (Z.land a 0x7f =? a - 128))). vm_compute. reflexivity. }
  breflect. lia.
Qed.

Lemma shift_or l b : in_u8 b -> Z.lor (Z.shiftl l 8) b = l * 256 + b.
Proof.
  intros Hb. rewrite <-Z.add_nocarry_lor; [by rewrite Z.shiftl_mul_pow2 by lia|].
  apply Z.bits_inj'. intros n Hn. rewrite Z.land_spec, Z.bits_0.
  destruct (Z.lt_ge_cases n 8).
  - by rewrite Z.shiftl_spec_low by lia.
  - rewrite andb_comm. rewrite (Z.testbit_eqb b) by lia. int_unfold.
    rewrite Z.div_small; [done|]. split; [lia|].
    apply Z.lt_le_trans with (2 ^ 8); [lia|]. apply Z.pow_le_mono_r; lia.
Qed.

Lemma fold_be_value bs acc : bytes_ok bs ->
  foldl (fun n b => Z.lor (Z.shiftl n 8) b) acc bs = foldl (fun n x => n * 256 + x) acc bs.
Proof.
  intros Hb. revert acc. induction Hb as [|b bs Hb _ IH]; intros acc; simpl; [done|].
  by rewrite shift_or, IH.
Qed.

(** ** Positions *)
Definition suffix (buf : byte_list) (idx : Z) : byte_list := drop (Z.to_nat idx) buf.

Lemma len_app a b : len (a ++ b) = len a + len b.
Proof. unfold len. rewrite length_app. lia. Qed.

Lemma len_cons a b : len (a :: b) = 1 + len b.
Proof. unfold len. simpl. lia. Qed.

Lemma len_nonneg b : 0 <= len b.
Proof. unfold len. lia. Qed.

Lemma len_suffix buf idx : 0 <= idx <= len buf -> len (suffix buf idx) = len buf - idx.
Proof. unfold len, suffix. rewrite length_drop. lia. Qed.

Lemma suffix_cons buf idx : 0 <= idx < len buf -> suffix buf idx = at_ buf idx :: suffix buf (idx + 1).
Proof.
  intros Hi. unfold suffix, at_, len in *.
  destruct (lookup_lt_is_Some_2 buf (Z.to_nat idx)) as [x Hx]; [lia|].
  rewrite Hx. simpl. rewrite (drop_S _ x) by done. do 2 f_equal. lia.
Qed.

Lemma suffix_app buf idx h rest :
  0 <= idx -> suffix buf idx = h ++ rest -> suffix buf (idx + len h) = rest.
Proof.
  unfold suffix, len. intros Hi Hs.
  replace (Z.to_nat (idx + Z.of_nat (length h))) with (Z.to_nat idx + length h)%nat by lia.
  rewrite <-drop_drop, Hs. apply drop_app_length.
Qed.

Lemma suffix_ok buf idx : bytes_ok buf -> bytes_ok (suffix buf idx).
Proof. intros Hb. by apply Forall_drop. Qed.

Lemma slice_suffix buf idx n h rest :
  suffix buf idx = h ++ rest -> n = len h -> slice buf idx n = h.
Proof.
  unfold slice, suffix, len. intros -> ->. rewrite Nat2Z.id. apply take_app_length.
Qed.

Lemma header_len h n : length_header h n -> 1 <= len h <= 5.
Proof. intros [m _|bs Hbs]; unfold len; simpl; lia. Qed.

Lemma suffix_bound buf idx h rest :
  0 <= idx <= len buf -> suffix buf idx = h ++ rest -> idx + len h + len rest = len buf.
Proof. intros Hi Hs. pose proof (len_suffix buf idx Hi) as Hl. rewrite Hs, len_app in Hl. lia. Qed.

(** ** The reader accepts exactly the grammar *)
Lemma read_length_spec buf idx n j :
  bytes_ok buf -> 0 <= idx <= len buf ->
  read_der_length buf idx = inr (n, j) <->
  exists h rest, suffix buf idx = h ++ rest /\ length_header h n /\ j = idx + len h.
Proof.
  intros Hb Hi. unfold read_der_length. destruct (Z.leb_spec (len buf) idx) as [Hle|Hlt].
  { split; [done|]. intros (h & rest & Hs & Hh & _). apply header_len in Hh.
    pose proof (suffix_bound _ _ _ _ Hi Hs). pose proof (len_nonneg rest). lia. }
  pose proof (suffix_cons buf idx ltac:(lia)) as Hc. pose proof (suffix_ok buf idx Hb) as Hok.
  rewrite Hc in Hok. apply Forall_cons in Hok as [Hf Hok].
  set (f := at_ buf idx) in *. rewrite land_80 by done. cbv zeta.
  destruct (Z.ltb_spec f 128) as [Hs|Hs].
  - split.
    + intros [= <- <-]. exists [f], (suffix buf (idx + 1)). split; [done|].
      split; [apply short_form; int_unfold; lia|]. done.
    + intros (h & rest & Hs' & Hh & ->). rewrite Hc in Hs'.
      destruct Hh as [m Hm|bs Hbs]; simplify_eq/=; [done|]. pose proof (len_nonneg bs). lia.
  - rewrite land_7f by done. unfold DER_MAX_LENGTH_BYTES.
    pose proof (len_suffix buf (idx + 1) ltac:(lia)) as Hl.
    destruct (_ || _ || _) eqn:Hg.
    + split; [done|]. intros (h & rest & Hs' & Hh & _). rewrite Hc in Hs'. exfalso.
      destruct Hh as [m Hm|bs Hbs]; simplify_eq/=; [lia|].
      assert (Ht : suffix buf (idx + 1) = bs ++ rest) by congruence.
      rewrite Ht, len_app in Hl. pose proof (len_nonneg rest).
      assert (1 <= len bs <= 4) by (unfold len; lia).
      rewrite !orb_true_iff, Z.eqb_eq, !Z.ltb_lt in Hg. lia.
    + assert (Hg' : 1 <= f - 128 <= 4 /\ idx + 1 + (f - 128) <= len buf).
      { int_unfold. breflect. lia. }
      set (bs := slice buf (idx + 1) (f - 128)).
      assert (Hsp : suffix buf (idx + 1) = bs ++ drop (Z.to_nat (f - 128)) (suffix buf (idx + 1)))
        by (subst bs; unfold slice; by rewrite take_drop).
      assert (Hbs : len bs = f - 128).
      { subst bs. unfold slice, len in *. rewrite length_take. fold (suffix buf (idx + 1)). lia. }
      rewrite fold_be_value by (subst bs; by apply Forall_take, Forall_drop). split.
      * intros [= <- <-]. exists (128 + len bs :: bs), (drop (Z.to_nat (f - 128)) (suffix buf (idx + 1))).
        split; [rewrite Hc; cbn [app]; rewrite <-Hsp; f_equal; lia|]. split; [apply long_form; unfold len in Hbs; lia|].
        rewrite len_cons. lia.
      * intros (h & rest & Hs' & Hh & ->). rewrite Hc in Hs'.
        destruct Hh as [m Hm|bs' Hbs']; simplify_eq/=; [lia|].
        assert (Ht : suffix buf (idx + 1) = bs' ++ rest) by congruence.
        assert (bs = bs') as -> by (apply (slice_suffix _ _ _ _ rest Ht); lia).
        rewrite len_cons. do 2 f_equal. lia.
Qed.

Lemma at_head buf idx x rest : suffix buf idx = x :: rest -> at_ buf idx = x.
Proof.
  unfold suffix, at_. intros Hs. pose proof (f_equal head Hs) as Hh.
  rewrite head_lookup, lookup_drop, Nat.add_0_r in Hh. simpl in Hh. by rewrite Hh.
Qed.

(** A told length fits four bytes. *)
Lemma header_value h n : bytes_ok h -> length_header h n -> 0 <= n < 2 ^ 32.
Proof.
  intros Hok Hh. destruct Hh as [m Hm|bs Hbs]; [lia|]. apply Forall_cons in Hok as [_ Hok]. unfold be_value.
  assert (Hgen : forall acc, 0 <= acc -> 0 <= foldl (fun n x => n * 256 + x) acc bs < (acc + 1) * 256 ^ Z.of_nat (length bs)).
  { clear -Hok. induction Hok as [|b bs Hb _ IH]; intros acc Ha; [cbn; lia|]. cbn [foldl length].
    rewrite Nat2Z.inj_succ, Z.pow_succ_r by lia. assert (0 <= b < 256) by (int_unfold; lia).
    specialize (IH (acc * 256 + b) ltac:(lia)).
    assert (0 < 256 ^ Z.of_nat (length bs)) by (apply Z.pow_pos_nonneg; lia). nia. }
  specialize (Hgen 0 ltac:(lia)). assert (256 ^ Z.of_nat (length bs) <= 256 ^ 4) by (apply Z.pow_le_mono_r; lia).
  change (256 ^ 4) with (2 ^ 32) in *. lia.
Qed.

Section Width.
Context {width : Z} `{Usize width}.

(** A sum that does not wrap, or one that does and ends before the position it started from. *)
Lemma usize_add_cases a n : 0 <= a < 2 ^ (width - 1) -> 0 <= n < 2 ^ 32 ->
  usize_add width a n = a + n \/ width = 32 /\ usize_add width a n < a /\ 2 ^ (width - 1) < a + n.
Proof using Type*.
  intros Ha Hn. unfold usize_add. destruct usize_cases as [->| ->].
  - change (2 ^ (32 - 1)) with 2147483648 in *. change (2 ^ 32) with 4294967296 in *.
    destruct (Z.lt_ge_cases (a + n) 4294967296); [left; by rewrite Z.mod_small by lia|right].
    rewrite <- (Z.mod_unique (a + n) 4294967296 1 (a + n - 4294967296)) by lia. lia.
  - left. change (2 ^ (64 - 1)) with 9223372036854775808 in *. change (2 ^ 32) with 4294967296 in *.
    rewrite Z.mod_small; [done|]. change (2 ^ 64) with 18446744073709551616. lia.
Qed.

Lemma usize_add_id a n : 0 <= a -> 0 <= n -> a + n < 2 ^ (width - 1) -> usize_add width a n = a + n.
Proof using Type*.
  intros Ha Hn Hlt. unfold usize_add. rewrite Z.mod_small; [done|]. split; [lia|]. eapply Z.lt_le_trans; [exact Hlt|].
  apply Z.pow_le_mono_r; [lia|]. lia.
Qed.

Lemma range_slice buf from upto content : range buf from upto = Some content ->
  from <= upto <= len buf /\ content = slice buf from (upto - from).
Proof using. unfold range. destruct (_ && _) eqn:Hg; [|done]. breflect. by intros [= <-]. Qed.

Lemma read_integer_spec buf idx r j :
  bytes_ok buf -> len buf < 2 ^ (width - 1) -> 0 <= idx <= len buf ->
  read_der_integer width buf idx = inr (r, j) <->
  exists b content rest, suffix buf idx = b ++ rest /\ der_integer b content /\
    r = normalise content /\ j = idx + len b.
Proof.
  intros Hb Hw Hi. unfold read_der_integer. split.
  - destruct (_ || _) eqn:Hg; [done|]. apply orb_false_iff in Hg as [Hlt Ht]. breflect.
    pose proof (suffix_cons buf idx ltac:(lia)) as Hc. rewrite Ht in Hc.
    destruct (read_der_length buf (idx + 1)) as [e|[n k]] eqn:Hl; [done|].
    apply read_length_spec in Hl as (h & rest & Hs & Hh & ->); [|done|lia].
    destruct (_ || _) eqn:Hg; [done|]. apply orb_false_iff in Hg as [Hle Hn]. breflect.
    destruct (range _ _ _) as [content0|] eqn:Hrange; [|done]. apply range_slice in Hrange as [[Hfrom Hupto] Hc0].
    intros [= <- <-]. pose proof (suffix_app buf (idx + 1) h rest ltac:(lia) Hs) as Hr.
    pose proof (header_len _ _ Hh) as Hhl. pose proof (suffix_bound buf (idx + 1) h rest ltac:(lia) Hs) as Hbd. pose proof (len_nonneg rest).
    assert (Hn0 : 0 <= n < 2 ^ 32).
    { apply (header_value h); [|done]. pose proof (suffix_ok buf (idx + 1) Hb) as Hok. rewrite Hs in Hok. by apply Forall_app in Hok as [Hok _]. }
    assert (Hadd : usize_add width (idx + 1 + len h) n = idx + 1 + len h + n).
    { destruct (usize_add_cases (idx + 1 + len h) n) as [?|(_ & ? & _)]; [lia|done|done|lia]. }
    rewrite Hadd in *. replace (idx + 1 + len h + n - (idx + 1 + len h)) with n in Hc0 by lia. subst content0.
    set (content := slice buf (idx + 1 + len h) n).
    assert (Hsl : len content = n).
    { subst content. unfold slice, len in *. rewrite length_take. fold (suffix buf (idx + 1 + Z.of_nat (length h))).
      pose proof (len_suffix buf (idx + 1 + Z.of_nat (length h)) ltac:(unfold len; lia)) as Hls. unfold len in Hls. lia. }
    assert (Hsp : rest = content ++ drop (Z.to_nat n) rest).
    { subst content. unfold slice. fold (suffix buf (idx + 1 + len h)). by rewrite Hr, take_drop. }
    exists (0x02 :: h ++ content), content, (drop (Z.to_nat n) rest).
    split; [rewrite Hc, Hs; simpl; by rewrite <-app_assoc, <-Hsp|].
    split; [|split; [done|rewrite len_cons, len_app; lia]].
    split; [intros Hx; rewrite Hx in Hsl; unfold len in Hsl; simpl in Hsl; lia|].
    exists h. by rewrite Hsl.
  - intros (b & content & rest & Hs & (Hne & h & Hh & ->) & -> & ->).
    pose proof (suffix_bound _ _ _ _ Hi Hs) as Hbd. rewrite len_cons, len_app in Hbd.
    pose proof (header_len _ _ Hh). pose proof (len_nonneg rest). pose proof (len_nonneg content).
    simpl in Hs. rewrite (at_head _ _ _ _ Hs). rewrite (proj2 (Z.leb_gt _ _)) by lia. cbn [orb negb Z.eqb Pos.eqb].
    assert (Hs1 : suffix buf (idx + 1) = h ++ content ++ rest).
    { change 1 with (len [0x02]). apply (suffix_app buf idx [0x02]); [lia|]. by rewrite Hs, <-app_assoc. }
    assert (Hl : read_der_length buf (idx + 1) = inr (len content, idx + 1 + len h))
      by (apply read_length_spec; [done|lia|by exists h, (content ++ rest)]).
    rewrite Hl. rewrite (usize_add_id (idx + 1 + len h)) by lia. rewrite (proj2 (Z.ltb_ge _ _)) by lia.
    assert (Hn : len content <> 0) by (destruct content; [done|rewrite len_cons; pose proof (len_nonneg content); lia]).
    rewrite (proj2 (Z.eqb_neq _ _) Hn). cbn [orb].
    pose proof (suffix_app buf (idx + 1) h (content ++ rest) ltac:(lia) Hs1) as Hs2.
    unfold range. rewrite !(proj2 (Z.leb_le _ _)) by lia. cbn [andb].
    rewrite (slice_suffix _ _ _ content _ Hs2) by lia. rewrite len_cons, len_app. unfold normalise.
    do 2 f_equal. lia.
Qed.

Lemma suffix_0 buf : suffix buf 0 = buf.
Proof. done. Qed.

(** On 64 bits nothing panics. *)
Lemma integer_panics buf idx : bytes_ok buf -> len buf < 2 ^ (width - 1) -> 0 <= idx <= len buf ->
  read_der_integer width buf idx = inl Panicked -> width = 32.
Proof using Type*.
  intros Hb Hw Hi. unfold read_der_integer. destruct (_ || _) eqn:Hg; [done|]. apply orb_false_iff in Hg as [Hlt Ht]. breflect.
  destruct (read_der_length buf (idx + 1)) as [e|[n k]] eqn:Hl; [done|].
  apply read_length_spec in Hl as (h & rest & Hs & Hh & ->); [|done|lia].
  pose proof (header_len _ _ Hh) as Hhl. pose proof (suffix_bound buf (idx + 1) h rest ltac:(lia) Hs) as Hbd. pose proof (len_nonneg rest).
  assert (Hn0 : 0 <= n < 2 ^ 32).
  { apply (header_value h); [|done]. pose proof (suffix_ok buf (idx + 1) Hb) as Hok. rewrite Hs in Hok. by apply Forall_app in Hok as [Hok _]. }
  destruct (_ || _) eqn:Hg; [done|]. apply orb_false_iff in Hg as [Hle Hn]. breflect. unfold range.
  destruct (_ && _) eqn:Hr; [done|]. intros _. apply andb_false_iff in Hr.
  destruct (usize_add_cases (idx + 1 + len h) n) as [He|(? & _)]; [lia|done| |done].
  rewrite He in *. rewrite !Z.leb_gt in Hr. lia.
Qed.

Lemma parse_spec der r' s' :
  bytes_ok der -> len der < 2 ^ (width - 1) ->
  parse_ecdsa_der width der = inr (r', s') <->
  exists r s, der_signature der r s /\ r' = normalise r /\ s' = normalise s.
Proof.
  intros Hb Hw. unfold parse_ecdsa_der. split.
  - destruct (_ || _) eqn:Hg; [done|]. apply orb_false_iff in Hg as [Hlt Ht]. breflect.
    pose proof (suffix_cons der 0 ltac:(lia)) as Hc. rewrite Ht, suffix_0 in Hc.
    destruct (read_der_length der 1) as [e|[n i]] eqn:Hl; [done|].
    apply read_length_spec in Hl as (h & rest & Hs & Hh & ->); [|done|lia].
    pose proof (suffix_app der 1 h rest ltac:(lia) Hs) as Hs1.
    pose proof (suffix_bound der 1 h rest ltac:(lia) Hs) as B1.
    pose proof (len_nonneg rest). pose proof (len_nonneg h).
    destruct (negb _) eqn:Hn; [done|]. breflect. pose proof (header_len _ _ Hh) as Hhl.
    assert (Hn0 : 0 <= n < 2 ^ 32).
    { apply (header_value h); [|done]. pose proof (suffix_ok der 1 Hb) as Hok. rewrite Hs in Hok. by apply Forall_app in Hok as [Hok _]. }
    destruct (usize_add_cases (1 + len h) n) as [Hadd|(_ & ? & _)]; [lia|done| |lia]. rewrite Hadd in Hn.
    destruct (read_der_integer width der (1 + len h)) as [e|[r i]] eqn:Hr; [done|].
    apply read_integer_spec in Hr as (b1 & c1 & rest1 & Hs2 & Hi1 & -> & ->); [|done|done|lia].
    pose proof (suffix_app der (1 + len h) b1 rest1 ltac:(lia) Hs2) as Hs3.
    pose proof (suffix_bound der (1 + len h) b1 rest1 ltac:(lia) Hs2) as B2.
    pose proof (len_nonneg rest1). pose proof (len_nonneg b1).
    destruct (read_der_integer width der (1 + len h + len b1)) as [e|[s i]] eqn:Hr; [done|].
    apply read_integer_spec in Hr as (b2 & c2 & rest2 & Hs4 & Hi2 & -> & ->); [|done|done|lia].
    pose proof (suffix_bound der (1 + len h + len b1) b2 rest2 ltac:(lia) Hs4) as B3.
    destruct (negb _) eqn:He; [done|]. breflect. intros [= <- <-].
    assert (rest2 = []) as -> by (destruct rest2; [done|rewrite len_cons in B3; pose proof (len_nonneg rest2); lia]).
    rewrite app_nil_r in Hs4. exists c1, c2. split; [|done]. exists h, b1, b2.
    assert (Hrest : rest = b1 ++ b2) by congruence.
    split; [|split; [done|split; [done|rewrite Hc; change (0 + 1) with 1; by rewrite Hs, Hrest]]].
    rewrite <-Hrest. by replace (len rest) with n by lia.
  - intros (r & s & (h & b1 & b2 & Hh & Hi1 & Hi2 & Hd) & -> & ->).
    pose proof (header_len _ _ Hh) as Hhl.
    pose proof (len_nonneg b1). pose proof (len_nonneg b2).
    assert (Hlen : len der = 1 + (len h + (len b1 + len b2))) by (rewrite Hd, len_cons, !len_app; done).
    assert (Hs0 : suffix der 0 = [0x30] ++ h ++ b1 ++ b2) by (rewrite suffix_0; done).
    rewrite (at_head der 0 _ _ Hs0). rewrite (proj2 (Z.ltb_ge _ _)) by lia. cbn [orb negb Z.eqb Pos.eqb].
    pose proof (suffix_app der 0 [0x30] (h ++ b1 ++ b2) ltac:(lia) Hs0) as Hs1. change (0 + len [0x30]) with 1 in Hs1.
    assert (Hl : read_der_length der 1 = inr (len (b1 ++ b2), 1 + len h))
      by (apply read_length_spec; [done|lia|by exists h, (b1 ++ b2)]).
    pose proof (suffix_app der 1 h (b1 ++ b2) ltac:(lia) Hs1) as Hs2.
    rewrite Hl, len_app, (usize_add_id (1 + len h)), (proj2 (Z.eqb_eq _ _)) by lia. cbn [negb].
    assert (Hr1 : read_der_integer width der (1 + len h) = inr (normalise r, 1 + len h + len b1))
      by (apply read_integer_spec; [done|done|lia|by exists b1, r, b2]).
    pose proof (suffix_app der (1 + len h) b1 b2 ltac:(lia) Hs2) as Hs3. rewrite Hr1.
    assert (Hr2 : read_der_integer width der (1 + len h + len b1) = inr (normalise s, 1 + len h + len b1 + len b2))
      by (apply read_integer_spec; [done|done|lia|exists b2, s, []; by rewrite app_nil_r]).
    rewrite Hr2, (proj2 (Z.eqb_eq _ _)) by lia. done.
Qed.

Lemma parse_panics der : bytes_ok der -> len der < 2 ^ (width - 1) -> parse_ecdsa_der width der = inl Panicked -> width = 32.
Proof using Type*.
  intros Hb Hw. unfold parse_ecdsa_der. destruct (_ || _) eqn:Hg; [done|]. apply orb_false_iff in Hg as [Hlt Ht]. breflect.
  destruct (read_der_length der 1) as [e|[n i]] eqn:Hl; [done|].
  apply read_length_spec in Hl as (h & rest & Hs & Hh & ->); [|done|lia].
  pose proof (suffix_bound der 1 h rest ltac:(lia) Hs) as B1. pose proof (len_nonneg rest). pose proof (len_nonneg h).
  destruct (negb _); [done|]. destruct (read_der_integer width der (1 + len h)) as [e|[r i]] eqn:Hr.
  { intros [= ->]. eapply (integer_panics der (1 + len h)); [done..|lia|done]. }
  apply read_integer_spec in Hr as (b1 & c1 & rest1 & Hs2 & Hi1 & -> & ->); [|done|done|lia].
  pose proof (suffix_bound der (1 + len h) b1 rest1 ltac:(lia) Hs2) as B2. pose proof (len_nonneg rest1). pose proof (len_nonneg b1).
  destruct (read_der_integer width der (1 + len h + len b1)) as [e|[s i]] eqn:Hr; [|by destruct (negb _)].
  intros [= ->]. eapply (integer_panics der (1 + len h + len b1)); [done..|lia|done].
Qed.
End Width.

(** ** Canonical integers *)
Lemma trim_cons a b m :
  trim (a :: b :: m) = if (a =? 0x00) && (Z.land b 0x80 =? 0) then trim (b :: m) else a :: b :: m.
Proof. done. Qed.

Lemma trim_spec m : bytes_ok m -> m <> [] ->
  be_value (trim m) = be_value m /\ bytes_ok (trim m) /\
  match trim m with
  | [] => False
  | a :: m' => match m' with b :: _ => a = 0 -> 128 <= b | [] => True end
  end.
Proof.
  intros Hm. induction Hm as [|a m Ha Hm IH]; [done|]. intros _.
  destruct m as [|b m]; [simpl; split; [done|split; [by apply Forall_cons|done]]|].
  rewrite trim_cons. destruct ((a =? 0) && (Z.land b 0x80 =? 0)) eqn:Hg.
  - apply andb_true_iff in Hg as [Hz _]. breflect. subst a.
    destruct IH as (Hv & Hok & Hc); [done|]. rewrite Hv. done.
  - split; [done|]. split; [by apply Forall_cons|]. intros ->. apply andb_false_iff in Hg as [?|Hg]; [done|].
    apply Forall_cons in Hm as [Hb _]. rewrite land_80 in Hg by done. breflect. lia.
Qed.

Lemma normalise_canonical m : bytes_ok m -> m <> [] ->
  canonical (normalise m) /\ be_value (normalise m) = be_value m.
Proof.
  intros Hm Hne. destruct (trim_spec m Hm Hne) as (Hv & Hok & Hc). unfold normalise.
  destruct (trim m) as [|a m'] eqn:Ht; [done|]. apply Forall_cons in Hok as [Ha _].
  cbn [needs_pad]. rewrite land_80 by done. destruct (Z.ltb_spec a 128); cbn [negb].
  - split; [split; [lia|done]|done].
  - split; [split; [lia|intros _; lia]|]. by rewrite <-Hv.
Qed.

(** C38. The DER reader accepts exactly the strict grammar and never emits a malformed
    integer.  On any bytes, whatever the width of [usize], the conversion of a hardware signature
    succeeds if and only if they are a definite-length [SEQUENCE] of exactly two non-empty
    [INTEGER]s with nothing after them; the result is then the two SSH strings of their contents,
    read as unsigned magnitudes, in the canonical mpint form, which has the same value, is never
    negative and has no redundant leading byte.  On 64 bits everything else is refused with an
    error; a panic is possible on 32 bits only. *)
Theorem der_reader_exact {width} `{Usize width} (der out : byte_list) (Hb : bytes_ok der) (Hw : len der < 2 ^ (width - 1)) :
  (ecdsa_der_to_ssh_mpint width der = inr out <->
   exists r s, der_signature der r s /\
     out = ssh_string (normalise r) ++ ssh_string (normalise s)) /\
  (forall r s, der_signature der r s ->
     canonical (normalise r) /\ be_value (normalise r) = be_value r /\
     canonical (normalise s) /\ be_value (normalise s) = be_value s) /\
  (ecdsa_der_to_ssh_mpint width der = inl Panicked -> width = 32).
Proof.
  split; [|split].
  - unfold ecdsa_der_to_ssh_mpint. destruct (parse_ecdsa_der width der) as [e|[r' s']] eqn:Hp.
    + split; [done|]. intros (r & s & Hd & _).
      assert (Hx : parse_ecdsa_der width der = inr (normalise r, normalise s)) by (apply parse_spec; eauto).
      congruence.
    + apply parse_spec in Hp as (r & s & Hd & -> & ->); [|done|done]. unfold push_ssh_string. cbn [app].
      split.
      * intros [= <-]. exists r, s. split; [done|]. unfold ssh_string. by rewrite <-app_assoc.
      * intros (r2 & s2 & Hd2 & ->).
        assert (H1 : parse_ecdsa_der width der = inr (normalise r, normalise s)) by (apply parse_spec; eauto).
        assert (H2 : parse_ecdsa_der width der = inr (normalise r2, normalise s2)) by (apply parse_spec; eauto).
        rewrite H1 in H2. injection H2 as -> ->. unfold ssh_string. by rewrite <-app_assoc.
  - intros r s (h & b1 & b2 & _ & (Hr & h1 & _ & E1) & (Hs & h2 & _ & E2) & ->).
    apply Forall_cons in Hb as [_ Hb]. apply Forall_app in Hb as [_ Hb]. apply Forall_app in Hb as [B1 B2].
    subst b1 b2. apply Forall_cons in B1 as [_ B1]. apply Forall_app in B1 as [_ B1].
    apply Forall_cons in B2 as [_ B2]. apply Forall_app in B2 as [_ B2].
    destruct (normalise_canonical r B1 Hr), (normalise_canonical s B2 Hs). done.
  - unfold ecdsa_der_to_ssh_mpint. destruct (parse_ecdsa_der width der) as [e|[r s]] eqn:Hp; [|done].
    intros [= ->]. by eapply parse_panics.
Qed.

(** ** The two shapes of a signature agree *)
Lemma be_value_cons a m : be_value (a :: m) = a * 256 ^ len m + be_value m.
Proof.
  unfold be_value. cbn [foldl]. rewrite Z.mul_0_l, Z.add_0_l. revert a.
  induction m as [|b m IH]; intros a; [unfold len; simpl; lia|].
  cbn [foldl]. rewrite (IH (a * 256 + b)), (IH (0 * 256 + b)), len_cons.
  rewrite Z.pow_add_r by (pose proof (len_nonneg m); lia). lia.
Qed.

Lemma be_value_bound m : bytes_ok m -> 0 <= be_value m < 256 ^ len m.
Proof.
  intros Hm. induction Hm as [|a m Ha _ IH]; [unfold be_value, len; simpl; lia|].
  rewrite be_value_cons, len_cons, Z.pow_add_r by (pose proof (len_nonneg m); lia). int_unfold. nia.
Qed.

Lemma be_value_inj a b : bytes_ok a -> bytes_ok b -> len a = len b -> be_value a = be_value b -> a = b.
Proof.
  intros Ha. revert b. induction Ha as [|x a Hx Ha IH]; intros b Hb Hl Hv.
  - destruct b; [done|]. rewrite len_cons in Hl. pose proof (len_nonneg b). unfold len in Hl at 1. simpl in Hl. lia.
  - destruct Hb as [|y b Hy Hb]; [rewrite len_cons in Hl; pose proof (len_nonneg a); unfold len in Hl at 2; simpl in Hl; lia|].
    rewrite !len_cons in Hl. rewrite !be_value_cons in Hv. replace (len b) with (len a) in Hv by lia.
    pose proof (be_value_bound a Ha) as Ba. pose proof (be_value_bound b Hb) as Bb.
    replace (len b) with (len a) in Bb by lia. assert (x = y) as <- by nia.
    f_equal. apply IH; [done|lia|lia].
Qed.

(** A canonical integer of [k] bytes lies between two bounds no other length reaches. *)
Lemma canonical_bounds m : bytes_ok m -> canonical m ->
  be_value m < 128 * 256 ^ (len m - 1) /\ (2 <= len m -> 128 * 256 ^ (len m - 2) <= be_value m).
Proof.
  intros Hm Hc. destruct m as [|a [|b m]]; [done| |]; destruct Hc as [Ha Hz].
  - apply Forall_cons in Hm as [Hu _]. unfold len, be_value; simpl. split; [lia|lia].
  - apply Forall_cons in Hm as [Hu Hm]. pose proof (be_value_bound (b :: m) Hm) as Hb.
    apply Forall_cons in Hm as [Hv Hm]. pose proof (be_value_bound m Hm) as Hb2.
    pose proof (len_nonneg m) as Hl. rewrite (be_value_cons a). rewrite !len_cons in *.
    replace (1 + (1 + len m) - 1) with (1 + len m) by lia. replace (1 + (1 + len m) - 2) with (len m) by lia.
    rewrite (be_value_cons b) in *. rewrite (Z.pow_add_r 256 1) in * by lia.
    assert (0 < 256 ^ len m) by (apply Z.pow_pos_nonneg; lia). int_unfold.
    split; [nia|]. intros _. destruct (Z.eq_dec a 0) as [->|Hne]; [specialize (Hz eq_refl); nia|nia].
Qed.

Lemma canonical_unique a b :
  bytes_ok a -> bytes_ok b -> canonical a -> canonical b -> be_value a = be_value b -> a = b.
Proof.
  assert (Hlen : forall a b, bytes_ok a -> bytes_ok b -> canonical a -> canonical b ->
    be_value a = be_value b -> len b <= len a).
  { intros x y Hx Hy Cx Cy Hv. destruct (Z.le_gt_cases (len y) (len x)) as [|Hlt]; [done|exfalso].
    assert (1 <= len x) by (destruct x; [done|rewrite len_cons; pose proof (len_nonneg x); lia]).
    destruct (canonical_bounds x Hx Cx) as [Ux _]. destruct (canonical_bounds y Hy Cy) as [_ Ly].
    specialize (Ly ltac:(lia)).
    assert (256 ^ (len x - 1) <= 256 ^ (len y - 2)) by (apply Z.pow_le_mono_r; lia). lia. }
  intros Ha Hb Ca Cb Hv. apply be_value_inj; [done|done| |done].
  pose proof (Hlen a b Ha Hb Ca Cb Hv). pose proof (Hlen b a Hb Ha Cb Ca (eq_sym Hv)). lia.
Qed.

Lemma normalise_ok m : bytes_ok m -> m <> [] -> bytes_ok (normalise m).
Proof.
  intros Hm Hne. destruct (trim_spec m Hm Hne) as (_ & Hok & _). unfold normalise.
  destruct (needs_pad _); [|done]. apply Forall_cons. split; [int_unfold; lia|done].
Qed.

Lemma normalise_value a b : bytes_ok a -> bytes_ok b -> a <> [] -> b <> [] ->
  be_value a = be_value b -> normalise a = normalise b.
Proof.
  intros Ha Hb Na Nb Hv.
  destruct (normalise_canonical a Ha Na) as [Ca Va]. destruct (normalise_canonical b Hb Nb) as [Cb Vb].
  apply canonical_unique; [by apply normalise_ok..|done|done|congruence].
Qed.

Lemma push_mpint_normalise buf m : bytes_ok m -> m <> [] ->
  push_ssh_mpint buf m = buf ++ ssh_string (normalise m).
Proof.
  intros Hm Hne. destruct (trim_spec m Hm Hne) as (_ & _ & Hc).
  unfold push_ssh_mpint, ssh_string, normalise. destruct (trim m) as [|a m']; [done|].
  destruct (needs_pad (a :: m')); cbn [app]; rewrite ?(len_cons 0); do 4 f_equal; lia.
Qed.

(** the wire bytes do not depend on the hardware.  When one signer returns the
    fixed-width concatenation [r || s] and another a DER sequence of integers with the
    same two values, whatever padding and length form it chose, the SSH signature
    bodies are identical, and both conversions succeed. *)
Theorem raw_and_der_agree {width} `{Usize width} (r s r' s' der : byte_list)
    (Hr : bytes_ok r) (Hs : bytes_ok s) (Hlen : length r = length s) (Hne : r <> [])
    (Hb : bytes_ok der) (Hw : len der < 2 ^ (width - 1)) (Hd : der_signature der r' s')
    (Vr : be_value r' = be_value r) (Vs : be_value s' = be_value s) :
  exists out, ecdsa_raw_concat_to_ssh_mpint (r ++ s) = inr out /\ ecdsa_der_to_ssh_mpint width der = inr out.
Proof.
  assert (Hs0 : s <> []) by (destruct s, r; done).
  assert (Hparse : parse_ecdsa_der width der = inr (normalise r', normalise s')) by (apply parse_spec; eauto).
  destruct Hd as (h & b1 & b2 & _ & (Hr0 & h1 & _ & E1) & (Hs1 & h2 & _ & E2) & E).
  rewrite E in Hb. apply Forall_cons in Hb as [_ Hb]. apply Forall_app in Hb as [_ Hb].
  apply Forall_app in Hb as [B1 B2]. subst b1 b2.
  apply Forall_cons in B1 as [_ B1]. apply Forall_app in B1 as [_ B1].
  apply Forall_cons in B2 as [_ B2]. apply Forall_app in B2 as [_ B2].
  exists (ssh_string (normalise r) ++ ssh_string (normalise s)). split.
  - unfold ecdsa_raw_concat_to_ssh_mpint.
    assert (Hl : len (r ++ s) = len r * 2) by (rewrite len_app; unfold len; lia).
    assert (1 <= len r) by (destruct r; [done|rewrite len_cons; pose proof (len_nonneg r); lia]).
    rewrite Hl, Z.mod_mul, Z.div_mul by lia. rewrite (proj2 (Z.eqb_neq (len r * 2) 0)) by lia. cbn [Z.eqb negb orb].
    unfold len. rewrite Nat2Z.id, take_app_length, drop_app_length.
    rewrite !push_mpint_normalise by done. done.
  - unfold ecdsa_der_to_ssh_mpint. rewrite Hparse. unfold push_ssh_string. cbn [app].
    rewrite (normalise_value r' r), (normalise_value s' s) by done.
    unfold ssh_string. by rewrite <-app_assoc.
Qed.

(** ** What a peer reads *)

(** The peer's reader: length-prefixed strings until the end of the buffer. *)
Fixpoint ssh_strings (fuel : nat) (b : byte_list) : option (list byte_list) :=
  match fuel, b with
  | _, [] => Some []
  | S fuel, x :: y :: z :: w :: rest =>
      let n := from_be32 x y z w in
      if len rest <? n then None
      else l ← ssh_strings fuel (drop (Z.to_nat n) rest); Some (take (Z.to_nat n) rest :: l)
  | _, _ => None
  end.

Definition read_blob (b : byte_list) : option (list byte_list) := ssh_strings (length b) b.

Lemma ssh_strings_concat l fuel :
  Forall (fun b => len b < 2 ^ 32) l -> (length l <= fuel)%nat ->
  ssh_strings fuel (mjoin (ssh_string <$> l)) = Some l.
Proof.
  intros Hl. revert fuel. induction Hl as [|b l Hb Hl IH]; intros fuel Hf; [by destruct fuel|].
  destruct fuel as [|fuel]; [simpl in Hf; lia|]. cbn [fmap list_fmap mjoin list_join].
  unfold ssh_string at 1. rewrite wrap_u32_id by (int_unfold; pose proof (len_nonneg b); lia).
  pose proof (be32_roundtrip (len b) ltac:(pose proof (len_nonneg b); lia)) as Hr.
  unfold to_be32 in *. cbn [app ssh_strings]. rewrite Hr.
  rewrite len_app, (proj2 (Z.ltb_ge _ _)) by (match goal with |- _ <= _ + len ?x => pose proof (len_nonneg x) end; lia).
  unfold len. rewrite Nat2Z.id, take_app_length, drop_app_length.
  rewrite IH by (simpl in Hf; lia). done.
Qed.

Lemma read_blob_concat l :
  Forall (fun b => len b < 2 ^ 32) l -> read_blob (mjoin (ssh_string <$> l)) = Some l.
Proof.
  intros Hl. apply ssh_strings_concat; [done|]. clear Hl.
  induction l as [|b l IH]; [done|].
  assert (E : mjoin (ssh_string <$> b :: l) = ssh_string b ++ mjoin (ssh_string <$> l)) by done.
  rewrite E, length_app. unfold ssh_string at 1. rewrite length_app. unfold to_be32. cbn [length]. lia.
Qed.

Lemma push_string_app buf b : push_ssh_string buf b = buf ++ ssh_string b.
Proof. done. Qed.

Lemma read_blob_app l b : b = mjoin (ssh_string <$> l) -> Forall (fun b => len b < 2 ^ 32) l ->
  read_blob b = Some l.
Proof. intros ->. apply read_blob_concat. Qed.

(** a peer reads every blob back.  The signature field is one string whose content
    is exactly the algorithm name and the signature body; an accepted ECDSA, Ed25519 or
    RSA public key is exactly its name followed by its components, the RSA ones in
    canonical form (sizes below [2^32], which the wire format cannot exceed). *)
Theorem blobs_read_back (alg : string) (body point raw modulus exponent : byte_list)
    (Hsize : len (string_codes alg) + len body + 8 < 2 ^ 32)
    (Hm : bytes_ok modulus) (He : bytes_ok exponent) (Hm0 : modulus <> []) (He0 : exponent <> [])
    (Hms : len (normalise modulus) < 2 ^ 32) (Hes : len (normalise exponent) < 2 ^ 32) :
  (exists blob, read_blob (encode_userauth_signature_field alg body) = Some [blob] /\
     read_blob blob = Some [string_codes alg; body]) /\
  (forall out, encode_public_ecdsa_p256 point = inr out ->
     read_blob out = Some [string_codes "ecdsa-sha2-nistp256"; string_codes "nistp256"; point]) /\
  (forall out, encode_public_ecdsa_p384 point = inr out ->
     read_blob out = Some [string_codes "ecdsa-sha2-nistp384"; string_codes "nistp384"; point]) /\
  (forall out, encode_public_ed25519 raw = inr out ->
     read_blob out = Some [string_codes "ssh-ed25519"; raw]) /\
  read_blob (encode_public_rsa modulus exponent) =
    Some [string_codes "ssh-rsa"; normalise exponent; normalise modulus].
Proof.
  pose proof (len_nonneg (string_codes alg)). pose proof (len_nonneg body).
  assert (Hpt : forall a c n out, encode_public_ecdsa a c n point = inr out ->
    len (string_codes a) < 2 ^ 32 -> len (string_codes c) < 2 ^ 32 -> n < 2 ^ 32 ->
    read_blob out = Some [string_codes a; string_codes c; point]).
  { intros a c n out. unfold encode_public_ecdsa. destruct (_ || _) eqn:Hg; [done|].
    apply orb_false_iff in Hg as [Hn _]. breflect. intros [= <-] Ha Hc Hb.
    apply read_blob_app; [|repeat (apply Forall_cons; split; [lia|]); by apply Forall_nil].
    rewrite !push_string_app. cbn [fmap list_fmap mjoin list_join]. by rewrite app_nil_r, <-!app_assoc. }
  split; [|split; [|split; [|split]]].
  - exists (ssh_string (string_codes alg) ++ ssh_string body). split.
    + apply read_blob_app.
      * unfold encode_userauth_signature_field. rewrite !push_string_app. cbn [fmap list_fmap mjoin list_join].
        rewrite app_nil_r. unfold ssh_string at 3. rewrite <-!app_assoc. do 3 f_equal.
        unfold ssh_string. rewrite !len_app. change (len (to_be32 _)) with 4. lia.
      * apply Forall_singleton. unfold ssh_string. rewrite !len_app. change (len (to_be32 _)) with 4. lia.
    + apply read_blob_app; [simpl; by rewrite app_nil_r|].
      repeat (apply Forall_cons; split; [lia|]). by apply Forall_nil.
  - intros out Ho. by apply (Hpt _ _ 65 out Ho).
  - intros out Ho. by apply (Hpt _ _ 97 out Ho).
  - intros out. unfold encode_public_ed25519. destruct (len raw =? 32) eqn:Hn; [|done]. breflect.
    intros [= <-]. apply read_blob_app;
      [rewrite !push_string_app; cbn [fmap list_fmap mjoin list_join]; by rewrite app_nil_r, <-!app_assoc|].
    repeat (apply Forall_cons; split; [lia || (vm_compute; reflexivity)|]). by apply Forall_nil.
  - unfold encode_public_rsa. rewrite !push_mpint_normalise by done. apply read_blob_app.
    + rewrite push_string_app. cbn [fmap list_fmap mjoin list_join]. by rewrite app_nil_r, <-!app_assoc.
    + repeat (apply Forall_cons; split; [lia || (vm_compute; reflexivity)|]). by apply Forall_nil.
Qed.

(** ** Concrete signatures *)
Definition demo_der : byte_list := [0x30; 0x06; 0x02; 0x01; 0x05; 0x02; 0x01; 0x80].

Lemma demo_der_signature : der_signature demo_der [0x05] [0x80].
Proof.
  exists [0x06], [0x02; 0x01; 0x05], [0x02; 0x01; 0x80].
  split; [by apply (short_form 6)|]. split; [|split; [|done]].
  - split; [done|]. exists [0x01]. split; [by apply (short_form 1)|done].
  - split; [done|]. exists [0x01]. split; [by apply (short_form 1)|done].
Qed.

Lemma der_reader_exact_witness :
  ecdsa_der_to_ssh_mpint 32 demo_der = inr [0; 0; 0; 1; 5; 0; 0; 0; 2; 0; 0x80] /\ canonical [0; 0x80].
Proof.
  destruct (der_reader_exact (width := 32) demo_der [0; 0; 0; 1; 5; 0; 0; 0; 2; 0; 0x80]) as (H1 & H2 & _).
  - repeat constructor; vm_compute; congruence.
  - reflexivity.
  - split; [apply H1; exists [0x05], [0x80]; split; [apply demo_der_signature|reflexivity]|].
    apply (H2 [0x05] [0x80] demo_der_signature).
Defined.

Lemma raw_and_der_agree_witness :
  exists out, ecdsa_raw_concat_to_ssh_mpint [0x00; 0x05; 0x00; 0x80] = inr out /\
    ecdsa_der_to_ssh_mpint 64 demo_der = inr out.
Proof.
  apply (raw_and_der_agree (width := 64) [0x00; 0x05] [0x00; 0x80] [0x05] [0x80]);
    first [apply demo_der_signature|reflexivity|discriminate|repeat constructor; vm_compute; congruence].
Defined.

Lemma blobs_read_back_witness :
  read_blob (encode_public_rsa [0x00; 0xc5; 0x01] [0x01; 0x00; 0x01]) =
    Some [string_codes "ssh-rsa"; [0x01; 0x00; 0x01]; [0x00; 0xc5; 0x01]].
Proof.
  apply (blobs_read_back "ssh-ed25519" [7] [] [] [0x00; 0xc5; 0x01] [0x01; 0x00; 0x01]);
    first [reflexivity|discriminate|repeat constructor; vm_compute; congruence].
Defined.

(** An [INTEGER] that claims four gigabytes: refused on 64 bits; on 32 bits its end wraps to
    before its start, passes the bound check, and the slice panics. *)
Example overlong_integer_panics_on_32_bits :
  let der := [0x30; 0x06; 0x02; 0x84; 0xff; 0xff; 0xff; 0xff] in
  ecdsa_der_to_ssh_mpint 64 der = inl (Refused TruncatedInteger) /\ ecdsa_der_to_ssh_mpint 32 der = inl Panicked.
Proof. split; reflexivity. Qed.
