(* ===== verification/Transfer.v ===== *)
(** * The transfer queue and its worker pool ([transfer/mod.rs], [transfer/driver.rs])

    The task table with its insertion order, the throttled progress announcements, and
    the life of one dispatched task in a worker.  The reading of the clock
    ([Instant::now()], in nanoseconds) is an argument; what the executor streams is a
    parameter.  A cancellation token is a cell of [flags] that the worker, the executor
    and the pool's map share. *)
From Stdlib Require Import ZArith Lia.
From stdpp Require Import prelude gmap strings list.
From S2P Require Import Prelude Types Bus Json Config Prog.

Local Open Scope Z_scope.
Local Open Scope prog_scope.

Definition PROGRESS_BYTES_THRESHOLD : Z := 256 * 1024.
Definition PROGRESS_TIME_THRESHOLD : Z := 100 * 1000000.

Inductive TaskKind := Download | Upload.

Record TaskActor := mkTask {
  t_id : string;
  t_kind : TaskKind;
  t_session_id : string;
  t_remote_path : string;
  t_local_path : string;
  t_state : TaskState;
  t_bytes_done : Z;
  t_bytes_total : Z;
  t_error : option string;
  t_progress_published_bytes : Z;
  t_progress_published_at : option Z
}.

Record TaskSnapshot := mkSnapshot {
  s_id : string;
  s_kind : TaskKind;
  s_session_id : string;
  s_remote_path : string;
  s_local_path : string;
  s_state : TaskState;
  s_bytes_done : Z;
  s_bytes_total : Z;
  s_error : option string
}.

Record EnqueueRequest := mkRequest {
  q_id : string;
  q_kind : TaskKind;
  q_session_id : string;
  q_remote_path : string;
  q_local_path : string;
  q_bytes_total : Z
}.

Record QueueInner := mkQueue { by_id : gmap string TaskActor; order : list string }.

Definition snapshot_of (a : TaskActor) : TaskSnapshot :=
  mkSnapshot (t_id a) (t_kind a) (t_session_id a) (t_remote_path a) (t_local_path a) (t_state a)
    (t_bytes_done a) (t_bytes_total a) (t_error a).

Definition with_state (s : TaskState) (a : TaskActor) : TaskActor :=
  mkTask (t_id a) (t_kind a) (t_session_id a) (t_remote_path a) (t_local_path a) s
    (t_bytes_done a) (t_bytes_total a) (t_error a) (t_progress_published_bytes a)
    (t_progress_published_at a).

Definition with_error (m : string) (a : TaskActor) : TaskActor :=
  mkTask (t_id a) (t_kind a) (t_session_id a) (t_remote_path a) (t_local_path a) (t_state a)
    (t_bytes_done a) (t_bytes_total a) (Some m) (t_progress_published_bytes a)
    (t_progress_published_at a).

Definition with_bytes (n : Z) (a : TaskActor) : TaskActor :=
  mkTask (t_id a) (t_kind a) (t_session_id a) (t_remote_path a) (t_local_path a) (t_state a)
    n (t_bytes_total a) (t_error a) (t_progress_published_bytes a) (t_progress_published_at a).

Definition with_published (n now : Z) (a : TaskActor) : TaskActor :=
  mkTask (t_id a) (t_kind a) (t_session_id a) (t_remote_path a) (t_local_path a) (t_state a)
    (t_bytes_done a) (t_bytes_total a) (t_error a) n (Some now).

Definition is_terminal (s : TaskState) : bool :=
  match s with Completed | Failed | Types.Cancelled => true | _ => false end.

(** [u64::saturating_sub] *)
Definition saturating_sub (a b : Z) : Z := Z.max 0 (a - b).

(** [worker_count_from_json], on the parsed snapshot. *)
Definition worker_count_from_json (json : option json) : Z :=
  let raw := default DEFAULT_TRANSFER_WORKERS
    (v ← json; o ← Json.as_object v; f ← o !! "transfer_workers"; Json.as_i64 f) in
  if raw <? 1 then 1 else if MAX_TRANSFER_WORKERS <? raw then MAX_TRANSFER_WORKERS else raw.

(** ** The queue: the critical sections, each with what it decides to publish *)
Module TransferQueue.

Definition new : QueueInner := mkQueue ∅ [].

Definition update (id : string) (a : TaskActor) (q : QueueInner) : QueueInner :=
  mkQueue (<[id := a]> (by_id q)) (order q).

Definition enqueue_section (req : EnqueueRequest) (q : QueueInner) : TaskSnapshot * QueueInner :=
  let a := mkTask (q_id req) (q_kind req) (q_session_id req) (q_remote_path req) (q_local_path req)
    Queued 0 (q_bytes_total req) None 0 None in
  (snapshot_of a,
   mkQueue (<[q_id req := a]> (by_id q))
     (match by_id q !! q_id req with None => order q ++ [q_id req] | Some _ => order q end)).

Definition set_state_section (id : string) (s : TaskState) (q : QueueInner) : list Event * QueueInner :=
  match by_id q !! id with
  | None => ([], q)
  | Some a =>
      if decide (t_state a = s) then ([], q)
      else ([TransferTaskState id s], update id (with_state s a) q)
  end.

Definition set_progress_section (now : Z) (id : string) (bytes_done : Z) (q : QueueInner) :
    list Event * QueueInner :=
  match by_id q !! id with
  | None => ([], q)
  | Some a0 =>
      let a := with_bytes bytes_done a0 in
      let publish :=
        match t_progress_published_at a with
        | None => true
        | Some prev_at =>
            let bytes_delta := saturating_sub bytes_done (t_progress_published_bytes a) in
            let time_elapsed := saturating_sub now prev_at in
            let finished := (0 <? t_bytes_total a) && (t_bytes_total a <=? bytes_done) in
            finished || (PROGRESS_BYTES_THRESHOLD <=? bytes_delta) ||
            (PROGRESS_TIME_THRESHOLD <=? time_elapsed)
        end in
      if publish
      then ([TransferTaskProgress id bytes_done (t_bytes_total a)],
            update id (with_published bytes_done now a) q)
      else ([], update id a q)
  end.

Definition cancel_section (id : string) (q : QueueInner) : (bool * list Event) * QueueInner :=
  match by_id q !! id with
  | None => ((false, []), q)
  | Some a =>
      if is_terminal (t_state a) then ((false, []), q)
      else ((true, [TransferTaskState id Types.Cancelled]), update id (with_state Types.Cancelled a) q)
  end.

Definition drop_terminal (id : string) (q : QueueInner) : bool * QueueInner :=
  match by_id q !! id with
  | None => (false, q)
  | Some a =>
      if negb (is_terminal (t_state a)) then (false, q)
      else (true, mkQueue (delete id (by_id q)) (filter (fun x => x <> id) (order q)))
  end.

Definition fail_section (id message : string) (q : QueueInner) : list Event * QueueInner :=
  match by_id q !! id with
  | None => ([], q)
  | Some a =>
      ([TransferTaskState id Failed; TransferTaskError id message],
       update id (with_error message (with_state Failed a)) q)
  end.

Definition snapshot (id : string) (q : QueueInner) : option TaskSnapshot :=
  snapshot_of <$> by_id q !! id.

Definition snapshot_all (q : QueueInner) : list TaskSnapshot :=
  omap (fun id => snapshot_of <$> by_id q !! id) (order q).

Definition count (q : QueueInner) : nat := size (by_id q).

End TransferQueue.

(** ** The operations and the worker, over the application's queue, bus and pool *)
Record world := mkWorld {
  transfers : QueueInner;
  bus : EventBus;
  (** The pool's map from running tasks to their tokens. *)
  cancel_tokens : gmap string nat;
  (** The tokens' shared cells. *)
  flags : list bool;
  (** The ids sent to the workers and not received yet. *)
  channel : list string
}.

Definition on_queue {A} (f : QueueInner -> A * QueueInner) (w : world) : A * world :=
  let '(r, q) := f (transfers w) in
  (r, mkWorld q (bus w) (cancel_tokens w) (flags w) (channel w)).

Definition publish (e : Event) (w : world) : unit * world :=
  (tt, mkWorld (transfers w) (EventBus.publish e (bus w)).2 (cancel_tokens w) (flags w) (channel w)).

Fixpoint publish_all (es : list Event) : prog world unit :=
  match es with
  | [] => Ret tt
  | e :: es => let! _ := call (publish e) in publish_all es
  end.

(** [TransferQueue]'s methods: a critical section, then its announcements. *)
Module Ops.

Definition enqueue (req : EnqueueRequest) : prog world TaskSnapshot :=
  let! snap := call (on_queue (TransferQueue.enqueue_section req)) in
  let! _ := call (publish (TransferTaskAdded (q_id req))) in
  Ret snap.

Definition set_state (id : string) (s : TaskState) : prog world unit :=
  let! es := call (on_queue (TransferQueue.set_state_section id s)) in publish_all es.

Definition set_progress (now : Z) (id : string) (bytes_done : Z) : prog world unit :=
  let! es := call (on_queue (TransferQueue.set_progress_section now id bytes_done)) in publish_all es.

Definition cancel (id : string) : prog world bool :=
  let! r := call (on_queue (TransferQueue.cancel_section id)) in
  let! _ := publish_all r.2 in
  Ret r.1.

Definition fail (id message : string) : prog world unit :=
  let! es := call (on_queue (TransferQueue.fail_section id message)) in publish_all es.

End Ops.

Module CancellationToken.

Definition new (w : world) : nat * world :=
  (length (flags w), mkWorld (transfers w) (bus w) (cancel_tokens w) (flags w ++ [false]) (channel w)).

Definition is_cancelled (t : nat) (w : world) : bool := default false (flags w !! t).

Definition cancel (t : nat) (w : world) : world :=
  mkWorld (transfers w) (bus w) (cancel_tokens w) (<[t := true]> (flags w)) (channel w).

End CancellationToken.

Module WorkerPool.

Definition with_tokens (f : gmap string nat -> gmap string nat) (w : world) : unit * world :=
  (tt, mkWorld (transfers w) (bus w) (f (cancel_tokens w)) (flags w) (channel w)).

Definition cancel (id : string) (w : world) : bool * world :=
  match cancel_tokens w !! id with
  | Some t => (true, CancellationToken.cancel t w)
  | None => (false, w)
  end.

Definition dispatch (id : string) (w : world) : world :=
  mkWorld (transfers w) (bus w) (cancel_tokens w) (flags w) (channel w ++ [id]).

(** A worker receives the oldest id. *)
Definition recv (w : world) : option string * world :=
  match channel w with
  | [] => (None, w)
  | id :: rest => (Some id, mkWorld (transfers w) (bus w) (cancel_tokens w) (flags w) rest)
  end.

Section Worker.
(** The transfer itself: [inl] is the rendered error. *)
Variable execute : TaskSnapshot -> nat -> prog world (string + unit).

Definition run_one (id : string) : prog world unit :=
  let! snap := call (fun w => (TransferQueue.snapshot id (transfers w), w)) in
  match snap with
  | None => Ret tt
  | Some snap =>
      let! token := call CancellationToken.new in
      let! _ := call (with_tokens (insert id token)) in
      let! _ := Ops.set_state id Running in
      let! result := execute snap token in
      let! _ := call (with_tokens (delete id)) in
      let! cancelled := call (fun w => (CancellationToken.is_cancelled token w, w)) in
      if cancelled then let! _ := Ops.cancel id in Ret tt
      else
        match result with
        | inr _ => Ops.set_state id Completed
        | inl e => Ops.fail id e
        end
  end.

End Worker.
End WorkerPool.

(** ** The table and its order *)
Inductive queue_op :=
| Enqueue (req : EnqueueRequest)
| SetState (id : string) (s : TaskState)
| SetProgress (now : Z) (id : string) (bytes_done : Z)
| Cancel (id : string)
| DropTerminal (id : string)
| Fail (id message : string).

Definition queue_exec (q : QueueInner) (o : queue_op) : QueueInner :=
  match o with
  | Enqueue req => (TransferQueue.enqueue_section req q).2
  | SetState id s => (TransferQueue.set_state_section id s q).2
  | SetProgress now id n => (TransferQueue.set_progress_section now id n q).2
  | Cancel id => (TransferQueue.cancel_section id q).2
  | DropTerminal id => (TransferQueue.drop_terminal id q).2
  | Fail id m => (TransferQueue.fail_section id m q).2
  end.

Section Table.
Import TransferQueue.

Record queue_wf (q : QueueInner) : Prop := {
  wf_nodup : NoDup (order q);
  wf_order : forall id, id ∈ order q <-> is_Some (by_id q !! id);
  wf_id : forall id a, by_id q !! id = Some a -> t_id a = id
}.

Lemma queue_wf_new : queue_wf new.
Proof.
  split; simpl; [constructor| |].
  - intros id. rewrite lookup_empty, is_Some_alt. set_solver.
  - intros id a. by rewrite lookup_empty.
Qed.

Lemma queue_wf_update q id a a' :
  queue_wf q -> by_id q !! id = Some a -> t_id a' = t_id a -> queue_wf (update id a' q).
Proof.
  intros [Hn Ho Hi] Ha Hid. split; simpl; [done| |].
  - intros id'. rewrite Ho, lookup_insert. case_decide; [subst|done]. split; [eauto|by rewrite Ha].
  - intros id' b. rewrite lookup_insert. case_decide; [|apply Hi].
    intros [= <-]. subst. rewrite Hid. by apply Hi.
Qed.

Lemma queue_wf_exec q o : queue_wf q -> queue_wf (queue_exec q o).
Proof.
  intros Hw. pose proof Hw as [Hn Ho Hi]. destruct o as [req|id s|now id n|id|id|id m]; simpl.
  - unfold enqueue_section; simpl. split; simpl.
    + destruct (by_id q !! q_id req) eqn:Hq; [done|]. apply NoDup_app. split; [done|].
      split; [|apply NoDup_singleton]. intros x Hx ->%list_elem_of_singleton.
      apply Ho in Hx as [? ?]. congruence.
    + intros id. rewrite lookup_insert. destruct (by_id q !! q_id req) eqn:Hq.
      * rewrite Ho. case_decide; [subst; rewrite Hq; split; eauto|done].
      * rewrite elem_of_app, list_elem_of_singleton, Ho. case_decide; [split; eauto|].
        split; [intros [?|?]; [done|congruence]|auto].
    + intros id a. rewrite lookup_insert. case_decide; [by intros [= <-]|apply Hi].
  - unfold set_state_section. destruct (by_id q !! id) eqn:Hq; [|done].
    case_decide; [done|]. by eapply queue_wf_update.
  - unfold set_progress_section. destruct (by_id q !! id) eqn:Hq; [|done].
    case_match; by eapply queue_wf_update.
  - unfold cancel_section. destruct (by_id q !! id) eqn:Hq; [|done].
    case_match; [done|]. by eapply queue_wf_update.
  - unfold drop_terminal. destruct (by_id q !! id) eqn:Hq; [|done].
    case_match; [done|]. split; simpl.
    + by apply NoDup_filter.
    + intros id'. rewrite list_elem_of_filter, Ho, lookup_delete. case_decide.
      * subst. rewrite is_Some_alt. naive_solver.
      * naive_solver.
    + intros id' b Hb%lookup_delete_Some. naive_solver.
  - unfold fail_section. destruct (by_id q !! id) eqn:Hq; [|done]. by eapply queue_wf_update.
Qed.

Lemma snapshot_ids (q : QueueInner) (l : list string) :
  queue_wf q -> (forall id, id ∈ l -> is_Some (by_id q !! id)) ->
  s_id <$> omap (fun id => snapshot_of <$> by_id q !! id) l = l.
Proof.
  intros [_ _ Hi]. induction l as [|id l IH]; intros Hl; [done|].
  destruct (Hl id) as [a Ha]; [set_solver|]. simpl. rewrite Ha. simpl.
  f_equal; [by apply Hi|]. apply IH. set_solver.
Qed.

(** the panel shows every task once, in the order the user queued them.  After any
    interleaving of the queue's critical sections: the rows of [snapshot_all] are
    exactly the tasks of the table, each once, their ids in the recorded order; a task
    that is not finished is never removed, and [cancel] and [drop_terminal] never
    rewrite a finished one. *)
Theorem queue_rows_exact (os : list queue_op) :
  let q := foldl queue_exec new os in
  (s_id <$> snapshot_all q = order q /\ NoDup (order q) /\ length (snapshot_all q) = count q /\
   forall id, id ∈ order q <-> is_Some (by_id q !! id)) /\
  (forall id a o, by_id q !! id = Some a -> is_terminal (t_state a) = false ->
     is_Some (by_id (queue_exec q o) !! id)) /\
  (forall id a, by_id q !! id = Some a -> is_terminal (t_state a) = true ->
     queue_exec q (Cancel id) = q /\ by_id (queue_exec q (DropTerminal id)) !! id = None).
Proof.
  intros q. assert (Hw : queue_wf q).
  { subst q. induction os as [|o os IH] using rev_ind; [apply queue_wf_new|].
    rewrite foldl_app. by apply queue_wf_exec. }
  pose proof Hw as [Hn Ho Hi].
  assert (Hids : s_id <$> snapshot_all q = order q) by (apply snapshot_ids; [done|by apply Ho]).
  split; [split; [done|split; [done|split; [|done]]]|split].
  - rewrite <-(length_fmap s_id), Hids. unfold count. rewrite <-size_dom.
    rewrite <-(size_list_to_set (C := gset string) (order q) Hn). f_equal. apply set_eq.
    intros id. by rewrite elem_of_list_to_set, Ho, elem_of_dom.
  - intros id a o Ha Ht. destruct o as [req|id' s|now id' n|id'|id'|id' m]; simpl.
    + rewrite lookup_insert. case_decide; eauto.
    + unfold set_state_section. destruct (by_id q !! id'); [|eauto]. case_decide; [eauto|].
      simpl. rewrite lookup_insert. case_decide; eauto.
    + unfold set_progress_section. destruct (by_id q !! id'); [|eauto].
      case_match; simpl; rewrite lookup_insert; case_decide; eauto.
    + unfold cancel_section. destruct (by_id q !! id'); [|eauto]. case_match; [eauto|].
      simpl. rewrite lookup_insert. case_decide; eauto.
    + unfold drop_terminal. destruct (by_id q !! id') as [a'|] eqn:Ha'; [|eauto].
      destruct (is_terminal (t_state a')) eqn:Ht'; [|simpl; eauto]. simpl.
      rewrite lookup_delete_ne; [eauto|]. intros ->. congruence.
    + unfold fail_section. destruct (by_id q !! id'); [|eauto].
      simpl. rewrite lookup_insert. case_decide; eauto.
  - intros id a Ha Ht. simpl. unfold cancel_section, drop_terminal. rewrite Ha, Ht. simpl.
    split; [done|apply lookup_delete_eq].
Qed.

End Table.

(** ** The throttle *)
Section Throttle.
Import TransferQueue.

(** A stream of progress reports (time, bytes) on one task: the ones announced. *)
Fixpoint report (id : string) (l : list (Z * Z)) (q : QueueInner) : list (Z * Z) * QueueInner :=
  match l with
  | [] => ([], q)
  | (now, n) :: l =>
      let '(es, q1) := set_progress_section now id n q in
      let '(ps, q2) := report id l q1 in
      (match es with [] => ps | _ => (now, n) :: ps end, q2)
  end.

(** Reports of a transfer that moves forward and has not reached its total. *)
Fixpoint forward (total t b : Z) (l : list (Z * Z)) : Prop :=
  match l with
  | [] => True
  | (now, n) :: l => t <= now /\ b <= n /\ (total <= 0 \/ n < total) /\ forward total now n l
  end.

(** The cost of an announcement, in either currency. *)
Definition weight (t0 b0 t1 b1 : Z) : Z :=
  (t1 - t0) * PROGRESS_BYTES_THRESHOLD + (b1 - b0) * PROGRESS_TIME_THRESHOLD.

Definition unit_weight : Z := PROGRESS_TIME_THRESHOLD * PROGRESS_BYTES_THRESHOLD.

Lemma weight_unit t0 b0 t1 b1 :
  t0 <= t1 -> b0 <= b1 ->
  (PROGRESS_BYTES_THRESHOLD <=? saturating_sub b1 b0) || (PROGRESS_TIME_THRESHOLD <=? saturating_sub t1 t0) = true ->
  unit_weight <= weight t0 b0 t1 b1.
Proof.
  unfold unit_weight, weight, saturating_sub, PROGRESS_BYTES_THRESHOLD, PROGRESS_TIME_THRESHOLD.
  intros Ht Hb Hp. apply orb_true_iff in Hp as [Hp|Hp]; apply Z.leb_le in Hp; lia.
Qed.

(** From a row last announced at [(t0, b0)] and last reported at [(t, b)]. *)
Lemma report_spacing id l q a t0 b0 t b :
  by_id q !! id = Some a -> t_progress_published_at a = Some t0 -> t_progress_published_bytes a = b0 ->
  t0 <= t -> b0 <= b -> forward (t_bytes_total a) t b l ->
  let '(ps, q') := report id l q in
  let '(t1, b1) := default (t, b) (last l) in
  Z.of_nat (length ps) * unit_weight <= weight t0 b0 t1 b1 /\
  exists a', by_id q' !! id = Some a' /\ t_bytes_total a' = t_bytes_total a /\
    (l <> [] -> t_bytes_done a' = b1).
Proof.
  revert q a t0 b0 t b. induction l as [|[now n] l IH]; intros q a t0 b0 t b Ha Hp Hb Ht Hbb Hf.
  - simpl. split; [unfold weight, PROGRESS_BYTES_THRESHOLD, PROGRESS_TIME_THRESHOLD; lia|]. by exists a.
  - destruct Hf as (Hn1 & Hn2 & Hn3 & Hf). cbn [report]. unfold set_progress_section. rewrite Ha.
    cbn [with_bytes t_progress_published_at t_progress_published_bytes t_bytes_total]. rewrite Hp, Hb.
    assert (Hfin : (0 <? t_bytes_total a) && (t_bytes_total a <=? n) = false).
    { apply andb_false_iff. destruct Hn3; [left; by apply Z.ltb_ge|right; by apply Z.leb_gt]. }
    rewrite Hfin, orb_false_l.
    assert (Hlast : default (t, b) (last ((now, n) :: l)) = default (now, n) (last l)).
    { destruct l as [|x l]; [done|]. simpl. by destruct (last (x :: l)) eqn:El; [|apply last_None in El]. }
    rewrite Hlast. destruct (_ || _) eqn:Hpub.
    + apply weight_unit in Hpub; [|lia..].
      set (a1 := with_published n now (with_bytes n a)).
      pose proof (IH (update id a1 q) a1 now n now n (lookup_insert_eq _ _ _) eq_refl eq_refl
        ltac:(lia) ltac:(lia) Hf) as Hr.
      destruct (report id l (update id a1 q)) as [ps q'] eqn:Hrep.
      destruct (default (now, n) (last l)) as [t1 b1] eqn:Hd.
      destruct Hr as [Hw (a' & Ha' & Hto & Hdo)]. split.
      * cbn [length]. unfold weight, unit_weight in *. lia.
      * exists a'. split; [done|]. split; [done|]. intros _. destruct l; [|by apply Hdo].
        simpl in *. simplify_eq/=. rewrite lookup_insert_eq in Ha'. by simplify_eq/=.
    + set (a1 := with_bytes n a).
      pose proof (IH (update id a1 q) a1 t0 b0 now n (lookup_insert_eq _ _ _) Hp Hb
        ltac:(lia) ltac:(lia) Hf) as Hr.
      destruct (report id l (update id a1 q)) as [ps q'] eqn:Hrep.
      destruct (default (now, n) (last l)) as [t1 b1] eqn:Hd.
      destruct Hr as [Hw (a' & Ha' & Hto & Hdo)]. split; [done|].
      exists a'. split; [done|]. split; [done|]. intros _. destruct l; [|by apply Hdo].
      simpl in *. simplify_eq/=. rewrite lookup_insert_eq in Ha'. by simplify_eq/=.
Qed.

(** progress announcements are bounded and never stale at the end.  On a fresh
    task, the first report is announced; while a transfer moves forward (times and
    bytes never decrease, the total not reached), [k] further announcements cost in
    total at least [k] times a hundred milliseconds or [k] times 256 KiB, or a mix of
    the two; the table always holds the last reported count; and the report that
    reaches the total is always announced. *)
Theorem progress_is_throttled (id : string) (q : QueueInner) (a : TaskActor) (t b : Z)
    (l : list (Z * Z))
    (Ha : by_id q !! id = Some a) (Hfresh : t_progress_published_at a = None)
    (Hf : forward (t_bytes_total a) t b l) :
  let '(ps, q') := report id ((t, b) :: l) q in
  let '(t1, b1) := default (t, b) (last l) in
  head ps = Some (t, b) /\
  (Z.of_nat (length ps) - 1) * unit_weight <= weight t b t1 b1 /\
  t_bytes_done <$> by_id q' !! id = Some b1 /\
  forall now n, 0 < t_bytes_total a <= n ->
    (set_progress_section now id n q').1 = [TransferTaskProgress id n (t_bytes_total a)].
Proof.
  cbn [report]. unfold set_progress_section at 1. rewrite Ha.
  cbn [with_bytes t_progress_published_at]. rewrite Hfresh.
  set (a1 := with_published b t (with_bytes b a)).
  pose proof (report_spacing id l (update id a1 q) a1 t b t b (lookup_insert_eq _ _ _) eq_refl eq_refl
    ltac:(lia) ltac:(lia) Hf) as Hr.
  destruct (report id l (update id a1 q)) as [ps q'] eqn:Hrep.
  destruct (default (t, b) (last l)) as [t1 b1] eqn:Hd.
  destruct Hr as [Hw (a' & Ha' & Hto & Hdo)]. split; [done|]. split; [cbn [length]; lia|]. split.
  - rewrite Ha'. simpl. f_equal. destruct l; [|by apply Hdo].
    simpl in *. simplify_eq/=. rewrite lookup_insert_eq in Ha'. by simplify_eq/=.
  - intros now n Hn. unfold set_progress_section. rewrite Ha'. cbn [with_bytes t_progress_published_at
      t_progress_published_bytes t_bytes_total]. rewrite Hto. change (t_bytes_total a1) with (t_bytes_total a).
    assert (E : (0 <? t_bytes_total a) && (t_bytes_total a <=? n) = true).
    { apply andb_true_iff. split; [apply Z.ltb_lt; lia|apply Z.leb_le; lia]. }
    rewrite E. by destruct (t_progress_published_at a').
Qed.

End Throttle.

(** ** One dispatched task *)
Section Worker.
Import WorkerPool.
Context (execute : TaskSnapshot -> nat -> prog world (string + unit)).

(** What subscribers see of one task's states. *)
Definition state_trace (id : string) (b : EventBus) : list TaskState :=
  omap (fun e => match e with
                 | TransferTaskState i s => if decide (i = id) then Some s else None
                 | _ => None
                 end) (sent b).

Definition row_state (id : string) (w : world) : option TaskState :=
  t_state <$> by_id (transfers w) !! id.

(** An execution reports progress and does its I/O: between its start and its end
    anything may happen to the application, but nobody else moves this task's state,
    and the cells of tokens are not freed. *)
Definition executes (id : string) : Prop :=
  forall snap tok w, bus_wf (bus w) ->
    let '(r, w') := run (execute snap tok) w in
    row_state id w' = row_state id w /\ bus_wf (bus w') /\
    state_trace id (bus w') = state_trace id (bus w).

Lemma state_trace_publish id e b : bus_wf b ->
  state_trace id (EventBus.publish e b).2 =
  state_trace id b ++ match e with
                      | TransferTaskState i s => if decide (i = id) then [s] else []
                      | _ => []
                      end.
Proof.
  intros Hb. unfold state_trace. rewrite publish_sent, omap_app by done. f_equal.
  destruct e; try done. simpl. by case_decide.
Qed.

Lemma run_set_state id s w s0 :
  bus_wf (bus w) -> row_state id w = Some s0 ->
  let '(_, w') := run (Ops.set_state id s) w in
  row_state id w' = Some s /\ bus_wf (bus w') /\ cancel_tokens w' = cancel_tokens w /\
  flags w' = flags w /\
  state_trace id (bus w') = state_trace id (bus w) ++ (if decide (s0 = s) then [] else [s]).
Proof.
  unfold row_state. intros Hb Hs. apply fmap_Some in Hs as (a & Ha & ->).
  unfold Ops.set_state. rewrite run_bind, run_call. unfold on_queue, TransferQueue.set_state_section.
  rewrite Ha. case_decide as Hd; simpl.
  - rewrite Ha, app_nil_r. simpl. by rewrite Hd.
  - rewrite lookup_insert_eq. split; [done|]. split; [by apply bus_wf_publish|].
    split; [done|]. split; [done|]. rewrite state_trace_publish by done. by rewrite decide_True.
Qed.

Lemma run_cancel id w s0 :
  bus_wf (bus w) -> row_state id w = Some s0 -> is_terminal s0 = false ->
  let '(_, w') := run (Ops.cancel id) w in
  row_state id w' = Some Types.Cancelled /\ bus_wf (bus w') /\ cancel_tokens w' = cancel_tokens w /\
  state_trace id (bus w') = state_trace id (bus w) ++ [Types.Cancelled].
Proof.
  unfold row_state. intros Hb Hs Ht. apply fmap_Some in Hs as (a & Ha & ->).
  unfold Ops.cancel. rewrite run_bind, run_call. unfold on_queue, TransferQueue.cancel_section.
  rewrite Ha, Ht. simpl. rewrite lookup_insert_eq. split; [done|]. split; [by apply bus_wf_publish|].
  split; [done|]. rewrite state_trace_publish by done. by rewrite decide_True.
Qed.

Lemma run_fail id m w s0 :
  bus_wf (bus w) -> row_state id w = Some s0 ->
  let '(_, w') := run (Ops.fail id m) w in
  row_state id w' = Some Failed /\ bus_wf (bus w') /\ cancel_tokens w' = cancel_tokens w /\
  t_error <$> by_id (transfers w') !! id = Some (Some m) /\
  state_trace id (bus w') = state_trace id (bus w) ++ [Failed].
Proof.
  unfold row_state. intros Hb Hs. apply fmap_Some in Hs as (a & Ha & ->).
  unfold Ops.fail. rewrite run_bind, run_call. unfold on_queue, TransferQueue.fail_section.
  rewrite Ha. simpl. rewrite lookup_insert_eq. split; [done|].
  split; [by repeat apply bus_wf_publish|]. split; [done|]. split; [done|].
  rewrite !state_trace_publish by (by repeat apply bus_wf_publish). by rewrite decide_True, app_nil_r.
Qed.

(** The application as the execution leaves it. *)
Definition after_execute (id : string) (w : world) : (string + unit) * world :=
  match TransferQueue.snapshot id (transfers w) with
  | None => (inr tt, w)
  | Some snap =>
      let '(tok, w1) := CancellationToken.new w in
      let w2 := (with_tokens (insert id tok) w1).2 in
      run (execute snap tok) (run (Ops.set_state id Running) w2).2
  end.

(** a task a worker picks up ends in exactly one final state.  [run_one] marks the
    task running, runs the transfer, withdraws the task's token, and then the task is
    cancelled exactly when its token was flipped meanwhile, otherwise completed or
    failed as the transfer was (a failure recording its message); subscribers see
    [Running] (unless it already was) and then that one state, and a later cancel
    finds no token. *)
Theorem run_one_settles (id : string) (w : world) (s0 : TaskState)
    (Hb : bus_wf (bus w)) (Hs : row_state id w = Some s0) (Hx : executes id) :
  let '(r, we) := after_execute id w in
  let cancelled := CancellationToken.is_cancelled (length (flags w)) we in
  let final := if cancelled then Types.Cancelled else match r with inr _ => Completed | inl _ => Failed end in
  let '(_, w') := run (run_one execute id) w in
  row_state id w' = Some final /\
  state_trace id (bus w') =
    state_trace id (bus w) ++ (if decide (s0 = Running) then [] else [Running]) ++ [final] /\
  WorkerPool.cancel id w' = (false, w') /\
  (forall e, r = inl e -> cancelled = false ->
     t_error <$> by_id (transfers w') !! id = Some (Some e)).
Proof.
  assert (Hsn : exists snap, TransferQueue.snapshot id (transfers w) = Some snap).
  { unfold row_state in Hs. apply fmap_Some in Hs as (a & Ha & _).
    unfold TransferQueue.snapshot. rewrite Ha. simpl. eauto. }
  destruct Hsn as [snap Hsn]. unfold after_execute, run_one. rewrite Hsn.
  set (tok := length (flags w)). set (wn := (CancellationToken.new w).2).
  change (CancellationToken.new w) with (tok, wn). cbv beta iota.
  set (w2 := (with_tokens (insert id tok) wn).2).
  rewrite run_bind, run_call, Hsn. cbv beta iota. rewrite run_bind, run_call.
  change (CancellationToken.new w) with (tok, wn). cbv beta iota. rewrite run_bind, run_call.
  change (with_tokens (insert id tok) wn) with (tt, w2). cbv beta iota. rewrite run_bind.
  pose proof (run_set_state id Running w2 s0 Hb Hs) as Hr. cbn [snd].
  destruct (run (Ops.set_state id Running) w2) as [[] w3]. cbn [snd].
  destruct Hr as (R1 & R2 & R3 & R4 & R5). rewrite run_bind.
  pose proof (Hx snap tok w3 R2) as He. destruct (run (execute snap tok) w3) as [r we].
  destruct He as (E1 & E2 & E3). rewrite R1 in E1.
  rewrite run_bind, run_call. cbn [with_tokens]. set (w4 := mkWorld (transfers we) _ _ _ _).
  rewrite run_bind, run_call. change (CancellationToken.is_cancelled tok w4) with
    (CancellationToken.is_cancelled tok we).
  assert (Htok : forall w', cancel_tokens w' = cancel_tokens w4 -> WorkerPool.cancel id w' = (false, w')).
  { intros w' Hw'. unfold WorkerPool.cancel. rewrite Hw'. simpl. by rewrite lookup_delete_eq. }
  assert (Htr : state_trace id (bus w4) = state_trace id (bus w) ++ (if decide (s0 = Running) then [] else [Running]))
    by (simpl; by rewrite E3, R5).
  destruct (CancellationToken.is_cancelled tok we).
  - rewrite run_bind. pose proof (run_cancel id w4 Running E2 E1 eq_refl) as Hc.
    destruct (run (Ops.cancel id) w4) as [c w5]. destruct Hc as (C1 & C2 & C3 & C4). simpl.
    split; [done|]. split; [by rewrite C4, Htr, <-app_assoc|]. split; [by apply Htok|done].
  - destruct r as [e|[]].
    + pose proof (run_fail id e w4 Running E2 E1) as Hc.
      destruct (run (Ops.fail id e) w4) as [c w5]. destruct Hc as (C1 & C2 & C3 & C4 & C5).
      split; [done|]. split; [by rewrite C5, Htr, <-app_assoc|]. split; [by apply Htok|].
      by intros e' [= <-].
    + pose proof (run_set_state id Completed w4 Running E2 E1) as Hc.
      destruct (run (Ops.set_state id Completed) w4) as [c w5]. destruct Hc as (C1 & C2 & C3 & C4 & C5).
      split; [done|]. split; [|split; [by apply Htok|done]].
      rewrite C5, Htr, (decide_False (P := Running = Completed)) by done. by rewrite <-app_assoc.
Qed.

End Worker.

(** ** Concrete runs *)
Definition demo_request (id : string) : EnqueueRequest := mkRequest id Download "s" "/r" "/l" 10.

Definition demo_world : world :=
  (run (Ops.enqueue (demo_request "t")) (mkWorld TransferQueue.new EventBus.new ∅ [] [])).2.

(** An execution that streams two reports and ends well. *)
Definition demo_execute (snap : TaskSnapshot) (tok : nat) : prog world (string + unit) :=
  let! _ := Ops.set_progress 0 (s_id snap) 4 in
  let! _ := Ops.set_progress 1 (s_id snap) 10 in
  Ret (inr tt).

Lemma progress_is_throttled_witness :
  let '(ps, q') := report "t" [(0, 1); (5, 2); (200000000, 3)] (transfers demo_world) in
  head ps = Some (0, 1) /\ t_bytes_done <$> by_id q' !! "t" = Some 3.
Proof.
  assert (Ha : by_id (transfers demo_world) !! "t" =
    Some (mkTask "t" Download "s" "/r" "/l" Queued 0 10 None 0 None)) by (vm_compute; reflexivity).
  pose proof (progress_is_throttled "t" (transfers demo_world) _ 0 1 [(5, 2); (200000000, 3)] Ha eq_refl) as Hw.
  destruct (report "t" [(0, 1); (5, 2); (200000000, 3)] (transfers demo_world)) as [ps q'].
  destruct Hw as (H1 & _ & H2 & _).
  - simpl. repeat split; lia.
  - split; [exact H1|exact H2].
Defined.

Lemma run_set_progress now i n id w :
  bus_wf (bus w) ->
  let '(_, w') := run (Ops.set_progress now i n) w in
  row_state id w' = row_state id w /\ bus_wf (bus w') /\
  state_trace id (bus w') = state_trace id (bus w).
Proof.
  intros Hb. unfold Ops.set_progress, row_state. rewrite run_bind, run_call.
  unfold on_queue, TransferQueue.set_progress_section.
  destruct (by_id (transfers w) !! i) as [a|] eqn:Ha; [|done].
  assert (Hrow : forall a', t_state a' = t_state a ->
    t_state <$> <[i := a']> (by_id (transfers w)) !! id = t_state <$> by_id (transfers w) !! id).
  { intros a' Hs. rewrite lookup_insert. case_decide; [|done]. subst. rewrite Ha. simpl. by rewrite Hs. }
  destruct (match t_progress_published_at (with_bytes n a) with Some _ => _ | None => _ end);
    simpl; rewrite Hrow by done; (split; [done|]).
  - split; [by apply bus_wf_publish|]. rewrite state_trace_publish by done. by rewrite app_nil_r.
  - done.
Qed.

Lemma demo_executes : executes demo_execute "t".
Proof.
  intros snap tok w Hb. unfold demo_execute. rewrite run_bind.
  pose proof (run_set_progress 0 (s_id snap) 4 "t" w Hb) as H1.
  destruct (run (Ops.set_progress 0 (s_id snap) 4) w) as [u w1]. destruct H1 as (A1 & A2 & A3).
  rewrite run_bind. pose proof (run_set_progress 1 (s_id snap) 10 "t" w1 A2) as H2.
  destruct (run (Ops.set_progress 1 (s_id snap) 10) w1) as [u' w2]. destruct H2 as (B1 & B2 & B3).
  simpl. split; [congruence|]. split; [done|congruence].
Qed.

Lemma run_one_settles_witness :
  let '(_, w') := run (WorkerPool.run_one demo_execute "t") demo_world in
  row_state "t" w' = Some Completed /\ state_trace "t" (bus w') = [Running; Completed].
Proof.
  assert (Hb : bus_wf (bus demo_world)) by (apply bus_wf_publish, bus_wf_new).
  assert (Hs : row_state "t" demo_world = Some Queued) by (vm_compute; reflexivity).
  pose proof (run_one_settles demo_execute "t" demo_world Queued Hb Hs demo_executes) as Hw.
  assert (E : (after_execute demo_execute "t" demo_world).1 = inr tt /\
    CancellationToken.is_cancelled (length (flags demo_world))
      (after_execute demo_execute "t" demo_world).2 = false /\
    state_trace "t" (bus demo_world) = []) by (vm_compute; repeat split).
  destruct E as (E1 & E2 & E3).
  destruct (after_execute demo_execute "t" demo_world) as [r we]. cbn [fst snd] in E1, E2. subst r.
  rewrite E2 in Hw.
  destruct (run (WorkerPool.run_one demo_execute "t") demo_world) as [[] w'].
  destruct Hw as (H1 & H2 & _).
  split; [exact H1|rewrite H2, E3; reflexivity].
Defined.

(** A task that waits for a free worker has no token yet: the user's cancel finds
    nothing and answers [false], and the worker later runs the transfer to the end. *)
Example queued_task_cannot_be_cancelled :
  let w := WorkerPool.dispatch "t" demo_world in
  let '(c, w1) := WorkerPool.cancel "t" w in
  let '(id, w2) := WorkerPool.recv w1 in
  let w3 := (run (WorkerPool.run_one demo_execute "t") w2).2 in
  c = false /\ id = Some "t" /\ row_state "t" w3 = Some Completed.
Proof. vm_compute. repeat split. Qed.

(** [set_state] has no guard on finished tasks: a task the queue recorded as cancelled
    before a worker picked it up is revived. *)
Example cancelled_task_is_revived :
  let w1 := (run (Ops.cancel "t") demo_world).2 in
  let w2 := (run (WorkerPool.run_one demo_execute "t") w1).2 in
  row_state "t" w1 = Some Types.Cancelled /\ state_trace "t" (bus w2) = [Types.Cancelled; Running; Completed].
Proof. vm_compute. repeat split. Qed.
