(* ===== verification/Crypto.v ===== *)
(** * Cryptographic envelopes ([crypto.rs])

    The wrappers of [crypto.rs] around the RustCrypto primitives: their length checks,
    their framing and their errors.  The primitives are the class [Primitives]; its laws
    are what their documentation promises.  [gcm_auth] is authenticity for the ideal
    cipher: a sealed box opens only under its own key, nonce and associated data. *)
From Stdlib Require Import ZArith Lia.
From stdpp Require Import prelude gmap strings list countable.
From S2P Require Import Prelude Text.

Open Scope Z_scope.

Notation bytes := (list Z).

Class Primitives := {
  hkdf_expand : bytes -> bytes -> bytes -> nat -> bytes;
  sha256 : bytes -> bytes;
  gcm_encrypt : bytes -> bytes -> bytes -> bytes -> option bytes;
  gcm_decrypt : bytes -> bytes -> bytes -> bytes -> option bytes;
  ed25519_parse_and_verify : bytes -> bytes -> bytes -> bool;
  argon2id : bytes -> bytes -> Z -> Z -> Z -> nat -> option bytes;
  hkdf_length : forall ikm slt info n, length (hkdf_expand ikm slt info n) = n;
  gcm_total : forall k n m a, length k = 32%nat -> length n = 12%nat ->
    Z.of_nat (length m) <= 2 ^ 36 - 32 -> is_Some (gcm_encrypt k n m a);
  gcm_length : forall k n m a c, gcm_encrypt k n m a = Some c -> length c = (length m + 16)%nat;
  gcm_open : forall k n m a c, gcm_encrypt k n m a = Some c -> gcm_decrypt k n c a = Some m;
  gcm_auth : forall k n m a c k' n' a' m', gcm_encrypt k n m a = Some c ->
    gcm_decrypt k' n' c a' = Some m' -> k' = k /\ n' = n /\ a' = a
}.

Inductive CryptoError :=
| HkdfLength (n : nat)
| NonceLength (n : nat)
| CiphertextTooShort (n : nat)
| InputTooShort (n : nat)
| KeyLength (n : nat)
| CipherFailed
| Argon2Length (n : nat)
| Argon2Failed.

Definition AES_GCM_IV_LEN : nat := 12.
Definition AES_GCM_KEY_LEN : nat := 32.
Definition AES_GCM_TAG_LEN : nat := 16.

Section Wrappers.
Context `{Primitives}.

Definition hkdf_sha256 (ikm slt info : bytes) (n : nat) : CryptoError + bytes :=
  if (n =? 0)%nat || (255 * 32 <? n)%nat then inl (HkdfLength n)
  else inr (hkdf_expand ikm slt info n).

Definition hex_digit (n : Z) : Z := if n <? 10 then 48 + n else 87 + n.
Definition sha256_hex (b : bytes) : list Z :=
  sha256 b ≫= (fun d => [hex_digit (d / 16); hex_digit (d mod 16)]).

Definition constant_time_eq (a b : bytes) : bool :=
  if (length a =? length b)%nat then bool_decide (a = b) else false.

Definition ed25519_verify (public_key message signature : bytes) : bool :=
  if negb (length public_key =? 32)%nat || negb (length signature =? 64)%nat then false
  else ed25519_parse_and_verify public_key message signature.

(** The cipher is its key once the length is right. *)
Definition build_cipher (key : bytes) : CryptoError + bytes :=
  if (length key =? AES_GCM_KEY_LEN)%nat then inr key else inl (KeyLength (length key)).

(** [nonce] is the fresh random one. *)
Definition aes_gcm_encrypt (nonce key plaintext : bytes) : CryptoError + bytes :=
  match build_cipher key with
  | inl e => inl e
  | inr cipher =>
      match gcm_encrypt cipher nonce plaintext [] with
      | None => inl CipherFailed
      | Some ct => inr (nonce ++ ct)
      end
  end.

Definition aes_gcm_decrypt (key data : bytes) : CryptoError + bytes :=
  if (length data <? AES_GCM_IV_LEN + AES_GCM_TAG_LEN)%nat then inl (InputTooShort (length data))
  else
    match build_cipher key with
    | inl e => inl e
    | inr cipher =>
        match gcm_decrypt cipher (take AES_GCM_IV_LEN data) (drop AES_GCM_IV_LEN data) [] with
        | None => inl CipherFailed
        | Some pt => inr pt
        end
    end.

Definition aes_gcm_encrypt_raw (key nonce plaintext aad : bytes) : CryptoError + bytes :=
  if negb (length nonce =? AES_GCM_IV_LEN)%nat then inl (NonceLength (length nonce))
  else
    match build_cipher key with
    | inl e => inl e
    | inr cipher =>
        match gcm_encrypt cipher nonce plaintext aad with
        | None => inl CipherFailed
        | Some ct => inr ct
        end
    end.

Definition aes_gcm_decrypt_raw (key nonce ciphertext aad : bytes) : CryptoError + bytes :=
  if negb (length nonce =? AES_GCM_IV_LEN)%nat then inl (NonceLength (length nonce))
  else if (length ciphertext <? AES_GCM_TAG_LEN)%nat then inl (CiphertextTooShort (length ciphertext))
  else
    match build_cipher key with
    | inl e => inl e
    | inr cipher =>
        match gcm_decrypt cipher nonce ciphertext aad with
        | None => inl CipherFailed
        | Some pt => inr pt
        end
    end.

Definition argon2id_derive (password slt : bytes) (memory_kib iterations parallelism : Z) (n : nat) :
    CryptoError + bytes :=
  if (n =? 0)%nat || (64 * 1024 * 1024 <? Z.of_nat n) then inl (Argon2Length n)
  else match argon2id password slt memory_kib iterations parallelism n with
       | None => inl Argon2Failed
       | Some k => inr k
       end.

(** ** What the callers use *)

Lemma encrypt_raw_total k n m a :
  length k = 32%nat -> length n = 12%nat -> Z.of_nat (length m) <= 2 ^ 36 - 32 ->
  exists c, aes_gcm_encrypt_raw k n m a = inr c /\ length c = (length m + 16)%nat.
Proof.
  intros Hk Hn Hm. unfold aes_gcm_encrypt_raw, build_cipher. rewrite Hk, Hn. simpl.
  destruct (gcm_total k n m a Hk Hn Hm) as [c Hc]. rewrite Hc. eauto using gcm_length.
Qed.

Lemma encrypt_raw_inv k n m a c :
  aes_gcm_encrypt_raw k n m a = inr c ->
  length k = 32%nat /\ length n = 12%nat /\ gcm_encrypt k n m a = Some c.
Proof.
  unfold aes_gcm_encrypt_raw, build_cipher. intros Hc.
  destruct (length n =? AES_GCM_IV_LEN)%nat eqn:En; [|done]. simpl in Hc.
  destruct (length k =? AES_GCM_KEY_LEN)%nat eqn:Ek; [|done].
  apply Nat.eqb_eq in En, Ek. destruct (gcm_encrypt k n m a) eqn:Hg; by simplify_eq.
Qed.

Lemma encrypt_raw_length k n m a c :
  aes_gcm_encrypt_raw k n m a = inr c -> length c = (length m + 16)%nat.
Proof. intros (_ & _ & Hg)%encrypt_raw_inv. by eapply gcm_length. Qed.

Lemma decrypt_encrypt_raw k n m a c :
  aes_gcm_encrypt_raw k n m a = inr c -> aes_gcm_decrypt_raw k n c a = inr m.
Proof.
  intros Hc. pose proof (encrypt_raw_length _ _ _ _ _ Hc) as Hl.
  destruct (encrypt_raw_inv _ _ _ _ _ Hc) as (Hk & Hn & Hg).
  unfold aes_gcm_decrypt_raw, build_cipher. rewrite Hk, Hn.
  rewrite (proj2 (Nat.ltb_ge _ _)) by (unfold AES_GCM_TAG_LEN; lia). simpl.
  by rewrite (gcm_open _ _ _ _ _ Hg).
Qed.

(** A box opened with anything but its own parameters is refused. *)
Lemma decrypt_raw_foreign k n m a c k' n' a' :
  aes_gcm_encrypt_raw k n m a = inr c -> length k' = 32%nat -> length n' = 12%nat ->
  (k', n', a') <> (k, n, a) -> aes_gcm_decrypt_raw k' n' c a' = inl CipherFailed.
Proof.
  intros Hc Hk Hn Hne. pose proof (encrypt_raw_length _ _ _ _ _ Hc) as Hl.
  destruct (encrypt_raw_inv _ _ _ _ _ Hc) as (_ & _ & Hg).
  unfold aes_gcm_decrypt_raw, build_cipher. rewrite Hk, Hn.
  rewrite (proj2 (Nat.ltb_ge _ _)) by (unfold AES_GCM_TAG_LEN; lia). simpl.
  destruct (gcm_decrypt k' n' c a') as [m'|] eqn:Ho; [|done].
  destruct (gcm_auth _ _ _ _ _ _ _ _ _ Hg Ho) as (-> & -> & ->). done.
Qed.

(** What opens a box is what sealed it. *)
Lemma decrypt_raw_opens k n m a c k' n' a' m' :
  aes_gcm_encrypt_raw k n m a = inr c -> aes_gcm_decrypt_raw k' n' c a' = inr m' ->
  k' = k /\ n' = n /\ a' = a /\ m' = m.
Proof.
  intros Hc Ho. pose proof (decrypt_encrypt_raw _ _ _ _ _ Hc) as Hd.
  destruct (encrypt_raw_inv _ _ _ _ _ Hc) as (_ & _ & Hg).
  assert (Ha : gcm_decrypt k' n' c a' = Some m').
  { unfold aes_gcm_decrypt_raw, build_cipher in Ho. destruct (negb _); [done|]. destruct (_ <? _)%nat; [done|].
    destruct (_ =? _)%nat; [|done]. destruct (gcm_decrypt k' n' c a'); congruence. }
  destruct (gcm_auth _ _ _ _ _ _ _ _ _ Hg Ha) as (-> & -> & ->). split_and!; congruence.
Qed.

End Wrappers.

(** ** A concrete instance

    The laws have a model: the tag is an injective code of key, nonce and associated
    data followed by padding, and the hashes are padded copies of their input. *)
Definition toy_tag (k n a : bytes) : bytes :=
  Z.pos (encode (k, n, a)) :: replicate 15 0.

Definition toy_encrypt (k n m a : bytes) : option bytes := Some (m ++ toy_tag k n a).

Definition toy_decrypt (k n c a : bytes) : option bytes :=
  let len := (length c - 16)%nat in
  if bool_decide (drop len c = toy_tag k n a) then Some (take len c) else None.

Definition pad (n : nat) (b : bytes) : bytes := take n (b ++ replicate n 0).

Lemma pad_length n b : length (pad n b) = n.
Proof. unfold pad. rewrite length_take, length_app, length_replicate. lia. Qed.

Lemma toy_split k n m a :
  let c := m ++ toy_tag k n a in
  drop (length c - 16) c = toy_tag k n a /\ take (length c - 16) c = m.
Proof.
  cbv zeta. replace (length (m ++ toy_tag k n a) - 16)%nat with (length m)
    by (rewrite length_app; simpl; lia).
  by rewrite drop_app_length, take_app_length.
Qed.

#[export, program] Instance toy_primitives : Primitives := {|
  hkdf_expand ikm slt info n := pad n ikm;
  sha256 b := pad 32 b;
  gcm_encrypt := toy_encrypt;
  gcm_decrypt := toy_decrypt;
  ed25519_parse_and_verify pk m s := bool_decide (s = pad 64 (pk ++ m));
  argon2id pw slt m t p n := Some (pad n (pw ++ slt ++ [m; t; p]))
|}.
Next Obligation. intros. apply pad_length. Qed.
Next Obligation. intros. unfold toy_encrypt. eauto. Qed.
Next Obligation.
  unfold toy_encrypt. intros. simplify_eq. rewrite length_app. done.
Qed.
Next Obligation.
  unfold toy_encrypt, toy_decrypt. intros k n m a c Hc. injection Hc as <-.
  destruct (toy_split k n m a) as [-> ->]. by rewrite bool_decide_eq_true_2.
Qed.
Next Obligation.
  unfold toy_encrypt, toy_decrypt. intros k n m a c k' n' a' m' Hc Ho. injection Hc as <-.
  destruct (toy_split k n m a) as [Hd _]. rewrite Hd in Ho. case_bool_decide as He; [|done].
  unfold toy_tag in He. injection He as He. apply encode_inj in He. naive_solver.
Qed.
