(* ===== verification/Envelope.v ===== *)
(** * The encrypted archive container ([archive/envelope.rs])

    The LFSE envelope: magic, version, the Argon2id parameters, salt, nonce and the AES-256-GCM
    box of the zip.  Version 3 binds everything before the nonce as associated data; version 2
    archives, with none, are still read.  Salt and nonce, which the source draws, are arguments;
    [mobile] is the target the binary was built for. *)
From Stdlib Require Import ZArith Lia.
From stdpp Require Import prelude strings list.
From S2P Require Import Prelude Text Crypto.

Open Scope Z_scope.

Definition ENC_HEADER_MAGIC : bytes := [0x4C; 0x46; 0x53; 0x45].
Definition ENC_VERSION_ARGON2ID_AAD : Z := 0x03.
Definition ENC_VERSION_ARGON2ID_LEGACY : Z := 0x02.
Definition KDF_ALGO_ARGON2ID : Z := 0x01.
Definition SALT_LEN : nat := 32.
Definition IV_LEN : nat := 12.
Definition AES_KEY_LEN : nat := 32.
Definition PRE_IV_HEADER_LEN : nat := 4 + 1 + 1 + 4 + 4 + 1 + SALT_LEN.

Definition MAX_IMPORT_MEMORY_KIB (mobile : bool) : Z := if mobile then 512 * 1024 else 1024 * 1024.
Definition MAX_IMPORT_ITERATIONS : Z := 20.
Definition MAX_IMPORT_PARALLELISM : Z := 4.

(** [LFSE_ENVELOPE_OVERHEAD] of [archive/compose/mod.rs]. *)
Definition LFSE_ENVELOPE_OVERHEAD : nat := 4 + 1 + 10 + 32 + 12 + 16.

(** The texts of [Error::Crypto], as the values they report. *)
Inductive EnvelopeError :=
| ParamsExceedCaps (m t p : Z)
| EnvelopeTooShort
| NotLfse
| UnsupportedEnvelope (version : Z)
| UnsupportedKdf (algorithm : Z)
| Cipher (e : CryptoError).

Section Envelope.
Context `{Primitives}.
Variable mobile : bool.

Definition exceeds_caps (memory_kib iterations parallelism : Z) : bool :=
  (MAX_IMPORT_MEMORY_KIB mobile <? memory_kib) || (MAX_IMPORT_ITERATIONS <? iterations)
  || (MAX_IMPORT_PARALLELISM <? parallelism).

Definition header (memory_kib iterations parallelism : Z) (slt : bytes) : bytes :=
  ENC_HEADER_MAGIC ++ [ENC_VERSION_ARGON2ID_AAD; KDF_ALGO_ARGON2ID] ++ to_be32 memory_kib ++ to_be32 iterations
  ++ [Z.min parallelism 255] ++ slt.

Definition encrypt_with_password (slt iv zip_bytes : bytes) (password : string) (memory_kib iterations parallelism : Z) :
    EnvelopeError + bytes :=
  if exceeds_caps memory_kib iterations parallelism then inl (ParamsExceedCaps memory_kib iterations parallelism)
  else
    match argon2id_derive (lit password) slt memory_kib iterations parallelism AES_KEY_LEN with
    | inl e => inl (Cipher e)
    | inr derived =>
        let h := header memory_kib iterations parallelism slt in
        match aes_gcm_encrypt_raw derived iv zip_bytes h with
        | inl e => inl (Cipher e)
        | inr ct => inr (h ++ iv ++ ct)
        end
    end.

(** [envelope[i]] and [envelope[i .. i + n]], where the length check above them allows it. *)
Definition byte_at (b : bytes) (i : nat) : Z := nth i b 0.
Definition slice (b : bytes) (i n : nat) : bytes := take n (drop i b).
Definition be32_at (b : bytes) (i : nat) : Z :=
  from_be32 (byte_at b i) (byte_at b (i + 1)) (byte_at b (i + 2)) (byte_at b (i + 3)).

Definition decrypt_archive_with_password (envelope : bytes) (password : string) : EnvelopeError + bytes :=
  if (length envelope <? 4 + 1 + 10 + SALT_LEN + IV_LEN)%nat then inl EnvelopeTooShort
  else if negb (bool_decide (take 4 envelope = ENC_HEADER_MAGIC)) then inl NotLfse
  else
    let version := byte_at envelope 4 in
    if negb (version =? ENC_VERSION_ARGON2ID_AAD) && negb (version =? ENC_VERSION_ARGON2ID_LEGACY) then
      inl (UnsupportedEnvelope version)
    else if negb (byte_at envelope 5 =? KDF_ALGO_ARGON2ID) then inl (UnsupportedKdf (byte_at envelope 5))
    else
      let memory_kib := be32_at envelope 6 in
      let iterations := be32_at envelope 10 in
      let parallelism := byte_at envelope 14 in
      if exceeds_caps memory_kib iterations parallelism then inl (ParamsExceedCaps memory_kib iterations parallelism)
      else
        let slt := slice envelope 15 SALT_LEN in
        let pre_iv_header := take PRE_IV_HEADER_LEN envelope in
        let iv := slice envelope PRE_IV_HEADER_LEN IV_LEN in
        let ct := drop (PRE_IV_HEADER_LEN + IV_LEN) envelope in
        match argon2id_derive (lit password) slt memory_kib iterations parallelism AES_KEY_LEN with
        | inl e => inl (Cipher e)
        | inr derived =>
            let aad := if version =? ENC_VERSION_ARGON2ID_AAD then pre_iv_header else [] in
            match aes_gcm_decrypt_raw derived iv ct aad with
            | inl e => inl (Cipher e)
            | inr zip_bytes => inr zip_bytes
            end
        end.

(** ** Lemmas *)

Lemma envelope_header_length m t p slt : length slt = SALT_LEN -> length (header m t p slt) = PRE_IV_HEADER_LEN.
Proof. intros Hs. unfold header. rewrite !length_app, Hs. reflexivity. Qed.

(** A successful encryption, taken apart. *)
Lemma encrypt_inv slt iv zip pw m t p b :
  encrypt_with_password slt iv zip pw m t p = inr b ->
  exceeds_caps m t p = false /\ exists k ct, argon2id_derive (lit pw) slt m t p AES_KEY_LEN = inr k /\
    aes_gcm_encrypt_raw k iv zip (header m t p slt) = inr ct /\ b = header m t p slt ++ iv ++ ct.
Proof.
  unfold encrypt_with_password. intros He. destruct (exceeds_caps m t p); [done|]. split; [done|].
  destruct (argon2id_derive _ _ _ _ _ _) as [e|k] eqn:Hk; [done|]. exists k.
  destruct (aes_gcm_encrypt_raw _ _ _ _) as [e|ct] eqn:Hc; [done|]. exists ct. by injection He as <-.
Qed.

Section Parts.
Variables (m t p : Z) (slt iv ct : bytes).
Hypothesis salt_length : length slt = SALT_LEN.
Hypothesis iv_length : length iv = IV_LEN.
Let envelope := header m t p slt ++ iv ++ ct.

Lemma parts_header : take PRE_IV_HEADER_LEN envelope = header m t p slt.
Proof. unfold envelope. rewrite take_app_le by (by rewrite envelope_header_length). apply take_ge. by rewrite envelope_header_length. Qed.

Lemma parts_iv : slice envelope PRE_IV_HEADER_LEN IV_LEN = iv.
Proof.
  unfold slice, envelope. rewrite drop_app_length' by (by rewrite envelope_header_length). by rewrite take_app_length'.
Qed.

Lemma parts_ct : drop (PRE_IV_HEADER_LEN + IV_LEN) envelope = ct.
Proof.
  unfold envelope. rewrite <- drop_drop. rewrite drop_app_length' by (by rewrite envelope_header_length).
  by rewrite drop_app_length'.
Qed.

Lemma parts_salt : slice envelope 15 SALT_LEN = slt.
Proof. transitivity (take SALT_LEN (slt ++ iv ++ ct)); [reflexivity|]. by rewrite take_app_length'. Qed.

Lemma parts_length : length envelope = (PRE_IV_HEADER_LEN + IV_LEN + length ct)%nat.
Proof. unfold envelope. rewrite !length_app, envelope_header_length, iv_length by done. lia. Qed.

Lemma parts_params :
  0 <= m < 2 ^ 32 -> 0 <= t < 2 ^ 32 -> 0 <= p <= 255 ->
  be32_at envelope 6 = m /\ be32_at envelope 10 = t /\ byte_at envelope 14 = p.
Proof.
  intros Hm Ht Hp. pose proof (be32_roundtrip m Hm) as Em. pose proof (be32_roundtrip t Ht) as Et.
  unfold be32_at, byte_at, envelope, header. cbn -[from_be32 Z.shiftr Z.modulo] in *.
  split_and!; [done..|lia].
Qed.

End Parts.

(** What a successful decryption says about the bytes. *)
Lemma decrypt_inv b pw z :
  decrypt_archive_with_password b pw = inr z ->
  (PRE_IV_HEADER_LEN + IV_LEN <= length b)%nat /\ exists k,
    argon2id_derive (lit pw) (slice b 15 SALT_LEN) (be32_at b 6) (be32_at b 10) (byte_at b 14) AES_KEY_LEN = inr k /\
    exceeds_caps (be32_at b 6) (be32_at b 10) (byte_at b 14) = false /\
    exists aad, aes_gcm_decrypt_raw k (slice b PRE_IV_HEADER_LEN IV_LEN) (drop (PRE_IV_HEADER_LEN + IV_LEN) b) aad = inr z /\
      (aad = take PRE_IV_HEADER_LEN b \/ aad = []).
Proof.
  unfold decrypt_archive_with_password. destruct (Nat.ltb_spec (length b) (4 + 1 + 10 + SALT_LEN + IV_LEN)) as [|Hl]; [done|].
  destruct (negb (bool_decide _)); [done|]. destruct (negb _ && _); [done|]. destruct (negb _); [done|].
  destruct (exceeds_caps _ _ _) eqn:Hc; [done|]. intros Hd. split; [exact Hl|].
  destruct (argon2id_derive _ _ _ _ _ _) as [e|k]; [done|]. exists k. split_and!; [done..|].
  eexists. destruct (aes_gcm_decrypt_raw _ _ _ _) as [e|z'] eqn:Ho; [done|]. injection Hd as <-.
  split; [exact Ho|]. destruct (_ =? _); [by left|by right].
Qed.

(** An export opens with its password: every check of the reader passes on what the writer
    wrote. *)
Lemma params_in_range m t p : exceeds_caps m t p = false -> m <= 1024 * 1024 /\ t <= 20 /\ p <= 4.
Proof.
  unfold exceeds_caps, MAX_IMPORT_MEMORY_KIB, MAX_IMPORT_ITERATIONS, MAX_IMPORT_PARALLELISM.
  intros [[H1 H2]%orb_false_iff H3]%orb_false_iff. destruct mobile; lia.
Qed.

Lemma open_sealed slt iv zip_bytes pw m t p b :
  length slt = SALT_LEN -> length iv = IV_LEN -> 0 <= m -> 0 <= t -> 0 <= p ->
  encrypt_with_password slt iv zip_bytes pw m t p = inr b ->
  decrypt_archive_with_password b pw = inr zip_bytes /\ take 4 b = ENC_HEADER_MAGIC.
Proof.
  intros Hs Hi Hm Ht Hp (Hcaps & k & ct & Hk & Hct & ->)%encrypt_inv.
  destruct (params_in_range m t p Hcaps) as (? & ? & ?).
  destruct (parts_params m t p slt iv ct) as (Em & Et & Ep); [lia..|]. split; [|done].
  unfold decrypt_archive_with_password. rewrite (parts_length m t p slt iv ct) by done.
  rewrite (proj2 (Nat.ltb_ge _ _)) by (unfold PRE_IV_HEADER_LEN; lia).
  change (take 4 (header m t p slt ++ iv ++ ct)) with ENC_HEADER_MAGIC. rewrite bool_decide_eq_true_2 by done.
  change (byte_at (header m t p slt ++ iv ++ ct) 4) with ENC_VERSION_ARGON2ID_AAD.
  change (byte_at (header m t p slt ++ iv ++ ct) 5) with KDF_ALGO_ARGON2ID.
  cbn [negb andb Z.eqb Pos.eqb ENC_VERSION_ARGON2ID_AAD ENC_VERSION_ARGON2ID_LEGACY KDF_ALGO_ARGON2ID].
  rewrite Em, Et, Ep, Hcaps, parts_header, parts_iv, parts_ct, parts_salt, Hk by done.
  by rewrite (decrypt_encrypt_raw _ _ _ _ _ Hct).
Qed.

(** ** The envelope *)

(** C26. An export opens with its password and gives back the zip, 75 bytes shorter, so what this
    binary writes it can import.  And the box opens as nothing else: bytes that carry it behind
    any other header (other costs, another salt or nonce, the version without associated data)
    are refused under every password, and the same bytes under any password that does not
    derive the same key. *)
Theorem sealed_archive_opens_only_as_sealed slt iv zip_bytes pw m t p b :
  length slt = SALT_LEN -> length iv = IV_LEN -> 0 <= m -> 0 <= t -> 0 <= p ->
  encrypt_with_password slt iv zip_bytes pw m t p = inr b ->
  decrypt_archive_with_password b pw = inr zip_bytes /\
  length b = (length zip_bytes + LFSE_ENVELOPE_OVERHEAD)%nat /\
  (forall b' pw' z, drop (PRE_IV_HEADER_LEN + IV_LEN) b' = drop (PRE_IV_HEADER_LEN + IV_LEN) b ->
     decrypt_archive_with_password b' pw' = inr z ->
     b' = b /\ z = zip_bytes /\
     argon2id_derive (lit pw') slt m t p AES_KEY_LEN = argon2id_derive (lit pw) slt m t p AES_KEY_LEN).
Proof.
  intros Hs Hi Hm Ht Hp He. destruct (open_sealed _ _ _ _ _ _ _ _ Hs Hi Hm Ht Hp He) as [Hd _]. split; [exact Hd|].
  apply encrypt_inv in He as (Hcaps & k & ct & Hk & Hct & ->). destruct (params_in_range m t p Hcaps) as (? & ? & ?).
  destruct (parts_params m t p slt iv ct) as (Em & Et & Ep); [lia..|]. split.
  { rewrite (parts_length m t p slt iv ct) by done. rewrite (encrypt_raw_length _ _ _ _ _ Hct).
    unfold LFSE_ENVELOPE_OVERHEAD, PRE_IV_HEADER_LEN, SALT_LEN, IV_LEN. lia. }
  intros b' pw' z Hdrop (Hl' & k' & Hk' & _ & aad & Ho & Haad)%decrypt_inv.
  rewrite Hdrop, parts_ct in Ho by done. destruct (encrypt_raw_inv _ _ _ _ _ Hct) as (_ & _ & Hg).
  destruct (decrypt_raw_opens _ _ _ _ _ _ _ _ _ Hct Ho) as (-> & Hiv & Ha & ->).
  assert (Hh : take PRE_IV_HEADER_LEN b' = header m t p slt).
  { destruct Haad as [->| ->]; [done|]. by apply (f_equal length) in Ha. }
  assert (Hb' : b' = header m t p slt ++ iv ++ ct).
  { rewrite <- (take_drop PRE_IV_HEADER_LEN b'), Hh. f_equal.
    rewrite <- (take_drop IV_LEN (drop PRE_IV_HEADER_LEN b')). f_equal; [exact Hiv|].
    by rewrite drop_drop, Hdrop, parts_ct. }
  subst b'. split_and!; [done..|]. by rewrite Hk, <- Hk', Em, Et, Ep, parts_salt.
Qed.

End Envelope.

(** What opens, on a device of any kind and with any password, is what was sealed. *)
Lemma opened_is_sealed `{Primitives} mobile mobile' slt iv zip_bytes pw m t p b pw' z :
  length slt = SALT_LEN -> length iv = IV_LEN ->
  encrypt_with_password mobile slt iv zip_bytes pw m t p = inr b ->
  decrypt_archive_with_password mobile' b pw' = inr z -> z = zip_bytes /\ take 4 b = ENC_HEADER_MAGIC.
Proof.
  intros Hs Hi (_ & k & ct & _ & Hct & ->)%encrypt_inv (_ & k' & _ & _ & aad & Ho & _)%decrypt_inv.
  rewrite parts_ct in Ho by done. by destruct (decrypt_raw_opens _ _ _ _ _ _ _ _ _ Hct Ho) as (_ & _ & _ & ->).
Qed.

(** ** A concrete archive *)
Section Demo.
Definition demo_salt : bytes := repeat 7 32.
Definition demo_iv : bytes := repeat 9 12.
Definition demo_zip : bytes := [0x50; 0x4B; 3; 4].
Definition demo_sealed : bytes :=
  match encrypt_with_password false demo_salt demo_iv demo_zip "pw" 8 1 1 with inr b => b | inl _ => [] end.

Definition demo_downgraded : bytes := <[4%nat := ENC_VERSION_ARGON2ID_LEGACY]> demo_sealed.

Lemma sealed_archive_opens_only_as_sealed_witness :
  decrypt_archive_with_password false demo_sealed "pw" = inr demo_zip /\
  forall z, decrypt_archive_with_password false demo_downgraded "pw" <> inr z.
Proof.
  assert (He : encrypt_with_password false demo_salt demo_iv demo_zip "pw" 8 1 1 = inr demo_sealed) by reflexivity.
  destruct (sealed_archive_opens_only_as_sealed false demo_salt demo_iv demo_zip "pw" 8 1 1 demo_sealed
    eq_refl eq_refl ltac:(lia) ltac:(lia) ltac:(lia) He) as (Ho & _ & Honly).
  split; [exact Ho|]. intros z Hz.
  destruct (Honly demo_downgraded "pw"%string z ltac:(vm_compute; reflexivity) Hz) as [Hb _]. apply (f_equal (fun b => byte_at b 4)) in Hb. vm_compute in Hb. discriminate.
Defined.

(** A desktop export above the mobile cap is refused by the phone it is meant for. *)
Example desktop_export_refused_on_mobile :
  exists b, encrypt_with_password false demo_salt demo_iv demo_zip "pw" (1024 * 1024) 1 1 = inr b /\
    decrypt_archive_with_password true b "pw" = inl (ParamsExceedCaps (1024 * 1024) 1 1).
Proof. eexists. split; reflexivity. Qed.
End Demo.
