(* ===== verification/RecFormat.v ===== *)
(** * The recording file format ([recorder/mod.rs], [recorder/reader.rs])

    [Lfr] writes the encrypted container: the header that wraps the per-file key under
    the database key, and one frame per record, sealed at its position in the file.
    [Reader] is the playback side: the iterator over an encrypted file, the iterator
    over a plaintext one, and the choice between them.  A file is its bytes; the random
    bytes of an operation are arguments. *)
From Stdlib Require Import ZArith Lia.
From stdpp Require Import prelude gmap strings list.
From S2P Require Import Prelude Text Crypto.

Open Scope Z_scope.

Module Lfr.

Definition LFR_MAGIC : bytes := [76; 70; 82; 49].
Definition LFR_VERSION : Z := 1.
Definition NONCE_LEN : nat := 12.
Definition LFR_HEADER_LEN : nat := 4 + 1 + NONCE_LEN + 32 + 16.
Definition KEYWRAP_AAD : bytes := lit "letsflutssh-recording-keywrap-v1".
Definition MAX_FRAME_PLAINTEXT_BYTES : Z := 16 * 1024 * 1024.
Definition MAX_FILE_BYTES : Z := 100 * 1024 * 1024.

Inductive Error :=
| CryptoFailed (e : CryptoError)
| HeaderTruncated (n : nat)
| HeaderBadMagic
| HeaderVersion (v : Z)
| WrappedKeyLength (n : nat)
| FrameTooLong.

Section Format.
Context `{Primitives}.

Definition build_lfsr_header (wrap_nonce db_key recording_key : bytes) : Error + bytes :=
  match aes_gcm_encrypt_raw db_key wrap_nonce recording_key KEYWRAP_AAD with
  | inl e => inl (CryptoFailed e)
  | inr wrapped => inr (LFR_MAGIC ++ [LFR_VERSION] ++ wrap_nonce ++ wrapped)
  end.

Definition unwrap_lfsr_header (header_bytes db_key : bytes) : Error + bytes :=
  if (length header_bytes <? LFR_HEADER_LEN)%nat then inl (HeaderTruncated (length header_bytes))
  else if negb (bool_decide (take 4 header_bytes = LFR_MAGIC)) then inl HeaderBadMagic
  else
    let version := nth 4 header_bytes 0 in
    if negb (version =? LFR_VERSION) then inl (HeaderVersion version)
    else
      let wrap_nonce := take NONCE_LEN (drop 5 header_bytes) in
      let wrapped := take 48 (drop (5 + NONCE_LEN) header_bytes) in
      match aes_gcm_decrypt_raw db_key wrap_nonce wrapped KEYWRAP_AAD with
      | inl e => inl (CryptoFailed e)
      | inr plain =>
          if negb (length plain =? 32)%nat then inl (WrappedKeyLength (length plain)) else inr plain
      end.

Definition build_frame (nonce plaintext : bytes) (key : option bytes) (frame_index : Z) :
    Error + bytes :=
  match key with
  | None => inr plaintext
  | Some key =>
      match aes_gcm_encrypt_raw key nonce plaintext (le_bytes 8 frame_index) with
      | inl e => inl (CryptoFailed e)
      | inr ct =>
          if 2 ^ 32 <=? Z.of_nat (length plaintext) then inl FrameTooLong
          else inr (le_bytes 4 (Z.of_nat (length plaintext)) ++ nonce ++ ct)
      end
  end.

End Format.
End Lfr.

Module Reader.
Import Lfr.

Inductive ReaderError :=
| Io
| BadMagic
| UnsupportedVersion (v : Z)
| TruncatedHeader
| TruncatedFrame
| FrameTooLarge (n : Z)
| Crypto (e : Lfr.Error)
| NonUtf8Frame.

(** [Read::read_exact]: the bytes asked for, or nothing usable. *)
Definition read_exact (n : nat) (r : bytes) : option (bytes * bytes) :=
  if (length r <? n)%nat then None else Some (take n r, drop n r).

Record LfsrFrameIter := mkIter {
  rest : bytes;
  key : bytes;
  frame_index : Z;
  finished : bool
}.

Definition newline : Z := 10.
Definition trim_newlines (s : list Z) : list Z := trim_end_by (fun c => c =? newline) s.

(** A file that is not there is [None]; [start] is a byte offset and its frame index. *)
Section Lfsr.
Context `{Primitives}.

Definition open_lfsr_iter_at (file : option bytes) (db_key : bytes) (start : option (Z * Z)) :
    ReaderError + LfsrFrameIter :=
  match file with
  | None => inl Io
  | Some b =>
      match read_exact LFR_HEADER_LEN b with
      | None => inl TruncatedHeader
      | Some (header, body) =>
          if negb (bool_decide (take 4 header = LFR_MAGIC)) then inl BadMagic
          else
            let version := nth 4 header 0 in
            if negb (version =? LFR_VERSION) then inl (UnsupportedVersion version)
            else
              match unwrap_lfsr_header header db_key with
              | inl e => inl (Crypto e)
              | inr recording_key =>
                  match start with
                  | Some (offset, fi) => inr (mkIter (drop (Z.to_nat offset) b) recording_key fi false)
                  | None => inr (mkIter body recording_key 0 false)
                  end
              end
      end
  end.

Definition stop (it : LfsrFrameIter) : LfsrFrameIter := mkIter [] (key it) (frame_index it) true.

(** [Iterator::next]. *)
Definition next (it : LfsrFrameIter) : option (ReaderError + list Z) * LfsrFrameIter :=
  if finished it then (None, it)
  else
    match read_exact 4 (rest it) with
    | None => (None, stop it)
    | Some (len_bytes, r1) =>
        let pt_len := le_value len_bytes in
        if MAX_FRAME_PLAINTEXT_BYTES <? pt_len then (Some (inl (FrameTooLarge pt_len)), stop it)
        else
          match read_exact NONCE_LEN r1 with
          | None => (Some (inl TruncatedFrame), stop it)
          | Some (nonce, r2) =>
              match read_exact (Z.to_nat pt_len + 16) r2 with
              | None => (Some (inl TruncatedFrame), stop it)
              | Some (ct, r3) =>
                  match aes_gcm_decrypt_raw (key it) nonce ct (le_bytes 8 (frame_index it)) with
                  | inl e => (Some (inl (Crypto (CryptoFailed e))), stop it)
                  | inr pt =>
                      match Utf8.decode pt with
                      | None => (Some (inl NonUtf8Frame), stop it)
                      | Some s =>
                          (Some (inr (trim_newlines s)),
                           mkIter r3 (key it) (Z.min (frame_index it + 1) (2 ^ 64 - 1)) false)
                      end
                  end
              end
          end
    end.

(** Driving the iterator to its end, as playback does. *)
Fixpoint collect (fuel : nat) (it : LfsrFrameIter) : list (ReaderError + list Z) :=
  match fuel with
  | O => []
  | S fuel =>
      match next it with
      | (None, _) => []
      | (Some x, it') => x :: collect fuel it'
      end
  end.

Definition records (it : LfsrFrameIter) : list (ReaderError + list Z) :=
  collect (length (rest it) + 2) it.

End Lfsr.

(** ** Plaintext recordings *)

Definition MAX_CAST_LINE_BYTES : nat := Z.to_nat MAX_FRAME_PLAINTEXT_BYTES.

(** [take(n).read_until]: up to and including the first newline, at most [n] bytes. *)
Fixpoint read_until (n : nat) (r : bytes) : bytes * bytes :=
  match n, r with
  | S n, b :: r' =>
      if b =? newline then ([b], r')
      else let '(l, r'') := read_until n r' in (b :: l, r'')
  | _, _ => ([], r)
  end.

Definition is_eol (b : Z) : bool := (b =? newline) || (b =? 13).

Record CastFrameIter := mkCast { cast_rest : bytes; cast_finished : bool }.

(** One turn of the loop in [next]: [inl] is [continue]. *)
Definition cast_turn (it : CastFrameIter) : CastFrameIter + option (ReaderError + list Z) * CastFrameIter :=
  if cast_finished it then inr (None, it)
  else
    let '(buf, r) := read_until (MAX_CAST_LINE_BYTES + 1) (cast_rest it) in
    match buf with
    | [] => inr (None, mkCast r true)
    | _ =>
        if (MAX_CAST_LINE_BYTES <? length buf)%nat then
          inr (Some (inl (FrameTooLarge (MAX_FRAME_PLAINTEXT_BYTES + 1))), mkCast r true)
        else
          match trim_end_by is_eol buf with
          | [] => inl (mkCast r false)
          | line =>
              inr (Some (match Utf8.decode line with None => inl NonUtf8Frame | Some s => inr s end),
                   mkCast r false)
          end
    end.

Fixpoint cast_next (fuel : nat) (it : CastFrameIter) : option (ReaderError + list Z) * CastFrameIter :=
  match fuel with
  | O => (None, it)
  | S fuel => match cast_turn it with inl it' => cast_next fuel it' | inr res => res end
  end.

Fixpoint cast_collect (fuel : nat) (it : CastFrameIter) : list (ReaderError + list Z) :=
  match fuel with
  | O => []
  | S fuel =>
      match cast_next (S (length (cast_rest it))) it with
      | (None, _) => []
      | (Some x, it') => x :: cast_collect fuel it'
      end
  end.

Definition cast_records (it : CastFrameIter) : list (ReaderError + list Z) :=
  cast_collect (length (cast_rest it) + 2) it.

Definition open_cast_iter_at (file : option bytes) (start : option Z) : ReaderError + CastFrameIter :=
  match file with
  | None => inl Io
  | Some b => inr (mkCast (match start with Some o => drop (Z.to_nat o) b | None => b end) false)
  end.

(** ** Either kind *)
Inductive PlaybackIter := Cast (it : CastFrameIter) | Lfsr (it : LfsrFrameIter).

(** [eq_ignore_ascii_case]. *)
Definition to_ascii_lower (c : Z) : Z := if (65 <=? c) && (c <=? 90) then c + 32 else c.
Definition eq_ignore_ascii_case (a b : list Z) : bool :=
  bool_decide ((to_ascii_lower <$> a) = (to_ascii_lower <$> b)).

(** [Path::extension] of a file name: what follows its last dot, unless that dot is its
    first character. *)
Fixpoint split_last_dot (s : list Z) : option (list Z * list Z) :=
  match s with
  | [] => None
  | c :: s =>
      match split_last_dot s with
      | Some (stem, ext) => Some (c :: stem, ext)
      | None => if c =? 46 then Some ([], s) else None
      end
  end.

Definition extension (file_name : list Z) : option (list Z) :=
  if bool_decide (file_name = [46; 46]) then None
  else match split_last_dot file_name with Some (_ :: _, ext) => Some ext | _ => None end.

Section Playback.
Context `{Primitives}.

Definition open_for_playback_at (file_name : list Z) (file : option bytes) (db_key : bytes)
    (start_offset : option Z) (start_frame_index : Z) : ReaderError + PlaybackIter :=
  let is_lfsr :=
    match extension file_name with Some e => eq_ignore_ascii_case e (lit "lfsr") | None => false end in
  if is_lfsr then
    match open_lfsr_iter_at file db_key (option_map (fun o => (o, start_frame_index)) start_offset) with
    | inl e => inl e
    | inr it => inr (Lfsr it)
    end
  else
    match open_cast_iter_at file start_offset with
    | inl e => inl e
    | inr it => inr (Cast it)
    end.

Definition open_for_playback (file_name : list Z) (file : option bytes) (db_key : bytes) :
    ReaderError + PlaybackIter :=
  open_for_playback_at file_name file db_key None 0.

Definition next_record (it : PlaybackIter) : option (ReaderError + list Z) * PlaybackIter :=
  match it with
  | Cast it => let '(r, it) := cast_next (S (length (cast_rest it))) it in (r, Cast it)
  | Lfsr it => let '(r, it) := next it in (r, Lfsr it)
  end.

(** What is left to read. *)
Definition remaining (it : PlaybackIter) : nat :=
  match it with Cast it => length (cast_rest it) | Lfsr it => length (rest it) end.

(** The loop of a player. *)
Fixpoint play (fuel : nat) (it : PlaybackIter) : option (list (ReaderError + list Z)) :=
  match fuel with
  | O => None
  | S fuel =>
      match next_record it with
      | (None, _) => Some []
      | (Some x, it) => option_map (cons x) (play fuel it)
      end
  end.

End Playback.
End Reader.

(** ** Genuine frames

    A box is one call of the writer: a text, sealed under a key at a position. *)
Import Lfr Reader.

Record Box := mkBox {
  bkey : bytes;
  bindex : Z;
  bnonce : bytes;
  btext : list Z;
  bframe : bytes
}.

Section Playback.
Context `{Primitives}.

Definition genuine (b : Box) : Prop :=
  Forall char_ok (btext b) /\ Z.of_nat (length (Utf8.encode (btext b))) <= MAX_FRAME_PLAINTEXT_BYTES /\
  in_u64 (bindex b) /\
  build_frame (bnonce b) (Utf8.encode (btext b)) (Some (bkey b)) (bindex b) = inr (bframe b).

(** The part of a sequence of boxes that stands where it was written. *)
Fixpoint in_place (key : bytes) (i : Z) (bs : list Box) : list Box :=
  match bs with
  | b :: bs =>
      if bool_decide (bkey b = key) && (bindex b =? i) then b :: in_place key (i + 1) bs else []
  | [] => []
  end.

Definition body (bs : list Box) : bytes := concat (bframe <$> bs).
Definition line (b : Box) : ReaderError + list Z := inr (trim_newlines (btext b)).

Lemma read_exact_app n a r : length a = n -> read_exact n (a ++ r) = Some (a, r).
Proof.
  intros <-. unfold read_exact. rewrite (proj2 (Nat.ltb_ge _ _)) by (rewrite length_app; lia).
  by rewrite take_app_length, drop_app_length.
Qed.

Lemma read_exact_short n r : (length r < n)%nat -> read_exact n r = None.
Proof. intros Hn. unfold read_exact. by rewrite (proj2 (Nat.ltb_lt _ _)). Qed.

(** The shape of a frame. *)
Lemma genuine_frame b :
  genuine b ->
  exists ct, bframe b = le_bytes 4 (Z.of_nat (length (Utf8.encode (btext b)))) ++ bnonce b ++ ct /\
    length (bnonce b) = 12%nat /\ length ct = (length (Utf8.encode (btext b)) + 16)%nat /\
    aes_gcm_encrypt_raw (bkey b) (bnonce b) (Utf8.encode (btext b)) (le_bytes 8 (bindex b)) = inr ct.
Proof.
  intros (_ & _ & _ & Hf). unfold build_frame in Hf.
  destruct (aes_gcm_encrypt_raw _ _ _ _) as [|ct] eqn:Hc; [done|].
  case_match; [done|]. injection Hf as <-. exists ct.
  destruct (encrypt_raw_inv _ _ _ _ _ Hc) as (_ & Hn & _).
  by rewrite (encrypt_raw_length _ _ _ _ _ Hc).
Qed.

Lemma genuine_length_le b : genuine b -> le_value (le_bytes 4 (Z.of_nat (length (Utf8.encode (btext b))))) =
  Z.of_nat (length (Utf8.encode (btext b))).
Proof.
  intros (_ & Hl & _). apply le_value_bytes_id.
  unfold MAX_FRAME_PLAINTEXT_BYTES in Hl. lia.
Qed.

(** One frame at the cursor: played if it stands in its place, refused otherwise. *)
Lemma next_genuine b r k i :
  genuine b -> length k = 32%nat -> in_u64 i ->
  next (mkIter (bframe b ++ r) k i false) =
  if bool_decide (bkey b = k) && (bindex b =? i)
  then (Some (line b), mkIter r k (Z.min (i + 1) (2 ^ 64 - 1)) false)
  else (Some (inl (Crypto (CryptoFailed CipherFailed))), mkIter [] k i true).
Proof.
  intros Hg Hk Hi. destruct (genuine_frame b Hg) as (ct & Hf & Hn & Hl & Hc).
  pose proof (genuine_length_le b Hg) as Hlen. destruct Hg as (Hok & Hmax & Hix & _).
  unfold next, stop. cbn [finished rest key frame_index]. rewrite Hf, <-!app_assoc.
  rewrite read_exact_app by apply le_bytes_length. rewrite Hlen.
  rewrite (proj2 (Z.ltb_ge _ _)) by done. rewrite read_exact_app by done.
  rewrite read_exact_app by (rewrite Nat2Z.id; done).
  destruct (bool_decide (bkey b = k) && (bindex b =? i)) eqn:Hp.
  - apply andb_prop in Hp as [<-%bool_decide_eq_true <-%Z.eqb_eq].
    rewrite (decrypt_encrypt_raw _ _ _ _ _ Hc), utf8_decode_encode by done. done.
  - rewrite (decrypt_raw_foreign _ _ _ _ _ _ _ _ Hc); [done..|].
    intros He. pose proof (f_equal (fun t => t.1.1) He) as Hke. apply (f_equal snd) in He.
    cbn [fst snd] in *. apply le_bytes_inj in He; [|by int_unfold..]. subst.
    by rewrite bool_decide_eq_true_2, Z.eqb_refl in Hp by done.
Qed.

Lemma next_finished it : finished it = true -> next it = (None, it).
Proof. unfold next. by intros ->. Qed.

Lemma next_shrinks it x it' :
  next it = (Some x, it') -> finished it' = true \/ (length (rest it') < length (rest it))%nat.
Proof.
  unfold next, read_exact, stop. intros Hn.
  repeat (case_match; simplify_eq/=); auto. right.
  rewrite !length_drop. breflect. repeat match goal with H : (_ <? _)%nat = false |- _ => apply Nat.ltb_ge in H end.
  lia.
Qed.

Lemma collect_finished n it : finished it = true -> collect n it = [].
Proof. intros Hf. destruct n as [|n]; [done|]. cbn [collect]. by rewrite next_finished. Qed.

(** Playback ends: more fuel than the bytes left yields nothing more. *)
Lemma collect_fuel n it :
  (length (rest it) + 2 <= n)%nat -> collect n it = records it.
Proof.
  unfold records. remember (length (rest it)) as m eqn:Hm. revert n it Hm.
  induction (lt_wf m) as [m _ IH]. intros [|n] it -> Hn; [lia|].
  replace (length (rest it) + 2)%nat with (S (length (rest it) + 1))%nat by lia. cbn [collect].
  destruct (next it) as [[x|] it'] eqn:Hx; [|done]. f_equal.
  destruct (next_shrinks _ _ _ Hx) as [Hf|Hs].
  - rewrite !collect_finished by done. done.
  - rewrite (IH _ Hs n it' eq_refl) by lia. symmetry. apply (IH _ Hs); [done|lia].
Qed.

Lemma records_next it :
  records it = match next it with (None, _) => [] | (Some x, it') => x :: records it' end.
Proof.
  rewrite <-(collect_fuel (S (length (rest it) + 2))) by lia. cbn [collect].
  destruct (next it) as [[x|] it'] eqn:Hx; [|done]. f_equal.
  destruct (next_shrinks _ _ _ Hx) as [Hf|Hs]; [|apply collect_fuel; lia].
  unfold records. by rewrite !collect_finished.
Qed.

Lemma records_finished r k i : records (mkIter r k i true) = [].
Proof. apply collect_finished. done. Qed.

Lemma records_nil k i : records (mkIter [] k i false) = [].
Proof. done. Qed.

(** A sequence of genuine frames plays up to the first one out of its place. *)
Lemma records_body bs r k i :
  Forall genuine bs -> length k = 32%nat -> 0 <= i -> i + Z.of_nat (length bs) < 2 ^ 64 ->
  records (mkIter (body bs ++ r) k i false) =
  (line <$> in_place k i bs) ++
  (if (length (in_place k i bs) =? length bs)%nat
   then records (mkIter r k (i + Z.of_nat (length bs)) false)
   else [inl (Crypto (CryptoFailed CipherFailed))]).
Proof.
  intros Hg Hk. revert i. induction Hg as [|b bs Hb Hg IH]; intros i Hi Hn.
  - simpl. by rewrite Z.add_0_r.
  - unfold body. rewrite fmap_cons. cbn [concat]. rewrite <-app_assoc. fold (body bs).
    cbn [length] in Hn. rewrite records_next, next_genuine by (done || (int_unfold; lia)).
    cbn [in_place]. destruct (bool_decide (bkey b = k) && (bindex b =? i)).
    + rewrite fmap_cons. cbn [app length Nat.eqb]. f_equal.
      rewrite Z.min_l by lia. rewrite IH by lia. do 2 f_equal. case_match; [|done].
      do 2 f_equal. lia.
    + rewrite fmap_nil. cbn [length Nat.eqb app]. by rewrite records_finished.
Qed.

(** ** The header *)
Lemma header_shape wn dk rk h :
  build_lfsr_header wn dk rk = inr h -> length rk = 32%nat ->
  exists w, h = LFR_MAGIC ++ [LFR_VERSION] ++ wn ++ w /\ length wn = 12%nat /\ length w = 48%nat /\
    aes_gcm_encrypt_raw dk wn rk KEYWRAP_AAD = inr w.
Proof.
  unfold build_lfsr_header. intros Hb Hk.
  destruct (aes_gcm_encrypt_raw dk wn rk KEYWRAP_AAD) as [|w] eqn:Hc; [done|]. injection Hb as <-.
  exists w. destruct (encrypt_raw_inv _ _ _ _ _ Hc) as (_ & Hn & _).
  by rewrite (encrypt_raw_length _ _ _ _ _ Hc), Hk.
Qed.

Lemma header_length wn dk rk h :
  build_lfsr_header wn dk rk = inr h -> length rk = 32%nat -> length h = LFR_HEADER_LEN.
Proof.
  intros Hb Hk. destruct (header_shape _ _ _ _ Hb Hk) as (w & -> & Hn & Hw & _).
  by rewrite !length_app, Hn, Hw.
Qed.

(** Unwrapping gives the key back under the key it was wrapped with, and only there. *)
Lemma unwrap_build wn dk rk h dk' :
  build_lfsr_header wn dk rk = inr h -> length rk = 32%nat -> length dk' = 32%nat ->
  unwrap_lfsr_header h dk' = if bool_decide (dk' = dk) then inr rk else inl (CryptoFailed CipherFailed).
Proof.
  intros Hb Hk Hd. pose proof (header_length _ _ _ _ Hb Hk) as Hl.
  destruct (header_shape _ _ _ _ Hb Hk) as (w & -> & Hn & Hw & Hc).
  unfold unwrap_lfsr_header. rewrite Hl, Nat.ltb_irrefl.
  change (take 4 (LFR_MAGIC ++ [LFR_VERSION] ++ wn ++ w)) with LFR_MAGIC.
  rewrite bool_decide_eq_true_2 by done. cbn [negb].
  change (nth 4 (LFR_MAGIC ++ [LFR_VERSION] ++ wn ++ w) 0) with LFR_VERSION. rewrite Z.eqb_refl.
  change (drop 5 (LFR_MAGIC ++ [LFR_VERSION] ++ wn ++ w)) with (wn ++ w).
  change (drop (5 + NONCE_LEN) (LFR_MAGIC ++ [LFR_VERSION] ++ wn ++ w)) with (drop NONCE_LEN (wn ++ w)).
  cbn [negb]. rewrite take_app_length', drop_app_length' by done.
  rewrite take_ge by lia. case_bool_decide as He.
  - subst dk'. rewrite (decrypt_encrypt_raw _ _ _ _ _ Hc). by rewrite Hk.
  - rewrite (decrypt_raw_foreign _ _ _ _ _ _ _ _ Hc); [done..|]. congruence.
Qed.

Lemma open_built wn dk rk h b dk' start :
  build_lfsr_header wn dk rk = inr h -> length rk = 32%nat -> length dk' = 32%nat ->
  open_lfsr_iter_at (Some (h ++ b)) dk' start =
  if bool_decide (dk' = dk) then
    inr (match start with
         | Some (o, fi) => mkIter (drop (Z.to_nat o) (h ++ b)) rk fi false
         | None => mkIter b rk 0 false
         end)
  else inl (Crypto (CryptoFailed CipherFailed)).
Proof.
  intros Hb Hk Hd. pose proof (header_length _ _ _ _ Hb Hk) as Hl.
  unfold open_lfsr_iter_at. rewrite read_exact_app by done.
  rewrite (unwrap_build _ _ _ _ _ Hb Hk Hd).
  destruct (header_shape _ _ _ _ Hb Hk) as (w & -> & _).
  change (take 4 (LFR_MAGIC ++ [LFR_VERSION] ++ wn ++ w)) with LFR_MAGIC.
  change (nth 4 (LFR_MAGIC ++ [LFR_VERSION] ++ wn ++ w) 0) with LFR_VERSION.
  rewrite bool_decide_eq_true_2, Z.eqb_refl by done. cbn [negb].
  case_bool_decide; [by destruct start as [[o fi]|]|done].
Qed.

(** ** Torn tails *)
Lemma frame_length b : genuine b -> (length (bframe b) = 32 + length (Utf8.encode (btext b)))%nat.
Proof.
  intros Hg. destruct (genuine_frame b Hg) as (ct & -> & Hn & Hl & _).
  rewrite !length_app, le_bytes_length, Hn, Hl. lia.
Qed.

(** What a torn frame shows: nothing before its length is complete, an error after. *)
Definition torn (n : nat) : list (ReaderError + list Z) := if (n <? 4)%nat then [] else [inl TruncatedFrame].

Lemma records_torn b n k i :
  genuine b -> (n < length (bframe b))%nat -> records (mkIter (take n (bframe b)) k i false) = torn n.
Proof.
  intros Hg Hn. pose proof (frame_length b Hg) as Hfl. pose proof (genuine_length_le b Hg) as Hle.
  destruct (genuine_frame b Hg) as (ct & Hf & Hnl & Hl & _).
  assert (Hmax : Z.of_nat (length (Utf8.encode (btext b))) <= MAX_FRAME_PLAINTEXT_BYTES) by apply Hg.
  assert (Htl : length (take n (bframe b)) = n) by (rewrite length_take; lia).
  rewrite records_next. unfold next, torn, stop. cbn [finished rest key frame_index].
  destruct (n <? 4)%nat eqn:E4; [apply Nat.ltb_lt in E4; by rewrite read_exact_short by lia|].
  apply Nat.ltb_ge in E4. rewrite Hf in *.
  rewrite take_app_ge in * by (rewrite le_bytes_length; lia). rewrite le_bytes_length in *.
  rewrite read_exact_app by apply le_bytes_length. rewrite Hle.
  rewrite (proj2 (Z.ltb_ge _ _)) by done.
  rewrite length_app, le_bytes_length in Htl.
  destruct (decide (n - 4 < 12)%nat) as [Hs|Hs].
  - rewrite read_exact_short by (unfold NONCE_LEN; lia). by rewrite records_finished.
  - rewrite take_app_ge in * by lia. rewrite read_exact_app by done. rewrite length_app in Htl.
    rewrite Nat2Z.id, read_exact_short by lia. by rewrite records_finished.
Qed.

Lemma body_cons b bs : body (b :: bs) = bframe b ++ body bs.
Proof. done. Qed.

(** Cutting a body leaves whole frames and a proper prefix of the next one. *)
Lemma take_body bs n :
  (n <= length (body bs))%nat ->
  exists j m, (j <= length bs)%nat /\ n = (length (body (take j bs)) + m)%nat /\
    ((j = length bs /\ m = 0%nat /\ take n (body bs) = body bs) \/
     exists b, bs !! j = Some b /\ (m < length (bframe b))%nat /\
       take n (body bs) = body (take j bs) ++ take m (bframe b)).
Proof.
  revert n. induction bs as [|b bs IH]; intros n Hn.
  - exists 0%nat, 0%nat. simpl in *. split_and!; [lia..|]. left. split_and!; [done..|]. by destruct n.
  - destruct (decide (n < length (bframe b))%nat) as [Hs|Hs].
    + exists 0%nat, n. split_and!; [lia|done|]. right. exists b. split_and!; [done..|].
      rewrite body_cons. by rewrite take_app_le by lia.
    + rewrite body_cons, length_app in Hn.
      destruct (IH (n - length (bframe b))%nat) as (j & m & Hj & Hnm & Hc); [lia|].
      exists (S j), m. cbn [take length]. rewrite body_cons, length_app. split_and!; [lia..|].
      rewrite body_cons, take_app_ge by lia.
      destruct Hc as [(-> & -> & Ht)|(b' & Hb' & Hm & Ht)].
      * left. rewrite Ht. done.
      * right. exists b'. rewrite Ht, <-app_assoc. done.
Qed.

Lemma in_place_take k i bs j : in_place k i bs = bs -> in_place k i (take j bs) = take j bs.
Proof.
  revert i j. induction bs as [|b bs IH]; intros i j Hp; [by rewrite take_nil|].
  destruct j as [|j]; [done|]. cbn [in_place take] in *. case_match; [|done].
  injection Hp as Hp. f_equal. by apply IH.
Qed.
End Playback.

(** ** The plaintext iterator *)
Lemma read_until_length n r : (length (read_until n r).1 + length (read_until n r).2 = length r)%nat.
Proof.
  revert n. induction r as [|b r IH]; intros [|n]; [done..|]. cbn [read_until].
  destruct (b =? newline); [done|]. specialize (IH n). destruct (read_until n r); simpl in *. lia.
Qed.

Lemma read_until_line l r n :
  newline ∉ l -> (length l < n)%nat -> read_until n (l ++ newline :: r) = (l ++ [newline], r).
Proof.
  revert n. induction l as [|b l IH]; intros [|n] Hl Hn; simpl in Hn; try lia; [done|].
  apply not_elem_of_cons in Hl as [Hb Hl]. cbn [app read_until].
  rewrite (proj2 (Z.eqb_neq _ _)) by congruence. by rewrite IH by (done || lia).
Qed.

Lemma cast_turn_shrinks it :
  match cast_turn it with
  | inl it' => cast_finished it' = false /\ (length (cast_rest it') < length (cast_rest it))%nat
  | inr (Some _, it') => (length (cast_rest it') < length (cast_rest it))%nat
  | inr (None, it') => True
  end.
Proof.
  unfold cast_turn. destruct (cast_finished it); [done|].
  pose proof (read_until_length (MAX_CAST_LINE_BYTES + 1) (cast_rest it)) as Hl.
  destruct (read_until _ _) as [[|b buf] r]; [done|]. cbn [fst snd length] in Hl.
  destruct (_ <? _)%nat; [simpl; lia|]. destruct (trim_end_by _ _); simpl; [split; [done|]|]; lia.
Qed.

Lemma cast_next_fuel n it :
  (length (cast_rest it) < n)%nat -> cast_next n it = cast_next (S (length (cast_rest it))) it.
Proof.
  remember (length (cast_rest it)) as m eqn:Hm. revert n it Hm.
  induction (lt_wf m) as [m _ IH]. intros [|n] it -> Hn; [lia|]. cbn [cast_next].
  pose proof (cast_turn_shrinks it) as Ht. destruct (cast_turn it) as [it'|res]; [|done].
  destruct Ht as [_ Ht]. rewrite (IH _ Ht n it' eq_refl) by lia.
  symmetry. apply (IH _ Ht); [done|lia].
Qed.

Lemma cast_next_shrinks n it x it' :
  cast_next n it = (Some x, it') -> (length (cast_rest it') < length (cast_rest it))%nat.
Proof.
  revert it. induction n as [|n IH]; intros it Hn; [done|]. cbn [cast_next] in Hn.
  pose proof (cast_turn_shrinks it) as Ht. destruct (cast_turn it) as [it1|[[y|] it1]]; simplify_eq; [|done].
  destruct Ht as [_ Ht]. apply IH in Hn. lia.
Qed.

Lemma cast_collect_fuel n it :
  (length (cast_rest it) + 2 <= n)%nat -> cast_collect n it = cast_records it.
Proof.
  unfold cast_records. remember (length (cast_rest it)) as m eqn:Hm. revert n it Hm.
  induction (lt_wf m) as [m _ IH]. intros [|n] it -> Hn; [lia|].
  replace (length (cast_rest it) + 2)%nat with (S (length (cast_rest it) + 1))%nat by lia.
  cbn [cast_collect]. destruct (cast_next _ it) as [[x|] it'] eqn:Hx; [|done]. f_equal.
  apply cast_next_shrinks in Hx. rewrite (IH _ Hx n it' eq_refl) by lia.
  symmetry. apply (IH _ Hx); [done|lia].
Qed.

(** One turn at a time. *)
Lemma cast_records_turn it :
  cast_records it =
  match cast_turn it with
  | inl it' => cast_records it'
  | inr (None, _) => []
  | inr (Some x, it') => x :: cast_records it'
  end.
Proof.
  assert (HS : forall n i, cast_collect (S n) i =
    match cast_next (S (length (cast_rest i))) i with
    | (None, _) => [] | (Some x, i') => x :: cast_collect n i' end) by done.
  rewrite <-(cast_collect_fuel (S (length (cast_rest it) + 2))) by lia. rewrite HS.
  cbn [cast_next]. pose proof (cast_turn_shrinks it) as Ht.
  destruct (cast_turn it) as [it'|[[x|] it']]; [|f_equal; apply cast_collect_fuel; lia|done].
  destruct Ht as [_ Ht]. rewrite (cast_next_fuel (length (cast_rest it))) by lia.
  rewrite <-(cast_collect_fuel (S (length (cast_rest it') + 2)) it') by lia. rewrite HS.
  destruct (cast_next _ it') as [[x|] it2] eqn:Hx; [|done]. f_equal.
  apply cast_next_shrinks in Hx. rewrite !cast_collect_fuel by lia. done.
Qed.

(** A line of text that stands for itself in a plaintext recording. *)
Definition plain_line (cs : list Z) : Prop :=
  Forall char_ok cs /\ newline ∉ cs /\ 13 ∉ cs /\ (length (Utf8.encode cs) < MAX_CAST_LINE_BYTES)%nat.

Lemma encode_low c b : char_ok c -> b ∈ Utf8.encode_char c -> b < 128 -> b = c.
Proof.
  unfold Utf8.encode_char, char_ok. intros Hc Hb Hl.
  apply list_elem_of_In in Hb.
  repeat case_match; breflect; simpl in Hb; Z.to_euclidean_division_equations; lia.
Qed.

Lemma encode_not_elem c cs : c < 128 -> Forall char_ok cs -> c ∉ cs -> c ∉ Utf8.encode cs.
Proof.
  intros Hc Hok Hn Hin. unfold Utf8.encode in Hin. apply list_elem_of_bind in Hin as (d & Hd & Hin).
  rewrite Forall_forall in Hok. by rewrite (encode_low _ _ (Hok _ Hin) Hd Hc) in Hn.
Qed.

Lemma trim_start_clean p l x : p x = false -> trim_start_by p (x :: l) = x :: l.
Proof. simpl. by intros ->. Qed.

Lemma trim_end_line cs : Forall char_ok cs -> newline ∉ cs -> 13 ∉ cs ->
  trim_end_by is_eol (Utf8.encode cs ++ [newline]) = Utf8.encode cs.
Proof.
  intros Hok H10 H13. unfold trim_end_by. rewrite rev_app_distr. cbn [rev app trim_start_by].
  change (is_eol newline) with true. cbv iota.
  destruct (rev (Utf8.encode cs)) as [|x l] eqn:Hr.
  - apply (f_equal (@rev Z)) in Hr. by rewrite rev_involutive in Hr.
  - rewrite trim_start_clean, <-Hr, rev_involutive; [done|].
    assert (Hx : x ∈ Utf8.encode cs).
    { apply list_elem_of_In, in_rev. rewrite Hr. left. done. }
    unfold is_eol. apply orb_false_iff; split; apply Z.eqb_neq; intros ->;
      by eapply encode_not_elem in Hx.
Qed.

Lemma encode_app a b : Utf8.encode (a ++ b) = Utf8.encode a ++ Utf8.encode b.
Proof. apply bind_app. Qed.

Lemma trim_newline_line l : newline ∉ l -> trim_newlines (l ++ [newline]) = l.
Proof.
  intros Hn. unfold trim_newlines, trim_end_by. rewrite rev_app_distr. cbn [rev app trim_start_by].
  rewrite Z.eqb_refl. destruct (rev l) as [|x r] eqn:Hr.
  - apply (f_equal (@rev Z)) in Hr. by rewrite rev_involutive in Hr.
  - rewrite trim_start_clean, <-Hr, rev_involutive; [done|]. apply Z.eqb_neq. intros ->.
    apply Hn, list_elem_of_In, in_rev. rewrite Hr. by left.
Qed.

Lemma cast_turn_line cs r :
  plain_line cs ->
  cast_turn (mkCast (Utf8.encode cs ++ newline :: r) false) =
  match cs with [] => inl (mkCast r false) | _ => inr (Some (inr cs), mkCast r false) end.
Proof.
  intros (Hok & H10 & H13 & Hl). unfold cast_turn. cbn [cast_finished cast_rest].
  rewrite read_until_line; [|by apply encode_not_elem|lia].
  pose proof (trim_end_line cs Hok H10 H13) as Ht. pose proof (utf8_decode_encode cs Hok) as Hd.
  destruct (Utf8.encode cs ++ [newline]) as [|b buf] eqn:Hb; [by destruct (Utf8.encode cs)|].
  rewrite <-Hb, (proj2 (Nat.ltb_ge _ _)) by (rewrite length_app; simpl; lia). rewrite Hb, Ht.
  destruct cs as [|c cs]; [done|].
  destruct (Utf8.encode (c :: cs)) as [|b' buf'] eqn:He; [done|]. by rewrite Hd.
Qed.

(** The bytes of a plaintext recording of these lines. *)
Definition cast_file (ls : list (list Z)) : bytes := ls ≫= (fun cs => Utf8.encode cs ++ [newline]).

Lemma cast_file_records ls r :
  Forall plain_line ls ->
  cast_records (mkCast (cast_file ls ++ r) false) =
  (inr <$> filter (fun cs => cs <> []) ls) ++ cast_records (mkCast r false).
Proof.
  induction 1 as [|cs ls Hc _ IH]; [done|]. unfold cast_file in *.
  rewrite bind_cons, <-!app_assoc, cast_records_turn. cbn [app]. rewrite cast_turn_line by done.
  destruct cs as [|c cs]; rewrite IH; [done|]. by rewrite filter_cons_True.
Qed.

(** * Properties of the format *)
Section Properties.
Context `{Primitives}.

(** C35. An encrypted recording opens only under the database key that wrapped its
    header.  Opened there, a body made of genuine frames of any recordings in any order
    plays exactly its longest prefix of frames that were sealed under this file's key at
    the position they stand in, and then stops with a decryption error: a frame moved,
    dropped, duplicated or spliced in from another file is never played. *)
Theorem splices_are_refused wn dk rk h bs :
  build_lfsr_header wn dk rk = inr h -> length rk = 32%nat ->
  Forall genuine bs -> Z.of_nat (length bs) < 2 ^ 64 ->
  (forall dk', length dk' = 32%nat -> dk' <> dk ->
    open_lfsr_iter_at (Some (h ++ body bs)) dk' None = inl (Crypto (CryptoFailed CipherFailed))) /\
  exists it, open_lfsr_iter_at (Some (h ++ body bs)) dk None = inr it /\
    records it = (line <$> in_place rk 0 bs) ++
      (if (length (in_place rk 0 bs) =? length bs)%nat then []
       else [inl (Crypto (CryptoFailed CipherFailed))]).
Proof.
  intros Hb Hk Hg Hn. assert (Hd : length dk = 32%nat).
  { destruct (header_shape _ _ _ _ Hb Hk) as (w & _ & _ & _ & Hc).
    by destruct (encrypt_raw_inv _ _ _ _ _ Hc). }
  split.
  - intros dk' Hd' Hne. rewrite (open_built _ _ _ _ _ _ _ Hb Hk Hd').
    by rewrite bool_decide_eq_false_2.
  - eexists. rewrite (open_built _ _ _ _ _ _ _ Hb Hk Hd), bool_decide_eq_true_2 by done.
    split; [done|]. rewrite <-(app_nil_r (body bs)). rewrite records_body by (done || lia).
    case_match; [|done]. by rewrite records_nil.
Qed.

(** C36. An encrypted recording cut at any byte after its header plays every frame that is
    complete, in order; the torn frame at the end shows as nothing while its length is
    incomplete and as one truncation error otherwise. *)
Theorem torn_recording_plays bs rk n :
  Forall genuine bs -> length rk = 32%nat -> Z.of_nat (length bs) < 2 ^ 64 ->
  in_place rk 0 bs = bs -> (n <= length (body bs))%nat ->
  exists j m, n = (length (body (take j bs)) + m)%nat /\
    (j = length bs /\ m = 0%nat \/ exists b, bs !! j = Some b /\ (m < length (bframe b))%nat) /\
    records (mkIter (take n (body bs)) rk 0 false) = (line <$> take j bs) ++ torn m.
Proof.
  intros Hg Hk Hl Hp Hn. destruct (take_body bs n Hn) as (j & m & Hj & Hnm & Hc).
  exists j, m. split; [done|].
  assert (Hpl : forall r, records (mkIter (body (take j bs) ++ r) rk 0 false) =
    (line <$> take j bs) ++ records (mkIter r rk (0 + Z.of_nat (length (take j bs))) false)).
  { intros r. rewrite records_body; [|by apply Forall_take|done|done|rewrite length_take; lia].
    by rewrite in_place_take, Nat.eqb_refl. }
  destruct Hc as [(-> & -> & Ht)|(b & Hb & Hm & Ht)].
  - split; [by left|]. rewrite Ht. rewrite firstn_all in *. rewrite <-(app_nil_r (body bs)) at 1.
    by rewrite Hpl, records_nil.
  - split; [right; eauto|]. rewrite Ht, Hpl. f_equal. apply records_torn; [|done].
    by eapply Forall_lookup_1 in Hb.
Qed.

End Properties.

(** ** Playback ends *)
Section Ends.
Context `{Primitives}.

Definition all_records (it : PlaybackIter) : list (ReaderError + list Z) :=
  match it with Cast it => cast_records it | Lfsr it => records it end.

Lemma next_reads it x it' : next it = (Some x, it') -> (4 <= length (rest it))%nat.
Proof.
  unfold next, read_exact. destruct (finished it); [done|].
  destruct (length (rest it) <? 4)%nat eqn:Hl; [done|]. intros _. by apply Nat.ltb_ge.
Qed.

Lemma play_lfsr it n : (length (rest it) + 2 <= n)%nat -> play n (Lfsr it) = Some (records it).
Proof.
  remember (length (rest it)) as m eqn:Hm. revert n it Hm.
  induction (lt_wf m) as [m _ IH]. intros [|n] it -> Hn; [lia|].
  rewrite records_next. cbn [play next_record].
  destruct (next it) as [[x|] it'] eqn:Hx; [|done].
  destruct (next_shrinks _ _ _ Hx) as [Hf|Hs].
  - pose proof (next_reads _ _ _ Hx). destruct n as [|n]; [lia|]. cbn [play next_record].
    unfold records. by rewrite next_finished, collect_finished.
  - by rewrite (IH _ Hs n it' eq_refl) by lia.
Qed.

Lemma play_cast it n : (length (cast_rest it) + 2 <= n)%nat -> play n (Cast it) = Some (cast_records it).
Proof.
  remember (length (cast_rest it)) as m eqn:Hm. revert n it Hm.
  induction (lt_wf m) as [m _ IH]. intros [|n] it -> Hn; [lia|].
  rewrite <-(cast_collect_fuel (S (length (cast_rest it) + 2))) by lia. cbn [play next_record cast_collect].
  destruct (cast_next _ it) as [[x|] it'] eqn:Hx; [|done]. apply cast_next_shrinks in Hx.
  by rewrite (IH _ Hx n it' eq_refl), cast_collect_fuel by lia.
Qed.

Lemma records_bound it : (length (records it) <= length (rest it))%nat.
Proof.
  remember (length (rest it)) as m eqn:Hm. revert it Hm.
  induction (lt_wf m) as [m _ IH]. intros it ->. rewrite records_next.
  destruct (next it) as [[x|] it'] eqn:Hx; [|simpl; lia]. pose proof (next_reads _ _ _ Hx).
  destruct (next_shrinks _ _ _ Hx) as [Hf|Hs]; cbn [length].
  - unfold records. rewrite collect_finished by done. simpl. lia.
  - specialize (IH _ Hs it' eq_refl). lia.
Qed.

Lemma cast_records_bound it : (length (cast_records it) <= length (cast_rest it))%nat.
Proof.
  remember (length (cast_rest it)) as m eqn:Hm. revert it Hm.
  induction (lt_wf m) as [m _ IH]. intros it ->.
  rewrite <-(cast_collect_fuel (S (length (cast_rest it) + 2))) by lia. cbn [cast_collect].
  destruct (cast_next _ it) as [[x|] it'] eqn:Hx; [|simpl; lia]. apply cast_next_shrinks in Hx.
  rewrite cast_collect_fuel by lia. specialize (IH _ Hx it' eq_refl). cbn [length]. lia.
Qed.

(** Playing any file ends, whatever its bytes: from any open player, within as many
    calls of [next_record] as there are bytes left and two more, the end is reached, the
    records are the ones any longer run would show, and there are no more of them than
    bytes. *)
Theorem playback_terminates it k :
  play (remaining it + 2 + k) it = Some (all_records it) /\ (length (all_records it) <= remaining it)%nat.
Proof.
  destruct it as [it|it]; cbn [remaining all_records].
  - split; [apply play_cast; lia|apply cast_records_bound].
  - split; [apply play_lfsr; lia|apply records_bound].
Qed.
End Ends.

(** ** Concrete recordings *)
Definition demo_key : bytes := replicate 32 7.
Definition demo_db_key : bytes := replicate 32 9.
Definition demo_nonce : bytes := replicate 12 3.

Definition demo_box (k : bytes) (i : Z) (s : string) : Box :=
  let text := lit s ++ [newline] in
  mkBox k i demo_nonce text
    match build_frame demo_nonce (Utf8.encode text) (Some k) i with inr f => f | inl _ => [] end.

Definition demo_boxes : list Box :=
  [demo_box demo_key 0 "{}"; demo_box demo_key 1 "[0,o,hi]"; demo_box demo_key 2 "[1,o,ho]"].

Lemma demo_genuine : Forall genuine demo_boxes.
Proof.
  repeat (apply Forall_cons; split);
    [split_and!; [apply (bool_decide_unpack _); by vm_compute|by vm_compute|by vm_compute|by vm_compute]..|].
  apply Forall_nil_2.
Qed.

Lemma splices_are_refused_witness :
  exists h, build_lfsr_header demo_nonce demo_db_key demo_key = inr h /\
  exists it, open_lfsr_iter_at (Some (h ++ body [demo_box demo_key 0 "{}"; demo_box demo_key 2 "[1,o,ho]"]))
    demo_db_key None = inr it /\
  records it = [inr (lit "{}"); inl (Crypto (CryptoFailed CipherFailed))].
Proof.
  destruct (build_lfsr_header demo_nonce demo_db_key demo_key) as [|h] eqn:Hh;
    [vm_compute in Hh; discriminate|].
  exists h. split; [done|].
  destruct (splices_are_refused demo_nonce demo_db_key demo_key h
    [demo_box demo_key 0 "{}"; demo_box demo_key 2 "[1,o,ho]"]) as (_ & it & Ho & Hr).
  - exact Hh.
  - reflexivity.
  - pose proof demo_genuine as Hg. unfold demo_boxes in Hg. rewrite !Forall_cons in *. tauto.
  - reflexivity.
  - exists it. split; [exact Ho|]. rewrite Hr. vm_compute. reflexivity.
Defined.

Lemma torn_recording_plays_witness :
  exists j m, 50%nat = (length (body (take j demo_boxes)) + m)%nat /\
    (j = length demo_boxes /\ m = 0%nat \/ exists b, demo_boxes !! j = Some b /\ (m < length (bframe b))%nat) /\
    records (mkIter (take 50 (body demo_boxes)) demo_key 0 false) = (line <$> take j demo_boxes) ++ torn m.
Proof.
  apply (torn_recording_plays demo_boxes demo_key 50).
  - exact demo_genuine.
  - reflexivity.
  - reflexivity.
  - vm_compute. reflexivity.
  - apply Nat.leb_le. vm_compute. reflexivity.
Defined.
