(* ===== verification/RecIndex.v ===== *)
(** * The seek index of a recording ([recorder/index_sidecar.rs])

    Next to each recording stands a file of fixed-width entries, one per event, that
    maps a time into a byte offset of the recording.  The writer appends an entry per
    event (in the clear, or as one sealed block whose position is its associated data);
    the reader takes every entry up to the first damaged one, and [seek] searches them
    by bisection.  A file is its bytes. *)
From Stdlib Require Import ZArith Lia.
From stdpp Require Import prelude gmap strings list sorting.
From S2P Require Import Prelude Text Crypto RecFormat.

Open Scope Z_scope.

Module Index.
Import Lfr.

Definition LFI_MAGIC : bytes := [76; 70; 73; 49].
Definition LFI_VERSION : Z := 1.
Definition ENTRY_PLAINTEXT_LEN : nat := 12.
Definition INDEX_HKDF_INFO : bytes := lit "letsflutssh-recording-idx-v1".

(** [sidecar_path] on the file name. *)
Definition sidecar_name (name : string) : string := (name ++ ".idx")%string.

Record IndexEntry := mkEntry { offset : Z; timestamp_ms : Z }.

#[export] Instance IndexEntry_eq_dec : EqDecision IndexEntry.
Proof. solve_decision. Defined.

Definition encode_entry (e : IndexEntry) : bytes :=
  le_bytes 8 (offset e) ++ le_bytes 4 (timestamp_ms e).

Definition decode_entry (b : bytes) : IndexEntry :=
  mkEntry (le_value (take 8 b)) (le_value (drop 8 b)).

Inductive IndexError :=
| IdxCrypto (e : CryptoError)
| IdxBlockLen (n : Z)
| IdxBlockTruncated
| IdxBlockSize (n : nat)
| IdxFlush
| IdxOpen.

(** The open writer: what it has flushed, what its buffer holds, its key, its next
    sequence number. *)
Record IndexWriter := mkWriter {
  ifile : bytes;
  buffered : bytes;
  ikey : option bytes;
  next_seq : Z
}.

Definition create (key : option bytes) : IndexWriter :=
  mkWriter (LFI_MAGIC ++ [LFI_VERSION]) [] key 0.

Section Index.
Context `{Primitives}.

Definition build_encrypted_block (nonce plaintext key : bytes) (seq : Z) : IndexError + bytes :=
  match aes_gcm_encrypt_raw key nonce plaintext (le_bytes 8 seq) with
  | inl e => inl (IdxCrypto e)
  | inr ct => inr (le_bytes 4 (Z.of_nat ENTRY_PLAINTEXT_LEN) ++ nonce ++ ct)
  end.

(** [nonce] is the random one of the block; [flushed] is whether the flush succeeds
    (what it could not write stays in the buffer). *)
Definition append (nonce : bytes) (flushed : bool) (e : IndexEntry) (w : IndexWriter) :
    (IndexError + unit) * IndexWriter :=
  let pt := encode_entry e in
  let block := match ikey w with
               | None => inr pt
               | Some key => build_encrypted_block nonce pt key (next_seq w)
               end in
  match block with
  | inl err => (inl err, w)
  | inr b =>
      if flushed
      then (inr (), mkWriter (ifile w ++ buffered w ++ b) [] (ikey w) (Z.min (next_seq w + 1) (2 ^ 64 - 1)))
      else (inl IdxFlush, mkWriter (ifile w) (buffered w ++ b) (ikey w) (next_seq w))
  end.

(** One block: [inr None] at a clean end. *)
Definition read_encrypted_block (r key : bytes) (seq : Z) : IndexError + option (IndexEntry * bytes) :=
  match Reader.read_exact 4 r with
  | None => inr None
  | Some (len_bytes, r1) =>
      let pt_len := le_value len_bytes in
      if negb (pt_len =? Z.of_nat ENTRY_PLAINTEXT_LEN) then inl (IdxBlockLen pt_len)
      else
        match Reader.read_exact NONCE_LEN r1 with
        | None => inl IdxBlockTruncated
        | Some (nonce, r2) =>
            match Reader.read_exact (Z.to_nat pt_len + 16) r2 with
            | None => inl IdxBlockTruncated
            | Some (ct, r3) =>
                match aes_gcm_decrypt_raw key nonce ct (le_bytes 8 seq) with
                | inl e => inl (IdxCrypto e)
                | inr pt =>
                    if negb (length pt =? ENTRY_PLAINTEXT_LEN)%nat then inl (IdxBlockSize (length pt))
                    else inr (Some (decode_entry pt, r3))
                end
            end
        end
  end.

(** One turn of the loop of [read_all]: [None] is [break]. *)
Definition read_turn (key : option bytes) (seq : Z) (r : bytes) : option (IndexEntry * bytes) :=
  match key with
  | Some k => match read_encrypted_block r k seq with inr res => res | inl _ => None end
  | None =>
      match Reader.read_exact ENTRY_PLAINTEXT_LEN r with
      | Some (buf, r') => Some (decode_entry buf, r')
      | None => None
      end
  end.

Fixpoint read_loop (fuel : nat) (key : option bytes) (seq : Z) (r : bytes) : list IndexEntry :=
  match fuel with
  | O => []
  | S fuel =>
      match read_turn key seq r with
      | None => []
      | Some (e, r') => e :: read_loop fuel key (Z.min (seq + 1) (2 ^ 64 - 1)) r'
      end
  end.

(** The file: not there, unreadable, or its bytes. *)
Inductive file_view := Missing | Unreadable | Content (b : bytes).

Definition read_all (file : file_view) (key : option bytes) : IndexError + list IndexEntry :=
  match file with
  | Missing => inr []
  | Unreadable => inl IdxOpen
  | Content b =>
      match Reader.read_exact 5 b with
      | None => inr []
      | Some (header, r) =>
          if negb (bool_decide (take 4 header = LFI_MAGIC)) || negb (nth 4 header 0 =? LFI_VERSION)
          then inr []
          else inr (read_loop (S (length r)) key 0 r)
      end
  end.

End Index.

(** [slice::partition_point]: the standard library's bisection. *)
Fixpoint bisect {A} (p : A -> bool) (l : list A) (fuel size base : nat) : nat :=
  match fuel with
  | O => base
  | S fuel =>
      if (size <=? 1)%nat then base
      else
        let half := Nat.div2 size in
        let mid := (base + half)%nat in
        let base' := match l !! mid with Some x => if p x then mid else base | None => base end in
        bisect p l fuel (size - half) base'
  end.

Definition partition_point {A} (p : A -> bool) (l : list A) : nat :=
  match l with
  | [] => 0
  | _ =>
      let base := bisect p l (length l) (length l) 0 in
      match l !! base with Some x => if p x then S base else base | None => base end
  end.

Definition search (entries : list IndexEntry) (target_ms : Z) : option IndexEntry :=
  match entries with
  | [] => None
  | _ =>
      match partition_point (fun e => timestamp_ms e <=? target_ms) entries with
      | O => None
      | S i => entries !! i
      end
  end.

Record SeekHit := mkHit { hit_offset : Z; hit_entry_index : Z; hit_timestamp_ms : Z }.

Definition seek `{Primitives} (sidecar : file_view) (target_ms : Z) (encrypted : bool)
    (key : option bytes) : IndexError + option SeekHit :=
  let entries :=
    if encrypted then match key with Some k => Some (read_all sidecar (Some k)) | None => None end
    else Some (read_all sidecar None) in
  match entries with
  | None => inr None
  | Some (inl e) => inl e
  | Some (inr []) => inr None
  | Some (inr es) =>
      match partition_point (fun e => timestamp_ms e <=? target_ms) es with
      | O => inr None
      | S i =>
          match es !! i with
          | Some e => inr (Some (mkHit (offset e) (Z.of_nat i) (timestamp_ms e)))
          | None => inr None
          end
      end
  end.

End Index.

Import Lfr Index.

(** ** Bisection *)

(** [p] holds exactly below [k]. *)
Definition splits_at {A} (p : A -> bool) (l : list A) (k : nat) : Prop :=
  (k <= length l)%nat /\ forall i x, l !! i = Some x -> p x = (i <? k)%nat.

Lemma bisect_spec {A} (p : A -> bool) l k fuel size base :
  splits_at p l k -> (1 <= size <= fuel)%nat -> (base + size <= length l)%nat ->
  (k <= base + size)%nat -> (base = 0 \/ base < k)%nat ->
  let b := bisect p l fuel size base in (b < length l /\ k <= b + 1 /\ (b = 0 \/ b < k))%nat.
Proof.
  intros [Hk Hp]. revert size base. induction fuel as [|fuel IH]; intros size base Hs Hb Hk2 H0; [lia|].
  cbn [bisect]. destruct (size <=? 1)%nat eqn:E; [apply Nat.leb_le in E; cbv zeta; lia|].
  apply Nat.leb_gt in E. pose proof (Nat.div2_div size) as Hd.
  assert (Hh : (1 <= Nat.div2 size /\ 2 * Nat.div2 size <= size)%nat).
  { rewrite Hd. split; [apply Nat.div_le_lower_bound; lia|apply Nat.Div0.mul_div_le]. }
  destruct (lookup_lt_is_Some_2 l (base + Nat.div2 size)%nat) as [x Hx]; [lia|]. rewrite Hx.
  rewrite (Hp _ _ Hx). destruct (_ <? _)%nat eqn:Em.
  - apply Nat.ltb_lt in Em. apply IH; lia.
  - apply Nat.ltb_ge in Em. apply IH; lia.
Qed.

Lemma partition_point_spec {A} (p : A -> bool) l k : splits_at p l k -> partition_point p l = k.
Proof.
  intros Hs. unfold partition_point. destruct l as [|a l'] eqn:Hl.
  - destruct Hs as [Hk _]. simpl in Hk. lia.
  - rewrite <-Hl in *. assert (1 <= length l)%nat by (rewrite Hl; simpl; lia).
    destruct (bisect_spec p l k (length l) (length l) 0 Hs) as (Hb & Hk & H0); [lia|lia|apply Hs|lia|].
    destruct (lookup_lt_is_Some_2 l _ Hb) as [x Hx]. rewrite Hx.
    destruct Hs as [_ Hp]. rewrite (Hp _ _ Hx). case_match eqn:E.
    + apply Nat.ltb_lt in E. lia.
    + apply Nat.ltb_ge in E. lia.
Qed.

Definition by_time (a b : IndexEntry) : Prop := timestamp_ms a <= timestamp_ms b.
Definition at_or_before (t : Z) (e : IndexEntry) : Prop := timestamp_ms e <= t.

#[export] Instance at_or_before_dec t e : Decision (at_or_before t e).
Proof. unfold at_or_before. apply _. Defined.

(** In time order, the entries at or before a time are a prefix. *)
Lemma sorted_split es t :
  StronglySorted by_time es ->
  exists k, filter (at_or_before t) es = take k es /\
    splits_at (fun e => timestamp_ms e <=? t) es k.
Proof.
  induction 1 as [|e es Hs IH Hall]; [exists 0%nat; split; [done|split; [done|by intros [|i] x]]|].
  destruct (decide (at_or_before t e)) as [Ht|Ht].
  - destruct IH as (k & Hf & Hk & Hp). exists (S k). rewrite filter_cons_True, Hf by done.
    split; [done|]. split; [simpl; lia|]. intros [|i] x Hx; simplify_eq/=.
    + by apply Z.leb_le.
    + apply (Hp _ _ Hx).
  - exists 0%nat. unfold at_or_before in Ht. rewrite filter_cons_False by done. split.
    + cbn [take]. clear Hs IH. induction Hall as [|x es Hx _ IH]; [done|].
      rewrite filter_cons_False by (unfold by_time, at_or_before in *; lia). exact IH.
    + split; [lia|]. intros i x Hx. apply Z.leb_gt.
      assert (Hge : timestamp_ms e <= timestamp_ms x).
      { destruct i as [|i]; simplify_eq/=; [lia|]. exact (Forall_lookup_1 _ _ _ _ Hall Hx). }
      lia.
Qed.

(** ** What was appended is read back *)
Section ReadBack.
Context `{Primitives}.

Definition block_len (key : option bytes) : nat := match key with None => 12 | Some _ => 44 end.

Definition entry_ok (e : IndexEntry) : Prop := in_u64 (offset e) /\ in_u32 (timestamp_ms e).

Definition good_block (key : option bytes) (i : Z) (e : IndexEntry) (blk : bytes) : Prop :=
  length blk = block_len key /\
  (forall r, read_turn key i (blk ++ r) = Some (e, r)) /\
  (forall m : nat, (m < block_len key)%nat -> read_turn key i (take m blk) = None).

Lemma encode_entry_length e : length (encode_entry e) = ENTRY_PLAINTEXT_LEN.
Proof. unfold encode_entry. by rewrite length_app, !le_bytes_length. Qed.

Lemma decode_encode_entry e : entry_ok e -> decode_entry (encode_entry e) = e.
Proof.
  intros [Ho Ht]. unfold decode_entry, encode_entry.
  rewrite take_app_length', drop_app_length' by (by rewrite le_bytes_length).
  rewrite !le_value_bytes_id by (int_unfold; lia). by destruct e.
Qed.

Lemma plain_block i e : entry_ok e -> good_block None i e (encode_entry e).
Proof.
  intros He. split; [apply encode_entry_length|]. split.
  - intros r. unfold read_turn. rewrite read_exact_app by apply encode_entry_length.
    by rewrite decode_encode_entry.
  - intros m Hm. unfold read_turn. rewrite read_exact_short; [done|].
    rewrite length_take. simpl in Hm. unfold ENTRY_PLAINTEXT_LEN. lia.
Qed.

Lemma entry_len_value :
  le_value (le_bytes 4 (Z.of_nat ENTRY_PLAINTEXT_LEN)) = Z.of_nat ENTRY_PLAINTEXT_LEN.
Proof. done. Qed.

Lemma sealed_block nonce e key i blk :
  entry_ok e -> build_encrypted_block nonce (encode_entry e) key i = inr blk ->
  good_block (Some key) i e blk.
Proof.
  intros He Hb. unfold build_encrypted_block in Hb.
  destruct (aes_gcm_encrypt_raw _ _ _ _) as [|ct] eqn:Hc; [done|].
  assert (blk = le_bytes 4 (Z.of_nat ENTRY_PLAINTEXT_LEN) ++ nonce ++ ct) as -> by congruence.
  destruct (encrypt_raw_inv _ _ _ _ _ Hc) as (_ & Hn & _).
  pose proof (encrypt_raw_length _ _ _ _ _ Hc) as Hl. rewrite encode_entry_length in Hl.
  split; [by rewrite !length_app, le_bytes_length, Hn, Hl|]. split.
  - intros r. unfold read_turn, read_encrypted_block. rewrite <-!app_assoc.
    rewrite read_exact_app by apply le_bytes_length. rewrite entry_len_value.
    rewrite Z.eqb_refl. cbn [negb]. rewrite read_exact_app by done.
    rewrite read_exact_app by (rewrite Nat2Z.id; done).
    rewrite (decrypt_encrypt_raw _ _ _ _ _ Hc), encode_entry_length, Nat.eqb_refl.
    cbn [negb]. by rewrite decode_encode_entry.
  - intros m Hm. unfold block_len in Hm. unfold read_turn, read_encrypted_block.
    destruct (decide (m < 4)%nat) as [H4|H4]; [rewrite read_exact_short; [done|rewrite length_take; lia]|].
    rewrite take_app_ge by (rewrite le_bytes_length; lia).
    rewrite read_exact_app by apply le_bytes_length. rewrite entry_len_value.
    rewrite Z.eqb_refl, le_bytes_length. cbn [negb].
    destruct (decide (m - 4 < 12)%nat) as [H12|H12].
    + rewrite read_exact_short; [done|]. rewrite length_take. unfold NONCE_LEN. lia.
    + rewrite take_app_ge by lia. rewrite read_exact_app by done.
      rewrite read_exact_short; [done|]. rewrite length_take, Nat2Z.id. unfold ENTRY_PLAINTEXT_LEN. lia.
Qed.

(** Blocks in order, from position [i]. *)
Inductive blocks (key : option bytes) : Z -> list IndexEntry -> bytes -> Prop :=
| blocks_nil i : blocks key i [] []
| blocks_cons i e es blk b :
    good_block key i e blk -> blocks key (i + 1) es b -> blocks key i (e :: es) (blk ++ b).

Lemma blocks_snoc key i es b e blk :
  blocks key i es b -> good_block key (i + Z.of_nat (length es)) e blk ->
  blocks key i (es ++ [e]) (b ++ blk).
Proof.
  intros Hb. revert e blk. induction Hb as [i|i e' es blk' b Hg Hb IH]; intros e blk Hn.
  - rewrite Z.add_0_r in Hn. rewrite <-(app_nil_r blk). simpl. rewrite app_nil_r.
    rewrite <-(app_nil_r blk). constructor; [done|constructor].
  - rewrite <-app_assoc. simpl. constructor; [done|]. apply IH.
    replace (i + 1 + Z.of_nat (length es)) with (i + Z.of_nat (length (e' :: es))) by (simpl; lia). done.
Qed.

Lemma block_len_pos key : (12 <= block_len key)%nat.
Proof. destruct key; simpl; lia. Qed.

Lemma blocks_length key i es b : blocks key i es b -> length b = (length es * block_len key)%nat.
Proof.
  induction 1 as [|i e es blk b [Hl _] _ IH]; [done|]. rewrite length_app, Hl, IH. simpl. lia.
Qed.

(** Reading a cut of them yields the entries of the whole blocks. *)
Lemma read_loop_blocks key i es b n fuel :
  blocks key i es b -> 0 <= i -> i + Z.of_nat (length es) < 2 ^ 64 ->
  (length (take n b) < fuel)%nat ->
  read_loop fuel key i (take n b) = take (n / block_len key) es.
Proof.
  intros Hb. revert n fuel. pose proof (block_len_pos key) as Hpos.
  induction Hb as [i|i e es blk b (Hl & Hr & Hc) Hb IH]; intros n fuel Hi Hlen Hf.
  - rewrite !take_nil. destruct fuel as [|fuel]; [done|]. cbn [read_loop].
    destruct key; done.
  - destruct fuel as [|fuel]; [lia|]. cbn [read_loop length] in *.
    destruct (decide (n < block_len key)%nat) as [Hn|Hn].
    + rewrite take_app_le by lia. rewrite Hc by done. by rewrite Nat.div_small.
    + rewrite take_app_ge in * by lia. rewrite Hr, Hl in *. rewrite Z.min_l by lia.
      replace n with ((n - block_len key) + 1 * block_len key)%nat at 2 by lia.
      rewrite Nat.div_add, Nat.add_1_r by lia. cbn [take]. f_equal. apply IH; [lia..|].
      rewrite length_app in Hf. lia.
Qed.

(** A run of [append]s, each with its nonce. *)
Fixpoint append_all (nes : list (bytes * IndexEntry)) (w : IndexWriter) : IndexError + IndexWriter :=
  match nes with
  | [] => inr w
  | (n, e) :: nes =>
      match append n true e w with (inl err, _) => inl err | (inr _, w') => append_all nes w' end
  end.

(** The writer holds a header and the blocks of what it was given. *)
Definition holds_entries (key : option bytes) (es : list IndexEntry) (w : IndexWriter) : Prop :=
  ikey w = key /\ next_seq w = Z.of_nat (length es) /\ buffered w = [] /\
  exists b, ifile w = LFI_MAGIC ++ [LFI_VERSION] ++ b /\ blocks key 0 es b.

Lemma create_holds key : holds_entries key [] (create key).
Proof. split_and!; [done..|]. exists []. split; [done|constructor]. Qed.

Lemma append_holds key es w n e w' :
  holds_entries key es w -> entry_ok e -> Z.of_nat (length es) + 1 < 2 ^ 64 ->
  append n true e w = (inr (), w') -> holds_entries key (es ++ [e]) w'.
Proof.
  intros (Hk & Hs & Hbuf & b & Hf & Hb) He Hlen Ha. unfold append in Ha. rewrite Hbuf in Ha.
  assert (Hg : exists blk, good_block key (Z.of_nat (length es)) e blk /\
    w' = mkWriter (ifile w ++ blk) [] (ikey w) (Z.min (next_seq w + 1) (2 ^ 64 - 1))).
  { rewrite Hk in *. destruct key as [k|].
    - destruct (build_encrypted_block _ _ _ _) as [|blk] eqn:Hblk; [done|]. injection Ha as <-.
      exists blk. split; [|done]. rewrite Hs in Hblk. by eapply sealed_block.
    - injection Ha as <-. exists (encode_entry e). split; [by apply plain_block|done]. }
  destruct Hg as (blk & Hg & ->). split_and!; [done| |done|].
  - simpl. rewrite Hs, length_app, Z.min_l by lia. simpl. lia.
  - exists (b ++ blk). split; [simpl; by rewrite Hf, <-!app_assoc|]. apply blocks_snoc; [done|].
    by rewrite Z.add_0_l.
Qed.

Lemma append_all_holds key es w nes w' :
  holds_entries key es w -> Forall (fun ne => entry_ok ne.2) nes ->
  Z.of_nat (length es + length nes) < 2 ^ 64 ->
  append_all nes w = inr w' -> holds_entries key (es ++ (snd <$> nes)) w'.
Proof.
  intros Hw Hok. revert es w Hw. induction Hok as [|[n e] nes He _ IH]; intros es w Hw Hl Ha.
  - simpl in *. simplify_eq. by rewrite app_nil_r.
  - cbn [append_all length] in *. destruct (append n true e w) as [[err|[]] w1] eqn:H1; [done|].
    rewrite fmap_cons, (cons_middle _ es), app_assoc. apply (IH _ w1); [|rewrite length_app; simpl; lia|done].
    eapply append_holds; [done..|lia|done].
Qed.

Lemma read_all_holds key es w n :
  holds_entries key es w -> Z.of_nat (length es) < 2 ^ 64 ->
  read_all (Content (take n (ifile w))) key = inr (take ((n - 5) / block_len key) es).
Proof.
  intros (_ & _ & _ & b & Hf & Hb) Hl. rewrite Hf. unfold read_all.
  destruct (decide (n < 5)%nat) as [Hn|Hn].
  - rewrite read_exact_short by (rewrite length_take; simpl; lia).
    replace (n - 5)%nat with 0%nat by lia. rewrite Nat.div_0_l by (pose proof (block_len_pos key); lia).
    done.
  - rewrite app_assoc, take_app_ge by (simpl; lia). rewrite read_exact_app by done.
    rewrite (read_loop_blocks key 0 es b) by (done || lia). done.
Qed.

Lemma read_all_whole key es w :
  holds_entries key es w -> Z.of_nat (length es) < 2 ^ 64 -> read_all (Content (ifile w)) key = inr es.
Proof.
  intros Hw Hl. rewrite <-(firstn_all (ifile w)). rewrite (read_all_holds key es) by done.
  destruct Hw as (_ & _ & _ & b & Hf & Hb). rewrite Hf, !length_app, (blocks_length _ _ _ _ Hb).
  replace (_ - 5)%nat with (length es * block_len key)%nat by (simpl; lia).
  rewrite Nat.div_mul by (pose proof (block_len_pos key); lia). by rewrite firstn_all.
Qed.
End ReadBack.

(** ** Seeking *)
Section Seek.
Context `{Primitives}.

Lemma take_last {A} (l : list A) k : (k < length l)%nat -> last (take (S k) l) = l !! k.
Proof.
  intros Hk. rewrite last_lookup, length_take, Nat.min_l by lia. simpl.
  by rewrite lookup_take_lt by lia.
Qed.

(** The entry a seek should land on, with its position. *)
Definition landing (t : Z) (es : list IndexEntry) : option SeekHit :=
  let before := filter (at_or_before t) es in
  e ← last before; Some (mkHit (offset e) (Z.of_nat (length before) - 1) (timestamp_ms e)).

Lemma seek_entries es t key sidecar :
  read_all sidecar key = inr es -> StronglySorted by_time es ->
  seek sidecar t (bool_decide (is_Some key)) key = inr (landing t es).
Proof.
  intros Hr Hs. unfold seek, landing.
  assert ((if bool_decide (is_Some key)
    then match key with Some k => Some (read_all sidecar (Some k)) | None => None end
    else Some (read_all sidecar None)) = Some (inr es)) as ->.
  { destruct key as [k|]; [rewrite bool_decide_eq_true_2 by eauto|]; by rewrite <-Hr. }
  destruct (sorted_split es t Hs) as (k & Hf & Hk). rewrite Hf.
  destruct es as [|e es]; [by rewrite take_nil|].
  rewrite (partition_point_spec _ _ _ Hk). destruct Hk as [Hk _].
  destruct k as [|k]; [done|]. rewrite take_last by lia.
  destruct (lookup_lt_is_Some_2 (e :: es) k) as [x Hx]; [lia|]. rewrite Hx.
  cbn [mbind option_bind]. rewrite length_take, Nat.min_l by lia. do 3 f_equal. lia.
Qed.

(** A sidecar written entry by entry and cut at any byte is read back as the entries
    of its whole blocks, in the clear and sealed; seeking in it finds the last of them at
    or before the target time, with its position. *)
Theorem seek_finds_latest key nes w n t :
  append_all nes (create key) = inr w -> Forall (fun ne => entry_ok ne.2) nes ->
  Z.of_nat (length nes) < 2 ^ 64 -> StronglySorted by_time (snd <$> nes) ->
  seek (Content (take n (ifile w))) t (bool_decide (is_Some key)) key =
    inr (landing t (take ((n - 5) / block_len key) (snd <$> nes))).
Proof.
  intros Ha Hok Hl Hs.
  pose proof (append_all_holds key [] _ _ _ (create_holds key) Hok Hl Ha) as Hw.
  apply seek_entries; [apply read_all_holds; [done|by rewrite length_fmap]|].
  set (k := ((n - 5) / block_len key)%nat). rewrite <-(take_drop k (snd <$> nes)) in Hs.
  by apply StronglySorted_app_1_l in Hs.
Qed.

End Seek.

Definition demo_entries : list (bytes * IndexEntry) :=
  [(demo_nonce, mkEntry 65 500); (demo_nonce, mkEntry 108 1000); (demo_nonce, mkEntry 151 2000)].

Lemma seek_finds_latest_witness :
  exists w, append_all demo_entries (create (Some demo_key)) = inr w /\
  seek (Content (take 130 (ifile w))) 1500 true (Some demo_key) = inr (Some (mkHit 108 1 1000)).
Proof.
  destruct (append_all demo_entries (create (Some demo_key))) as [|w] eqn:Hw;
    [vm_compute in Hw; discriminate|].
  exists w. split; [done|].
  change true with (bool_decide (is_Some (Some demo_key))).
  rewrite (seek_finds_latest (Some demo_key) demo_entries w 130 1500 Hw).
  - vm_compute. reflexivity.
  - apply (bool_decide_unpack _). by vm_compute.
  - reflexivity.
  - repeat (constructor; [|apply (bool_decide_unpack _); by vm_compute]). constructor.
Defined.
