(* ===== verification/RecText.v ===== *)
(** * The text of a recording ([recorder/mod.rs], [recorder/index_sidecar.rs])

    What the recorder writes is asciinema v2: a header object and one array per event.
    The lines are composed by hand in the source; here they are lists of characters.
    [json_escape] is checked against a reader of JSON string literals. *)
From Stdlib Require Import ZArith Lia.
From Stdlib Require Import Floats.SpecFloat.
From stdpp Require Import prelude gmap strings list.
From S2P Require Import Prelude Text Json Crypto RecFormat.

Open Scope Z_scope.

Module RecText.

(** [RecordDirection]. *)
Inductive RecordDirection := Output | Input.

#[export] Instance RecordDirection_eq_dec : EqDecision RecordDirection.
Proof. solve_decision. Defined.

(** [{cp:04x}] of a 16-bit value. *)
Definition hex4 (v : Z) : list Z :=
  [hex_digit (v / 4096 mod 16); hex_digit (v / 256 mod 16); hex_digit (v / 16 mod 16); hex_digit (v mod 16)].

Definition quote : Z := 34.
Definition backslash : Z := 92.

(** Control characters, bidirectional overrides and isolates. *)
Definition must_escape (c : Z) : bool :=
  (c <? 32) || Utf8.within 8234 8238 c || Utf8.within 8294 8297 c.

Definition escape_char (c : Z) : list Z :=
  if c =? 34 then [backslash; 34]
  else if c =? 92 then [backslash; 92]
  else if c =? 10 then [backslash; 110]
  else if c =? 13 then [backslash; 114]
  else if c =? 9 then [backslash; 116]
  else if c =? 8 then [backslash; 98]
  else if c =? 12 then [backslash; 102]
  else if must_escape c then
    if c <=? 65535 then backslash :: 117 :: hex4 c
    else
      let v := c - 65536 in
      (backslash :: 117 :: hex4 (55296 + v / 1024)) ++ (backslash :: 117 :: hex4 (56320 + v mod 1024))
  else [c].

Definition json_escape (s : list Z) : list Z := s ≫= escape_char.

Fixpoint zero_padded (width : nat) (n : Z) : list Z :=
  match width with O => [] | S w => zero_padded w (n / 10) ++ [48 + n mod 10] end.

(** [m * 2 ^ e], [e < 0], as a multiple of 10^-6, to nearest, ties to even. *)
Definition micros_of (m : positive) (e : Z) : Z :=
  let n := Z.pos m * 1000000 in
  let d := 2 ^ (- e) in
  let q := n / d in
  let r := n mod d in
  if (2 * r <? d) || ((2 * r =? d) && Z.even q) then q else q + 1.

Definition sign_prefix (s : bool) : list Z := if s then [45] else [].

(** [format_delta]: [t] is finite wherever the recorder calls it. *)
Definition format_delta (t : f64) : list Z :=
  match t with
  | S754_zero _ => [48]
  | S754_finite s m e =>
      if (0 <=? e) || (Z.pos m mod 2 ^ (- e) =? 0) then
        sign_prefix s ++ decimal (if 0 <=? e then Z.pos m * 2 ^ e else Z.pos m / 2 ^ (- e))
      else
        let q := micros_of m e in
        let formatted := sign_prefix s ++ decimal (q / 1000000) ++ [46] ++ zero_padded 6 (q mod 1000000) in
        trim_end_by (fun c => c =? 46) (trim_end_by (fun c => c =? 48) formatted)
  | S754_infinity s => sign_prefix s ++ lit "inf"
  | S754_nan => lit "NaN"
  end.

(** [duration_since(started_at)]: nanosecond clocks, zero when time went backwards. *)
Definition delta_secs (now started_at : Z) : f64 :=
  SFdiv 53 1024 (f64_of_Z (Z.max 0 (now - started_at) / 1000)) (f64_of_Z 1000000).

(** [t as u32]: truncation that saturates; a NaN becomes zero. *)
Definition as_u32 (t : f64) : Z :=
  match t with
  | S754_finite s m e =>
      let a := if 0 <=? e then Z.pos m * 2 ^ e else Z.pos m / 2 ^ (- e) in
      if s then 0 else Z.min a (2 ^ 32 - 1)
  | S754_infinity false => 2 ^ 32 - 1
  | _ => 0
  end.

Definition timestamp_ms_of (delta : f64) : Z :=
  as_u32 (f64_clamp (SFmul 53 1024 delta (f64_of_Z 1000)) (f64_of_Z 0) (f64_of_Z 4294967295)).

Definition kind_char (k : RecordDirection) : Z := match k with Output => 111 | Input => 105 end.

(** [{"version":2,...}] without its newline. *)
Definition header_line (width height timestamp_secs : Z) (shell_label : list Z) : list Z :=
  let q := [quote] in
  lit "{" ++ q ++ lit "version" ++ q ++ lit ":2," ++ q ++ lit "width" ++ q ++ lit ":" ++ decimal width ++
  lit "," ++ q ++ lit "height" ++ q ++ lit ":" ++ decimal height ++
  lit "," ++ q ++ lit "timestamp" ++ q ++ lit ":" ++ decimal timestamp_secs ++
  lit "," ++ q ++ lit "env" ++ q ++ lit ":{" ++ q ++ lit "TERM" ++ q ++ lit ":" ++ q ++
  lit "xterm-256color" ++ q ++ lit "," ++ q ++ lit "SHELL" ++ q ++ lit ":" ++ q ++
  json_escape shell_label ++ q ++ lit "}}".

(** [[delta,"o","text"]] without its newline. *)
Definition event_line (delta : f64) (kind : RecordDirection) (payload : list Z) : list Z :=
  lit "[" ++ format_delta delta ++ lit "," ++ [quote; kind_char kind; quote] ++ lit "," ++
  [quote] ++ json_escape payload ++ [quote] ++ lit "]".

End RecText.

Import RecText.

Example format_delta_examples :
  format_delta (delta_secs 2500000000 1000000000) = lit "1.5" /\
  format_delta (delta_secs 1000000000 1000000000) = lit "0" /\
  format_delta (delta_secs 61000000000 1000000000) = lit "60" /\
  format_delta (delta_secs 1000001999 1000000000) = lit "0.000001" /\
  format_delta (delta_secs 1012345678 1000000000) = lit "0.012345" /\
  timestamp_ms_of (delta_secs 2500000000 1000000000) = 1500.
Proof. by vm_compute. Qed.

(** ** A reader of JSON string literals *)
Definition hex_value (c : Z) : option Z :=
  if Utf8.within 48 57 c then Some (c - 48)
  else if Utf8.within 97 102 c then Some (c - 87)
  else if Utf8.within 65 70 c then Some (c - 55)
  else None.

Definition hex_value4 (a b c d : Z) : option Z :=
  a ← hex_value a; b ← hex_value b; c ← hex_value c; d ← hex_value d;
  Some (a * 4096 + b * 256 + c * 16 + d).

Definition simple_escape (c : Z) : option Z :=
  if c =? 34 then Some 34 else if c =? 92 then Some 92 else if c =? 47 then Some 47
  else if c =? 98 then Some 8 else if c =? 102 then Some 12 else if c =? 110 then Some 10
  else if c =? 114 then Some 13 else if c =? 116 then Some 9 else None.

(** The characters up to the closing quote, and what follows it (RFC 8259, section 7;
    escaped surrogates, which the writer never produces, are refused). *)
Fixpoint read_string (s : list Z) : option (list Z * list Z) :=
  match s with
  | [] => None
  | c :: r =>
      if c =? quote then Some ([], r)
      else if c =? backslash then
        match r with
        | d :: r1 =>
            if d =? 117 then
              match r1 with
              | x1 :: x2 :: x3 :: x4 :: r2 =>
                  match hex_value4 x1 x2 x3 x4 with
                  | Some v =>
                      if Utf8.within 55296 57343 v then None
                      else '(t, rest) ← read_string r2; Some (v :: t, rest)
                  | None => None
                  end
              | _ => None
              end
            else
              match simple_escape d with
              | Some v => '(t, rest) ← read_string r1; Some (v :: t, rest)
              | None => None
              end
        | [] => None
        end
      else if c <? 32 then None
      else '(t, rest) ← read_string r; Some (c :: t, rest)
  end.

Lemma hex_value_digit d : 0 <= d < 16 -> hex_value (hex_digit d) = Some d.
Proof.
  intros Hd. unfold hex_value, hex_digit, Utf8.within.
  repeat (case_match; try lia); f_equal; lia.
Qed.

Lemma hex_value4_hex4 v : 0 <= v < 65536 ->
  hex_value4 (hex_digit (v / 4096 mod 16)) (hex_digit (v / 256 mod 16)) (hex_digit (v / 16 mod 16))
    (hex_digit (v mod 16)) = Some v.
Proof.
  intros Hv. unfold hex_value4.
  rewrite !hex_value_digit by (apply Z.mod_pos_bound; lia). cbn [mbind option_bind]. f_equal.
  Z.to_euclidean_division_equations. lia.
Qed.

(** One escaped character is read as itself. *)
Lemma read_escape_char c r :
  char_ok c ->
  read_string (escape_char c ++ r) = '(t, rest) ← read_string r; Some (c :: t, rest).
Proof.
  intros Hc. unfold escape_char.
  destruct (c =? 34) eqn:E1; [apply Z.eqb_eq in E1 as ->; done|].
  destruct (c =? 92) eqn:E2; [apply Z.eqb_eq in E2 as ->; done|].
  destruct (c =? 10) eqn:E3; [apply Z.eqb_eq in E3 as ->; done|].
  destruct (c =? 13) eqn:E4; [apply Z.eqb_eq in E4 as ->; done|].
  destruct (c =? 9) eqn:E5; [apply Z.eqb_eq in E5 as ->; done|].
  destruct (c =? 8) eqn:E6; [apply Z.eqb_eq in E6 as ->; done|].
  destruct (c =? 12) eqn:E7; [apply Z.eqb_eq in E7 as ->; done|].
  destruct (must_escape c) eqn:Em; unfold must_escape, Utf8.within, char_ok in *.
  - assert (0 <= c < 55296) by lia. rewrite (proj2 (Z.leb_le c 65535)) by lia.
    unfold hex4. cbn [app read_string]. change (backslash =? quote) with false.
    change (backslash =? backslash) with true. change (117 =? 117) with true. cbv iota.
    rewrite hex_value4_hex4 by lia. unfold Utf8.within. case_match; [lia|done].
  - cbn [app read_string]. unfold quote, backslash. rewrite E1, E2. case_match; [lia|done].
Qed.

Lemma hex_digit_clean d : must_escape (hex_digit (d mod 16)) = false /\ char_ok (hex_digit (d mod 16)).
Proof.
  pose proof (Z.mod_pos_bound d 16). unfold must_escape, hex_digit, Utf8.within, char_ok.
  case_match; lia.
Qed.

(** Nothing that has to be escaped comes out of the escaping. *)
Lemma escape_char_clean c :
  char_ok c -> Forall (fun d => must_escape d = false /\ char_ok d) (escape_char c).
Proof.
  intros Hc. unfold escape_char.
  destruct (c =? 34); [apply (bool_decide_unpack _); vm_compute; exact I|].
  destruct (c =? 92); [apply (bool_decide_unpack _); vm_compute; exact I|].
  destruct (c =? 10); [apply (bool_decide_unpack _); vm_compute; exact I|].
  destruct (c =? 13); [apply (bool_decide_unpack _); vm_compute; exact I|].
  destruct (c =? 9); [apply (bool_decide_unpack _); vm_compute; exact I|].
  destruct (c =? 8); [apply (bool_decide_unpack _); vm_compute; exact I|].
  destruct (c =? 12); [apply (bool_decide_unpack _); vm_compute; exact I|].
  destruct (must_escape c) eqn:Em; [|by constructor].
  rewrite (proj2 (Z.leb_le c 65535)) by (unfold must_escape, Utf8.within in Em; lia).
  unfold hex4. do 2 (constructor; [split; [done|apply (bool_decide_unpack _); vm_compute; exact I]|]).
  do 4 (constructor; [apply hex_digit_clean|]). constructor.
Qed.

Lemma json_escape_clean s :
  Forall char_ok s -> Forall (fun d => must_escape d = false /\ char_ok d) (json_escape s).
Proof.
  unfold json_escape. induction 1 as [|c s Hc _ IH]; [done|]. rewrite bind_cons.
  apply Forall_app. split; [by apply escape_char_clean|done].
Qed.

(** Every recorded text is one JSON string literal: read by the grammar of RFC 8259 it
    is the text again, whatever follows; and the escaped form holds no control character
    and no bidirectional override or isolate, so it also stays on its line. *)
Theorem json_escape_reads_back s r :
  Forall char_ok s ->
  read_string (json_escape s ++ quote :: r) = Some (s, r) /\
  Forall (fun c => must_escape c = false) (json_escape s).
Proof.
  intros Hs. split.
  - unfold json_escape. induction Hs as [|c s Hc _ IH]; [done|].
    rewrite bind_cons, <-app_assoc, read_escape_char by done. by rewrite IH.
  - eapply Forall_impl; [by apply json_escape_clean|]. by intros d [Hd _].
Qed.

Lemma json_escape_reads_back_witness :
  read_string (json_escape [8238; 34; 27; 233; 10] ++ quote :: lit "]") = Some ([8238; 34; 27; 233; 10], lit "]") /\
  Forall (fun c => must_escape c = false) (json_escape [8238; 34; 27; 233; 10]).
Proof.
  apply (json_escape_reads_back [8238; 34; 27; 233; 10] (lit "]")).
  apply (bool_decide_unpack _). vm_compute. exact I.
Defined.

(** ** Recorded lines stay on their line *)
Definition printable (c : Z) : Prop := 32 <= c /\ char_ok c.

#[export] Instance printable_dec c : Decision (printable c).
Proof. unfold printable. apply _. Defined.

Lemma printable_digit n : printable (48 + n mod 10).
Proof. pose proof (Z.mod_pos_bound n 10). unfold printable, char_ok. lia. Qed.

Lemma decimal_printable n : Forall printable (decimal n).
Proof.
  unfold decimal. generalize (S (Z.to_nat (Z.log2 n))) as fuel.
  assert (Hg : forall fuel n acc, Forall printable acc -> Forall printable (decimal_loop fuel n acc)).
  { clear n. induction fuel as [|fuel IH]; intros n acc Ha; [done|]. cbn [decimal_loop].
    assert (Forall printable ((48 + n mod 10) :: acc)) by (constructor; [apply printable_digit|done]).
    case_match; auto. }
  intros fuel. by apply Hg.
Qed.

Lemma zero_padded_printable k n : Forall printable (zero_padded k n).
Proof.
  revert n. induction k as [|k IH]; intros n; [constructor|]. cbn [zero_padded].
  apply Forall_app. split; [done|]. constructor; [apply printable_digit|constructor].
Qed.

Lemma trim_start_Forall (P : Z -> Prop) p l : Forall P l -> Forall P (trim_start_by p l).
Proof. induction 1 as [|x l Hx Hl IH]; simpl; [done|]. case_match; [done|by constructor]. Qed.

Lemma trim_end_Forall (P : Z -> Prop) p l : Forall P l -> Forall P (trim_end_by p l).
Proof.
  intros Hl. unfold trim_end_by. apply Forall_rev, trim_start_Forall, Forall_rev, Hl.
Qed.

Ltac printable_literal := apply (bool_decide_unpack _); vm_compute; exact I.

Lemma sign_printable s : Forall printable (sign_prefix s).
Proof. destruct s; printable_literal. Qed.

#[export] Hint Resolve decimal_printable zero_padded_printable sign_printable : lfs.

Lemma format_delta_printable t : Forall printable (format_delta t).
Proof.
  destruct t as [s|s| |s m e]; cbn [format_delta].
  - printable_literal.
  - apply Forall_app. split; [auto with lfs|printable_literal].
  - printable_literal.
  - case_match; [apply Forall_app; split; auto with lfs|].
    apply trim_end_Forall, trim_end_Forall. apply Forall_app. split; [auto with lfs|].
    apply Forall_app. split; [auto with lfs|]. constructor; [|auto with lfs].
    apply (bool_decide_unpack _). vm_compute. exact I.
Qed.

Lemma escaped_printable s : Forall char_ok s -> Forall printable (json_escape s).
Proof.
  intros Hs. eapply Forall_impl; [by apply json_escape_clean|]. intros d [Hd Hok].
  split; [|done]. unfold must_escape in Hd. lia.
Qed.

Ltac printable_piece :=
  match goal with
  | |- Forall printable (_ ++ _) => apply Forall_app; split
  | |- Forall printable (json_escape _) => by apply escaped_printable
  | |- Forall printable (decimal _) => apply decimal_printable
  | |- Forall printable (format_delta _) => apply format_delta_printable
  | |- Forall printable (lit _) => printable_literal
  | |- Forall printable [quote] => printable_literal
  end.

Lemma header_line_printable w h t shell :
  Forall char_ok shell -> Forall printable (header_line w h t shell).
Proof. intros Hs. unfold header_line. cbv zeta. repeat printable_piece. Qed.

Lemma event_line_printable t k payload :
  Forall char_ok payload -> Forall printable (event_line t k payload).
Proof.
  intros Hs. unfold event_line. repeat printable_piece. destruct k; printable_literal.
Qed.

(** A printable line with its newline is a record that plays as the line. *)
Lemma printable_line l :
  Forall printable l -> Forall char_ok l /\ Reader.newline ∉ l /\ 13 ∉ l /\ Forall char_ok (l ++ [Reader.newline]).
Proof.
  intros Hl. assert (Hok : Forall char_ok l) by (eapply Forall_impl; [exact Hl|]; by intros c [_ Hc]).
  rewrite Forall_forall in Hl. split_and!; [done| | |].
  - intros Hin. destruct (Hl _ Hin) as [Hc _]. unfold Reader.newline in Hc. lia.
  - intros Hin. destruct (Hl _ Hin). lia.
  - apply Forall_app. split; [done|]. apply (bool_decide_unpack _). vm_compute. exact I.
Qed.

Lemma timestamp_ms_range d : in_u32 (timestamp_ms_of d).
Proof.
  unfold timestamp_ms_of. generalize (f64_clamp (SFmul 53 1024 d (f64_of_Z 1000)) (f64_of_Z 0) (f64_of_Z 4294967295)).
  intros t. unfold in_u32. destruct t as [s|[]| |[] m e]; cbn [as_u32]; try lia.
  case_match; [|split; [|lia]; apply Z.min_glb; [apply Z.div_pos; lia|lia]].
  split; [|lia]. apply Z.min_glb; lia.
Qed.

(** Whatever bytes the terminal sends, the record written for them is one line of
    well-formed UTF-8 text: it decodes, it ends in its only line break, and it holds no
    other control character and no bidirectional override, so no output can break the
    framing of a recording or of the line it is shown on. *)
Theorem recorded_line_is_text delta kind chunk :
  let line := event_line delta kind (Utf8.lossy chunk) in
  Forall char_ok (line ++ [Reader.newline]) /\
  Utf8.decode (Utf8.encode (line ++ [Reader.newline])) = Some (line ++ [Reader.newline]) /\
  Forall printable line /\ Reader.newline ∉ line /\
  Reader.trim_newlines (line ++ [Reader.newline]) = line /\
  Forall (fun c => must_escape c = false) (json_escape (Utf8.lossy chunk)).
Proof.
  intros line. assert (Hp : Forall printable line) by apply event_line_printable, lossy_ok.
  destruct (printable_line line Hp) as (_ & Hn & _ & Hok). split_and!; [done|by apply utf8_decode_encode|done..| |].
  - by apply trim_newline_line.
  - eapply Forall_impl; [apply json_escape_clean, lossy_ok|]. by intros c [? _].
Qed.
