(* ===== verification/StorageCap.v ===== *)
(** * The disk cap of the recordings tree ([recorder/storage_cap.rs])

    The walk of the tree sees what the operating system shows of it ([dir_view]); the
    sweep removes the oldest files until the total is back under the cap, skipping the
    files that are being written and those that cannot be removed. *)
From Stdlib Require Import ZArith Lia.
From stdpp Require Import prelude gmap strings list sorting.
From S2P Require Import Prelude Prog.

Open Scope Z_scope.

Module StorageCap.

Record EvictionOutcome := mkOutcome {
  files_evicted : Z;
  bytes_reclaimed : Z;
  used_after : Z
}.

(** [mtime] is [None] when the file system has no usable one. *)
Record WalkedEntry := mkEntry { path : string; size_bytes : Z; mtime : option Z }.

(** What [symlink_metadata] says of a directory entry. *)
Inductive kind := Dir | File (size : Z) (modified : option Z) | Other.

(** A readable directory lists its entries, some of which cannot be read
    ([None], dropped by [flatten]); [meta] is [None] when the entry cannot be statted. *)
Record FileEntry := mkFile { f_path : string; f_meta : option kind }.
Record SessionEntry := mkSession {
  s_meta : option kind;
  s_inner : option (list (option FileEntry))
}.
Inductive dir_view := RootMissing | RootUnreadable | Root (entries : list (option SessionEntry)).

Inductive Error := ReadDir.

Definition file_entry (e : option FileEntry) : list WalkedEntry :=
  match e with
  | Some (mkFile p (Some (File n m))) => [mkEntry p n m]
  | _ => []
  end.

Definition session_entry (e : option SessionEntry) : list WalkedEntry :=
  match e with
  | Some (mkSession (Some Dir) (Some inner)) => inner ≫= file_entry
  | _ => []
  end.

Definition collect_entries (root : dir_view) : Error + list WalkedEntry :=
  match root with
  | RootMissing => inr []
  | RootUnreadable => inl ReadDir
  | Root entries => inr (entries ≫= session_entry)
  end.

(** [Iterator::sum] on [u64]. *)
Definition total (es : list WalkedEntry) : Z := foldl (fun n e => wrap_u64 (n + size_bytes e)) 0 es.

Definition storage_used (root : dir_view) : Error + Z :=
  match collect_entries root with inl e => inl e | inr es => inr (total es) end.

(** The comparator of [sort_by]: an unknown time is older than every known one. *)
Definition compare (a b : WalkedEntry) : comparison :=
  match mtime a, mtime b with
  | None, None => Eq
  | None, Some _ => Lt
  | Some _, None => Gt
  | Some x, Some y => Z.compare x y
  end.

Definition not_after (a b : WalkedEntry) : bool :=
  match compare a b with Gt => false | _ => true end.

(** [sort_by] is a stable sort. *)
Fixpoint insert_entry (a : WalkedEntry) (l : list WalkedEntry) : list WalkedEntry :=
  match l with
  | [] => [a]
  | b :: l' => if not_after a b then a :: l else b :: insert_entry a l'
  end.

Definition sort_entries (l : list WalkedEntry) : list WalkedEntry := foldr insert_entry [] l.

Definition U32_MAX : Z := 2 ^ 32 - 1.
Definition U64_MAX : Z := 2 ^ 64 - 1.

Definition is_active (active : list string) (e : WalkedEntry) : bool :=
  existsb (fun p => bool_decide (p = path e)) active.

(** The loop of [enforce_storage_cap]. *)
Fixpoint evict (entries : list WalkedEntry) (cap_bytes : Z) (active : list string)
    (used evicted reclaimed : Z) (o : Os) : EvictionOutcome * Os :=
  match entries with
  | [] => (mkOutcome evicted reclaimed used, o)
  | e :: entries =>
      if used <=? cap_bytes then (mkOutcome evicted reclaimed used, o)
      else if is_active active e then evict entries cap_bytes active used evicted reclaimed o
      else
        match Os.remove_file (path e) o with
        | (inr _, o') =>
            evict entries cap_bytes active (Z.max 0 (used - size_bytes e))
              (Z.min (evicted + 1) U32_MAX) (Z.min (reclaimed + size_bytes e) U64_MAX) o'
        | (inl _, o') => evict entries cap_bytes active used evicted reclaimed o'
        end
  end.

Definition enforce_storage_cap (root : dir_view) (cap_bytes : Z) (active : list string) (o : Os) :
    (Error + EvictionOutcome) * Os :=
  match collect_entries root with
  | inl e => (inl e, o)
  | inr entries =>
      let used := total entries in
      if used <=? cap_bytes then (inr (mkOutcome 0 0 used), o)
      else
        let '(out, o') := evict (sort_entries entries) cap_bytes active used 0 0 o in
        (inr out, o')
  end.

Fixpoint clear (entries : list WalkedEntry) (active : list string) (removed : Z) (o : Os) : Z * Os :=
  match entries with
  | [] => (removed, o)
  | e :: entries =>
      if is_active active e then clear entries active removed o
      else
        match Os.remove_file (path e) o with
        | (inr _, o') => clear entries active (Z.min (removed + 1) U32_MAX) o'
        | (inl _, o') => clear entries active removed o'
        end
  end.

Definition clear_all (root : dir_view) (active : list string) (o : Os) : (Error + Z) * Os :=
  match collect_entries root with
  | inl e => (inl e, o)
  | inr entries => let '(n, o') := clear entries active 0 o in (inr n, o')
  end.

End StorageCap.

Import StorageCap.

(** ** Sorting *)
Definition older (a b : WalkedEntry) : Prop := not_after a b = true.

Lemma older_total a b : not_after a b = false -> older b a.
Proof.
  unfold older, not_after, compare. destruct (mtime a) as [x|], (mtime b) as [y|]; try done.
  rewrite (Z.compare_antisym x y). by destruct (x ?= y).
Qed.

#[export] Instance older_trans : Transitive older.
Proof.
  intros a b c. unfold older, not_after, compare.
  destruct (mtime a) as [x|], (mtime b) as [y|], (mtime c) as [z|]; try done.
  intros H1 H2. destruct (Z.compare_spec x y), (Z.compare_spec y z), (Z.compare_spec x z); (done || lia).
Qed.

Lemma insert_permutation a l : insert_entry a l ≡ₚ a :: l.
Proof.
  induction l as [|b l IH]; [done|]. cbn [insert_entry]. destruct (not_after a b); [done|].
  rewrite IH. apply Permutation_swap.
Qed.

Lemma sort_permutation l : sort_entries l ≡ₚ l.
Proof. induction l as [|a l IH]; [done|]. simpl. by rewrite insert_permutation, IH. Qed.

Lemma insert_sorted a l : StronglySorted older l -> StronglySorted older (insert_entry a l).
Proof.
  induction 1 as [|b l Hl IH Hall]; [repeat constructor|]. cbn [insert_entry].
  destruct (not_after a b) eqn:E.
  - constructor; [by constructor|]. constructor; [done|].
    eapply Forall_impl; [exact Hall|]. intros x Hx. simpl. by transitivity b.
  - constructor; [done|]. rewrite insert_permutation. constructor; [by apply older_total|done].
Qed.

Lemma sort_sorted l : StronglySorted older (sort_entries l).
Proof. induction l as [|a l IH]; [constructor|]. by apply insert_sorted. Qed.

(** ** The loop *)
Definition sizes (es : list WalkedEntry) : Z := foldr (fun e n => size_bytes e + n) 0 es.
Definition delete_paths (es : list WalkedEntry) (fs : gmap string (list Z)) : gmap string (list Z) :=
  foldl (fun m e => delete (path e) m) fs es.
Definition inactive (active : list string) (e : WalkedEntry) : Prop := is_active active e = false.
#[export] Instance inactive_dec active e : Decision (inactive active e).
Proof. unfold inactive. apply _. Defined.

Lemma remove_file_spec p o :
  match Os.remove_file p o with
  | (inr _, o') => files o' = delete p (files o) /\ (faults o = [] -> faults o' = [])
  | (inl _, o') => files o' = files o /\ (faults o = [] -> faults o' = [] /\ files o !! p = None)
  end.
Proof.
  unfold Os.remove_file, Os.fallible, Os.next_fault.
  destruct (faults o) as [|[] fs] eqn:Hf; cbn; [|done|]; destruct (files o !! p) eqn:Hp; cbn; rewrite ?Hf; done.
Qed.

(** What the loop did: it went through [v] and left [k]; it removed [r]. *)
Record evicted (es : list WalkedEntry) (cap used : Z) (active : list string) (o : Os)
    (v k r : list WalkedEntry) (out : EvictionOutcome) (n rec : Z) (o' : Os) : Prop := {
  ev_split : es = v ++ k;
  ev_sub : r `sublist_of` v;
  ev_inactive : Forall (inactive active) r;
  ev_files : files o' = delete_paths r (files o);
  ev_used : used_after out = used - sizes r;
  ev_count : files_evicted out = Z.min (n + Z.of_nat (length r)) U32_MAX;
  ev_bytes : bytes_reclaimed out = Z.min (rec + sizes r) U64_MAX;
  ev_enough : used_after out <= cap \/ k = [];
  ev_minimal : forall r1 e r2, r = r1 ++ e :: r2 -> cap < used - sizes r1;
  ev_all : faults o = [] -> NoDup (path <$> es) -> Forall (fun e => is_Some (files o !! path e)) es ->
    r = filter (inactive active) v
}.

Lemma sizes_nonneg es : Forall (fun e => 0 <= size_bytes e) es -> 0 <= sizes es.
Proof. induction 1; simpl; lia. Qed.

Lemma Forall_sublist_of {A} (P : A -> Prop) (l1 l2 : list A) :
  l1 `sublist_of` l2 -> Forall P l2 -> Forall P l1.
Proof.
  induction 1 as [|x l1 l2 _ IH|x l1 l2 _ IH]; intros Hf; [done|..];
    apply Forall_cons in Hf as [Hx Hf]; auto.
Qed.

Lemma sublist_sizes r es :
  r `sublist_of` es -> Forall (fun e => 0 <= size_bytes e) es -> sizes r <= sizes es.
Proof.
  induction 1 as [|e r es _ IH|e r es _ IH]; intros Hs; [done|..];
    apply Forall_cons in Hs as [He Hs]; specialize (IH Hs); simpl; lia.
Qed.

Lemma evict_spec es cap active used n rec o :
  Forall (fun e => 0 <= size_bytes e) es -> sizes es <= used ->
  0 <= n <= U32_MAX -> 0 <= rec <= U64_MAX ->
  exists v k r, evicted es cap used active o v k r
    (evict es cap active used n rec o).1 n rec (evict es cap active used n rec o).2.
Proof.
  intros Hs. revert used n rec o. induction Hs as [|e es He Hs IH]; intros used n rec o Hu Hn Hr.
  - exists [], [], []. split; try done; simpl; try lia; [by right|]. by intros [] ? ?.
  - cbn [sizes foldr evict] in *. change (foldr _ 0 es) with (sizes es) in Hu.
    pose proof (sizes_nonneg es Hs) as Hes.
    destruct (used <=? cap) eqn:Hc; [|destruct (is_active active e) eqn:Ha].
    + exists [], (e :: es), []. apply Z.leb_le in Hc.
      split; try done; simpl; try lia. by intros [] ? ?.
    + destruct (IH used n rec o) as (v & k & r & Hev); [lia..|]. exists (e :: v), k, r.
      destruct Hev. split; try done; simpl; [by f_equal|by constructor|].
      intros Hf Hnd Hex. apply NoDup_cons in Hnd as [_ Hnd]. apply Forall_cons in Hex as [_ Hex].
      rewrite filter_cons_False by (unfold inactive; congruence). auto.
    + apply Z.leb_gt in Hc. pose proof (remove_file_spec (path e) o) as Hrm.
      destruct (Os.remove_file (path e) o) as [[err|[]] o1]; destruct Hrm as [Hfs Hfault].
      * destruct (IH used n rec o1) as (v & k & r & Hev); [lia..|]. exists (e :: v), k, r.
        destruct Hev. split; try done; simpl; [by f_equal|by constructor|by rewrite <-Hfs|].
        intros Hf _ Hex. apply Forall_cons in Hex as [Hex _]. destruct (Hfault Hf) as [_ Hno].
        rewrite Hno in Hex. by destruct Hex.
      * rewrite Z.max_r by lia.
        destruct (IH (used - size_bytes e) (Z.min (n + 1) U32_MAX) (Z.min (rec + size_bytes e) U64_MAX) o1)
          as (v & k & r & Hev); [unfold U32_MAX, U64_MAX in *; lia..|].
        exists (e :: v), k, (e :: r). destruct Hev. split; simpl.
        -- by f_equal.
        -- by constructor.
        -- by constructor.
        -- by rewrite ev_files0, Hfs.
        -- lia.
        -- rewrite ev_count0. unfold U32_MAX. lia.
        -- assert (0 <= sizes r).
           { apply sizes_nonneg. subst es. apply Forall_app in Hs as [Hs _].
             by eapply Forall_sublist_of. }
           rewrite ev_bytes0. unfold U64_MAX. lia.
        -- done.
        -- intros [|e1 r1] e2 r2 Hsplit; simplify_eq/=; [lia|].
           specialize (ev_minimal0 _ _ _ eq_refl). lia.
        -- intros Hf Hnd Hex. apply NoDup_cons in Hnd as [Hni Hnd]. apply Forall_cons in Hex as [_ Hex].
           rewrite filter_cons_True by done. f_equal. apply ev_all0; [by apply Hfault|done|].
           apply Forall_forall. intros x Hx. rewrite Hfs, lookup_delete_ne.
           { by eapply Forall_forall in Hex. }
           intros Heq. apply Hni. rewrite Heq. apply list_elem_of_fmap. eauto.
Qed.

#[export] Instance sizes_proper : Proper ((≡ₚ) ==> (=)) sizes.
Proof. intros l1 l2. induction 1; simpl; lia. Qed.

Lemma total_sizes es :
  Forall (fun e => 0 <= size_bytes e) es -> sizes es < 2 ^ 64 -> total es = sizes es.
Proof.
  intros Hs Hl. unfold total.
  assert (Hg : forall n, 0 <= n -> n + sizes es < 2 ^ 64 ->
    foldl (fun n e => wrap_u64 (n + size_bytes e)) n es = n + sizes es).
  { clear Hl. induction Hs as [|e es He Hs IH]; intros n Hn Hl; [simpl; lia|].
    pose proof (sizes_nonneg es Hs) as Hes. cbn [foldl sizes foldr] in *.
    change (foldr _ 0 es) with (sizes es) in *. rewrite wrap_u64_id by (int_unfold; lia).
    rewrite IH by lia. lia. }
  rewrite Hg by lia. lia.
Qed.

Lemma delete_paths_lookup r fs p : (forall e, e ∈ r -> path e <> p) -> delete_paths r fs !! p = fs !! p.
Proof.
  revert fs. induction r as [|e r IH]; intros fs Hr; [done|]. simpl.
  change (foldl _ ?m r) with (delete_paths r m). rewrite IH by set_solver.
  apply lookup_delete_ne. set_solver.
Qed.

Lemma is_active_elem active e : path e ∈ active -> is_active active e = true.
Proof.
  intros He. apply existsb_exists. exists (path e). split; [by apply list_elem_of_In|].
  by apply bool_decide_eq_true_2.
Qed.

(** The sweep removes files in age order and no more than needed.  The walked files
    split into those it went through and newer ones it left; of the former it removed
    some that are not being written, and with a faultless disk all of those; the total it
    reports is what remains; it stops when the total is under the cap or nothing is left
    to try, and before each removal the total was still over the cap.  A file being
    written is never touched. *)
Theorem eviction_oldest_first root cap active o es :
  collect_entries root = inr es -> Forall (fun e => 0 <= size_bytes e) es -> sizes es < 2 ^ 64 ->
  exists out o' v k r, enforce_storage_cap root cap active o = (inr out, o') /\
    v ++ k ≡ₚ es /\ (forall x y, x ∈ v -> y ∈ k -> older x y) /\
    r `sublist_of` v /\ files o' = delete_paths r (files o) /\
    used_after out = sizes es - sizes r /\
    (used_after out <= cap \/ k = []) /\
    (forall r1 e r2, r = r1 ++ e :: r2 -> cap < sizes es - sizes r1) /\
    (faults o = [] -> NoDup (path <$> es) -> Forall (fun e => is_Some (files o !! path e)) es ->
      cap < sizes es -> r = filter (inactive active) v) /\
    (forall p, p ∈ active -> files o' !! p = files o !! p).
Proof.
  intros Hc Hs Hl. unfold enforce_storage_cap. rewrite Hc, total_sizes by done.
  pose proof (sort_permutation es) as Hperm. destruct (sizes es <=? cap) eqn:E.
  - apply Z.leb_le in E. exists (mkOutcome 0 0 (sizes es)), o, [], (sort_entries es), [].
    split_and!; try done; simpl; try lia; [set_solver|by intros [] ? ?].
  - pose proof (sizes_proper _ _ Hperm) as Hps.
    destruct (evict_spec (sort_entries es) cap active (sizes es) 0 0 o) as (v & k & r & Hev).
    { by rewrite Hperm. } { lia. } { done. } { done. }
    destruct (evict _ _ _ _ _ _ _) as [out o']. cbn [fst snd] in Hev. destruct Hev.
    exists out, o', v, k, r. pose proof (sort_sorted es) as Hsort. rewrite ev_split0 in Hsort, Hperm.
    split_and!; try done.
    + intros x y Hx Hy. by eapply StronglySorted_app_1_elem_of.
    + intros Hf Hnd Hex _. apply ev_all0; [done|by rewrite ev_split0, Hperm|by rewrite ev_split0, Hperm].
    + intros p Hp. rewrite ev_files0. apply delete_paths_lookup. intros e He Heq.
      rewrite Forall_forall in ev_inactive0. specialize (ev_inactive0 _ He). unfold inactive in *.
      rewrite is_active_elem in ev_inactive0; [done|by rewrite Heq].
Qed.

Definition demo_root : dir_view :=
  Root [Some (mkSession (Some Dir) (Some
    [Some (mkFile "a/new" (Some (File 100 (Some 30)))); Some (mkFile "a/old" (Some (File 100 (Some 10))));
     None; Some (mkFile "a/link" (Some Other)); Some (mkFile "a/live" (Some (File 100 (Some 20))))]));
   Some (mkSession (Some Other) None);
   Some (mkSession (Some Dir) (Some [Some (mkFile "b/odd" (Some (File 50 None)))]))].

Definition demo_os : Os :=
  mkOs (<["a/new" := [1]]> (<["a/old" := [2]]> (<["a/live" := [3]]> (<["b/odd" := [4]]> ∅)))) ∅ [].

Definition demo_walk : list WalkedEntry :=
  [mkEntry "a/new" 100 (Some 30); mkEntry "a/old" 100 (Some 10); mkEntry "a/live" 100 (Some 20);
   mkEntry "b/odd" 50 None].

Lemma eviction_oldest_first_witness :
  (exists out o' v k r, enforce_storage_cap demo_root 210 ["a/live"] demo_os = (inr out, o') /\
    v ++ k ≡ₚ demo_walk /\ (forall x y, x ∈ v -> y ∈ k -> older x y) /\
    r `sublist_of` v /\ files o' = delete_paths r (files demo_os) /\
    used_after out = sizes demo_walk - sizes r /\ (used_after out <= 210 \/ k = []) /\
    (forall r1 e r2, r = r1 ++ e :: r2 -> 210 < sizes demo_walk - sizes r1) /\
    (faults demo_os = [] -> NoDup (path <$> demo_walk) ->
      Forall (fun e => is_Some (files demo_os !! path e)) demo_walk ->
      210 < sizes demo_walk -> r = filter (inactive ["a/live"]) v) /\
    (forall p, p ∈ ["a/live"] -> files o' !! p = files demo_os !! p)) /\
  (enforce_storage_cap demo_root 210 ["a/live"] demo_os).1 = inr (mkOutcome 2 150 200).
Proof.
  split; [|vm_compute; reflexivity].
  apply (eviction_oldest_first demo_root 210 ["a/live"] demo_os demo_walk).
  - reflexivity.
  - repeat (constructor; [simpl; lia|]). constructor.
  - reflexivity.
Defined.

(** [clear_all] leaves of the walked files only those being written. *)
Lemma clear_spec es active n o :
  faults o = [] ->
  files (clear es active n o).2 = delete_paths (filter (inactive active) es) (files o) /\
  faults (clear es active n o).2 = [].
Proof.
  revert n o. induction es as [|e es IH]; intros n o Hf; [done|]. cbn [clear].
  destruct (is_active active e) eqn:Ha.
  - rewrite filter_cons_False by (unfold inactive; congruence). by apply IH.
  - rewrite filter_cons_True by done. pose proof (remove_file_spec (path e) o) as Hrm.
    destruct (Os.remove_file (path e) o) as [[err|[]] o1]; destruct Hrm as [Hfs Hfault].
    + destruct (Hfault Hf) as [Hf1 Hno]. destruct (IH n o1 Hf1) as [-> ->]. rewrite Hfs.
      split; [|done]. simpl. by rewrite delete_id.
    + destruct (IH (Z.min (n + 1) U32_MAX) o1 (Hfault Hf)) as [-> ->]. by rewrite Hfs.
Qed.
