(* ===== verification/Recorder.v ===== *)
(** * The session recorder ([recorder/mod.rs])

    The registry of active recordings: each actor owns a file, the keys of an encrypted
    one, the position counters and the writer of its sidecar.  An operation is one
    critical section of the registry over [World]; the file system is [Os], whose faults
    make a call fail with nothing written.  Random bytes and the clock are arguments;
    [walk] is what the operating system lists under a recordings root. *)
From Stdlib Require Import ZArith Lia.
From stdpp Require Import prelude gmap strings list sorting.
From S2P Require Import Prelude Text Types Bus Json Config Prog Crypto RecFormat RecIndex RecText StorageCap.

Open Scope Z_scope.

Module Recorder.
Import Lfr Index RecText.

Record RecorderSnapshot := mkSnapshot {
  s_id : string;
  s_session_id : string;
  s_path : string;
  s_bytes_written : Z;
  s_encrypted : bool
}.

(** [file] is the open handle, named by the path it was opened at; the sidecar writer
    carries the content of its own file. *)
Record RecorderActor := mkActor {
  id : string;
  session_id : string;
  path : string;
  bytes_written : Z;
  encrypted : bool;
  started_at : option Z;
  file : option string;
  key : option bytes;
  db_key : option bytes;
  frame_index : Z;
  index : option IndexWriter
}.

Definition new (id session_id path : string) (encrypted : bool) : RecorderActor :=
  mkActor id session_id path 0 encrypted None None None None 0 None.

Definition snapshot (a : RecorderActor) : RecorderSnapshot :=
  mkSnapshot (id a) (session_id a) (path a) (bytes_written a) (encrypted a).

Inductive Error :=
| NotRegistered
| NoFileHandle
| NoAnchor
| IoFailed (what : string)
| Format (e : Lfr.Error)
| HkdfFailed (e : CryptoError).

Record World := mkWorld {
  by_id : gmap string RecorderActor;
  disk : Os;
  published : list Event
}.

(** Operations that can fail, over the world. *)
Definition M (A : Type) : Type := World -> (Error + A) * World.
Definition ret {A} (a : A) : M A := fun w => (inr a, w).
Definition fail {A} (e : Error) : M A := fun w => (inl e, w).
Definition bind {A B} (m : M A) (f : A -> M B) : M B :=
  fun w => match m w with (inl e, w') => (inl e, w') | (inr a, w') => f a w' end.

Declare Scope rec_scope.
Delimit Scope rec_scope with rec.
Notation "x <~ m ; k" := (bind m (fun x => k))
  (at level 100, m at next level, k at level 200, right associativity) : rec_scope.
Notation "m ;! k" := (bind m (fun _ => k)) (at level 100, k at level 200, right associativity) : rec_scope.
Open Scope rec_scope.

Definition with_disk (o : Os) (w : World) : World := mkWorld (by_id w) o (published w).
Definition with_actors (m : gmap string RecorderActor) (w : World) : World :=
  mkWorld m (disk w) (published w).

Definition publish (e : Event) : M unit :=
  fun w => (inr (), mkWorld (by_id w) (disk w) (published w ++ [e])).

Definition os {A} (what : string) (f : Os -> (io_error + A) * Os) : M A :=
  fun w => match f (disk w) with
           | (inl _, o) => (inl (IoFailed what), with_disk o w)
           | (inr a, o) => (inr a, with_disk o w)
           end.

Definition lookup_actor (i : string) : M RecorderActor :=
  fun w => match by_id w !! i with Some a => (inr a, w) | None => (inl NotRegistered, w) end.
Definition put_actor (i : string) (a : RecorderActor) : M unit :=
  fun w => (inr (), with_actors (<[i := a]> (by_id w)) w).
Definition lift {A B E} (wrap : E -> Error) (r : E + A) (k : A -> M B) : M B :=
  match r with inl e => fail (wrap e) | inr a => k a end.

(** ** Files *)
Definition open_append (p : string) : Os -> (io_error + unit) * Os :=
  Os.fallible (fun o => (inr (), mkOs (<[p := default [] (files o !! p)]> (files o)) (keychain o) (faults o))).

Definition write_all (p : string) (b : bytes) : Os -> (io_error + unit) * Os :=
  Os.fallible (fun o => (inr (), mkOs (<[p := default [] (files o !! p) ++ b]> (files o)) (keychain o) (faults o))).

Definition truncate_file (p : string) : Os -> (io_error + unit) * Os :=
  Os.fallible (fun o => (inr (), mkOs (<[p := []]> (files o)) (keychain o) (faults o))).

(** [path::harden_file_perms]: permissions are not part of the model, failing is. *)
Definition harden_file_perms : Os -> (io_error + unit) * Os := Os.fallible (fun o => (inr (), o)).

Definition slash : Ascii.ascii := Ascii.ascii_of_nat 47.

(** The components of a path, and whether it is absolute. *)
Definition components (p : string) : bool * list string :=
  let chars := String.list_ascii_of_string p in
  let fix go (l : list Ascii.ascii) : list (list Ascii.ascii) :=
    match l with
    | [] => [[]]
    | c :: l' =>
        if Ascii.eqb c slash then [] :: go l'
        else match go l' with h :: t => (c :: h) :: t | [] => [[c]] end
    end in
  let names := filter (fun s => s <> "" /\ s <> ".") (String.string_of_list_ascii <$> go chars) in
  (match chars with c :: _ => Ascii.eqb c slash | [] => false end, names).

(** [parent()] is there and not empty. *)
Definition has_parent_dir (p : string) : bool :=
  let '(abs, names) := components p in
  if abs then negb (bool_decide (names = [])) else (2 <=? length names)%nat.

Definition mkdir_parent (what p : string) : M unit :=
  if has_parent_dir p then os what Os.create_dir_all else ret ().

(** [recordings_root_from_path]: two levels up, unless that is a root itself. *)
Definition recordings_root_from_path (p : string) : option (bool * list string) :=
  let '(abs, names) := components p in
  if (length names <? 3)%nat then None else Some (abs, take (length names - 2) names).

(** [read_storage_cap_from_config_store], on the parsed snapshot. *)
Definition read_storage_cap (config : option json) : Z :=
  default DEFAULT_RECORDINGS_STORAGE_CAP_BYTES
    (v ← config; o ← Json.as_object v; f ← o !! "recordings_storage_cap_bytes"; Json.as_u64 f).

Section Registry.
Context `{Primitives}.
Variable walk : bool * list string -> Os -> StorageCap.dir_view.
Variable config : option json.

Definition derive_index_key (recorder_key : option bytes) : Error + option bytes :=
  match recorder_key with
  | None => inr None
  | Some rk =>
      match hkdf_sha256 rk [] INDEX_HKDF_INFO 32 with
      | inl e => inl (HkdfFailed e)
      | inr k => inr (Some k)
      end
  end.

(** [IndexWriter::create] at the sidecar path. *)
Definition open_index_writer (recording_path : string) (index_key : option bytes) : M (option IndexWriter) :=
  let p := sidecar_name recording_path in
  mkdir_parent "idx mkdir" p ;!
  os "idx open" (truncate_file p) ;!
  os "idx harden" harden_file_perms ;!
  os "idx header write" (write_all p LFI_MAGIC) ;!
  os "idx header write" (write_all p [LFI_VERSION]) ;!
  ret (Some (Index.create index_key)).

Definition active_paths (w : World) : list string := path <$> (map_to_list (by_id w)).*2.

(** The best-effort sweep of [register_with_io] and [close_with_io]. *)
Definition sweep (p : string) : M unit :=
  fun w =>
    match recordings_root_from_path p with
    | None => (inr (), w)
    | Some root =>
        let '(_, o) := StorageCap.enforce_storage_cap (walk root (disk w)) (read_storage_cap config)
                         (active_paths w) (disk w) in
        (inr (), with_disk o w)
    end.

Definition register (i session p : string) (enc : bool) : M RecorderSnapshot :=
  let actor := new i session p enc in
  put_actor i actor ;!
  publish (RecorderStarted i p) ;!
  ret (snapshot actor).

Definition close (i : string) : M unit :=
  fun w =>
    match by_id w !! i with
    | None => (inr (), w)
    | Some _ => publish (RecorderStopped i) (with_actors (delete i (by_id w)) w)
    end.

Definition record_chunk (i : string) (n : Z) : M unit :=
  fun w =>
    match by_id w !! i with
    | None => (inr (), w)
    | Some a =>
        let total := Z.min (bytes_written a + n) (2 ^ 64 - 1) in
        let a' := mkActor (id a) (session_id a) (path a) total (encrypted a) (started_at a) (file a)
                    (key a) (db_key a) (frame_index a) (index a) in
        (put_actor i a' ;! publish (RecorderBytesWritten i total)) w
    end.

(** The header of a fresh encrypted file: the new key and the bytes it took. *)
Definition write_header (p what : string) (dbk : option bytes) (rk wrap_nonce : bytes) :
    M (option bytes * Z) :=
  match dbk with
  | None => ret (None, 0)
  | Some dk =>
      lift Format (build_lfsr_header wrap_nonce dk rk) (fun header =>
      os what (write_all p header) ;!
      ret (Some rk, Z.of_nat (length header)))
  end.

Definition register_with_io (i session p : string) (dbk : option bytes) (rk wrap_nonce : bytes) (now : Z) :
    M RecorderSnapshot :=
  mkdir_parent "mkdir" p ;!
  os "open" (open_append p) ;!
  os "harden" harden_file_perms ;!
  kn <~ write_header p "header write" dbk rk wrap_nonce;
  lift (fun e => e) (derive_index_key kn.1) (fun index_key =>
  ix <~ open_index_writer p index_key;
  let actor := mkActor i session p kn.2 (bool_decide (is_Some dbk)) (Some now) (Some p) kn.1 dbk 0 ix in
  put_actor i actor ;!
  sweep p ;!
  publish (RecorderStarted i p) ;!
  ret (snapshot actor)).

Definition bump_frame (a : RecorderActor) : RecorderActor :=
  mkActor (id a) (session_id a) (path a) (bytes_written a) (encrypted a) (started_at a) (file a)
    (key a) (db_key a) (Z.min (frame_index a + 1) (2 ^ 64 - 1)) (index a).

Definition add_bytes (n : Z) (a : RecorderActor) : RecorderActor :=
  mkActor (id a) (session_id a) (path a) (Z.min (bytes_written a + n) (2 ^ 64 - 1)) (encrypted a)
    (started_at a) (file a) (key a) (db_key a) (frame_index a) (index a).

Definition with_index (ix : option IndexWriter) (a : RecorderActor) : RecorderActor :=
  mkActor (id a) (session_id a) (path a) (bytes_written a) (encrypted a) (started_at a) (file a)
    (key a) (db_key a) (frame_index a) ix.

Definition record_frame_at (i : string) (plaintext nonce : bytes) : M (Z * Z) :=
  a <~ lookup_actor i;
  match file a with
  | None => fail NoFileHandle
  | Some handle =>
      let idx := frame_index a in
      let pre_write_offset := bytes_written a in
      let a1 := bump_frame a in
      put_actor i a1 ;!
      lift Format (build_frame nonce plaintext (key a) idx) (fun frame =>
      os "frame write" (write_all handle frame) ;!
      let a2 := add_bytes (Z.of_nat (length frame)) a1 in
      put_actor i a2 ;!
      publish (RecorderBytesWritten i (bytes_written a2)) ;!
      ret (pre_write_offset, bytes_written a2))
  end.

Definition record_frame (i : string) (plaintext nonce : bytes) : M Z :=
  on <~ record_frame_at i plaintext nonce; ret on.2.

Definition record_header (i : string) (width height : Z) (shell_label : list Z) (nonce : bytes) : M Z :=
  a <~ lookup_actor i;
  match started_at a with
  | None => fail NoAnchor
  | Some t0 =>
      let line := header_line width height (Z.max 0 t0 / 1000000000) shell_label ++ [Reader.newline] in
      record_frame i (Utf8.encode line) nonce
  end.

(** The sidecar entry of an event; its failures are logged only. *)
Definition append_entry (i : string) (e : IndexEntry) (idx_nonce : bytes) : M unit :=
  fun w =>
    match by_id w !! i with
    | None => (inr (), w)
    | Some a =>
        match index a with
        | None => (inr (), w)
        | Some ix =>
            match Index.append idx_nonce true e ix with
            | (inl _, _) => (inr (), w)
            | (inr _, _) =>
                let '(fault, o) := Os.next_fault (disk w) in
                let ix' := (Index.append idx_nonce (negb fault) e ix).2 in
                let o' := mkOs (<[sidecar_name (path a) := ifile ix']> (files o)) (keychain o) (faults o) in
                put_actor i (with_index (Some ix') a) (with_disk o' w)
            end
        end
    end.

Definition record_event (i : string) (kind : RecordDirection) (chunk : bytes) (now : Z)
    (nonce idx_nonce : bytes) : M Z :=
  match chunk with
  | [] => fun w => (inr (match by_id w !! i with Some a => bytes_written a | None => 0 end), w)
  | _ =>
      a <~ lookup_actor i;
      match started_at a with
      | None => fail NoAnchor
      | Some t0 =>
          let delta := delta_secs now t0 in
          let line := event_line delta kind (Utf8.lossy chunk) ++ [Reader.newline] in
          on <~ record_frame_at i (Utf8.encode line) nonce;
          append_entry i (mkEntry on.1 (timestamp_ms_of delta)) idx_nonce ;!
          ret on.2
      end
  end.

Definition rotated (a : RecorderActor) (p : string) (n : Z) (k : option bytes) : RecorderActor :=
  mkActor (id a) (session_id a) p n (encrypted a) (started_at a) (Some p) k (db_key a) 0 None.

(** A failure on the way leaves the actor without the handle it gave up. *)
Definition rotate_to (i new_path : string) (rk wrap_nonce : bytes) : M RecorderSnapshot :=
  a <~ lookup_actor i;
  match file a with
  | None => fail NoFileHandle
  | Some _ =>
      put_actor i (mkActor (id a) (session_id a) (path a) (bytes_written a) (encrypted a) (started_at a)
                     None (key a) (db_key a) (frame_index a) None) ;!
      mkdir_parent "rotate mkdir" new_path ;!
      os "rotate open" (open_append new_path) ;!
      os "rotate harden" harden_file_perms ;!
      kn <~ write_header new_path "rotate header write" (db_key a) rk wrap_nonce;
      let a' := rotated a new_path kn.2 kn.1 in
      put_actor i a' ;!
      lift (fun e => e) (derive_index_key kn.1) (fun index_key =>
      ix <~ open_index_writer new_path index_key;
      put_actor i (with_index ix a') ;!
      publish (RecorderStarted i new_path) ;!
      ret (snapshot a'))
  end.

Definition close_with_io (i : string) : M unit :=
  fun w =>
    match by_id w !! i with
    | None => (inr (), w)
    | Some a =>
        (sweep (path a) ;! publish (RecorderStopped i)) (with_actors (delete i (by_id w)) w)
    end.

End Registry.
End Recorder.

Import Recorder Lfr Index RecText.

(** ** One recording on a disk without faults *)
Section Recording.
Context `{Primitives}.
Variable walk : bool * list string -> Os -> StorageCap.dir_view.
Variable config : option json.

Definition idx_key (k : option bytes) : option bytes :=
  rk ← k; Some (hkdf_expand rk [] INDEX_HKDF_INFO 32).

(** The bytes of line [j]: sealed at its position, or the line itself. *)
Definition framed (k : option bytes) (j : nat) (l : list Z) (f : bytes) : Prop :=
  match k with
  | None => f = Utf8.encode (l ++ [Reader.newline])
  | Some k => exists nonce, genuine (mkBox k (Z.of_nat j) nonce (l ++ [Reader.newline]) f)
  end.

Definition line_ok (l : list Z) : Prop :=
  Forall printable l /\ l <> [] /\
  Z.of_nat (length (Utf8.encode (l ++ [Reader.newline]))) <= MAX_FRAME_PLAINTEXT_BYTES.

Definition key_ok (k : option bytes) : Prop := match k with Some k => length k = 32%nat | None => True end.

(** The actor and its files: a prefix [hd] (the header), one frame per line, one sidecar
    entry per event with the number of its frame. *)
Record recording (a : RecorderActor) (o : Os) (hd : bytes) (lines : list (list Z)) (frames : list bytes)
    (es : list (nat * IndexEntry)) : Prop := {
  rec_handle : file a = Some (path a);
  rec_content : files o !! path a = Some (hd ++ concat frames);
  rec_bytes : bytes_written a = Z.of_nat (length (hd ++ concat frames));
  rec_count : frame_index a = Z.of_nat (length frames);
  rec_key : key_ok (key a);
  rec_lines : length lines = length frames /\ Forall line_ok lines;
  rec_frames : forall j l f, lines !! j = Some l -> frames !! j = Some f -> framed (key a) j l f;
  rec_small : (Z.of_nat (length (hd ++ concat frames)) <= 65 + 2 ^ 25 * Z.of_nat (length frames)) /\
    Z.of_nat (length frames) < 2 ^ 32;
  rec_index : exists ix, index a = Some ix /\ holds_entries (idx_key (key a)) (snd <$> es) ix /\
    files o !! sidecar_name (path a) = Some (ifile ix);
  rec_offsets : Forall (fun je => (je.1 < length frames)%nat /\
    offset je.2 = Z.of_nat (length (hd ++ concat (take je.1 frames)))) es;
  rec_entries : (length es <= length frames)%nat
}.

(** A sealed or plain frame for a line always exists and is not long. *)
Lemma build_frame_ok nonce l k j :
  line_ok l -> key_ok k -> length nonce = 12%nat -> (Z.of_nat j < 2 ^ 64) ->
  exists f, build_frame nonce (Utf8.encode (l ++ [Reader.newline])) k (Z.of_nat j) = inr f /\
    framed k j l f /\ Z.of_nat (length f) <= 2 ^ 25.
Proof.
  intros (Hp & _ & Hs) Hk Hn Hj. destruct k as [k|]; cbn [key_ok] in Hk.
  - destruct (encrypt_raw_total k nonce (Utf8.encode (l ++ [Reader.newline])) (le_bytes 8 (Z.of_nat j)))
      as (c & Hc & Hl); [done|done|unfold MAX_FRAME_PLAINTEXT_BYTES in Hs; lia|].
    assert (Hb : build_frame nonce (Utf8.encode (l ++ [Reader.newline])) (Some k) (Z.of_nat j) =
      inr (le_bytes 4 (Z.of_nat (length (Utf8.encode (l ++ [Reader.newline])))) ++ nonce ++ c)).
    { unfold build_frame. rewrite Hc. unfold MAX_FRAME_PLAINTEXT_BYTES in Hs. case_match; [|done].
      breflect. lia. }
    eexists. split; [exact Hb|]. split.
    + exists nonce. destruct (printable_line l Hp) as (_ & _ & _ & Hok).
      split_and!; [done|done|cbn [bindex]; int_unfold; lia|exact Hb].
    + rewrite !length_app, le_bytes_length, Hn, Hl. unfold MAX_FRAME_PLAINTEXT_BYTES in Hs. lia.
  - eexists. split; [done|]. split; [done|]. unfold MAX_FRAME_PLAINTEXT_BYTES in Hs. lia.
Qed.

Lemma sidecar_name_ne p : p <> sidecar_name p.
Proof.
  unfold sidecar_name. induction p as [|c p IH]; [done|]. intros He. apply IH.
  by injection He.
Qed.

Lemma write_all_ok p b o :
  faults o = [] ->
  write_all p b o = (inr (), mkOs (<[p := default [] (files o !! p) ++ b]> (files o)) (keychain o) []).
Proof. intros Hf. unfold write_all, Os.fallible, Os.next_fault. rewrite Hf. cbn. by rewrite Hf. Qed.

(** Appending a line to the file. *)
Lemma record_frame_ok i a w hd lines frames es l nonce :
  by_id w !! i = Some a -> faults (disk w) = [] -> recording a (disk w) hd lines frames es ->
  line_ok l -> length nonce = 12%nat -> Z.of_nat (length frames) + 1 < 2 ^ 32 ->
  exists f a' w' total,
    record_frame_at i (Utf8.encode (l ++ [Reader.newline])) nonce w =
      (inr (Z.of_nat (length (hd ++ concat frames)), total), w') /\
    by_id w' = <[i := a']> (by_id w) /\ faults (disk w') = [] /\
    path a' = path a /\ key a' = key a /\ started_at a' = started_at a /\ db_key a' = db_key a /\
    recording a' (disk w') hd (lines ++ [l]) (frames ++ [f]) es.
Proof.
  intros Hi Hf [Hh Hc Hb Hn Hk [Hll Hlo] Hfr [Hsm Hcnt] (ix & Hix & Hhe & Hsc) Hoff Hes] Hl Hnonce Hmax.
  destruct (build_frame_ok nonce l (key a) (length frames) Hl Hk Hnonce) as (f & Hbf & Hframed & Hlen);
    [lia|].
  unfold record_frame_at, bind, lookup_actor. rewrite Hi, Hh, Hn. cbn [put_actor lift].
  rewrite Hbf. unfold lift, os, with_actors, with_disk. cbn [disk]. rewrite write_all_ok by done.
  do 4 eexists. split; [rewrite Hb; done|].
  cbn [by_id with_disk with_actors disk]. split; [by rewrite insert_insert_eq|]. split; [done|].
  split_and!; [done..|].
  assert (Hcat : concat (frames ++ [f]) = concat frames ++ f).
  { by rewrite concat_app, concat_cons, app_nil_r. }
  rewrite length_app in Hsm.
  split; cbn [path file bytes_written key frame_index index add_bytes bump_frame started_at files].
  - done.
  - rewrite lookup_insert_eq, Hc. simpl. by rewrite Hcat, app_assoc.
  - rewrite Hb, Hcat, !length_app. rewrite Z.min_l by lia. lia.
  - rewrite Z.min_l, Hn, length_app by lia. simpl. lia.
  - done.
  - split; [rewrite !length_app; simpl; lia|]. apply Forall_app. split; [done|]. by constructor.
  - intros j l' f' Hj Hj'. destruct (decide (j < length lines)%nat) as [Hlt|Hge].
    + rewrite lookup_app_l in Hj by done. rewrite lookup_app_l in Hj' by lia. by apply Hfr.
    + rewrite lookup_app_r in Hj by lia. rewrite lookup_app_r in Hj' by lia.
      apply list_lookup_singleton_Some in Hj as [Hj <-]. rewrite Hll in Hj.
      apply list_lookup_singleton_Some in Hj' as [_ <-]. by replace j with (length frames) by lia.
  - rewrite Hcat, !length_app. simpl. lia.
  - exists ix. split; [done|]. split; [done|]. rewrite lookup_insert_ne by apply sidecar_name_ne. done.
  - eapply Forall_impl; [exact Hoff|]. intros [j e] [Hj He]. cbn [fst snd] in *. rewrite length_app.
    split; [lia|]. by rewrite take_app_le by lia.
  - rewrite length_app. lia.
Qed.

Lemma append_ok key es ix n e :
  holds_entries key es ix -> key_ok key -> length n = 12%nat ->
  exists ix', Index.append n true e ix = (inr (), ix').
Proof.
  intros (Hk & _) Hok Hn. unfold Index.append. rewrite Hk. destruct key as [k|]; [|eauto].
  unfold build_encrypted_block.
  destruct (encrypt_raw_total k n (encode_entry e) (le_bytes 8 (next_seq ix))) as (c & -> & _);
    [done|done|rewrite encode_entry_length; by vm_compute|eauto].
Qed.

Lemma idx_key_ok k : key_ok (idx_key k).
Proof. destruct k as [k|]; [apply hkdf_length|done]. Qed.

(** Appending the entry of the line just written. *)
Lemma append_entry_ok i a w hd lines frames es j e nonce :
  by_id w !! i = Some a -> faults (disk w) = [] -> recording a (disk w) hd lines frames es ->
  (length es < length frames)%nat -> (j < length frames)%nat ->
  offset e = Z.of_nat (length (hd ++ concat (take j frames))) -> in_u32 (timestamp_ms e) ->
  length nonce = 12%nat ->
  exists a' w', append_entry i e nonce w = (inr (), w') /\
    by_id w' = <[i := a']> (by_id w) /\ faults (disk w') = [] /\
    path a' = path a /\ key a' = key a /\ started_at a' = started_at a /\ db_key a' = db_key a /\
    recording a' (disk w') hd lines frames (es ++ [(j, e)]).
Proof.
  intros Hi Hf [Hh Hc Hb Hn Hk Hll Hfr [Hsm Hcnt] (ix & Hix & Hhe & Hsc) Hoff Hes] Hlt Hj He Ht Hnonce.
  destruct (append_ok _ _ _ nonce e Hhe (idx_key_ok _) Hnonce) as [ix' Hap].
  assert (Hentry : entry_ok e).
  { split; [|done]. rewrite He. int_unfold.
    assert (Z.of_nat (length (hd ++ concat (take j frames))) <= Z.of_nat (length (hd ++ concat frames))).
    { rewrite <-(take_drop j frames) at 2. rewrite concat_app, !length_app. lia. }
    lia. }
  unfold append_entry. rewrite Hi, Hix, Hap. unfold Os.next_fault. rewrite Hf. cbn [negb].
  rewrite Hap. do 2 eexists. split; [done|]. cbn [by_id with_disk with_actors disk put_actor snd].
  split_and!; [done..|]. split; cbn [path file bytes_written key frame_index index with_index files snd].
  - done.
  - rewrite lookup_insert_ne; [done|]. apply not_eq_sym, sidecar_name_ne.
  - done.
  - done.
  - done.
  - done.
  - done.
  - done.
  - exists ix'. split; [done|]. split; [|by rewrite lookup_insert_eq].
    rewrite fmap_app. eapply append_holds; [exact Hhe|done| |exact Hap]. rewrite length_fmap. lia.
  - apply Forall_app. split; [done|]. by constructor.
  - rewrite length_app. simpl. lia.
Qed.

(** ** Sequences of records *)
Inductive op :=
| OpHeader (width height : Z) (shell : list Z) (nonce : bytes)
| OpEvent (kind : RecordDirection) (chunk : bytes) (now : Z) (nonce idx_nonce : bytes).

Definition exec (i : string) (o : op) : M Z :=
  match o with
  | OpHeader wd ht sh n => record_header i wd ht sh n
  | OpEvent k c now n xn => record_event i k c now n xn
  end.

Fixpoint exec_all (i : string) (ops : list op) : M unit :=
  match ops with
  | [] => ret ()
  | o :: ops => bind (exec i o) (fun _ => exec_all i ops)
  end.

(** The line an operation records, if any, and the time of its sidecar entry. *)
Definition op_line (t0 : Z) (o : op) : option (list Z) :=
  match o with
  | OpHeader wd ht sh _ => Some (header_line wd ht (Z.max 0 t0 / 1000000000) sh)
  | OpEvent _ [] _ _ _ => None
  | OpEvent k c now _ _ => Some (event_line (delta_secs now t0) k (Utf8.lossy c))
  end.

Definition op_time (t0 : Z) (o : op) : option Z :=
  match o with
  | OpHeader _ _ _ _ | OpEvent _ [] _ _ _ => None
  | OpEvent _ _ now _ _ => Some (timestamp_ms_of (delta_secs now t0))
  end.

Definition op_ok (t0 : Z) (o : op) : Prop :=
  match o with
  | OpHeader _ _ sh n => Forall char_ok sh /\ length n = 12%nat
  | OpEvent _ _ _ n xn => length n = 12%nat /\ length xn = 12%nat
  end /\
  match op_line t0 o with
  | Some l => Z.of_nat (length (Utf8.encode (l ++ [Reader.newline]))) <= MAX_FRAME_PLAINTEXT_BYTES
  | None => True
  end.

Definition lines_of (t0 : Z) (ops : list op) : list (list Z) := omap (op_line t0) ops.

(** The entries the events get: each names the line it stands at. *)
Fixpoint times_from (t0 : Z) (j : nat) (ops : list op) : list (nat * Z) :=
  match ops with
  | [] => []
  | o :: ops =>
      match op_line t0 o, op_time t0 o with
      | Some _, Some t => (j, t) :: times_from t0 (S j) ops
      | Some _, None => times_from t0 (S j) ops
      | None, _ => times_from t0 j ops
      end
  end.

Lemma header_line_ok wd ht t sh :
  Forall char_ok sh ->
  Z.of_nat (length (Utf8.encode (header_line wd ht t sh ++ [Reader.newline]))) <= MAX_FRAME_PLAINTEXT_BYTES ->
  line_ok (header_line wd ht t sh).
Proof. intros Hs Hl. split; [by apply header_line_printable|]. split; [discriminate|done]. Qed.

Lemma event_line_ok d k c :
  Z.of_nat (length (Utf8.encode (event_line d k (Utf8.lossy c) ++ [Reader.newline]))) <= MAX_FRAME_PLAINTEXT_BYTES ->
  line_ok (event_line d k (Utf8.lossy c)).
Proof. intros Hl. split; [apply event_line_printable, lossy_ok|]. split; [discriminate|done]. Qed.

Lemma exec_ok i a w t0 hd lines frames es o :
  by_id w !! i = Some a -> faults (disk w) = [] -> started_at a = Some t0 ->
  recording a (disk w) hd lines frames es -> op_ok t0 o -> Z.of_nat (length frames) + 1 < 2 ^ 32 ->
  exists n w' a' fs e, exec i o w = (inr n, w') /\ by_id w' !! i = Some a' /\ faults (disk w') = [] /\
    path a' = path a /\ key a' = key a /\ started_at a' = Some t0 /\ length fs = length (lines_of t0 [o]) /\
    (fun je => (je.1, timestamp_ms je.2)) <$> e = times_from t0 (length frames) [o] /\
    recording a' (disk w') hd (lines ++ lines_of t0 [o]) (frames ++ fs) (es ++ e).
Proof.
  intros Hi Hf Ht Hr [Hok Hsize] Hmax. destruct o as [wd ht sh n|k [|c0 c] now n xn].
  - destruct Hok as [Hsh Hn]. cbn [op_line] in Hsize.
    destruct (record_frame_ok i a w hd lines frames es _ n Hi Hf Hr (header_line_ok _ _ _ _ Hsh Hsize) Hn Hmax)
      as (f & a' & w' & tot & Hex & Hby & Hf' & Hpa & Hka & Hsa & _ & Hr').
    exists tot, w', a', [f], []. split_and!; try done.
    + cbn [exec]. unfold record_header, bind, lookup_actor, record_frame. rewrite Hi, Ht.
      unfold bind. by rewrite Hex.
    + by rewrite Hby, lookup_insert_eq.
    + by rewrite Hsa.
    + by rewrite app_nil_r.
  - exists (bytes_written a), w, a, [], []. split_and!; try done.
    + cbn [exec record_event]. by rewrite Hi.
    + by rewrite !app_nil_r.
  - destruct Hok as [Hn Hxn]. cbn [op_line] in Hsize.
    destruct (record_frame_ok i a w hd lines frames es _ n Hi Hf Hr (event_line_ok _ _ _ Hsize) Hn Hmax)
      as (f & a' & w' & tot & Hex & Hby & Hf' & Hpa & Hka & Hsa & _ & Hr').
    set (e := mkEntry (Z.of_nat (length (hd ++ concat frames))) (timestamp_ms_of (delta_secs now t0))).
    destruct (append_entry_ok i a' w' _ _ _ _ (length frames) e xn
      ltac:(by rewrite Hby, lookup_insert_eq) Hf' Hr') as (a2 & w2 & Hap & Hby2 & Hf2 & Hpa2 & Hka2 & Hsa2 & _ & Hr2).
    { rewrite length_app. pose proof (rec_entries _ _ _ _ _ _ Hr). simpl. lia. }
    { rewrite length_app. simpl. lia. }
    { by rewrite take_app_length. }
    { apply timestamp_ms_range. }
    { done. }
    exists tot, w2, a2, [f], [(length frames, e)]. split_and!; try done; try congruence.
    + cbn [exec record_event]. unfold bind, lookup_actor. rewrite Hi, Ht. rewrite Hex. cbn [fst snd].
      unfold e in Hap. by rewrite Hap.
    + by rewrite Hby2, lookup_insert_eq.
Qed.

Lemma exec_all_ok i a w t0 hd lines frames es ops :
  by_id w !! i = Some a -> faults (disk w) = [] -> started_at a = Some t0 ->
  recording a (disk w) hd lines frames es -> Forall (op_ok t0) ops ->
  Z.of_nat (length frames + length ops) < 2 ^ 32 ->
  exists w' a' fs e, exec_all i ops w = (inr (), w') /\ by_id w' !! i = Some a' /\
    path a' = path a /\ key a' = key a /\
    (fun je => (je.1, timestamp_ms je.2)) <$> e = times_from t0 (length frames) ops /\
    recording a' (disk w') hd (lines ++ lines_of t0 ops) (frames ++ fs) (es ++ e).
Proof.
  intros Hi Hf Ht Hr Hok. revert a w lines frames es Hi Hf Ht Hr.
  induction Hok as [|o ops Ho _ IH]; intros a w lines frames es Hi Hf Ht Hr Hl.
  - exists w, a, [], []. cbn. by rewrite !app_nil_r.
  - cbn [length] in Hl.
    destruct (exec_ok i a w t0 hd lines frames es o Hi Hf Ht Hr Ho) as
      (n & w1 & a1 & fs1 & e1 & Hx1 & Hi1 & Hf1 & Hp1 & Hk1 & Ht1 & Hl1 & He1 & Hr1); [lia|].
    assert (Hone : (length fs1 <= 1)%nat).
    { rewrite Hl1. unfold lines_of. simpl. destruct (op_line t0 o); simpl; lia. }
    destruct (IH a1 w1 _ _ _ Hi1 Hf1 Ht1 Hr1) as (w2 & a2 & fs2 & e2 & Hx2 & Hi2 & Hp2 & Hk2 & He2 & Hr2).
    { rewrite length_app. lia. }
    exists w2, a2, (fs1 ++ fs2), (e1 ++ e2). split_and!; try congruence; try done.
    + cbn [exec_all]. unfold bind. by rewrite Hx1.
    + rewrite fmap_app, He1, He2, length_app, Hl1. unfold lines_of. cbn [omap list_omap times_from].
      destruct (op_line t0 o) as [l|] eqn:El; [|by rewrite Nat.add_0_r].
      destruct (op_time t0 o); cbn [length app]; by rewrite Nat.add_1_r.
    + rewrite !app_assoc in *. unfold lines_of in *. cbn [omap list_omap] in *.
      destruct (op_line t0 o); simpl in *; rewrite ?app_nil_r in *; [|done].
      rewrite <-!app_assoc in *. done.
Qed.
End Recording.

(** ** Starting a recording *)
Section Register.
Context `{Primitives}.
Variable walk : bool * list string -> Os -> StorageCap.dir_view.
Variable config : option json.

(** The recordings tree is under its cap, so the sweeps remove nothing. *)
Definition quiet : Prop := forall root o es,
  StorageCap.collect_entries (walk root o) = inr es -> StorageCap.total es <= read_storage_cap config.

Lemma sweep_quiet p w : quiet -> sweep walk config p w = (inr (), w).
Proof.
  intros Hq. unfold sweep. destruct (recordings_root_from_path p) as [root|]; [|done].
  unfold StorageCap.enforce_storage_cap.
  destruct (StorageCap.collect_entries (walk root (disk w))) as [|es] eqn:Hc; [by destruct w|].
  rewrite (proj2 (Z.leb_le _ _)) by (by eapply Hq). by destruct w.
Qed.

Lemma os_ok {A} what (f : Os -> (io_error + A) * Os) w a o :
  f (disk w) = (inr a, o) -> os what f w = (inr a, with_disk o w).
Proof. intros Hf. unfold os. by rewrite Hf. Qed.

Lemma no_fault {A} (f : Os -> (io_error + A) * Os) o : faults o = [] -> Os.fallible f o = f o.
Proof. intros Hf. unfold Os.fallible, Os.next_fault. by rewrite Hf. Qed.

Lemma mkdir_ok what p w : faults (disk w) = [] -> mkdir_parent what p w = (inr (), w).
Proof.
  intros Hf. unfold mkdir_parent. case_match; [|done].
  rewrite (os_ok _ _ w () (disk w)); [by destruct w|]. unfold Os.create_dir_all. by rewrite no_fault.
Qed.

(** What a sidecar of key [k] looks like when it has just been created. *)
Lemma open_index_ok p k w :
  faults (disk w) = [] ->
  exists o, open_index_writer p k w = (inr (Some (Index.create k)), with_disk o w) /\
    files o = <[sidecar_name p := ifile (Index.create k)]> (files (disk w)) /\ faults o = [].
Proof.
  intros Hf. unfold open_index_writer, bind. rewrite mkdir_ok by done.
  unfold os at 1. unfold truncate_file. rewrite no_fault by done.
  unfold os at 1. unfold harden_file_perms. rewrite no_fault by done. cbn [disk with_disk].
  unfold os at 1. cbn [disk with_disk]. rewrite write_all_ok by done.
  unfold os at 1. cbn [disk with_disk]. rewrite write_all_ok by done.
  eexists. split; [done|]. split; [|done]. cbn [files].
  by rewrite !lookup_insert_eq, !insert_insert_eq.
Qed.

Definition keys_ok (dbk : option bytes) (rk wn : bytes) : Prop :=
  match dbk with
  | None => True
  | Some dk => length dk = 32%nat /\ length rk = 32%nat /\ length wn = 12%nat
  end.

(** The header of a fresh file and its key. *)
Definition started (dbk : option bytes) (rk wn hd : bytes) (k : option bytes) : Prop :=
  match dbk with
  | None => hd = [] /\ k = None
  | Some dk => build_lfsr_header wn dk rk = inr hd /\ k = Some rk
  end.

Lemma write_header_ok p what dbk rk wn w :
  faults (disk w) = [] -> keys_ok dbk rk wn -> files (disk w) !! p = Some [] ->
  exists hd k o, write_header p what dbk rk wn w = (inr (k, Z.of_nat (length hd)), with_disk o w) /\
    files o = <[p := hd]> (files (disk w)) /\ faults o = [] /\ started dbk rk wn hd k /\
    key_ok k /\ (length hd <= 65)%nat.
Proof.
  intros Hf Hk Hp. destruct dbk as [dk|]; cbn [keys_ok] in Hk.
  - destruct Hk as (Hdk & Hrk & Hwn).
    destruct (encrypt_raw_total dk wn rk KEYWRAP_AAD) as (c & Hc & Hl); [done|done|by rewrite Hrk|].
    assert (Hb : build_lfsr_header wn dk rk = inr (LFR_MAGIC ++ [LFR_VERSION] ++ wn ++ c))
      by (unfold build_lfsr_header; by rewrite Hc).
    pose proof (header_length _ _ _ _ Hb Hrk) as Hhl.
    exists (LFR_MAGIC ++ [LFR_VERSION] ++ wn ++ c), (Some rk). cbn [write_header]. rewrite Hb. cbn [lift].
    unfold bind, os. rewrite write_all_ok by done. eexists. split; [done|]. cbn [files].
    rewrite Hp. split_and!; try done. by rewrite Hhl.
  - exists [], None, (disk w). split; [by destruct w|]. split_and!; try done; [by rewrite insert_id|simpl; lia].
Qed.

Lemma derive_index_key_ok k : derive_index_key k = inr (idx_key k).
Proof. by destruct k. Qed.

Lemma register_ok i session p dbk rk wn now w :
  quiet -> faults (disk w) = [] -> files (disk w) !! p = None -> keys_ok dbk rk wn ->
  exists snap w' a hd, register_with_io walk config i session p dbk rk wn now w = (inr snap, w') /\
    by_id w' !! i = Some a /\ path a = p /\ started_at a = Some now /\ faults (disk w') = [] /\
    started dbk rk wn hd (key a) /\ recording a (disk w') hd [] [] [].
Proof.
  intros Hq Hf Hp Hk. unfold register_with_io, bind at 1. rewrite mkdir_ok by done.
  unfold bind at 1. erewrite os_ok; [|unfold open_append; by rewrite no_fault]. rewrite Hp.
  unfold bind at 1. erewrite os_ok; [|unfold harden_file_perms; by rewrite no_fault].
  unfold bind at 1.
  match goal with |- context [write_header p _ dbk rk wn ?w1] =>
    destruct (write_header_ok p "header write" dbk rk wn w1) as (hd & k & o & Hw & Hfs & Hfo & Hst & Hko & Hhl);
      [done|done|by cbn [with_disk disk files]; rewrite lookup_insert_eq|]; set (w1' := w1) in * end.
  rewrite Hw, derive_index_key_ok. cbn [lift fst snd]. unfold bind at 1.
  match goal with |- context [open_index_writer p ?ik ?w2] =>
    destruct (open_index_ok p ik w2) as (o2 & Ho & Hfs2 & Hfo2); [done|] end.
  rewrite Ho. unfold bind, put_actor. rewrite sweep_quiet by done.
  do 4 eexists. split; [done|]. cbn [by_id disk with_actors with_disk publish files].
  rewrite lookup_insert_eq. split; [done|]. split_and!; [done..|]. cbn [with_disk disk] in *.
  pose proof (sidecar_name_ne p) as Hne.
  split; cbn [path file bytes_written key frame_index index].
  - done.
  - rewrite Hfs2, lookup_insert_ne by done. rewrite Hfs, lookup_insert_eq. by rewrite app_nil_r.
  - by rewrite app_nil_r.
  - done.
  - done.
  - done.
  - by intros [|j] l f.
  - rewrite app_nil_r. simpl. lia.
  - eexists. split; [done|]. split; [apply create_holds|]. by rewrite Hfs2, lookup_insert_eq.
  - constructor.
  - simpl. lia.
Qed.
End Register.

(** ** Playing a recording back *)
Import Reader.

Section Playback.
Context `{Primitives}.

Lemma line_ok_plain l : line_ok l -> plain_line l.
Proof.
  intros (Hp & _ & Hs). destruct (printable_line l Hp) as (Hok & H10 & H13 & _).
  split_and!; [done..|]. rewrite encode_app, length_app in Hs. unfold Reader.MAX_CAST_LINE_BYTES.
  cbn [Utf8.encode] in Hs. change (length (Utf8.encode [Reader.newline])) with 1%nat in Hs. lia.
Qed.

Lemma plain_frames lines frames :
  length lines = length frames ->
  (forall j l f, lines !! j = Some l -> frames !! j = Some f -> framed None j l f) ->
  concat frames = cast_file lines.
Proof.
  revert frames. induction lines as [|l lines IH]; intros [|f frames] Hl Hf; try done.
  unfold cast_file in *. rewrite bind_cons. cbn [concat].
  rewrite <-(IH frames); [|by injection Hl|intros j; apply (Hf (S j))].
  f_equal. rewrite (Hf 0%nat l f eq_refl eq_refl). by rewrite encode_app.
Qed.

Lemma plain_lines_kept lines : Forall line_ok lines -> filter (fun cs => cs <> []) lines = lines.
Proof.
  induction 1 as [|l lines (_ & Hne & _) _ IH]; [done|]. by rewrite filter_cons_True, IH.
Qed.

(** The lines of a plaintext recording, from any of them on. *)
Lemma plain_playback lines frames j :
  length lines = length frames -> Forall line_ok lines ->
  (forall j l f, lines !! j = Some l -> frames !! j = Some f -> framed None j l f) ->
  cast_records (mkCast (concat (drop j frames)) false) = inr <$> drop j lines.
Proof.
  intros Hl Hok Hf.
  rewrite (plain_frames (drop j lines)); [|rewrite !length_drop; lia|].
  - rewrite <-(app_nil_r (cast_file _)), cast_file_records.
    + rewrite plain_lines_kept by (by apply Forall_drop). by rewrite app_nil_r.
    + apply Forall_drop. eapply Forall_impl; [exact Hok|]. apply line_ok_plain.
  - intros n l f Hn Hn'. rewrite lookup_drop in Hn, Hn'. by apply (Hf (j + n)%nat).
Qed.

Lemma sealed_boxes k j lines frames :
  length lines = length frames -> Forall line_ok lines ->
  (forall n l f, lines !! n = Some l -> frames !! n = Some f -> framed (Some k) (j + n) l f) ->
  exists bs, Forall genuine bs /\ body bs = concat frames /\ line <$> bs = inr <$> lines /\
    in_place k (Z.of_nat j) bs = bs /\ length bs = length frames.
Proof.
  revert j frames. induction lines as [|l lines IH]; intros j [|f frames] Hl Hok Hf; try done.
  - exists []. done.
  - apply Forall_cons in Hok as [(Hp & _) Hok].
    destruct (Hf 0%nat l f eq_refl eq_refl) as [nonce Hg].
    destruct (IH (S j) frames) as (bs & Hgs & Hb & Ht & Hi & Hlen).
    { by injection Hl. } { done. }
    { intros n l' f' Hn Hn'. replace (S j + n)%nat with (j + S n)%nat by lia. by apply Hf. }
    exists (mkBox k (Z.of_nat (j + 0)) nonce (l ++ [Reader.newline]) f :: bs). split_and!.
    + by constructor.
    + rewrite body_cons, Hb. done.
    + rewrite !fmap_cons, Ht. f_equal. unfold line. cbn [btext].
      destruct (printable_line l Hp) as (_ & Hn & _). by rewrite trim_newline_line.
    + cbn [in_place bkey bindex]. rewrite bool_decide_eq_true_2, Nat.add_0_r, Z.eqb_refl by done.
      cbn [andb]. f_equal. by replace (Z.of_nat j + 1) with (Z.of_nat (S j)) by lia.
    + simpl. by rewrite Hlen.
Qed.

(** The lines of a sealed recording from frame [j] on, at the right and at a wrong
    frame counter. *)
Lemma sealed_playback k lines frames j fi :
  length k = 32%nat -> length lines = length frames -> Forall line_ok lines ->
  (forall n l f, lines !! n = Some l -> frames !! n = Some f -> framed (Some k) n l f) ->
  (j < length frames)%nat \/ fi = Z.of_nat j -> 0 <= fi < 2 ^ 63 -> Z.of_nat (length frames) < 2 ^ 32 ->
  records (mkIter (concat (drop j frames)) k fi false) =
    if bool_decide (fi = Z.of_nat j) then inr <$> drop j lines else [inl (Crypto (CryptoFailed CipherFailed))].
Proof.
  intros Hk Hl Hok Hf Hj Hfi Hlen.
  destruct (sealed_boxes k j (drop j lines) (drop j frames)) as (bs & Hg & Hb & Ht & Hi & Hbl).
  { rewrite !length_drop. lia. } { by apply Forall_drop. }
  { intros n l f Hn Hn'. rewrite lookup_drop in Hn, Hn'. by apply Hf. }
  rewrite length_drop in Hbl. rewrite <-Hb, <-(app_nil_r (body bs)).
  rewrite records_body by (done || lia). rewrite records_nil. case_bool_decide as Hd.
  - subst fi. by rewrite Hi, Nat.eqb_refl, app_nil_r, Ht.
  - destruct bs as [|b bs]; [simpl in Hbl; lia|]. cbn [in_place] in *.
    destruct (bool_decide (bkey b = k) && (bindex b =? Z.of_nat j)) eqn:E; [|done].
    apply andb_prop in E as [_ E%Z.eqb_eq]. rewrite E, (proj2 (Z.eqb_neq _ _)) by congruence.
    by rewrite andb_false_r.
Qed.
End Playback.

(** Entries in the order of their times, each with the number of its frame. *)
Lemma entries_sorted (es : list (nat * IndexEntry)) :
  Sorted Z.le ((fun je => (je.1, timestamp_ms je.2)) <$> es).*2 -> StronglySorted by_time es.*2.
Proof.
  intros Hs. apply Sorted_StronglySorted; [intros x y z; unfold by_time; lia|].
  induction es as [|[j e] es IH]; [constructor|]. rewrite !fmap_cons in *.
  inversion Hs as [|? ? Hs' Hh]; subst. constructor; [auto|].
  destruct es as [|[j' e'] es]; [constructor|]. rewrite !fmap_cons in *. constructor. by inversion Hh.
Qed.

Lemma landing_entry (es : list (nat * IndexEntry)) t hit :
  StronglySorted by_time es.*2 -> landing t es.*2 = Some hit ->
  exists j e, es !! Z.to_nat (hit_entry_index hit) = Some (j, e) /\ hit_offset hit = offset e /\
    hit_timestamp_ms hit = timestamp_ms e /\ timestamp_ms e <= t.
Proof.
  intros Hss Hland. unfold landing in Hland.
  destruct (last (filter (at_or_before t) es.*2)) as [e|] eqn:Hlast; [|done]. injection Hland as <-.
  assert (Hbefore : at_or_before t e) by (apply last_Some_elem_of, list_elem_of_filter in Hlast; tauto).
  destruct (sorted_split es.*2 t Hss) as (k & Hfil & Hks & _). rewrite length_fmap in Hks.
  cbn [hit_entry_index hit_timestamp_ms hit_offset]. rewrite Hfil in *. destruct k as [|k]; [done|].
  rewrite take_last in Hlast by (rewrite length_fmap; lia).
  rewrite length_take, length_fmap, Nat.min_l by lia.
  replace (Z.to_nat (Z.of_nat (S k) - 1)) with k by lia.
  apply list_lookup_fmap_Some in Hlast as ([j e'] & -> & Hje). by exists j, e'.
Qed.

(** ** Whole sessions

    A recording is started at a fresh path on a disk without faults, with the tree under
    its cap, and fed a sequence of headers and events. *)
Section Session.
Context `{Primitives}.
Variable walk : bool * list string -> Os -> StorageCap.dir_view.
Variable config : option json.
Variables (i session p : string) (dbk : option bytes) (rk wn : bytes) (now : Z) (ops : list op) (w : World).
Hypothesis Hquiet : quiet walk config.
Hypothesis Hdisk : faults (disk w) = [].
Hypothesis Hfresh : files (disk w) !! p = None.
Hypothesis Hkeys : keys_ok dbk rk wn.
Hypothesis Hops : Forall (op_ok now) ops.
Hypothesis Hlen : Z.of_nat (length ops) < 2 ^ 32.

(** The world after the session and the two files it leaves. *)
Definition played (w' : World) (content sidecar : bytes) : Prop :=
  exists snap w1, register_with_io walk config i session p dbk rk wn now w = (inr snap, w1) /\
    exec_all i ops w1 = (inr (), w') /\
    files (disk w') !! p = Some content /\ files (disk w') !! sidecar_name p = Some sidecar.

Lemma session_recorded :
  exists w' a hd frames es, by_id w' !! i = Some a /\ path a = p /\ started dbk rk wn hd (Recorder.key a) /\
    recording a (disk w') hd (lines_of now ops) frames es /\
    (fun je => (je.1, timestamp_ms je.2)) <$> es = times_from now 0 ops /\
    forall content sidecar, files (disk w') !! p = Some content ->
      files (disk w') !! sidecar_name p = Some sidecar -> played w' content sidecar.
Proof.
  destruct (register_ok walk config i session p dbk rk wn now w Hquiet Hdisk Hfresh Hkeys)
    as (snap & w1 & a1 & hd & Hreg & Hi1 & Hp1 & Ht1 & Hf1 & Hst & Hr1).
  destruct (exec_all_ok i a1 w1 now hd [] [] [] ops Hi1 Hf1 Ht1 Hr1 Hops Hlen)
    as (w2 & a2 & fs & es & Hex & Hi2 & Hp2 & Hk2 & Hes & Hr2).
  exists w2, a2, hd, fs, es. rewrite Hk2, Hp2. split_and!; try done.
  intros content sidecar Hc Hs. exists snap, w1. done.
Qed.

(** C34. What is recorded is what is played.  On a disk without faults, with the recordings tree
    under its cap, a recording started at a fresh path and given fewer than [2^32] headers and
    events, none with a line over the 16 MiB a player accepts, takes every one of them; its file,
    opened in the clear or under the database key, plays exactly their lines in order and nothing
    else, and its sidecar holds exactly one entry per event, with the event's time. *)
Theorem recording_plays_back :
  exists w' content sidecar es, played w' content sidecar /\
    match dbk with
    | None => exists it, open_cast_iter_at (Some content) None = inr it /\
        cast_records it = inr <$> lines_of now ops
    | Some dk => exists it, open_lfsr_iter_at (Some content) dk None = inr it /\
        records it = inr <$> lines_of now ops
    end /\
    read_all (Content sidecar) (idx_key (dbk ≫= fun _ => Some rk)) = inr es /\
    timestamp_ms <$> es = (times_from now 0 ops).*2.
Proof.
  destruct session_recorded as (w' & a & hd & frames & es & Hi & Hp & Hst & Hr & Hes & Hpl).
  destruct Hr as [_ Hc _ _ Hk [Hll Hlo] Hfr [_ Hcnt] (ix & _ & Hhe & Hsc) _ Hen]. rewrite Hp in *.
  exists w', (hd ++ concat frames), (ifile ix), es.*2. split; [by apply Hpl|]. split.
  - destruct dbk as [dk|]; destruct Hst as [Hhd Hka]; rewrite Hka in *.
    + destruct Hkeys as (Hdk & Hrk & _). eexists.
      rewrite (open_built _ _ _ _ _ _ _ Hhd Hrk Hdk), bool_decide_eq_true_2 by done. split; [done|].
      rewrite <-(drop_0 frames). rewrite (sealed_playback rk (lines_of now ops) frames 0 0) by (done || lia || auto).
      by rewrite bool_decide_eq_true_2.
    + subst hd. eexists. split; [done|]. cbn [app]. rewrite <-(drop_0 frames).
      by rewrite (plain_playback (lines_of now ops)).
  - split.
    + replace (dbk ≫= (fun _ => Some rk)) with (Recorder.key a).
      { apply read_all_whole; [done|]. rewrite length_fmap. lia. }
      destruct dbk; by destruct Hst as [_ ->].
    + rewrite <-Hes, <-!list_fmap_compose. done.
Qed.

(** Seeking in a session whose clock did not go back lands at or before the target:
    the hit names the position of an event in the sidecar and the byte where that event's
    line starts.  A plaintext recording opened there plays the lines from that event on.
    An encrypted one does so when opened with the number of the frame at that byte, and
    with any other frame counter plays nothing but a decryption error; the frame number
    is the event's position among all recorded lines, not among the events. *)
Theorem seek_resumes_at_the_frame t :
  Sorted Z.le (times_from now 0 ops).*2 ->
  exists w' content sidecar, played w' content sidecar /\
    forall hit, seek (Content sidecar) t (bool_decide (is_Some dbk)) (idx_key (dbk ≫= fun _ => Some rk)) = inr (Some hit) ->
    exists j, times_from now 0 ops !! Z.to_nat (hit_entry_index hit) = Some (j, hit_timestamp_ms hit) /\
      hit_timestamp_ms hit <= t /\
      match dbk with
      | None => exists it, open_cast_iter_at (Some content) (Some (hit_offset hit)) = inr it /\
          cast_records it = inr <$> drop j (lines_of now ops)
      | Some dk => forall fi, 0 <= fi < 2 ^ 63 ->
          exists it, open_lfsr_iter_at (Some content) dk (Some (hit_offset hit, fi)) = inr it /\
            records it = if bool_decide (fi = Z.of_nat j) then inr <$> drop j (lines_of now ops)
                         else [inl (Crypto (CryptoFailed CipherFailed))]
      end.
Proof.
  intros Hsort. destruct session_recorded as (w' & a & hd & frames & es & Hi & Hp & Hst & Hr & Hes & Hpl).
  destruct Hr as [_ Hc _ _ Hk [Hll Hlo] Hfr [_ Hcnt] (ix & _ & Hhe & Hsc) Hoff Hen]. rewrite Hp in *.
  exists w', (hd ++ concat frames), (ifile ix). split; [by apply Hpl|]. intros hit Hseek.
  assert (Hra : read_all (Content (ifile ix)) (idx_key (Recorder.key a)) = inr es.*2)
    by (apply read_all_whole; [done|rewrite length_fmap; lia]).
  replace (dbk ≫= (fun _ => Some rk)) with (Recorder.key a) in Hseek
    by (destruct dbk; by destruct Hst as [_ ->]).
  replace (bool_decide (is_Some dbk)) with (bool_decide (is_Some (idx_key (Recorder.key a)))) in Hseek
    by (destruct dbk; by destruct Hst as [_ ->]).
  rewrite (seek_entries _ _ _ _ Hra) in Hseek by (by apply entries_sorted; rewrite Hes). injection Hseek as Hland.
  destruct (landing_entry es t hit) as (j & e & Hje & Hho & Hht & Hle);
    [by apply entries_sorted; rewrite Hes|done|].
  rewrite Hho, Hht. eapply Forall_lookup_1 in Hoff as [Hj Ho]; [|exact Hje]. cbn [fst snd] in *.
  exists j. split; [rewrite <-Hes, list_lookup_fmap, Hje; done|]. split; [exact Hle|].
  assert (Hdrop : drop (Z.to_nat (offset e)) (hd ++ concat frames) = concat (drop j frames)).
  { rewrite Ho, Nat2Z.id. rewrite <-(take_drop j frames) at 2. rewrite concat_app, app_assoc.
    by rewrite drop_app_length. }
  destruct dbk as [dk|]; destruct Hst as [Hhd Hka]; rewrite Hka in *.
  - intros fi Hfi. destruct Hkeys as (Hdk & Hrk & _).
    exists (mkIter (concat (drop j frames)) rk fi false).
    rewrite (open_built _ _ _ _ _ _ _ Hhd Hrk Hdk), bool_decide_eq_true_2 by done.
    cbv beta iota. rewrite Hdrop. split; [done|]. apply sealed_playback; auto.
  - exists (mkCast (concat (drop j frames)) false). unfold open_cast_iter_at. rewrite Hdrop.
    split; [done|]. by apply plain_playback.
Qed.

End Session.

(** ** Concrete sessions *)
Definition demo_walk : bool * list string -> Os -> StorageCap.dir_view := fun _ _ => StorageCap.RootMissing.
Definition demo_world (fs : list bool) : World := mkWorld ∅ (mkOs ∅ ∅ fs) [].
Definition demo_start : Z := 1700000000000000000.

Definition demo_event (s : string) (ms : Z) : op :=
  OpEvent Output (lit s) (demo_start + ms * 1000000) demo_nonce demo_nonce.
Definition demo_ops : list op :=
  [OpHeader 80 24 (lit "sh") demo_nonce; demo_event "a" 500; demo_event "b" 1500; demo_event "c" 2000].

Definition demo_path : string := "/app/recordings/s1/r.lfsr".

Lemma demo_quiet : quiet demo_walk None.
Proof. intros root o es Hc. injection Hc as <-. by vm_compute. Qed.

Lemma demo_ops_ok : Forall (op_ok demo_start) demo_ops.
Proof.
  unfold demo_ops. apply Forall_cons. split.
  - split; [split; [apply (bool_decide_unpack _); vm_compute; exact I|reflexivity]|vm_compute; discriminate].
  - repeat (apply Forall_cons; split; [split; [split; reflexivity|vm_compute; discriminate]|]).
    apply Forall_nil_2.
Qed.

Lemma recording_plays_back_witness :
  exists w' content sidecar it,
    played demo_walk None "r" "s1" demo_path (Some demo_db_key) demo_key demo_nonce demo_start demo_ops
      (demo_world []) w' content sidecar /\
    open_lfsr_iter_at (Some content) demo_db_key None = inr it /\
    records it = inr <$> lines_of demo_start demo_ops.
Proof.
  destruct (recording_plays_back demo_walk None "r" "s1" demo_path (Some demo_db_key) demo_key demo_nonce
    demo_start demo_ops (demo_world [])) as (w' & content & sidecar & es & Hp & (it & Ho & Hr) & _).
  - exact demo_quiet.
  - reflexivity.
  - reflexivity.
  - split_and!; reflexivity.
  - exact demo_ops_ok.
  - reflexivity.
  - exists w', content, sidecar, it. split; [exact Hp|]. split; [exact Ho|exact Hr].
Defined.

Lemma seek_resumes_at_the_frame_witness :
  exists w' content sidecar,
    played demo_walk None "r" "s1" demo_path None demo_key demo_nonce demo_start demo_ops
      (demo_world []) w' content sidecar /\
    forall hit, seek (Content sidecar) 1700 false None = inr (Some hit) ->
    exists j, times_from demo_start 0 demo_ops !! Z.to_nat (hit_entry_index hit) = Some (j, hit_timestamp_ms hit) /\
      hit_timestamp_ms hit <= 1700 /\
      exists it, open_cast_iter_at (Some content) (Some (hit_offset hit)) = inr it /\
        cast_records it = inr <$> drop j (lines_of demo_start demo_ops).
Proof.
  destruct (seek_resumes_at_the_frame demo_walk None "r" "s1" demo_path None demo_key demo_nonce
    demo_start demo_ops (demo_world [])) with (t := 1700) as (w' & content & sidecar & Hp & Hs).
  - exact demo_quiet.
  - reflexivity.
  - reflexivity.
  - exact I.
  - exact demo_ops_ok.
  - reflexivity.
  - vm_compute. repeat constructor; discriminate.
  - exists w', content, sidecar. split; [exact Hp|exact Hs].
Defined.

(** The two files of a session, and what the application's scrub bar does with them: it
    opens the recording at the hit with the hit's sidecar position as frame counter. *)
Definition session_files (fs : list bool) (dbk : option bytes) (ops : list op) : option (bytes * bytes) :=
  match register_with_io demo_walk None "r" "s1" demo_path dbk demo_key demo_nonce demo_start (demo_world fs) with
  | (inl _, _) => None
  | (inr _, w1) =>
      let w2 := (foldl (fun w o => (exec "r" o w).2) w1 ops) in
      c ← files (disk w2) !! demo_path; s ← files (disk w2) !! sidecar_name demo_path; Some (c, s)
  end.

Definition scrub (content sidecar : bytes) (t : Z) : option (list (ReaderError + list Z)) :=
  match seek (Content sidecar) t true (idx_key (Some demo_key)) with
  | inr (Some hit) =>
      match open_lfsr_iter_at (Some content) demo_db_key (Some (hit_offset hit, hit_entry_index hit)) with
      | inr it => Some (records it)
      | inl _ => None
      end
  | _ => None
  end.

(** The header line is frame 0 but has no sidecar entry, so entry [n] is frame [n + 1]:
    scrubbing in an encrypted recording that starts with its header always fails. *)
Example scrub_in_encrypted_session_fails :
  ('(c, s) ← session_files [] (Some demo_db_key) demo_ops; scrub c s 1700) =
  Some [inl (Crypto (CryptoFailed CipherFailed))].
Proof. by vm_compute. Qed.

(** A frame whose write failed has used up its number: what is recorded after it no
    longer plays, although every later write succeeded. *)
Definition play (dbk content : bytes) : option (list (ReaderError + list Z)) :=
  match open_lfsr_iter_at (Some content) dbk None with inr it => Some (records it) | inl _ => None end.

Example failed_write_breaks_the_rest :
  ('(c, s) ← session_files (replicate 12 false ++ [true]) (Some demo_db_key) demo_ops; play demo_db_key c) =
  Some (take 2 (inr <$> lines_of demo_start demo_ops) ++ [inl (Crypto (CryptoFailed CipherFailed))]).
Proof. by vm_compute. Qed.

(** The sweep spares the files being written, but not their sidecars. *)
Example live_sidecar_is_evicted :
  let w := (register_with_io demo_walk None "r" "s1" demo_path None [] [] demo_start (demo_world [])).2 in
  let sc := sidecar_name demo_path in
  let root := StorageCap.Root [Some (StorageCap.mkSession (Some StorageCap.Dir) (Some
    [Some (StorageCap.mkFile demo_path (Some (StorageCap.File 600 (Some 2))));
     Some (StorageCap.mkFile sc (Some (StorageCap.File 5 (Some 1))))]))] in
  files (disk w) !! sc <> None /\
  files (StorageCap.enforce_storage_cap root 500 (active_paths w) (disk w)).2 !! sc = None.
Proof. split; vm_compute; done. Qed.
