(* ===== verification/RecQueue.v ===== *)
(** * The per-recording write queue ([recorder/queue.rs])

    Terminal chunks are gathered per direction in [EventBuffers]; a buffer that grows past
    a threshold is drained at once, any other by a timer.  What a drain took is sent to
    the mailbox of the worker one entry at a time by the task that drained, so several
    tasks can be sending at once: [step] interleaves the critical sections, the sends and
    the worker's receives.  [Worker] is what the worker does with an entry. *)
From Stdlib Require Import ZArith Lia.
From stdpp Require Import prelude gmap strings list.
From S2P Require Import Prelude Text Types Bus Json Prog Crypto RecFormat RecIndex RecText StorageCap Recorder.

Open Scope Z_scope.

Module RecQueue.
Import RecText.

Definition FLUSH_THRESHOLD_BYTES : nat := 8 * 1024.
Definition QUEUE_CAPACITY : nat := 1024.

Inductive QueueEntry :=
| Header (width height : Z) (shell_label : list Z)
| Event (kind : RecordDirection) (chunk : bytes)
| Rotate (new_path : string)
| Close.

(** [flush_task] is the pending timer, by its number. *)
Record EventBuffers := mkBuffers {
  output : bytes;
  input : bytes;
  flush_task : option nat
}.

Definition new : EventBuffers := mkBuffers [] [] None.

(** The buffer of a direction. *)
Definition buffer (k : RecordDirection) (b : EventBuffers) : bytes :=
  match k with Output => output b | Input => input b end.

(** One entry per direction that holds something, output first. *)
Definition taken (b : EventBuffers) : list (RecordDirection * bytes) :=
  (if bool_decide (output b = []) then [] else [(Output, output b)]) ++
  (if bool_decide (input b = []) then [] else [(Input, input b)]).

Definition drain (b : EventBuffers) : list (RecordDirection * bytes) * EventBuffers := (taken b, new).

(** The critical section of [enqueue_event_chunk]; [timer] numbers a timer it may arm.
    The result is what has to be sent, if anything. *)
Definition push_chunk (k : RecordDirection) (chunk : bytes) (timer : nat) (b : EventBuffers) :
    option (list (RecordDirection * bytes)) * EventBuffers :=
  let b := match k with
           | Output => mkBuffers (output b ++ chunk) (input b) (flush_task b)
           | Input => mkBuffers (output b) (input b ++ chunk) (flush_task b)
           end in
  if (FLUSH_THRESHOLD_BYTES <=? length (buffer k b))%nat then
    let '(items, b') := drain b in (Some items, b')
  else
    (None, match flush_task b with
           | None => mkBuffers (output b) (input b) (Some timer)
           | Some _ => b
           end).

Definition entries (items : list (RecordDirection * bytes)) : list QueueEntry :=
  (fun kb => Event kb.1 kb.2) <$> items.

(** The state of one recording's queue: the buffers, the timers that have not fired, the
    entries each sending task still has to send, the mailbox, and what the worker took. *)
Record Queue := mkQueue {
  buffers : EventBuffers;
  timers : gset nat;
  sending : gmap nat (list QueueEntry);
  mailbox : list QueueEntry;
  received : list QueueEntry
}.

Definition start : Queue := mkQueue new ∅ ∅ [] [].

(** What a step does to the stream of chunks. *)
Inductive label := Chunk (k : RecordDirection) (chunk : bytes) | Timer | Blocking (e : QueueEntry) | Inside.

Inductive step : label -> Queue -> Queue -> Prop :=
| step_chunk q k chunk timer task items b' :
    chunk <> [] -> timer ∉ timers q -> sending q !! task = None ->
    push_chunk k chunk timer (buffers q) = (items, b') ->
    step (Chunk k chunk) q (mkQueue b'
      (match flush_task b' with Some t => {[t]} ∪ timers q | None => timers q end)
      (match items with Some it => <[task := entries it]> (sending q) | None => sending q end)
      (mailbox q) (received q))
| step_timer q timer task items b' :
    timer ∈ timers q -> sending q !! task = None ->
    drain (buffers q) = (items, b') ->
    step Timer q (mkQueue b' (timers q ∖ {[timer]}) (<[task := entries items]> (sending q))
      (mailbox q) (received q))
| step_blocking q e task items b' :
    (forall k c, e <> Event k c) -> sending q !! task = None -> drain (buffers q) = (items, b') ->
    step (Blocking e) q (mkQueue b' (timers q) (<[task := entries items ++ [e]]> (sending q))
      (mailbox q) (received q))
| step_send q task e es :
    sending q !! task = Some (e :: es) -> (length (mailbox q) < QUEUE_CAPACITY)%nat ->
    step Inside q (mkQueue (buffers q) (timers q) (<[task := es]> (sending q)) (mailbox q ++ [e]) (received q))
| step_sent q task :
    sending q !! task = Some [] ->
    step Inside q (mkQueue (buffers q) (timers q) (delete task (sending q)) (mailbox q) (received q))
| step_recv q e es :
    mailbox q = e :: es ->
    step Inside q (mkQueue (buffers q) (timers q) (sending q) es (received q ++ [e])).

(** Runs from the start, with the chunks they took in order.  A calm run takes in
    chunks and drains only while no task is still sending. *)
Definition chunk_of (l : label) : list (RecordDirection * bytes) :=
  match l with Chunk k c => [(k, c)] | _ => [] end.

Inductive run : list (RecordDirection * bytes) -> Queue -> Prop :=
| run_start : run [] start
| run_step chunks q l q' : run chunks q -> step l q q' -> run (chunks ++ chunk_of l) q'.

Inductive calm : list (RecordDirection * bytes) -> Queue -> Prop :=
| calm_start : calm [] start
| calm_step chunks q l q' :
    calm chunks q -> step l q q' -> l = Inside \/ sending q = ∅ -> calm (chunks ++ chunk_of l) q'.

End RecQueue.

Import RecText RecQueue.

(** ** Accounting *)

Lemma threshold_positive : (0 < FLUSH_THRESHOLD_BYTES)%nat.
Proof. apply Nat.ltb_lt. by vm_compute. Qed.

#[local] Opaque FLUSH_THRESHOLD_BYTES QUEUE_CAPACITY.

(** The bytes of one direction in a list of pieces. *)
Definition of_dir (k : RecordDirection) (ps : list (RecordDirection * bytes)) : bytes :=
  concat (filter (fun p => p.1 = k) ps).*2.

Definition event_of (e : QueueEntry) : option (RecordDirection * bytes) :=
  match e with Event k c => Some (k, c) | _ => None end.

Definition in_flight (q : Queue) : list QueueEntry := concat (map_to_list (sending q)).*2.

(** Everything the worker got or will get, as events. *)
Definition delivered (q : Queue) : list (RecordDirection * bytes) :=
  omap event_of (received q ++ mailbox q ++ in_flight q).

Lemma of_dir_app k a b : of_dir k (a ++ b) = of_dir k a ++ of_dir k b.
Proof. unfold of_dir. by rewrite filter_app, fmap_app, concat_app. Qed.

Lemma of_dir_one k d c : of_dir k [(d, c)] = if bool_decide (d = k) then c else [].
Proof.
  unfold of_dir. case_bool_decide as Hd.
  - rewrite filter_cons_True by done. simpl. apply app_nil_r.
  - by rewrite filter_cons_False by done.
Qed.

Lemma of_dir_piece k d c :
  of_dir k (if bool_decide (c = []) then [] else [(d, c)]) = if bool_decide (d = k) then c else [].
Proof. case_bool_decide as Hc; [subst; by case_bool_decide|apply of_dir_one]. Qed.

Lemma of_dir_taken k b : of_dir k (taken b) = buffer k b.
Proof.
  unfold taken. rewrite of_dir_app, !of_dir_piece. destruct k; simpl; by rewrite ?app_nil_r.
Qed.

Lemma omap_entries items : omap event_of (entries items) = items.
Proof. induction items as [|[k c] items IH]; [done|]. cbn. f_equal. apply IH. Qed.

Lemma buffer_push k chunk timer b items b' d :
  push_chunk k chunk timer b = (items, b') ->
  of_dir d (default [] items) ++ buffer d b' = buffer d b ++ of_dir d [(k, chunk)].
Proof.
  unfold push_chunk, drain. intros Hp. rewrite of_dir_one.
  set (b1 := match k with Output => _ | Input => _ end) in Hp.
  assert (Hb1 : buffer d b1 = buffer d b ++ (if bool_decide (k = d) then chunk else [])).
  { subst b1. destruct k, d; simpl; by rewrite ?app_nil_r. }
  rewrite <-Hb1. destruct (_ <=? _)%nat; simplify_eq/=.
  - rewrite of_dir_taken. destruct d; apply app_nil_r.
  - by destruct (flush_task b1), d.
Qed.

(** ** What is in flight *)
Lemma concat_perm {A} (l1 l2 : list (list A)) : l1 ≡ₚ l2 -> concat l1 ≡ₚ concat l2.
Proof.
  induction 1 as [| |x y l|]; simpl; [done|by f_equiv| |by etrans].
  rewrite !app_assoc. f_equiv. apply Permutation_app_comm.
Qed.

Definition flat (m : gmap nat (list QueueEntry)) : list QueueEntry := concat (map_to_list m).*2.

Lemma flat_insert m task es : m !! task = None -> flat (<[task := es]> m) ≡ₚ es ++ flat m.
Proof.
  intros Hm. unfold flat. transitivity (concat ((task, es) :: map_to_list m).*2); [|done].
  apply concat_perm, fmap_Permutation, map_to_list_insert, Hm.
Qed.

Lemma flat_lookup m task es : m !! task = Some es -> flat m ≡ₚ es ++ flat (delete task m).
Proof.
  intros Hm. rewrite <-(insert_delete_id m task es) at 1 by done. apply flat_insert, lookup_delete_eq.
Qed.

Lemma flat_update m task e es :
  m !! task = Some (e :: es) -> flat m ≡ₚ e :: flat (<[task := es]> m).
Proof.
  intros Hm. rewrite (flat_lookup _ _ _ Hm). rewrite <-insert_delete_eq.
  rewrite flat_insert by apply lookup_delete_eq. done.
Qed.

Lemma delivered_perm r m f r' m' f' :
  r ++ m ++ f ≡ₚ r' ++ m' ++ f' -> omap event_of (r ++ m ++ f) ≡ₚ omap event_of (r' ++ m' ++ f').
Proof. intros Hp. by apply omap_Permutation. Qed.

(** The invariant: some pieces were drained, in order; with what the buffers hold they
    are the chunks; a full buffer is never left, and one that holds something has a timer. *)
Record keeping (chunks : list (RecordDirection * bytes)) (ps : list (RecordDirection * bytes)) (q : Queue) : Prop := {
  k_bytes : forall k, of_dir k ps ++ buffer k (buffers q) = of_dir k chunks;
  k_small : forall k, (length (buffer k (buffers q)) < FLUSH_THRESHOLD_BYTES)%nat;
  k_armed : forall k, buffer k (buffers q) <> [] -> is_Some (flush_task (buffers q));
  k_timer : forall t, flush_task (buffers q) = Some t -> t ∈ timers q
}.

Lemma keeping_drained chunks ps q ts m mb rc :
  keeping chunks ps q -> keeping chunks (ps ++ taken (buffers q)) (mkQueue new ts m mb rc).
Proof.
  intros [Hb Hs Ha Ht]. split; try done.
  - intros k. rewrite of_dir_app, of_dir_taken, <-Hb. destruct k; apply app_nil_r.
  - intros []; apply threshold_positive.
  - by intros [].
Qed.

Lemma keeping_chunk chunks ps q k chunk timer items b' m mb rc :
  keeping chunks ps q -> push_chunk k chunk timer (buffers q) = (items, b') ->
  keeping (chunks ++ [(k, chunk)]) (ps ++ default [] items)
    (mkQueue b' (match flush_task b' with Some t => {[t]} ∪ timers q | None => timers q end) m mb rc).
Proof.
  intros [Hb Hs Ha Ht] Hp. split; cbn [buffers timers].
  - intros d. rewrite !of_dir_app, <-Hb, <-!app_assoc. f_equal. by eapply buffer_push.
  - intros d. unfold push_chunk, drain in Hp.
    destruct (_ <=? _)%nat eqn:E; simplify_eq/=; [destruct d; apply threshold_positive|].
    apply Nat.leb_gt in E. specialize (Hs d).
    destruct k, d; simpl in *; destruct (flush_task (buffers q)); simpl in *; lia.
  - intros d Hd. unfold push_chunk, drain in Hp.
    destruct (_ <=? _)%nat; simplify_eq/=; [by destruct d|].
    destruct k; simpl; destruct (flush_task (buffers q)); simpl; eauto.
  - intros t Hf. rewrite Hf. set_solver.
Qed.


Lemma omap_events_app l1 l2 : omap event_of (l1 ++ l2) = omap event_of l1 ++ omap event_of l2.
Proof. apply omap_app. Qed.

Lemma not_event e : (forall k c, e <> Event k c) -> omap event_of [e] = [].
Proof. destruct e as [| k c| |]; try done. intros He. by destruct (He k c). Qed.

Definition outgoing (q : Queue) : list QueueEntry := received q ++ mailbox q ++ flat (sending q).

Lemma outgoing_insert q b ts task es :
  sending q !! task = None ->
  outgoing (mkQueue b ts (<[task := es]> (sending q)) (mailbox q) (received q)) ≡ₚ outgoing q ++ es.
Proof.
  intros Hn. unfold outgoing. cbn [received mailbox sending]. rewrite flat_insert by done.
  by rewrite (Permutation_app_comm es), !app_assoc.
Qed.

(** One step keeps the account; the pieces it drained are now on their way. *)
Lemma step_keeping chunks ps q l q' :
  keeping chunks ps q -> step l q q' ->
  exists new_ps, keeping (chunks ++ chunk_of l) (ps ++ new_ps) q' /\
    omap event_of (outgoing q') ≡ₚ omap event_of (outgoing q) ++ new_ps.
Proof.
  intros Hk Hs. destruct Hs as
    [q k chunk timer task items b' Hc Ht Hn Hp|q timer task items b' Ht Hn Hd|q e task items b' He Hn Hd
    |q task e es Hl Hcap|q task Hl|q e es Hm]; cbn [chunk_of]; rewrite ?app_nil_r.
  - exists (default [] items). split; [by eapply keeping_chunk|].
    destruct items as [it|]; [|by rewrite app_nil_r].
    by rewrite outgoing_insert, omap_events_app, omap_entries.
  - injection Hd as <- <-. exists (taken (buffers q)). split; [by eapply keeping_drained|].
    by rewrite outgoing_insert, omap_events_app, omap_entries.
  - injection Hd as <- <-. exists (taken (buffers q)). split; [by eapply keeping_drained|].
    by rewrite outgoing_insert, !omap_events_app, omap_entries, (not_event e He), app_nil_r.
  - exists []. rewrite !app_nil_r. split; [by destruct Hk|]. apply omap_Permutation.
    unfold outgoing. cbn [received mailbox sending]. rewrite (flat_update _ _ _ _ Hl).
    by rewrite <-!app_assoc.
  - exists []. rewrite !app_nil_r. split; [by destruct Hk|]. apply omap_Permutation.
    unfold outgoing. cbn [received mailbox sending]. by rewrite (flat_lookup _ _ _ Hl).
  - exists []. rewrite !app_nil_r. split; [by destruct Hk|]. unfold outgoing.
    cbn [received mailbox sending]. rewrite Hm, <-!app_assoc. done.
Qed.

(** No recorded byte is lost or written twice, whatever the interleaving of chunks,
    timers, blocking entries, sends and receives: the pieces drained so far, in order,
    followed by what the buffers hold, are per direction exactly the chunks taken in; the
    events received, in the mailbox or being sent are exactly those pieces; a buffer
    never reaches the threshold, and one that holds bytes has a timer that will drain it. *)
Theorem queue_keeps_every_byte chunks q :
  run chunks q ->
  exists ps, (forall k, of_dir k ps ++ buffer k (buffers q) = of_dir k chunks) /\
    delivered q ≡ₚ ps /\
    forall k, (length (buffer k (buffers q)) < FLUSH_THRESHOLD_BYTES)%nat /\
      (buffer k (buffers q) <> [] -> exists t, flush_task (buffers q) = Some t /\ t ∈ timers q).
Proof.
  intros Hr. assert (Hinv : exists ps, keeping chunks ps q /\ delivered q ≡ₚ ps).
  { induction Hr as [|chunks q l q' _ (ps & Hk & Hd) Hs].
    - exists []. split; [|done]. split; [by intros []|intros []; apply threshold_positive|by intros []|done].
    - destruct (step_keeping _ _ _ _ _ Hk Hs) as (n & Hk' & Hd'). exists (ps ++ n). split; [done|].
      unfold delivered in *. unfold outgoing in Hd'. fold (in_flight q) in Hd'. fold (in_flight q') in Hd'.
      by rewrite Hd', Hd. }
  destruct Hinv as (ps & [Hb Hs Ha Ht] & Hd). exists ps. split_and!; [done..|].
  intros k. split; [done|]. intros Hne. destruct (Ha k Hne) as [t Hf]. eauto.
Qed.

(** ** Calm runs *)
Lemma calm_run chunks q : calm chunks q -> run chunks q.
Proof. induction 1; econstructor; eauto. Qed.

(** At most one task is sending. *)
Definition single (m : gmap nat (list QueueEntry)) : Prop := m = ∅ \/ exists task es, m = {[task := es]}.

Lemma flat_singleton task es : flat {[task := es]} = es.
Proof. unfold flat. rewrite map_to_list_singleton. simpl. apply app_nil_r. Qed.

Lemma single_lookup m task es : single m -> m !! task = Some es -> m = {[task := es]}.
Proof.
  intros [->|(t' & es' & ->)] Hl; [done|]. by apply lookup_singleton_Some in Hl as [-> ->].
Qed.

Lemma outgoing_start q b ts task es :
  sending q = ∅ ->
  single (<[task := es]> (sending q)) /\
  outgoing (mkQueue b ts (<[task := es]> (sending q)) (mailbox q) (received q)) = outgoing q ++ es.
Proof.
  intros Hs. unfold outgoing. cbn [received mailbox sending]. rewrite Hs, insert_empty. split; [right; eauto|].
  rewrite flat_singleton. unfold flat. rewrite map_to_list_empty. simpl. by rewrite app_nil_r, app_assoc.
Qed.

(** In a calm run what is on its way is in the order it was drained. *)
Lemma calm_step_keeping chunks ps q l q' :
  keeping chunks ps q -> single (sending q) -> omap event_of (outgoing q) = ps ->
  step l q q' -> l = Inside \/ sending q = ∅ ->
  exists ps', keeping (chunks ++ chunk_of l) ps' q' /\ single (sending q') /\ omap event_of (outgoing q') = ps'.
Proof.
  intros Hk Hsg Ho Hs Hcalm. destruct Hs as
    [q k chunk timer task items b' Hc Ht Hn Hp|q timer task items b' Ht Hn Hd|q e task items b' He Hn Hd
    |q task e es Hl Hcap|q task Hl|q e es Hm]; cbn [chunk_of]; rewrite ?app_nil_r.
  - destruct Hcalm as [|Hcalm]; [done|]. exists (ps ++ default [] items). split; [by eapply keeping_chunk|].
    destruct items as [it|]; [|by rewrite app_nil_r].
    destruct (outgoing_start q b' (match flush_task b' with Some t => {[t]} ∪ timers q | None => timers q end)
      task (entries it) Hcalm) as [H1 H2]. split; [done|]. by rewrite H2, omap_events_app, omap_entries, Ho.
  - destruct Hcalm as [|Hcalm]; [done|]. injection Hd as <- <-. exists (ps ++ taken (buffers q)).
    split; [by eapply keeping_drained|].
    destruct (outgoing_start q new (timers q ∖ {[timer]}) task (entries (taken (buffers q))) Hcalm) as [H1 H2].
    split; [done|]. by rewrite H2, omap_events_app, omap_entries, Ho.
  - destruct Hcalm as [|Hcalm]; [done|]. injection Hd as <- <-. exists (ps ++ taken (buffers q)).
    split; [by eapply keeping_drained|].
    destruct (outgoing_start q new (timers q) task (entries (taken (buffers q)) ++ [e]) Hcalm) as [H1 H2].
    split; [done|]. by rewrite H2, !omap_events_app, omap_entries, (not_event e He), app_nil_r, Ho.
  - exists ps. split; [by destruct Hk|]. pose proof (single_lookup _ _ _ Hsg Hl) as Hsq.
    rewrite <-Ho. unfold outgoing. cbn [received mailbox sending]. rewrite Hsq, insert_singleton_eq.
    split; [right; eauto|]. rewrite !flat_singleton. by rewrite <-!app_assoc.
  - exists ps. split; [by destruct Hk|]. pose proof (single_lookup _ _ _ Hsg Hl) as Hsq.
    rewrite <-Ho. unfold outgoing. cbn [received mailbox sending]. rewrite Hsq, delete_singleton_eq.
    split; [by left|]. rewrite flat_singleton. unfold flat. by rewrite map_to_list_empty.
  - exists ps. split; [by destruct Hk|]. split; [done|]. rewrite <-Ho. unfold outgoing.
    cbn [received mailbox sending]. rewrite Hm, <-app_assoc. done.
Qed.

(** If nobody takes in or drains while another task is still sending, then the worker
    gets every direction's bytes in the order they arrived: what was received, what waits
    in the mailbox, what is being sent and what is buffered are, one after the other,
    exactly the chunks. *)
Theorem calm_queue_keeps_order chunks q :
  calm chunks q -> forall k, of_dir k (delivered q) ++ buffer k (buffers q) = of_dir k chunks.
Proof.
  intros Hr.
  assert (Hinv : exists ps, keeping chunks ps q /\ single (sending q) /\ omap event_of (outgoing q) = ps).
  { induction Hr as [|chunks q l q' _ (ps & Hk & Hsg & Ho) Hs Hcalm]; [|by eapply calm_step_keeping].
    exists []. split; [|split; [by left|done]].
    split; [by intros []|intros []; apply threshold_positive|by intros []|done]. }
  destruct Hinv as (ps & [Hb _ _ _] & _ & <-). exact Hb.
Qed.

(** The smallest chunk that is drained at once. *)
Definition burst : bytes := replicate FLUSH_THRESHOLD_BYTES 98.

Lemma burst_drained timer : push_chunk Output burst timer new = (Some [(Output, burst)], new).
Proof.
  pose proof threshold_positive as Hp. unfold push_chunk, burst, new, drain, taken. cbn [buffer output input app].
  rewrite length_replicate, Nat.leb_refl.
  rewrite bool_decide_eq_false_2, bool_decide_eq_true_2; [done|done|].
  intros He. apply (f_equal length) in He. rewrite length_replicate in He. simpl in He. lia.
Qed.

(** Two pieces of output, the first drained by its timer: the task that drained it has not
    sent it when the second is drained and sent, so the worker gets them in the wrong
    order. *)
Example overtaken_flush_reorders :
  exists q, run [(Output, [97]); (Output, burst)] q /\
    delivered q = [(Output, burst); (Output, [97])] /\ buffers q = new.
Proof.
  pose proof threshold_positive as Hp.
  set (b1 := mkBuffers [97] [] (Some 0%nat)).
  set (q1 := mkQueue b1 ({[0%nat]} ∪ ∅) ∅ [] []).
  set (q2 := mkQueue new (({[0%nat]} ∪ ∅) ∖ {[0%nat]}) (<[1%nat := [Event Output [97]]]> ∅) [] []).
  set (q3 := mkQueue new (timers q2) (<[0%nat := [Event Output burst]]> (sending q2)) [] []).
  set (q4 := mkQueue new (timers q2) (<[0%nat := []]> (sending q3)) [Event Output burst] []).
  exists (mkQueue new (timers q2) (<[1%nat := []]> (sending q4)) [Event Output burst; Event Output [97]] []).
  split; [|split; [|done]].
  - change [(Output, [97]); (Output, burst)] with
      (((((([] ++ [(Output, [97])]) ++ []) ++ [(Output, burst)]) ++ []) ++ []) : list (RecordDirection * bytes)).
    apply (run_step _ q4 Inside); [apply (run_step _ q3 Inside); [apply (run_step _ q2 (Chunk Output burst));
      [apply (run_step _ q1 Timer); [apply (run_step _ start (Chunk Output [97])); [apply run_start|]|]|]|]|].
    + apply (step_chunk start Output [97] 0 2 None b1); [done|set_solver|done|].
      unfold push_chunk. cbn [buffer buffers start new output input app flush_task length].
      assert (Hlt : (FLUSH_THRESHOLD_BYTES <=? 1)%nat = false) by (apply Nat.leb_gt, Nat.ltb_lt; by vm_compute).
      by rewrite Hlt.
    + apply (step_timer q1 0 1 [(Output, [97])] new); [set_solver|done|done].
    + apply (step_chunk q2 Output burst 0 0 (Some [(Output, burst)]) new); [|set_solver|done|apply burst_drained].
      intros He. apply (f_equal length) in He. unfold burst in He. rewrite length_replicate in He. simpl in He. lia.
    + apply (step_send q3 0 (Event Output burst) []); [done|]. apply Nat.ltb_lt. by vm_compute.
    + apply (step_send q4 1 (Event Output [97]) []); [done|]. apply Nat.ltb_lt. by vm_compute.
  - reflexivity.
Qed.

Lemma small_chunk : (FLUSH_THRESHOLD_BYTES <=? 1)%nat = false.
Proof. apply Nat.leb_gt, Nat.ltb_lt. by vm_compute. Qed.

Definition demo_waiting : Queue := mkQueue (mkBuffers [97] [] (Some 0%nat)) ({[0%nat]} ∪ ∅) ∅ [] [].
Definition demo_sending : Queue :=
  mkQueue new (({[0%nat]} ∪ ∅) ∖ {[0%nat]}) (<[1%nat := [Event Output [97]]]> ∅) [] [].

Lemma demo_calm : calm [(Output, [97])] demo_sending.
Proof.
  apply (calm_step [(Output, [97])] demo_waiting Timer);
    [apply (calm_step [] start (Chunk Output [97])); [apply calm_start| |by right]| |by right].
  - apply (step_chunk start Output [97] 0 2 None); [done|set_solver|done|].
    unfold push_chunk. cbn [buffer buffers start new output input app flush_task length]. by rewrite small_chunk.
  - apply (step_timer demo_waiting 0 1 [(Output, [97])] new); [set_solver|done|done].
Qed.

Lemma queue_keeps_every_byte_witness :
  exists ps, (forall k, of_dir k ps ++ buffer k (buffers demo_sending) = of_dir k [(Output, [97])]) /\
    delivered demo_sending ≡ₚ ps /\
    forall k, (length (buffer k (buffers demo_sending)) < FLUSH_THRESHOLD_BYTES)%nat /\
      (buffer k (buffers demo_sending) <> [] ->
       exists t, flush_task (buffers demo_sending) = Some t /\ t ∈ timers demo_sending).
Proof. apply (queue_keeps_every_byte [(Output, [97])] demo_sending). apply calm_run, demo_calm. Defined.

Lemma calm_queue_keeps_order_witness :
  of_dir Output (delivered demo_sending) ++ buffer Output (buffers demo_sending) =
  of_dir Output [(Output, [97])].
Proof. apply (calm_queue_keeps_order [(Output, [97])] demo_sending demo_calm Output). Defined.

(** ** The worker *)
Module Worker.
Import Recorder.

(** The random bytes and the clock of one entry. *)
Record Draws := mkDraws { d_now : Z; d_nonce : bytes; d_idx_nonce : bytes; d_key : bytes; d_wrap_nonce : bytes }.

Section Worker.
Context `{Primitives}.
Variable walk : bool * list string -> Os -> StorageCap.dir_view.
Variable config : option json.
Variable describe : Error -> string.

Definition send (e : Bus.Event) (w : World) : World := (publish e w).2.

Definition publish_recorder_failure (i kind detail : string) (w : World) : World :=
  send (RecorderWriteFailed i kind detail) w.

(** [resolve_blocking_result]: the value, or a published failure. *)
Definition resolve {A} (i kind : string) (res : (Error + A) * World) : option A * World :=
  match res with
  | (inr a, w) => (Some a, w)
  | (inl e, w) => (None, publish_recorder_failure i kind (describe e) w)
  end.

Definition handle_header (i : string) (width height : Z) (shell : list Z) (d : Draws) (w : World) : World :=
  (resolve i "header" (record_header i width height shell (d_nonce d) w)).2.

Definition handle_event (i : string) (kind : RecordDirection) (chunk : bytes) (d : Draws) (rotate_requested : bool)
    (w : World) : bool * World :=
  let '(total_after, w) := resolve i "event" (record_event i kind chunk (d_now d) (d_nonce d) (d_idx_nonce d) w) in
  if rotate_requested then (true, w)
  else
    match total_after with
    | Some total =>
        if Lfr.MAX_FILE_BYTES <? total then (true, send (RecorderRotateRequested i total) w) else (false, w)
    | None => (false, w)
    end.

Definition handle_rotate (i new_path : string) (d : Draws) (w : World) : bool * World :=
  (false, (resolve i "rotate" (rotate_to i new_path (d_key d) (d_wrap_nonce d) w)).2).

Definition handle_close (i : string) (w : World) : World :=
  (resolve i "close" (close_with_io walk config i w)).2.

(** One turn of [worker_loop]: whether it goes on, its latch, and the world. *)
Definition turn (i : string) (e : QueueEntry) (d : Draws) (rotate_requested : bool) (w : World) :
    bool * bool * World :=
  match e with
  | Header wd ht sh => (true, rotate_requested, handle_header i wd ht sh d w)
  | Event k c => let '(r, w) := handle_event i k c d rotate_requested w in (true, r, w)
  | Rotate p => let '(r, w) := handle_rotate i p d w in (true, r, w)
  | Close => (false, rotate_requested, handle_close i w)
  end.

(** The loop over the entries it receives; without a [Close] it ends when the channel
    closes, with a best-effort close of its own. *)
Fixpoint worker_loop (i : string) (es : list (QueueEntry * Draws)) (rotate_requested : bool) (w : World) : World :=
  match es with
  | [] => handle_close i w
  | (e, d) :: es =>
      match turn i e d rotate_requested w with
      | (true, r, w) => worker_loop i es r w
      | (false, _, w) => w
      end
  end.

End Worker.
End Worker.

(** ** Rotation requests *)
Section Requests.
Context `{Primitives}.
Variable describe : Recorder.Error -> string.

Definition is_request (e : Bus.Event) : Prop :=
  match e with RecorderRotateRequested _ _ => True | _ => False end.
#[export] Instance is_request_dec e : Decision (is_request e).
Proof. destruct e; apply _. Defined.

Definition requests (w : Recorder.World) : nat := length (filter is_request (Recorder.published w)).

(** An operation that requests no rotation. *)
Definition modest {A} (m : Recorder.M A) : Prop := forall w, requests (m w).2 = requests w.

Lemma modest_bind {A B} (m : Recorder.M A) (f : A -> Recorder.M B) :
  modest m -> (forall a, modest (f a)) -> modest (Recorder.bind m f).
Proof.
  intros Hm Hf w. unfold Recorder.bind. specialize (Hm w). destruct (m w) as [[e|a] w']; [done|].
  simpl in Hm. by rewrite Hf.
Qed.

Lemma modest_publish e : ~ is_request e -> modest (Recorder.publish e).
Proof.
  intros He w. unfold requests. cbn [Recorder.publish Recorder.published snd].
  rewrite filter_app, filter_cons_False, filter_nil, app_nil_r; done.
Qed.

Lemma modest_os {A} what (f : Os -> (io_error + A) * Os) : modest (Recorder.os what f).
Proof. intros w. unfold Recorder.os. by destruct (f (Recorder.disk w)) as [[e|a] o]. Qed.

Lemma record_frame_modest i pt n : modest (Recorder.record_frame_at i pt n).
Proof.
  apply modest_bind; [intros w; unfold Recorder.lookup_actor; by case_match|]. intros a.
  destruct (Recorder.file a); [|by intros w]. apply modest_bind; [by intros w|]. intros _.
  destruct (Lfr.build_frame _ _ _ _); [by intros w|]. apply modest_bind; [apply modest_os|]. intros _.
  apply modest_bind; [by intros w|]. intros _. apply modest_bind; [apply modest_publish; by intros []|]. by intros _ w.
Qed.

Lemma append_entry_modest i e n : modest (Recorder.append_entry i e n).
Proof.
  intros w. unfold Recorder.append_entry. destruct (Recorder.by_id w !! i) as [a|]; [|done].
  destruct (Recorder.index a); [|done]. destruct (Index.append n true e i0) as [[|] ?]; [done|].
  by destruct (Os.next_fault (Recorder.disk w)).
Qed.

Lemma record_event_modest i k c now n xn : modest (Recorder.record_event i k c now n xn).
Proof.
  destruct c as [|b c]; [by intros w|]. apply modest_bind.
  { intros w. unfold Recorder.lookup_actor. by case_match. }
  intros a. destruct (Recorder.started_at a); [|by intros w].
  apply modest_bind; [apply record_frame_modest|]. intros on.
  apply modest_bind; [apply append_entry_modest|]. by intros _ w.
Qed.

(** A run of events: the latch and the world. *)
Fixpoint handle_events (i : string) (es : list (RecordDirection * bytes * Worker.Draws)) (latch : bool)
    (w : Recorder.World) : bool * Recorder.World :=
  match es with
  | [] => (latch, w)
  | (k, c, d) :: es =>
      let '(latch, w) := Worker.handle_event describe i k c d latch w in handle_events i es latch w
  end.

Lemma handle_event_requests i k c d latch w :
  let '(latch', w') := Worker.handle_event describe i k c d latch w in
  (latch = true -> latch' = true) /\
  requests w' = (requests w + if latch' && negb latch then 1 else 0)%nat.
Proof.
  unfold Worker.handle_event, Worker.resolve.
  pose proof (record_event_modest i k c (Worker.d_now d) (Worker.d_nonce d) (Worker.d_idx_nonce d) w) as Hm.
  destruct (Recorder.record_event _ _ _ _ _ _ w) as [[e|total] w1]; cbn [snd] in Hm.
  - pose proof (modest_publish (RecorderWriteFailed i "event" (describe e)) (fun H => H) w1) as Hp.
    unfold Worker.publish_recorder_failure, Worker.send.
    destruct latch; rewrite Hp, Hm, Nat.add_0_r; done.
  - destruct latch; [by rewrite Hm, Nat.add_0_r|]. destruct (Lfr.MAX_FILE_BYTES <? total); [|by rewrite Hm, Nat.add_0_r].
    split; [done|]. rewrite <-Hm. unfold requests, Worker.send.
    cbn [Recorder.publish Recorder.published snd]. rewrite filter_app, length_app.
    by rewrite filter_cons_True.
Qed.

(** However many events follow, a rotation is requested at most once until one is
    carried out: none while the latch is set, and exactly one when it becomes set. *)
Theorem rotation_requested_once i es latch w :
  let '(latch', w') := handle_events i es latch w in
  (latch = true -> latch' = true) /\
  requests w' = (requests w + if latch' && negb latch then 1 else 0)%nat.
Proof.
  revert latch w. induction es as [|[[k c] d] es IH]; intros latch w; cbn [handle_events].
  - split; [done|]. destruct latch; simpl; lia.
  - pose proof (handle_event_requests i k c d latch w) as H1.
    destruct (Worker.handle_event describe i k c d latch w) as [l1 w1]. destruct H1 as [Hm1 Hr1].
    specialize (IH l1 w1). destruct (handle_events i es l1 w1) as [l2 w2]. destruct IH as [Hm2 Hr2].
    split; [auto|]. rewrite Hr2, Hr1.
    destruct latch, l1, l2; simpl; try lia; naive_solver.
Qed.

End Requests.
