(* ===== verification/RecMigrate.v ===== *)
(** * Moving recordings between database keys ([recorder/migrate.rs])

    A tier change rewraps the header of every encrypted recording, encrypts the plaintext
    ones, or decrypts the encrypted ones.  Each is a program of file operations over [Os];
    [crash] is where a power loss can stop it.  A recording is named by its path without
    extension; the paths of a sweep are what the directory walk lists, the suffixes of the
    temporary files are arguments. *)
From Stdlib Require Import ZArith Lia.
From stdpp Require Import prelude gmap strings list.
From S2P Require Import Prelude Text Prog Crypto RecFormat RecIndex.

Open Scope Z_scope.

Module RecMigrate.
Import Lfr.

Inductive Error :=
| Io (what : string)
| Format (e : Lfr.Error)
| LineTooLong
| Unreadable (e : Reader.ReaderError).

Definition bindE {A B} (p : prog Os (Error + A)) (q : A -> prog Os (Error + B)) : prog Os (Error + B) :=
  pbind p (fun r => match r with inl e => Ret (inl e) | inr a => q a end).

Declare Scope mig_scope.
Delimit Scope mig_scope with mig.
Notation "'let?' x := p 'in' q" := (bindE p (fun x => q))
  (at level 200, x name, p at level 100, q at level 200, right associativity) : mig_scope.
Open Scope mig_scope.
Open Scope prog_scope.

Definition io {A} (what : string) (f : Os -> (io_error + A) * Os) : prog Os (Error + A) :=
  pbind (call f) (fun r => Ret (match r with inl _ => inl (Io what) | inr a => inr a end)).

(** Best effort: the outcome is dropped. *)
Definition ignore {A} (f : Os -> A * Os) : prog Os (Error + unit) := pbind (call f) (fun _ => Ret (inr ())).

Definition create (p : string) : Os -> (io_error + unit) * Os :=
  Os.fallible (fun o => (inr (), mkOs (<[p := []]> (files o)) (keychain o) (faults o))).

Definition append (p : string) (b : bytes) : Os -> (io_error + unit) * Os :=
  Os.fallible (fun o => (inr (), mkOs (<[p := default [] (files o !! p) ++ b]> (files o)) (keychain o) (faults o))).

Definition open_file (p : string) : Os -> (io_error + unit) * Os :=
  Os.fallible (fun o => (match files o !! p with Some _ => inr () | None => inl NotFound end, o)).

Definition touch : Os -> (io_error + unit) * Os := Os.fallible (fun o => (inr (), o)).

Definition rename (src dst : string) : Os -> (io_error + unit) * Os :=
  Os.fallible (fun o =>
    match files o !! src with
    | Some b => (inr (), mkOs (<[dst := b]> (delete src (files o))) (keychain o) (faults o))
    | None => (inl NotFound, o)
    end).

Definition tmp_of (target suffix : string) : string := (target ++ ".tmp." ++ suffix)%string.
Definition cast_of (base : string) : string := (base ++ ".cast")%string.
Definition lfsr_of (base : string) : string := (base ++ ".lfsr")%string.

Section Migrate.
Context `{Primitives}.

(** A rename that removes its temporary files when it fails. *)
Definition commit (what src dst : string) (others : list string) : prog Os (Error + unit) :=
  let! r := call (rename src dst) in
  match r with
  | inr _ => Ret (inr ())
  | inl _ =>
      foldr (fun p k => bindE (ignore (Os.remove_file p)) (fun _ => k)) (Ret (inl (Io what))) (src :: others)
  end.

Definition best_effort_rename (src dst : string) : prog Os (Error + unit) :=
  let! r := call (rename src dst) in
  match r with inl _ => ignore (Os.remove_file src) | inr _ => Ret (inr ()) end.

Definition remove_if_there (p : string) : prog Os (Error + unit) :=
  let! e := call (Os.exists_ p) in
  if e then ignore (Os.remove_file p) else Ret (inr ()).

(** [true] when the header was rewrapped, [false] when the file was left alone. *)
Definition rewrap_one_header (path : string) (old_db_key new_db_key wrap_nonce : bytes) (suffix : string) :
    prog Os (Error + bool) :=
  let? _ := io "rewrap open" (open_file path) in
  let! read := call (Os.read_file path) in
  match match read with
        | inl e => inl e
        | inr content => from_option inr (inl OtherError) (Reader.read_exact LFR_HEADER_LEN content)
        end with
  | inl _ => Ret (inr false)
  | inr (header, body) =>
      if negb (bool_decide (take 4 header = LFR_MAGIC)) || negb (nth 4 header 0 =? LFR_VERSION) then Ret (inr false)
      else
        match unwrap_lfsr_header header new_db_key with
        | inr _ => Ret (inr false)
        | inl _ =>
            match unwrap_lfsr_header header old_db_key with
            | inl _ => Ret (inr false)
            | inr recording_key =>
                match build_lfsr_header wrap_nonce new_db_key recording_key with
                | inl e => Ret (inl (Format e))
                | inr new_header =>
                    let tmp := tmp_of path suffix in
                    let? _ := io "rewrap tmp create" (create tmp) in
                    let? _ := io "rewrap tmp header" (append tmp new_header) in
                    let? _ := io "copy_remaining" (append tmp body) in
                    let? _ := io "rewrap tmp fsync" touch in
                    let? _ := io "rewrap tmp harden" touch in
                    let? _ := commit "rewrap rename" tmp path [] in
                    Ret (inr true)
                end
            end
        end
  end.

Record MigrateOutcome := mkOutcome { converted : Z; skipped : Z }.

(** The walk applies an operation to every file and stops at the first error. *)
Fixpoint for_each {A} (op : A -> prog Os (Error + bool)) (xs : list A) (out : MigrateOutcome) :
    prog Os (Error + MigrateOutcome) :=
  match xs with
  | [] => Ret (inr out)
  | x :: xs =>
      let? done := op x in
      for_each op xs (if (done : bool) then mkOutcome (converted out + 1) (skipped out)
                      else mkOutcome (converted out) (skipped out + 1))
  end.

(** Each file with the random bytes of its rewrap. *)
Definition rewrap_all_headers (old_db_key new_db_key : bytes) (xs : list (string * bytes * string)) :
    prog Os (Error + MigrateOutcome) :=
  for_each (fun '(path, nonce, suffix) => rewrap_one_header path old_db_key new_db_key nonce suffix)
    xs (mkOutcome 0 0).

(** ** Plaintext to encrypted *)

(** [parse_event_timestamp_ms], which goes through serde_json. *)
Variable parse_event_timestamp_ms : bytes -> option Z.

(** One frame of [encode_cast_frame] and the entry it adds to the sidecar, whose writes
    are best effort. *)
Definition encode_cast_frame (payload : bytes) (frame_index frame_offset : Z) (recording_key nonce idx_nonce : bytes)
    (tmp_lfsr tmp_idx : string) (sidecar : Index.IndexWriter) :
    prog Os (Error + (Z * Index.IndexWriter)) :=
  match aes_gcm_encrypt_raw recording_key nonce payload (le_bytes 8 frame_index) with
  | inl e => Ret (inl (Format (CryptoFailed e)))
  | inr ct =>
      if 2 ^ 32 <=? Z.of_nat (length payload) then Ret (inl LineTooLong)
      else
        let? _ := io "frame write" (append tmp_lfsr (le_bytes 4 (Z.of_nat (length payload)))) in
        let? _ := io "frame write" (append tmp_lfsr nonce) in
        let? _ := io "frame write" (append tmp_lfsr ct) in
        let n := 4 + Z.of_nat NONCE_LEN + Z.of_nat (length ct) in
        match parse_event_timestamp_ms payload with
        | None => Ret (inr (n, sidecar))
        | Some ts =>
            match Index.append idx_nonce true (Index.mkEntry frame_offset ts) sidecar with
            | (inl _, _) => Ret (inr (n, sidecar))
            | (inr _, w) =>
                let! r := call (append tmp_idx (drop (length (Index.ifile sidecar)) (Index.ifile w))) in
                Ret (inr (n, match r with
                             | inr _ => w
                             | inl _ => (Index.append idx_nonce false (Index.mkEntry frame_offset ts) sidecar).2
                             end))
            end
        end
  end.

(** The lines of the source, each read up to the cap; blank ones are skipped. *)
Fixpoint cast_lines (fuel : nat) (r : bytes) : list bytes :=
  match fuel with
  | O => []
  | S fuel =>
      match Reader.read_until (Reader.MAX_CAST_LINE_BYTES + 1) r with
      | ([], _) => []
      | (buf, r') => if forallb Reader.is_eol buf then cast_lines fuel r' else buf :: cast_lines fuel r'
      end
  end.

(** [draws] are the nonces of each frame and of its sidecar entry. *)
Fixpoint encode_lines (lines : list bytes) (draws : list (bytes * bytes)) (frame_index bytes_written : Z)
    (recording_key : bytes) (tmp_lfsr tmp_idx : string) (sidecar : Index.IndexWriter) :
    prog Os (Error + unit) :=
  match lines, draws with
  | l :: lines, (nonce, idx_nonce) :: draws =>
      let? nw := encode_cast_frame l frame_index bytes_written recording_key nonce idx_nonce tmp_lfsr tmp_idx sidecar in
      encode_lines lines draws (Z.min (frame_index + 1) (2 ^ 64 - 1)) (bytes_written + nw.1) recording_key
        tmp_lfsr tmp_idx nw.2
  | _, _ => Ret (inr ())
  end.

Definition convert_one_cast_to_lfsr (base : string) (new_db_key rk wrap_nonce : bytes)
    (draws : list (bytes * bytes)) (suffix : string) : prog Os (Error + bool) :=
  let cast_path := cast_of base in
  let lfsr_path := lfsr_of base in
  let idx_path := Index.sidecar_name lfsr_path in
  let! e := call (Os.exists_ lfsr_path) in
  if e then Ret (inr false)
  else
    match build_lfsr_header wrap_nonce new_db_key rk with
    | inl e => Ret (inl (Format e))
    | inr header =>
        let tmp_lfsr := tmp_of lfsr_path suffix in
        let tmp_idx := tmp_of idx_path suffix in
        let? content := io "cast open" (Os.read_file cast_path) in
        match hkdf_sha256 rk [] Index.INDEX_HKDF_INFO 32 with
        | inl e => Ret (inl (Format (CryptoFailed e)))
        | inr index_key =>
            let? _ := io "sidecar mkdir" touch in
            let? _ := io "sidecar create" (create tmp_idx) in
            let? _ := io "sidecar harden" touch in
            let? _ := io "sidecar header" (append tmp_idx Index.LFI_MAGIC) in
            let? _ := io "sidecar header" (append tmp_idx [Index.LFI_VERSION]) in
            let? _ := io "cast tmp create" (create tmp_lfsr) in
            let? _ := io "cast header" (append tmp_lfsr header) in
            let? _ := encode_lines (cast_lines (S (length content)) content) draws 0 (Z.of_nat (length header)) rk
                        tmp_lfsr tmp_idx (Index.create (Some index_key)) in
            let? _ := io "cast fsync" touch in
            let? _ := io "cast harden" touch in
            let! e := call (Os.exists_ tmp_idx) in
            let? _ := (if e then io "sidecar harden" touch else Ret (inr ())) in
            let? _ := commit "cast rename" tmp_lfsr lfsr_path [tmp_idx] in
            let! e := call (Os.exists_ tmp_idx) in
            let? _ := (if e then best_effort_rename tmp_idx idx_path else Ret (inr ())) in
            let? _ := ignore (Os.remove_file cast_path) in
            let? _ := remove_if_there (Index.sidecar_name cast_path) in
            Ret (inr true)
        end
    end.

(** ** Encrypted to plaintext *)
Fixpoint write_records (rs : list (Reader.ReaderError + list Z)) (tmp : string) : prog Os (Error + unit) :=
  match rs with
  | [] => Ret (inr ())
  | inl e :: _ => Ret (inl (Unreadable e))
  | inr l :: rs =>
      let? _ := io "line write" (append tmp (Utf8.encode l)) in
      let? _ := io "line write" (append tmp [Reader.newline]) in
      write_records rs tmp
  end.

Definition convert_one_lfsr_to_cast (base : string) (current_db_key : bytes) (suffix : string) :
    prog Os (Error + bool) :=
  let cast_path := cast_of base in
  let lfsr_path := lfsr_of base in
  let! e := call (Os.exists_ cast_path) in
  if e then Ret (inr false)
  else
    let? content := io "lfsr open" (Os.read_file lfsr_path) in
    match Reader.open_lfsr_iter_at (Some content) current_db_key None with
    | inl e => Ret (inl (Unreadable e))
    | inr it =>
        let tmp := tmp_of cast_path suffix in
        let? _ := io "lfsr tmp create" (create tmp) in
        let? _ := write_records (Reader.records it) tmp in
        let? _ := io "lfsr fsync" touch in
        let? _ := io "lfsr harden" touch in
        let? _ := commit "lfsr rename" tmp cast_path [] in
        let? _ := ignore (Os.remove_file lfsr_path) in
        let? _ := remove_if_there (Index.sidecar_name lfsr_path) in
        Ret (inr true)
    end.

(** The walks, with the random bytes of each file. *)
Definition convert_all_cast_to_lfsr (new_db_key : bytes)
    (xs : list (string * bytes * bytes * list (bytes * bytes) * string)) : prog Os (Error + MigrateOutcome) :=
  for_each (fun '(base, rk, wrap_nonce, draws, suffix) =>
    convert_one_cast_to_lfsr base new_db_key rk wrap_nonce draws suffix) xs (mkOutcome 0 0).

Definition convert_all_lfsr_to_cast (current_db_key : bytes) (xs : list (string * string)) :
    prog Os (Error + MigrateOutcome) :=
  for_each (fun '(base, suffix) => convert_one_lfsr_to_cast base current_db_key suffix) xs (mkOutcome 0 0).

End Migrate.
End RecMigrate.

Import Lfr RecMigrate.

(** ** Running the programs *)
Lemma always_bindE {A B} (I : Os -> Prop) (p : prog Os (Error + A)) (q : A -> prog Os (Error + B)) w :
  always I p w -> (forall a w', run p w = (inr a, w') -> I w' -> always I (q a) w') -> always I (bindE p q) w.
Proof.
  intros Hp Hq. apply always_bind; [done|]. pose proof (always_run I p w Hp) as Hend.
  destruct (run p w) as [[e|a] w']; simpl in *; [by apply always_ret|by apply Hq].
Qed.

Lemma run_bindE {A B} (p : prog Os (Error + A)) (q : A -> prog Os (Error + B)) w :
  run (bindE p q) w = match run p w with (inl e, w') => (inl e, w') | (inr a, w') => run (q a) w' end.
Proof. unfold bindE. rewrite run_bind. by destruct (run p w) as [[e|a] w']. Qed.

Lemma run_io {A} what (f : Os -> (io_error + A) * Os) w :
  run (io what f) w = match f w with (inl _, w') => (inl (Io what), w') | (inr a, w') => (inr a, w') end.
Proof. unfold io. rewrite run_bind, run_call. by destruct (f w) as [[e|a] w']. Qed.

Lemma always_io {A} (I : Os -> Prop) what (f : Os -> (io_error + A) * Os) w :
  I w -> I (f w).2 -> always I (io what f) w.
Proof.
  intros Hw Hf. apply always_bind; [by apply always_call|]. rewrite run_call.
  destruct (f w) as [r w']. by apply always_ret.
Qed.

(** What an operation that returns nothing may do to the files. *)
Definition effect (f : Os -> (io_error + unit) * Os) (eff : gmap string bytes -> gmap string bytes) : Prop :=
  forall o, ((exists e, (f o).1 = inl e) /\ files (f o).2 = files o /\ faults o <> []) \/
    ((f o).1 = inr () /\ files (f o).2 = eff (files o) /\ (faults o = [] -> faults (f o).2 = [])).

Lemma create_effect p : effect (create p) (fun m => <[p := []]> m).
Proof.
  intros o. unfold create.
  destruct (fallible_cases (fun o => (inr () : io_error + unit, mkOs (<[p := []]> (files o)) (keychain o) (faults o))) o)
    as [(o' & -> & Hf & Hn)|(o' & -> & Hf & Hn)]; [left; eauto|right].
  cbn. rewrite Hf. split_and!; [done..|]. intros H0. by rewrite (Hn H0).
Qed.

Lemma append_effect p b : effect (append p b) (fun m => <[p := default [] (m !! p) ++ b]> m).
Proof.
  intros o. unfold append.
  match goal with |- context [Os.fallible ?g o] =>
    destruct (fallible_cases g o) as [(o' & -> & Hf & Hn)|(o' & -> & Hf & Hn)] end; [left; eauto|right].
  cbn. rewrite Hf. split_and!; [done..|]. intros H0. by rewrite (Hn H0).
Qed.

Lemma touch_effect : effect touch (fun m => m).
Proof.
  intros o. unfold touch.
  match goal with |- context [Os.fallible ?g o] =>
    destruct (fallible_cases g o) as [(o' & -> & Hf & Hn)|(o' & -> & Hf & Hn)] end; [left; eauto|right].
  cbn. split_and!; [done..|]. intros H0. by rewrite (Hn H0).
Qed.

(** One such operation in a program whose invariant is about the files. *)
Lemma always_effect {B} (I : gmap string bytes -> Prop) what f eff (q : unit -> prog Os (Error + B)) w :
  effect f eff -> I (files w) -> I (eff (files w)) ->
  (forall w', files w' = eff (files w) -> always (fun o => I (files o)) (q ()) w') ->
  always (fun o => I (files o)) (bindE (io what f) q) w.
Proof.
  intros He Hw Heff Hq. destruct (He w) as [([e Hf] & Hfs & _)|(Hf & Hfs & _)].
  - apply always_bindE; [apply always_io; [done|by rewrite Hfs]|].
    intros a w' Hr _. rewrite run_io in Hr. by destruct (f w) as [[|] ?]; simplify_eq/=.
  - apply always_bindE; [apply always_io; [done|by rewrite Hfs]|].
    intros [] w' Hr _. rewrite run_io in Hr. apply Hq.
    destruct (f w) as [[|] ?]; simplify_eq/=. done.
Qed.

Lemma run_effect {B} what f eff (q : unit -> prog Os (Error + B)) w :
  effect f eff -> faults w = [] ->
  exists w', run (bindE (io what f) q) w = run (q ()) w' /\ files w' = eff (files w) /\ faults w' = [].
Proof.
  intros He Hw. rewrite run_bindE, run_io. destruct (He w) as [(_ & _ & Hn)|(Hf & Hfs & Hn)]; [done|].
  destruct (f w) as [[|[]] w']; simplify_eq/=. eauto.
Qed.

Lemma rename_cases src dst b o :
  files o !! src = Some b ->
  ((exists e, (rename src dst o).1 = inl e) /\ files (rename src dst o).2 = files o /\ faults o <> []) \/
  ((rename src dst o).1 = inr () /\ files (rename src dst o).2 = <[dst := b]> (delete src (files o)) /\
   (faults o = [] -> faults (rename src dst o).2 = [])).
Proof.
  intros Hs. unfold rename.
  match goal with |- context [Os.fallible ?g o] =>
    destruct (fallible_cases g o) as [(o' & -> & Hf & Hn)|(o' & -> & Hf & Hn)] end; [left; eauto|right].
  rewrite Hf, Hs. cbn. split_and!; [done..|]. intros H0. by rewrite (Hn H0).
Qed.

Lemma remove_cases p o : files (Os.remove_file p o).2 = files o \/ files (Os.remove_file p o).2 = delete p (files o).
Proof.
  unfold Os.remove_file, Os.fallible, Os.next_fault.
  destruct (faults o) as [|[] fs]; cbn; [|by left|]; destruct (files o !! p); cbn; auto.
Qed.

Lemma exists_files p o : files (Os.exists_ p o).2 = files o.
Proof. unfold Os.exists_, Os.next_fault. by destruct (faults o) as [|[] fs]. Qed.

Section Effects.
Variable I : gmap string bytes -> Prop.

Lemma always_ignore_remove p w :
  I (files w) -> I (delete p (files w)) -> always (fun o => I (files o)) (ignore (Os.remove_file p)) w.
Proof.
  intros Hw Hd. apply always_bind; [apply always_call; [done|]|apply always_ret; rewrite run_call];
    destruct (remove_cases p w) as [->| ->]; done.
Qed.

Lemma always_remove_if_there p w :
  I (files w) -> I (delete p (files w)) -> always (fun o => I (files o)) (remove_if_there p) w.
Proof.
  intros Hw Hd. unfold remove_if_there. apply always_bind.
  - apply always_call; [done|by rewrite exists_files].
  - rewrite run_call. pose proof (exists_files p w) as He. destruct (Os.exists_ p w) as [[] w']; simpl in *.
    + apply always_ignore_remove; by rewrite He.
    + apply always_ret. by rewrite He.
Qed.

(** Removing the listed files, then failing. *)
Lemma cleanup_always what ps w :
  I (files w) -> (forall m p, p ∈ ps -> I m -> I (delete p m)) ->
  always (fun o => I (files o))
    (foldr (fun p k => bindE (ignore (Os.remove_file p)) (fun _ => k)) (Ret (inl (Io what)) : prog Os (Error + unit)) ps) w.
Proof.
  revert w. induction ps as [|p ps IH]; intros w Hw Hd; simpl; [by apply always_ret|].
  apply always_bindE; [apply always_ignore_remove; [done|apply Hd; [left|done]]|].
  intros [] w' _ Hw'. apply IH; [done|]. intros m q Hq. apply Hd. by right.
Qed.

Lemma cleanup_fails what ps w a w' :
  run (foldr (fun p k => bindE (ignore (Os.remove_file p)) (fun _ => k)) (Ret (inl (Io what)) : prog Os (Error + unit)) ps) w
    <> (inr a, w').
Proof.
  revert w. induction ps as [|p ps IH]; intros w; [done|]. cbn [foldr].
  unfold bindE at 1, ignore. rewrite !run_bind, run_call. destruct (Os.remove_file p w) as [r w1]. apply IH.
Qed.

Lemma always_commit {B} what src dst others b (q : unit -> prog Os (Error + B)) w :
  files w !! src = Some b -> I (files w) -> I (<[dst := b]> (delete src (files w))) ->
  (forall m p, p ∈ src :: others -> I m -> I (delete p m)) ->
  (forall w', files w' = <[dst := b]> (delete src (files w)) -> always (fun o => I (files o)) (q ()) w') ->
  always (fun o => I (files o)) (bindE (commit what src dst others) q) w.
Proof.
  intros Hs Hw Hr Hd Hq. unfold commit.
  destruct (rename_cases src dst b w Hs) as [([e He] & Hf & _)|(He & Hf & _)].
  - apply always_bindE.
    + apply always_bind; [apply always_call; [done|by rewrite Hf]|]. rewrite run_call, He.
      apply (cleanup_always what (src :: others)); [by rewrite Hf|done].
    + intros a w' Hrun. rewrite run_bind, run_call in Hrun. destruct (rename src dst w) as [r w1]. simpl in He.
      subst r. exfalso. exact (cleanup_fails what (src :: others) w1 a w' Hrun).
  - apply always_bindE.
    + apply always_bind; [apply always_call; [done|by rewrite Hf]|]. rewrite run_call, He.
      apply always_ret. by rewrite Hf.
    + intros [] w' Hrun _. rewrite run_bind, run_call in Hrun. destruct (rename src dst w) as [r w1]. simpl in *.
      subst r. simplify_eq/=. by apply Hq.
Qed.
End Effects.

Lemma run_commit {B} what src dst others b (q : unit -> prog Os (Error + B)) w :
  files w !! src = Some b -> faults w = [] ->
  exists w', run (bindE (commit what src dst others) q) w = run (q ()) w' /\
    files w' = <[dst := b]> (delete src (files w)) /\ faults w' = [].
Proof.
  intros Hs Hw. destruct (rename_cases src dst b w Hs) as [(_ & _ & Hn)|(He & Hf & Hn)]; [done|].
  rewrite run_bindE. unfold commit. rewrite run_bind, run_call.
  destruct (rename src dst w) as [r w1]. simpl in *. subst r. eauto.
Qed.

(** ** The sweep over encrypted recordings *)
Section Rewrap.
Context `{Primitives}.

(** The file at [path] is a recording of [rk] and [body] wrapped under [dk]. *)
Definition wrapped (m : gmap string bytes) (path : string) (dk rk body : bytes) : Prop :=
  exists wn h, build_lfsr_header wn dk rk = inr h /\ length rk = 32%nat /\ m !! path = Some (h ++ body).

(** The part of the rewrap that writes. *)
Definition replace_file (path tmp : string) (new_header body : bytes) : prog Os (Error + bool) :=
  bindE (io "rewrap tmp create" (create tmp)) (fun _ =>
  bindE (io "rewrap tmp header" (append tmp new_header)) (fun _ =>
  bindE (io "copy_remaining" (append tmp body)) (fun _ =>
  bindE (io "rewrap tmp fsync" touch) (fun _ =>
  bindE (io "rewrap tmp harden" touch) (fun _ =>
  bindE (commit "rewrap rename" tmp path []) (fun _ => Ret (inr true))))))).

Lemma replace_always I path tmp nh body w :
  I (files w) -> (forall m v, I m -> I (<[tmp := v]> m)) -> (forall m, I m -> I (delete tmp m)) ->
  (forall m, I m -> I (<[path := nh ++ body]> m)) ->
  always (fun o => I (files o)) (replace_file path tmp nh body) w.
Proof.
  intros Hw Hi Hd Hp. unfold replace_file.
  apply (always_effect I _ _ _ _ _ (create_effect _)); [auto..|]. intros w1 H1.
  assert (I1 : I (files w1)) by (rewrite H1; auto).
  apply (always_effect I _ _ _ _ _ (append_effect _ _)); [auto..|]. intros w2 H2.
  assert (I2 : I (files w2)) by (rewrite H2; auto).
  apply (always_effect I _ _ _ _ _ (append_effect _ _)); [auto..|]. intros w3 H3.
  assert (I3 : I (files w3)) by (rewrite H3; auto).
  apply (always_effect I _ _ _ _ _ touch_effect); [auto..|]. intros w4 H4.
  apply (always_effect I _ _ _ _ _ touch_effect); [by rewrite H4..|]. intros w5 H5.
  assert (Ht : files w5 !! tmp = Some (nh ++ body)).
  { rewrite H5, H4, H3, H2, H1. by rewrite !lookup_insert_eq. }
  assert (I5 : I (files w5)) by (rewrite H5, H4; done).
  apply (always_commit I _ _ _ _ (nh ++ body)); [done|done|by auto| |].
  - intros m p Hin. apply list_elem_of_singleton in Hin as ->. auto.
  - intros w6 H6. apply always_ret. rewrite H6. auto.
Qed.

Lemma replace_run path tmp nh body w :
  faults w = [] -> path <> tmp ->
  exists w', run (replace_file path tmp nh body) w = (inr true, w') /\ faults w' = [] /\
    files w' = <[path := nh ++ body]> (delete tmp (files w)).
Proof.
  intros Hw Hne. unfold replace_file.
  destruct (run_effect "rewrap tmp create" _ _ (fun _ => bindE (io "rewrap tmp header" (append tmp nh)) (fun _ =>
    bindE (io "copy_remaining" (append tmp body)) (fun _ => bindE (io "rewrap tmp fsync" touch) (fun _ =>
    bindE (io "rewrap tmp harden" touch) (fun _ => bindE (commit "rewrap rename" tmp path [])
    (fun _ => Ret (inr true))))))) w (create_effect tmp) Hw) as (w1 & -> & H1 & F1).
  edestruct (run_effect (B := bool) "rewrap tmp header") as (w2 & -> & H2 & F2); [apply append_effect|exact F1|].
  edestruct (run_effect (B := bool) "copy_remaining") as (w3 & -> & H3 & F3); [apply append_effect|exact F2|].
  edestruct (run_effect (B := bool) "rewrap tmp fsync") as (w4 & -> & H4 & F4); [apply touch_effect|exact F3|].
  edestruct (run_effect (B := bool) "rewrap tmp harden") as (w5 & -> & H5 & F5); [apply touch_effect|exact F4|].
  edestruct (run_commit (B := bool) "rewrap rename" tmp path [] (nh ++ body)) as (w6 & -> & H6 & F6);
    [by rewrite H5, H4, H3, H2, H1, !lookup_insert_eq|exact F5|].
  exists w6. split; [done|]. split; [done|].
  rewrite H6, H5, H4, H3, H2, H1. by rewrite !insert_insert_eq, delete_insert_eq.
Qed.

(** A recording of the library: its path, its key and what follows its header. *)
Definition rec_path (r : string * bytes * bytes) : string := r.1.1.
Definition held (m : gmap string bytes) (dks : list bytes) (r : string * bytes * bytes) : Prop :=
  exists dk, dk ∈ dks /\ wrapped m (rec_path r) dk r.1.2 r.2.

Lemma wrapped_insert m p v path dk rk b : p <> path -> wrapped m path dk rk b -> wrapped (<[p := v]> m) path dk rk b.
Proof. intros Hne (wn & h & ? & ? & ?). exists wn, h. by rewrite lookup_insert_ne. Qed.

Lemma wrapped_delete m p path dk rk b : p <> path -> wrapped m path dk rk b -> wrapped (delete p m) path dk rk b.
Proof. intros Hne (wn & h & ? & ? & ?). exists wn, h. by rewrite lookup_delete_ne. Qed.

Lemma held_mono m dks dks' r : dks ⊆ dks' -> held m dks r -> held m dks' r.
Proof. intros Hs (dk & Hin & Hw). exists dk. split; [by apply Hs|done]. Qed.

(** What the rewrap of a path decides from its header. *)
Lemma wrapped_header m path dk rk b content :
  wrapped m path dk rk b -> m !! path = Some content ->
  exists wn h, content = h ++ b /\ Reader.read_exact LFR_HEADER_LEN content = Some (h, b) /\
    take 4 h = LFR_MAGIC /\ nth 4 h 0 = LFR_VERSION /\ length rk = 32%nat /\ build_lfsr_header wn dk rk = inr h.
Proof.
  intros (wn & h & Hb & Hrk & Hm) Hc. rewrite Hm in Hc. injection Hc as <-.
  exists wn, h. destruct (header_shape _ _ _ _ Hb Hrk) as (w & Hh & Hn & Hw & _).
  rewrite read_exact_app by (by eapply header_length). subst h. done.
Qed.

(** The one place where the rewrap writes: the header is one the old key opens and the
    new one does not. *)
Definition rewrapped (m : gmap string bytes) (path : string) (old new wn nh body : bytes) : Prop :=
  exists content header rk, m !! path = Some content /\ Reader.read_exact LFR_HEADER_LEN content = Some (header, body) /\
    (forall rk', unwrap_lfsr_header header new <> inr rk') /\ unwrap_lfsr_header header old = inr rk /\
    build_lfsr_header wn new rk = inr nh.

Lemma rewrapped_held m path old new wn nh body dks r :
  length old = 32%nat -> length new = 32%nat -> rewrapped m path old new wn nh body ->
  rec_path r = path -> (forall dk, dk ∈ dks -> (dk = old) \/ (dk = new)) -> held m dks r ->
  wrapped (<[path := nh ++ body]> m) (rec_path r) new r.1.2 r.2.
Proof.
  intros Ho Hn (content & header & rk & Hc & Hr & Hnew & Hold & Hnh) Hp Hd (dk & Hin & Hw).
  subst path. destruct (wrapped_header _ _ _ _ _ _ Hw Hc) as (wn' & h & -> & Hr' & _ & _ & Hk & Hb).
  rewrite Hr' in Hr. injection Hr as <- <-. rewrite (unwrap_build _ _ _ _ _ Hb Hk Ho) in Hold.
  assert (Hne : dk <> new).
  { intros ->. apply (Hnew r.1.2). rewrite (unwrap_build _ _ _ _ _ Hb Hk Hn). by rewrite bool_decide_eq_true_2. }
  case_bool_decide; [|done]. injection Hold as <-.
  exists wn, nh. by rewrite lookup_insert_eq.
Qed.

Lemma open_file_files p o : files (open_file p o).2 = files o /\ (faults o = [] -> faults (open_file p o).2 = []).
Proof.
  unfold open_file, Os.fallible, Os.next_fault. destruct (faults o) as [|[] fs] eqn:Hf; [|done..].
  simpl. by destruct (files o !! p).
Qed.

Lemma read_file_cases p o :
  files (Os.read_file p o).2 = files o /\ (faults o = [] -> faults (Os.read_file p o).2 = []) /\
  ((exists e, (Os.read_file p o).1 = inl e) \/ exists b, (Os.read_file p o).1 = inr b /\ files o !! p = Some b).
Proof.
  unfold Os.read_file, Os.fallible, Os.next_fault. destruct (faults o) as [|[] fs] eqn:Hf; simpl;
    split_and!; try done; eauto; destruct (files o !! p); eauto.
Qed.

(** The rewrap of one file is reads, then nothing or a replacement. *)
Lemma rewrap_always I path old new wn suffix w :
  I (files w) -> (forall m v, I m -> I (<[tmp_of path suffix := v]> m)) ->
  (forall m, I m -> I (delete (tmp_of path suffix) m)) ->
  (forall nh body, rewrapped (files w) path old new wn nh body -> forall m, I m -> I (<[path := nh ++ body]> m)) ->
  always (fun o => I (files o)) (rewrap_one_header path old new wn suffix) w.
Proof.
  intros Hw Hi Hd Hp. unfold rewrap_one_header.
  destruct (open_file_files path w) as [Hof _].
  apply always_bindE; [apply always_io; [done|by rewrite Hof]|]. intros [] w1 Hr1 _.
  assert (Hf1 : files w1 = files w).
  { rewrite run_io in Hr1. destruct (open_file path w) as [[] w1']; simplify_eq/=. done. }
  destruct (read_file_cases path w1) as (Hrf & _ & Hc). rewrite Hf1 in Hrf, Hc.
  apply always_bind; [apply always_call; by rewrite ?Hf1, ?Hrf|]. rewrite run_call.
  destruct (Os.read_file path w1) as [rd w2]. simpl in Hrf, Hc |- *.
  assert (Hw2 : I (files w2)) by (by rewrite Hrf).
  destruct Hc as [[e ->]|(content & -> & Hl)]; [by apply always_ret|].
  destruct (Reader.read_exact LFR_HEADER_LEN content) as [[header body]|] eqn:Hre; simpl; [|by apply always_ret].
  destruct (negb _ || negb _); [by apply always_ret|].
  destruct (unwrap_lfsr_header header new) eqn:Hn; [|by apply always_ret].
  destruct (unwrap_lfsr_header header old) eqn:Ho; [by apply always_ret|].
  destruct (build_lfsr_header wn new _) as [|nh] eqn:Hb; [by apply always_ret|].
  apply (replace_always I); [done..|]. apply Hp. do 3 eexists. split_and!; [done..|by rewrite Hn|done|done].
Qed.

Lemma open_file_run p o b : faults o = [] -> files o !! p = Some b -> open_file p o = (inr (), o).
Proof. intros Hf Hp. unfold open_file, Os.fallible, Os.next_fault. by rewrite Hf, Hp. Qed.

Lemma read_file_run p o b : faults o = [] -> files o !! p = Some b -> Os.read_file p o = (inr b, o).
Proof. intros Hf Hp. unfold Os.read_file, Os.fallible, Os.next_fault. by rewrite Hf, Hp. Qed.

Lemma tmp_of_ne p suffix : p <> tmp_of p suffix.
Proof.
  intros He. apply (f_equal String.length) in He. revert He. unfold tmp_of. clear.
  induction p as [|c p IH]; simpl; [done|]. intros [= He]. by apply IH.
Qed.

Lemma unwrap_key_length h dk rk : unwrap_lfsr_header h dk = inr rk -> length rk = 32%nat.
Proof.
  unfold unwrap_lfsr_header. intros Hu. repeat (case_match; simplify_eq/=).
  by apply Nat.eqb_eq, negb_false_iff.
Qed.

Lemma build_total wn dk rk : length wn = 12%nat -> length dk = 32%nat -> length rk = 32%nat ->
  exists h, build_lfsr_header wn dk rk = inr h.
Proof.
  intros Hn Hd Hk. unfold build_lfsr_header.
  destruct (encrypt_raw_total dk wn rk KEYWRAP_AAD) as (c & -> & _); [done|done|rewrite Hk; lia|]. eauto.
Qed.

Lemma held_cases m old new r content :
  length old = 32%nat -> length new = 32%nat -> held m [old; new] r -> m !! rec_path r = Some content ->
  held m [new] r \/
  exists h, Reader.read_exact LFR_HEADER_LEN content = Some (h, r.2) /\ take 4 h = LFR_MAGIC /\
    nth 4 h 0 = LFR_VERSION /\ (exists e, unwrap_lfsr_header h new = inl e) /\ unwrap_lfsr_header h old = inr r.1.2.
Proof.
  intros Ho Hn (dk & Hin & Hw) Hc. rewrite !elem_of_cons in Hin.
  destruct Hin as [->|[->|Hin]]; [|left; by exists new; split; [left|]|by apply not_elem_of_nil in Hin].
  destruct (decide (old = new)) as [->|Hne]; [left; by exists new; split; [left|]|]. right.
  destruct (wrapped_header _ _ _ _ _ _ Hw Hc) as (wn & h & -> & Hr & Hm & Hv & Hk & Hb).
  exists h. rewrite !(unwrap_build _ _ _ _ _ Hb Hk) by done.
  rewrite bool_decide_eq_false_2, bool_decide_eq_true_2 by done. eauto 10.
Qed.

(** The branches that leave the file alone. *)
Ltac left_alone Hskip :=
  eexists _, _; split; [done|]; split; [done|]; left; split; [done|];
  let r := fresh in let H1 := fresh in let H2 := fresh in let H3 := fresh in
  intros r H1 H2 H3; destruct (Hskip r H1 H2 H3) as [?|(? & ? & ? & ? & [? ?] & ?)];
  [done|exfalso]; simplify_eq; try congruence.

Lemma rewrap_run path old new wn suffix w :
  faults w = [] -> length wn = 12%nat -> length new = 32%nat -> is_Some (files w !! path) ->
  exists r w', run (rewrap_one_header path old new wn suffix) w = (inr r, w') /\ faults w' = [] /\
    ((files w' = files w /\ forall r, rec_path r = path -> length old = 32%nat ->
        held (files w) [old; new] r -> held (files w) [new] r) \/
     exists nh body, rewrapped (files w) path old new wn nh body /\
       files w' = <[path := nh ++ body]> (delete (tmp_of path suffix) (files w))).
Proof.
  intros Hw Hwn Hnk [content Hl]. unfold rewrap_one_header. rewrite run_bindE, run_io.
  rewrite (open_file_run _ _ _ Hw Hl). cbn [fst snd]. rewrite run_bind, run_call, (read_file_run _ _ _ Hw Hl).
  assert (Hskip : forall r, rec_path r = path -> length old = 32%nat -> held (files w) [old; new] r ->
    held (files w) [new] r \/ exists h, Reader.read_exact LFR_HEADER_LEN content = Some (h, r.2) /\
      take 4 h = LFR_MAGIC /\ nth 4 h 0 = LFR_VERSION /\ (exists e, unwrap_lfsr_header h new = inl e) /\
      unwrap_lfsr_header h old = inr r.1.2).
  { intros r Hp Ho Hh. apply held_cases; [done..|by rewrite Hp]. }
  destruct (Reader.read_exact LFR_HEADER_LEN content) as [[header body]|] eqn:Hre; simpl; [|by left_alone Hskip].
  destruct (negb (bool_decide (take 4 header = LFR_MAGIC)) || negb (nth 4 header 0 =? LFR_VERSION)) eqn:Hmv.
  { left_alone Hskip. rewrite bool_decide_eq_true_2 in Hmv by congruence.
    apply negb_true_iff, Z.eqb_neq in Hmv. congruence. }
  destruct (unwrap_lfsr_header header new) eqn:Hn; [|by left_alone Hskip].
  destruct (unwrap_lfsr_header header old) as [|rk] eqn:Ho; [by left_alone Hskip|].
  destruct (build_total wn new rk) as [nh Hb]; [done..|by eapply unwrap_key_length|]. rewrite Hb.
  destruct (replace_run path (tmp_of path suffix) nh body w Hw) as (w3 & Hr & Hf3 & H3); [apply tmp_of_ne|].
  eexists _, w3. split; [exact Hr|]. split; [done|]. right. exists nh, body. split; [|done].
  do 3 eexists. split_and!; [done..|by rewrite Hn|done|done].
Qed.

(** ** The sweep *)
Section Sweep.
Variables (old new : bytes) (recs : list (string * bytes * bytes)).
Hypotheses (Hold : length old = 32%nat) (Hnew : length new = 32%nat).

(** Every recording is under one of the keys. *)
Definition kept (dks : list bytes) (m : gmap string bytes) : Prop := forall r, r ∈ recs -> held m dks r.

(** The temporary name of a listed file is not that of a recording. *)
Definition tmp_free (x : string * bytes * string) : Prop := forall r, r ∈ recs -> tmp_of x.1.1 x.2 <> rec_path r.

Lemma kept_tmp dks x m v : tmp_free x -> kept dks m -> kept dks (<[tmp_of x.1.1 x.2 := v]> m).
Proof. intros Ht Hk r Hr. destruct (Hk r Hr) as (dk & ? & ?). exists dk. split; [done|]. by apply wrapped_insert; [apply Ht|]. Qed.

Lemma kept_tmp_delete dks x m : tmp_free x -> kept dks m -> kept dks (delete (tmp_of x.1.1 x.2) m).
Proof. intros Ht Hk r Hr. destruct (Hk r Hr) as (dk & ? & ?). exists dk. split; [done|]. by apply wrapped_delete; [apply Ht|]. Qed.

Lemma kept_rewrapped m0 path wn nh body m :
  kept [old; new] m0 -> rewrapped m0 path old new wn nh body ->
  kept [old; new] m -> kept [old; new] (<[path := nh ++ body]> m).
Proof.
  intros H0 Hrw Hk r Hr. destruct (decide (path = rec_path r)) as [He|Hne].
  - exists new. split; [right; left|]. destruct (rewrapped_held m0 path old new wn nh body [old; new] r)
      as (wn' & h & Hb & Hl & Hm); [done|done|done|done| |by apply H0|].
    + intros dk Hin. rewrite !elem_of_cons in Hin. destruct Hin as [|[|Hin]]; [by left|by right|by apply not_elem_of_nil in Hin].
    + exists wn', h. split; [done|]. split; [done|]. rewrite He, lookup_insert_eq in *. done.
  - destruct (Hk r Hr) as (dk & ? & ?). exists dk. split; [done|]. by apply wrapped_insert.
Qed.

Lemma sweep_always xs out w :
  Forall tmp_free xs -> kept [old; new] (files w) ->
  always (fun o => kept [old; new] (files o))
    (for_each (fun '(path, nonce, suffix) => rewrap_one_header path old new nonce suffix) xs out) w.
Proof.
  intros Ht. revert out w. induction Ht as [|[[path wn] suffix] xs Hx _ IH]; intros out w Hw; cbn [for_each].
  - by apply always_ret.
  - apply always_bindE.
    + apply (rewrap_always (kept [old; new])); [done|intros; by apply (kept_tmp _ (path, wn, suffix))
        |intros; by apply (kept_tmp_delete _ (path, wn, suffix))|].
      intros nh body Hrw m. by eapply kept_rewrapped.
    + intros b w' _ Hw'. by apply IH.
Qed.

(** The recordings whose paths are in [ps] are under the new key. *)
Definition moved (ps : list string) (m : gmap string bytes) : Prop :=
  forall r, r ∈ recs -> rec_path r ∈ ps -> held m [new] r.

Definition listed (m : gmap string bytes) (x : string * bytes * string) : Prop :=
  length x.1.2 = 12%nat /\ is_Some (m !! x.1.1) /\ tmp_free x.

Lemma held_other m r v p : p <> rec_path r -> held m [new] r -> held (<[p := v]> m) [new] r.
Proof. intros Hne (dk & ? & ?). exists dk. split; [done|]. by apply wrapped_insert. Qed.

Lemma one_run x w :
  faults w = [] -> listed (files w) x -> kept [old; new] (files w) ->
  exists b w', run (rewrap_one_header x.1.1 old new x.1.2 x.2) w = (inr b, w') /\ faults w' = [] /\
    kept [old; new] (files w') /\
    (forall r, r ∈ recs -> rec_path r = x.1.1 \/ held (files w) [new] r -> held (files w') [new] r) /\
    (forall p, p <> tmp_of x.1.1 x.2 -> is_Some (files w !! p) -> is_Some (files w' !! p)).
Proof.
  intros Hw (Hwn & Hs & Ht) Hk.
  destruct (rewrap_run x.1.1 old new x.1.2 x.2 w Hw Hwn Hnew Hs) as (b & w' & Hr & Hf & Hc).
  exists b, w'. split; [done|]. split; [done|].
  destruct Hc as [[Hfs Hskip]|(nh & body & Hrw & Hfs)]; rewrite Hfs.
  - split; [done|]. split; [|done]. intros r Hin [Hp|]; [|done]. apply Hskip; [done..|]. by apply Hk.
  - split; [|split].
    + by eapply kept_rewrapped, kept_tmp_delete.
    + intros r Hin Hc. destruct (decide (x.1.1 = rec_path r)) as [He|Hne].
      * exists new. split; [left|]. destruct (rewrapped_held (files w) x.1.1 old new x.1.2 nh body [old; new] r)
          as (wn' & h & Hb & Hl & Hm); [done|done|done|done| |by apply Hk|].
        { intros dk Hd. rewrite !elem_of_cons in Hd. destruct Hd as [|[|Hd]]; [by left|by right|by apply not_elem_of_nil in Hd]. }
        exists wn', h. split; [done|]. split; [done|]. rewrite He, lookup_insert_eq in *. done.
      * destruct Hc as [Hc|(dk & Hd & Hc)]; [by rewrite Hc in Hne|]. exists dk. split; [done|].
        apply wrapped_insert; [done|]. apply wrapped_delete; [|done]. by apply Ht.
    + intros p Hp Hsp. destruct (decide (x.1.1 = p)) as [->|Hne]; [rewrite lookup_insert_eq; eauto|].
      by rewrite lookup_insert_ne, lookup_delete_ne.
Qed.

Lemma sweep_run xs out w :
  faults w = [] -> Forall (listed (files w)) xs -> kept [old; new] (files w) ->
  (forall x y, x ∈ xs -> y ∈ xs -> tmp_of x.1.1 x.2 <> y.1.1) ->
  exists out' w',
    run (for_each (fun '(path, nonce, suffix) => rewrap_one_header path old new nonce suffix) xs out) w
      = (inr out', w') /\
    (forall r, r ∈ recs -> rec_path r ∈ (fun x => x.1.1) <$> xs \/ held (files w) [new] r -> held (files w') [new] r).
Proof.
  revert out w. induction xs as [|[[path wn] suffix] xs IH]; intros out w Hw Hl Hk Hne.
  - exists out, w. split; [done|]. by intros r _ [Hin%not_elem_of_nil|].
  - apply Forall_cons in Hl as [Hx Hl].
    destruct (one_run (path, wn, suffix) w Hw Hx Hk) as (b & w1 & Hr & Hf & Hk1 & Hm & Hs).
    cbn [for_each fst snd] in *. rewrite run_bindE, Hr.
    edestruct (IH (if b then mkOutcome (converted out + 1) (skipped out)
      else mkOutcome (converted out) (skipped out + 1)) w1) as (out' & w2 & Hr2 & Hm2); [done| |done| |].
    + apply Forall_forall. intros y Hy. rewrite Forall_forall in Hl. destruct (Hl y Hy) as (? & ? & ?).
      split; [done|]. split; [|done]. apply Hs; [|done]. intros He. by eapply (Hne (path, wn, suffix) y); [left|right|].
    + intros y z Hy Hz. apply Hne; by right.
    + exists out', w2. split; [exact Hr2|]. intros r Hin Hc. apply Hm2; [done|].
      rewrite fmap_cons, elem_of_cons in Hc. destruct Hc as [[Hc|Hc]|Hc]; [|by left|]; right; apply Hm; auto.
Qed.
End Sweep.
End Rewrap.

(** * Properties of the rewrap *)
Section RewrapProperties.
Context `{Primitives}.

(** The recording opens under the key: its own key and its frames are there. *)
Definition opens (dk : bytes) (m : gmap string bytes) (r : string * bytes * bytes) : Prop :=
  Reader.open_lfsr_iter_at (m !! rec_path r) dk None = inr (Reader.mkIter r.2 r.1.2 0 false).

Lemma held_opens m dks r : (forall dk, dk ∈ dks -> length dk = 32%nat) -> held m dks r -> exists dk, dk ∈ dks /\ opens dk m r.
Proof.
  intros Hl (dk & Hin & wn & h & Hb & Hk & Hm). exists dk. split; [done|]. unfold opens.
  rewrite Hm, (open_built _ _ _ _ _ _ _ Hb Hk) by auto. by rewrite bool_decide_eq_true_2.
Qed.

(** C32. Changing the database key of the encrypted recordings can be cut at any call, with
    any of its calls failing, without losing one: every recording still opens, with its own
    key and its frames, under the old or the new database key.  A second sweep from there,
    undisturbed and over a listing that has every recording, completes and leaves every
    recording readable under the new key. *)
Theorem rewrap_sweep_resumes old new recs xs xs' w n kc :
  length old = 32%nat -> length new = 32%nat ->
  kept recs [old; new] (files w) -> Forall (tmp_free recs) xs ->
  let w1 := mkOs (files (crash n (rewrap_all_headers old new xs) w)) kc [] in
  Forall (listed recs (files w1)) xs' ->
  (forall x y, x ∈ xs' -> y ∈ xs' -> tmp_of x.1.1 x.2 <> y.1.1) ->
  (forall r, r ∈ recs -> rec_path r ∈ (fun x => x.1.1) <$> xs') ->
  (forall r, r ∈ recs -> opens old (files w1) r \/ opens new (files w1) r) /\
  exists out w2, run (rewrap_all_headers old new xs') w1 = (inr out, w2) /\
    forall r, r ∈ recs -> opens new (files w2) r.
Proof.
  intros Ho Hn Hk Ht w1 Hl Hne Hall.
  assert (Hk1 : kept recs [old; new] (files w1)) by exact (sweep_always old new recs Ho Hn _ _ _ Ht Hk n).
  split.
  - intros r Hr. destruct (held_opens (files w1) [old; new] r) as (dk & Hd & Hop); [|by apply Hk1|].
    + intros dk. rewrite !elem_of_cons, elem_of_nil. by intros [->|[->|[]]].
    + rewrite !elem_of_cons, elem_of_nil in Hd. destruct Hd as [->|[->|[]]]; auto.
  - destruct (sweep_run old new recs Ho Hn xs' (mkOutcome 0 0) w1) as (out & w2 & Hr & Hm); [done..|].
    exists out, w2. split; [exact Hr|]. intros r Hin.
    destruct (held_opens (files w2) [new] r) as (dk & Hd & Hop); [|by apply Hm; auto|].
    + intros dk. by intros ->%list_elem_of_singleton.
    + by apply list_elem_of_singleton in Hd as ->.
Qed.
End RewrapProperties.

(** ** A concrete sweep *)
Definition demo_new_key : bytes := replicate 32 11.

Definition demo_lfsr : bytes :=
  match build_lfsr_header demo_nonce demo_db_key demo_key with inr h => h ++ body demo_boxes | inl _ => [] end.

Definition demo_os (m : gmap string bytes) : Os := mkOs m ∅ [].

Lemma rewrap_sweep_resumes_witness :
  exists out w2,
    run (rewrap_all_headers demo_db_key demo_new_key [("a.lfsr", demo_nonce, "2")])
      (demo_os (files (crash 6 (rewrap_all_headers demo_db_key demo_new_key [("a.lfsr", demo_nonce, "1")])
        (demo_os {["a.lfsr" := demo_lfsr]})))) = (inr out, w2) /\
    forall r, r ∈ [("a.lfsr", demo_key, body demo_boxes)] -> opens demo_new_key (files w2) r.
Proof.
  apply (rewrap_sweep_resumes demo_db_key demo_new_key [("a.lfsr", demo_key, body demo_boxes)]
    [("a.lfsr", demo_nonce, "1")] [("a.lfsr", demo_nonce, "2")] (demo_os {["a.lfsr" := demo_lfsr]}) 6 ∅).
  - reflexivity.
  - reflexivity.
  - intros r ->%list_elem_of_singleton. exists demo_db_key. split; [left|].
    destruct (build_lfsr_header demo_nonce demo_db_key demo_key) as [|h] eqn:Hh; [vm_compute in Hh; discriminate|].
    exists demo_nonce, h. split; [exact Hh|]. split; [reflexivity|]. unfold demo_os, demo_lfsr. rewrite Hh. reflexivity.
  - apply Forall_singleton. by intros r ->%list_elem_of_singleton.
  - apply Forall_singleton. split; [reflexivity|]. split; [|by intros r ->%list_elem_of_singleton].
    apply (bool_decide_unpack _). by vm_compute.
  - by intros x y ->%list_elem_of_singleton ->%list_elem_of_singleton.
  - intros r ->%list_elem_of_singleton. by left.
Defined.
