(* ===== verification/RecConvert.v ===== *)
(** * Converting recordings between plaintext and encrypted ([recorder/migrate.rs])

    The proofs about [RecMigrate.convert_one_cast_to_lfsr] and
    [RecMigrate.convert_one_lfsr_to_cast]: a small program logic in which a triple speaks of
    every crash point, of the runs that return and of the runs without faults, the triples
    of the two conversions, and the theorem that no line is lost on the way there or back. *)
From Stdlib Require Import ZArith Lia.
From stdpp Require Import prelude gmap strings list.
From S2P Require Import Prelude Text Prog Crypto RecFormat RecIndex RecMigrate.

Open Scope Z_scope.
Import Lfr RecMigrate.

(** ** A program logic for the conversions

    [triple I P p Q]: started with files in [P], the files satisfy [I] at every crash point,
    a run that returns a value ends in [Q], and without faults the run does return one. *)
Definition triple {A} (I P : gmap string bytes -> Prop) (p : prog Os (Error + A))
    (Q : A -> gmap string bytes -> Prop) : Prop :=
  forall w, P (files w) ->
    always (fun o => I (files o)) p w /\
    (forall a w', run p w = (inr a, w') -> Q a (files w')) /\
    (faults w = [] -> exists a w', run p w = (inr a, w') /\ faults w' = []).

Section Triple.
Context {A B : Type}.
Implicit Types I P : gmap string bytes -> Prop.

Lemma triple_ret I P (Q : A -> gmap string bytes -> Prop) a :
  (forall m, P m -> I m /\ Q a m) -> triple I P (Ret (inr a)) Q.
Proof.
  intros H w Hw. destruct (H _ Hw). split; [by apply always_ret|]. split; [|eauto].
  by intros ? ? [= <- <-].
Qed.

Lemma triple_bindE I P (p : prog Os (Error + A)) Q (q : A -> prog Os (Error + B)) R :
  triple I P p Q -> (forall a, triple I (Q a) (q a) R) -> triple I P (bindE p q) R.
Proof.
  intros Hp Hq w Hw. destruct (Hp w Hw) as (Ha & Hr & Ht). split; [|split].
  - apply always_bindE; [done|]. intros a w' Hrun _. by apply Hq, Hr.
  - intros b w' Hrun. rewrite run_bindE in Hrun. destruct (run p w) as [[e|a] w1] eqn:Hr1; [done|].
    by apply (Hq a w1 (Hr _ _ eq_refl)).
  - intros Hf. destruct (Ht Hf) as (a & w1 & Hr1 & Hf1). rewrite run_bindE, Hr1.
    by apply (Hq a w1 (Hr _ _ Hr1)).
Qed.

(** A call whose outcome the program inspects. *)
Lemma triple_call I P (f : Os -> A * Os) (k : A -> prog Os (Error + B))
    (P' : A -> gmap string bytes -> Prop) Q :
  (forall o, P (files o) -> I (files o) /\ I (files (f o).2) /\ P' (f o).1 (files (f o).2) /\
    (faults o = [] -> faults (f o).2 = [])) ->
  (forall a, triple I (P' a) (k a) Q) -> triple I P (pbind (call f) k) Q.
Proof.
  intros Hf Hk w Hw. destruct (Hf w Hw) as (Hi & Hi' & Hp & Hn). destruct (f w) as [a w1] eqn:Hfw. cbn [fst snd] in *.
  destruct (Hk a w1 Hp) as (Ha & Hr & Ht). split; [|rewrite !run_bind, !run_call, Hfw; split; [done|auto]].
  apply always_bind; [apply always_call; rewrite ?Hfw; done|]. by rewrite run_call, Hfw.
Qed.

Lemma triple_pre I P P' (p : prog Os (Error + A)) Q : (forall m, P m -> P' m) -> triple I P' p Q -> triple I P p Q.
Proof. intros H Hp w Hw. apply Hp. auto. Qed.

Lemma triple_pure I (phi : Prop) P (p : prog Os (Error + A)) Q :
  (phi -> triple I P p Q) -> triple I (fun m => phi /\ P m) p Q.
Proof. intros H w [Hphi Hw]. by apply H. Qed.

End Triple.

Lemma triple_effect I P what f eff Q :
  effect f eff -> (forall m, P m -> I m /\ I (eff m) /\ Q (eff m)) -> triple I P (io what f) (fun _ => Q).
Proof.
  intros He H w Hw. destruct (H _ Hw) as (Hi & Hi' & Hq). rewrite run_io.
  destruct (He w) as [((e & Hf) & Hfs & Hn)|(Hf & Hfs & Hn)]; destruct (f w) as [r w1] eqn:Hfw; cbn [fst snd] in *; subst r;
    (split; [apply always_io; rewrite ?Hfw; cbn [snd]; congruence|]); split; try done; eauto.
  intros a w' [= <- <-]. by rewrite Hfs.
Qed.

(** An effect in front of a program. *)
Lemma triple_step {B} I P what f eff Q (q : unit -> prog Os (Error + B)) R :
  effect f eff -> (forall m, P m -> I m /\ I (eff m) /\ Q (eff m)) -> triple I Q (q ()) R ->
  triple I P (bindE (io what f) q) R.
Proof. intros He H Hq. eapply triple_bindE; [by eapply triple_effect|]. by intros []. Qed.

Lemma triple_read I P what path b :
  (forall m, P m -> I m /\ m !! path = Some b) -> triple I P (io what (Os.read_file path)) (fun a m => a = b /\ P m).
Proof.
  intros H w Hw. destruct (H _ Hw) as (Hi & Hl). rewrite run_io.
  destruct (read_file_cases path w) as (Hfs & Hn & Hc).
  assert (Hr : faults w = [] -> Os.read_file path w = (inr b, w)) by (intros; by apply read_file_run).
  destruct (Os.read_file path w) as [r w1] eqn:Hfw; cbn [fst snd] in *.
  split; [apply always_io; rewrite ?Hfw; cbn [snd]; congruence|]. split.
  - intros a w' Hrun. destruct r as [|b']; [done|]. injection Hrun as <- <-.
    destruct Hc as [[? ?]|(b2 & [= ->] & Hb)]; [done|]. rewrite Hfs. split; congruence.
  - intros Hf. injection (Hr Hf) as -> ->. eauto.
Qed.

Lemma exists_run p o :
  ((Os.exists_ p o).1 = true -> is_Some (files o !! p)) /\ (faults o = [] -> faults (Os.exists_ p o).2 = []).
Proof.
  unfold Os.exists_, Os.next_fault. destruct (faults o) as [|[] fs] eqn:Hf; cbn; split; try done;
    by intros ?%bool_decide_eq_true.
Qed.

Lemma remove_faults p o : faults o = [] -> faults (Os.remove_file p o).2 = [].
Proof. unfold Os.remove_file, Os.fallible, Os.next_fault. intros Hf. rewrite Hf. by destruct (files o !! p). Qed.

(** Best-effort steps keep what removing or writing the file keeps. *)
Lemma triple_ignore_remove I (P : gmap string bytes -> Prop) p :
  (forall m, P m -> I m) -> (forall m, P m -> P (delete p m)) -> triple I P (ignore (Os.remove_file p)) (fun _ => P).
Proof.
  intros Hi Hd. eapply (triple_call _ _ _ _ (fun _ => P)).
  - intros o Hp. destruct (remove_cases p o) as [-> | ->]; split_and!; auto using remove_faults.
  - intros a. apply triple_ret. auto.
Qed.

Lemma triple_remove_if_there I (P : gmap string bytes -> Prop) p :
  (forall m, P m -> I m) -> (forall m, P m -> P (delete p m)) -> triple I P (remove_if_there p) (fun _ => P).
Proof.
  intros Hi Hd. eapply (triple_call _ _ _ _ (fun _ => P)).
  - intros o Hp. rewrite exists_files. split_and!; auto. apply exists_run.
  - intros []; [by apply triple_ignore_remove|]. apply triple_ret. auto.
Qed.

Lemma commit_run what src dst others b w a w' :
  files w !! src = Some b -> run (commit what src dst others) w = (inr a, w') -> files w' = <[dst := b]> (delete src (files w)).
Proof.
  intros Hs Hrun. unfold commit in Hrun. rewrite run_bind, run_call in Hrun.
  destruct (rename_cases src dst b w Hs) as [([e He] & _)|(He & Hf & _)]; destruct (rename src dst w) as [r w1];
    cbn [fst snd] in *; subst r.
  - exfalso. exact (cleanup_fails what (src :: others) w1 a w' Hrun).
  - by injection Hrun as _ <-.
Qed.

Lemma rename_any src dst o :
  (files (rename src dst o).2 = files o \/ exists b, files (rename src dst o).2 = <[dst := b]> (delete src (files o))) /\
  (faults o = [] -> faults (rename src dst o).2 = []).
Proof.
  unfold rename. match goal with |- context [Os.fallible ?g o] =>
    destruct (fallible_cases g o) as [(o' & -> & Hf & Hn)|(o' & -> & Hf & Hn)] end.
  - cbn. by split; [left|].
  - cbv beta. rewrite <-Hf. destruct (files o' !! src); cbn; split; eauto; intros H0; by rewrite (Hn H0).
Qed.

Lemma triple_best_effort_rename I (P : gmap string bytes -> Prop) src dst :
  (forall m, P m -> I m) -> (forall m, P m -> P (delete src m)) -> (forall m b, P m -> P (<[dst := b]> m)) ->
  triple I P (best_effort_rename src dst) (fun _ => P).
Proof.
  intros Hi Hd Hs. eapply (triple_call _ _ _ _ (fun _ => P)).
  - intros o Hp. destruct (rename_any src dst o) as [[-> | [b ->]] Hn]; split_and!; auto.
  - intros []; [by apply triple_ignore_remove|]. apply triple_ret. auto.
Qed.

Lemma triple_commit {B} I P what src dst others b Q (q : unit -> prog Os (Error + B)) R :
  (forall m, P m -> I m /\ m !! src = Some b /\ I (<[dst := b]> (delete src m)) /\ Q (<[dst := b]> (delete src m))) ->
  (forall m p, p ∈ src :: others -> I m -> I (delete p m)) ->
  triple I Q (q ()) R -> triple I P (bindE (commit what src dst others) q) R.
Proof.
  intros H Hd Hq w Hw. destruct (H _ Hw) as (Hi & Hs & Hi' & Hqm).
  split; [|split].
  - apply (always_commit I _ _ _ _ b); [done..|]. intros w' Hf. apply Hq. by rewrite Hf.
  - intros a w' Hrun. rewrite run_bindE in Hrun.
    destruct (run (commit what src dst others) w) as [[e|[]] w1] eqn:Hc; [done|].
    apply (commit_run _ _ _ _ _ _ _ _ Hs) in Hc. apply (Hq w1) in Hrun; [done|by rewrite Hc].
  - intros Hf. destruct (run_commit what src dst others b q w Hs Hf) as (w1 & -> & Hf1 & Hn).
    apply Hq; [by rewrite Hf1|done].
Qed.

(** ** The frames of a converted recording *)
Section Encode.
Context `{Primitives}.
Variable parse_event_timestamp_ms : bytes -> option Z.

Definition box_of (rk : bytes) (i : Z) (nonce : bytes) (text : list Z) : Box :=
  mkBox rk i nonce text match build_frame nonce (Utf8.encode text) (Some rk) i with inr f => f | inl _ => [] end.

Fixpoint boxes_of (rk : bytes) (i : Z) (texts : list (list Z)) (draws : list (bytes * bytes)) : list Box :=
  match texts, draws with
  | text :: texts, (nonce, _) :: draws => box_of rk i nonce text :: boxes_of rk (i + 1) texts draws
  | _, _ => []
  end.

Definition frame_text (text : list Z) : Prop :=
  Forall char_ok text /\ Z.of_nat (length (Utf8.encode text)) <= MAX_FRAME_PLAINTEXT_BYTES.

Lemma box_of_genuine rk i nonce text :
  frame_text text -> in_u64 i -> length rk = 32%nat -> length nonce = 12%nat -> genuine (box_of rk i nonce text).
Proof.
  intros [Hok Hl] Hi Hk Hn. split_and!; [done..|]. cbn [box_of btext bindex bnonce bkey bframe].
  unfold build_frame. unfold MAX_FRAME_PLAINTEXT_BYTES in Hl.
  destruct (encrypt_raw_total rk nonce (Utf8.encode text) (le_bytes 8 i)) as (c & -> & _); [done..|lia|].
  by rewrite (proj2 (Z.leb_gt _ _)) by lia.
Qed.

Lemma boxes_of_spec rk texts : forall i draws,
  Forall frame_text texts -> length rk = 32%nat -> Forall (fun d => length d.1 = 12%nat) draws ->
  (length texts <= length draws)%nat -> 0 <= i -> i + Z.of_nat (length texts) < 2 ^ 64 ->
  Forall genuine (boxes_of rk i texts draws) /\ in_place rk i (boxes_of rk i texts draws) = boxes_of rk i texts draws /\
  btext <$> boxes_of rk i texts draws = texts.
Proof.
  induction texts as [|text texts IH]; intros i [|[nonce idx] draws] Ht Hk Hd Hl Hi Hn; cbn [length] in *; try lia; [done..|].
  apply Forall_cons in Ht as [Ht Hts], Hd as [Hd Hds].
  destruct (IH (i + 1) draws) as (Hg & Hp & Hb); [done..|lia|lia|lia|].
  cbn [boxes_of in_place fmap list_fmap]. split_and!.
  - constructor; [|done]. apply box_of_genuine; [done|int_unfold; lia|done..].
  - cbn [box_of bkey bindex]. by rewrite bool_decide_eq_true_2, Z.eqb_refl, Hp.
  - by f_equal.
Qed.

Lemma append_keeps_faults p b o : faults o = [] -> faults (append p b o).2 = [].
Proof. unfold append, Os.fallible, Os.next_fault. intros Hf. by rewrite Hf. Qed.

Lemma append_files p b o :
  files (append p b o).2 = files o \/ files (append p b o).2 = <[p := default [] (files o !! p) ++ b]> (files o).
Proof. destruct (append_effect p b o) as [(_ & ? & _)|(_ & ? & _)]; auto. Qed.

Section Frames.
Variables (I C : gmap string bytes -> Prop) (rk : bytes) (tmp tmp_idx : string).
Hypotheses (Hk : length rk = 32%nat) (HI : forall m, C m -> I m)
  (Htmp : forall m v, C m -> C (<[tmp := v]> m)) (Hidx : forall m v, C m -> C (<[tmp_idx := v]> m))
  (Hne : tmp_idx <> tmp).

Definition holds (b : bytes) (m : gmap string bytes) : Prop := C m /\ m !! tmp = Some b.

Lemma triple_append what pre b :
  triple I (holds pre) (io what (append tmp b)) (fun _ => holds (pre ++ b)).
Proof using HI Htmp.
  eapply triple_effect; [apply append_effect|]. intros m [Hc Hm]. rewrite Hm. cbn [default].
  split_and!; [auto..|split; [auto|]]. by rewrite lookup_insert_eq.
Qed.

Lemma encode_cast_frame_triple text pre i off nonce idx_nonce sidecar :
  frame_text text -> in_u64 i -> length nonce = 12%nat ->
  triple I (holds pre)
    (encode_cast_frame parse_event_timestamp_ms (Utf8.encode text) i off rk nonce idx_nonce tmp tmp_idx sidecar)
    (fun _ => holds (pre ++ bframe (box_of rk i nonce text))).
Proof using Hk HI Htmp Hidx Hne.
  intros [Hok Hl] Hi Hn. unfold MAX_FRAME_PLAINTEXT_BYTES in Hl.
  unfold encode_cast_frame, box_of, build_frame. cbn [bframe].
  destruct (encrypt_raw_total rk nonce (Utf8.encode text) (le_bytes 8 i)) as (ct & Hct & _); [done..|lia|].
  rewrite !Hct, (proj2 (Z.leb_gt _ _)) by lia.
  eapply triple_bindE; [apply triple_append|intros ?; cbv beta].
  eapply triple_bindE; [apply triple_append|intros ?; cbv beta].
  eapply triple_bindE; [apply triple_append|intros ?; cbv beta].
  rewrite <-!app_assoc. set (out := pre ++ _).
  assert (Hret : forall x : Z * Index.IndexWriter, triple I (holds out) (Ret (inr x)) (fun _ => holds out)).
  { intros x. apply triple_ret. intros m [? ?]. split; [auto|done]. }
  destruct (parse_event_timestamp_ms _); [|apply Hret].
  destruct (Index.append _ _ _ _) as [[e|u] w]; [apply Hret|].
  eapply (triple_call _ _ _ _ (fun _ => holds out)); [|intros ?; apply Hret].
  intros o [Hc Hm]. split_and!; [auto| | |apply append_keeps_faults];
    destruct (append_files tmp_idx (drop (length (Index.ifile sidecar)) (Index.ifile w)) o) as [-> | ->];
    auto; split; auto. by rewrite lookup_insert_ne.
Qed.

Lemma encode_lines_triple texts : forall pre draws i off sidecar,
  Forall frame_text texts -> Forall (fun d => length d.1 = 12%nat) draws ->
  (length texts <= length draws)%nat -> 0 <= i -> i + Z.of_nat (length texts) < 2 ^ 64 ->
  triple I (holds pre)
    (encode_lines parse_event_timestamp_ms (Utf8.encode <$> texts) draws i off rk tmp tmp_idx sidecar)
    (fun _ => holds (pre ++ body (boxes_of rk i texts draws))).
Proof using Hk HI Htmp Hidx Hne.
  induction texts as [|text texts IH]; intros pre [|[nonce idx] draws] i off sidecar Ht Hd Hl Hi Hn;
    cbn [length] in *; try lia.
  1,2: apply triple_ret; intros m [? ?]; rewrite app_nil_r; split; [auto|done].
  apply Forall_cons in Ht as [Ht Hts], Hd as [Hd Hds].
  cbn [fmap list_fmap encode_lines boxes_of]. eapply triple_bindE.
  - apply encode_cast_frame_triple; [done|int_unfold; lia|done].
  - intros nw. rewrite body_cons, app_assoc, Z.min_l by lia. apply IH; [done..|lia|lia|lia].
Qed.
End Frames.
End Encode.

(** ** The paths of one recording *)
Lemma names_differ base suffix suffix' :
  cast_of base <> lfsr_of base /\
  tmp_of (lfsr_of base) suffix <> cast_of base /\ tmp_of (lfsr_of base) suffix <> lfsr_of base /\
  tmp_of (Index.sidecar_name (lfsr_of base)) suffix <> cast_of base /\
  tmp_of (Index.sidecar_name (lfsr_of base)) suffix <> lfsr_of base /\
  tmp_of (Index.sidecar_name (lfsr_of base)) suffix <> tmp_of (lfsr_of base) suffix' /\
  Index.sidecar_name (lfsr_of base) <> cast_of base /\ Index.sidecar_name (lfsr_of base) <> lfsr_of base /\
  Index.sidecar_name (cast_of base) <> cast_of base /\ Index.sidecar_name (cast_of base) <> lfsr_of base /\
  tmp_of (cast_of base) suffix <> cast_of base /\ tmp_of (cast_of base) suffix <> lfsr_of base.
Proof.
  unfold tmp_of, Index.sidecar_name, cast_of, lfsr_of.
  induction base as [|c base IH]; [by split_and!|]. cbn [String.append].
  destruct_and! IH. split_and!; by intros [=].
Qed.

(** ** The lines of a plaintext recording *)
Definition with_newline (cs : list Z) : list Z := cs ++ [Reader.newline].

Lemma encode_with_newline cs : Utf8.encode (with_newline cs) = Utf8.encode cs ++ [Reader.newline].
Proof. unfold with_newline, Utf8.encode. by rewrite bind_app. Qed.

Lemma cast_lines_file ls fuel :
  Forall plain_line ls -> (length (cast_file ls) < fuel)%nat ->
  cast_lines fuel (cast_file ls) = Utf8.encode <$> (with_newline <$> filter (fun cs => cs <> []) ls).
Proof.
  intros Hl. revert fuel. induction Hl as [|cs ls Hc _ IH]; intros [|fuel] Hf; [lia|done|lia|].
  unfold cast_file in *. rewrite bind_cons in *. cbn [cast_lines]. rewrite <-app_assoc. cbn [app].
  rewrite !length_app in Hf. cbn [length] in Hf.
  destruct Hc as (Hok & H10 & H13 & Hlen).
  rewrite read_until_line; [|by apply encode_not_elem|lia].
  destruct cs as [|c cs].
  - cbn [Utf8.encode app]. change (forallb Reader.is_eol [Reader.newline]) with true. cbv iota.
    apply IH. lia.
  - rewrite filter_cons_True by done. rewrite !fmap_cons, encode_with_newline, IH by lia.
    destruct (Utf8.encode (c :: cs) ++ [Reader.newline]) as [|b l] eqn:Hb; [by destruct (Utf8.encode (c :: cs))|].
    rewrite <-Hb. replace (forallb Reader.is_eol (Utf8.encode (c :: cs) ++ [Reader.newline])) with false; [done|].
    symmetry. apply not_true_is_false. intros Hall. rewrite forallb_forall in Hall.
    assert (Hx : exists x, x ∈ Utf8.encode (c :: cs)).
    { exists (hd 0 (Utf8.encode_char c)). unfold Utf8.encode. rewrite bind_cons. unfold Utf8.encode_char.
      repeat case_match; left. }
    destruct Hx as [x Hx]. specialize (Hall x (in_or_app _ _ _ (or_introl (proj1 (list_elem_of_In _ _) Hx)))).
    apply orb_true_iff in Hall as [->%Z.eqb_eq| ->%Z.eqb_eq]; by eapply encode_not_elem in Hx.
Qed.

(** ** The two conversions *)
Section Convert.
Context `{Primitives}.
Variable parse_event_timestamp_ms : bytes -> option Z.

(** The recording as an encrypted file under [dk] that plays [ls]. *)
Definition encrypted_as (dk : bytes) (lfsr : string) (ls : list (list Z)) (m : gmap string bytes) : Prop :=
  exists wn rk h bs, build_lfsr_header wn dk rk = inr h /\ length rk = 32%nat /\ m !! lfsr = Some (h ++ body bs) /\
    Forall genuine bs /\ in_place rk 0 bs = bs /\ btext <$> bs = with_newline <$> ls /\ Z.of_nat (length bs) < 2 ^ 64.

Lemma encrypted_plays dk lfsr ls m :
  length dk = 32%nat -> Forall (fun cs => Reader.newline ∉ cs) ls -> encrypted_as dk lfsr ls m ->
  exists it, Reader.open_lfsr_iter_at (m !! lfsr) dk None = inr it /\ Reader.records it = inr <$> ls.
Proof.
  intros Hd Hl (wn & rk & h & bs & Hb & Hk & Hm & Hg & Hp & Ht & Hn).
  rewrite Hm, (open_built _ _ _ _ _ _ _ Hb Hk Hd), bool_decide_eq_true_2 by done. eexists. split; [done|].
  rewrite <-(app_nil_r (body bs)), records_body by (done || lia).
  rewrite Hp, Nat.eqb_refl, records_nil, app_nil_r.
  clear -Ht Hl. revert bs Ht. induction Hl as [|cs ls Hc _ IH]; intros [|b bs] Ht; try done.
  injection Ht as Hb Ht. rewrite !fmap_cons, IH by done. f_equal. unfold line. rewrite Hb.
  f_equal. by apply trim_newline_line.
Qed.

Definition nonempty (ls : list (list Z)) : list (list Z) := filter (fun cs => cs <> []) ls.

(** The plaintext source stays until the encrypted file is complete. *)
Definition either (base : string) (dk : bytes) (ls : list (list Z)) (m : gmap string bytes) : Prop :=
  m !! cast_of base = Some (cast_file ls) \/ encrypted_as dk (lfsr_of base) (nonempty ls) m.

Lemma frame_text_newline cs : Forall char_ok cs -> (length (Utf8.encode cs) < Reader.MAX_CAST_LINE_BYTES)%nat ->
  frame_text (with_newline cs).
Proof.
  intros Hok Hl. split.
  - apply Forall_app. split; [done|]. apply Forall_singleton. apply (bool_decide_unpack _). by vm_compute.
  - rewrite encode_with_newline, length_app. cbn [length].
    assert (Z.of_nat Reader.MAX_CAST_LINE_BYTES = MAX_FRAME_PLAINTEXT_BYTES) by (by apply Z2Nat.id). lia.
Qed.

Lemma encrypted_frame dk lfsr ls m p :
  p <> lfsr -> encrypted_as dk lfsr ls m ->
  encrypted_as dk lfsr ls (delete p m) /\ (forall v, encrypted_as dk lfsr ls (<[p := v]> m)).
Proof.
  intros Hp (wn & rk & h & bs & ? & ? & ? & ? & ? & ? & ?).
  split; [|intros v]; exists wn, rk, h, bs; [rewrite lookup_delete_ne|rewrite lookup_insert_ne]; done.
Qed.

Lemma nonempty_text ls : Forall plain_line ls -> Forall frame_text (with_newline <$> nonempty ls).
Proof.
  intros Hls. apply Forall_fmap, Forall_forall. intros cs [_ Hin]%list_elem_of_filter.
  rewrite Forall_forall in Hls. destruct (Hls cs Hin) as (Hok & _ & _ & Hl). by apply frame_text_newline.
Qed.

Lemma cast_to_lfsr_triple base dk rk wn draws suffix ls :
  length dk = 32%nat -> length rk = 32%nat -> length wn = 12%nat -> Forall (fun d => length d.1 = 12%nat) draws ->
  Forall plain_line ls -> (length (nonempty ls) <= length draws)%nat -> Z.of_nat (length (nonempty ls)) < 2 ^ 64 ->
  triple (either base dk ls)
    (fun m => m !! cast_of base = Some (cast_file ls) /\ m !! lfsr_of base = None)
    (convert_one_cast_to_lfsr parse_event_timestamp_ms base dk rk wn draws suffix)
    (fun b m => b = true /\ encrypted_as dk (lfsr_of base) (nonempty ls) m).
Proof.
  intros Hdk Hrk Hwn Hdr Hls Hlen Hbig.
  destruct (names_differ base suffix suffix) as (N1 & N2 & N3 & N4 & N5 & N6 & N7 & N8 & N9 & N10 & N11 & N12).
  set (C := fun m : gmap string bytes => m !! cast_of base = Some (cast_file ls)).
  assert (HI : forall m, C m -> either base dk ls m) by (intros m; by left).
  assert (Htmp : forall m v, C m -> C (<[tmp_of (lfsr_of base) suffix := v]> m)) by (intros m v; unfold C; by rewrite lookup_insert_ne).
  assert (Hidx : forall m v, C m -> C (<[tmp_of (Index.sidecar_name (lfsr_of base)) suffix := v]> m))
    by (intros m v; unfold C; by rewrite lookup_insert_ne).
  unfold convert_one_cast_to_lfsr. eapply (triple_call _ _ _ _ (fun e m => e = false /\ C m)).
  { intros o [Hc Hn]. rewrite exists_files. split_and!; [by left..| |done|apply exists_run].
    destruct (Os.exists_ _ o).1 eqn:He; [|done]. apply exists_run in He as [? He]. congruence. }
  intros e. destruct (build_total wn dk rk) as [h Hh]; [done..|]. rewrite Hh.
  apply (triple_pre _ _ (fun m => e = false /\ C m)); [done|].
  destruct e; [intros w [? _]; done|]. apply (triple_pre _ _ C); [by intros m [_ ?]|].
  eapply triple_bindE; [apply triple_read; intros m Hm; split; [by apply HI|exact Hm]|intros content].
  apply triple_pure. intros ->. cbn [hkdf_sha256 Nat.eqb orb].
  change ((255 * 32 <? 32)%nat) with false. cbv iota zeta.
  eapply (triple_step _ _ _ _ _ C); [apply touch_effect|by auto|].
  eapply (triple_step _ _ _ _ _ C); [apply create_effect|by auto|].
  eapply (triple_step _ _ _ _ _ C); [apply touch_effect|by auto|].
  eapply (triple_step _ _ _ _ _ C); [apply append_effect|by auto|].
  eapply (triple_step _ _ _ _ _ C); [apply append_effect|by auto|].
  set (H0 := holds C (tmp_of (lfsr_of base) suffix)).
  eapply (triple_step _ _ _ _ _ (H0 [])); [apply create_effect|
    intros m Hm; split_and!; [auto..|split; [auto|by rewrite lookup_insert_eq]]|].
  eapply triple_bindE; [by apply triple_append|intros ?; cbn [app]].
  assert (Hft : Forall frame_text (with_newline <$> nonempty ls)) by by apply nonempty_text.
  destruct (boxes_of_spec rk (with_newline <$> nonempty ls) 0 draws) as (Hg & Hpl & Hb);
    [done..|by rewrite length_fmap|done|by rewrite length_fmap|].
  rewrite cast_lines_file by (done || lia). fold (nonempty ls). eapply triple_bindE.
  { apply encode_lines_triple; try done; [by rewrite length_fmap|rewrite length_fmap; lia]. }
  intros ?. cbv beta. fold H0. set (bs := boxes_of _ _ _ _). set (E := encrypted_as dk (lfsr_of base) (nonempty ls)).
  assert (Hkeep : forall m p, p <> lfsr_of base -> E m -> E (delete p m) /\ (forall v, E (<[p := v]> m))).
  { intros m p Hp. by apply encrypted_frame. }
  assert (HE : forall m, E m -> either base dk ls m) by (intros m; by right).
  assert (HH : forall m, H0 (h ++ body bs) m -> either base dk ls m) by (intros m Hm; apply HI, Hm).
  eapply (triple_step _ _ _ _ _ (H0 (h ++ body bs))); [apply touch_effect|by auto|].
  eapply (triple_step _ _ _ _ _ (H0 (h ++ body bs))); [apply touch_effect|by auto|].
  eapply (triple_call _ _ _ _ (fun _ => H0 (h ++ body bs))).
  { intros o Ho. rewrite exists_files. pose proof (exists_run) as Hx. split; [auto|split; [auto|split; [done|apply Hx]]]. }
  intros e. eapply (triple_bindE _ _ _ (fun _ => H0 (h ++ body bs))).
  { destruct e; [eapply triple_effect; [apply touch_effect|]|apply triple_ret]; by auto. }
  intros ?. eapply (triple_commit _ _ _ _ _ _ (h ++ body bs) E).
  - intros m [Hc Hm]. assert (HEm : E (<[lfsr_of base := h ++ body bs]> (delete (tmp_of (lfsr_of base) suffix) m))).
    { exists wn, rk, h, bs. rewrite lookup_insert_eq. split_and!; try done.
      unfold bs. by rewrite <-(length_fmap btext), Hb, length_fmap. }
    auto.
  - intros m p Hp [Hm|Hm].
    + left. rewrite lookup_delete_ne; [done|]. rewrite !elem_of_cons, elem_of_nil in Hp. destruct Hp as [->|[->|[]]]; done.
    + right. apply Hkeep; [|done]. rewrite !elem_of_cons, elem_of_nil in Hp. destruct Hp as [->|[->|[]]]; done.
  - eapply (triple_call _ _ _ _ (fun _ => E)); [intros o Ho; rewrite exists_files; split_and!; auto; apply exists_run|].
    intros e'. eapply (triple_bindE _ _ _ (fun _ => E)).
    { destruct e'; [apply triple_best_effort_rename|apply triple_ret]; try by auto; intros; by apply Hkeep. }
    intros ?. eapply (triple_bindE _ _ _ (fun _ => E)); [apply triple_ignore_remove; [done|intros; by apply Hkeep]|intros ?].
    eapply (triple_bindE _ _ _ (fun _ => E)); [apply triple_remove_if_there; [done|intros; by apply Hkeep]|intros ?].
    apply triple_ret. auto.
Qed.
Lemma triple_write_records (I C : gmap string bytes -> Prop) tmp ls : forall pre,
  (forall m, C m -> I m) -> (forall m v, C m -> C (<[tmp := v]> m)) ->
  triple I (holds C tmp pre) (write_records (inr <$> ls) tmp) (fun _ => holds C tmp (pre ++ cast_file ls)).
Proof.
  induction ls as [|cs ls IH]; intros pre HI Htmp.
  - apply triple_ret. intros m [? ?]. rewrite app_nil_r. split; [auto|by split].
  - rewrite fmap_cons. cbn [write_records]. unfold cast_file. rewrite bind_cons. fold (cast_file ls).
    eapply triple_bindE; [by apply triple_append|intros ?].
    eapply triple_bindE; [by apply triple_append|intros ?].
    cbv beta. rewrite <-!app_assoc. eapply triple_pre; [|rewrite !(assoc_L (++)); apply IH; done].
    intros m. by rewrite !(assoc_L (++)).
Qed.

(** Between the two forms: [back] is the plaintext file the conversion writes. *)
Definition either_back (base : string) (dk : bytes) (ls : list (list Z)) (m : gmap string bytes) : Prop :=
  encrypted_as dk (lfsr_of base) ls m \/ m !! cast_of base = Some (cast_file ls).

Lemma lfsr_to_cast_triple base dk suffix ls :
  length dk = 32%nat -> Forall plain_line ls ->
  triple (either_back base dk ls)
    (fun m => encrypted_as dk (lfsr_of base) ls m /\ m !! cast_of base = None)
    (convert_one_lfsr_to_cast base dk suffix)
    (fun b m => b = true /\ m !! cast_of base = Some (cast_file ls)).
Proof.
  intros Hdk Hls. destruct (names_differ base suffix suffix) as (N1 & N2 & N3 & N4 & N5 & N6 & N7 & N8 & N9 & N10 & N11 & N12).
  intros w0 Hw0. assert (Hcontent : exists content it, files w0 !! lfsr_of base = Some content /\
    Reader.open_lfsr_iter_at (Some content) dk None = inr it /\ Reader.records it = inr <$> ls).
  { destruct Hw0 as [He _]. pose proof He as (_ & _ & h & bs & _ & _ & Hm & _).
    destruct (encrypted_plays dk (lfsr_of base) ls (files w0)) as (it & Ho & Hr); [done| |done|].
    - eapply Forall_impl; [exact Hls|]. by intros cs (_ & ? & _).
    - exists (h ++ body bs), it. by rewrite <-Hm. }
  destruct Hcontent as (content & it & Hm & Ho & Hr). revert w0 Hw0 Hm.
  set (C := fun m => encrypted_as dk (lfsr_of base) ls m /\ m !! lfsr_of base = Some content).
  enough (Ht : triple (either_back base dk ls) (fun m => C m /\ m !! cast_of base = None)
    (convert_one_lfsr_to_cast base dk suffix) (fun b m => b = true /\ m !! cast_of base = Some (cast_file ls))).
  { intros w0 [He Hn] Hm. apply Ht. by split. }
  assert (HI : forall m, C m -> either_back base dk ls m) by (intros m [? _]; by left).
  set (tmp := tmp_of (cast_of base) suffix).
  assert (Htmp : forall m v, C m -> C (<[tmp := v]> m)).
  { intros m v [He Hm]. split; [by apply encrypted_frame|by rewrite lookup_insert_ne]. }
  unfold convert_one_lfsr_to_cast. fold tmp. eapply (triple_call _ _ _ _ (fun e m => e = false /\ C m)).
  { intros o [Hc Hn]. rewrite exists_files. split_and!; [auto..| |done|apply exists_run].
    destruct (Os.exists_ _ o).1 eqn:He; [|done]. apply exists_run in He as [? He]. congruence. }
  intros e. apply triple_pure. intros ->.
  eapply triple_bindE; [apply triple_read; intros m Hm; split; [by apply HI|apply Hm]|intros content'].
  apply triple_pure. intros ->. rewrite Ho, Hr. cbv zeta.
  set (H0 := holds C tmp).
  eapply (triple_step _ _ _ _ _ (H0 [])); [apply create_effect|
    intros m Hm; split_and!; [auto..|split; [auto|by rewrite lookup_insert_eq]]|].
  eapply triple_bindE; [by apply triple_write_records|intros ?; cbv beta; cbn [app]; fold H0].
  assert (HH : forall m, H0 (cast_file ls) m -> either_back base dk ls m) by (intros m Hm; apply HI, Hm).
  eapply (triple_step _ _ _ _ _ (H0 (cast_file ls))); [apply touch_effect|by auto|].
  eapply (triple_step _ _ _ _ _ (H0 (cast_file ls))); [apply touch_effect|by auto|].
  set (E := fun m : gmap string bytes => m !! cast_of base = Some (cast_file ls)).
  assert (HE : forall m, E m -> either_back base dk ls m) by (intros m; by right).
  assert (Hdel : forall m p, p <> cast_of base -> E m -> E (delete p m)) by (intros; unfold E; by rewrite lookup_delete_ne).
  eapply (triple_commit _ _ _ _ _ _ (cast_file ls) E).
  - intros m Hm. assert (HEm : E (<[cast_of base := cast_file ls]> (delete tmp m))) by (unfold E; by rewrite lookup_insert_eq).
    split; [auto|]. split; [apply Hm|]. auto.
  - intros m p ->%list_elem_of_singleton [Hm|Hm]; [left; by apply encrypted_frame|right; by apply Hdel].
  - eapply (triple_bindE _ _ _ (fun _ => E)); [apply triple_ignore_remove; [done|intros; by apply Hdel]|intros ?].
    eapply (triple_bindE _ _ _ (fun _ => E)); [apply triple_remove_if_there; [done|intros; by apply Hdel]|intros ?].
    apply triple_ret. auto.
Qed.
(** What a player shows of each form. *)
Definition plays_cast (base : string) (m : gmap string bytes) (ls : list (list Z)) : Prop :=
  exists it, Reader.open_cast_iter_at (m !! cast_of base) None = inr it /\ Reader.cast_records it = inr <$> ls.
Definition plays_lfsr (base : string) (dk : bytes) (m : gmap string bytes) (ls : list (list Z)) : Prop :=
  exists it, Reader.open_lfsr_iter_at (m !! lfsr_of base) dk None = inr it /\ Reader.records it = inr <$> ls.

Lemma cast_file_plays base m ls :
  Forall plain_line ls -> m !! cast_of base = Some (cast_file ls) -> plays_cast base m (nonempty ls).
Proof.
  intros Hls Hm. unfold plays_cast. rewrite Hm. eexists. split; [done|].
  rewrite <-(app_nil_r (cast_file ls)), cast_file_records by done. by rewrite cast_records_turn, app_nil_r.
Qed.

Lemma nonempty_plain ls : Forall plain_line ls -> Forall plain_line (nonempty ls).
Proof. intros Hls. apply Forall_forall. intros cs [_ Hin]%list_elem_of_filter. by rewrite Forall_forall in Hls; apply Hls. Qed.

Lemma nonempty_idem ls : nonempty (nonempty ls) = nonempty ls.
Proof. apply list_filter_filter_l. auto. Qed.

Lemma encrypted_plays_lfsr base dk ls m :
  length dk = 32%nat -> Forall plain_line ls -> encrypted_as dk (lfsr_of base) ls m -> plays_lfsr base dk m ls.
Proof. intros Hd Hl. apply encrypted_plays; [done|]. eapply Forall_impl; [exact Hl|]. by intros cs (_ & ? & _). Qed.

(** C33. Encrypting a plaintext recording, and decrypting it again, never loses a line.
    Cut at any call and with any calls failing, either conversion leaves a file that plays
    exactly the lines of the recording, plaintext or under the database key.  Without
    failures it completes and the new file plays them; and the way back from an encrypted
    recording writes the plaintext file that has those lines. *)
Theorem conversion_keeps_recording base dk rk wn draws suffix suffix' ls w :
  length dk = 32%nat -> length rk = 32%nat -> length wn = 12%nat -> Forall (fun d => length d.1 = 12%nat) draws ->
  Forall plain_line ls -> (length (nonempty ls) <= length draws)%nat -> Z.of_nat (length (nonempty ls)) < 2 ^ 64 ->
  files w !! cast_of base = Some (cast_file ls) -> files w !! lfsr_of base = None ->
  let there := convert_one_cast_to_lfsr parse_event_timestamp_ms base dk rk wn draws suffix in
  let back := convert_one_lfsr_to_cast base dk suffix' in
  let kept m := plays_cast base m (nonempty ls) \/ plays_lfsr base dk m (nonempty ls) in
  (forall n, kept (files (crash n there w))) /\
  (faults w = [] -> exists w1, run there w = (inr true, w1) /\ plays_lfsr base dk (files w1) (nonempty ls)) /\
  (forall b w1, run there w = (inr b, w1) -> files w1 !! cast_of base = None ->
    (forall n, kept (files (crash n back w1))) /\
    (faults w1 = [] -> exists w2, run back w1 = (inr true, w2) /\
      files w2 !! cast_of base = Some (cast_file (nonempty ls)))).
Proof.
  intros Hdk Hrk Hwn Hdr Hls Hlen Hbig Hc Hn there back kept.
  destruct (cast_to_lfsr_triple base dk rk wn draws suffix ls Hdk Hrk Hwn Hdr Hls Hlen Hbig w (conj Hc Hn)) as (Ha & Hr & Ht).
  pose proof (nonempty_plain _ Hls) as Hne. split; [|split].
  - intros n. destruct (Ha n) as [Hm|Hm]; [left; by apply cast_file_plays|right; by apply encrypted_plays_lfsr].
  - intros Hf. destruct (Ht Hf) as (b & w1 & Hrun & _). destruct (Hr b w1 Hrun) as [-> He].
    exists w1. split; [done|]. by apply encrypted_plays_lfsr.
  - intros b w1 Hrun Hnone. destruct (Hr b w1 Hrun) as [-> He].
    destruct (lfsr_to_cast_triple base dk suffix' (nonempty ls) Hdk Hne w1 (conj He Hnone)) as (Ha' & Hr' & Ht').
    split.
    + intros n. destruct (Ha' n) as [Hm|Hm]; [right; by apply encrypted_plays_lfsr|left].
      rewrite <-nonempty_idem. by apply cast_file_plays.
    + intros Hf. destruct (Ht' Hf) as (b & w2 & Hrun2 & _). destruct (Hr' b w2 Hrun2) as [-> Hm]. eauto.
Qed.
End Convert.

(** ** Concrete conversions *)
Definition demo_ls : list (list Z) := [lit "{}"; []; lit "[0,o,hi]"].
Definition demo_draws : list (bytes * bytes) := replicate 3 (demo_nonce, demo_nonce).

Lemma demo_plain : Forall plain_line demo_ls.
Proof.
  assert (Z.of_nat Reader.MAX_CAST_LINE_BYTES = MAX_FRAME_PLAINTEXT_BYTES) as Hm by (by apply Z2Nat.id).
  repeat (apply Forall_cons; split); [..|apply Forall_nil_2];
    (split_and!; [by apply (bool_decide_unpack _); vm_compute..|apply Nat2Z.inj_lt; rewrite Hm; by vm_compute]).
Qed.

Lemma conversion_keeps_recording_witness :
  exists w2, run (convert_one_lfsr_to_cast "s/a" demo_db_key "2")
    (run (convert_one_cast_to_lfsr (fun _ => None) "s/a" demo_db_key demo_key demo_nonce demo_draws "1")
      (demo_os {[cast_of "s/a" := cast_file demo_ls]})).2 = (inr true, w2) /\
    files w2 !! cast_of "s/a" = Some (cast_file (nonempty demo_ls)).
Proof.
  destruct (conversion_keeps_recording (fun _ => None) "s/a" demo_db_key demo_key demo_nonce demo_draws "1" "2" demo_ls
    (demo_os {[cast_of "s/a" := cast_file demo_ls]})) as (_ & Hthere & Hback).
  - reflexivity.
  - reflexivity.
  - reflexivity.
  - repeat constructor.
  - exact demo_plain.
  - apply Nat.leb_le. reflexivity.
  - reflexivity.
  - reflexivity.
  - reflexivity.
  - destruct (Hthere eq_refl) as (w1 & Hr & _). destruct (Hback true w1 Hr) as (_ & H2).
    + rewrite <-(f_equal snd Hr : _ = w1). vm_compute. reflexivity.
    + rewrite Hr. apply H2. rewrite <-(f_equal snd Hr : _ = w1). vm_compute. reflexivity.
Defined.

(** A recording whose last write was torn stops the decryption of the recordings listed
    after it: the walk gives up at the first error, and the torn file makes every retry
    fail the same way. *)
Example torn_recording_blocks_conversion :
  let torn := take (length demo_lfsr - 1) demo_lfsr in
  let xs := [("s/a", "1"); ("s/b", "2")]%string in
  let w := demo_os {[lfsr_of "s/a" := torn; lfsr_of "s/b" := demo_lfsr]} in
  let w1 := (run (convert_all_lfsr_to_cast demo_db_key xs) w).2 in
  (run (convert_all_lfsr_to_cast demo_db_key xs) w).1 = inl (Unreadable Reader.TruncatedFrame) /\
  (run (convert_all_lfsr_to_cast demo_db_key xs) w1).1 = inl (Unreadable Reader.TruncatedFrame) /\
  files w1 !! cast_of "s/b" = None /\
  match Reader.open_lfsr_iter_at (Some torn) demo_db_key None with
  | inr it => length (Reader.records it) | inl _ => 0%nat
  end = 3%nat.
Proof. repeat split; vm_compute; reflexivity. Qed.
