(* ===== verification/Connection.v ===== *)
(** * Connections ([connection/mod.rs], [security/credential_prompt.rs])

    The registry of connection actors, the driver of one connect attempt, the teardown and
    the monitor of a live transport.  An actor is shared ([Arc<Mutex<_>>]): the heap maps
    handles to actors, the registry maps ids to handles, and a driver or a monitor keeps the
    handle it was given whatever the registry says later.  Each task is a [prog] whose calls
    are the critical sections and publications of the source, so tasks interleave where the
    code lets them.  The SSH handshake ([Session::connect_*]) is the parameter [dial]. *)
From Stdlib Require Import ZArith Lia.
From stdpp Require Import prelude gmap strings list pretty.
From S2P Require Import Prelude Types Bus Json Secrets PromptRegistry Prog.

Open Scope Z_scope.

(** The errors of [error.rs] a connect attempt distinguishes; the rest are [OtherErr]. *)
Inductive ConnError :=
| ConnectErr (detail : string)
| AuthFailed (detail : string)
| AuthErr (detail : string)
| KeyParse (detail : string)
| PassphraseRequired
| PassphraseIncorrect
| HostKeyRejected
| Transport (detail : string)
| OtherErr (detail : string).

#[export] Instance ConnError_eq_dec : EqDecision ConnError.
Proof. solve_decision. Defined.

(** [Display] of [error.rs]. *)
Definition display (e : ConnError) : string :=
  match e with
  | ConnectErr d => "connect failed: " ++ d
  | AuthFailed d => "authentication failed: " ++ d
  | AuthErr d => "auth error: " ++ d
  | KeyParse d => "key parse failed: " ++ d
  | PassphraseRequired => "passphrase required"
  | PassphraseIncorrect => "passphrase incorrect"
  | HostKeyRejected => "host key rejected"
  | Transport d => "transport: " ++ d
  | OtherErr d => d
  end%string.

Inductive ConnectAuthRef :=
| Password (secret_id : string)
| Pubkey (key_secret_id : string) (passphrase_secret_id : option string)
| PubkeyCert (key_secret_id cert_secret_id : string) (passphrase_secret_id : option string)
| PubkeySk (public_openssh : string) (credential_id : list Z) (application : string) (pin_secret_id : option string)
| PubkeySkCert (public_openssh : string) (credential_id : list Z) (application cert_secret_id : string)
    (pin_secret_id : option string)
| PubkeyPkcs11 (public_openssh module_path token_serial : string) (cka_id : list Z) (key_type : string)
    (pin_secret_id : option string)
| PubkeyEnclave (public_openssh : string) (application_tag : list Z)
| PubkeyHello (public_openssh credential_name key_type : string)
| PubkeyTpm (public_openssh provider : string) (blob : option (list Z)) (cng_key_name : option string)
    (key_type : string) (pin_secret_id : option string)
| PubkeyKeystore (public_openssh keystore_alias key_type : string)
| Agent.

Record ConnectArgs := mkArgs {
  c_label : string;
  c_session_id : option string;
  c_host : string;
  c_port : Z;
  c_user : string;
  c_auth : ConnectAuthRef;
  c_bastion_id : option string;
  c_internal : bool
}.

(** A live session is named by a number: two references are the same [Arc] when the
    numbers are equal. *)
Record ConnectionActor := mkActor {
  id : string;
  label : string;
  session_id : option string;
  bastion_id : option string;
  internal : bool;
  state : ConnectionState;
  generation : Z;
  error : option string;
  progress : list ProgressStep;
  host : string;
  port : Z;
  user : string;
  session : option nat
}.

Record ConnectionSnapshot := mkSnapshot {
  s_id : string;
  s_label : string;
  s_session_id : option string;
  s_bastion_id : option string;
  s_internal : bool;
  s_state : ConnectionState;
  s_error : option string;
  s_progress : list ProgressStep;
  s_host : string;
  s_port : Z;
  s_user : string
}.

Inductive CredentialPromptKind := PasswordPrompt | PassphrasePrompt.

Definition wire_name (k : CredentialPromptKind) : string :=
  match k with PasswordPrompt => "password" | PassphrasePrompt => "passphrase" end.

Definition from_wire_name (s : string) : option CredentialPromptKind :=
  if String.eqb s "password" then Some PasswordPrompt
  else if String.eqb s "passphrase" then Some PassphrasePrompt
  else None.

Inductive CredentialResponse :=
| Submit (secret : list Z) (remember_for_session : bool)
| CancelPrompt.

(** The process: the actors behind their handles, the registry, the last active count
    announced ([LAST_ACTIVE_COUNT]), the secret store, the parked credential prompts, and
    what has been published. *)
Record World := mkWorld {
  heap : list ConnectionActor;
  by_id : gmap string nat;
  order : list string;
  generations : gmap string Z;
  last_active_count : Z;
  secrets : SecretStore;
  prompts : PromptRegistry CredentialResponse;
  published : list Event
}.

Module Connection.

Definition new (i label : string) (session_id bastion_id : option string) (internal : bool)
    (host : string) (port : Z) (user : string) : ConnectionActor :=
  mkActor i label session_id bastion_id internal Disconnected 0 None [] host port user None.

Definition snapshot (a : ConnectionActor) : ConnectionSnapshot :=
  mkSnapshot (id a) (label a) (session_id a) (bastion_id a) (internal a) (state a) (error a)
    (progress a) (host a) (port a) (user a).

Definition clone_session (a : ConnectionActor) : option nat := session a.

Definition with_registry (m : gmap string nat) (o : list string) (w : World) : World :=
  mkWorld (heap w) m o (generations w) (last_active_count w) (secrets w) (prompts w) (published w).
Definition with_heap (h : list ConnectionActor) (w : World) : World :=
  mkWorld h (by_id w) (order w) (generations w) (last_active_count w) (secrets w) (prompts w) (published w).
Definition with_generations (g : gmap string Z) (w : World) : World :=
  mkWorld (heap w) (by_id w) (order w) g (last_active_count w) (secrets w) (prompts w) (published w).
Definition with_count (n : Z) (w : World) : World :=
  mkWorld (heap w) (by_id w) (order w) (generations w) n (secrets w) (prompts w) (published w).
Definition with_secrets (s : SecretStore) (w : World) : World :=
  mkWorld (heap w) (by_id w) (order w) (generations w) (last_active_count w) s (prompts w) (published w).
Definition with_prompts (p : PromptRegistry CredentialResponse) (w : World) : World :=
  mkWorld (heap w) (by_id w) (order w) (generations w) (last_active_count w) (secrets w) p (published w).
Definition publish (e : Event) (w : World) : unit * World :=
  ((), mkWorld (heap w) (by_id w) (order w) (generations w) (last_active_count w) (secrets w) (prompts w)
         (published w ++ [e])).

(** ** The registry *)
Definition start : World :=
  mkWorld [] ∅ [] ∅ (-1) SecretStore.new PromptRegistry.new [].

Definition insert (actor : ConnectionActor) (w : World) : nat * World :=
  let h := length (heap w) in
  (h, with_registry (<[id actor := h]> (by_id w)) (order w ++ [id actor]) (with_heap (heap w ++ [actor]) w)).

Definition get (i : string) (w : World) : option nat := by_id w !! i.

Definition actor_of (i : string) (w : World) : option ConnectionActor := h ← by_id w !! i; heap w !! h.

Definition connected_session (i : string) (w : World) : option nat :=
  a ← actor_of i w; if decide (state a = Connected) then clone_session a else None.

Definition remove (i : string) (w : World) : option nat * World :=
  let handle := by_id w !! i in
  (handle,
   match handle with
   | Some _ => with_registry (delete i (by_id w)) (filter (fun x => x <> i) (order w)) w
   | None => w
   end).

Definition snapshot_all (w : World) : list ConnectionSnapshot :=
  omap (fun i => snapshot <$> actor_of i w) (order w).

Definition count (w : World) : nat := size (by_id w).

Definition init_generation (i : string) (w : World) : World := with_generations (<[i := 1]> (generations w)) w.

(** [u32] arithmetic. *)
Definition bump_generation (i : string) (w : World) : Z * World :=
  let next := wrap_u32 (default 0 (generations w !! i) + 1) in
  (next, with_generations (<[i := next]> (generations w)) w).

Definition is_current_generation (i : string) (generation : Z) (w : World) : bool :=
  match generations w !! i with Some g => g =? generation | None => false end.

Definition drop_generation (i : string) (w : World) : World := with_generations (delete i (generations w)) w.

Definition clear_generations (w : World) : World := with_generations ∅ w.

Definition visible (a : ConnectionActor) : bool := negb (internal a) && bool_decide (state a = Connected).

Definition connected_user_visible_count (w : World) : Z :=
  Z.of_nat (length (filter (fun a => visible a = true) (omap (fun ih => heap w !! ih.2) (map_to_list (by_id w))))).

(** ** The critical sections of the tasks *)

(** A handle always points to its actor; the default is never read. *)
Definition deref (h : nat) (w : World) : ConnectionActor :=
  default (new "" "" None None false "" 0 "") (heap w !! h).

Definition update (h : nat) (f : ConnectionActor -> ConnectionActor) (w : World) : World :=
  with_heap (alter f h (heap w)) w.

Definition set_state (st : ConnectionState) (a : ConnectionActor) : ConnectionActor :=
  mkActor (id a) (label a) (session_id a) (bastion_id a) (internal a) st (generation a) (error a)
    (progress a) (host a) (port a) (user a) (session a).

Definition begin_attempt (a : ConnectionActor) : ConnectionActor :=
  mkActor (id a) (label a) (session_id a) (bastion_id a) (internal a) Connecting
    (wrap_u64 (generation a + 1)) None [] (host a) (port a) (user a) (session a).

Definition connected_with (s : nat) (a : ConnectionActor) : ConnectionActor :=
  mkActor (id a) (label a) (session_id a) (bastion_id a) (internal a) Connected (generation a) (error a)
    (progress a) (host a) (port a) (user a) (Some s).

Definition failed_with (detail : string) (a : ConnectionActor) : ConnectionActor :=
  mkActor (id a) (label a) (session_id a) (bastion_id a) (internal a) Disconnected (generation a)
    (Some detail) (progress a) (host a) (port a) (user a) (session a).

Definition torn_down (a : ConnectionActor) : ConnectionActor :=
  mkActor (id a) (label a) (session_id a) (bastion_id a) (internal a) Disconnected (generation a) (error a)
    (progress a) (host a) (port a) (user a) None.

Definition push_progress (step : ProgressStep) (a : ConnectionActor) : ConnectionActor :=
  mkActor (id a) (label a) (session_id a) (bastion_id a) (internal a) (state a) (generation a) (error a)
    (progress a ++ [step]) (host a) (port a) (user a) (session a).

Open Scope prog_scope.

Definition emit (e : Event) : prog World unit := call (publish e).
Definition modify (f : World -> World) : prog World unit := call (fun w => ((), f w)).
Definition ask {A} (f : World -> A) : prog World A := call (fun w => (f w, w)).

Definition failure_phase (e : ConnError) : ConnectionPhase :=
  match e with
  | AuthErr _ | AuthFailed _ | PassphraseRequired | PassphraseIncorrect | KeyParse _ => Authenticate
  | HostKeyRejected => HostKeyVerify
  | _ => SocketConnect
  end.

Definition record_progress (h : nat) (i : string) (step : ProgressStep) : prog World unit :=
  let! _ := modify (update h (push_progress step)) in
  emit (ConnectionProgress i step).

Definition publish_active_count : prog World unit :=
  let! n := ask connected_user_visible_count in
  let! prev := call (fun w => (last_active_count w, with_count n w)) in
  if prev =? n then Ret () else emit (ConnectionActiveCountChanged n).

Definition superseded : string := "connect attempt superseded by newer reconnect".

Definition emit_stale_attempt_closure (i : string) (canonical_state : ConnectionState) : prog World unit :=
  let! _ := emit (ConnectionError i superseded) in
  emit (ConnectionStateChanged i canonical_state).

(** [Debug] of a state. *)
Definition state_name (st : ConnectionState) : string :=
  match st with Disconnected => "Disconnected" | Connecting => "Connecting" | Connected => "Connected" end.

(** ** Waiting for the ProxyJump parent

    [feed] is what the receiver subscribed before the snapshot yields, an event or a lag;
    where it ends the timeout has fired. *)
Inductive received := Got (e : Event) | Lagged.

Definition parent_error (parent what : string) : ConnError :=
  Transport ("ProxyJump parent '" ++ parent ++ "' " ++ what)%string.

Fixpoint wait_loop (parent : string) (feed : list received) : prog World (ConnError + unit) :=
  match feed with
  | [] => Ret (inl (parent_error parent "did not settle within 30s"))
  | Got (ConnectionStateChanged i st) :: feed =>
      if String.eqb i parent then
        match st with
        | Connected => Ret (inr ())
        | Disconnected => Ret (inl (parent_error parent "failed to connect"))
        | Connecting => wait_loop parent feed
        end
      else wait_loop parent feed
  | Got _ :: feed => wait_loop parent feed
  | Lagged :: feed =>
      let! a := ask (actor_of parent) in
      match a with
      | None => Ret (inl (parent_error parent "missing during wait"))
      | Some a =>
          match state a with
          | Connected => Ret (inr ())
          | Disconnected => Ret (inl (parent_error parent "is disconnected"))
          | Connecting => wait_loop parent feed
          end
      end
  end.

Definition wait_for_parent_ready (parent : string) (feed : list received) : prog World (ConnError + unit) :=
  let! a := ask (actor_of parent) in
  match a with
  | None => Ret (inl (parent_error parent "missing"))
  | Some a =>
      match state a with
      | Connected => Ret (inr ())
      | Disconnected => Ret (inl (parent_error parent "is disconnected"))
      | Connecting => wait_loop parent feed
      end
  end.

Definition resolve_bastion_session (bastion : option string) (feed : list received) :
    prog World (ConnError + option nat) :=
  match bastion with
  | None => Ret (inr None)
  | Some i =>
      let! r := wait_for_parent_ready i feed in
      match r with
      | inl e => Ret (inl e)
      | inr _ =>
          let! a := ask (actor_of i) in
          match a with
          | None => Ret (inl (parent_error i "missing"))
          | Some a =>
              if decide (state a = Connected) then
                match clone_session a with
                | Some s => Ret (inr (Some s))
                | None => Ret (inl (parent_error i "has no live session"))
                end
              else Ret (inl (parent_error i ("not yet connected (state " ++ state_name (state a) ++ ")")%string))
          end
      end
  end.

(** ** Credential prompts *)
Definition MAX_CREDENTIAL_PROMPTS : nat := 3.

(** The receiver's end when the wait is over: an answer, or a timeout, which drops it. *)
Definition await_response (c : nat) (w : World) : option (list Z) * World :=
  match channels (prompts w) !! c with
  | Some (Woken (Submit secret _)) => (Some secret, w)
  | Some Waiting => (None, with_prompts (PromptRegistry.drop_receiver c (prompts w)) w)
  | _ => (None, w)
  end.

Definition register (prompt_id : string) (w : World) : nat * World :=
  let '(c, p) := PromptRegistry.register prompt_id (prompts w) in (c, with_prompts p w).

(** [prompt_id] is the fresh UUID. *)
Definition prompt_credential (session : string) (kind : CredentialPromptKind) (prompt_id : string) :
    prog World (option (list Z)) :=
  let! receiver := call (register prompt_id) in
  let! _ := emit (CredentialPromptRequest prompt_id session (wire_name kind)) in
  call (await_response receiver).

(** The passphrase slot and the credential that carries it; [None] where the source has
    [unreachable!]. *)
Definition ensure_passphrase_slot (auth : ConnectAuthRef) (uuid : string) : option (string * ConnectAuthRef) :=
  let slot p := default ("conn.passphrase." ++ uuid)%string p in
  match auth with
  | Pubkey k p => Some (slot p, Pubkey k (Some (slot p)))
  | PubkeyCert k c p => Some (slot p, PubkeyCert k c (Some (slot p)))
  | _ => None
  end.

Definition with_auth (a : ConnectAuthRef) (args : ConnectArgs) : ConnectArgs :=
  mkArgs (c_label args) (c_session_id args) (c_host args) (c_port args) (c_user args) a
    (c_bastion_id args) (c_internal args).

Definition put_secret (i : string) (b : list Z) (w : World) : World := with_secrets (SecretStore.put i b (secrets w)) w.

Definition is_passphrase_error (e : ConnError) : bool :=
  match e with PassphraseRequired | PassphraseIncorrect => true | _ => false end.

Section Driver.

(** The handshake, direct or through a bastion's session, with the secrets staged. *)
Variable dial : ConnectArgs -> option nat -> SecretStore -> ConnError + nat.
Variable config : option json.

(** What the environment and the generator give one attempt: the UUIDs of its prompts, the
    UUID of a minted slot, and what the parent's wait receives. *)
Record Draws := mkDraws { password_prompt : string; passphrase_prompts : nat -> string; slot_uuid : string;
  feeds : nat -> list received }.

Definition run_auth (args : ConnectArgs) (feed : list received) : prog World (ConnError + nat) :=
  let! b := resolve_bastion_session (c_bastion_id args) feed in
  match b with
  | inl e => Ret (inl e)
  | inr bastion => ask (fun w => dial args bastion (secrets w))
  end.

(** The retry loop; [retries] is what remains of [MAX_CREDENTIAL_PROMPTS]. *)
Fixpoint auth_loop (retries : nat) (session : string) (d : Draws) (args : ConnectArgs) : prog World (ConnError + nat) :=
  let! r := run_auth args (feeds d retries) in
  match r with
  | inr s => Ret (inr s)
  | inl err =>
      match retries, ensure_passphrase_slot (c_auth args) (slot_uuid d) with
      | S retries, Some (slot, auth) =>
          if is_passphrase_error err then
            let! secret := prompt_credential session PassphrasePrompt (passphrase_prompts d retries) in
            match secret with
            | Some bytes =>
                let! _ := modify (put_secret slot bytes) in
                auth_loop retries session d (with_auth auth args)
            | None => Ret (inl err)
            end
          else Ret (inl err)
      | _, _ => Ret (inl err)
      end
  end.

Definition run_auth_with_credential_prompts (i : string) (args : ConnectArgs) (d : Draws) :
    prog World (ConnError + nat) :=
  let session := default i (c_session_id args) in
  let! _ :=
    match c_auth args with
    | Password secret_id =>
        let! bytes := ask (fun w => SecretStore.get secret_id (secrets w)) in
        match bytes with
        | Some (_ :: _) => Ret ()
        | _ =>
            let! secret := prompt_credential session PasswordPrompt (password_prompt d) in
            match secret with Some b => modify (put_secret secret_id b) | None => Ret () end
        end
    | _ => Ret ()
    end in
  auth_loop MAX_CREDENTIAL_PROMPTS session d args.

(** [ssh_timeout_sec] of the configuration. *)
Definition ssh_timeout_secs (config : option json) : Z :=
  match (v ← config; o ← Json.as_object v; f ← o !! "ssh_timeout_sec"; Json.as_i64 f) with
  | Some s => if 0 <? s then s else 30
  | None => 30
  end.

(** A future dropped after [cut] of its calls. *)
Fixpoint cut_at {A} (cut : nat) (p : prog World A) : prog World (option A) :=
  match p with
  | Ret a => Ret (Some a)
  | Step f k => match cut with O => Ret None | S cut => Step f (fun b => cut_at cut (k b)) end
  end.

(** [cut] is where the timeout, if it fires, drops the attempt. *)
Definition run_connect_driver (i : string) (args : ConnectArgs) (h : nat) (d : Draws) (cut : option nat) :
    prog World unit :=
  let! gen := call (fun w => let w' := update h begin_attempt w in (generation (deref h w'), w')) in
  let! _ := emit (ConnectionStateChanged i Connecting) in
  let! _ := record_progress h i {| phase := SocketConnect; step_status := InProgress; step_detail := None |} in
  let! result :=
    match cut with
    | None => run_auth_with_credential_prompts i args d
    | Some n =>
        let! r := cut_at n (run_auth_with_credential_prompts i args d) in
        Ret (default (inl (ConnectErr ("connect timed out (" ++ pretty (ssh_timeout_secs config) ++ " s)")%string)) r)
    end in
  let! a := ask (deref h) in
  if negb (generation a =? gen) then emit_stale_attempt_closure i (state a)
  else
    match result with
    | inr s =>
        let! _ := modify (update h (connected_with s)) in
        let! _ := record_progress h i {| phase := SocketConnect; step_status := StepSuccess; step_detail := None |} in
        let! _ := record_progress h i {| phase := HostKeyVerify; step_status := StepSuccess; step_detail := None |} in
        let! _ := record_progress h i {| phase := Authenticate; step_status := StepSuccess; step_detail := None |} in
        let! _ := emit (ConnectionStateChanged i Connected) in
        publish_active_count
    | inl e =>
        let detail := display e in
        let! _ := modify (update h (failed_with detail)) in
        let! _ := record_progress h i
          {| phase := failure_phase e; step_status := StepFailed; step_detail := Some detail |} in
        let! _ := emit (ConnectionError i detail) in
        let! _ := emit (ConnectionStateChanged i Disconnected) in
        publish_active_count
    end.

Definition connect_async (i : string) (args : ConnectArgs) (d : Draws) (cut : option nat) : prog World unit :=
  let actor := new i (c_label args) (c_session_id args) (c_bastion_id args) (c_internal args) (c_host args)
                 (c_port args) (c_user args) in
  let! h := call (insert actor) in
  run_connect_driver i args h d cut.

End Driver.

(** ** Teardown *)

(** [refused] is the error of the protocol-level disconnect, if any. *)
Definition disconnect (i : string) (refused : option string) : prog World unit :=
  let! handle := call (remove i) in
  match handle with
  | None => Ret ()
  | Some h =>
      let! s := call (fun w => (session (deref h w), update h torn_down w)) in
      let! _ := match s, refused with
                | Some _, Some detail => emit (ConnectionError i ("disconnect: " ++ detail)%string)
                | _, _ => Ret ()
                end in
      let! _ := emit (ConnectionRemoved i) in
      publish_active_count
  end.

Fixpoint disconnect_each (ids : list string) (refused : string -> option string) (torn : nat) : prog World nat :=
  match ids with
  | [] => Ret torn
  | i :: ids => let! _ := disconnect i (refused i) in disconnect_each ids refused (S torn)
  end.

Definition disconnect_all (refused : string -> option string) : prog World nat :=
  let! ids := ask (fun w => map s_id (snapshot_all w)) in
  disconnect_each ids refused 0.

(** ** The monitor

    One tick per element of [ticks]: whether the session is still referenced, and whether
    its transport is closed. *)
Definition flip (h : nat) (w : World) : bool * World :=
  if decide (state (deref h w) = Connected) then (true, update h torn_down w) else (false, w).

Fixpoint run_transport_monitor (i : string) (h : nat) (ticks : list (bool * bool)) : prog World unit :=
  match ticks with
  | [] => Ret ()
  | (upgrades, closed) :: ticks =>
      let! cur := ask (get i) in
      if negb (bool_decide (cur = Some h)) then Ret ()
      else if negb upgrades then Ret ()
      else if negb closed then run_transport_monitor i h ticks
      else
        let! flipped := call (flip h) in
        if flipped : bool then
          let! _ := emit (ConnectionStateChanged i Disconnected) in
          publish_active_count
        else Ret ()
  end.

(** ** The timeout of an attempt

    Each tick is its time, whether a prompt is pending and whether the attempt has
    finished since. *)
Inductive timeout_outcome := Finished | TimedOut | Running.

Fixpoint pause_aware_loop (cap started paused last_tick : Z) (ticks : list (Z * bool * bool)) : timeout_outcome :=
  match ticks with
  | [] => Running
  | (now, paused_now, done) :: ticks =>
      let paused := if paused_now : bool then paused + (now - last_tick) else paused in
      let elapsed_net := Z.max 0 (now - started - paused) in
      if (cap <=? elapsed_net) && negb paused_now then TimedOut
      else if done : bool then Finished
      else pause_aware_loop cap started paused now ticks
  end.

Definition run_with_pause_aware_timeout (cap started : Z) (ticks : list (Z * bool * bool)) : timeout_outcome :=
  pause_aware_loop cap started 0 started ticks.

(** [is_paused]: a host-key prompt or a credential prompt is waiting. *)
Definition is_paused (known_hosts_pending : nat) (w : World) : bool :=
  (0 <? known_hosts_pending)%nat || (0 <? PromptRegistry.pending_count (prompts w))%nat.

End Connection.

Import Connection.

(** ** The invariant of the process

    Every id in the order list is registered and the other way round; a registered handle
    is an actor of that id; an actor that says it is connected has a session; the
    locks requested are those of the resident secrets. *)
Record world_ok (w : World) : Prop := {
  ok_order : forall i, i ∈ order w <-> is_Some (by_id w !! i);
  ok_handles : forall i h, by_id w !! i = Some h -> exists a, heap w !! h = Some a /\ id a = i;
  ok_session : forall h a, heap w !! h = Some a -> state a = Connected -> is_Some (session a);
  ok_secrets : store_wf (secrets w)
}.

Lemma world_ok_start : world_ok start.
Proof.
  split; cbn.
  - intros i. rewrite lookup_empty, elem_of_nil. split; [done|]. by intros [? ?].
  - intros i h. by rewrite lookup_empty.
  - done.
  - apply store_wf_new.
Qed.

(** The actor's own changes: its id stays, and it is only connected with a session. *)
Definition safe (f : ConnectionActor -> ConnectionActor) : Prop :=
  forall a, id (f a) = id a /\ ((state a = Connected -> is_Some (session a)) -> state (f a) = Connected -> is_Some (session (f a))).

Lemma safe_begin : safe begin_attempt. Proof. by split. Qed.
Lemma safe_connected s : safe (connected_with s). Proof. split; [done|]. cbn. eauto. Qed.
Lemma safe_failed d : safe (failed_with d). Proof. by split. Qed.
Lemma safe_torn : safe torn_down. Proof. by split. Qed.
Lemma safe_progress st : safe (push_progress st). Proof. by split. Qed.

#[export] Hint Resolve safe_begin safe_connected safe_failed safe_torn safe_progress : lfs.

Lemma update_ok h f w : safe f -> world_ok w -> world_ok (update h f w).
Proof.
  intros Hf [Ho Hh Hs Hp]. split; cbn; [done| | |done].
  - intros i h' Hi. destruct (Hh i h' Hi) as (a & Ha & Hid). rewrite list_lookup_alter, Ha.
    case_decide; [|eauto]. subst h'. rewrite Ha. exists (f a). split; [done|]. by rewrite (proj1 (Hf a)).
  - intros h' a. rewrite list_lookup_alter. case_decide; [|apply Hs]. subst h'.
    destruct (heap w !! h) as [a0|] eqn:Ha; [|done]. intros [= <-]. apply Hf. eauto.
Qed.

Lemma insert_ok a w : state a = Disconnected -> world_ok w -> world_ok (insert a w).2.
Proof.
  intros Hst [Ho Hh Hs Hp]. split; cbn; [| | |done].
  - intros i. rewrite elem_of_app, list_elem_of_singleton, lookup_insert, Ho. case_decide as He.
    + split; [eauto|]. by right.
    + split; [by intros [?| ->]|by left].
  - intros i h. rewrite lookup_insert. case_decide as He.
    + intros [= <-]. exists a. by rewrite lookup_app_r, Nat.sub_diag by lia.
    + intros Hi. destruct (Hh i h Hi) as (a' & Ha & Hid). exists a'. split; [|done].
      by apply lookup_app_l_Some.
  - intros h a'. rewrite lookup_app_Some. intros [Ha|[_ Ha]]; [eauto|].
    apply list_lookup_singleton_Some in Ha as [_ <-]. congruence.
Qed.

Lemma remove_ok i w : world_ok w -> world_ok (remove i w).2.
Proof.
  intros Hw. unfold remove. cbn [snd]. destruct (by_id w !! i) as [h|] eqn:Hi; [|done].
  destruct Hw as [Ho Hh Hs Hp]. split; cbn; [| |done|done].
  - intros j. rewrite list_elem_of_filter, Ho, lookup_delete. case_decide as He.
    + split; [by intros [? _]|by intros [? ?]].
    + split; [by intros [_ ?]|done].
  - intros j h'. rewrite lookup_delete. case_decide; [done|]. apply Hh.
Qed.

Lemma put_secret_ok i b w : world_ok w -> world_ok (put_secret i b w).
Proof. intros [Ho Hh Hs Hp]. split; try done. by apply store_wf_put. Qed.

Lemma same_ok w w' : by_id w' = by_id w -> order w' = order w -> heap w' = heap w -> secrets w' = secrets w ->
  world_ok w -> world_ok w'.
Proof. intros H1 H2 H3 H4 [Ho Hh Hs Hp]. split; rewrite ?H1, ?H2, ?H3, ?H4; done. Qed.

#[export] Hint Resolve update_ok insert_ok remove_ok put_secret_ok : lfs.

(** ** What every task keeps

    A property that the primitive changes keep is kept by every call of every task. *)
Record auth_closed (P : World -> Prop) : Prop := {
  cl_publish : forall e w, P w -> P (publish e w).2;
  cl_prompts : forall p w, P w -> P (with_prompts p w);
  cl_secret : forall i b w, P w -> P (put_secret i b w)
}.

Record closed (P : World -> Prop) : Prop := {
  cl_auth : auth_closed P;
  cl_update : forall h f w, safe f -> P w -> P (update h f w);
  cl_insert : forall a w, state a = Disconnected -> P w -> P (insert a w).2;
  cl_remove : forall i w, P w -> P (remove i w).2;
  cl_count : forall n w, P w -> P (with_count n w);
  cl_generations : forall g w, P w -> P (with_generations g w)
}.

Lemma world_ok_closed : closed world_ok.
Proof. split; [split|..]; auto with lfs; intros; match goal with Hw : world_ok ?w |- _ => by apply (same_ok w) end. Qed.

Lemma published_closed pub : closed (fun w => pub `prefix_of` published w).
Proof.
  split; [split|..]; cbn; try done.
  - intros e w Hw. by apply prefix_app_r.
  - intros i w Hw. unfold remove. cbn [snd]. by destruct (by_id w !! i).
Qed.

Ltac keeps_step :=
  match goal with
  | |- keeps _ (Ret _) => constructor
  | |- keeps _ (pbind _ _) => apply keeps_bind; [|intros]
  | |- keeps _ (emit _) => apply keeps_call; intros
  | |- keeps _ (modify _) => apply keeps_call; intros
  | |- keeps _ (ask _) => apply keeps_call; intros
  | |- keeps _ (call _) => apply keeps_call; intros
  | |- keeps _ (match ?x with _ => _ end) => destruct x
  end.

Section AuthKeeps.
Context (P : World -> Prop) (HP : auth_closed P).
Variable dial : ConnectArgs -> option nat -> SecretStore -> ConnError + nat.

#[local] Hint Extern 2 (P _) => first
  [ apply (cl_publish P HP) | apply (cl_prompts P HP) | apply (cl_secret P HP) ] : lfs.

Ltac go := repeat keeps_step; cbn [snd]; eauto with lfs.

Lemma wait_loop_keeps parent feed : keeps P (wait_loop parent feed).
Proof using HP. induction feed as [|[e|] feed IH]; cbn [wait_loop]; [constructor|destruct e; go|go]. Qed.

#[local] Hint Resolve wait_loop_keeps : lfs.

Lemma resolve_bastion_keeps b feed : keeps P (resolve_bastion_session b feed).
Proof using HP. unfold resolve_bastion_session, wait_for_parent_ready. go. Qed.

#[local] Hint Resolve resolve_bastion_keeps : lfs.

Lemma prompt_credential_keeps s k u : keeps P (prompt_credential s k u).
Proof using HP.
  unfold prompt_credential. go.
  unfold await_response. repeat case_match; cbn [snd]; eauto with lfs.
Qed.

#[local] Hint Resolve prompt_credential_keeps : lfs.

Lemma auth_loop_keeps n s d args : keeps P (auth_loop dial n s d args).
Proof using HP. revert args. induction n as [|n IH]; intros args; cbn [auth_loop]; unfold run_auth; go. Qed.

#[local] Hint Resolve auth_loop_keeps : lfs.

Lemma auth_prompts_keeps i args d : keeps P (run_auth_with_credential_prompts dial i args d).
Proof using HP. unfold run_auth_with_credential_prompts. go. Qed.

Lemma cut_at_keeps {A} n (p : prog World A) : keeps P p -> keeps P (cut_at n p).
Proof using. intros Hp. revert n. induction Hp as [a|B f k Hf Hk IH]; intros [|n]; cbn; by constructor. Qed.
End AuthKeeps.

Section Keeps.
Context (P : World -> Prop) (HP : closed P).
Variable dial : ConnectArgs -> option nat -> SecretStore -> ConnError + nat.
Variable config : option json.

#[local] Hint Extern 2 (P _) => first
  [ apply (cl_publish P (cl_auth P HP)) | apply (cl_update P HP) | apply (cl_insert P HP) | apply (cl_remove P HP)
  | apply (cl_count P HP) | apply (cl_prompts P (cl_auth P HP)) | apply (cl_secret P (cl_auth P HP))
  | apply (cl_generations P HP) ] : lfs.

Ltac go := repeat keeps_step; cbn [snd]; eauto with lfs.

Lemma record_progress_keeps h i st : keeps P (record_progress h i st).
Proof using HP. unfold record_progress. go. Qed.

Lemma publish_active_count_keeps : keeps P publish_active_count.
Proof using HP. unfold publish_active_count. go. Qed.

Lemma stale_keeps i st : keeps P (emit_stale_attempt_closure i st).
Proof using HP. unfold emit_stale_attempt_closure. go. Qed.

Lemma auth_keeps i args d : keeps P (run_auth_with_credential_prompts dial i args d).
Proof using HP. apply auth_prompts_keeps, HP. Qed.

#[local] Hint Resolve record_progress_keeps publish_active_count_keeps stale_keeps auth_keeps cut_at_keeps : lfs.

Lemma driver_keeps i args h d cut : keeps P (run_connect_driver dial config i args h d cut).
Proof using HP. unfold run_connect_driver. go. Qed.

#[local] Hint Resolve driver_keeps : lfs.

Lemma connect_keeps i args d cut : keeps P (connect_async dial config i args d cut).
Proof using HP. unfold connect_async. go. Qed.

Lemma disconnect_keeps i r : keeps P (disconnect i r).
Proof using HP. unfold disconnect. go. Qed.

#[local] Hint Resolve disconnect_keeps : lfs.

Lemma disconnect_all_keeps r : keeps P (disconnect_all r).
Proof using HP.
  unfold disconnect_all. go. generalize 0%nat as n.
  match goal with ids : list string |- _ => induction ids as [|i ids IH] end; intros n; cbn [disconnect_each]; go.
Qed.

Lemma monitor_keeps i h ticks : keeps P (run_transport_monitor i h ticks).
Proof using HP.
  induction ticks as [|[up cl] ticks IH]; cbn [run_transport_monitor]; [constructor|]. go.
  unfold flip. repeat case_match; cbn [snd]; eauto with lfs.
Qed.
End Keeps.

(** * Properties *)
Section Properties.
Variable dial : ConnectArgs -> option nat -> SecretStore -> ConnError + nat.
Variable config : option json.

(** What can run: attempts, teardowns, monitors, and the calls of the bridge. *)
Inductive task : prog World unit -> Prop :=
| task_connect i args d cut : task (connect_async dial config i args d cut)
| task_disconnect i refused : task (disconnect i refused)
| task_disconnect_all refused : task (pbind (disconnect_all refused) (fun _ => Ret ()))
| task_monitor i h ticks : task (run_transport_monitor i h ticks)
| task_init i : task (modify (init_generation i))
| task_bump i : task (modify (fun w => (bump_generation i w).2))
| task_drop i : task (modify (drop_generation i))
| task_clear : task (modify clear_generations)
| task_answer p r : task (modify (fun w => with_prompts (PromptRegistry.resolve p r (prompts w)).2 w))
| task_secret i b : task (modify (put_secret i b)).

Lemma task_keeps P p : closed P -> task p -> keeps P p.
Proof using.
  intros HP []; try (apply keeps_call; intros w Hw; first [by apply HP|by apply (cl_auth P HP)]).
  - by apply connect_keeps.
  - by apply disconnect_keeps.
  - apply keeps_bind; [by apply disconnect_all_keeps|constructor].
  - by apply monitor_keeps.
Qed.

Lemma rows_of_order w : world_ok w -> s_id <$> snapshot_all w = order w.
Proof using.
  intros Hw. unfold snapshot_all. assert (Hr : forall i, i ∈ order w -> exists a, actor_of i w = Some a /\ id a = i).
  { intros i [h Hh]%(ok_order _ Hw). destruct (ok_handles _ Hw i h Hh) as (a & Ha & Hid).
    exists a. unfold actor_of. by rewrite Hh. }
  induction (order w) as [|i o IH]; [done|]. cbn [omap list_omap].
  destruct (Hr i) as (a & -> & Hid); [left|]. cbn. rewrite Hid. f_equal. apply IH. intros j Hj. apply Hr. by right.
Qed.

Lemma count_order w : world_ok w -> count w = length (remove_dups (order w)).
Proof using.
  intros Hw. unfold count. rewrite <-size_dom, <-(size_list_to_set (C := gset string)) by apply NoDup_remove_dups.
  f_equal. apply set_eq. intros i. rewrite elem_of_dom, elem_of_list_to_set, elem_of_remove_dups.
  symmetry. by apply ok_order.
Qed.

(** C29. However attempts, teardowns, monitors and the calls of the bridge interleave, the
    registry stays consistent: the workspace rows are exactly the ids of the insertion
    order, each of them registered and the other way round, and their distinct ids are as
    many as the count says; an actor that is announced connected has a live session, so a
    channel can be opened on it, and one that is not hands out none. *)
Theorem registry_stays_consistent ps w :
  interleave task start ps w ->
  s_id <$> snapshot_all w = order w /\
  (forall i, i ∈ order w <-> is_Some (by_id w !! i)) /\
  count w = length (remove_dups (order w)) /\
  (forall i, is_Some (connected_session i w) <-> exists a, actor_of i w = Some a /\ state a = Connected).
Proof using.
  intros Hi. destruct (interleave_keeps task start world_ok ps w) as [Hw _]; [|apply world_ok_start|done|].
  { intros p. apply task_keeps, world_ok_closed. }
  split_and!; [by apply rows_of_order|apply Hw|by apply count_order|].
  intros i. unfold connected_session, actor_of. split.
  - destruct (by_id w !! i) as [h|]; cbn; [|by intros [? ?]]. destruct (heap w !! h) as [a|]; cbn; [|by intros [? ?]].
    case_decide; [eauto|by intros [? ?]].
  - intros (a & Ha & Hs). destruct (by_id w !! i) as [h|] eqn:Hh; [|done]. cbn in *. rewrite Ha. cbn.
    rewrite decide_True by done. unfold clone_session. by eapply ok_session.
Qed.

(** ** Every attempt is closed *)

(** What one call of a task published, and what the task itself published in all, whatever its
    environment publishes in between. *)
Definition adds (before after : World) : list Event := drop (length (published before)) (published after).

Definition said {A} (env : list (World -> World)) (p : prog World A) (w : World) : list Event :=
  calls env p w ≫= (fun ss => adds ss.1 ss.2).

Definition says {A} (p : prog World A) (L : A -> list Event -> Prop) : Prop :=
  forall env w, L (run_env env p w).1 (said env p w).

Lemma says_bind {A B} (p : prog World A) (q : A -> prog World B) L M :
  says p L -> (forall a, says (q a) (M a)) ->
  says (pbind p q) (fun b l => exists a l1 l2, L a l1 /\ M a b l2 /\ l = l1 ++ l2).
Proof using.
  intros Hp Hq env w. destruct (calls_bind p q env w) as (env1 & _ & Hr & Hc). unfold said. rewrite Hr, Hc, bind_app.
  exists (run_env env p w).1, (said env p w), (said env1 (q (run_env env p w).1) (run_env env p w).2).
  split; [apply Hp|]. split; [apply Hq|done].
Qed.

Lemma says_mono {A} (p : prog World A) (L M : A -> list Event -> Prop) :
  says p L -> (forall a l, L a l -> M a l) -> says p M.
Proof using. intros Hp HLM env w. apply HLM, Hp. Qed.

Lemma says_ret {A} (a : A) : says (Ret a) (fun b l => b = a /\ l = []).
Proof using. by intros env w. Qed.

Lemma says_call {A} (f : World -> A * World) (L : list Event -> Prop) :
  (forall w, L (adds w (f w).2)) -> says (call f) (fun _ => L).
Proof using. intros Hf env w. unfold said, call. rewrite calls_step. cbn. rewrite app_nil_r. apply Hf. Qed.

Lemma says_emit e : says (emit e) (fun _ l => l = [e]).
Proof using. apply says_call. intros w. unfold adds. cbn. by rewrite drop_app_length. Qed.

(** A call that publishes nothing. *)
Lemma says_still {A} (f : World -> A * World) : (forall w, published (f w).2 = published w) -> says (call f) (fun _ l => l = []).
Proof using. intros Hf. apply says_call. intros w. unfold adds. by rewrite Hf, drop_all. Qed.

Lemma says_then {A B} (p : prog World A) (q : A -> prog World B) l M :
  says p (fun _ l' => l' = l) -> (forall a, says (q a) M) ->
  says (pbind p q) (fun b l' => exists l2, M b l2 /\ l' = l ++ l2).
Proof using.
  intros Hp Hq. eapply says_mono; [by apply (says_bind p q (fun _ l' => l' = l) (fun _ => M))|].
  intros b l' (a & l1 & l2 & -> & HM & ->). eauto.
Qed.

Lemma says_after {A B} (p : prog World A) (q : A -> prog World B) (M : list Event -> Prop) :
  says p (fun _ l => l = []) -> (forall a, says (q a) (fun _ => M)) -> says (pbind p q) (fun _ => M).
Proof using.
  intros Hp Hq. eapply says_mono; [by apply says_then|]. by intros b l (l2 & HM & ->).
Qed.

(** A program each of whose calls adds only events in [E]. *)
Definition only (E : Event -> Prop) (w w' : World) : Prop := Forall E (adds w w').

Lemma says_only {A} (E : Event -> Prop) (p : prog World A) : each_call (only E) p -> says p (fun _ => Forall E).
Proof using.
  intros Hp env w. apply (each_call_calls _ _ env w) in Hp. unfold said.
  induction Hp as [|[a b] ss Hs _ IH]; cbn; [by apply Forall_nil|]. by apply Forall_app.
Qed.

Lemma only_still E w w' : published w' = published w -> only E w w'.
Proof using. intros Hp. unfold only, adds. rewrite Hp, drop_all. by apply Forall_nil. Qed.

Lemma only_publish (E : Event -> Prop) e w : E e -> only E w (publish e w).2.
Proof using. intros He. unfold only, adds. cbn. rewrite drop_app_length. by apply Forall_singleton. Qed.

Definition is_prompt (i : string) (e : Event) : Prop := exists p k, e = CredentialPromptRequest p i k.
Definition is_count (e : Event) : Prop := exists n, e = ConnectionActiveCountChanged n.

Ltac each_step :=
  match goal with
  | |- each_call _ (Ret _) => constructor
  | |- each_call _ (pbind _ _) => apply each_call_bind; [|intros]
  | |- each_call _ (emit _) => apply each_call_call; intros; apply only_publish
  | |- each_call _ (modify _) => apply each_call_call; intros; apply only_still
  | |- each_call _ (ask _) => apply each_call_call; intros; by apply only_still
  | |- each_call _ (call _) => apply each_call_call; intros; apply only_still
  | |- each_call _ (match ?x with _ => _ end) => destruct x
  end.

Lemma wait_loop_each E parent feed : each_call (only E) (wait_loop parent feed).
Proof using. induction feed as [|[e|] feed IH]; cbn [wait_loop]; [constructor|destruct e; repeat each_step; done|repeat each_step; done]. Qed.

Lemma resolve_bastion_each E b feed : each_call (only E) (resolve_bastion_session b feed).
Proof using. unfold resolve_bastion_session, wait_for_parent_ready. repeat each_step; apply wait_loop_each. Qed.

Lemma prompt_credential_each i k u : each_call (only (is_prompt i)) (prompt_credential i k u).
Proof using.
  unfold prompt_credential. repeat each_step; unfold is_prompt; eauto.
  unfold await_response. repeat case_match; done.
Qed.

Lemma auth_loop_each i n d args : each_call (only (is_prompt i)) (auth_loop dial n i d args).
Proof using.
  revert args. induction n as [|n IH]; intros args; cbn [auth_loop]; unfold run_auth.
  all: repeat each_step; first [apply resolve_bastion_each|apply prompt_credential_each|apply IH|done].
Qed.

Lemma auth_each i args d : each_call (only (is_prompt (default i (c_session_id args)))) (run_auth_with_credential_prompts dial i args d).
Proof using.
  unfold run_auth_with_credential_prompts. repeat each_step; first [apply prompt_credential_each|apply auth_loop_each|done].
Qed.

Lemma cut_at_each {A} P n (p : prog World A) : each_call P p -> each_call P (cut_at n p).
Proof using. intros Hp. revert n. induction Hp as [a|B f k Hf Hk IH]; intros [|n]; cbn; constructor; auto. Qed.

Definition step_of (p : ConnectionPhase) (st : StepStatus) (d : option string) : ProgressStep :=
  {| phase := p; step_status := st; step_detail := d |}.

Definition opening (i : string) : list Event :=
  [ConnectionStateChanged i Connecting; ConnectionProgress i (step_of SocketConnect InProgress None)].

(** The three ways an attempt is closed: superseded, connected, failed. *)
Inductive closing (i : string) : list Event -> Prop :=
| closed_stale st : closing i [ConnectionError i superseded; ConnectionStateChanged i st]
| closed_connected :
    closing i [ConnectionProgress i (step_of SocketConnect StepSuccess None);
               ConnectionProgress i (step_of HostKeyVerify StepSuccess None);
               ConnectionProgress i (step_of Authenticate StepSuccess None);
               ConnectionStateChanged i Connected]
| closed_failed e :
    closing i [ConnectionProgress i (step_of (failure_phase e) StepFailed (Some (display e)));
               ConnectionError i (display e); ConnectionStateChanged i Disconnected].

(** All an attempt publishes: its opening, the prompts of the authentication, one closing, and
    the new number of active connections if it changed. *)
Definition course (i asker : string) (l : list Event) : Prop :=
  exists asked c counted, l = opening i ++ asked ++ c ++ counted /\
    Forall (is_prompt asker) asked /\ closing i c /\ Forall is_count counted /\ (length counted <= 1)%nat.

Lemma says_progress h i st : says (record_progress h i st) (fun _ l => l = [ConnectionProgress i st]).
Proof using.
  eapply says_mono; [apply says_then; [by apply says_still|intros; apply says_emit]|].
  by intros b l (l2 & -> & ->).
Qed.

Lemma says_active_count : says publish_active_count (fun _ l => Forall is_count l /\ (length l <= 1)%nat).
Proof using.
  apply says_after; [by apply says_still|intros n]. apply says_after; [by apply says_still|intros prev].
  destruct (prev =? n).
  - eapply says_mono; [apply says_ret|]. intros ? ? [_ ->]. split; [by apply Forall_nil|cbn; lia].
  - eapply says_mono; [apply says_emit|]. intros ? ? ->. split; [apply Forall_singleton; by eexists|cbn; lia].
Qed.

(** A closing is said, and then the count. *)
Definition ends (i : string) (l : list Event) : Prop :=
  exists c counted, l = c ++ counted /\ closing i c /\ Forall is_count counted /\ (length counted <= 1)%nat.

Lemma says_stale i st : says (emit_stale_attempt_closure i st) (fun _ => ends i).
Proof using.
  eapply says_mono; [eapply says_then; [apply says_emit|intros; apply says_emit]|].
  intros b l (l2 & -> & ->). refine (ex_intro _ _ (ex_intro _ [] (conj _ (conj (closed_stale i st) _)))); [done|].
  split; [by apply Forall_nil|cbn; lia].
Qed.

Lemma driver_says i args h d cut :
  says (run_connect_driver dial config i args h d cut) (fun _ => course i (default i (c_session_id args))).
Proof using.
  unfold run_connect_driver. apply says_after; [by apply says_still|intros gen].
  eapply says_mono; [eapply says_then; [apply says_emit|intros _]; eapply says_then; [apply says_progress|intros _];
    apply (says_bind _ _ (fun _ => Forall (is_prompt (default i (c_session_id args)))) (fun _ _ => ends i))|].
  - destruct cut; [|apply says_only, auth_each]. eapply says_mono; [apply (says_bind _ _ (fun _ => Forall (is_prompt (default i (c_session_id args)))) (fun _ _ l => l = []))|].
    + apply says_only, cut_at_each, auth_each.
    + intros a. eapply says_mono; [apply says_ret|]. by intros ? ? [_ ->].
    + intros b l (a & l1 & l2 & H1 & -> & ->). by rewrite app_nil_r.
  - intros result. apply says_after; [by apply says_still|]. intros a. destruct (negb _); [apply says_stale|].
    destruct result as [e|s0]; (apply says_after; [by apply says_still|intros _]).
    + eapply says_mono; [eapply says_then; [apply says_progress|intros _; eapply says_then; [apply says_emit|
        intros _; eapply says_then; [apply says_emit|intros _; apply says_active_count]]]|].
      intros b l (l2 & (l3 & (l4 & Hc & ->) & ->) & ->). refine (ex_intro _ _ (ex_intro _ l4 (conj _ (conj (closed_failed i e) Hc)))). done.
    + eapply says_mono; [eapply says_then; [apply says_progress|intros _; eapply says_then; [apply says_progress|
        intros _; eapply says_then; [apply says_progress|intros _; eapply says_then; [apply says_emit|
        intros _; apply says_active_count]]]]|].
      intros b l (l2 & (l3 & (l4 & (l5 & Hc & ->) & ->) & ->) & ->). refine (ex_intro _ _ (ex_intro _ l5 (conj _ (conj (closed_connected i) Hc)))). done.
  - intros b l (l2 & (l3 & (r & asked & l4 & Ha & (c & counted & -> & Hc & Hn) & ->) & ->) & ->).
    exists asked, c, counted. split; [done|]. split; [done|]. split; [done|exact Hn].
Qed.

(** Publishing only appends: what a task said is in the stream, in that order, after what was there. *)
Definition appends (e : World -> World) : Prop := forall w, published w `prefix_of` published (e w).

Lemma keeps_grows {A} (p : prog World A) : (forall pub, keeps (fun w => pub `prefix_of` published w) p) ->
  each_call (fun w w' => published w `prefix_of` published w') p.
Proof using.
  induction p as [a|B f k IH]; intros Hk; constructor.
  - intros w. by apply (keeps_inv _ _ (Hk (published w))).
  - intros w. apply IH. intros pub. apply (keeps_inv _ _ (Hk pub)).
Qed.

Lemma said_in_stream {A} (p : prog World A) env w : each_call (fun w w' => published w `prefix_of` published w') p -> Forall appends env ->
  exists later, published (run_env env p w).2 = published w ++ later /\ said env p w `sublist_of` later.
Proof using.
  intros Hp. revert env w. induction Hp as [a|B f k Hf _ IH]; intros env w He.
  { exists []. split; [by rewrite app_nil_r|done]. }
  unfold said. rewrite run_env_step, calls_step. cbn [mbind list_bind]. fold (@said A). set (w0 := env_head env w).
  assert (Ht : Forall appends (tail env)) by (by destruct He). destruct (IH w0 (tail env) (f w0).2 Ht) as (later & -> & Hs).
  assert (H0 : published w `prefix_of` published w0) by (unfold w0; destruct He as [|e env He]; [done|apply He]).
  destruct H0 as [l0 H0]. destruct (Hf w0) as [l1 H1]. exists (l0 ++ l1 ++ later). split; [by rewrite H1, H0, !app_assoc|].
  apply sublist_inserts_l. apply sublist_app; [|exact Hs]. unfold adds. cbn [fst snd]. by rewrite H1, drop_app_length.
Qed.

(** C30. Every connect attempt is announced and closed.  Whatever other tasks do in between,
    whatever the handshake, the prompts and the wait for a parent give, and wherever the timeout
    drops it, the events an attempt itself publishes are its opening, then requests of the
    credential prompts, then exactly one closing (superseded, connected, or failed with the phase
    and the error), and then at most one announcement of the number of active connections.  As
    far as the other tasks only append to the event stream, the stream shows them in that order. *)
Theorem every_attempt_closes i args d cut env w :
  course i (default i (c_session_id args)) (said env (connect_async dial config i args d cut) w) /\
  (Forall appends env ->
    exists later, published (run_env env (connect_async dial config i args d cut) w).2 = published w ++ later /\
      said env (connect_async dial config i args d cut) w `sublist_of` later).
Proof using.
  split.
  - apply (says_after (call _) _ (course i (default i (c_session_id args)))); [by apply says_still|intros h; apply driver_says].
  - apply said_in_stream, keeps_grows. intros pub. apply connect_keeps, published_closed.
Qed.
End Properties.

(** ** Undisturbed attempts *)
Section Undisturbed.
Variable dial : ConnectArgs -> option nat -> SecretStore -> ConnError + nat.
Variable config : option json.

(** The registry is [B], the actors other than [h] are those of [H], and [h] satisfies [Q]. *)
Definition around (h : nat) (B : gmap string nat) (O : list string) (H : list ConnectionActor)
    (Q : ConnectionActor -> Prop) (w : World) : Prop :=
  by_id w = B /\ order w = O /\ (forall h', h' <> h -> heap w !! h' = H !! h') /\
  exists a, heap w !! h = Some a /\ Q a.

Definition ignores_progress (Q : ConnectionActor -> Prop) : Prop := forall st a, Q a -> Q (push_progress st a).

Lemma around_update h B O H Q Q' f w :
  (forall a, Q a -> Q' (f a)) -> around h B O H Q w -> around h B O H Q' (update h f w).
Proof using.
  intros Hf (HB & HO & Hh & a & Ha & HQ). split_and!; [done|done| |].
  - intros h' Hne. cbn. rewrite list_lookup_alter_ne by done. auto.
  - exists (f a). cbn. rewrite list_lookup_alter_eq, Ha. auto.
Qed.

Lemma around_auth h B O H Q : auth_closed (around h B O H Q).
Proof using. by split. Qed.

Lemma around_progress h B O H Q i st : ignores_progress Q -> keeps (around h B O H Q) (record_progress h i st).
Proof using.
  intros HQ. unfold record_progress. repeat keeps_step; cbn [snd]; [|done].
  eapply around_update; [|done]. auto.
Qed.

Lemma around_count h B O H Q : keeps (around h B O H Q) publish_active_count.
Proof using. unfold publish_active_count. repeat keeps_step; done. Qed.

Lemma run_emit {A} e (q : unit -> prog World A) w : run (pbind (emit e) q) w = run (q ()) (publish e w).2.
Proof using. done. Qed.
Lemma run_modify f w : run (modify f) w = ((), f w). Proof using. done. Qed.
Lemma run_ask {A} (f : World -> A) w : run (ask f) w = (f w, w). Proof using. done. Qed.

(** The outcome the actor shows. *)
Definition shows (r : ConnError + nat) (a : ConnectionActor) : Prop :=
  match r with
  | inr s => state a = Connected /\ session a = Some s
  | inl e => state a = Disconnected /\ session a = None /\ error a = Some (display e)
  end.

Lemma driver_run i args h d w B O H gen :
  0 <= gen < 2 ^ 64 - 1 ->
  around h B O H (fun a => session a = None /\ generation a = gen) w ->
  exists w1, around h B O H (fun a => state a = Connecting /\ session a = None) w1 /\
    secrets w1 = secrets w /\ prompts w1 = prompts w /\
    around h B O H (shows (run (run_auth_with_credential_prompts dial i args d) w1).1)
      (run (run_connect_driver dial config i args h d None) w).2.
Proof using.
  intros Hg Hw. unfold run_connect_driver. rewrite run_bind, run_call.
  set (begun := fun a => state a = Connecting /\ session a = None /\ generation a = gen + 1).
  assert (H1 : around h B O H begun (update h begin_attempt w)).
  { eapply around_update; [|exact Hw]. intros a [Hs Ha]. split_and!; [done|done|]. cbn.
    rewrite Ha. apply wrap_u64_id. int_unfold. lia. }
  assert (Hgen : generation (deref h (update h begin_attempt w)) = gen + 1).
  { destruct H1 as (_ & _ & _ & a & Ha & (_ & _ & Hga)). unfold deref. by rewrite Ha. }
  rewrite Hgen, run_emit, run_bind.
  destruct (run (record_progress h i _) _) as [[] w2] eqn:Hp2.
  assert (H2 : around h B O H begun w2).
  { change w2 with ((), w2).2. rewrite <-Hp2. apply (keeps_run (around h B O H begun)); [|done].
    apply around_progress. by intros st a. }
  exists w2. split; [|split; [|split]].
  - destruct H2 as (? & ? & ? & a & ? & ? & ? & _). split_and!; eauto.
  - unfold record_progress in Hp2. rewrite run_bind, run_modify in Hp2. by injection Hp2 as <-.
  - unfold record_progress in Hp2. rewrite run_bind, run_modify in Hp2. by injection Hp2 as <-.
  - rewrite run_bind. destruct (run (run_auth_with_credential_prompts dial i args d) w2) as [r w3] eqn:Hr.
    assert (H3 : around h B O H begun w3).
    { change w3 with (r, w3).2. rewrite <-Hr. apply (keeps_run (around h B O H begun)); [apply auth_prompts_keeps, around_auth|done]. }
    rewrite run_bind, run_ask.
    assert (Hsame : generation (deref h w3) = gen + 1).
    { destruct H3 as (_ & _ & _ & a & Ha & (_ & _ & Hga)). unfold deref. by rewrite Ha. }
    rewrite Hsame, Z.eqb_refl. cbn [negb fst].
    destruct r as [e|s]; rewrite run_bind, run_modify.
    + apply keeps_run; [|eapply around_update; [|exact H3]; by intros a (_ & ? & _)].
      repeat first [apply around_progress; by intros ??|apply around_count|keeps_step]; done.
    + apply keeps_run; [|eapply around_update; [|exact H3]; done].
      repeat first [apply around_progress; by intros ??|apply around_count|keeps_step]; done.
Qed.

Lemma disconnect_run i refused w h :
  by_id w !! i = Some h ->
  by_id (run (disconnect i refused) w).2 = delete i (by_id w) /\
  order (run (disconnect i refused) w).2 = filter (fun x => x <> i) (order w).
Proof using.
  intros Hi. unfold disconnect. rewrite run_bind, run_call. unfold remove. rewrite Hi.
  match goal with |- by_id (run ?p ?w1).2 = ?B /\ order _ = ?O =>
    assert (Hk : keeps (fun w => by_id w = B /\ order w = O) p); [|by apply (keeps_run _ p w1 Hk)] end.
  unfold publish_active_count. repeat keeps_step; done.
Qed.

(** ** What the authentication answers *)

(** The handshake's own answer: direct, or through the session [live] gives for the parent; and
    without one an error that names the parent. *)
Definition answered (live : string -> option nat) (st : SecretStore) (args : ConnectArgs) (r : ConnError + nat) : Prop :=
  match c_bastion_id args with
  | None => r = dial args None st
  | Some p =>
      match live p with
      | Some s => r = dial args (Some s) st
      | None => exists what, r = inl (parent_error p what)
      end
  end.

(** A handshake's answer at some moment of the attempt, with the credential the prompts made of it. *)
Definition from_handshake (args : ConnectArgs) (r : ConnError + nat) : Prop :=
  exists auth, (exists b st, r = dial (with_auth auth args) b st) \/
    exists p what, c_bastion_id args = Some p /\ r = inl (parent_error p what).

Lemma wait_loop_run parent feed w :
  exists r, run (wait_loop parent feed) w = (r, w) /\ (r = inr () \/ exists what, r = inl (parent_error parent what)).
Proof using.
  induction feed as [|[e|] feed IH]; cbn [wait_loop]; [eauto| |].
  - destruct e; try exact IH. repeat case_match; first [exact IH|cbn; eauto].
  - rewrite run_bind, run_ask. destruct (actor_of parent w) as [a|]; [|cbn; eauto]. destruct (state a); cbn; eauto.
Qed.

Lemma resolve_run b feed w : exists r, run (resolve_bastion_session b feed) w = (r, w) /\
  match b with
  | None => r = inr None
  | Some p => match connected_session p w with Some s => r = inr (Some s) | None => exists what, r = inl (parent_error p what) end
  end.
Proof using.
  destruct b as [p|]; [|by exists (inr None)]. unfold resolve_bastion_session, wait_for_parent_ready, connected_session.
  rewrite run_bind, run_bind, run_ask. destruct (actor_of p w) as [a|] eqn:Ha; [|cbn; eauto].
  assert (Hw : exists r, run (match state a with Connected => Ret (inr ()) | Disconnected => Ret (inl (parent_error p "is disconnected"))
      | Connecting => wait_loop p feed end) w = (r, w) /\ (r = inr () \/ state a <> Connected /\ exists what, r = inl (parent_error p what))).
  { destruct (state a); [cbn; eauto 6| |cbn; eauto]. destruct (wait_loop_run p feed w) as (r & -> & [->|He]); eauto 6. }
  destruct Hw as (r & -> & [->|(Hs & what & ->)]).
  - rewrite run_bind, run_ask, Ha. cbn [mbind option_bind]. case_decide; [|cbn; eauto].
    destruct (clone_session a); cbn; eauto.
  - cbn [mbind option_bind run]. rewrite decide_False by done. eauto.
Qed.

(** Nobody answers a prompt of an undisturbed run. *)
Lemma prompt_run asker kind u w : exists w', run (prompt_credential asker kind u) w = (None, w') /\
  heap w' = heap w /\ by_id w' = by_id w /\ secrets w' = secrets w.
Proof using.
  unfold prompt_credential. rewrite run_bind, run_call, (surjective_pairing (register u w)). cbv beta iota. rewrite run_emit, run_call.
  set (w1 := (publish _ (register u w).2).2). assert (Hw : heap w1 = heap w /\ by_id w1 = by_id w /\ secrets w1 = secrets w) by done.
  assert (Hc : channels (prompts w1) !! (register u w).1 <> None /\ forall r, channels (prompts w1) !! (register u w).1 <> Some (Woken r)).
  { cbn. set (cs := channels (prompts w)). assert (Hl : (cs ++ [Waiting]) !! length cs = Some Waiting) by by rewrite lookup_app_r, Nat.sub_diag.
    destruct (pending (prompts w) !! u) as [c|]; cbn; [|by rewrite Hl]. unfold PromptRegistry.drop_sender.
    destruct ((cs ++ [Waiting]) !! c) as [[]|]; rewrite ?Hl; try done. destruct (decide (length cs = c)) as [<-|Hne].
    - by rewrite list_lookup_insert_eq by (rewrite length_app; cbn; lia).
    - by rewrite list_lookup_insert_ne, Hl. }
  unfold await_response. destruct Hc as [_ Hc]. repeat case_match; subst; try (eexists; done). by edestruct Hc.
Qed.

(** The live sessions other attempts see are not changed by one that is connecting. *)
Lemma live_then i h w w1 a0 O Q p : h = length (heap w) ->
  around h (<[i := h]> (by_id w)) O (heap w ++ [a0]) (fun a => state a = Connecting /\ Q a) w1 ->
  connected_session p w1 = if String.eqb p i then None else connected_session p w.
Proof using.
  intros Hh (HB & _ & Ho & a & Ha & Hst & _). unfold connected_session, actor_of. rewrite HB.
  assert (Hnew : forall h', h' = h -> (h'' ← heap w1 !! h'; if decide (state h'' = Connected) then clone_session h'' else None) = None).
  { intros ? ->. rewrite Ha. cbn. by rewrite decide_False by congruence. }
  destruct (String.eqb_spec p i) as [->|Hp]; [rewrite lookup_insert_eq; by apply Hnew|]. rewrite lookup_insert_ne by done.
  destruct (by_id w !! p) as [h'|]; [|done]. cbn. destruct (decide (h' = h)) as [->|Hne].
  - rewrite (Hnew h) by done. by rewrite lookup_ge_None_2 by lia.
  - rewrite Ho by done. destruct (decide (h' < length (heap w))%nat); [by rewrite lookup_app_l|].
    rewrite !lookup_ge_None_2; [done|lia|rewrite length_app; cbn; lia].
Qed.

Lemma auth_loop_run n asker d args w : exists r w', run (auth_loop dial n asker d args) w = (r, w') /\
  answered (fun p => connected_session p w) (secrets w) args r.
Proof using.
  assert (Hr : forall feed, exists r, run (run_auth dial args feed) w = (r, w) /\ answered (fun p => connected_session p w) (secrets w) args r).
  { intros feed. unfold run_auth, answered. rewrite run_bind. destruct (resolve_run (c_bastion_id args) feed w) as (r & -> & Hb).
    destruct (c_bastion_id args) as [p|]; [|subst r; cbn; eauto].
    destruct (connected_session p w); [subst r; cbn; eauto|]. destruct Hb as [what ->]. cbn. eauto. }
  destruct (Hr (feeds d n)) as (r & Hrun & Ha). destruct n as [|n]; cbn [auth_loop]; rewrite run_bind, Hrun; destruct r as [e|s]; [cbn; eauto|cbn; eauto| |cbn; eauto].
  destruct (ensure_passphrase_slot _ _) as [[slot auth]|]; [|cbn; eauto]. destruct (is_passphrase_error e); [|cbn; eauto].
  rewrite run_bind. edestruct prompt_run as (w' & -> & _). cbn. eauto.
Qed.

Lemma auth_run i args d w : exists r w', run (run_auth_with_credential_prompts dial i args d) w = (r, w') /\
  answered (fun p => connected_session p w) (secrets w) args r.
Proof using.
  unfold run_auth_with_credential_prompts. rewrite run_bind. match goal with |- context [run ?p w] => set (pre := p) end.
  assert (Hp : heap (run pre w).2 = heap w /\ by_id (run pre w).2 = by_id w /\ secrets (run pre w).2 = secrets w).
  { unfold pre. destruct (c_auth args); try done. rewrite run_bind, run_ask.
    destruct (SecretStore.get _ _) as [[|]|]; try done; rewrite run_bind; edestruct prompt_run as (w' & -> & ?); done. }
  destruct (run pre w) as [[] w1]. cbn [snd] in Hp. destruct Hp as (Hh & Hb & Hs).
  destruct (auth_loop_run MAX_CREDENTIAL_PROMPTS (default i (c_session_id args)) d args w1) as (r & w' & -> & Ha).
  exists r, w'. split; [done|]. rewrite <- Hs. unfold answered, connected_session, actor_of in *. by rewrite <- Hb, <- Hh.
Qed.

Definition parent_only {A} (args : ConnectArgs) (r : ConnError + A) : Prop :=
  match r with inl e => exists p what, c_bastion_id args = Some p /\ e = parent_error p what | inr _ => True end.

Lemma wait_loop_from args parent feed : c_bastion_id args = Some parent -> produces (parent_only args) (wait_loop parent feed).
Proof using.
  intros Hb. induction feed as [|[e|] feed IH]; cbn [wait_loop]; [constructor; cbn; eauto| |].
  - destruct e; try exact IH. repeat case_match; first [exact IH|constructor; cbn; eauto].
  - constructor. intros w. cbn. repeat case_match; first [exact IH|constructor; cbn; eauto].
Qed.

Lemma run_auth_from args feed : produces (from_handshake args) (run_auth dial args feed).
Proof using.
  unfold run_auth. apply (produces_bind (parent_only args)).
  - unfold resolve_bastion_session. destruct (c_bastion_id args) as [p|] eqn:Hb; [|by constructor].
    apply (produces_bind (parent_only args)).
    + unfold wait_for_parent_ready. constructor. intros w. cbn. repeat case_match; first [by apply wait_loop_from|constructor; cbn; eauto].
    + intros [e|[]] Hr; [by constructor|]. constructor. intros w. cbn. repeat case_match; constructor; cbn; eauto.
  - intros [e|b] Hr; constructor.
    + exists (c_auth args). right. destruct Hr as (p & what & ? & ->). eauto.
    + intros w. constructor. exists (c_auth args). left. exists b, (secrets w). by destruct args.
Qed.

Lemma from_handshake_auth a args r : from_handshake (with_auth a args) r -> from_handshake args r.
Proof using. intros (auth & H). by exists auth. Qed.

Lemma auth_loop_from n asker d args : produces (from_handshake args) (auth_loop dial n asker d args).
Proof using.
  revert args. induction n as [|n IH]; intros args; cbn [auth_loop];
    (apply (produces_bind (from_handshake args)); [apply run_auth_from|]); intros [e|s] Hr; try by constructor.
  destruct (ensure_passphrase_slot _ _) as [[slot auth]|]; [|by constructor]. destruct (is_passphrase_error e); [|by constructor].
  apply (produces_bind (fun _ => True)).
  { unfold prompt_credential. by repeat (constructor; intros). }
  intros [b|] _; [|by constructor]. constructor. intros w. cbn.
  apply (produces_mono (from_handshake (with_auth auth args))); [apply IH|apply from_handshake_auth].
Qed.

Lemma auth_from i args d : produces (from_handshake args) (run_auth_with_credential_prompts dial i args d).
Proof using.
  apply (produces_bind (fun _ => True)); [|intros _ _; apply auth_loop_from].
  destruct (c_auth args); repeat first [by apply produces_ret|apply produces_step; intros|progress cbn|case_match].
Qed.

(** C31. What an undisturbed attempt leaves is what the handshake said.  The answer is that of
    one handshake, dialled directly or through the live session of the connected parent with
    the secrets staged, or, when the parent has none, an error that names the parent.  The new
    actor is registered under its id, last in the order, and no other actor is touched; after a
    successful handshake it is connected and hands out exactly the session the handshake
    returned, after a failed one it is disconnected, shows the error and hands out none.
    A teardown then forgets it: no actor, no row, no session.  And when other tasks run in
    between, answer the prompts included, the authentication still answers nothing but what a
    handshake of this attempt answered, or the parent's error. *)
Theorem connect_reflects_handshake i args d w refused :
  let h := length (heap w) in
  let w' := (run (connect_async dial config i args d None) w).2 in
  (exists r, answered (fun p => if String.eqb p i then None else connected_session p w) (secrets w) args r /\
    by_id w' = <[i := h]> (by_id w) /\ order w' = order w ++ [i] /\
    (forall j, j <> i -> by_id w !! j <> Some h -> actor_of j w' = actor_of j w) /\
    (exists a, actor_of i w' = Some a /\ shows r a) /\
    connected_session i w' = match r with inr s => Some s | inl _ => None end /\
    let w'' := (run (disconnect i refused) w').2 in
    actor_of i w'' = None /\ connected_session i w'' = None /\ i ∉ order w'') /\
  forall env w1, from_handshake args (run_env env (run_auth_with_credential_prompts dial i args d) w1).1.
Proof using.
  intros h w'. split; [|intros env w1; apply produces_run_env, auth_from]. unfold w', connect_async. rewrite run_bind, run_call. cbn [insert].
  set (a0 := new _ _ _ _ _ _ _ _).
  destruct (driver_run i args h d (insert a0 w).2 (<[i := h]> (by_id w)) (order w ++ [i]) (heap w ++ [a0]) 0)
    as (w1 & H1 & Hs & Hp & Hw').
  { lia. }
  { split_and!; try done. exists a0. split; [|done]. cbn. by rewrite lookup_app_r, Nat.sub_diag by done. }
  destruct (auth_run i args d w1) as (r & w2 & Hr & Hans). rewrite Hr in Hw'. cbn [fst] in Hw'. exists r. split.
  { rewrite Hs in Hans. cbn in Hans. unfold answered in *. destruct (c_bastion_id args) as [p|]; [|done].
    by rewrite <- (live_then i h w w1 _ _ _ p eq_refl H1). }
  destruct Hw' as (HB & HO & Hh & a & Ha & Hsh).
  set (wf := (run (run_connect_driver dial config i args h d None) _).2) in *.
  change (run (run_connect_driver dial config i args (length (heap w)) d None) _).2 with wf.
  assert (Hact : actor_of i wf = Some a) by (unfold actor_of; rewrite HB, lookup_insert_eq; done).
  split; [done|]. split; [done|]. split; [|split; [eauto|split]].
  - intros j Hj Hjh. unfold actor_of. rewrite HB, lookup_insert_ne by done.
    destruct (by_id w !! j) as [h'|] eqn:Hjw; [|done]. cbn. assert (h' <> h) by congruence. rewrite Hh by done.
    destruct (decide (h' < length (heap w))%nat); [by rewrite lookup_app_l|].
    rewrite !lookup_ge_None_2; [done|lia|rewrite length_app; simpl; lia].
  - unfold connected_session. rewrite Hact. cbn. destruct r as [e|s]; cbn in Hsh.
    + destruct Hsh as (-> & _). done.
    + destruct Hsh as [-> Hse]. done.
  - destruct (disconnect_run i refused wf h) as [HB2 HO2]; [by rewrite HB, lookup_insert_eq|].
    unfold connected_session, actor_of. rewrite HB2, HO2, lookup_delete_eq. split_and!; [done|done|].
    by intros [? _]%list_elem_of_filter.
Qed.

End Undisturbed.

(** ** The timeout counts network time only *)
Section Timeout.
Variables (cap started : Z).

(** The time of the slices that end on a tick without a pending prompt. *)
Fixpoint active (last : Z) (ticks : list (Z * bool * bool)) : Z :=
  match ticks with
  | [] => 0
  | (now, paused_now, _) :: ticks => (if paused_now then 0 else now - last) + active now ticks
  end.

Fixpoint ordered (last : Z) (ticks : list (Z * bool * bool)) : Prop :=
  match ticks with [] => True | (now, _, _) :: ticks => last <= now /\ ordered now ticks end.

Definition due (pre : list (Z * bool * bool)) (t : Z * bool * bool) : Prop :=
  t.1.2 = false /\ cap <= active started (pre ++ [t]).
Definition decisive (pre : list (Z * bool * bool)) (t : Z * bool * bool) : Prop := due pre t \/ t.2 = true.

(** The loop in the middle of its ticks: [a] is the network time so far. *)
Lemma loop_from ticks : forall paused last a,
  0 <= a -> a = last - started - paused -> ordered last ticks ->
  match pause_aware_loop cap started paused last ticks with
  | Running => forall pre t post, ticks = pre ++ t :: post -> t.2 = false /\
      (t.1.2 = false -> a + active last (pre ++ [t]) < cap)
  | r => exists pre t post, ticks = pre ++ t :: post /\
      (forall pre' t' post', pre = pre' ++ t' :: post' -> t'.2 = false /\ (t'.1.2 = false -> a + active last (pre' ++ [t']) < cap)) /\
      match r with
      | TimedOut => t.1.2 = false /\ cap <= a + active last (pre ++ [t])
      | _ => t.2 = true /\ (t.1.2 = false -> a + active last (pre ++ [t]) < cap)
      end
  end.
Proof using.
  induction ticks as [|[[now p] d] ticks IH]; intros paused last a Ha Heq Hord; cbn [pause_aware_loop].
  - intros [|? ?] t post Ht; done.
  - destruct Hord as [Hnow Hord]. set (paused' := if p then paused + (now - last) else paused).
    set (a' := a + (if p then 0 else now - last)).
    assert (Ha' : 0 <= a' /\ a' = now - started - paused') by (unfold a', paused'; destruct p; lia).
    rewrite Z.max_r by lia.
    replace (now - started - paused') with a' by lia.
    destruct ((cap <=? a') && negb p) eqn:Hdue.
    + apply andb_true_iff in Hdue as [Hc Hp]. apply Z.leb_le in Hc. apply negb_true_iff in Hp as ->.
      exists [], (now, false, d), ticks. split; [done|]. split; [by intros [|? ?] ? ? [=]|].
      cbn. split; [done|]. unfold a' in Hc. lia.
    + assert (Hnot : p = false -> a' < cap).
      { intros ->. rewrite andb_true_r in Hdue. by apply Z.leb_gt. }
      destruct d.
      * exists [], (now, p, true), ticks. split; [done|]. split; [by intros [|? ?] ? ? [=]|].
        cbn. split; [done|]. intros ->. specialize (Hnot eq_refl). unfold a' in Hnot. lia.
      * specialize (IH paused' now a' (proj1 Ha') (proj2 Ha') Hord).
        assert (Hshift : forall pre, a + active last ((now, p, false) :: pre) = a' + active now pre).
        { intros pre. cbn. unfold a'. destruct p; lia. }
        assert (Hhead : forall pre' t' post' pre, (now, p, false) :: pre = pre' ++ t' :: post' ->
          (forall q u v, pre = q ++ u :: v -> u.2 = false /\ (u.1.2 = false -> a' + active now (q ++ [u]) < cap)) ->
          t'.2 = false /\ (t'.1.2 = false -> a + active last (pre' ++ [t']) < cap)).
        { intros [|x pre'] t' post' pre Hsplit Hrest; injection Hsplit as <- Hsplit.
          - split; [done|]. cbn. intros Hp. specialize (Hnot Hp). unfold a' in Hnot. rewrite Hp in Hnot |- *. lia.
          - rewrite <-app_comm_cons, Hshift. by eapply Hrest. }
        destruct (pause_aware_loop cap started paused' now ticks).
        1, 2: destruct IH as (pre & t & post & -> & Hpre & Hres);
          exists ((now, p, false) :: pre), t, post; split; [done|]; split;
          [intros pre' t' post' Hsplit; by eapply Hhead|rewrite <-app_comm_cons, Hshift; exact Hres].
        intros pre t post Hsplit. by eapply Hhead.
Qed.
End Timeout.

(** The connect timeout bounds network time and nothing else.  Count the time between
    two polls as network time when no prompt is pending at the second one.  The attempt is
    timed out exactly at the first poll without a pending prompt by which its network time
    has reached the cap, unless it had finished before; it is finished at the first poll
    after it is done, when it was not due; and otherwise it goes on. *)
Theorem timeout_counts_network_time cap started ticks :
  ordered started ticks ->
  let early pre := forall pre' t' post', pre = pre' ++ t' :: post' -> ~ decisive cap started pre' t' in
  match run_with_pause_aware_timeout cap started ticks with
  | TimedOut => exists pre t post, ticks = pre ++ t :: post /\ early pre /\ due cap started pre t
  | Finished => exists pre t post, ticks = pre ++ t :: post /\ early pre /\ t.2 = true /\ ~ due cap started pre t
  | Running => early ticks
  end.
Proof.
  intros Hord early. pose proof (loop_from cap started ticks 0 started 0 ltac:(lia) ltac:(lia) Hord) as Hl.
  assert (Hdec : forall pre t, t.2 = false /\ (t.1.2 = false -> 0 + active started (pre ++ [t]) < cap) -> ~ decisive cap started pre t).
  { intros pre t [Hd Hlt] [[Hp Hc]|Hd']; [specialize (Hlt Hp); lia|congruence]. }
  unfold run_with_pause_aware_timeout. destruct (pause_aware_loop _ _ _ _ _).
  - destruct Hl as (pre & t & post & Ht & Hpre & Hd & Hlt).
    exists pre, t, post. split; [done|]. split; [intros ? ? ? Hs; by eapply Hdec, Hpre|]. split; [done|].
    intros [Hp Hc]. specialize (Hlt Hp). lia.
  - destruct Hl as (pre & t & post & Ht & Hpre & Hd).
    exists pre, t, post. split; [done|]. split; [intros ? ? ? Hs; by eapply Hdec, Hpre|]. exact Hd.
  - intros ? ? ? Hs. by eapply Hdec, Hl.
Qed.

(** ** Concrete runs *)
Definition demo_args : ConnectArgs := mkArgs "box" None "h" 22 "u" Agent None false.
Definition demo_draws : Draws := mkDraws "p0" (fun n => "p" ++ pretty n)%string "u1" (fun _ => []).
Definition accepts (s : nat) : ConnectArgs -> option nat -> SecretStore -> ConnError + nat := fun _ _ _ => inr s.
Definition refuses (e : ConnError) : ConnectArgs -> option nat -> SecretStore -> ConnError + nat := fun _ _ _ => inl e.

(** The environment does nothing. *)
Definition skip (w : World) : World := w.

Definition after {A} (p : prog World A) (w : World) : World := (run p w).2.

(** The calls of a program, one after the other, as a task among others. *)
Fixpoint lone {A} (n : nat) (p : prog World A) (w : World) : prog World A * World :=
  match n, p with
  | S n, Step f k => let '(b, w') := f w in lone n (k b) w'
  | _, _ => (p, w)
  end.

Lemma lone_interleave tasks w0 w p n :
  interleave tasks w0 [p] w -> interleave tasks w0 [(lone n p w).1] (lone n p w).2.
Proof.
  revert p w. induction n as [|n IH]; intros p w Hi; [done|]. destruct p as [a|B f k]; [done|].
  cbn [lone]. pose proof (il_call tasks w0 [] [] B f k w Hi) as Hc. destruct (f w) as [b w']. by apply IH.
Qed.

Lemma registry_stays_consistent_witness :
  let w := (lone 30 (connect_async (accepts 7) None "a" demo_args demo_draws None) start).2 in
  s_id <$> snapshot_all w = order w /\ (is_Some (connected_session "a" w) <-> exists a, actor_of "a" w = Some a /\ state a = Connected).
Proof.
  intros w. destruct (registry_stays_consistent (accepts 7) None
    [(lone 30 (connect_async (accepts 7) None "a" demo_args demo_draws None) start).1] w) as (H1 & _ & _ & H2).
  - apply lone_interleave. apply il_spawn; [apply il_start|apply task_connect].
  - split; [exact H1|exact (H2 "a"%string)].
Defined.

Lemma every_attempt_closes_witness :
  let p := connect_async (accepts 7) None "a" demo_args demo_draws None in
  let env := [skip; after (disconnect "a" None)] in
  Forall appends env /\ exists later, published (run_env env p start).2 = published start ++ later /\ said env p start `sublist_of` later.
Proof.
  assert (He : Forall appends [skip; after (disconnect "a" None)]).
  { apply Forall_cons. split; [by intros w|]. apply Forall_singleton. intros w.
    apply (keeps_run (fun w' => published w `prefix_of` published w')); [apply disconnect_keeps, published_closed|done]. }
  intros p env. split; [exact He|].
  exact (proj2 (every_attempt_closes (accepts 7) None "a" demo_args demo_draws None env start) He).
Defined.

Lemma timeout_counts_network_time_witness :
  ordered 0 [(250, true, false); (500, false, false); (9000, true, false); (9250, false, true)] /\
  match run_with_pause_aware_timeout 500 0 [(250, true, false); (500, false, false); (9000, true, false); (9250, false, true)] with
  | TimedOut => exists pre t post, [(250, true, false); (500, false, false); (9000, true, false); (9250, false, true)] = pre ++ t :: post /\
      due 500 0 pre t
  | _ => False
  end.
Proof.
  assert (Ho : ordered 0 [(250, true, false); (500, false, false); (9000, true, false); (9250, false, true)])
    by (cbn; lia).
  split; [exact Ho|]. pose proof (timeout_counts_network_time 500 0 _ Ho) as Ht.
  change (run_with_pause_aware_timeout 500 0 _) with TimedOut in *. cbv zeta in Ht.
  destruct Ht as (pre & t & post & H1 & _ & H2). exists pre, t, post. split; [exact H1|exact H2].
Defined.

(** ** What the interleavings show *)

(** A reconnect is a second [connect_async] under the same id; the order list gets the id
    again, so the workspace rows show the connection twice. *)
Example reconnect_lists_twice :
  let w := after (connect_async (accepts 8) None "a" demo_args demo_draws None)
    (after (connect_async (accepts 7) None "a" demo_args demo_draws None) start) in
  (s_id <$> snapshot_all w) = ["a"; "a"] /\ count w = 1%nat.
Proof. by vm_compute. Qed.

(** The generation that should discard a superseded attempt is a field of the attempt's
    own actor, and every attempt has its own: an old attempt that fails after the
    reconnect has succeeded announces the live connection as disconnected. *)
Example superseded_attempt_announces_failure :
  let env := [skip; skip; skip; skip; skip; after (connect_async (accepts 8) None "a" demo_args demo_draws None)] in
  let w := (run_env env (connect_async (refuses HostKeyRejected) None "a" demo_args demo_draws None) start).2 in
  connected_session "a" w = Some 8%nat /\
  last (filter (fun e => match e with ConnectionStateChanged _ _ => true | _ => false end = true) (published w))
    = Some (ConnectionStateChanged "a" Disconnected).
Proof. by vm_compute. Qed.

(** Through a jump host the handshake is given the parent's session. *)
Example jump_host_session_is_dialled :
  let parent := after (connect_async (accepts 7) None "p" demo_args demo_draws None) start in
  let args := mkArgs "box" None "h" 22 "u" Agent (Some "p"%string) false in
  let through := fun _ b _ => match b with Some s => inr (S s) | None => inl HostKeyRejected end in
  connected_session "a" (after (connect_async through None "a" args demo_draws None) parent) = Some 8%nat.
Proof. by vm_compute. Qed.

(** A teardown during the handshake does not stop it: the attempt then announces a
    connection that is no longer registered. *)
Example teardown_during_handshake_announces_connected :
  let env := [skip; skip; skip; skip; skip; after (disconnect "a" None)] in
  let w := (run_env env (connect_async (accepts 7) None "a" demo_args demo_draws None) start).2 in
  by_id w !! ("a"%string) = None /\
  filter (fun e => match e with ConnectionStateChanged _ _ | ConnectionRemoved _ => true | _ => false end = true) (published w)
    = [ConnectionStateChanged "a" Connecting; ConnectionRemoved "a"; ConnectionStateChanged "a" Connected].
Proof. by vm_compute. Qed.

(** The count is taken before it is swapped in: a teardown in between leaves the older
    count as the last one announced. *)
Example active_count_can_stay_stale :
  let env := replicate 16 skip ++ [after (disconnect "a" None)] in
  let w := (run_env env (connect_async (accepts 7) None "a" demo_args demo_draws None) start).2 in
  connected_user_visible_count w = 0 /\
  last (published w) = Some (ConnectionActiveCountChanged 1).
Proof. by vm_compute. Qed.

(** Nobody answers a passphrase prompt: the wait ends, but the prompt stays pending, and
    while it is pending the timeout of every later attempt is suspended. *)
Example unanswered_prompt_suspends_timeouts :
  let args := mkArgs "box" None "h" 22 "u" (Pubkey "k" None) None false in
  let w := after (connect_async (refuses PassphraseRequired) None "a" args demo_draws None) start in
  error <$> actor_of "a" w = Some (Some "passphrase required"%string) /\
  is_paused 0 w = true /\
  forall cap ticks, 0 < cap -> run_with_pause_aware_timeout cap 0 ((fun now => (now, is_paused 0 w, false)) <$> ticks) = Running.
Proof.
  split; [by vm_compute|]. split; [by vm_compute|]. intros cap ticks Hcap.
  change (is_paused 0 _) with true. unfold run_with_pause_aware_timeout.
  generalize 0 at 2 as paused. generalize 0 at 2 as last. induction ticks as [|now ticks IH]; intros last paused; [done|].
  cbn [fmap list_fmap pause_aware_loop]. rewrite andb_false_r. apply IH.
Qed.
