(* ===== verification/KnownHosts.v ===== *)
(** * Known hosts ([known_hosts.rs], [known_hosts_parser.rs], [db/known_hosts.rs], [ssh/mod.rs])

    The trust store of host keys: the parser of known_hosts lines, the additive import, the
    export, and the host-key check of a handshake with its prompt.  SQLite is the parameter
    [execute]: [statement] lists the SQL statements of [db/known_hosts.rs], the class
    [KnownHostsTable] what their text promises.  The base64 crate, the public key of the ssh_key
    crate and SHA-256 are parameters too. *)
From Stdlib Require Import ZArith Lia.
From stdpp Require Import prelude gmap strings list sorting.
From S2P Require Import Prelude Text Bus PromptRegistry Prog.

Open Scope Z_scope.

Notation chars := (list Z).

Inductive Error :=
| Db (detail : string)
| Io (detail : string)
| Transport (detail : string)
| Archive (detail : string)
| Auth (detail : string).

(** ** The table *)
Record KnownHostRow := mkRow {
  row_id : Z;
  host : chars;
  port : Z;
  key_type : chars;
  key_base64 : chars;
  added_at_ms : Z
}.

#[export] Instance KnownHostRow_eq_dec : EqDecision KnownHostRow.
Proof. solve_decision. Defined.

(** The SQL of [db/known_hosts.rs], with the type of what it answers. *)
Inductive statement : Type -> Type :=
| SelectAll : statement (list KnownHostRow)
| SelectByHostPort (host : chars) (port : Z) : statement (list KnownHostRow)
| InsertOrUpdate (host : chars) (port : Z) (key_type key_base64 : chars) (added_at : Z) : statement Z
| DeleteByHostPort (host : chars) (port : Z) : statement Z
| DeleteAll : statement Z.

(** The rusqlite call at which a statement fails, and its message. *)
Inductive stage := Prepare | Query | Row.

Class Sqlite (D : Type) := execute : forall {A}, statement A -> D -> (stage * string + A) * D.

(** What the statements promise: [table] is the contents, keyed by the UNIQUE pair. *)
Class KnownHostsTable (D : Type) `{Sqlite D} := {
  table : D -> gmap (chars * Z) KnownHostRow;
  working : D -> Prop;
  failed_changes_nothing A (s : statement A) d e : (execute s d).1 = inl e -> table (execute s d).2 = table d;
  select_all d l : (execute SelectAll d).1 = inr l ->
    l ≡ₚ (map_to_list (table d)).*2 /\ table (execute SelectAll d).2 = table d;
  select_by h p d l : (execute (SelectByHostPort h p) d).1 = inr l ->
    l = option_list (table d !! (h, p)) /\ table (execute (SelectByHostPort h p) d).2 = table d;
  upserted h p kt kb at_ d i : (execute (InsertOrUpdate h p kt kb at_) d).1 = inr i ->
    table (execute (InsertOrUpdate h p kt kb at_) d).2 = <[(h, p) := mkRow i h p kt kb at_]> (table d);
  deleted h p d n : (execute (DeleteByHostPort h p) d).1 = inr n ->
    table (execute (DeleteByHostPort h p) d).2 = delete (h, p) (table d);
  cleared d n : (execute DeleteAll d).1 = inr n -> table (execute DeleteAll d).2 = ∅;
  keyed d h p r : table d !! (h, p) = Some r -> host r = h /\ port r = p;
  works A (s : statement A) d : working d -> (exists a, (execute s d).1 = inr a) /\ working (execute s d).2
}.

Section Dao.
Context {D : Type} `{Sqlite D}.

Definition in_stage (prepare query row : string) (f : stage * string) : Error :=
  Db ((match f.1 with Prepare => prepare | Query => query | Row => row end) ++ ": " ++ f.2)%string.

Definition list_all (d : D) : (Error + list KnownHostRow) * D :=
  let '(r, d) := execute SelectAll d in
  (match r with
   | inl f => inl (in_stage "known_hosts prepare" "known_hosts query" "known_hosts row" f)
   | inr rows => inr rows
   end, d).

Definition get_by_host_port (h : chars) (p : Z) (d : D) : (Error + option KnownHostRow) * D :=
  let '(r, d) := execute (SelectByHostPort h p) d in
  (match r with
   | inl f => inl (in_stage "known_hosts get prepare" "known_hosts get query" "known_hosts get row" f)
   | inr rows => inr (head rows)
   end, d).

Definition upsert_by_host_port (h : chars) (p : Z) (kt kb : chars) (at_ : Z) (d : D) : (Error + Z) * D :=
  let '(r, d) := execute (InsertOrUpdate h p kt kb at_) d in
  (match r with
   | inl f => inl (in_stage "known_hosts upsert" "known_hosts upsert" "known_hosts upsert" f)
   | inr i => inr i
   end, d).

Definition delete_by_host_port (h : chars) (p : Z) (d : D) : (Error + Z) * D :=
  let '(r, d) := execute (DeleteByHostPort h p) d in
  (match r with
   | inl f => inl (in_stage "known_hosts delete" "known_hosts delete" "known_hosts delete" f)
   | inr n => inr n
   end, d).

Definition clear_all (d : D) : (Error + Z) * D :=
  let '(r, d) := execute DeleteAll d in
  (match r with
   | inl f => inl (in_stage "known_hosts clear_all" "known_hosts clear_all" "known_hosts clear_all" f)
   | inr n => inr n
   end, d).

End Dao.

(** ** The parser of one line *)
Record ParsedHostEntry := mkEntry { e_host_port : chars; e_key_type : chars; e_key_base64 : chars }.

(** [str::strip_prefix] of one character. *)
Definition strip_prefix (c : Z) (s : chars) : option chars :=
  match s with x :: r => if x =? c then Some r else None | [] => None end.

Definition starts_with (p s : chars) : bool := bool_decide (p `prefix_of` s).

Module Parser.

(** [decode] is [STANDARD.decode] of the base64 crate. *)
Section Base64.
Variable decode : chars -> string + list Z.

Definition is_valid_standard_base64 (s : chars) : bool :=
  match decode s with inr _ => true | inl _ => false end.

Definition has_colon (s : chars) : bool := existsb (Z.eqb 58) s.

Definition format_canonical (h : chars) (p : Z) : chars :=
  if has_colon h then [91] ++ h ++ [93; 58] ++ display_int p else h ++ [58] ++ display_int p.

Definition port_ok (p : Z) : bool := Utf8.within 1 65535 p.

Definition normalise_host_spec (spec : chars) : option chars :=
  let s := trim spec in
  if bool_decide (s = []) then None
  else
    match strip_prefix 91 s with
    | Some rest =>
        '(h, tail) ← split_once_by (Z.eqb 93) rest;
        if bool_decide (h = []) then None
        else if bool_decide (tail = []) then Some (format_canonical h 22)
        else
          port_str ← strip_prefix 58 tail;
          p ← parse_u32 port_str;
          if port_ok p then Some (format_canonical h p) else None
    | None =>
        let colon_count := length (filter (eq 58) s) in
        if (1 <? colon_count)%nat then None
        else if (colon_count =? 1)%nat then
          '(h, port_str) ← split_once_by (Z.eqb 58) s;
          p ← parse_u32 port_str;
          if bool_decide (h = []) || negb (port_ok p) then None else Some (format_canonical h p)
        else Some (format_canonical s 22)
    end.

(** [while parts.first() starts with '@' { parts.remove(0) }] *)
Fixpoint drop_markers (parts : list chars) : list chars :=
  match parts with
  | p :: rest => if starts_with (lit "@") p then drop_markers rest else parts
  | [] => []
  end.

Definition parse_line (line : chars) : list ParsedHostEntry :=
  let trimmed := trim line in
  if bool_decide (trimmed = []) || starts_with (lit "#") trimmed then []
  else
    match drop_markers (split_whitespace trimmed) with
    | host_spec :: kt :: kb :: _ =>
        if starts_with (lit "|1|") host_spec then []
        else if bool_decide (kb = []) then []
        else if negb (is_valid_standard_base64 kb) then []
        else
          omap (fun spec => match normalise_host_spec spec with Some hp => Some (mkEntry hp kt kb) | None => None end)
            (split_by (Z.eqb 44) host_spec)
    | _ => []
    end.

End Base64.

Definition is_hashed_hosts_line (line : chars) : bool :=
  let trimmed := trim line in
  if bool_decide (trimmed = []) || starts_with (lit "#") trimmed then false
  else
    match split_once_by is_whitespace trimmed with
    | None => false
    | Some (first, _) => starts_with (lit "|1|") first
    end.

End Parser.

(** ** Import, export and lookup *)
Record ImportSummary := mkSummary { added : Z; skipped_existing : Z; skipped_hashed : Z }.

Inductive HostCheckMismatch := Unknown | Changed (stored_key_b64 : chars).
Inductive HostCheckResult := Accepted | Mismatch (m : HostCheckMismatch).

Module Manager.

Definition rsplit_once_by (p : Z -> bool) (s : chars) : option (chars * chars) :=
  '(a, b) ← split_once_by p (rev s); Some (rev b, rev a).

Definition split_host_port (spec : chars) : option (chars * Z) :=
  '(host_part, port_str) ←
    match strip_prefix 91 spec with
    | Some rest =>
        '(h, tail) ← split_once_by (Z.eqb 93) rest;
        port_str ← strip_prefix 58 tail;
        Some (h, port_str)
    | None => rsplit_once_by (Z.eqb 58) spec
    end;
  if bool_decide (host_part = []) then None
  else
    p ← parse_i64 port_str;
    if Parser.port_ok p then Some (host_part, p) else None.

Section Importing.
Context {D : Type} `{Sqlite D}.
Variable decode : chars -> string + list Z.

(** The counters are advanced in place: they keep what was counted before an error. *)
Definition import_entry (entry : ParsedHostEntry) (now_ms : Z) (summary : ImportSummary) (d : D) :
    (Error + unit) * ImportSummary * D :=
  match split_host_port (e_host_port entry) with
  | None => (inr (), summary, d)
  | Some (h, p) =>
      let '(existing, d) := get_by_host_port h p d in
      match existing with
      | inl e => (inl e, summary, d)
      | inr (Some _) =>
          (inr (), mkSummary (added summary) (skipped_existing summary + 1) (skipped_hashed summary), d)
      | inr None =>
          let '(r, d) := upsert_by_host_port h p (e_key_type entry) (e_key_base64 entry) now_ms d in
          match r with
          | inl e => (inl e, summary, d)
          | inr _ => (inr (), mkSummary (added summary + 1) (skipped_existing summary) (skipped_hashed summary), d)
          end
      end
  end.

Fixpoint import_entries (entries : list ParsedHostEntry) (now_ms : Z) (summary : ImportSummary) (d : D) :
    (Error + unit) * ImportSummary * D :=
  match entries with
  | [] => (inr (), summary, d)
  | entry :: entries =>
      let '(r, summary, d) := import_entry entry now_ms summary d in
      match r with inl e => (inl e, summary, d) | inr _ => import_entries entries now_ms summary d end
  end.

Definition import_line (raw_line : chars) (now_ms : Z) (summary : ImportSummary) (d : D) :
    (Error + unit) * ImportSummary * D :=
  match Parser.parse_line decode raw_line with
  | [] =>
      (inr (),
       if Parser.is_hashed_hosts_line raw_line then
         mkSummary (added summary) (skipped_existing summary) (skipped_hashed summary + 1)
       else summary, d)
  | entries => import_entries entries now_ms summary d
  end.

Fixpoint import_lines (lines : list chars) (now_ms : Z) (summary : ImportSummary) (d : D) :
    (Error + unit) * ImportSummary * D :=
  match lines with
  | [] => (inr (), summary, d)
  | raw_line :: lines =>
      let '(r, summary, d) := import_line raw_line now_ms summary d in
      match r with inl e => (inl e, summary, d) | inr _ => import_lines lines now_ms summary d end
  end.

(** The result, the events published and the table. *)
Definition import_from_string (content : chars) (now_ms : Z) (d : D) :
    (Error + ImportSummary) * list Event * D :=
  let '(r, summary, d) := import_lines (split_by (Z.eqb 10) content) now_ms (mkSummary 0 0 0) d in
  match r with
  | inl e => (inl e, [], d)
  | inr _ => (inr summary, if 0 <? added summary then [KnownHostsChanged] else [], d)
  end.

(** The order of [str] and of pairs. *)
Fixpoint cmp_chars (a b : chars) : comparison :=
  match a, b with
  | [], [] => Eq
  | [], _ => Lt
  | _, [] => Gt
  | x :: a, y :: b => match x ?= y with Eq => cmp_chars a b | c => c end
  end.

Definition cmp_row (a b : KnownHostRow) : comparison :=
  match cmp_chars (host a) (host b) with Eq => port a ?= port b | c => c end.

(** [sort_by] is a stable sort. *)
Fixpoint insert_row (r : KnownHostRow) (l : list KnownHostRow) : list KnownHostRow :=
  match l with
  | [] => [r]
  | x :: l => match cmp_row r x with Gt => x :: insert_row r l | _ => r :: x :: l end
  end.

Definition sort_rows (l : list KnownHostRow) : list KnownHostRow := foldr insert_row [] l.

(** [writeln!(out, "{}:{} {} {}", ...)] *)
Definition export_row (r : KnownHostRow) : chars :=
  host r ++ [58] ++ display_int (port r) ++ [32] ++ key_type r ++ [32] ++ key_base64 r ++ [10].

Definition export_to_string (d : D) : (Error + chars) * D :=
  let '(r, d) := list_all d in
  (match r with inl e => inl e | inr rows => inr (sort_rows rows ≫= export_row) end, d).

Definition check_host (h : chars) (p : Z) (kt kb : chars) (d : D) : (Error + HostCheckResult) * D :=
  let '(row, d) := get_by_host_port h p d in
  (match row with
   | inl e => inl e
   | inr None => inr (Mismatch Unknown)
   | inr (Some r) =>
       inr (if bool_decide (key_type r = kt) && bool_decide (key_base64 r = kb) then Accepted
            else Mismatch (Changed (key_base64 r)))
   end, d).

End Importing.

Definition prompt_kind_for (m : HostCheckMismatch) : KnownHostPromptKind :=
  match m with Unknown => NewHost | Changed _ => KeyChanged end.

End Manager.

(** [known_hosts::PromptRegistry]: the registry of [PromptRegistry.v] without timers. *)
Module HostPrompts.
Definition new : PromptRegistry bool := PromptRegistry.new.
Definition register (prompt_id : string) : PromptRegistry bool -> nat * PromptRegistry bool :=
  PromptRegistry.register prompt_id.
Definition resolve (prompt_id : string) (accepted : bool) : PromptRegistry bool -> bool * PromptRegistry bool :=
  PromptRegistry.resolve prompt_id accepted.
Definition cancel (prompt_id : string) : PromptRegistry bool -> PromptRegistry bool := PromptRegistry.cancel prompt_id.
Definition pending_count : PromptRegistry bool -> nat := PromptRegistry.pending_count.
End HostPrompts.

(** ** The check of a handshake

    The process as the check sees it: the database file, whether it is open ([app.db()]), the
    parked prompts and the events published. *)
Record Trust (D : Type) := mkTrust {
  database : D;
  opened : bool;
  prompts : PromptRegistry bool;
  published : list Event
}.
Arguments mkTrust {D} _ _ _ _.
Arguments database {D} _.
Arguments opened {D} _.
Arguments prompts {D} _.
Arguments published {D} _.

(** [ssh_key::PublicKey]. *)
Class PublicKey (K : Type) := {
  algorithm : K -> chars;
  to_openssh : K -> string + chars
}.

Record LfsHandler := mkHandler { h_host : chars; h_port : Z; probe_only : bool }.

Module Handler.

Definition with_forwards (h : chars) (p : Z) : LfsHandler := mkHandler h p false.
Definition probe (h : chars) (p : Z) : LfsHandler := mkHandler h p true.

Section Checking.
Context {D : Type} `{Sqlite D} {K : Type} `{PublicKey K}.
Variable decode : chars -> string + list Z.
Variable sha256 : list Z -> list Z.
Variable encode_no_pad : list Z -> string.
Notation W := (Trust D).

Definition hex_digit (n : Z) : chars := [if n <? 10 then 48 + n else 87 + n].

(** [draw] is the sixteen random bytes. *)
Definition generate_prompt_id (draw : list Z) : string :=
  to_string (draw ≫= fun b => hex_digit (b / 16) ++ hex_digit (b mod 16)).

Definition format_fingerprint (key_bytes : list Z) : string := ("SHA256:" ++ encode_no_pad (sha256 key_bytes))%string.

Definition on_database {A} (f : D -> A * D) (w : W) : A * W :=
  let '(a, d) := f (database w) in (a, mkTrust d (opened w) (prompts w) (published w)).

Definition with_prompts (p : PromptRegistry bool) (w : W) : W := mkTrust (database w) (opened w) p (published w).

Definition publish (e : Event) (w : W) : unit * W :=
  ((), mkTrust (database w) (opened w) (prompts w) (published w ++ [e])).

Definition notify_changed : W -> unit * W := publish KnownHostsChanged.

(** The key as the table stores it, and its bytes. *)
Definition encode_key (key : K) : Error + (chars * chars * list Z) :=
  match to_openssh key with
  | inl e => inl (Transport ("known-hosts: encode public key: " ++ e)%string)
  | inr line =>
      match split_whitespace line !! 1%nat with
      | None => inl (Io "known-hosts: malformed openssh line")
      | Some key_b64 =>
          match decode key_b64 with
          | inl e => inl (Transport ("known-hosts: base64 decode: " ++ e)%string)
          | inr bytes => inr (algorithm key, key_b64, bytes)
          end
      end
  end.

(** What the receiver holds: [None] while nobody has answered, [Some None] when the sender
    was dropped. *)
Definition received (c : nat) (w : W) : option (option bool) * W :=
  (match channels (prompts w) !! c with
   | Some (Woken v) => Some (Some v)
   | Some Waiting => None
   | _ => Some None
   end, w).

Open Scope prog_scope.

(** [None]: the task is suspended at the prompt. *)
Definition check_server_key_via_tofu (h : chars) (p : Z) (key : K) (allow_prompt : bool) (draw : list Z)
    (now_ms : Z) : prog W (option (Error + bool)) :=
  let! open := call (fun w => (opened w, w)) in
  if negb open then Ret (Some (inl (Io "known-hosts: db not initialized")))
  else
    match encode_key key with
    | inl e => Ret (Some (inl e))
    | inr (kt, kb, bytes) =>
        let! result := call (on_database (Manager.check_host h p kt kb)) in
        match result with
        | inl e => Ret (Some (inl e))
        | inr Accepted => Ret (Some (inr true))
        | inr (Mismatch m) =>
            if negb allow_prompt then Ret (Some (inr false))
            else
              let prompt_id := generate_prompt_id draw in
              let! receiver := call (fun w => let '(c, ps) := HostPrompts.register prompt_id (prompts w) in
                                              (c, with_prompts ps w)) in
              let! _ := call (publish (KnownHostPromptRequest prompt_id (to_string h) p (to_string kt)
                                         (format_fingerprint bytes) (Manager.prompt_kind_for m))) in
              let! answer := call (received receiver) in
              match answer with
              | None => Ret None
              | Some None =>
                  let! _ := call (fun w => ((), with_prompts (HostPrompts.cancel prompt_id (prompts w)) w)) in
                  Ret (Some (inr false))
              | Some (Some false) => Ret (Some (inr false))
              | Some (Some true) =>
                  let! stored := call (on_database (upsert_by_host_port h p kt kb now_ms)) in
                  match stored with
                  | inl e => Ret (Some (inl e))
                  | inr _ => let! _ := call notify_changed in Ret (Some (inr true))
                  end
              end
        end
    end.

(** The russh callback: an error rejects. *)
Definition check_server_key (handler : LfsHandler) (key : K) (draw : list Z) (now_ms : Z) : prog W (option bool) :=
  let! r := check_server_key_via_tofu (h_host handler) (h_port handler) key (negb (probe_only handler)) draw now_ms in
  Ret (match r with
       | None => None
       | Some (inl _) => Some false
       | Some (inr b) => Some b
       end).

(** [dispatch] of [Command::KnownHostPromptResponse] ([bus/mod.rs]). *)
Definition dispatch_response (prompt_id : string) (accepted : bool) (w : W) : W :=
  let '(resolved, ps) := HostPrompts.resolve prompt_id accepted (prompts w) in
  let w := with_prompts ps w in
  if resolved then (publish (KnownHostPromptResolved prompt_id accepted) w).2 else w.

End Checking.
End Handler.

(** ** Facts about the table *)
Definition key_of (r : KnownHostRow) : chars * chars := (key_type r, key_base64 r).

Section Facts.
Context {D : Type} `{KnownHostsTable D}.
Implicit Types d : D.

Lemma get_spec h p d :
  table (get_by_host_port h p d).2 = table d /\
  match (get_by_host_port h p d).1 with
  | inr o => o = table d !! (h, p)
  | inl _ => ~ working d
  end.
Proof.
  unfold get_by_host_port. destruct (execute (SelectByHostPort h p) d) as [[f|l] d'] eqn:He; cbn.
  - split; [pose proof (failed_changes_nothing _ (SelectByHostPort h p) d f) as Hf; rewrite He in Hf; by apply Hf|].
    intros Hw. destruct (works _ (SelectByHostPort h p) d Hw) as [[a Ha] _]. by rewrite He in Ha.
  - pose proof (select_by h p d l) as Hs. rewrite He in Hs. destruct (Hs eq_refl) as [-> ?]. split; [done|].
    by destruct (table d !! (h, p)).
Qed.

Lemma upsert_spec h p kt kb at_ d :
  match (upsert_by_host_port h p kt kb at_ d).1 with
  | inr i => table (upsert_by_host_port h p kt kb at_ d).2 = <[(h, p) := mkRow i h p kt kb at_]> (table d)
  | inl _ => table (upsert_by_host_port h p kt kb at_ d).2 = table d /\ ~ working d
  end.
Proof.
  unfold upsert_by_host_port. destruct (execute (InsertOrUpdate h p kt kb at_) d) as [[f|i] d'] eqn:He; cbn.
  - split; [pose proof (failed_changes_nothing _ (InsertOrUpdate h p kt kb at_) d f) as Hf; rewrite He in Hf; by apply Hf|].
    intros Hw. destruct (works _ (InsertOrUpdate h p kt kb at_) d Hw) as [[a Ha] _]. by rewrite He in Ha.
  - pose proof (upserted h p kt kb at_ d i) as Hu. rewrite He in Hu. by apply Hu.
Qed.

Lemma get_works h p d : working d -> working (get_by_host_port h p d).2.
Proof.
  intros Hw. destruct (works _ (SelectByHostPort h p) d Hw) as [_ Hd]. unfold get_by_host_port.
  by destruct (execute (SelectByHostPort h p) d).
Qed.

Lemma upsert_works h p kt kb at_ d : working d -> working (upsert_by_host_port h p kt kb at_ d).2.
Proof.
  intros Hw. destruct (works _ (InsertOrUpdate h p kt kb at_) d Hw) as [_ Hd]. unfold upsert_by_host_port.
  by destruct (execute (InsertOrUpdate h p kt kb at_) d).
Qed.

(** Does the table hold exactly this key for the host? *)
Definition trusts (d : D) (h : chars) (p : Z) (kt kb : chars) : bool :=
  match table d !! (h, p) with
  | Some r => bool_decide (key_type r = kt) && bool_decide (key_base64 r = kb)
  | None => false
  end.

Lemma check_host_spec h p kt kb d :
  table (Manager.check_host h p kt kb d).2 = table d /\
  (working d -> working (Manager.check_host h p kt kb d).2) /\
  match (Manager.check_host h p kt kb d).1 with
  | inl _ => ~ working d
  | inr Accepted => trusts d h p kt kb = true
  | inr (Mismatch m) => trusts d h p kt kb = false /\
      m = match table d !! (h, p) with None => Unknown | Some r => Changed (key_base64 r) end
  end.
Proof.
  unfold Manager.check_host, trusts. pose proof (get_spec h p d) as [Ht Hr]. pose proof (get_works h p d) as Hw.
  destruct (get_by_host_port h p d) as [[e|[r|]] d']; cbn in *; (split; [done|]); (split; [done|]); [done| |].
  - rewrite <-Hr. by destruct (bool_decide _ && bool_decide _).
  - by rewrite <-Hr.
Qed.

End Facts.

(** ** The decision of the host-key check *)
Section Decision.
Context {D : Type} `{KnownHostsTable D} {K : Type} `{PublicKey K}.
Variable decode : chars -> string + list Z.
Variable sha256 : list Z -> list Z.
Variable encode_no_pad : list Z -> string.
Import Handler.
Implicit Types (w : Trust D) (hd : LfsHandler) (key : K).

Notation check hd key draw now := (check_server_key decode sha256 encode_no_pad hd key draw now).

(** The user's answer to the prompt, if any. *)
Definition answered (prompt_id : string) (answer : option bool) (w : Trust D) : Trust D :=
  match answer with Some a => dispatch_response prompt_id a w | None => w end.

Definition kind_of (stored : option KnownHostRow) : KnownHostPromptKind :=
  match stored with None => NewHost | Some _ => KeyChanged end.

(** The answer reaches the parked receiver. *)
Lemma dispatch_reaches prompt_id c a w :
  pending (prompts w) !! prompt_id = Some c -> channels (prompts w) !! c = Some Waiting ->
  exists ps, dispatch_response prompt_id a w =
    mkTrust (database w) (opened w) ps (published w ++ [KnownHostPromptResolved prompt_id a]) /\
    channels ps !! c = Some (Woken a).
Proof.
  intros Hp Hc. unfold dispatch_response, HostPrompts.resolve, PromptRegistry.resolve. rewrite Hp, Hc.
  eexists. split; [done|]. cbn. apply list_lookup_insert_eq. by eapply lookup_lt_Some.
Qed.

(** C8. The host-key check decides as documented.  With the database open and working, a key
    the table holds for the host is accepted without a prompt; any other key is refused to a
    probe without a prompt or a write; otherwise the user is shown the key's fingerprint with
    the right kind (new host, or changed key), the answer is the verdict, the task stays
    suspended while there is none, and exactly an acceptance stores the key and announces it. *)
Theorem host_key_decision hd key draw now answer w kt kb bytes
    (Hopen : opened w = true) (Hwork : working (database w)) (Hps : prompts_wf (prompts w))
    (Hkey : encode_key decode key = inr (kt, kb, bytes)) :
  let prompt_id := generate_prompt_id draw in
  let stored := table (database w) !! (h_host hd, h_port hd) in
  let '(verdict, w') := run_env [id; id; id; id; answered prompt_id answer] (check hd key draw now) w in
  let request := KnownHostPromptRequest prompt_id (to_string (h_host hd)) (h_port hd) (to_string kt)
                   (format_fingerprint sha256 encode_no_pad bytes) (kind_of stored) in
  if trusts (database w) (h_host hd) (h_port hd) kt kb then
    verdict = Some true /\ table (database w') = table (database w) /\ published w' = published w
  else if probe_only hd then
    verdict = Some false /\ table (database w') = table (database w) /\ published w' = published w
  else
    verdict = answer /\
    published w' = published w ++ [request] ++
      match answer with
      | None => []
      | Some a => [KnownHostPromptResolved prompt_id a] ++ (if a then [KnownHostsChanged] else [])
      end /\
    match answer with
    | Some true => exists i, table (database w') = <[(h_host hd, h_port hd) := mkRow i (h_host hd) (h_port hd) kt kb now]>
                                                    (table (database w))
    | _ => table (database w') = table (database w)
    end.
Proof.
  cbv zeta. unfold check_server_key, check_server_key_via_tofu.
  cbn -[on_database answered HostPrompts.register]. rewrite Hopen. cbn -[on_database answered HostPrompts.register]. rewrite Hkey.
  cbn -[on_database answered HostPrompts.register]. unfold on_database at 1. unfold id at 1.
  pose proof (check_host_spec (h_host hd) (h_port hd) kt kb (database w)) as (Ht & Hw & Hr).
  destruct (Manager.check_host (h_host hd) (h_port hd) kt kb (database w)) as [[e|[|m]] d]; cbn in Ht, Hw, Hr.
  - done.
  - rewrite Hr. by cbn.
  - destruct Hr as [-> Hm]. cbn -[on_database answered HostPrompts.register].
    destruct (probe_only hd); cbn -[on_database answered HostPrompts.register]; [done|]. unfold id.
    pose proof (register_waits (generate_prompt_id draw) (prompts w) Hps) as Hc.
    unfold HostPrompts.register.
    destruct (PromptRegistry.register (generate_prompt_id draw) (prompts w)) as [c ps] eqn:Hreg.
    cbn [fst snd] in Hc. cbn -[on_database answered].
    assert (Hkind : Manager.prompt_kind_for m = kind_of (table (database w) !! (h_host hd, h_port hd)))
      by (rewrite Hm; by destruct (_ !! _)).
    rewrite Hkind. set (w1 := mkTrust d (opened w) ps _). destruct Hc as [Hp Hc].
    destruct answer as [a|]; cbn [answered].
    + destruct (dispatch_reaches (generate_prompt_id draw) c a w1 Hp Hc) as (ps' & -> & Hc'). cbn -[on_database].
      rewrite Hc'. destruct a; cbn -[on_database]; [|by rewrite <-app_assoc].
      unfold on_database, id. cbn.
      pose proof (upsert_spec (h_host hd) (h_port hd) kt kb now d) as Hu.
      destruct (upsert_by_host_port (h_host hd) (h_port hd) kt kb now d) as [[e|i] d']; cbn in Hu; cbn.
      * destruct Hu as [_ Hu]. by destruct Hu; apply Hw.
      * split_and!; [done|by rewrite <-!app_assoc|]. exists i. by rewrite Hu, Ht.
    + cbn. rewrite Hc. done.
Qed.

(** What a call leaves alone. *)
Definition untouched (s s' : Trust D) : Prop :=
  table (database s') = table (database s) /\ prompts s' = prompts s /\ published s' = published s.

Lemma on_database_untouched {A} (f : D -> A * D) w :
  (forall d, table (f d).2 = table d) -> untouched w (on_database f w).2.
Proof. intros Hf. unfold on_database. specialize (Hf (database w)). by destruct (f (database w)). Qed.

Ltac quiet := intros _; cbn [calls]; repeat (apply Forall_cons_2; [done|]); apply Forall_nil_2.

Lemma on_database_result {A} (f : D -> A * D) w : (on_database f w).1 = (f (database w)).1.
Proof. unfold on_database. by destruct (f (database w)). Qed.

Lemma on_database_state {A} (f : D -> A * D) w : database (on_database f w).2 = (f (database w)).2.
Proof. unfold on_database. by destruct (f (database w)). Qed.

(** C9. Whatever other tasks do between its calls, the check accepts a key only if the table
    held exactly that key for the host when it looked, or the user, shown a prompt that this
    check registered and published, answered yes and the key was then stored.  A probe never
    takes the second way: none of its calls changes the table, parks a prompt or publishes. *)
Theorem only_trusted_keys_are_accepted hd key draw now env w :
  let trace := calls env (check hd key draw now) w in
  let prompt_id := generate_prompt_id draw in
  (probe_only hd = true -> Forall (fun ss => untouched ss.1 ss.2) trace) /\
  ((run_env env (check hd key draw now) w).1 = Some true ->
   exists kt kb bytes, encode_key decode key = inr (kt, kb, bytes) /\
   ((exists ss, ss ∈ trace /\ trusts (database ss.1) (h_host hd) (h_port hd) kt kb = true) \/
    (probe_only hd = false /\
     exists asks shows hears stores c kind i,
       [asks; shows; hears; stores] `sublist_of` trace /\
       HostPrompts.register prompt_id (prompts asks.1) = (c, prompts asks.2) /\
       published shows.2 = published shows.1 ++
         [KnownHostPromptRequest prompt_id (to_string (h_host hd)) (h_port hd) (to_string kt)
            (format_fingerprint sha256 encode_no_pad bytes) kind] /\
       channels (prompts hears.1) !! c = Some (Woken true) /\
       table (database stores.2) = <[(h_host hd, h_port hd) := mkRow i (h_host hd) (h_port hd) kt kb now]>
                                     (table (database stores.1))))).
Proof.
  cbv zeta. unfold check_server_key, check_server_key_via_tofu. cbn [call pbind].
  rewrite calls_step, run_env_step. cbn [fst snd]. set (s0 := env_head env w).
  destruct (opened s0); cbn [negb pbind]; [|split; [quiet|done]].
  destruct (encode_key decode key) as [e|[[kt kb] bytes]]; cbn [pbind]; [split; [quiet|done]|].
  rewrite calls_step, run_env_step. set (s1 := env_head (tail env) s0).
  pose proof (on_database_untouched (Manager.check_host (h_host hd) (h_port hd) kt kb) s1
    (fun d => proj1 (check_host_spec _ _ _ _ d))) as Hu.
  pose proof (check_host_spec (h_host hd) (h_port hd) kt kb (database s1)) as (_ & _ & Hr).
  rewrite <-on_database_result in Hr. destruct (on_database _ s1) as [[e|[|m]] w1]; cbn [fst snd pbind] in *.
  - split; [quiet|done].
  - split; [quiet|]. intros _. exists kt, kb, bytes. split; [done|]. left.
    eexists. split; [right; left|]. done.
  - destruct (probe_only hd) eqn:Hp; cbn [negb pbind]; [split; [quiet|done]|].
    split; [done|]. intros Hyes. exists kt, kb, bytes. split; [done|]. right. split; [done|]. clear Hu Hr.
    generalize dependent (tail (tail env)). intros env2 Hyes.
    rewrite calls_step. rewrite run_env_step in Hyes. set (w2 := env_head env2 w1) in *.
    destruct (HostPrompts.register _ (prompts w2)) as [c ps] eqn:Hreg. cbn [fst snd pbind] in *.
    rewrite calls_step. rewrite run_env_step in Hyes. set (w3 := env_head (tail env2) _) in *.
    cbn [publish fst snd pbind] in *.
    rewrite calls_step. rewrite run_env_step in Hyes. set (w4 := env_head (tail (tail env2)) _) in *.
    unfold received in *. cbn [fst snd] in *.
    destruct (channels (prompts w4) !! c) as [[|[]| |]|] eqn:Hc; cbn [pbind] in *; try (by rewrite ?run_env_step in Hyes).
    rewrite calls_step. rewrite run_env_step in Hyes. set (w5 := env_head (tail (tail (tail env2))) _) in *.
    pose proof (upsert_spec (h_host hd) (h_port hd) kt kb now (database w5)) as Hu.
    rewrite <-on_database_result, <-on_database_state in Hu.
    destruct (on_database _ w5) as [[e|i] w6]; cbn [fst snd pbind] in *; [done|].
    exists (w2, with_prompts ps w2). eexists (w3, _). exists (w4, w4), (w5, w6), c. eexists _, i.
    split; [do 2 apply sublist_cons; do 4 constructor; apply sublist_nil_l|].
    split_and!; [exact Hreg|reflexivity|exact Hc|exact Hu].
Qed.
End Decision.

(** ** The import adds *)
Section Additive.
Context {D : Type} `{KnownHostsTable D}.
Variable decode : chars -> string + list Z.
Variable now : Z.
Implicit Types (d : D) (src : ParsedHostEntry -> Prop).

(** Rows only come, each from an entry of [src]; the counter is their number; a working
    database lets no step fail. *)
Record grown src d (s : ImportSummary) (r : Error + unit) (s' : ImportSummary) d' : Prop := mkGrown {
  rows_kept : table d ⊆ table d';
  rows_new hp row : table d' !! hp = Some row -> table d !! hp = None ->
    exists entry, src entry /\ Manager.split_host_port (e_host_port entry) = Some hp /\
      key_of row = (e_key_type entry, e_key_base64 entry) /\ added_at_ms row = now;
  rows_counted : Z.of_nat (size (table d')) - added s' = Z.of_nat (size (table d)) - added s;
  count_grows : added s <= added s';
  never_fails : working d -> r = inr () /\ working d'
}.

Lemma grown_refl src d s r s' d' :
  table d' = table d -> added s' = added s -> (working d -> r = inr () /\ working d') -> grown src d s r s' d'.
Proof. intros Ht Ha Hw. constructor; rewrite ?Ht, ?Ha; [done|congruence|lia|lia|done]. Qed.

Lemma grown_trans src d s s1 d1 r s2 d2 :
  grown src d s (inr ()) s1 d1 -> grown src d1 s1 r s2 d2 -> grown src d s r s2 d2.
Proof.
  intros [K1 N1 C1 G1 F1] [K2 N2 C2 G2 F2]. constructor; [by etrans| |lia|lia|naive_solver].
  intros hp row Hd2 Hd0. destruct (table d1 !! hp) as [row'|] eqn:Hd1; [|by apply N2].
  pose proof (lookup_weaken _ _ _ _ Hd1 K2) as Hd2'. simplify_eq. by apply N1.
Qed.

Lemma grown_weaken (src src' : ParsedHostEntry -> Prop) d s r s' d' :
  (forall e, src e -> src' e) -> grown src d s r s' d' -> grown src' d s r s' d'.
Proof. intros Hi [K N C G F]. constructor; try done. intros hp row Hd1 Hd2. destruct (N hp row Hd1 Hd2) as (e & ? & ?). eauto. Qed.


Lemma entry_grows entry s d :
  let '(r, s', d') := Manager.import_entry entry now s d in grown (eq entry) d s r s' d'.
Proof.
  unfold Manager.import_entry. destruct (Manager.split_host_port (e_host_port entry)) as [[h p]|] eqn:Hs;
    [|by apply grown_refl].
  pose proof (get_spec h p d) as [Ht Hg]. pose proof (get_works h p d) as Hw.
  destruct (get_by_host_port h p d) as [[e|[row|]] d1]; cbn [fst snd] in *; [by apply grown_refl| |].
  - apply grown_refl; [done|done|auto].
  - pose proof (upsert_spec h p (e_key_type entry) (e_key_base64 entry) now d1) as Hu.
    pose proof (upsert_works h p (e_key_type entry) (e_key_base64 entry) now d1) as Hw2.
    destruct (upsert_by_host_port h p _ _ now d1) as [[e|i] d2]; cbn [fst snd] in *.
    + destruct Hu as [Hu Hn]. apply grown_refl; [by rewrite Hu|done|]. intros ?. by destruct Hn; apply Hw.
    + constructor; rewrite ?Hu, ?Ht.
      * by apply insert_subseteq.
      * intros hp row. rewrite lookup_insert. case_decide as He; [|congruence].
        intros [= <-] _. exists entry. by subst hp.
      * rewrite map_size_insert_None by done. cbn [added]. lia.
      * cbn [added]. lia.
      * intros ?. split; [done|auto].
Qed.

Lemma entries_grow entries s d :
  let '(r, s', d') := Manager.import_entries entries now s d in grown (.∈ entries) d s r s' d'.
Proof.
  revert s d. induction entries as [|entry entries IH]; intros s d; cbn [Manager.import_entries]; [by apply grown_refl|].
  pose proof (entry_grows entry s d) as He. destruct (Manager.import_entry entry now s d) as [[[e|[]] s1] d1].
  - eapply grown_weaken; [|done]. intros ? <-. left.
  - specialize (IH s1 d1). destruct (Manager.import_entries entries now s1 d1) as [[r s2] d2].
    eapply grown_trans; (eapply grown_weaken; [|done]); [intros ? <-; left|by right].
Qed.

Lemma line_grows raw_line s d :
  let '(r, s', d') := Manager.import_line decode raw_line now s d in
  grown (.∈ Parser.parse_line decode raw_line) d s r s' d'.
Proof.
  unfold Manager.import_line. destruct (Parser.parse_line decode raw_line) as [|entry entries].
  - apply grown_refl; [done| |done]. by case_match.
  - apply entries_grow.
Qed.

Definition in_lines (lines : list chars) (entry : ParsedHostEntry) : Prop :=
  exists raw_line, raw_line ∈ lines /\ entry ∈ Parser.parse_line decode raw_line.

Lemma lines_grow lines s d :
  let '(r, s', d') := Manager.import_lines decode lines now s d in grown (in_lines lines) d s r s' d'.
Proof.
  revert s d. induction lines as [|l lines IH]; intros s d; cbn [Manager.import_lines]; [by apply grown_refl|].
  pose proof (line_grows l s d) as Hl. destruct (Manager.import_line decode l now s d) as [[[e|[]] s1] d1].
  - eapply grown_weaken; [|done]. intros x Hx. exists l. split; [left|done].
  - specialize (IH s1 d1). destruct (Manager.import_lines decode lines now s1 d1) as [[r s2] d2].
    eapply grown_trans; (eapply grown_weaken; [|done]).
    + intros x Hx. exists l. split; [left|done].
    + intros x (l' & ? & ?). exists l'. split; [by right|done].
Qed.

(** Importing text, whatever it is and wherever the database fails, never changes a row
    that was there, not even its timestamp; every new row is the key of an entry parsed from one
    of the lines, for that entry's host, stamped with the time of the import.  A successful
    import counts exactly the new rows and announces the change exactly when there is one, and
    with a working database the import succeeds. *)
Theorem import_is_additive content d :
  let '(r, events, d') := Manager.import_from_string decode content now d in
  table d ⊆ table d' /\
  (forall hp row, table d' !! hp = Some row -> table d !! hp = None ->
     exists raw_line entry, raw_line ∈ split_by (Z.eqb 10) content /\
       entry ∈ Parser.parse_line decode raw_line /\ Manager.split_host_port (e_host_port entry) = Some hp /\
       key_of row = (e_key_type entry, e_key_base64 entry) /\ added_at_ms row = now) /\
  match r with
  | inr s => Z.of_nat (size (table d')) = Z.of_nat (size (table d)) + added s /\
             events = (if decide (table d' = table d) then [] else [KnownHostsChanged])
  | inl _ => events = [] /\ ~ working d
  end.
Proof.
  unfold Manager.import_from_string.
  pose proof (lines_grow (split_by (Z.eqb 10) content) (mkSummary 0 0 0) d) as Hg.
  destruct (Manager.import_lines decode _ now _ d) as [[r s] d']. cbn [added] in Hg.
  assert (Hnew : forall hp row, table d' !! hp = Some row -> table d !! hp = None ->
     exists raw_line entry, raw_line ∈ split_by (Z.eqb 10) content /\
       entry ∈ Parser.parse_line decode raw_line /\ Manager.split_host_port (e_host_port entry) = Some hp /\
       key_of row = (e_key_type entry, e_key_base64 entry) /\ added_at_ms row = now).
  { intros hp row Hd1 Hd2. destruct (rows_new _ _ _ _ _ _ Hg hp row Hd1 Hd2) as (e & (l & ? & ?) & ?). by exists l, e. }
  destruct Hg as [K _ C G F]. cbn [added] in *.
  destruct r as [e|[]]; (split; [done|]); (split; [done|]).
  - split; [done|]. intros Hw. by destruct (F Hw) as [? _].
  - split; [lia|]. case_decide as Ht; [rewrite Ht in C; by rewrite (proj2 (Z.ltb_ge 0 (added s))) by lia|].
    destruct (0 <? added s) eqn:Ha; [done|]. apply Z.ltb_ge in Ha. destruct Ht. symmetry. apply map_subseteq_size_eq; [done|lia].
Qed.

End Additive.

(** ** What is exported reads back *)
Definition entry_char (c : Z) : bool := is_whitespace c || (c =? 58) || (c =? 44).

Section RoundTrip.
Variable decode : chars -> string + list Z.

(** A row whose host is a name or an IPv4 address and whose fields are single words. *)
Record portable (r : KnownHostRow) : Prop := mkPortable {
  host_word : free entry_char (host r);
  host_head : exists c, head (host r) = Some c /\ c <> 35 /\ c <> 64 /\ c <> 91;
  host_plain : starts_with (lit "|1|") (host r) = false;
  port_range : 1 <= port r <= 65535;
  type_word : free is_whitespace (key_type r);
  type_some : key_type r <> [];
  key_word : free is_whitespace (key_base64 r);
  key_some : key_base64 r <> [];
  key_valid : Parser.is_valid_standard_base64 decode (key_base64 r) = true
}.

Definition host_port_text (r : KnownHostRow) : chars := host r ++ 58 :: decimal (port r).
Definition exported_line (r : KnownHostRow) : chars := host_port_text r ++ 32 :: key_type r ++ 32 :: key_base64 r.

Lemma export_row_line r : portable r -> Manager.export_row r = exported_line r ++ [10].
Proof.
  intros Hp. pose proof (port_range r Hp). unfold Manager.export_row, exported_line, host_port_text, display_int.
  rewrite (proj2 (Z.ltb_ge _ 0)) by lia. cbn [app]. by repeat (rewrite <-app_assoc; cbn [app]).
Qed.

Lemma free_decimal p n : (forall c, is_digit c -> p c = false) -> free p (decimal n).
Proof. intros Hp. exact (Forall_impl _ _ _ (decimal_digits n) Hp). Qed.

Lemma digit_plain c : is_digit c -> is_whitespace c = false /\ (58 =? c) = false /\ (44 =? c) = false /\ (93 =? c) = false.
Proof. unfold is_digit, is_whitespace, Utf8.within. intros. repeat split; repeat (apply orb_false_iff; split); lia. Qed.

Lemma host_free r p : portable r -> (forall c, p c = true -> entry_char c = true) -> free p (host r).
Proof. intros Hr Hp. exact (free_weaken _ _ _ Hp (host_word r Hr)). Qed.

Lemma host_port_free r : portable r -> free is_whitespace (host_port_text r).
Proof.
  intros Hr. apply free_app; [apply host_free; [done|]|constructor; [done|]].
  - unfold entry_char. intros c ->. done.
  - apply free_decimal. intros c Hc. by apply digit_plain.
Qed.

Lemma exported_line_free r p : portable r -> (forall c, p c = true -> is_whitespace c = true /\ c <> 32) -> free p (exported_line r).
Proof.
  intros Hr Hp. assert (H32 : p 32 = false) by (destruct (p 32) eqn:E; [by destruct (Hp _ E)|done]).
  assert (Hw : forall s, free is_whitespace s -> free p s)
    by (intros s; apply free_weaken; intros c Hc; by apply Hp).
  unfold exported_line. apply free_app; [by apply Hw, host_port_free|]. constructor; [done|].
  apply free_app; [by apply Hw, type_word|]. constructor; [done|]. by apply Hw, key_word.
Qed.

Lemma split_words r : portable r -> split_whitespace (exported_line r) = [host_port_text r; key_type r; key_base64 r].
Proof.
  intros Hr. unfold split_whitespace, exported_line.
  rewrite split_by_app by (by apply host_port_free || done).
  rewrite split_by_app by (by apply (type_word r Hr) || done).
  rewrite split_by_free by apply (key_word r Hr).
  destruct (host_head r Hr) as (c & Hc & _). pose proof (type_some r Hr). pose proof (key_some r Hr).
  rewrite !filter_cons_True; [done|..]; try done.
  unfold host_port_text. by destruct (host r).
Qed.

Lemma trim_words (a b : chars) :
  free is_whitespace a -> free is_whitespace b -> a <> [] -> b <> [] -> forall m, trim (a ++ m ++ b) = a ++ m ++ b.
Proof.
  intros Ha Hb Hna Hnb m. apply trim_id; intros c.
  - destruct a as [|x a]; [done|]. apply Forall_cons in Ha as [Hx _]. cbn. by intros [= <-].
  - destruct b as [|x b'] using rev_ind; [done|]. apply Forall_app in Hb as [_ Hx]. apply Forall_cons in Hx as [Hx _].
    rewrite !app_assoc, last_snoc. by intros [= <-].
Qed.

Lemma filter_free c s : free (Z.eqb c) s -> filter (eq c) s = [].
Proof.
  induction 1 as [|x s Hx _ IH]; [done|]. rewrite filter_cons_False; [done|]. intros <-. by rewrite Z.eqb_refl in Hx.
Qed.

Lemma host_port_nonempty r : host_port_text r <> [].
Proof. unfold host_port_text. by destruct (host r). Qed.

Lemma host_not_bracket r : portable r -> strip_prefix 91 (host_port_text r) = None.
Proof.
  intros Hr. destruct (host_head r Hr) as (c & Hc & _ & _ & Hb). unfold host_port_text, strip_prefix.
  destruct (host r) as [|x s]; [done|]. injection Hc as ->. cbn. by rewrite (proj2 (Z.eqb_neq _ _) Hb).
Qed.

Lemma normalise_host_port r : portable r -> Parser.normalise_host_spec (host_port_text r) = Some (host_port_text r).
Proof.
  intros Hr. pose proof (port_range r Hr) as Hport.
  assert (Hfree : free (Z.eqb 58) (host r)) by (apply host_free; [done|]; intros c <-%Z.eqb_eq; done).
  assert (Hd : free (Z.eqb 58) (decimal (port r))) by (apply free_decimal; intros c Hc; by apply digit_plain).
  destruct (host_head r Hr) as (c & Hc & _). unfold Parser.normalise_host_spec.
  assert (Htrim : trim (host_port_text r) = host_port_text r).
  { unfold host_port_text. change (58 :: decimal (port r)) with ([58] ++ decimal (port r)). apply trim_words.
    - apply host_free; [done|]. unfold entry_char. by intros ? ->.
    - apply free_decimal. intros d Hdg. by apply digit_plain.
    - by destruct (host r).
    - apply decimal_nonempty. }
  rewrite Htrim. rewrite bool_decide_eq_false_2 by apply host_port_nonempty. rewrite host_not_bracket by done.
  unfold host_port_text at 1 2 3. rewrite filter_app, filter_cons_True, !filter_free by done. cbn [app length Nat.ltb Nat.leb Nat.eqb].
  rewrite split_once_by_app by done. cbn [mbind option_bind].
  unfold parse_u32. rewrite parse_int_decimal by lia. cbn [mbind option_bind].
  rewrite bool_decide_eq_false_2 by (by destruct (host r)). unfold Parser.port_ok, Utf8.within.
  rewrite (proj2 (Z.leb_le 1 _)), (proj2 (Z.leb_le _ 65535)) by lia. cbn [andb orb negb].
  unfold Parser.format_canonical. assert (Hcol : Parser.has_colon (host r) = false).
  { unfold Parser.has_colon. apply not_true_iff_false. rewrite existsb_exists. intros (x & Hx & He).
    rewrite <-list_elem_of_In in Hx. unfold free in Hfree. rewrite Forall_forall in Hfree. specialize (Hfree x Hx). congruence. }
  rewrite Hcol. unfold display_int. by rewrite (proj2 (Z.ltb_ge _ 0)) by lia.
Qed.

Lemma split_host_port_text r : portable r -> Manager.split_host_port (host_port_text r) = Some (host r, port r).
Proof.
  intros Hr. pose proof (port_range r Hr) as Hport. destruct (host_head r Hr) as (c & Hc & _).
  unfold Manager.split_host_port. rewrite host_not_bracket by done.
  unfold Manager.rsplit_once_by, host_port_text. rewrite rev_app_distr. cbn [rev]. rewrite <-app_assoc. cbn [app].
  rewrite split_once_by_app; [|apply Forall_rev, free_decimal; intros x Hx; by apply digit_plain|done].
  cbn [mbind option_bind]. rewrite !rev_involutive. cbn [mbind option_bind].
  rewrite bool_decide_eq_false_2 by (by destruct (host r)).
  unfold parse_i64. rewrite parse_int_decimal by lia. cbn [mbind option_bind]. unfold Parser.port_ok, Utf8.within.
  by rewrite (proj2 (Z.leb_le 1 _)), (proj2 (Z.leb_le _ 65535)) by lia.
Qed.

(** A prefix test looks at the first character. *)
Lemma starts_with_head p x c s : p = [x] -> c <> x -> starts_with p (c :: s) = false.
Proof. intros -> Hc. apply bool_decide_eq_false_2. intros [k Hk]. by injection Hk as ->. Qed.

(** A prefix without the separator ends before it. *)
Lemma prefix_before (p a b : chars) c : free (Z.eqb c) p -> p `prefix_of` a ++ c :: b -> p `prefix_of` a.
Proof.
  intros Hp. revert a. induction Hp as [|x p Hx _ IH]; intros [|y a] [k Hk]; try apply prefix_nil; injection Hk as He Hk.
  - subst. by rewrite Z.eqb_refl in Hx.
  - subst y. apply prefix_cons, IH. by exists k.
Qed.

Lemma parse_exported r : portable r ->
  Parser.parse_line decode (exported_line r) = [mkEntry (host_port_text r) (key_type r) (key_base64 r)].
Proof.
  intros Hr. destruct (host_head r Hr) as (c & Hc & H35 & H64 & _). unfold Parser.parse_line.
  assert (Htrim : trim (exported_line r) = exported_line r).
  { unfold exported_line. replace (32 :: key_type r ++ 32 :: key_base64 r)
      with ((32 :: key_type r ++ [32]) ++ key_base64 r) by (cbn; by rewrite <-app_assoc).
    apply trim_words; [by apply host_port_free|apply (key_word r Hr)|apply host_port_nonempty|apply (key_some r Hr)]. }
  assert (Hhd : exists s, host_port_text r = c :: s).
  { unfold host_port_text. destruct (host r) as [|x s]; [done|]. injection Hc as ->. by eexists. }
  destruct Hhd as [s Hs].
  assert (Hcomment : starts_with (lit "#") (exported_line r) = false)
    by (unfold exported_line; rewrite Hs; by apply (starts_with_head _ 35)).
  assert (Hmarker : starts_with (lit "@") (host_port_text r) = false) by (rewrite Hs; by apply (starts_with_head _ 64)).
  rewrite Htrim, split_words, Hcomment by done.
  rewrite bool_decide_eq_false_2 by (unfold exported_line; by rewrite Hs). cbn [orb Parser.drop_markers].
  rewrite Hmarker.
  assert (Hh : starts_with (lit "|1|") (host_port_text r) = false).
  { pose proof (host_plain r Hr) as Hpl. unfold starts_with, host_port_text in *.
    apply bool_decide_eq_false in Hpl. apply bool_decide_eq_false_2. intros Hp. apply Hpl.
    eapply prefix_before; [|exact Hp]. by repeat constructor. }
  rewrite Hh, bool_decide_eq_false_2 by apply (key_some r Hr). rewrite (key_valid r Hr). cbn [negb].
  rewrite split_by_free; [cbn [omap list_omap]; by rewrite normalise_host_port|].
  apply free_app; [apply host_free; [done|]|constructor; [done|]].
  - intros x <-%Z.eqb_eq. done.
  - apply free_decimal. intros x Hx. by apply digit_plain.
Qed.

End RoundTrip.

Definition keys (m : gmap (chars * Z) KnownHostRow) : gmap (chars * Z) (chars * chars) := key_of <$> m.

Section Reimport.
Context {D : Type} `{KnownHostsTable D}.
Variable decode : chars -> string + list Z.
Variable now : Z.
Implicit Types d : D.

Definition exported_key (r : KnownHostRow) : chars * Z * (chars * chars) := (host r, port r, key_of r).

Lemma import_exported_row r s d : portable decode r -> working d ->
  let '(res, s', d') := Manager.import_line decode (exported_line r) now s d in
  res = inr () /\ working d' /\
  keys (table d') = match keys (table d) !! (host r, port r) with
                    | Some _ => keys (table d)
                    | None => <[(host r, port r) := key_of r]> (keys (table d))
                    end /\
  added s' + skipped_existing s' = added s + skipped_existing s + 1 /\ skipped_hashed s' = skipped_hashed s.
Proof.
  intros Hr Hw. unfold Manager.import_line. rewrite parse_exported by done.
  cbn [Manager.import_entries]. unfold Manager.import_entry. cbn [e_host_port e_key_type e_key_base64].
  rewrite (split_host_port_text decode) by done.
  pose proof (get_spec (host r) (port r) d) as [Ht Hg]. pose proof (get_works (host r) (port r) d Hw) as Hw1.
  unfold keys. rewrite lookup_fmap.
  destruct (get_by_host_port (host r) (port r) d) as [[e|[row|]] d1]; cbn [fst snd] in *; [done| |].
  - rewrite Ht, <-Hg. cbn. split_and!; try done. lia.
  - rewrite <-Hg. pose proof (upsert_spec (host r) (port r) (key_type r) (key_base64 r) now d1) as Hu.
    pose proof (upsert_works (host r) (port r) (key_type r) (key_base64 r) now d1 Hw1) as Hw2.
    destruct (upsert_by_host_port (host r) (port r) _ _ now d1) as [[e|i] d2]; cbn [fst snd] in *; [tauto|].
    rewrite Hu, Ht, fmap_insert. cbn. split_and!; try done. lia.
Qed.

Lemma union_insert_absent (m M : gmap (chars * Z) (chars * chars)) k v :
  m ∪ <[k := v]> M = match m !! k with Some _ => m | None => <[k := v]> m end ∪ M.
Proof.
  apply map_eq. intros j. destruct (m !! k) as [x|] eqn:Hk; rewrite !lookup_union, !lookup_insert;
    (case_decide as Hj; [subst; rewrite Hk; by destruct (M !! j)|done]).
Qed.

Lemma import_exported rows s d : Forall (portable decode) rows -> working d ->
  let '(res, s', d') := Manager.import_lines decode ((exported_line <$> rows) ++ [[]]) now s d in
  res = inr () /\ keys (table d') = keys (table d) ∪ list_to_map (exported_key <$> rows) /\
  added s' + skipped_existing s' = added s + skipped_existing s + Z.of_nat (length rows) /\
  skipped_hashed s' = skipped_hashed s.
Proof.
  intros Hr. revert s d. induction Hr as [|r rows Hr _ IH]; intros s d Hw.
  - cbn. rewrite (right_id_L ∅ (∪)). split_and!; try done. lia.
  - rewrite fmap_cons. cbn [app Manager.import_lines].
    pose proof (import_exported_row r s d Hr Hw) as Hl.
    destruct (Manager.import_line decode (exported_line r) now s d) as [[res s1] d1].
    destruct Hl as (-> & Hw1 & Hk & Ha & Hh). specialize (IH s1 d1 Hw1).
    destruct (Manager.import_lines decode _ now s1 d1) as [[res s2] d2].
    destruct IH as (-> & Hk2 & Ha2 & Hh2). rewrite fmap_cons. unfold exported_key at 1. cbn [list_to_map foldr uncurry].
    split_and!; [done|rewrite Hk2, Hk| cbn [length]; lia|lia].
    cbn. by rewrite union_insert_absent.
Qed.

Lemma insert_row_permutation r l : Manager.insert_row r l ≡ₚ r :: l.
Proof.
  induction l as [|x l IH]; [done|]. cbn [Manager.insert_row]. destruct (Manager.cmp_row r x); [done|done|].
  rewrite IH. apply Permutation_swap.
Qed.

Lemma sort_rows_permutation l : Manager.sort_rows l ≡ₚ l.
Proof.
  induction l as [|r l IH]; [done|]. cbn [Manager.sort_rows foldr]. fold (Manager.sort_rows l).
  by rewrite insert_row_permutation, IH.
Qed.

(** The keys of a table, listed in any order. *)
Lemma keys_of_list d l : l ≡ₚ (map_to_list (table d)).*2 -> list_to_map (exported_key <$> l) = keys (table d).
Proof.
  intros Hl. unfold keys. rewrite <-(list_to_map_to_list (key_of <$> table d)), map_to_list_fmap.
  assert (Hk : exported_key <$> (map_to_list (table d)).*2 = prod_map id key_of <$> map_to_list (table d)).
  { rewrite <-list_fmap_compose. apply list_fmap_ext. intros i [[h p] r] Hi.
    apply list_elem_of_lookup_2, elem_of_map_to_list, keyed in Hi as [<- <-]. done. }
  rewrite <-Hk. apply list_to_map_proper; [|by rewrite Hl].
  rewrite Hl, Hk, <-map_to_list_fmap. apply NoDup_fst_map_to_list.
Qed.
(** C10. The export reads back.  When every row of a table is portable (a host that is a name
    or an IPv4 address, single-word fields, a valid key), importing its export into any working
    table succeeds, keeps every key that was there, adds every other exported key under its own
    host and port, skips nothing else, and counts each exported row once. *)
Theorem export_import_roundtrip d1 d2 out
    (Hport : forall hp r, table d1 !! hp = Some r -> portable decode r)
    (Hout : (Manager.export_to_string d1).1 = inr out) (Hw : working d2) :
  let '(res, _, d') := Manager.import_from_string decode out now d2 in
  exists s, res = inr s /\ keys (table d') = keys (table d2) ∪ keys (table d1) /\
    added s + skipped_existing s = Z.of_nat (size (table d1)) /\ skipped_hashed s = 0.
Proof.
  unfold Manager.export_to_string, list_all in Hout. pose proof (select_all d1) as Hsel.
  destruct (execute SelectAll d1) as [[f|l] d1']; cbn [fst snd] in *; [done|]. injection Hout as <-.
  destruct (Hsel l eq_refl) as [Hl _].
  assert (Hall : Forall (portable decode) (Manager.sort_rows l)).
  { rewrite sort_rows_permutation, Hl. apply Forall_forall. intros r Hr.
    apply list_elem_of_fmap in Hr as ([hp r'] & -> & Hr). apply elem_of_map_to_list in Hr. by eapply Hport. }
  assert (Htext : Manager.sort_rows l ≫= Manager.export_row = Manager.sort_rows l ≫= (fun r => exported_line r ++ [10])).
  { clear -Hall. induction Hall as [|r rows Hr _ IH]; [done|]. by rewrite !bind_cons, IH, (export_row_line decode). }
  unfold Manager.import_from_string. rewrite Htext, split_by_terminated; [|done|].
  - pose proof (import_exported (Manager.sort_rows l) (mkSummary 0 0 0) d2 Hall Hw) as Hi.
    destruct (Manager.import_lines decode _ now _ d2) as [[res s] d'].
    destruct Hi as (-> & Hk & Ha & Hh). cbn [added skipped_existing skipped_hashed] in *. exists s.
    rewrite (keys_of_list d1) in Hk by (by rewrite sort_rows_permutation).
    split_and!; [done|done| |lia].
    rewrite Ha, sort_rows_permutation, Hl, length_fmap, length_map_to_list. lia.
  - eapply Forall_impl; [exact Hall|]. intros r Hr. apply (exported_line_free decode); [done|]. by intros c <-%Z.eqb_eq.
Qed.

End Reimport.

(** ** A table in memory *)
Record DemoDb := mkDemo {
  demo_rows : gmap (chars * Z) (Z * chars * chars * Z);
  demo_next : Z;
  demo_faults : list bool
}.

Definition demo_row (hp : chars * Z) (c : Z * chars * chars * Z) : KnownHostRow :=
  let '(i, kt, kb, t) := c in mkRow i hp.1 hp.2 kt kb t.

Definition demo_table (d : DemoDb) : gmap (chars * Z) KnownHostRow :=
  map_imap (fun hp c => Some (demo_row hp c)) (demo_rows d).

Definition demo_exec {A} (s : statement A) (d : DemoDb) : A * DemoDb :=
  match s in statement T return T * DemoDb with
  | SelectAll => ((map_to_list (demo_table d)).*2, d)
  | SelectByHostPort h p => (option_list (demo_table d !! (h, p)), d)
  | InsertOrUpdate h p kt kb t =>
      let i := match demo_rows d !! (h, p) with Some (i, _, _, _) => i | None => demo_next d end in
      (i, mkDemo (<[(h, p) := (i, kt, kb, t)]> (demo_rows d)) (demo_next d + 1) (demo_faults d))
  | DeleteByHostPort h p =>
      (if demo_rows d !! (h, p) then 1 else 0, mkDemo (delete (h, p) (demo_rows d)) (demo_next d) (demo_faults d))
  | DeleteAll => (Z.of_nat (size (demo_rows d)), mkDemo ∅ (demo_next d) (demo_faults d))
  end.

#[export] Instance demo_sqlite : Sqlite DemoDb := fun A s d =>
  match demo_faults d with
  | true :: fs => (inl (Query, "disk I/O error"%string), mkDemo (demo_rows d) (demo_next d) fs)
  | fs => let '(a, d) := demo_exec s (mkDemo (demo_rows d) (demo_next d) (tail fs)) in (inr a, d)
  end.

Lemma demo_execute A (s : statement A) d :
  (exists e, execute s d = (inl e, mkDemo (demo_rows d) (demo_next d) (tail (demo_faults d))) /\
     ~ Forall (eq false) (demo_faults d)) \/
  execute s d = (inr (demo_exec s (mkDemo (demo_rows d) (demo_next d) (tail (demo_faults d)))).1,
    (demo_exec s (mkDemo (demo_rows d) (demo_next d) (tail (demo_faults d)))).2).
Proof.
  unfold execute, demo_sqlite. destruct (demo_faults d) as [|[] fs]; [right|left|right]; try by destruct (demo_exec s _).
  eexists. split; [done|]. by intros [? _]%Forall_cons.
Qed.

Lemma demo_table_insert d h p c n fs :
  demo_table (mkDemo (<[(h, p) := c]> (demo_rows d)) n fs) = <[(h, p) := demo_row (h, p) c]> (demo_table d).
Proof. unfold demo_table. cbn [demo_rows]. by erewrite map_imap_insert_Some. Qed.

#[export, program] Instance demo_known_hosts : KnownHostsTable DemoDb :=
  {| table := demo_table; working d := Forall (eq false) (demo_faults d) |}.
Next Obligation. intros A s d e He. destruct (demo_execute A s d) as [(? & Hd & _)|Hd]; by rewrite Hd in *. Qed.
Next Obligation.
  intros d l He. destruct (demo_execute _ SelectAll d) as [(? & Hd & _)|Hd]; rewrite Hd in *; [done|]. by injection He as <-.
Qed.
Next Obligation.
  intros h p d l He. destruct (demo_execute _ (SelectByHostPort h p) d) as [(? & Hd & _)|Hd]; rewrite Hd in *; [done|].
  by injection He as <-.
Qed.
Next Obligation.
  intros h p kt kb t d i He. destruct (demo_execute _ (InsertOrUpdate h p kt kb t) d) as [(? & Hd & _)|Hd]; rewrite Hd in *; [done|].
  injection He as <-. cbn. by rewrite (demo_table_insert d).
Qed.
Next Obligation.
  intros h p d n He. destruct (demo_execute _ (DeleteByHostPort h p) d) as [(? & Hd & _)|Hd]; rewrite Hd in *; [done|].
  unfold demo_table. cbn. by rewrite map_imap_delete.
Qed.
Next Obligation.
  intros d n He. destruct (demo_execute _ DeleteAll d) as [(? & Hd & _)|Hd]; rewrite Hd in *; [done|].
  unfold demo_table. cbn. by rewrite map_imap_empty.
Qed.
Next Obligation.
  intros d h p r. unfold demo_table. rewrite map_lookup_imap. destruct (demo_rows d !! (h, p)) as [[[[i kt] kb] t]|]; [|done].
  cbn. by intros [= <-].
Qed.
Next Obligation.
  intros A s d Hw. cbn beta in *. assert (Ht : Forall (eq false) (tail (demo_faults d))) by (destruct Hw; [done|by cbn]).
  destruct (demo_execute A s d) as [(? & _ & Hd)|Hd]; [done|]. rewrite Hd. split; [by eexists|]. by destruct s.
Qed.

Lemma fault_free rows n : working (mkDemo rows n []).
Proof. cbn. apply Forall_nil_2. Qed.

(** ** Concrete runs *)
Section Demo.
Definition demo_decode (s : chars) : string + list Z := if existsb (Z.eqb 33) s then inl "Invalid symbol 33"%string else inr s.

(** A key is its algorithm and its base64 body. *)
#[local] Instance demo_public_key : PublicKey (chars * chars) :=
  {| algorithm k := k.1; to_openssh k := inr (k.1 ++ lit " " ++ k.2) |}.

Definition demo_key : chars * chars := (lit "ssh-ed25519", lit "AAAA").
Definition other_key : chars * chars := (lit "ssh-ed25519", lit "BBBB").
Definition demo_handler : LfsHandler := Handler.with_forwards (lit "h.example") 22.
Definition empty_db : DemoDb := mkDemo ∅ 1 [].
Definition other_db : DemoDb := mkDemo {[ (lit "h.example", 22) := (7, lit "ssh-ed25519", lit "BBBB", 5) ]} 8 [].
Definition demo_trust (d : DemoDb) : Trust DemoDb := mkTrust d true HostPrompts.new [].
Definition demo_fingerprint (bs : list Z) : string := to_string bs.

Definition demo_check (key : chars * chars) (draw : list Z) (now : Z) : prog (Trust DemoDb) (option bool) :=
  Handler.check_server_key demo_decode (fun bs => bs) demo_fingerprint demo_handler key draw now.

Definition demo_answer (draw : list Z) : list (Trust DemoDb -> Trust DemoDb) :=
  [id; id; id; id; answered (Handler.generate_prompt_id draw) (Some true)].

Lemma host_key_decision_witness :
  opened (demo_trust other_db) = true /\ (run_env (demo_answer [1]) (demo_check demo_key [1] 9) (demo_trust other_db)).1 = Some true.
Proof.
  split; [done|].
  pose proof (host_key_decision demo_decode (fun bs => bs) demo_fingerprint demo_handler demo_key [1] 9 (Some true)
    (demo_trust other_db) (lit "ssh-ed25519") (lit "AAAA") (lit "AAAA") eq_refl (fault_free _ _) prompts_wf_new eq_refl) as Hd.
  revert Hd. unfold demo_answer, demo_check. destruct (run_env _ _ _) as [v w']. intros Hd.
  assert (Ht : trusts (database (demo_trust other_db)) (h_host demo_handler) (h_port demo_handler) (lit "ssh-ed25519") (lit "AAAA") = false)
    by (vm_compute; reflexivity).
  cbv zeta in Hd. rewrite Ht in Hd. by destruct Hd as [-> _].
Defined.

Lemma only_trusted_keys_are_accepted_witness :
  exists kt kb bytes, Handler.encode_key demo_decode demo_key = inr (kt, kb, bytes).
Proof.
  destruct (only_trusted_keys_are_accepted demo_decode (fun bs => bs) demo_fingerprint demo_handler demo_key [1] 9
    (demo_answer [1]) (demo_trust other_db)) as [_ Hk].
  destruct Hk as (kt & kb & bytes & He & _); [vm_compute; reflexivity|]. by exists kt, kb, bytes.
Defined.

Definition two_rows : DemoDb :=
  mkDemo {[ (lit "h.example", 22) := (7, lit "ssh-ed25519", lit "BBBB", 5);
            (lit "10.0.0.1", 2222) := (3, lit "ssh-rsa", lit "CCCC", 6) ]} 8 [].

Lemma two_rows_portable hp r : demo_table two_rows !! hp = Some r -> portable demo_decode r.
Proof.
  unfold demo_table, two_rows. rewrite map_lookup_imap. cbn [demo_rows]. rewrite lookup_insert, lookup_singleton.
  repeat case_decide; cbn; intros [= <-]; subst; constructor; cbn; try lia; try done.
  all: try (repeat (apply Forall_cons_2; [reflexivity|]); apply Forall_nil_2).
  all: eexists; split_and!; [reflexivity|discriminate..].
Qed.

Definition demo_export : chars := lit "10.0.0.1:2222 ssh-rsa CCCC" ++ [10] ++ lit "h.example:22 ssh-ed25519 BBBB" ++ [10].

Lemma export_import_roundtrip_witness :
  (Manager.export_to_string two_rows).1 = inr demo_export /\
  exists s, (Manager.import_from_string demo_decode demo_export 9 other_db).1.1 = inr s /\ added s + skipped_existing s = 2.
Proof.
  assert (Ho : (Manager.export_to_string two_rows).1 = inr demo_export) by (vm_compute; reflexivity). split; [exact Ho|].
  pose proof (export_import_roundtrip demo_decode 9 two_rows other_db demo_export) as Hr.
  specialize (Hr two_rows_portable Ho (fault_free _ _)).
  destruct (Manager.import_from_string demo_decode _ 9 other_db) as [[res ev] d']. destruct Hr as (s & Hs & _ & Ha & _).
  exists s. split; [exact Hs|]. rewrite Ha. vm_compute. reflexivity.
Defined.

(** A prompt goes by what the table held when the check looked.  Here the host is new to both
    of two handshakes; the first answer stores one key; the second, still shown as a new host,
    overwrites it with the other key without the user ever being told of a change. *)
Example accept_overwrites_unseen_key :
  let first := fun w => (run_env (demo_answer [2]) (demo_check other_key [2] 8) w).2 in
  let '(verdict, w) := run_env [id; id; first; id; answered (Handler.generate_prompt_id [1]) (Some true)]
                         (demo_check demo_key [1] 9) (demo_trust empty_db) in
  verdict = Some true /\ trusts (database w) (lit "h.example") 22 demo_key.1 demo_key.2 = true /\
  Forall (fun e => match e with KnownHostPromptRequest _ _ _ _ _ kind => kind = NewHost | _ => True end) (published w).
Proof. vm_compute. repeat split; repeat constructor. Qed.

(** A database error after the first new row: the row is there, nothing is announced. *)
Example failed_import_stays_silent :
  let '(res, events, d) := Manager.import_from_string demo_decode (lit "a ssh-rsa AAAA" ++ [10] ++ lit "b ssh-rsa AAAA") 9
                             (mkDemo ∅ 1 [false; false; true]) in
  (exists e, res = inl e) /\ events = [] /\ size (demo_table d) = 1%nat.
Proof. vm_compute. split; [by eexists|]. done. Qed.

(** An IPv6 row is written without brackets, which the parser rejects. *)
Example ipv6_export_does_not_read_back :
  exists out, (Manager.export_to_string (mkDemo {[ (lit "::1", 22) := (1, lit "ssh-rsa", lit "AAAA", 5) ]} 2 [])).1 = inr out /\
    out = lit "::1:22 ssh-rsa AAAA" ++ [10] /\
    (Manager.import_from_string demo_decode out 9 empty_db).1.1 = inr (mkSummary 0 0 0).
Proof. eexists. split; [vm_compute; reflexivity|]. split; vm_compute; reflexivity. Qed.

(** A key imported from a [@revoked] line is trusted. *)
Example revoked_key_is_trusted :
  let '(_, _, d) := Manager.import_from_string demo_decode (lit "@revoked h.example ssh-ed25519 AAAA") 9 empty_db in
  (run (demo_check demo_key [1] 9) (demo_trust d)).1 = Some true.
Proof. vm_compute. reflexivity. Qed.
End Demo.
