(* ===== verification/WebDav.v ===== *)
(** * The WebDAV client ([webdav/client.rs], [webdav/auth.rs])

    Credentials, the Digest challenge parser and response, the request verbs with their single
    retry, and the tags of conditional requests.  A verb is a [prog] over the client's digest
    state and the network; two clones of a client share both.  PROPFIND, whose answer is XML, is
    left out.

    The [url] crate is the class [Url]; reqwest, with the redirect policy the client is built
    with, is the class [Http]; MD5, base64 and
    the check of a header value are parameters. *)
From Stdlib Require Import ZArith Lia.
From stdpp Require Import prelude gmap strings list pretty.
From S2P Require Import Prelude Text Prog.

Open Scope Z_scope.
Notation chars := (list Z).

(** The errors of [error.rs] this component and its callers tell apart. *)
Inductive Error :=
| WebDavErr (detail : string)
| ArchiveFuture (found : Z) (supported : Z)
| OtherErr (display : string).

(** ** Authentication *)
Inductive AuthMethod := Basic | Digest | Bearer.

#[export] Instance AuthMethod_eq_dec : EqDecision AuthMethod.
Proof. solve_decision. Defined.

Record Credentials := mkCredentials {
  method : AuthMethod;
  username : option chars;
  password_or_token : chars
}.

Record DigestChallenge := mkChallenge {
  realm : chars;
  nonce : chars;
  qop : option chars;
  opaque : option chars;
  algorithm : chars;
  stale : bool
}.

(** [None] before the first challenge; the counter is a [u32]. *)
Definition DigestState : Type := option (DigestChallenge * Z).

Definition to_ascii_lowercase (s : chars) : chars := (fun c => if (65 <=? c) && (c <=? 90) then c + 32 else c) <$> s.
Definition to_ascii_uppercase (s : chars) : chars := (fun c => if (97 <=? c) && (c <=? 122) then c - 32 else c) <$> s.
Definition eq_ignore_ascii_case (a b : chars) : bool := bool_decide (to_ascii_lowercase a = to_ascii_lowercase b).

Definition quote : Z := 34.
Definition comma : Z := 44.

Module Auth.

Definition is_separator (c : Z) : bool := (c =? 32) || (c =? 9) || (c =? comma).

(** The scanners take the text from the index on and return what follows. *)
Definition skip_separators (s : chars) : chars := trim_start_by is_separator s.

Fixpoint span (stop : Z -> bool) (s : chars) : chars * chars :=
  match s with
  | [] => ([], [])
  | c :: r => if stop c then ([], s) else let '(a, b) := span stop r in (c :: a, b)
  end.

Definition scan_key (s : chars) : chars * chars :=
  let '(key, rest) := span (fun c => (c =? 61) || (c =? comma)) s in (to_ascii_lowercase (trim key), rest).

Fixpoint quoted_span (s : chars) : chars * chars :=
  match s with
  | [] => ([], [])
  | c :: r =>
      if c =? quote then ([], s)
      else if c =? 92 then
        match r with
        | d :: r => let '(a, b) := quoted_span r in (c :: d :: a, b)
        | [] => ([c], [])
        end
      else let '(a, b) := quoted_span r in (c :: a, b)
  end.

Definition scan_quoted_value (s : chars) : chars * chars :=
  let '(v, rest) := quoted_span s in (v, tail rest).

Definition scan_token_value (s : chars) : chars * chars :=
  let '(v, rest) := span (fun c => c =? comma) s in (trim v, rest).

Definition scan_value (s : chars) : chars * chars :=
  match s with
  | c :: r => if c =? quote then scan_quoted_value r else scan_token_value s
  | [] => scan_token_value s
  end.

(** Each round of the loop consumes a character, so the length of the input is enough fuel. *)
Fixpoint auth_pairs (fuel : nat) (out : gmap chars chars) (s : chars) : gmap chars chars :=
  match fuel with
  | O => out
  | S fuel =>
      match skip_separators s with
      | [] => out
      | s =>
          let '(key, after_key) := scan_key s in
          match after_key with
          | c :: r =>
              if c =? 61 then
                let '(value, after_value) := scan_value r in
                auth_pairs fuel (match key with [] => out | _ => <[key := value]> out end) after_value
              else auth_pairs fuel out after_key
          | [] => out
          end
      end
  end.

Definition parse_auth_pairs (input : chars) : gmap chars chars := auth_pairs (S (length input)) ∅ input.

Definition strip_prefix (p s : chars) : option chars :=
  if bool_decide (take (length p) s = p) then Some (drop (length p) s) else None.

Definition parse (header_value : chars) : option DigestChallenge :=
  let trimmed := trim header_value in
  rest ← match strip_prefix (lit "Digest ") trimmed with Some r => Some r | None => strip_prefix (lit "digest ") trimmed end;
  let pairs := parse_auth_pairs rest in
  Some (mkChallenge
    (default [] (pairs !! lit "realm")) (default [] (pairs !! lit "nonce"))
    (pairs !! lit "qop") (pairs !! lit "opaque") (default (lit "MD5") (pairs !! lit "algorithm"))
    (default false ((fun v => eq_ignore_ascii_case v (lit "true")) <$> pairs !! lit "stale"))).

Section Headers.
(** The MD5 of a text and standard base64. *)
Variable md5 : chars -> list Z.
Variable base64 : list Z -> chars.

Definition md5_hex (input : chars) : chars := md5 input ≫= hex_byte.

Definition header_value_basic_or_bearer (creds : Credentials) : Error + chars :=
  match method creds with
  | Basic => inr (lit "Basic " ++ base64 (Utf8.encode (default [] (username creds) ++ [58] ++ password_or_token creds)))
  | Bearer => inr (lit "Bearer " ++ password_or_token creds)
  | Digest => inl (WebDavErr "digest header needs challenge context")
  end.

Definition set_challenge (c : DigestChallenge) (st : DigestState) : DigestState := Some (c, 0).
Definition has_challenge (st : DigestState) : bool := if st then true else false.

(** [{:08x}] of a [u32]. *)
Definition hex8 (n : Z) : chars :=
  [n / 2 ^ 24; n / 2 ^ 16; n / 2 ^ 8; n] ≫= (fun b => hex_byte (b mod 256)).

Definition quoted (key value : chars) : chars := key ++ [61; quote] ++ value ++ [quote].
Definition sep : chars := [comma; 32].
Definition colon : chars := [58].

Definition choose_qop (qop : chars) : chars :=
  default (lit "auth") (find (fun s => eq_ignore_ascii_case s (lit "auth")) (trim <$> split_by (fun c => c =? comma) qop)).

Definition build_response (creds : Credentials) (verb request_uri cnonce : chars) (st : DigestState) :
    (Error + chars) * DigestState :=
  match st with
  | None => (inl (WebDavErr "digest challenge not yet received"), st)
  | Some (c, n) =>
      if n =? 2 ^ 32 - 1 then (inl (WebDavErr "digest nonce-count overflow — re-auth required"), st)
      else
        let n := n + 1 in
        let st := Some (c, n) in
        let user := default [] (username creds) in
        let algo := to_ascii_uppercase (algorithm c) in
        if negb (bool_decide (algo = lit "MD5")) then
          (inl (WebDavErr ("unsupported digest algorithm: " ++ Text.to_string algo)%string), st)
        else
          let ha1 := md5_hex (user ++ colon ++ realm c ++ colon ++ password_or_token creds) in
          let ha2 := md5_hex (verb ++ colon ++ request_uri) in
          let '(response, qop_part) :=
            match qop c with
            | Some q =>
                let chosen := choose_qop q in
                (md5_hex (ha1 ++ colon ++ nonce c ++ colon ++ hex8 n ++ colon ++ cnonce ++ colon ++ chosen ++ colon ++ ha2),
                 sep ++ lit "qop=" ++ chosen ++ sep ++ lit "nc=" ++ hex8 n ++ sep ++ quoted (lit "cnonce") cnonce)
            | None => (md5_hex (ha1 ++ colon ++ nonce c ++ colon ++ ha2), [])
            end in
          let opaque_part := match opaque c with Some o => sep ++ quoted (lit "opaque") o | None => [] end in
          (inr (lit "Digest " ++ quoted (lit "username") user ++ sep ++ quoted (lit "realm") (realm c) ++ sep
                ++ quoted (lit "nonce") (nonce c) ++ sep ++ quoted (lit "uri") request_uri ++ sep
                ++ lit "algorithm=" ++ algo ++ sep ++ quoted (lit "response") response ++ qop_part ++ opaque_part), st)
  end.

End Headers.
End Auth.

(** ** Requests *)

(** A parsed URL; [origin] is [None] for an opaque one, which equals no origin. *)
Class Url (U : Type) := {
  url_parse : string -> string + U;
  url_join : U -> string -> string + U;
  url_path : U -> chars;
  url_query : U -> option chars;
  with_path : chars -> U -> U;
  origin : U -> option string
}.

Record HttpRequest (U : Type) := mkRequest {
  verb : chars;
  url : U;
  authorization : option chars;
  headers : list (string * string);
  content : list Z
}.
Arguments mkRequest {U} _ _ _ _ _.
Arguments verb {U} _.
Arguments url {U} _.
Arguments authorization {U} _.
Arguments headers {U} _.
Arguments content {U} _.

(** The header fields are [None] when absent or not visible ASCII; [body] is the error of
    reading it or the bytes. *)
Record Response := mkResponse {
  status : Z;
  etag_header : option string;
  www_authenticate : option chars;
  body : string + list Z
}.

(** What reqwest makes of a request under a redirect policy [limited n], and the standard reason
    phrases: one exchange, or, when the server redirects, up to [n] more, of whose targets and
    contents the policy says nothing.  [client_error] is the error of the client builder,
    [header_error] that of a header value the http crate rejects. *)
Class Http (U R : Type) := {
  http_send : nat -> HttpRequest U -> R -> (string + Response) * R;
  canonical_reason : Z -> option string;
  client_error : option string;
  header_error : chars -> option string
}.

Definition is_success (s : Z) : bool := (200 <=? s) && (s <? 300).

(** The characters of a [String]. *)
Definition chars_of (s : string) : chars := Utf8.lossy (lit s).

Definition ends_with (c : Z) (s : chars) : bool := match last s with Some x => x =? c | None => false end.
Definition begins_with (c : Z) (s : chars) : bool := match s with x :: _ => x =? c | [] => false end.

Definition quote_etag (etag : string) : string :=
  let trimmed := trim (chars_of etag) in
  if begins_with quote trimmed && ends_with quote trimmed then to_string trimmed
  else to_string (quote :: trimmed ++ [quote]).

(** [s.strip_prefix('"').and_then(|s| s.strip_suffix('"')).unwrap_or(s)] *)
Definition unquote (s : chars) : chars :=
  match s with
  | x :: r => if (x =? quote) && ends_with quote r then removelast r else s
  | [] => s
  end.

Definition normalise_etag_header (raw : string) : string :=
  let stripped :=
    match trim (chars_of raw) with
    | w :: 47 :: r => if (w =? 87) || (w =? 119) then r else w :: 47 :: r
    | t => t
    end in
  to_string (unquote stripped).

(** What the calls of a client read and write: its digest state and the network. *)
Record Wire (R : Type) := mkWire { digest : DigestState; net : R }.
Arguments mkWire {R} _ _.
Arguments digest {R} _.
Arguments net {R} _.

(** [redirects] is the policy the [reqwest::Client] of the field [http] was built with. *)
Record WebDavClient (U : Type) := mkClient { base_url : U; redirects : nat; creds : Credentials }.
Arguments mkClient {U} _ _ _.
Arguments base_url {U} _.
Arguments redirects {U} _.
Arguments creds {U} _.

Module Client.
Section Client.
Context {U R : Type} `{Url U} `{Http U R}.
Variable md5 : chars -> list Z.
Variable base64 : list Z -> chars.
Notation W := (Wire R).
Notation WebDavClient := (WebDavClient U).

Definition MAX_REDIRECTS : nat := 10.

(** The timeout, the agent string and the certificate options of [new] only reach the builder of reqwest. *)
Definition new (base : string) (c : Credentials) : Error + WebDavClient :=
  match url_parse base with
  | inl e => inl (WebDavErr ("base url parse: " ++ e))
  | inr parsed =>
      let parsed := if ends_with 47 (url_path parsed) then parsed else with_path (url_path parsed ++ [47])%list parsed in
      match client_error (U := U) (R := R) with
      | Some e => inl (WebDavErr ("http client build: " ++ e))
      | None => inr (mkClient parsed MAX_REDIRECTS c)
      end
  end%string.

Definition same_origin (a b : U) : bool :=
  match origin a, origin b with Some x, Some y => String.eqb x y | _, _ => false end.

Definition join (client : WebDavClient) (path : string) : Error + U :=
  match url_join (base_url client) path with
  | inl e => inl (WebDavErr ("path join: " ++ e)%string)
  | inr resolved =>
      if negb (same_origin resolved (base_url client)) then
        inl (WebDavErr "refusing cross-origin path (server returned an href outside the configured base URL)")
      else inr resolved
  end.

Definition uri_path_and_query (u : U) : chars :=
  match url_query u with Some q => url_path u ++ [63] ++ q | None => url_path u end.

(** [draw] is the eight random bytes. *)
Definition random_cnonce (draw : list Z) : chars := draw ≫= hex_byte.

Open Scope prog_scope.

Definition header_value (v : chars) : Error + option chars :=
  match header_error (U := U) (R := R) v with Some e => inl (WebDavErr ("auth header: " ++ e)%string) | None => inr (Some v) end.

(** The [Authorization] value to stamp, if any. *)
Definition apply_auth (client : WebDavClient) (draw : list Z) (verb : chars) (u : U) : prog W (Error + option chars) :=
  match method (creds client) with
  | Basic | Bearer =>
      Ret (match Auth.header_value_basic_or_bearer base64 (creds client) with
           | inl e => inl e
           | inr v => header_value v
           end)
  | Digest =>
      let! has := call (fun w => (Auth.has_challenge (digest w), w)) in
      if negb has then Ret (inr None)
      else
        let! header := call (fun w =>
          let '(x, st) := Auth.build_response md5 (creds client) verb (uri_path_and_query u) (random_cnonce draw) (digest w) in
          (x, mkWire st (net w))) in
        Ret (match header with inl e => inl e | inr v => header_value v end)
  end.

Definition exchange (client : WebDavClient) (req : HttpRequest U) : prog W (string + Response) :=
  call (fun w => let '(x, r) := http_send (redirects client) req (net w) in (x, mkWire (digest w) r)).

(** [draws] are the random bytes of the two attempts. *)
Definition send (client : WebDavClient) (draws : list Z * list Z) (verb : chars) (u : U) (headers : list (string * string))
    (content : list Z) : prog W (Error + Response) :=
  let! auth := apply_auth client draws.1 verb u in
  match auth with
  | inl e => Ret (inl e)
  | inr auth =>
      let! response := exchange client (mkRequest verb u auth headers content) in
      match response with
      | inl e => Ret (inl (WebDavErr ("send: " ++ e)%string))
      | inr response =>
          if (status response =? 401) && bool_decide (method (creds client) = Digest) then
            match www_authenticate response ≫= Auth.parse with
            | None => Ret (inl (WebDavErr "401 without parseable Digest challenge"))
            | Some parsed =>
                let! _ := call (fun w => (tt, mkWire (Auth.set_challenge parsed (digest w)) (net w))) in
                let! auth := apply_auth client draws.2 verb u in
                match auth with
                | inl e => Ret (inl e)
                | inr auth =>
                    let! response := exchange client (mkRequest verb u auth headers content) in
                    Ret (match response with
                         | inl e => inl (WebDavErr ("send retry: " ++ e)%string)
                         | inr response => inr response
                         end)
                end
            end
          else Ret (inr response)
      end
  end.

Definition map_status_error (s : Z) (verb : string) : Error :=
  let label :=
    if s =? 401 then "authentication failed"
    else if s =? 403 then "forbidden"
    else if s =? 404 then "not found"
    else if s =? 405 then "method not allowed"
    else if s =? 409 then "conflict"
    else if s =? 412 then "etag mismatch"
    else if s =? 423 then "locked"
    else if s =? 507 then "insufficient storage"
    else default "unexpected status"%string (canonical_reason (U := U) (R := R) s) in
  WebDavErr (verb ++ ": HTTP " ++ pretty s ++ ": " ++ label)%string.

(** The verbs differ in the request and in what they make of a successful response. *)
Definition request (client : WebDavClient) (draws : list Z * list Z) (path : string) (verb : chars) (headers : list (string * string))
    (content : list Z) (fine : Z -> bool) (label : string) : prog W (Error + Response) :=
  match join client path with
  | inl e => Ret (inl e)
  | inr u =>
      let! response := send client draws verb u headers content in
      Ret (match response with
           | inl e => inl e
           | inr response => if fine (status response) then inr response else inl (map_status_error (status response) label)
           end)
  end.

Definition get (client : WebDavClient) (draws : list Z * list Z) (path : string) (range : option (Z * Z))
    (if_none_match : option string) : prog W (Error + Response) :=
  request client draws path (lit "GET")
    (match range with Some (start, stop) => [("Range", "bytes=" ++ pretty start ++ "-" ++ pretty stop)%string] | None => [] end
     ++ match if_none_match with Some inm => [("If-None-Match"%string, inm)] | None => [] end)
    [] (fun s => (s =? 304) || is_success s) "get".

(** The [PutOutcome] is its entity tag. *)
Definition put (client : WebDavClient) (draws : list Z * list Z) (path : string) (content : list Z)
    (if_match : option string) : prog W (Error + option string) :=
  let! response := request client draws path (lit "PUT")
    (match if_match with Some etag => [("If-Match"%string, quote_etag etag)] | None => [] end) content is_success "put" in
  Ret (match response with inl e => inl e | inr response => inr (normalise_etag_header <$> etag_header response) end).

Definition discard (r : Error + Response) : Error + unit := match r with inl e => inl e | inr _ => inr tt end.

Definition delete (client : WebDavClient) (draws : list Z * list Z) (path : string) : prog W (Error + unit) :=
  let! response := request client draws path (lit "DELETE") [] [] is_success "delete" in Ret (discard response).

Definition mkcol (client : WebDavClient) (draws : list Z * list Z) (path : string) : prog W (Error + unit) :=
  let! response := request client draws path (lit "MKCOL") [] [] is_success "mkcol" in Ret (discard response).

(** [to_text] is [Url::as_str]. *)
Definition move_resource (to_text : U -> string) (client : WebDavClient) (draws : list Z * list Z) (from to : string)
    (overwrite : bool) : prog W (Error + unit) :=
  match join client from with
  | inl e => Ret (inl e)
  | inr _ =>
      match join client to with
      | inl e => Ret (inl e)
      | inr to_url =>
          match header_error (U := U) (R := R) (chars_of (to_text to_url)) with
          | Some e => Ret (inl (WebDavErr ("move destination header: " ++ e)%string))
          | None =>
              let! response := request client draws from (lit "MOVE")
                [("Destination"%string, to_text to_url); ("Overwrite"%string, if overwrite then "T"%string else "F"%string)]
                [] is_success "move" in
              Ret (discard response)
          end
      end
  end.

End Client.
End Client.

(** ** Where the requests go *)
Section Safety.
Context {U R : Type} `{Url U} `{Http U R}.
Variable md5 : chars -> list Z.
Variable base64 : list Z -> chars.
Implicit Types (client : WebDavClient U) (w : Wire R).

(** The verbs a caller has. *)
Inductive operation :=
| Get (path : string) (range : option (Z * Z)) (if_none_match : option string)
| Put (path : string) (content : list Z) (if_match : option string)
| Delete (path : string)
| Mkcol (path : string)
| Move (from to : string) (overwrite : bool).

Definition perform (to_text : U -> string) client (draws : list Z * list Z) (o : operation) : prog (Wire R) (option Error) :=
  let error {A} (r : Error + A) : option Error := match r with inl e => Some e | inr _ => None end in
  match o with
  | Get path range inm => pbind (Client.get md5 base64 client draws path range inm) (fun r => Ret (error r))
  | Put path b im => pbind (Client.put md5 base64 client draws path b im) (fun r => Ret (error r))
  | Delete path => pbind (Client.delete md5 base64 client draws path) (fun r => Ret (error r))
  | Mkcol path => pbind (Client.mkcol md5 base64 client draws path) (fun r => Ret (error r))
  | Move from to o => pbind (Client.move_resource md5 base64 to_text client draws from to o) (fun r => Ret (error r))
  end.

(** A value the credentials account for: their Basic or Bearer header, or a Digest response to
    some challenge. *)
Definition stamped client (v : chars) : Prop :=
  Auth.header_value_basic_or_bearer base64 (creds client) = inr v \/
  (method (creds client) = Digest /\
   exists verb uri cnonce st, (Auth.build_response md5 (creds client) verb uri cnonce st).1 = inr v).

(** A request to the origin of the base URL; the credentials travel in the one header. *)
Definition permitted client (req : HttpRequest U) : Prop :=
  Client.same_origin (url req) (base_url client) = true /\ forall v, authorization req = Some v -> stamped client v.

(** The call left the network alone or handed reqwest one permitted request. *)
Definition sends client w w' : Prop :=
  net w' = net w \/ exists req, permitted client req /\ net w' = (http_send (redirects client) req (net w)).2.

Definition accounted client (r : Error + option chars) : Prop := forall v, r = inr (Some v) -> stamped client v.

Lemma header_value_inv v r : Client.header_value (U := U) (R := R) v = r -> forall x, r = inr (Some x) -> x = v.
Proof. unfold Client.header_value. destruct (header_error v); intros <-; [done|]. by intros x [= ->]. Qed.

Lemma apply_auth_produces client draw verb u :
  produces (accounted client) (Client.apply_auth md5 base64 client draw verb u).
Proof.
  unfold Client.apply_auth. destruct (method (creds client)) eqn:Hm.
  1,3: constructor; unfold accounted; intros v; destruct (Auth.header_value_basic_or_bearer _ _) as [e|x] eqn:Hx; [done|].
  1,2: intros Hv; apply (header_value_inv x _ eq_refl) in Hv as ->; by left.
  apply (produces_bind (fun _ => True)); [by apply produces_call|]. intros has _. destruct (negb has); [by constructor|].
  apply (produces_bind (fun h => forall v, h = inr v -> stamped client v)).
  - apply produces_call. intros w v.
    destruct (Auth.build_response md5 (creds client) verb _ _ (digest w)) as [x st] eqn:Hx. cbn. intros ->.
    right. split; [done|]. do 3 eexists. exists (digest w). by rewrite Hx.
  - intros [e|v] Hv; constructor; [done|]. unfold accounted.
    intros x Hx. apply (header_value_inv v _ eq_refl) in Hx as ->. by apply Hv.
Qed.

Lemma apply_auth_silent client draw verb u :
  each_call (sends client) (Client.apply_auth md5 base64 client draw verb u).
Proof.
  unfold Client.apply_auth. destruct (method (creds client)); [constructor| |constructor].
  apply each_call_bind; [apply each_call_call; by left|]. intros has. destruct (negb has); [constructor|].
  apply each_call_bind; [|constructor]. apply each_call_call. intros w. destruct (Auth.build_response _ _ _ _ _ _). by left.
Qed.

Lemma exchange_sends client req : permitted client req -> each_call (sends client) (Client.exchange client req).
Proof.
  intros Hr. apply each_call_call. intros w. right. exists req. split; [done|]. by destruct (http_send _ req (net w)).
Qed.

Lemma send_stays client draws verb u headers content :
  Client.same_origin u (base_url client) = true ->
  each_call (sends client) (Client.send md5 base64 client draws verb u headers content).
Proof.
  intros Hu.
  apply (each_call_bind_of _ _ _ _ (apply_auth_silent _ _ _ _) (apply_auth_produces _ _ _ _)).
  intros [e|auth] Ha; [constructor|]. apply each_call_bind.
  { apply exchange_sends. split; [done|]. intros v Hv. by apply Ha; f_equal. }
  intros [e|resp]; [constructor|]. destruct (_ && _); [|constructor]. destruct (_ ≫= _) as [parsed|]; [|constructor].
  apply each_call_bind; [apply each_call_call; by left|]. intros [].
  apply (each_call_bind_of _ _ _ _ (apply_auth_silent _ _ _ _) (apply_auth_produces _ _ _ _)).
  intros [e|auth'] Ha'; [constructor|]. apply each_call_bind; [|constructor].
  apply exchange_sends. split; [done|]. intros v Hv. by apply Ha'; f_equal.
Qed.

Lemma join_origin client path u : Client.join client path = inr u -> Client.same_origin u (base_url client) = true.
Proof.
  unfold Client.join. destruct (url_join _ _) as [e|r]; [done|]. destruct (Client.same_origin r _) eqn:Hs; cbn; [|done].
  by intros [= <-].
Qed.

Lemma request_stays client draws path verb headers content fine label :
  each_call (sends client) (Client.request md5 base64 client draws path verb headers content fine label).
Proof.
  unfold Client.request. destruct (Client.join client path) as [e|u] eqn:Hj; [constructor|].
  apply each_call_bind; [apply send_stays; by eapply join_origin|]. constructor.
Qed.

(** C28. No request of a caller is addressed outside the configured server.  Whatever paths a
    caller passes on, the absolute references a hostile server put into its answers included, and
    whatever else the clones of a client do in between, every request a verb hands to reqwest is
    addressed to the origin of the base URL, and what it carries for authorization is the Basic or
    Bearer header of the credentials or a Digest response.  Where reqwest goes on to when a
    server redirects it is not said: its policy bounds the number of redirects, not their
    targets. *)
Theorem requests_stay_on_origin env to_text client draws o w :
  Forall (fun ss => sends client ss.1 ss.2) (calls env (perform to_text client draws o) w).
Proof.
  apply each_call_calls. destruct o as [path range inm|path b im|path|path|from to o]; unfold perform.
  - apply each_call_bind; [apply request_stays|constructor].
  - apply each_call_bind; [|constructor]. apply each_call_bind; [apply request_stays|constructor].
  - apply each_call_bind; [|constructor]. apply each_call_bind; [apply request_stays|constructor].
  - apply each_call_bind; [|constructor]. apply each_call_bind; [apply request_stays|constructor].
  - apply each_call_bind; [|constructor]. unfold Client.move_resource.
    destruct (Client.join client from); [constructor|]. destruct (Client.join client to); [constructor|].
    destruct (header_error _); [constructor|]. apply each_call_bind; [apply request_stays|constructor].
Qed.

End Safety.

(** ** Reasoning about a verb *)
Section Rules.
Context {U R : Type} `{Url U} `{Http U R}.
Variable md5 : chars -> list Z.
Variable base64 : list Z -> chars.
Implicit Types (client : WebDavClient U) (w : Wire R).

(** A verb's calls touch the network only through its own request. *)
Lemma request_calls (P : Wire R -> Wire R -> Prop) client draws path vb headers content fine label :
  (forall w w', net w' = net w -> P w w') ->
  (forall u auth w, Client.join client path = inr u ->
     P w (mkWire (digest w) (http_send (redirects client) (mkRequest vb u auth headers content) (net w)).2)) ->
  each_call P (Client.request md5 base64 client draws path vb headers content fine label).
Proof.
  intros Hs He. unfold Client.request. destruct (Client.join client path) as [e|u] eqn:Hj; [constructor|].
  assert (Ha : forall draw, each_call P (Client.apply_auth md5 base64 client draw vb u)).
  { intros draw. unfold Client.apply_auth. destruct (method (creds client)); [constructor| |constructor].
    apply each_call_bind; [apply each_call_call; intros w; by apply Hs|]. intros has. destruct (negb has); [constructor|].
    apply each_call_bind; [|constructor]. apply each_call_call. intros w. apply Hs. by destruct (Auth.build_response _ _ _ _ _ _). }
  assert (Hx : forall auth, each_call P (Client.exchange client (mkRequest vb u auth headers content))).
  { intros auth. apply each_call_call. intros w. specialize (He u auth w eq_refl). by destruct (http_send _ _ _). }
  apply each_call_bind; [|constructor]. unfold Client.send. apply each_call_bind; [apply Ha|]. intros [e|auth]; [constructor|].
  apply each_call_bind; [apply Hx|]. intros [e|resp]; [constructor|]. destruct (_ && _); [|constructor].
  destruct (_ ≫= _) as [parsed|]; [|constructor].
  apply each_call_bind; [apply each_call_call; intros w; by apply Hs|]. intros [].
  apply each_call_bind; [apply Ha|]. intros [e|auth']; [constructor|]. apply each_call_bind; [apply Hx|constructor].
Qed.

Lemma exchange_run client req w :
  run (Client.exchange client req) w =
    ((http_send (redirects client) req (net w)).1, mkWire (digest w) (http_send (redirects client) req (net w)).2).
Proof. unfold Client.exchange. rewrite run_call. by destruct (http_send _ req (net w)). Qed.

Lemma apply_auth_net client draw vb u w : net (run (Client.apply_auth md5 base64 client draw vb u) w).2 = net w.
Proof.
  unfold Client.apply_auth. destruct (method (creds client)); [done| |done]. rewrite run_bind, run_call. destruct (negb _); [done|].
  rewrite run_bind, run_call. by destruct (Auth.build_response _ _ _ _ _ _).
Qed.

(** What an undisturbed verb returns, for a property [Pre] of the network its exchanges keep. *)
Lemma request_wp (Pre : R -> Prop) client draws path vb headers content fine label (Q : Error + Response -> Wire R -> Prop) w :
  Pre (net w) ->
  (forall u auth r, Client.join client path = inr u -> Pre r -> Pre (http_send (redirects client) (mkRequest vb u auth headers content) r).2) ->
  (forall e w', Pre (net w') -> Q (inl e) w') ->
  (forall u auth r resp d, Client.join client path = inr u -> Pre r ->
     (http_send (redirects client) (mkRequest vb u auth headers content) r).1 = inr resp -> fine (status resp) = true ->
     Q (inr resp) (mkWire d (http_send (redirects client) (mkRequest vb u auth headers content) r).2)) ->
  wp (Client.request md5 base64 client draws path vb headers content fine label) Q w.
Proof.
  intros Hw Hk He Hq. unfold Client.request. destruct (Client.join client path) as [e|u] eqn:Hj; [by apply wp_ret, He|].
  assert (Hend : forall auth r d, Pre r ->
    let '(x, r') := http_send (redirects client) (mkRequest vb u auth headers content) r in
    forall e, Q (match x with
       | inl _ => inl e
       | inr resp => if fine (status resp) then inr resp else inl (Client.map_status_error (U := U) (R := R) (status resp) label)
       end) (mkWire d r')).
  { intros auth r d Hr. specialize (Hk u auth r eq_refl Hr). specialize (Hq u auth r).
    destruct (http_send _ _ r) as [[x|resp] r']; cbn [fst snd] in *; intros e; [by apply He|].
    destruct (fine (status resp)) eqn:Hf; [by apply Hq|by apply He]. }
  apply wp_bind. unfold wp, Client.send. rewrite run_bind. pose proof (apply_auth_net client draws.1 vb u w) as Hn.
  destruct (run (Client.apply_auth _ _ _ _ _ _) w) as [[e|auth] w1]; cbn [snd] in Hn; [cbn; apply He; by rewrite Hn|].
  rewrite run_bind, exchange_run. rewrite <-Hn in Hw. pose proof (Hk u auth _ eq_refl Hw) as Hw1.
  pose proof (Hend auth (net w1) (digest w1) Hw) as Hend1.
  destruct (http_send _ _ (net w1)) as [[e|resp] r1]; cbn [fst snd] in *; [by apply Hend1|].
  destruct (_ && _); [|apply (Hend1 (WebDavErr ""))].
  destruct (_ ≫= _) as [parsed|]; [|by apply He]. rewrite run_bind, run_call, run_bind.
  pose proof (apply_auth_net client draws.2 vb u (mkWire (Auth.set_challenge parsed (digest w1)) r1)) as Hn2.
  cbn [digest net]. destruct (run (Client.apply_auth _ _ _ _ _ _) _) as [[e|auth'] w2]; cbn [snd net] in Hn2; [cbn; apply He; by rewrite Hn2|].
  rewrite run_bind, exchange_run. pose proof (Hend auth' (net w2) (digest w2)) as Hend2. rewrite Hn2 in *. specialize (Hend2 Hw1).
  destruct (http_send _ _ r1) as [[e|resp2] r2]; [by apply Hend2|]. apply (Hend2 (WebDavErr "")).
Qed.
End Rules.

(** ** The pairs of a challenge *)

Lemma trim_start_length p s : (length (trim_start_by p s) <= length s)%nat.
Proof. induction s as [|c s IH]; cbn; [done|]. destruct (p c); cbn; lia. Qed.

Lemma span_length stop s : (length (Auth.span stop s).2 <= length s)%nat.
Proof.
  induction s as [|c s IH]; cbn; [done|]. destruct (stop c); [done|]. destruct (Auth.span stop s). cbn in *. lia.
Qed.

Lemma quoted_span_length n s : (length s <= n)%nat -> (length (Auth.quoted_span s).2 <= length s)%nat.
Proof.
  revert s. induction n as [|n IH]; intros [|c s] Hn; cbn in *; try lia.
  destruct (c =? quote); [done|]. destruct (c =? 92).
  - destruct s as [|d s]; cbn in *; [lia|]. specialize (IH s). destruct (Auth.quoted_span s). cbn in *. lia.
  - specialize (IH s). destruct (Auth.quoted_span s). cbn in *. lia.
Qed.

Lemma scan_value_length s : (length (Auth.scan_value s).2 <= length s)%nat.
Proof.
  assert (Ht : forall s, (length (Auth.scan_token_value s).2 <= length s)%nat).
  { intros t. unfold Auth.scan_token_value. pose proof (span_length (fun c => c =? comma) t). by destruct (Auth.span _ t). }
  destruct s as [|c s]; [apply Ht|]. unfold Auth.scan_value. destruct (c =? quote); [|apply Ht].
  unfold Auth.scan_quoted_value. pose proof (quoted_span_length _ s (le_n _)).
  destruct (Auth.quoted_span s) as [v [|x r]]; cbn in *; lia.
Qed.

Lemma skip_separators_head s c r : Auth.skip_separators s = c :: r -> Auth.is_separator c = false.
Proof.
  unfold Auth.skip_separators. induction s as [|d s IH]; cbn; [done|].
  destruct (Auth.is_separator d) eqn:Hd; [done|]. by intros [= -> ->].
Qed.

(** The fuel of the pair loop does not matter once it exceeds the length of the text. *)
Lemma auth_pairs_fuel n m out s : (length s < n)%nat -> (length s < m)%nat ->
  Auth.auth_pairs n out s = Auth.auth_pairs m out s.
Proof.
  revert m out s. induction n as [|n IH]; intros [|m] out s Hn Hm; try lia. cbn.
  destruct (Auth.skip_separators s) as [|c t] eqn:Hs; [done|].
  pose proof (trim_start_length Auth.is_separator s) as Hl. fold (Auth.skip_separators s) in Hl. rewrite Hs in Hl. cbn in Hl.
  unfold Auth.scan_key. pose proof (span_length (fun c => (c =? 61) || (c =? comma)) t) as Hk. cbn.
  assert (Hsep := skip_separators_head _ _ _ Hs). destruct ((c =? 61) || (c =? comma)) eqn:Hstop.
  - assert (Hc : (c =? 61) = true).
    { destruct (c =? 61); [done|]. cbn in Hstop. unfold Auth.is_separator in Hsep. by rewrite Hstop, orb_true_r in Hsep. }
    rewrite Hc. cbn. pose proof (scan_value_length t). destruct (Auth.scan_value t) as [v a]. apply IH; cbn in *; lia.
  - destruct (Auth.span _ t) as [key [|d r]]; [done|]. cbn in *. destruct (d =? 61).
    + pose proof (scan_value_length r). destruct (Auth.scan_value r) as [v a]. apply IH; cbn in *; lia.
    + apply IH; cbn; lia.
Qed.

(** What a quoted value and a token may hold, and a key. *)
Definition quotable (s : chars) : Prop := free (fun c => (c =? quote) || (c =? 92)) s.
Definition token (s : chars) : Prop := free (fun c => Auth.is_separator c || (c =? quote) || is_whitespace c) s.
Definition key_text (s : chars) : Prop := s <> [] /\ free (fun c => (c =? 61) || Auth.is_separator c || is_whitespace c) s /\ to_ascii_lowercase s = s.

Lemma span_app stop a r : free stop a -> match r with [] => True | c :: _ => stop c = true end -> Auth.span stop (a ++ r) = (a, r).
Proof.
  intros Ha Hr. induction Ha as [|c a Hc _ IH]; cbn; [|by rewrite Hc, IH]. destruct r as [|c r]; [done|]. cbn. by rewrite Hr.
Qed.

Lemma quoted_span_app v r : quotable v -> Auth.quoted_span (v ++ quote :: r) = (v, quote :: r).
Proof.
  induction 1 as [|c v Hc _ IH]; [done|]. apply orb_false_iff in Hc as [H1 H2]. cbn [app Auth.quoted_span].
  by rewrite H1, H2, IH.
Qed.

Lemma trim_token s : token s -> trim s = s.
Proof. intros Hs. apply trim_free. eapply free_weaken; [|exact Hs]. intros c Hc. cbn. by rewrite Hc, orb_true_r. Qed.

Lemma key_head k r : key_text k -> Auth.skip_separators (k ++ r) = k ++ r.
Proof.
  intros (Hn & Hf & _). destruct k as [|c k]; [done|]. apply Forall_cons in Hf as [Hc _]. unfold Auth.skip_separators. cbn.
  apply orb_false_iff in Hc as [Hc _]. apply orb_false_iff in Hc as [_ Hc]. by rewrite Hc.
Qed.

Lemma scan_key_text k r : key_text k -> Auth.scan_key (k ++ 61 :: r) = (k, 61 :: r).
Proof.
  intros (Hn & Hf & Hl). unfold Auth.scan_key. rewrite span_app; [|eapply free_weaken; [|exact Hf]|done].
  - f_equal. rewrite trim_free; [done|]. eapply free_weaken; [|exact Hf]. intros c Hc. cbn. by rewrite Hc, orb_true_r.
  - intros c [Hc|Hc]%orb_true_iff; cbn; [by rewrite Hc|]. unfold Auth.is_separator. by rewrite Hc, !orb_true_r.
Qed.

(** One pair at the head of the text. *)
Lemma pairs_step k v after s out :
  key_text k -> Auth.scan_value s = (v, after) -> (length after <= length s)%nat ->
  Auth.auth_pairs (S (length (k ++ 61 :: s))) out (k ++ 61 :: s) = Auth.auth_pairs (S (length after)) (<[k := v]> out) after.
Proof.
  intros Hk Hv Hl. transitivity (Auth.auth_pairs (length (k ++ 61 :: s)) (<[k := v]> out) after).
  - cbn [Auth.auth_pairs]. rewrite key_head by done.
    destruct (k ++ 61 :: s) as [|c t] eqn:Hkt; [by destruct k|]. rewrite <-Hkt, scan_key_text by done.
    change (61 =? 61) with true. cbn iota. rewrite Hv. destruct k as [|x k']; [by destruct (proj1 Hk)|]. done.
  - apply auth_pairs_fuel; [|lia]. rewrite length_app. cbn. destruct k; [by destruct (proj1 Hk)|]. cbn. lia.
Qed.

Lemma pairs_quoted k v r out : key_text k -> quotable v ->
  Auth.auth_pairs (S (length (Auth.quoted k v ++ r))) out (Auth.quoted k v ++ r) = Auth.auth_pairs (S (length r)) (<[k := v]> out) r.
Proof.
  intros Hk Hv. unfold Auth.quoted. replace ((k ++ [61; quote] ++ v ++ [quote]) ++ r) with (k ++ 61 :: quote :: v ++ quote :: r)
    by (by rewrite <-!app_assoc).
  apply pairs_step; [done| |cbn; rewrite !length_app; cbn; lia]. unfold Auth.scan_value, Auth.scan_quoted_value.
  change (quote =? quote) with true. cbn iota. by rewrite quoted_span_app.
Qed.

Lemma pairs_token k v r out : key_text k -> token v -> match r with [] => True | c :: _ => c = comma end ->
  Auth.auth_pairs (S (length (k ++ 61 :: v ++ r))) out (k ++ 61 :: v ++ r) = Auth.auth_pairs (S (length r)) (<[k := v]> out) r.
Proof.
  intros Hk Hv Hr. apply pairs_step; [done| |rewrite length_app; lia].
  assert (Ht : Auth.scan_token_value (v ++ r) = (v, r)).
  { unfold Auth.scan_token_value. rewrite span_app; [by rewrite trim_token| |by destruct r as [|c r]; [|subst c]].
    eapply free_weaken; [|exact Hv]. intros c Hc. unfold Auth.is_separator. by rewrite Hc, !orb_true_r. }
  unfold Auth.scan_value. destruct v as [|c v]; cbn [app].
  - destruct r as [|c r]; [done|]. by subst c.
  - apply Forall_cons in Hv as [Hc _]. apply orb_false_iff in Hc as [Hc _]. apply orb_false_iff in Hc as [_ Hc]. by rewrite Hc.
Qed.

Lemma pairs_sep r out :
  Auth.auth_pairs (S (length (Auth.sep ++ r))) out (Auth.sep ++ r) = Auth.auth_pairs (S (length r)) out r.
Proof.
  transitivity (Auth.auth_pairs (S (length (Auth.sep ++ r))) out r); [done|]. apply auth_pairs_fuel; cbn; lia.
Qed.

(** ** A Digest login *)
Section Login.
Context {U R : Type} `{Url U} `{Http U R}.
Variable md5 : chars -> list Z.
Variable base64 : list Z -> chars.
Hypothesis md5_bytes : forall s, Forall (fun b => 0 <= b < 256) (md5 s).
Implicit Types (client : WebDavClient U) (w : Wire R).

(** What a server computes from the account and the request, by RFC 7616, section 3.4.1. *)
Definition rfc_response (user pw : chars) (ch : DigestChallenge) (verb uri : chars) (m : gmap chars chars) : option chars :=
  let ha1 := Auth.md5_hex md5 (user ++ Auth.colon ++ realm ch ++ Auth.colon ++ pw) in
  let ha2 := Auth.md5_hex md5 (verb ++ Auth.colon ++ uri) in
  match qop ch with
  | None => Some (Auth.md5_hex md5 (ha1 ++ Auth.colon ++ nonce ch ++ Auth.colon ++ ha2))
  | Some _ =>
      nc ← m !! lit "nc"; cnonce ← m !! lit "cnonce"; q ← m !! lit "qop";
      Some (Auth.md5_hex md5 (ha1 ++ Auth.colon ++ nonce ch ++ Auth.colon ++ nc ++ Auth.colon ++ cnonce ++ Auth.colon
                              ++ q ++ Auth.colon ++ ha2))
  end.

(** The check of the [Authorization] field against a challenge the server issued. *)
Definition verifies (user pw : chars) (ch : DigestChallenge) (req : HttpRequest U) : bool :=
  match authorization req ≫= Auth.strip_prefix (lit "Digest ") with
  | None => false
  | Some rest =>
      let m := Auth.parse_auth_pairs rest in
      bool_decide (m !! lit "username" = Some user /\ m !! lit "realm" = Some (realm ch) /\
                   m !! lit "nonce" = Some (nonce ch) /\ m !! lit "opaque" = opaque ch /\
                   m !! lit "uri" = Some (Client.uri_path_and_query (url req)) /\
                   is_Some (m !! lit "response") /\
                   m !! lit "response" = rfc_response user pw ch (verb req) (Client.uri_path_and_query (url req)) m)
  end.

(** A challenge the client can answer. *)
Definition answerable (ch : DigestChallenge) : Prop :=
  to_ascii_uppercase (algorithm ch) = lit "MD5" /\ quotable (realm ch) /\ quotable (nonce ch) /\
  forall o, opaque ch = Some o -> quotable o.

Definition hex_char (c : Z) : Prop := 48 <= c <= 57 \/ 97 <= c <= 102.

Lemma hex_byte_chars b : 0 <= b < 256 -> Forall hex_char (hex_byte b).
Proof.
  intros Hb. unfold hex_byte, hex_char. assert (0 <= b / 16 < 16) by (Z.to_euclidean_division_equations; lia).
  pose proof (Z.mod_pos_bound b 16). repeat (apply Forall_cons_2); [case_match; lia|case_match; lia|apply Forall_nil_2].
Qed.

Lemma hex_bytes_chars l : Forall (fun b => 0 <= b < 256) l -> Forall hex_char (l ≫= hex_byte).
Proof.
  induction 1 as [|b l Hb _ IH]; cbn [mbind list_bind]; [apply Forall_nil_2|]. by apply Forall_app_2; [apply hex_byte_chars|].
Qed.

Lemma hex_free (p : Z -> bool) s : Forall hex_char s -> (forall c, hex_char c -> p c = false) -> free p s.
Proof. intros Hs Hp. exact (Forall_impl _ _ _ Hs Hp). Qed.

Lemma hex_quotable s : Forall hex_char s -> quotable s.
Proof. intros Hs. apply (hex_free _ _ Hs). unfold hex_char, quote. intros c Hc. lia. Qed.

Lemma hex_token s : Forall hex_char s -> token s.
Proof.
  intros Hs. apply (hex_free _ _ Hs). unfold hex_char, Auth.is_separator, is_whitespace, Utf8.within, comma, quote.
  intros c Hc. lia.
Qed.

Lemma hex8_chars n : Forall hex_char (Auth.hex8 n).
Proof.
  unfold Auth.hex8. cbn [mbind list_bind]. repeat apply Forall_app_2; try apply Forall_nil_2; apply hex_byte_chars, Z.mod_pos_bound; lia.
Qed.

Lemma lower_token s t : to_ascii_lowercase s = t -> Forall (fun c => 97 <= c <= 122) t -> token s.
Proof.
  intros <-. unfold to_ascii_lowercase. rewrite Forall_fmap. intros Hs. apply (Forall_impl _ _ _ Hs). intros c. cbn.
  unfold Auth.is_separator, is_whitespace, Utf8.within, comma, quote. destruct ((65 <=? c) && (c <=? 90)) eqn:E; lia.
Qed.

Lemma choose_qop_token q : token (Auth.choose_qop q).
Proof.
  unfold Auth.choose_qop. destruct (find _ _) as [s|] eqn:Hf; cbn [default]; [|apply (bool_decide_unpack _); by vm_compute].
  apply find_some in Hf as [_ Hs]. apply bool_decide_eq_true in Hs. eapply (lower_token s _ Hs), (bool_decide_unpack _). by vm_compute.
Qed.

Lemma strip_prefix_app p s : Auth.strip_prefix p (p ++ s) = Some s.
Proof. unfold Auth.strip_prefix. rewrite take_app_length, drop_app_length. by rewrite bool_decide_true. Qed.


(** The fields every answer starts with, and their map. *)
Definition common_fields (user realm nonce uri response : chars) (r : chars) : chars :=
  Auth.quoted (lit "username") user ++ Auth.sep ++ Auth.quoted (lit "realm") realm ++ Auth.sep
  ++ Auth.quoted (lit "nonce") nonce ++ Auth.sep ++ Auth.quoted (lit "uri") uri ++ Auth.sep
  ++ (lit "algorithm" ++ 61 :: lit "MD5" ++ (Auth.sep ++ Auth.quoted (lit "response") response ++ r)).

Definition common_map (user realm nonce uri response : chars) : gmap chars chars :=
  <[lit "response" := response]> (<[lit "algorithm" := lit "MD5"]> (<[lit "uri" := uri]> (<[lit "nonce" := nonce]>
    (<[lit "realm" := realm]> {[lit "username" := user]})))).

#[local] Ltac key_text := split_and!; [discriminate|apply (bool_decide_unpack _); by vm_compute|reflexivity].

Lemma pairs_common user realm nonce uri response r :
  quotable user -> quotable realm -> quotable nonce -> quotable uri -> quotable response ->
  Auth.parse_auth_pairs (common_fields user realm nonce uri response r) =
  Auth.auth_pairs (S (length r)) (common_map user realm nonce uri response) r.
Proof.
  intros Hu Hr Hn Huri Hresp. unfold Auth.parse_auth_pairs, common_fields, common_map.
  do 4 (rewrite pairs_quoted by first [done|key_text]; rewrite pairs_sep).
  rewrite pairs_token by first [done|key_text|apply (bool_decide_unpack _); by vm_compute]. rewrite pairs_sep.
  by rewrite pairs_quoted by first [done|key_text].
Qed.

(** The fields of a challenge with [qop]. *)
Definition qop_fields (chosen nc cnonce : chars) (r : chars) : chars :=
  Auth.sep ++ (lit "qop" ++ 61 :: chosen ++ (Auth.sep ++ (lit "nc" ++ 61 :: nc ++ (Auth.sep ++ Auth.quoted (lit "cnonce") cnonce ++ r)))).

Lemma qop_fields_app chosen nc cnonce r :
  (Auth.sep ++ lit "qop=" ++ chosen ++ Auth.sep ++ lit "nc=" ++ nc ++ Auth.sep ++ Auth.quoted (lit "cnonce") cnonce) ++ r =
  qop_fields chosen nc cnonce r.
Proof. unfold qop_fields. by rewrite <-!app_assoc. Qed.

Lemma pairs_qop out chosen nc cnonce r : token chosen -> token nc -> quotable cnonce ->
  Auth.auth_pairs (S (length (qop_fields chosen nc cnonce r))) out (qop_fields chosen nc cnonce r) =
  Auth.auth_pairs (S (length r)) (<[lit "cnonce" := cnonce]> (<[lit "nc" := nc]> (<[lit "qop" := chosen]> out))) r.
Proof.
  intros Hc Hn Hq. unfold qop_fields. rewrite pairs_sep, pairs_token, pairs_sep, pairs_token, pairs_sep, pairs_quoted;
    first [done|key_text].
Qed.

Definition opaque_fields (o : option chars) : chars :=
  match o with Some o => Auth.sep ++ Auth.quoted (lit "opaque") o | None => [] end.

Lemma pairs_opaque out o : (forall v, o = Some v -> quotable v) ->
  Auth.auth_pairs (S (length (opaque_fields o))) out (opaque_fields o) =
  match o with Some v => <[lit "opaque" := v]> out | None => out end.
Proof.
  intros Ho. destruct o as [v|]; [|done]. unfold opaque_fields.
  rewrite pairs_sep, <-(app_nil_r (Auth.quoted _ v)), pairs_quoted; [done|key_text|by apply Ho].
Qed.

Lemma md5_hex_chars s : Forall hex_char (Auth.md5_hex md5 s).
Proof. apply hex_bytes_chars, md5_bytes. Qed.

#[local] Ltac lookups := repeat first [rewrite lookup_insert_eq|rewrite lookup_insert_ne by (vm_compute; discriminate)].

(** The answer as its fields. *)
Lemma build_response_fields creds verb uri cnonce ch n v st :
  to_ascii_uppercase (algorithm ch) = lit "MD5" -> Auth.build_response md5 creds verb uri cnonce (Some (ch, n)) = (inr v, st) ->
  let user := default [] (username creds) in
  let ha1 := Auth.md5_hex md5 (user ++ Auth.colon ++ realm ch ++ Auth.colon ++ password_or_token creds) in
  let ha2 := Auth.md5_hex md5 (verb ++ Auth.colon ++ uri) in
  v = lit "Digest " ++
    match qop ch with
    | None =>
        common_fields user (realm ch) (nonce ch) uri (Auth.md5_hex md5 (ha1 ++ Auth.colon ++ nonce ch ++ Auth.colon ++ ha2))
          (opaque_fields (opaque ch))
    | Some q =>
        let chosen := Auth.choose_qop q in let nc := Auth.hex8 (n + 1) in
        common_fields user (realm ch) (nonce ch) uri
          (Auth.md5_hex md5 (ha1 ++ Auth.colon ++ nonce ch ++ Auth.colon ++ nc ++ Auth.colon ++ cnonce ++ Auth.colon ++ chosen ++ Auth.colon ++ ha2))
          (qop_fields chosen nc cnonce (opaque_fields (opaque ch)))
    end.
Proof.
  intros Ha. unfold Auth.build_response. destruct (n =? _); [done|]. rewrite Ha, bool_decide_true by done. cbn [negb].
  fold (opaque_fields (opaque ch)). destruct (qop ch) as [q|]; intros Hv; apply (f_equal fst) in Hv; cbn [fst] in Hv;
    apply (inj inr) in Hv; rewrite <-Hv; cbv zeta; [|reflexivity].
  by rewrite qop_fields_app.
Qed.

(** A client's answer to an answerable challenge passes the server's check. *)
Lemma response_verifies client vb u cnonce ch n user pw headers content v st :
  username (creds client) = Some user -> password_or_token (creds client) = pw -> quotable user ->
  quotable (Client.uri_path_and_query u) -> quotable cnonce -> answerable ch ->
  Auth.build_response md5 (creds client) vb (Client.uri_path_and_query u) cnonce (Some (ch, n)) = (inr v, st) ->
  verifies user pw ch (mkRequest vb u (Some v) headers content) = true.
Proof.
  intros Hu Hp Hqu Hquri Hqc (Ha & Hr & Hn & Ho) Hv. apply build_response_fields in Hv; [|done].
  rewrite Hu, Hp in Hv. cbn [default] in Hv. unfold verifies, authorization. rewrite Hv. cbn [mbind option_bind].
  rewrite strip_prefix_app. cbv zeta. apply bool_decide_eq_true_2. unfold rfc_response. destruct (qop ch) as [q|].
  - rewrite pairs_common by (try done; apply hex_quotable, md5_hex_chars).
    rewrite pairs_qop by (first [done|apply choose_qop_token|apply hex_token, hex8_chars]).
    rewrite pairs_opaque by done. unfold common_map.
    destruct (opaque ch) as [o|]; cbn [url verb]; lookups; cbn [mbind option_bind]; lookups; split_and!; try done.
    all: first [by rewrite lookup_singleton_eq|by rewrite lookup_singleton_ne by (vm_compute; discriminate)].
  - rewrite pairs_common by (try done; apply hex_quotable, md5_hex_chars). rewrite pairs_opaque by done. unfold common_map.
    destruct (opaque ch) as [o|]; cbn [url verb]; lookups; split_and!; try done.
    all: first [by rewrite lookup_singleton_eq|by rewrite lookup_singleton_ne by (vm_compute; discriminate)].
Qed.

(** A server that refuses only requests it cannot verify and always asks a question the client
    can answer: [current] are the challenges it honours. *)
Definition refuses_only_strangers (user pw : chars) (current : R -> DigestChallenge -> Prop) : Prop :=
  forall n (req : HttpRequest U) r resp, (http_send n req r).1 = inr resp -> status resp = 401 ->
    (forall ch, current r ch -> verifies user pw ch req = false) /\
    exists h ch, www_authenticate resp = Some h /\ Auth.parse h = Some ch /\ answerable ch /\ current (http_send n req r).2 ch.

Lemma random_cnonce_quotable draw : Forall (fun b => 0 <= b < 256) draw -> quotable (Client.random_cnonce draw).
Proof. intros Hd. by apply hex_quotable, hex_bytes_chars. Qed.

(** The second attempt: the challenge just stored is answered. *)
Lemma fresh_auth client draw vb u ch r user pw headers content :
  method (creds client) = Digest -> username (creds client) = Some user -> password_or_token (creds client) = pw ->
  quotable user -> quotable (Client.uri_path_and_query u) -> Forall (fun b => 0 <= b < 256) draw -> answerable ch ->
  (forall v, header_error (U := U) (R := R) v = None) ->
  exists v st, run (Client.apply_auth md5 base64 client draw vb u) (mkWire (Some (ch, 0)) r) = (inr (Some v), mkWire st r) /\
    verifies user pw ch (mkRequest vb u (Some v) headers content) = true.
Proof.
  intros Hm Hu Hp Hqu Hquri Hd Ha Hok. unfold Client.apply_auth. rewrite Hm, run_bind, run_call. cbn [digest Auth.has_challenge negb].
  rewrite run_bind, run_call. cbn [digest net].
  pose proof (response_verifies client vb u (Client.random_cnonce draw) ch 0 user pw headers content) as Hv.
  assert (Hb : exists v st, Auth.build_response md5 (creds client) vb (Client.uri_path_and_query u) (Client.random_cnonce draw)
                 (Some (ch, 0)) = (inr v, st)).
  { unfold Auth.build_response. cbn [Z.eqb]. destruct Ha as [Ha _]. rewrite bool_decide_true by done.
    change (0 =? 2 ^ 32 - 1) with false. cbn iota. destruct (qop ch); cbn [negb]; by do 2 eexists. }
  destruct Hb as (v & st & Hb). rewrite Hb. exists v, st. cbn [run]. unfold Client.header_value. rewrite Hok.
  split; [done|]. by apply (Hv v st); [..|apply random_cnonce_quotable| |].
Qed.

(** The retry logs in.  Against a server that follows RFC 7616, a Digest client with the right
    account is never answered 401, whatever challenge it still holds: a stale or missing one
    costs the one retry. *)
Theorem digest_login client draws vb u headers content w user pw current resp
    (Hm : method (creds client) = Digest) (Hu : username (creds client) = Some user)
    (Hp : password_or_token (creds client) = pw) (Hqu : quotable user) (Hquri : quotable (Client.uri_path_and_query u))
    (Hd : Forall (fun b => 0 <= b < 256) draws.2) (Hok : forall v, header_error (U := U) (R := R) v = None)
    (Hserver : refuses_only_strangers user pw current)
    (Hrun : (run (Client.send md5 base64 client draws vb u headers content) w).1 = inr resp) :
  status resp <> 401.
Proof.
  revert Hrun. unfold Client.send. rewrite run_bind. destruct (run (Client.apply_auth _ _ _ _ _ _) w) as [[e|auth] w1]; [done|].
  rewrite run_bind, exchange_run. set (req := mkRequest _ _ _ _ _). pose proof (Hserver (redirects client) req (net w1)) as Hs1.
  destruct (http_send _ req (net w1)) as [[e|resp1] r1]; cbn [fst snd] in *; [done|].
  destruct (status resp1 =? 401) eqn:H401; cbn [andb]; [|cbn; intros [= <-]; by apply Z.eqb_neq].
  apply Z.eqb_eq in H401. destruct (Hs1 resp1 eq_refl H401) as (_ & h & ch & Hh & Hparse & Ha & Hcur).
  rewrite bool_decide_true, Hh by done. cbn [mbind option_bind]. rewrite Hparse, run_bind, run_call. cbn [digest net].
  unfold Auth.set_challenge.
  destruct (fresh_auth client draws.2 vb u ch r1 user pw headers content Hm Hu Hp Hqu Hquri Hd Ha Hok) as (v & st & Hauth & Hver).
  rewrite run_bind, Hauth, run_bind, exchange_run. cbn [net]. set (req2 := mkRequest vb u (Some v) headers content) in *.
  pose proof (Hserver (redirects client) req2 r1) as Hs2. destruct (http_send _ req2 r1) as [[e|resp2] r2]; cbn [fst snd run] in *; [done|].
  intros [= <-] Hbad. destruct (Hs2 resp2 eq_refl Hbad) as [Hno _]. by rewrite (Hno ch Hcur) in Hver.
Qed.

End Login.

(** ** A server to log in to *)
Section Demo.

(** URLs are their text; everything lives at one origin but what starts with [http://]. *)
#[local] Instance demo_url : Url string := {
  url_parse s := inr s;
  url_join base path := inr path;
  url_path u := chars_of u;
  url_query _ := None;
  with_path p _ := to_string p;
  origin u := Some (if String.prefix "http://" u then u else "https://dav.example"%string)
}.

Definition demo_md5 (s : chars) : list Z := [Z.of_nat (length s) mod 256; foldr Z.add 0 s mod 256].
Definition demo_base64 (s : list Z) : chars := s.

Definition demo_header : chars :=
  lit "Digest realm=" ++ [quote] ++ lit "files" ++ [quote] ++ lit ", nonce=" ++ [quote] ++ lit "n1" ++ [quote] ++ lit ", qop=auth".
Definition demo_challenge : DigestChallenge := mkChallenge (lit "files") (lit "n1") (Some (lit "auth")) None (lit "MD5") false.

Definition demo_answer (req : HttpRequest string) : Response :=
  if verifies demo_md5 (lit "ann") (lit "pw") demo_challenge req then mkResponse 200 None None (inr [])
  else mkResponse 401 None (Some demo_header) (inr []).

#[local] Instance demo_http : Http string unit := {
  http_send _ req r := (inr (demo_answer req), r);
  canonical_reason _ := None;
  client_error := None;
  header_error _ := None
}.

Definition demo_client : WebDavClient string := mkClient "/"%string Client.MAX_REDIRECTS (mkCredentials Digest (Some (lit "ann")) (lit "pw")).

Lemma demo_md5_bytes s : Forall (fun b => 0 <= b < 256) (demo_md5 s).
Proof. unfold demo_md5. repeat (apply Forall_cons_2; [apply Z.mod_pos_bound; lia|]). apply Forall_nil_2. Qed.

Lemma demo_server_fair : refuses_only_strangers demo_md5 (lit "ann") (lit "pw") (fun (_ : unit) ch => ch = demo_challenge).
Proof.
  intros n req r resp. cbn. unfold demo_answer. destruct (verifies _ _ _ _ req) eqn:Hv; intros [= <-] H401; [done|].
  split; [by intros ch ->|]. exists demo_header, demo_challenge. split_and!; [done|by vm_compute| |done].
  split_and!; try (apply (bool_decide_unpack _); by vm_compute); done.
Qed.

Lemma digest_login_witness :
  let w := mkWire (Some (mkChallenge (lit "files") (lit "stale") (Some (lit "auth")) None (lit "MD5") false, 7)) () in
  exists resp, (run (Client.send demo_md5 demo_base64 demo_client ([1;2;3;4;5;6;7;8], [9;8;7;6;5;4;3;2]) (lit "GET")
                       "/x"%string [] []) w).1 = inr resp /\ status resp <> 401.
Proof.
  intros w. set (p := Client.send _ _ _ _ _ _ _ _). assert (Hr : (run p w).1 = inr (mkResponse 200 None None (inr [])))
    by (vm_compute; reflexivity).
  eexists. split; [exact Hr|]. eapply (digest_login demo_md5 demo_base64 demo_md5_bytes demo_client); [..|exact demo_server_fair|exact Hr].
  all: try reflexivity. all: apply (bool_decide_unpack _); vm_compute; exact I.
Defined.

(** A path a hostile server answered with is refused before anything is sent. *)
Example hostile_reference_is_refused :
  exists e, run (Client.get demo_md5 demo_base64 demo_client ([], []) "http://evil.example/x" None None) (mkWire None ()) =
    (inl (WebDavErr e), mkWire None ()).
Proof. eexists. vm_compute. reflexivity. Qed.

(** A challenge for another algorithm is kept: the client then fails every request by itself. *)
Example unsupported_algorithm_sticks :
  let w := mkWire (Some (mkChallenge (lit "files") (lit "n1") None None (lit "SHA-256") false, 0)) () in
  exists e st, run (Client.get demo_md5 demo_base64 demo_client ([], []) "/x" None None) w = (inl (WebDavErr e), mkWire st ()) /\
    Auth.has_challenge st = true.
Proof. do 2 eexists. vm_compute. done. Qed.

(** A weak tag loses its mark, so the condition sent back is not the tag the server gave. *)
Example weak_tag_is_not_sent_back :
  quote_etag (normalise_etag_header ("W/" ++ to_string [quote; 49; quote])%string) = to_string [quote; 49; quote].
Proof. reflexivity. Qed.

End Demo.
