(* ===== verification/Sync.v ===== *)
(** * Snapshot sync ([sync/service.rs])

    The push and pull verbs over one WebDAV resource, from the conditional requests of the
    client to the configuration they write back.  A verb is a [prog] whose calls are the
    locked sections, the database work and the HTTP exchanges of the source; the client a verb
    builds is its own, so its digest state is carried along by [local].

    The archive component and the merge are the class [Archive], SHA-256 the parameter
    [sha256]. *)
From Stdlib Require Import ZArith Lia.
From stdpp Require Import prelude gmap strings list pretty.
From S2P Require Import Prelude Text Json SecurityConfig Config Prog AtomicFile Codec Secrets MasterPassword ConfigStore WebDav.

Open Scope Z_scope.

Inductive SyncError :=
| Disabled
| ConfigInvalid (detail : string)
| Network (detail : string)
| EtagMismatch
| Unauthorized
| ArchiveFutureVersion (found : Z) (supported : Z).

#[export] Instance SyncError_eq_dec : EqDecision SyncError.
Proof. solve_decision. Defined.

Record SyncStatus := mkStatus {
  s_enabled : bool;
  s_last_pushed_at_ms : Z;
  s_last_pulled_at_ms : Z;
  s_last_error : option string
}.

(** The counters and the errors of a merge. *)
Record MergeOutcome := mkMerge {
  sessions_merged : Z;
  keys_merged : Z;
  tags_merged : Z;
  snippets_merged : Z;
  bookmarks_merged : Z;
  session_tag_edges_merged : Z;
  folder_tag_edges_merged : Z;
  session_snippet_edges_merged : Z;
  errors : list string
}.

Inductive SyncResult :=
| Pushed (bytes : Z) (sha256 : string)
| PullApplied (sessions keys tags snippets bookmarks : Z)
| UpToDate
| Skipped (reason : string).

(** [str::contains] *)
Definition str_contains (sub s : string) : bool := if String.index 0 sub s then true else false.

Definition display (e : Error) : string :=
  match e with
  | WebDavErr s => "webdav: " ++ s
  | ArchiveFuture f s => "unsupported_archive_version: found=" ++ pretty f ++ ", supported=" ++ pretty s
  | OtherErr s => s
  end%string.

(** [impl From<Error> for SyncError] *)
Definition from_error (e : Error) : SyncError :=
  match e with
  | WebDavErr s =>
      if str_contains "etag mismatch" s then EtagMismatch
      else if str_contains "authentication failed" s then Unauthorized
      else Network s
  | ArchiveFuture found supported => ArchiveFutureVersion found supported
  | other => Network (display other)
  end.

(** ** The verbs *)
Definition MAX_ARCHIVE_BYTES : Z := 256 * 1024 * 1024.
Definition ARCHIVE_VERSION : Z := 1.

Record ExportInput := mkInput {
  selected_session_ids : list string;
  config_json : string;
  schema_version : Z;
  app_version_ : option string;
  master_password : option string;
  kdf : KdfParams;
  created_at_ms : Z;
  sync_origin : option string;
  include_recordings : bool
}.

(** What the service asks of the database and the archive component: [D] is the database,
    [P] a parsed archive.  The list is [sessions::list_all_with_tombstones], mapped to ids. *)
Class Archive (D P : Type) := {
  list_all_with_tombstones : D -> Error + list string;
  export_archive : ExportInput -> list Z -> D -> Error + list Z;
  decrypt_archive_with_password : list Z -> string -> Error + list Z;
  parse_pending_import : list Z -> Error + (P * Z);
  manifest_json : P -> option string;
  merge_pending_into_local : P -> Z -> D -> (Error + MergeOutcome) * D
}.

(** The process: the configuration store, the secrets, the database file and whether it is
    open ([app.db()]; a handle taken then outlives a close), the id minted for this process,
    and the server. *)
Record World (D R : Type) := mkWorld {
  config : ConfigStore.world;
  secrets : SecretStore;
  database : D;
  db_open : bool;
  install_id : option string;
  remote : R
}.
Arguments mkWorld {D R} _ _ _ _ _ _.
Arguments config {D R} _.
Arguments secrets {D R} _.
Arguments database {D R} _.
Arguments db_open {D R} _.
Arguments install_id {D R} _.
Arguments remote {D R} _.

Definition with_pushed (now_ms : Z) (sha etag : string) (c : SyncConfig) : SyncConfig :=
  {| Config.enabled := enabled c; webdav_url := webdav_url c; webdav_username := webdav_username c;
     webdav_password_ref := webdav_password_ref c; webdav_auth_method := webdav_auth_method c;
     passphrase_ref := passphrase_ref c; remote_path := remote_path c;
     last_pushed_at_ms := now_ms; last_pulled_at_ms := last_pulled_at_ms c;
     last_pushed_sha256 := sha; last_pushed_etag := etag;
     last_pulled_etag := last_pulled_etag c; last_pulled_sha256 := last_pulled_sha256 c |}.

Definition with_pulled (now_ms : Z) (etag sha : string) (c : SyncConfig) : SyncConfig :=
  {| Config.enabled := enabled c; webdav_url := webdav_url c; webdav_username := webdav_username c;
     webdav_password_ref := webdav_password_ref c; webdav_auth_method := webdav_auth_method c;
     passphrase_ref := passphrase_ref c; remote_path := remote_path c;
     last_pushed_at_ms := last_pushed_at_ms c; last_pulled_at_ms := now_ms;
     last_pushed_sha256 := last_pushed_sha256 c; last_pushed_etag := last_pushed_etag c;
     last_pulled_etag := etag; last_pulled_sha256 := sha |}.

Section Service.
Context `{SerdeText} {U R D P : Type} `{Url U} `{Http U R} `{Archive D P}.
Variable md5 : chars -> list Z.
Variable base64 : list Z -> chars.
Variable sha256 : list Z -> list Z.
(** [CARGO_PKG_VERSION] *)
Variable app_version : string.
Notation W := (World D R).

Definition sha256_hex (bytes : list Z) : string := to_string (sha256 bytes ≫= hex_byte).

Definition is_empty (s : string) : bool := match s with EmptyString => true | _ => false end.

(** The result of a pull and the configuration to write back, if any. *)
Definition PullOutcome : Type := SyncResult * option SyncConfig.

Definition sha_match_outcome (cfg : SyncConfig) (remote_etag body_sha256 : string) : option PullOutcome :=
  let matches_pushed := negb (is_empty (last_pushed_sha256 cfg)) && String.eqb body_sha256 (last_pushed_sha256 cfg) in
  let matches_pulled := negb (is_empty (last_pulled_sha256 cfg)) && String.eqb body_sha256 (last_pulled_sha256 cfg) in
  if negb (matches_pushed || matches_pulled) then None
  else
    Some (UpToDate,
          if negb (is_empty remote_etag) && negb (String.eqb remote_etag (last_pulled_etag cfg))
          then Some (with_pulled (last_pulled_at_ms cfg) remote_etag body_sha256 cfg) else None).

Definition parse_sync_origin (pending : P) : option string :=
  manifest ← manifest_json pending;
  value ← from_text manifest;
  obj ← Json.as_object value;
  s ← obj !! "sync_origin"%string ≫= Json.as_str;
  if is_empty s then None else Some s.

Definition own_origin_outcome (cfg : SyncConfig) (pending : P) (install_id remote_etag body_sha256 : string) :
    option PullOutcome :=
  origin ← parse_sync_origin pending;
  if negb (String.prefix (install_id ++ ":") origin) then None
  else
    Some (UpToDate,
          if negb (is_empty remote_etag)
             && (negb (String.eqb remote_etag (last_pulled_etag cfg)) || negb (String.eqb body_sha256 (last_pulled_sha256 cfg)))
          then Some (with_pulled (last_pulled_at_ms cfg) remote_etag body_sha256 cfg) else None).

Definition build_if_none_match (cfg : SyncConfig) : option string :=
  let parts := if is_empty (last_pushed_etag cfg) then [] else [quote_etag (last_pushed_etag cfg)] in
  let parts :=
    if is_empty (last_pulled_etag cfg) then parts
    else
      let quoted := quote_etag (last_pulled_etag cfg) in
      if bool_decide (quoted ∈ parts) then parts else parts ++ [quoted] in
  match parts with [] => None | _ => Some (String.concat ", " parts) end.

Definition parse_archive_bytes (content : list Z) (passphrase : string) : SyncError + P :=
  let zip_bytes :=
    if bool_decide (take 4 content = [0x4C; 0x46; 0x53; 0x45]) then
      match decrypt_archive_with_password content passphrase with inl e => inl (from_error e) | inr z => inr z end
    else if bool_decide (take 4 content = [0x50; 0x4B; 3; 4]) then inr content
    else inl (Network "remote archive: not an LFSE envelope or ZIP file") in
  match zip_bytes with
  | inl e => inl e
  | inr zip =>
      match parse_pending_import zip with
      | inl e => inl (from_error e)
      | inr (pending, version) =>
          if negb ((1 <=? version) && (version <=? ARCHIVE_VERSION)) then inl (ArchiveFutureVersion version ARCHIVE_VERSION)
          else inr pending
      end
  end.

Definition build_client (cfg : SyncConfig) (password : string) : SyncError + WebDavClient U :=
  let method :=
    if String.eqb (webdav_auth_method cfg) "basic" then inr Basic
    else if String.eqb (webdav_auth_method cfg) "digest" then inr Digest
    else if String.eqb (webdav_auth_method cfg) "bearer" then inr Bearer
    else inl (ConfigInvalid ("unknown auth method: " ++ webdav_auth_method cfg)%string) in
  match method with
  | inl e => inl e
  | inr m =>
      let creds := mkCredentials m (if is_empty (webdav_username cfg) then None else Some (chars_of (webdav_username cfg)))
                     (chars_of password) in
      match Client.new (R := R) (webdav_url cfg) creds with
      | inl e => inl (ConfigInvalid (display e))
      | inr c => inr c
      end
  end.

(** *** The critical sections *)
Open Scope prog_scope.

Definition prog_bind {A B} (p : prog W (SyncError + A)) (k : A -> prog W (SyncError + B)) : prog W (SyncError + B) :=
  let! r := p in match r with inl e => Ret (inl e) | inr a => k a end.
Notation "'try!' x := p 'in' q" := (prog_bind p (fun x => q))
  (at level 200, x pattern, p at level 100, q at level 200, right associativity).

Definition ask {A} (f : W -> A) : prog W A := call (fun w => (f w, w)).

Definition get_app_config (w : W) : option AppConfig := Store.get_app_config (inner (config w)).

(** [OnceLock::get_or_init]; [draw] is the twelve random bytes. *)
Definition read_install_id (draw : list Z) (w : W) : string * W :=
  match install_id w with
  | Some i => (i, w)
  | None =>
      let i := Text.to_string (draw ≫= hex_byte) in
      (i, mkWorld (config w) (secrets w) (database w) (db_open w) (Some i) (remote w))
  end.

Definition prepare (draw : list Z) : prog W (SyncError + (SyncConfig * string)) :=
  let! app_cfg := ask get_app_config in
  match app_cfg with
  | None => Ret (inl (ConfigInvalid "config_store not initialised"))
  | Some app_cfg =>
      let cfg := sync app_cfg in
      if negb (enabled cfg) then Ret (inl Disabled)
      else if is_empty (webdav_url cfg) then Ret (inl (ConfigInvalid "WebDAV URL is empty"))
      else let! i := call (read_install_id draw) in Ret (inr (cfg, i))
  end.

Definition read_secret (id : string) : prog W (SyncError + string) :=
  let! bytes := ask (fun w => SecretStore.get id (secrets w)) in
  match bytes with
  | None => Ret (inl (ConfigInvalid ("secret not staged: " ++ id)%string))
  | Some bytes =>
      match Utf8.decode bytes with
      | None => Ret (inl (ConfigInvalid "secret not UTF-8"))
      | Some s => Ret (inr (Text.to_string s))
      end
  end.

Definition require_db : prog W (SyncError + unit) :=
  let! open := ask db_open in
  if open then Ret (inr ()) else Ret (inl (ConfigInvalid "DB not initialised")).

Definition on_database {A} (f : D -> A * D) (w : W) : A * W :=
  let '(a, d) := f (database w) in (a, mkWorld (config w) (secrets w) d (db_open w) (install_id w) (remote w)).

Definition set_remote (r : R) (w : W) : W :=
  mkWorld (config w) (secrets w) (database w) (db_open w) (install_id w) r.

(** The calls of a private client in the process, its digest state beginning at [d]. *)
Fixpoint local {A} (d : DigestState) (p : prog (Wire R) A) : prog W A :=
  match p with
  | Ret a => Ret a
  | Step f k =>
      Step (fun w => let '(b, s) := f (mkWire d (remote w)) in ((b, digest s), set_remote (net s) w))
           (fun bd => local bd.2 (k bd.1))
  end.

Definition store_error (e : StoreError) : string :=
  match e with
  | NotInitialised => "config_store: not initialised"
  | _ => "config_store: no current state"
  end.

Definition persist_sync (now : Z) (updated : SyncConfig) : prog W (SyncError + unit) :=
  call (fun w =>
    let '(r, c) := run (Store.update_sync now updated) (config w) in
    (match r with inl e => inl (ConfigInvalid (store_error e)) | inr u => inr u end,
     mkWorld c (secrets w) (database w) (db_open w) (install_id w) (remote w))).

(** *** The verbs

    [Draws] is what the clock and the generator give one verb. *)
Record Draws := mkDraws {
  id_bytes : list Z;
  cnonces : list Z * list Z;
  now_push : Z;
  now_compose : Z;
  entropy : list Z;
  now_merge : Z;
  now_pull : Z;
  now_store : Z
}.

Definition sync_error {A} (r : Error + A) : SyncError + A := match r with inl e => inl (from_error e) | inr a => inr a end.

(** The envelope and the hash of its bytes. *)
Definition compose_archive (stamp passphrase : string) (d : Draws) : prog W (SyncError + (list Z * string)) :=
  let! app_cfg := ask get_app_config in
  let config_value := strip_for_export (AppConfig.to_json_value (default AppConfig.default app_cfg)) in
  try! session_ids := ask (fun w => sync_error (list_all_with_tombstones (database w))) in
  let input := mkInput session_ids (to_text config_value) ARCHIVE_VERSION (Some app_version) (Some passphrase)
                 KdfParams.defaults (now_compose d) (Some stamp) false in
  try! bytes := ask (fun w => sync_error (export_archive input (entropy d) (database w))) in
  Ret (inr (bytes, sha256_hex bytes)).

Definition push (d : Draws) : prog W (SyncError + SyncResult) :=
  try! (cfg, i) := prepare (id_bytes d) in
  try! pw := read_secret (webdav_password_ref cfg) in
  try! passphrase := read_secret (passphrase_ref cfg) in
  let stamp := (i ++ ":" ++ pretty (now_push d))%string in
  try! _ := require_db in
  try! (bytes, envelope_sha256) := compose_archive stamp passphrase d in
  if String.eqb envelope_sha256 (last_pushed_sha256 cfg) && negb (is_empty (last_pushed_sha256 cfg)) then Ret (inr UpToDate)
  else
    match build_client cfg pw with
    | inl e => Ret (inl e)
    | inr client =>
        let if_match := if is_empty (last_pushed_etag cfg) then None else Some (last_pushed_etag cfg) in
        try! etag := pbind (local None (Client.put md5 base64 client (cnonces d) (remote_path cfg) bytes if_match))
                           (fun r => Ret (sync_error r)) in
        try! _ := persist_sync (now_store d) (with_pushed (now_push d) envelope_sha256 (default ""%string etag) cfg) in
        Ret (inr (Pushed (Z.of_nat (length bytes)) envelope_sha256))
    end.

Definition pull_with_client (client : WebDavClient U) (cfg : SyncConfig) (passphrase i : string) (d : Draws) :
    prog W (SyncError + PullOutcome) :=
  let! response := local None (Client.get md5 base64 client (cnonces d) (remote_path cfg) None (build_if_none_match cfg)) in
  match response with
  | inl (WebDavErr s) =>
      if str_contains "not found" s then Ret (inr (Skipped "no remote archive", None))
      else Ret (inl (from_error (WebDavErr s)))
  | inl e => Ret (inl (from_error e))
  | inr response =>
      if status response =? 304 then Ret (inr (UpToDate, None))
      else
        let remote_etag := default ""%string (normalise_etag_header <$> etag_header response) in
        match body response with
        | inl e => Ret (inl (Network ("body read: " ++ e)%string))
        | inr content =>
            if MAX_ARCHIVE_BYTES <? Z.of_nat (length content) then
              Ret (inl (Network ("remote archive " ++ pretty (Z.of_nat (length content)) ++ " bytes exceeds "
                                 ++ pretty MAX_ARCHIVE_BYTES ++ "-byte cap")%string))
            else
              let body_sha256 := sha256_hex content in
              match sha_match_outcome cfg remote_etag body_sha256 with
              | Some outcome => Ret (inr outcome)
              | None =>
                  match parse_archive_bytes content passphrase with
                  | inl e => Ret (inl e)
                  | inr pending =>
                      match own_origin_outcome cfg pending i remote_etag body_sha256 with
                      | Some outcome => Ret (inr outcome)
                      | None =>
                          try! m := call (on_database (fun db =>
                            let '(x, db) := merge_pending_into_local pending (now_merge d) db in (sync_error x, db))) in
                          Ret (inr (PullApplied (sessions_merged m) (keys_merged m) (tags_merged m) (snippets_merged m) (bookmarks_merged m),
                                    Some (with_pulled (now_pull d) remote_etag body_sha256 cfg)))
                      end
                  end
              end
        end
  end.

Definition pull (d : Draws) : prog W (SyncError + SyncResult) :=
  try! (cfg, i) := prepare (id_bytes d) in
  try! pw := read_secret (webdav_password_ref cfg) in
  try! passphrase := read_secret (passphrase_ref cfg) in
  match build_client cfg pw with
  | inl e => Ret (inl e)
  | inr client =>
      try! _ := require_db in
      try! (result, updated_cfg) := pull_with_client client cfg passphrase i d in
      match updated_cfg with
      | None => Ret (inr result)
      | Some updated => try! _ := persist_sync (now_store d) updated in Ret (inr result)
      end
  end.

(** [status] of the source. *)
Definition sync_status (w : W) : SyncStatus :=
  let cfg := default SyncConfig.default (sync <$> get_app_config w) in
  mkStatus (enabled cfg) (last_pushed_at_ms cfg) (last_pulled_at_ms cfg) None.

End Service.

(** ** What a WebDAV server promises

    [resource] is the entity tag (the [ETag] field value) and the content at a URL.  RFC 9110,
    section 13.1.1: a PUT whose [If-Match] names another tag must not be performed.  The server
    answers for its own URLs; one that redirects elsewhere is not described. *)
Definition get_request {U} (req : HttpRequest U) : Prop := verb req = lit "GET".
Definition put_request {U} (req : HttpRequest U) : Prop := verb req = lit "PUT".

Class WebDavServer (U R : Type) `{Http U R} := {
  resource : R -> U -> option (string * list Z);
  get_leaves n req r u : get_request req -> resource (http_send n req r).2 u = resource r u;
  get_answers n req r resp : get_request req -> (http_send n req r).1 = inr resp -> is_success (status resp) = true ->
    exists etag c, resource r (url req) = Some (etag, c) /\ (body resp = inr c \/ exists e, body resp = inl e);
  put_guarded n req v r : put_request req -> headers req = [("If-Match"%string, v)] -> fst <$> resource r (url req) <> Some v ->
    (forall u, resource (http_send n req r).2 u = resource r u) /\
    (forall resp, (http_send n req r).1 = inr resp -> is_success (status resp) = false);
  put_elsewhere n req r u : put_request req -> u <> url req -> resource (http_send n req r).2 u = resource r u
}.

(** ** Pushes *)
Section Laws.
Context `{SerdeText} {U R D P : Type} `{Url U} `{WebDavServer U R} `{Archive D P}.
Variable md5 : chars -> list Z.
Variable base64 : list Z -> chars.
Variable sha256 : list Z -> list Z.
Variable app_version : string.
Notation W := (World D R).
Implicit Types (w : W) (d : Draws).

(** The sync settings the process works with. *)
Definition settings w : option SyncConfig := sync <$> get_app_config w.

(** The call left every resource alone, or replaced the one tagged [v]. *)
Definition replaces (v : string) (r r' : R) : Prop :=
  (forall u, resource r' u = resource r u) \/
  exists u content, resource r u = Some (v, content) /\ forall u', u' <> u -> resource r' u' = resource r u'.

Definition replaces_only (v : string) w w' : Prop := replaces v (remote w) (remote w').

Lemma leaves_remote v w w' : remote w' = remote w -> replaces_only v w w'.
Proof. intros Hr. left. by rewrite Hr. Qed.

Lemma try_each {A B} P' (p : prog W (SyncError + A)) (k : A -> prog W (SyncError + B)) :
  each_call P' p -> (forall a, each_call P' (k a)) -> each_call P' (prog_bind p k).
Proof. intros Hp Hk. apply each_call_bind; [done|]. intros [e|a]; [constructor|done]. Qed.

(** The laws of a client's calls, seen in the process. *)
Lemma local_each {A} (S1 : Wire R -> Wire R -> Prop) (P' : W -> W -> Prop) dg (p : prog (Wire R) A) :
  (forall dg w s, S1 (mkWire dg (remote w)) s -> P' w (set_remote (net s) w)) -> each_call S1 p -> each_call P' (local dg p).
Proof.
  intros HP Hp. revert dg. induction Hp as [a|B f k Hf Hk IH]; intros dg; cbn; [constructor|]. constructor.
  - intros w. specialize (Hf (mkWire dg (remote w))). destruct (f (mkWire dg (remote w))) as [b s]. by eapply HP.
  - intros w. specialize (IH (mkWire dg (remote w))). destruct (f (mkWire dg (remote w))) as [b s]. apply IH.
Qed.

Lemma wp_local {A} dg (p : prog (Wire R) A) (Q : A -> W -> Prop) w :
  wp p (fun a s => Q a (set_remote (net s) w)) (mkWire dg (remote w)) -> wp (local dg p) Q w.
Proof.
  unfold wp. revert dg w. induction p as [a|B f k IH]; intros dg w Hp; cbn in *; [by destruct w|].
  destruct (f (mkWire dg (remote w))) as [b [d' r']] eqn:Hf. cbn. specialize (IH b d' (set_remote r' w)). by apply IH.
Qed.

Lemma put_replaces n u auth v b r :
  replaces v r (http_send n (mkRequest (lit "PUT") u auth [("If-Match"%string, v)] b) r).2.
Proof.
  set (req := mkRequest _ _ _ _ _). destruct (decide (fst <$> resource r u = Some v)) as [Ht|Ht].
  - destruct (resource r u) as [[t content]|] eqn:Hu; [|done]. injection Ht as ->. right. exists u, content.
    split; [done|]. intros u' Hne. by apply put_elsewhere.
  - left. by apply (put_guarded n req v r).
Qed.

Lemma put_leaves client draws path b v :
  each_call (replaces_only (quote_etag v)) (local None (Client.put md5 base64 client draws path b (Some v))).
Proof.
  apply (local_each (fun s s' => replaces (quote_etag v) (net s) (net s'))); [done|].
  apply each_call_bind; [|constructor]. apply request_calls.
  - intros s s' ->. by left.
  - intros u auth s _. apply put_replaces.
Qed.

Lemma ask_leaves {A} v (f : W -> A) : each_call (replaces_only v) (ask f).
Proof. apply each_call_call. intros w. by apply leaves_remote. Qed.

Lemma persist_leaves v now c : each_call (replaces_only v) (persist_sync now c).
Proof. apply each_call_call. intros w. apply leaves_remote. by destruct (run _ _). Qed.

Lemma read_secret_leaves v i : each_call (replaces_only v) (read_secret i).
Proof.
  apply each_call_bind; [apply ask_leaves|]. intros [b|]; [|constructor]. case_match; constructor.
Qed.

Lemma require_db_leaves v : each_call (replaces_only v) (require_db (D := D) (R := R)).
Proof. apply each_call_bind; [apply ask_leaves|]. intros []; constructor. Qed.

Lemma compose_leaves v stamp pass d : each_call (replaces_only v) (compose_archive sha256 app_version stamp pass d).
Proof.
  apply each_call_bind; [apply ask_leaves|]. intros a. apply try_each; [apply ask_leaves|]. intros ids.
  apply try_each; [apply ask_leaves|]. intros b. constructor.
Qed.

(** C27. A push never replaces a snapshot it did not push.  Once a push of this device has been
    acknowledged with an entity tag, whatever other devices and tasks do in between, the only
    resource a later push replaces is one still carrying that tag; every other call of the
    push leaves the server as it was. *)
Theorem push_replaces_only_its_own_snapshot env d w cfg
    (Hcfg : settings (env_head env w) = Some cfg) (Htag : last_pushed_etag cfg <> ""%string) :
  Forall (fun ss => replaces_only (quote_etag (last_pushed_etag cfg)) ss.1 ss.2)
    (calls env (push md5 base64 sha256 app_version d) w).
Proof.
  unfold push, prepare, ask. cbn [call prog_bind pbind]. rewrite calls_step. cbn [fst snd].
  apply Forall_cons_2; [by apply leaves_remote|]. apply each_call_calls.
  unfold settings in Hcfg. destruct (get_app_config (env_head env w)) as [app|]; [|done]. injection Hcfg as <-.
  set (v := quote_etag _). destruct (negb (enabled (sync app))); [constructor|].
  destruct (is_empty (webdav_url (sync app))); [constructor|].
  cbn [call pbind]. constructor.
  { intros w'. apply leaves_remote. unfold read_install_id. by destruct (install_id w'). }
  intros i. apply try_each; [apply read_secret_leaves|]. intros pw.
  apply try_each; [apply read_secret_leaves|]. intros pass. cbv zeta.
  apply try_each; [apply require_db_leaves|]. intros [].
  apply try_each; [apply compose_leaves|]. intros [bytes sha].
  destruct (String.eqb sha _ && _); [constructor|]. destruct (build_client _ pw) as [e|client]; [constructor|].
  apply try_each.
  - apply each_call_bind; [|constructor]. destruct (last_pushed_etag (sync app)) as [|c s] eqn:He; [done|]. cbn [is_empty].
    unfold v. rewrite <-He. apply put_leaves.
  - intros etag. apply try_each; [apply persist_leaves|]. constructor.
Qed.

(** *** The verbs, undisturbed *)

(** Nothing changed but perhaps the id minted. *)
Definition idle w w' : Prop :=
  config w' = config w /\ secrets w' = secrets w /\ database w' = database w /\ db_open w' = db_open w /\
  remote w' = remote w.

Lemma idle_refl w : idle w w.
Proof. done. Qed.

Lemma try_wp {A B} (p : prog W (SyncError + A)) (k : A -> prog W (SyncError + B)) Q w :
  wp p (fun r w' => match r with inl e => Q (inl e) w' | inr a => wp (k a) Q w' end) w -> wp (prog_bind p k) Q w.
Proof.
  intros Hp. apply wp_bind. eapply wp_mono; [|exact Hp]. intros [e|a] w' Hq; [by apply wp_ret|done].
Qed.

Lemma prepare_wp b (Q : SyncError + (SyncConfig * string) -> W -> Prop) w :
  (forall e, Q (inl e) w) ->
  (forall app i w', get_app_config w = Some app -> idle w w' -> Q (inr (sync app, i)) w') -> wp (prepare b) Q w.
Proof.
  intros He Hi. apply wp_bind, wp_call. cbn [fst snd]. destruct (get_app_config w) as [app|] eqn:Happ; [|apply wp_ret, He].
  destruct (negb _); [apply wp_ret, He|]. destruct (is_empty _); [apply wp_ret, He|].
  apply wp_bind, wp_call, wp_ret. apply Hi; [done|]. unfold read_install_id. by destruct (install_id w).
Qed.

(** What [read_secret] answers. *)
Definition secret_text (i : string) w : SyncError + string := (run (read_secret i) w).1.

Lemma secret_text_idle i w w' : secrets w' = secrets w -> secret_text i w' = secret_text i w.
Proof.
  intros Hs. unfold secret_text, read_secret, ask. rewrite !run_bind, !run_call. cbn [fst snd]. rewrite Hs.
  destruct (SecretStore.get i (secrets w)); [|done]. by destruct (Utf8.decode _).
Qed.

Lemma read_secret_wp i (Q : SyncError + string -> W -> Prop) w :
  Q (secret_text i w) w -> wp (read_secret i) Q w.
Proof.
  unfold secret_text, read_secret, ask. rewrite run_bind, run_call. cbn [fst snd]. intros Hq.
  apply wp_bind, wp_call. cbn [fst snd]. destruct (SecretStore.get i (secrets w)) as [b|]; [|by apply wp_ret].
  destruct (Utf8.decode b); by apply wp_ret.
Qed.

Lemma require_db_wp (Q : SyncError + unit -> W -> Prop) w : (forall r, Q r w) -> wp require_db Q w.
Proof. intros Hq. apply wp_bind, wp_call. cbn [fst snd]. destruct (db_open w); apply wp_ret, Hq. Qed.

Lemma compose_wp stamp pass d (Q : SyncError + (list Z * string) -> W -> Prop) w :
  (forall e, Q (inl e) w) -> (forall bytes, Q (inr (bytes, sha256_hex sha256 bytes)) w) ->
  wp (compose_archive sha256 app_version stamp pass d) Q w.
Proof.
  intros He Hb. apply wp_bind, wp_call. cbn [fst snd]. apply try_wp, wp_call. cbn [fst snd].
  destruct (sync_error _) as [e|ids]; [apply He|]. apply try_wp, wp_call. cbn [fst snd].
  destruct (sync_error _) as [e|bytes]; [apply He|]. apply wp_ret, Hb.
Qed.

Definition push_condition (cfg : SyncConfig) : option string :=
  if is_empty (last_pushed_etag cfg) then None else Some (last_pushed_etag cfg).

Lemma push_wp d (Q : SyncError + SyncResult -> W -> Prop) w :
  (forall r w', idle w w' -> (forall n s, r <> inr (Pushed n s)) -> Q r w') ->
  (forall app client pw bytes w1, get_app_config w = Some app -> idle w w1 -> build_client (sync app) pw = inr client ->
     wp (Client.put md5 base64 client (cnonces d) (remote_path (sync app)) bytes (push_condition (sync app)))
       (fun x s => let w2 := set_remote (net s) w1 in
          match x with
          | inl e => Q (inl (from_error e)) w2
          | inr etag =>
              wp (persist_sync (now_store d) (with_pushed (now_push d) (sha256_hex sha256 bytes) (default ""%string etag) (sync app)))
                (fun r w3 => match r with
                             | inl e => Q (inl e) w3
                             | inr _ => Q (inr (Pushed (Z.of_nat (length bytes)) (sha256_hex sha256 bytes))) w3
                             end) w2
          end) (mkWire None (remote w1))) ->
  wp (push md5 base64 sha256 app_version d) Q w.
Proof.
  intros Hi He. apply try_wp, prepare_wp; [by intros e; apply Hi|]. intros app i w1 Happ Hw1.
  apply try_wp, read_secret_wp. destruct (secret_text _ w1) as [e|pw]; [by apply Hi|].
  apply try_wp, read_secret_wp. destruct (secret_text _ w1) as [e|pass]; [by apply Hi|]. cbv zeta. apply try_wp, require_db_wp. intros [e|[]]; [by apply Hi|].
  apply try_wp, compose_wp; [by intros e; apply Hi|]. intros bytes.
  destruct (String.eqb _ _ && _); [apply wp_ret; by apply Hi|].
  destruct (build_client (sync app) pw) as [e|client] eqn:Hc; [apply wp_ret; by apply Hi|].
  apply try_wp, wp_bind, wp_local. eapply wp_mono; [|by apply (He app client pw bytes w1)].
  intros [e|etag] s Hq; [done|]. cbv beta iota zeta in Hq. apply wp_ret, try_wp. eapply wp_mono; [|exact Hq]. intros [e|u] w3 Hq3; [done|]. by apply wp_ret.
Qed.

(** The rest of a pull once its outcome is known. *)
Definition finish_pull d (o : PullOutcome) : prog W (SyncError + SyncResult) :=
  match o.2 with
  | None => Ret (inr o.1)
  | Some updated => prog_bind (persist_sync (now_store d) updated) (fun _ => Ret (inr o.1))
  end.

Lemma pull_wp d (Q : SyncError + SyncResult -> W -> Prop) w :
  (forall e w', idle w w' -> Q (inl e) w') ->
  (forall app client pw pass i w1, get_app_config w = Some app -> idle w w1 ->
     secret_text (webdav_password_ref (sync app)) w = inr pw -> build_client (sync app) pw = inr client ->
     wp (pull_with_client md5 base64 sha256 client (sync app) pass i d)
       (fun r w2 => match r with inl e => Q (inl e) w2 | inr o => wp (finish_pull d o) Q w2 end) w1) ->
  wp (pull md5 base64 sha256 d) Q w.
Proof.
  intros Hi Hp. apply try_wp, prepare_wp; [by intros e; apply Hi|]. intros app i w1 Happ Hw1.
  apply try_wp, read_secret_wp. rewrite (secret_text_idle _ w w1 (proj1 (proj2 Hw1))).
  destruct (secret_text _ w) as [e|pw] eqn:Hpw; [by apply Hi|].
  apply try_wp, read_secret_wp. destruct (secret_text _ w1) as [e|pass]; [by apply Hi|].
  destruct (build_client (sync app) pw) as [e|client] eqn:Hc; [apply wp_ret; by apply Hi|].
  apply try_wp, require_db_wp. intros [e|[]]; [by apply Hi|].
  apply try_wp. eapply wp_mono; [|by apply (Hp app client pw pass i w1)].
  intros [e|[res u]] w2 Hq; [done|]. exact Hq.
Qed.

(** The configuration a writer leaves: the settings are the sanitised ones, or nothing changed. *)
Lemma persist_wp now c (Q : SyncError + unit -> W -> Prop) w :
  (forall e, Q (inl e) w) ->
  (forall w', settings w' = Some (SyncConfig.sanitized c) -> secrets w' = secrets w -> database w' = database w ->
     db_open w' = db_open w -> remote w' = remote w -> Q (inr ()) w') ->
  wp (persist_sync now c) Q w.
Proof.
  intros He Hq. apply wp_call. unfold Store.update_sync. rewrite run_call. unfold Store.section, Store.update_with.
  destruct (file_path (inner (config w))) as [path|] eqn:Hf; cbn [fst snd].
  - destruct (current (inner (config w))) as [cur|] eqn:Hc; cbn [fst snd].
    + apply Hq; [|done..]. done.
    + destruct w as [[] ? ? ? ? ?]. apply He.
  - destruct w as [[] ? ? ? ? ?]. apply He.
Qed.

(** *** A peer's push *)

(** Every resource carries another tag than the one of this device's last push. *)
Definition overtaken (etag : string) w : Prop :=
  (forall cfg, settings w = Some cfg -> last_pushed_etag cfg = etag) /\
  forall u, fst <$> resource (remote w) u <> Some (quote_etag etag).

Inductive verb := Push (d : Draws) | Pull (d : Draws).

Definition verb_run (v : verb) w : (SyncError + SyncResult) * W :=
  match v with Push d => run (push md5 base64 sha256 app_version d) w | Pull d => run (pull md5 base64 sha256 d) w end.

Fixpoint verbs_run (vs : list verb) w : list (SyncError + SyncResult) * W :=
  match vs with
  | [] => ([], w)
  | v :: vs => let '(r, w) := verb_run v w in let '(rs, w) := verbs_run vs w in (r :: rs, w)
  end.

Definition not_pushed (r : SyncError + SyncResult) : Prop := forall n s, r <> inr (Pushed n s).

Lemma overtaken_idle e w w' : idle w w' -> overtaken e w -> overtaken e w'.
Proof.
  intros (Hc & _ & _ & _ & Hr) [Hs Ht]. split; [|by rewrite Hr].
  intros cfg. unfold settings, get_app_config. rewrite Hc. apply Hs.
Qed.

(** A GET changes nothing and answers with the resource; so does a PUT whose condition fails. *)
Definition same_resources (r r' : R) : Prop := forall u, resource r' u = resource r u.

Lemma get_wp client draws path inm (Q : Error + Response -> Wire R -> Prop) s :
  (forall e s', same_resources (net s) (net s') -> Q (inl e) s') ->
  (forall u resp s', Client.join client path = inr u -> same_resources (net s) (net s') ->
     (is_success (status resp) = true ->
      exists etag c, resource (net s) u = Some (etag, c) /\ (body resp = inr c \/ exists e, body resp = inl e)) ->
     (status resp =? 304) || is_success (status resp) = true -> Q (inr resp) s') ->
  wp (Client.get md5 base64 client draws path None inm) Q s.
Proof.
  intros He Hq. apply (request_wp _ _ (same_resources (net s))); [done| |done|].
  - intros u auth r _ Hr u'. by rewrite get_leaves.
  - intros u auth r resp dg Hj Hr Hresp Hfine. apply (Hq u); [done| | |done].
    + intros u'. cbn. by rewrite get_leaves.
    + intros Hs. eapply get_answers in Hresp as (etag & c & Hres & Hb); [|done|done].
      exists etag, c. cbn in Hres. by rewrite <-Hr.
Qed.

Lemma put_guarded_wp client draws path b v (Q : Error + option string -> Wire R -> Prop) s :
  (forall u, fst <$> resource (net s) u <> Some (quote_etag v)) ->
  (forall e s', same_resources (net s) (net s') -> Q (inl e) s') ->
  wp (Client.put md5 base64 client draws path b (Some v)) Q s.
Proof.
  intros Hv He. apply wp_bind.
  assert (Hg : forall u auth r, same_resources (net s) r ->
    let req := mkRequest (lit "PUT") u auth [("If-Match"%string, quote_etag v)] b in
    same_resources (net s) (http_send (redirects client) req r).2 /\ forall resp, (http_send (redirects client) req r).1 = inr resp -> is_success (status resp) = false).
  { intros u auth r Hr req. destruct (put_guarded (redirects client) req (quote_etag v) r) as [Hl Hf]; [done..|by rewrite Hr|].
    split; [|done]. intros u'. by rewrite Hl. }
  apply (request_wp _ _ (same_resources (net s))); [done| | |].
  - intros u auth r _ Hr. by apply Hg.
  - intros e s' Hs'. apply wp_ret. by apply He.
  - intros u auth r resp dg _ Hr Hresp Hfine. destruct (Hg u auth r Hr) as [_ Hf]. by rewrite (Hf resp Hresp) in Hfine.
Qed.

Lemma overtaken_same e w w' : config w' = config w -> same_resources (remote w) (remote w') -> overtaken e w -> overtaken e w'.
Proof.
  intros Hc Hr [Hs Ht]. split; [|intros u; by rewrite Hr]. intros cfg. unfold settings, get_app_config. rewrite Hc. apply Hs.
Qed.

(** What a pull may write back: everything but the tag of the last push. *)
Definition pull_keeps (cfg : SyncConfig) (o : PullOutcome) : Prop :=
  (forall n s, o.1 <> Pushed n s) /\ forall u, o.2 = Some u -> last_pushed_etag u = last_pushed_etag cfg.

Lemma sha_match_keeps cfg etag sha o : sha_match_outcome cfg etag sha = Some o -> pull_keeps cfg o.
Proof.
  unfold sha_match_outcome. destruct (negb _); [done|]. intros [= <-]. split; [done|].
  intros u. by destruct (negb _ && negb _); intros [= <-].
Qed.

Lemma own_origin_keeps cfg (pending : P) i etag sha o :
  own_origin_outcome cfg pending i etag sha = Some o -> pull_keeps cfg o.
Proof.
  unfold own_origin_outcome. destruct (parse_sync_origin pending); [|done]. cbn. destruct (negb _); [done|].
  intros [= <-]. split; [done|]. intros u. by destruct (negb _ && _); intros [= <-].
Qed.

(** A pull leaves the server as it was. *)
Lemma pull_client_keeps client cfg pass i d w :
  wp (pull_with_client md5 base64 sha256 client cfg pass i d)
    (fun r w2 => config w2 = config w /\ same_resources (remote w) (remote w2) /\
       match r with inr o => pull_keeps cfg o | inl _ => True end) w.
Proof.
  assert (Hnone : forall r, (forall n s, r <> Pushed n s) -> pull_keeps cfg (r, None)) by (intros r Hr; by split).
  apply wp_bind, wp_local, get_wp.
  - intros [s|f v|s] s' Hs'; cbn [remote net] in *; [destruct (str_contains _ _)|..]; apply wp_ret; split_and!; try done; by apply Hnone.
  - intros u resp s' _ Hs' _ _. cbn [remote net] in *.
    destruct (status resp =? 304); [apply wp_ret; split_and!; [done..|by apply Hnone]|].
    destruct (body resp) as [e|content]; [by apply wp_ret|].
    destruct (MAX_ARCHIVE_BYTES <? _); [by apply wp_ret|].
    destruct (sha_match_outcome _ _ _) as [o|] eqn:Hs.
    { apply wp_ret. split_and!; [done..|]. by eapply sha_match_keeps. }
    destruct (parse_archive_bytes _ _) as [e|pending]; [by apply wp_ret|].
    destruct (own_origin_outcome _ _ _ _ _) as [o|] eqn:Ho.
    { apply wp_ret. split_and!; [done..|]. by eapply own_origin_keeps. }
    apply try_wp, wp_call. unfold on_database. cbn [database set_remote].
    destruct (merge_pending_into_local _ _ _) as [[e|m] db]; cbn [sync_error fst snd]; [done|].
    apply wp_ret. split_and!; [done..|]. split; [done|]. by intros v [= <-].
Qed.

Lemma verb_stays_overtaken e v w : e <> ""%string -> overtaken e w ->
  not_pushed (verb_run v w).1 /\ overtaken e (verb_run v w).2.
Proof.
  intros He Hw. destruct v as [d|d].
  - change (wp (push md5 base64 sha256 app_version d) (fun r w' => not_pushed r /\ overtaken e w') w). apply push_wp.
    + intros r w' Hi Hr. split; [done|]. by eapply overtaken_idle.
    + intros app client pw bytes w1 Happ Hi _. pose proof (overtaken_idle _ _ _ Hi Hw) as Hw1.
      assert (Hc : push_condition (sync app) = Some e).
      { destruct Hw as [Hs _]. specialize (Hs (sync app)). unfold settings in Hs. rewrite Happ in Hs.
        unfold push_condition. rewrite (Hs eq_refl). by destruct e. }
      rewrite Hc. apply put_guarded_wp; [apply Hw1|]. intros err s' Hs'. split; [done|]. by apply (overtaken_same e w1).
  - change (wp (pull md5 base64 sha256 d) (fun r w' => not_pushed r /\ overtaken e w') w). apply pull_wp.
    + intros err w' Hi. split; [done|]. by eapply overtaken_idle.
    + intros app client pw pass i w1 Happ Hi _ _. pose proof (overtaken_idle _ _ _ Hi Hw) as Hw1.
      eapply wp_mono; [|apply pull_client_keeps]. intros r w2 (Hc & Hr & Hu).
      assert (Hw2 : overtaken e w2) by by apply (overtaken_same e w1).
      destruct r as [err|[res u]]; [by split|]. destruct Hu as [Hres Hu].
      assert (Hn : not_pushed (inr res)) by (intros n s [= ->]; by apply (Hres n s)).
      destruct u as [u|]; [|by apply wp_ret]. specialize (Hu u eq_refl).
      apply try_wp, persist_wp; [by split|]. intros w3 Hs3 _ _ _ Hr3. apply wp_ret. split; [done|split].
      * rewrite Hs3. intros cfg [= <-]. cbn. rewrite Hu. destruct Hw as [Hs _]. apply Hs. unfold settings. by rewrite Happ.
      * rewrite Hr3. apply Hw2.
Qed.

(** Once another device has replaced the snapshot, this device never pushes again: no sequence
    of pulls and pushes, however long and whatever the pulls merge, contains a push that is
    acknowledged.  A pull records the peer's entity tag as the last pulled one, and a push
    sends the last pushed one. *)
Theorem peer_push_blocks_pushes e vs w (He : e <> ""%string) (Hw : overtaken e w) :
  Forall not_pushed (verbs_run vs w).1.
Proof.
  revert w Hw. induction vs as [|v vs IH]; intros w Hw; cbn; [apply Forall_nil_2|].
  destruct (verb_stays_overtaken e v w He Hw) as [Hr Hw']. destruct (verb_run v w) as [r w'].
  specialize (IH w' Hw'). destruct (verbs_run vs w') as [rs w'']. by apply Forall_cons_2.
Qed.

(** *** A pull of a snapshot already merged *)
Definition applied (r : SyncError + SyncResult) : Prop := match r with inr (PullApplied _ _ _ _ _) => True | _ => False end.

(** Where the client finds the snapshot, and its content. *)
Definition serves (client : WebDavClient U) (cfg : SyncConfig) (sha : string) (r : R) : Prop :=
  exists u etag content, Client.join client (remote_path cfg) = inr u /\
    resource r u = Some (etag, content) /\ sha256_hex sha256 content = sha.

Lemma sha_match_some cfg etag sha : last_pulled_sha256 cfg = sha -> sha <> ""%string ->
  exists u, sha_match_outcome cfg etag sha = Some (UpToDate, u).
Proof.
  intros Hs Hn. unfold sha_match_outcome. rewrite Hs, String.eqb_refl. destruct sha; [done|]. cbn [is_empty negb andb].
  rewrite orb_true_r. by eexists.
Qed.

#[local] Ltac not_applied := split; [done|intros ? Hout; now (inversion Hout; subst; intros [])].

(** Merging is reached only for a snapshot of another hash. *)
Lemma pull_client_known client cfg pass i d sha w :
  serves client cfg sha (remote w) -> last_pulled_sha256 cfg = sha -> sha <> ""%string ->
  wp (pull_with_client md5 base64 sha256 client cfg pass i d)
    (fun r w2 => database w2 = database w /\ forall o, r = inr o -> ~ applied (inr o.1)) w.
Proof.
  intros (u & t & c & Hj & Hr & Hc) Hsha Hn. apply wp_bind, wp_local, get_wp.
  { intros [s|f v|s] s' _; [destruct (str_contains _ _)|..]; apply wp_ret; not_applied. }
  intros u' resp s' Hj' _ Hget Hfine. assert (u' = u) as -> by congruence. cbn [net] in *.
  destruct (status resp =? 304); [apply wp_ret; not_applied|]. cbn in Hfine.
  destruct (Hget Hfine) as (t' & c' & Hr' & [Hb|[e Hb]]); rewrite Hb; [|by apply wp_ret].
  destruct (MAX_ARCHIVE_BYTES <? _); [by apply wp_ret|]. assert (c' = c) as -> by congruence. rewrite Hc.
  destruct (sha_match_some cfg (default ""%string (normalise_etag_header <$> etag_header resp)) sha Hsha Hn) as [o ->].
  apply wp_ret. not_applied.
Qed.

(** A pull that merged writes back the hash of what the server still serves. *)
Lemma pull_client_applied client cfg pass i d w :
  wp (pull_with_client md5 base64 sha256 client cfg pass i d)
    (fun r w2 => secrets w2 = secrets w /\
       forall o, r = inr o -> applied (inr o.1) ->
       exists etag sha, o.2 = Some (with_pulled (now_pull d) etag sha cfg) /\ serves client cfg sha (remote w2)) w.
Proof.
  apply wp_bind, wp_local, get_wp.
  { intros [s|f v|s] s' _; [destruct (str_contains _ _)|..]; apply wp_ret; not_applied. }
  intros u resp s' Hj Hsame Hget Hfine. cbn [net] in *.
  destruct (status resp =? 304); [apply wp_ret; not_applied|]. cbn in Hfine.
  destruct (Hget Hfine) as (t & c & Hr & [Hb|[e Hb]]); rewrite Hb; [|by apply wp_ret].
  destruct (MAX_ARCHIVE_BYTES <? _); [by apply wp_ret|].
  destruct (sha_match_outcome _ _ _) as [o|] eqn:Hs.
  { apply wp_ret. split; [done|]. intros o' [= <-] Ho. revert Hs Ho. unfold sha_match_outcome.
    destruct (negb _); [done|]. by intros [= <-]. }
  destruct (parse_archive_bytes _ _) as [e|pending]; [by apply wp_ret|].
  destruct (own_origin_outcome _ _ _ _ _) as [o|] eqn:Ho.
  { apply wp_ret. split; [done|]. intros o' [= <-] Ho'. revert Ho Ho'. unfold own_origin_outcome.
    destruct (parse_sync_origin pending); [|done]. cbn. destruct (negb _); [done|]. by intros [= <-]. }
  apply try_wp, wp_call. unfold on_database. cbn [database set_remote].
  destruct (merge_pending_into_local _ _ _) as [[e|m] db]; cbn [sync_error fst snd]; [done|].
  apply wp_ret. split; [done|]. intros o [= <-] _. eexists _, _. split; [done|].
  exists u, t, c. split_and!; [done| |done]. cbn. by rewrite Hsame.
Qed.

Lemma sha256_hex_nonempty b : sha256 b <> [] -> sha256_hex sha256 b <> ""%string.
Proof. unfold sha256_hex. destruct (sha256 b) as [|x l]; [done|]. intros _. cbn. unfold Text.to_string, Utf8.encode.
  cbn [mbind list_bind app]. unfold Utf8.encode_char. by repeat case_match. Qed.

(** What a pull that merged leaves behind: the settings point where they did, with the hash of
    the snapshot the server serves there. *)
Lemma pull_applied_wp d w :
  wp (pull md5 base64 sha256 d) (fun r w1 => applied r ->
    exists app client pw etag sha now, get_app_config w = Some app /\
      secret_text (webdav_password_ref (sync app)) w = inr pw /\ build_client (sync app) pw = inr client /\
      settings w1 = Some (SyncConfig.sanitized (with_pulled now etag sha (sync app))) /\
      secrets w1 = secrets w /\ serves client (sync app) sha (remote w1)) w.
Proof.
  apply pull_wp; [done|]. intros app client pw pass i w1 Happ Hi Hpw Hc.
  eapply wp_mono; [|apply pull_client_applied]. intros [e|[res u]] w2 [Hs Ho]; [done|].
  specialize (Ho _ eq_refl). cbn [fst snd] in Ho. destruct u as [u|].
  - apply try_wp, persist_wp; [done|]. intros w3 Hs3 Hse3 _ _ Hr3. apply wp_ret. intros Ha.
    destruct (Ho Ha) as (etag & sha & [= ->] & Hserves). exists app, client, pw, etag, sha, (now_pull d).
    split_and!; [done..| |]; [by rewrite Hse3, Hs, (proj1 (proj2 Hi))|].
    unfold serves. by rewrite Hr3.
  - apply wp_ret. intros Ha. by destruct (Ho Ha) as (? & ? & ? & _).
Qed.

(** A snapshot is merged once.  After a pull that merged the peer's snapshot, a pull of the
    same snapshot leaves the database alone and reports no merge, whatever the server answers
    to the conditional request.  The settings must be ones the store can hold. *)
Theorem pulled_snapshot_is_not_merged_again d d' w
    (Hsha : forall b, sha256 b <> [])
    (Hcfg : forall cfg, settings w = Some cfg -> SyncConfig.sanitized cfg = cfg)
    (Hpull : applied (verb_run (Pull d) w).1) :
  let w1 := (verb_run (Pull d) w).2 in
  database (verb_run (Pull d') w1).2 = database w1 /\ ~ applied (verb_run (Pull d') w1).1.
Proof.
  intros w1. destruct (pull_applied_wp d w Hpull) as (app & client & pw & etag & sha & now & Happ & Hpw & Hc & Hs & Hse & Hserves).
  fold (verb_run (Pull d) w) in Hs, Hse, Hserves. change (verb_run (Pull d) w).2 with w1 in Hs, Hse, Hserves.
  assert (Hsan : SyncConfig.sanitized (sync app) = sync app) by (apply Hcfg; unfold settings; by rewrite Happ).
  change (wp (pull md5 base64 sha256 d') (fun r w2 => database w2 = database w1 /\ ~ applied r) w1).
  apply pull_wp; [intros e w' (_ & _ & Hd & _); split; [done|by intros []]|]. intros app1 client1 pw1 pass i w1' Happ1 Hi Hpw1 Hc1.
  unfold settings in Hs. rewrite Happ1 in Hs. injection Hs as Hs. rewrite Hs in *.
  change (secret_text (webdav_password_ref (SyncConfig.sanitized (sync app))) w1 = inr pw1) in Hpw1.
  change (build_client (SyncConfig.sanitized (sync app)) pw1 = inr client1) in Hc1.
  rewrite Hsan in Hpw1, Hc1. rewrite (secret_text_idle _ w w1 Hse), Hpw in Hpw1. injection Hpw1 as <-.
  rewrite Hc in Hc1. injection Hc1 as <-.
  eapply wp_mono; [|apply (pull_client_known client _ pass i d' sha)].
  - intros [e|[res [u|]]] w2 [Hd Ho]; [split; [by rewrite Hd, (proj1 (proj2 (proj2 Hi)))|by intros []]| |].
    + specialize (Ho _ eq_refl). apply try_wp, persist_wp.
      * intros e. split; [by rewrite Hd, (proj1 (proj2 (proj2 Hi)))|by intros []].
      * intros w3 _ _ Hd3 _ _. apply wp_ret. split; [by rewrite Hd3, Hd, (proj1 (proj2 (proj2 Hi)))|exact Ho].
    + apply wp_ret. split; [by rewrite Hd, (proj1 (proj2 (proj2 Hi)))|by apply (Ho _ eq_refl)].
  - destruct Hserves as (url & t & content & Hj & Hr & Hh). exists url, t, content.
    rewrite (proj2 (proj2 (proj2 (proj2 Hi)))). split_and!; [|done..].
    change (Client.join client (remote_path (SyncConfig.sanitized (sync app))) = inr url). by rewrite Hsan.
  - done.
  - destruct Hserves as (_ & _ & content & _ & _ & <-). by apply sha256_hex_nonempty.
Qed.

End Laws.

(** ** A server, an archive and a process to run them on *)
Section Demo.
Open Scope string_scope.

(** Snapshots by path with a counter for their tag; conditional requests as in RFC 9110.  A
    server with [tagged] false leaves the tag out of its answers to PUT. *)
Record DemoServer := mkServer { files : gmap string (Z * list Z); tagged : bool }.
Definition tag_of (n : Z) : string := quote_etag (pretty n).
Definition condition (name : string) (req : HttpRequest string) : option string :=
  snd <$> find (fun h => String.eqb h.1 name) (headers req).

Definition demo_send (req : HttpRequest string) (r : DemoServer) : (string + Response) * DemoServer :=
  let f := files r in let u := url req in
  let answer s etag c := inr (mkResponse s etag None (inr c)) in
  if bool_decide (WebDav.verb req = lit "GET") then
    match f !! u with
    | None => (answer 404%Z None [], r)
    | Some (n, c) =>
        if decide (condition "If-None-Match" req = Some (tag_of n)) then (answer 304%Z (Some (tag_of n)) [], r)
        else (answer 200%Z (Some (tag_of n)) c, r)
    end
  else if bool_decide (WebDav.verb req = lit "PUT") then
    let n := default 0%Z (fst <$> f !! u) in
    let stored := (answer 204%Z (if tagged r then Some (tag_of (n + 1)) else None) [],
                   mkServer (<[u := (n + 1, content req)%Z]> f) (tagged r)) in
    match condition "If-Match" req with
    | None => stored
    | Some v => if decide (fst <$> f !! u = Some n /\ v = tag_of n) then stored else (answer 412%Z None [], r)
    end
  else (answer 405%Z None [], r).

#[local] Instance demo_url : Url string := {
  url_parse s := inr s;
  url_join base path := inr path;
  url_path u := chars_of u;
  url_query _ := None;
  with_path p _ := Text.to_string p;
  origin u := Some "https://dav.example"
}.

#[local] Instance demo_http : Http string DemoServer := {
  http_send _ := demo_send;
  canonical_reason _ := None;
  client_error := None;
  header_error _ := None
}.

#[local] Program Instance demo_server : WebDavServer string DemoServer := {
  resource r u := (fun e => (tag_of e.1, e.2)) <$> files r !! u
}.
Next Obligation. intros lim req r u Hg. cbn. unfold demo_send. rewrite bool_decide_true by done. by repeat case_match. Qed.
Next Obligation.
  intros lim req r resp Hg. cbn. unfold demo_send. rewrite bool_decide_true by done. destruct (files r !! url req) as [[n c]|].
  - destruct (decide _); intros [= <-] Hs; [done|]. cbn. eexists _, _. split; [done|by left].
  - by intros [= <-].
Qed.
Next Obligation.
  intros lim req v r Hp Hh Hv. cbn. unfold demo_send. rewrite Hp. cbn -[lookup insert]. unfold condition. rewrite Hh. cbn -[lookup insert].
  destruct (decide _) as [[Hn ->]|]; [|split; [done|by intros resp [= <-]]].
  destruct Hv. cbn. by destruct (files r !! url req) as [[n c]|].
Qed.
Next Obligation.
  intros lim req r u Hp Hne. cbn. unfold demo_send. rewrite Hp. cbn -[lookup insert].
  by repeat case_match; cbn -[lookup insert]; rewrite ?lookup_insert_ne.
Qed.

(** The database is the list of its rows, the archive a ZIP signature before them. *)
#[local] Instance demo_archive : Archive (list Z) (list Z) := {
  list_all_with_tombstones _ := inr [];
  export_archive _ _ d := inr ([0x50; 0x4B; 3; 4]%Z ++ d)%list;
  decrypt_archive_with_password _ _ := inl (OtherErr "not an envelope");
  parse_pending_import zip := inr (drop 4 zip, 1%Z);
  manifest_json _ := None;
  merge_pending_into_local p _ d := (inr (mkMerge (Z.of_nat (length p)) 0 0 0 0 0 0 0 []), (d ++ p)%list)
}.

Definition demo_sha256 (b : list Z) : list Z := [Z.of_nat (length b) mod 256; foldr Z.add 0 b mod 256]%Z.

Definition demo_sync (etag : string) : SyncConfig :=
  {| Config.enabled := true; webdav_url := "https://dav.example"; webdav_username := "u";
     webdav_password_ref := "sync.webdav.password"; webdav_auth_method := "basic";
     passphrase_ref := "sync.passphrase"; remote_path := "/snapshot.lfs";
     last_pushed_at_ms := 0; last_pulled_at_ms := 0; last_pushed_sha256 := "";
     last_pushed_etag := etag; last_pulled_etag := ""; last_pulled_sha256 := "" |}.

Definition demo_store (cfg : SyncConfig) : ConfigStore.world :=
  ConfigStore.mkWorld (mkInner (Some "/d/config.json") (Some (Store.with_sync cfg AppConfig.default)) None None false) (mkDisk ∅ [] []) None.

Definition demo_world (cfg : SyncConfig) (rows : list Z) (r : DemoServer) : World (list Z) DemoServer :=
  mkWorld (demo_store cfg)
    (SecretStore.put "sync.passphrase" [112]%Z (SecretStore.put "sync.webdav.password" [119]%Z SecretStore.new))
    rows true None r.

Definition demo_draws : Draws := mkDraws [1;2;3]%Z ([],[]) 10 11 [] 12 13 14.

Lemma push_replaces_only_its_own_snapshot_witness :
  let w := demo_world (demo_sync "1") [7] (mkServer {["/snapshot.lfs" := (1, [80; 75; 3; 4; 9])]} true)%Z in
  settings (env_head [] w) = Some (demo_sync "1") /\
  Forall (fun ss => replaces_only (quote_etag "1") ss.1 ss.2) (calls [] (push demo_md5 demo_base64 demo_sha256 "1.0" demo_draws) w).
Proof.
  intros w. assert (Hs : settings (env_head [] w) = Some (demo_sync "1")) by reflexivity.
  split; [exact Hs|]. exact (push_replaces_only_its_own_snapshot demo_md5 demo_base64 demo_sha256 "1.0" [] demo_draws w _ Hs ltac:(discriminate)).
Defined.

(** This device pushed the first snapshot, its peer the second. *)
Definition overtaken_world : World (list Z) DemoServer :=
  demo_world (demo_sync "1") [7]%Z (mkServer {["/snapshot.lfs" := (2, [80; 75; 3; 4; 9])]} true)%Z.

Lemma overtaken_world_overtaken : overtaken "1" overtaken_world.
Proof.
  split; [by intros cfg [= <-]|]. intros u. cbn. destruct (decide (u = "/snapshot.lfs")) as [->|Hne].
  - rewrite lookup_singleton_eq. by vm_compute.
  - by rewrite lookup_singleton_ne by congruence.
Qed.

Lemma peer_push_blocks_pushes_witness :
  Forall not_pushed (verbs_run demo_md5 demo_base64 demo_sha256 "1.0" [Push demo_draws; Pull demo_draws; Push demo_draws] overtaken_world).1 /\
  (verbs_run demo_md5 demo_base64 demo_sha256 "1.0" [Push demo_draws; Pull demo_draws; Push demo_draws] overtaken_world).1 =
    [inl EtagMismatch; inr (PullApplied 1 0 0 0 0); inl EtagMismatch].
Proof.
  split; [|vm_compute; reflexivity].
  apply (peer_push_blocks_pushes demo_md5 demo_base64 demo_sha256 "1.0" "1"); [discriminate|exact overtaken_world_overtaken].
Defined.

Lemma pulled_snapshot_is_not_merged_again_witness :
  let w1 := (verb_run demo_md5 demo_base64 demo_sha256 "1.0" (Pull demo_draws) overtaken_world).2 in
  database w1 = [7; 9]%Z /\ database (verb_run demo_md5 demo_base64 demo_sha256 "1.0" (Pull demo_draws) w1).2 = database w1.
Proof.
  intros w1. split; [vm_compute; reflexivity|].
  apply (pulled_snapshot_is_not_merged_again demo_md5 demo_base64 demo_sha256 "1.0" demo_draws demo_draws overtaken_world); [done| |by vm_compute].
  by intros cfg [= <-].
Defined.

(** The settings written back are the ones the verb started from: an edit made while a push
    waits for the server is undone. *)
Example push_reverts_settings_edited_meanwhile :
  let edit w := mkWorld (demo_store (SyncConfig.default)) (secrets w) (database w) (db_open w) (install_id w) (remote w) in
  let '(r, w) := run_env [id; id; id; id; id; id; id; id; edit] (push demo_md5 demo_base64 demo_sha256 "1.0" demo_draws)
                   (demo_world (demo_sync "") [7]%Z (mkServer ∅ true)) in
  (exists n s, r = inr (Pushed n s)) /\ webdav_url <$> settings w = Some "https://dav.example".
Proof. vm_compute. split; [by do 2 eexists|done]. Qed.

(** A server that leaves the tag out of its answer to PUT: the next push carries no condition
    and replaces a peer's snapshot. *)
Example untagged_put_overwrites_peer :
  let push := push demo_md5 demo_base64 demo_sha256 "1.0" demo_draws in
  let w1 := (run push (demo_world (demo_sync "") [7]%Z (mkServer ∅ false))).2 in
  let peer := mkServer {["/snapshot.lfs" := (2, [80; 75; 3; 4; 9])]}%Z false in
  let '(r, w2) := run push (mkWorld (config w1) (secrets w1) [7; 8]%Z true (install_id w1) peer) in
  (exists n s, r = inr (Pushed n s)) /\ snd <$> resource (remote w2) "/snapshot.lfs" = Some [80; 75; 3; 4; 7; 8]%Z.
Proof. vm_compute. split; [by do 2 eexists|done]. Qed.

End Demo.
