(* ===== verification/Iso8601.v ===== *)
(** * ISO-8601 stamps ([archive/iso8601.rs])

    Unix milliseconds as [YYYY-MM-DDTHH:MM:SS.mmmZ] and back: the civil-calendar arithmetic of
    both directions and the tolerant reader.  A [String] is its UTF-8 bytes, as in the rest of
    the archive code. *)
From Stdlib Require Import ZArith Lia.
From stdpp Require Import prelude list strings.
From S2P Require Import Prelude Text.

Open Scope Z_scope.

Notation chars := (list Z).

(** [{n:0w}]: zeros go between the sign and the digits, and count towards the width. *)
Definition padded (w : nat) (n : Z) : chars :=
  if n <? 0 then 45 :: replicate (w - 1 - length (decimal (- n))) 48 ++ decimal (- n)
  else replicate (w - length (decimal n)) 48 ++ decimal n.

(** Unix seconds to year, month, day, hour, minute, second. *)
Definition unix_to_civil (secs : Z) : Z * Z * Z * Z * Z * Z :=
  let days := secs / 86400 in
  let time_of_day := secs mod 86400 in
  let z := days + 719468 in
  let era := z / 146097 in
  let doe := z mod 146097 in
  let yoe := Z.quot (doe - Z.quot doe 1460 + Z.quot doe 36524 - Z.quot doe 146096) 365 in
  let y := yoe + era * 400 in
  let doy := doe - (365 * yoe + Z.quot yoe 4 - Z.quot yoe 100) in
  let mp := Z.quot (5 * doy + 2) 153 in
  let d := doy - Z.quot (153 * mp + 2) 5 + 1 in
  let m := if mp <? 10 then mp + 3 else mp - 9 in
  let year := if m <=? 2 then y + 1 else y in
  (year, m, d, time_of_day / 3600, (time_of_day mod 3600) / 60, time_of_day mod 60).

Definition civil_to_unix_ms (year month day hh mm ss : Z) : Z :=
  let y := if month <=? 2 then year - 1 else year in
  let era := y / 400 in
  let yoe := y - era * 400 in
  let doy := Z.quot (153 * (if 2 <? month then month - 3 else month + 9) + 2) 5 + day - 1 in
  let doe := yoe * 365 + Z.quot yoe 4 - Z.quot yoe 100 + doy in
  let days_since_epoch := era * 146097 + doe - 719468 in
  let secs := days_since_epoch * 86400 + hh * 3600 + mm * 60 + ss in
  secs * 1000.

Definition format_iso8601_utc (ms : Z) : string :=
  let '(year, month, day, hh, mm, ss) := unix_to_civil (ms / 1000) in
  to_string (padded 4 year ++ [45] ++ padded 2 month ++ [45] ++ padded 2 day ++ [84]
    ++ padded 2 hh ++ [58] ++ padded 2 mm ++ [58] ++ padded 2 ss ++ [46]
    ++ padded 3 (ms mod 1000) ++ [90]).

(** The closure [parse] of [parse_iso8601_opt]: a slice that is no text, or no number, is [None]. *)
Definition parse_at (bytes : list Z) (off len : nat) : option Z :=
  Utf8.decode (take len (drop off bytes)) ≫= parse_i64.

Definition parse_iso8601_opt (s : string) : option Z :=
  let bytes := lit s in
  if (length bytes <? 24)%nat then None
  else
    let year := default 1970 (parse_at bytes 0 4) in
    let month := default 1 (parse_at bytes 5 2) in
    let day := default 1 (parse_at bytes 8 2) in
    let hh := default 0 (parse_at bytes 11 2) in
    let mm := default 0 (parse_at bytes 14 2) in
    let ss := default 0 (parse_at bytes 17 2) in
    let ms := default 0 (parse_at bytes 20 3) in
    Some (civil_to_unix_ms year (wrap_u32 month) (wrap_u32 day) (wrap_u32 hh) (wrap_u32 mm) (wrap_u32 ss) + ms).

Definition parse_iso8601_or_now (s : string) (now_ms : Z) : Z := default now_ms (parse_iso8601_opt s).

(** ** The calendar *)

(** Within an era of 400 years the year of a day is the code's closed form: 0 to 399, with
    the day of that year between 0 and 365. *)
Definition era_year (doe : Z) : Z := Z.quot (doe - Z.quot doe 1460 + Z.quot doe 36524 - Z.quot doe 146096) 365.

Lemma era_year_spec doe : 0 <= doe < 146097 ->
  0 <= era_year doe < 400 /\
  0 <= doe - (365 * era_year doe + Z.quot (era_year doe) 4 - Z.quot (era_year doe) 100) <= 365.
Proof.
  intros Hd. unfold era_year. split; Z.to_euclidean_division_equations; lia.
Qed.

Lemma civil_fields secs year month day hh mm ss :
  unix_to_civil secs = (year, month, day, hh, mm, ss) ->
  1 <= month <= 12 /\ 1 <= day <= 31 /\ 0 <= hh < 24 /\ 0 <= mm < 60 /\ 0 <= ss < 60.
Proof.
  unfold unix_to_civil. fold (era_year ((secs / 86400 + 719468) mod 146097)).
  assert (Hd := Z.mod_pos_bound (secs / 86400 + 719468) 146097 ltac:(done)).
  set (doe := (_ + 719468) mod 146097) in *. destruct (era_year_spec doe Hd) as [_ Hy].
  set (doy := doe - _) in *. intros [= <- <- <- <- <- <-].
  assert (Ht := Z.mod_pos_bound secs 86400 ltac:(done)). set (tod := secs mod 86400) in *.
  assert (Hmp : 0 <= Z.quot (5 * doy + 2) 153 <= 11) by (Z.to_euclidean_division_equations; lia).
  repeat split; try (destruct (Z.ltb_spec (Z.quot (5 * doy + 2) 153) 10); lia);
    clearbody doy tod; Z.to_euclidean_division_equations; lia.
Qed.

Lemma civil_year secs year month day hh mm ss :
  unix_to_civil secs = (year, month, day, hh, mm, ss) -> -62167219200 <= secs < 253402300800 -> 0 <= year < 10000.
Proof.
  intros Hc Hs. unfold unix_to_civil in Hc. fold (era_year ((secs / 86400 + 719468) mod 146097)) in Hc.
  assert (Hd := Z.mod_pos_bound (secs / 86400 + 719468) 146097 ltac:(done)).
  assert (Hz := Z.div_mod (secs / 86400 + 719468) 146097 ltac:(done)).
  assert (Hdays : -719528 <= secs / 86400 < 2932897) by (Z.to_euclidean_division_equations; lia).
  set (doe := (_ + 719468) mod 146097) in *. set (era := (_ + 719468) / 146097) in *.
  destruct (era_year_spec doe Hd) as [Hyoe Hy].
  set (yoe := era_year doe) in *. set (doy := doe - _) in *. injection Hc as <- _ _ _ _ _.
  assert (Hdoe : yoe * 365 + Z.quot yoe 4 - Z.quot yoe 100 + doy = doe) by (unfold doy; lia).
  set (mp := Z.quot (5 * doy + 2) 153).
  assert (Hmp : 0 <= mp <= 11 /\ (mp < 10 -> doy <= 305) /\ (10 <= mp -> 306 <= doy))
    by (unfold mp; clearbody doy; Z.to_euclidean_division_equations; lia).
  clearbody mp yoe doe era doy. revert Hz. generalize dependent (secs / 86400). intros days Hdays Hz.
  destruct (Z.ltb_spec mp 10) as [?|?]; [destruct (Z.leb_spec (mp + 3) 2)|destruct (Z.leb_spec (mp - 9) 2)];
    cbn [andb] in *; Z.to_euclidean_division_equations; lia.
Qed.

Lemma civil_roundtrip secs year month day hh mm ss :
  unix_to_civil secs = (year, month, day, hh, mm, ss) -> civil_to_unix_ms year month day hh mm ss = secs * 1000.
Proof.
  unfold unix_to_civil, civil_to_unix_ms. fold (era_year ((secs / 86400 + 719468) mod 146097)).
  assert (Hd := Z.mod_pos_bound (secs / 86400 + 719468) 146097 ltac:(done)).
  assert (Hz := Z.div_mod (secs / 86400 + 719468) 146097 ltac:(done)).
  set (doe := (_ + 719468) mod 146097) in *. set (era := (_ + 719468) / 146097) in *.
  destruct (era_year_spec doe Hd) as [Hyoe Hy].
  set (yoe := era_year doe) in *. set (doy := doe - _) in *.
  intros [= <- <- <- <- <- <-].
  assert (Hmp : 0 <= Z.quot (5 * doy + 2) 153 <= 11) by (Z.to_euclidean_division_equations; lia).
  set (mp := Z.quot (5 * doy + 2) 153) in *.
  assert (Hmonth : (if 2 <? (if mp <? 10 then mp + 3 else mp - 9) then (if mp <? 10 then mp + 3 else mp - 9) - 3
    else (if mp <? 10 then mp + 3 else mp - 9) + 9) = mp).
  { destruct (Z.ltb_spec mp 10); [destruct (Z.ltb_spec 2 (mp + 3))|destruct (Z.ltb_spec 2 (mp - 9))]; lia. }
  rewrite Hmonth.
  assert (Hyear : (if (if mp <? 10 then mp + 3 else mp - 9) <=? 2
    then (if (if mp <? 10 then mp + 3 else mp - 9) <=? 2 then yoe + era * 400 + 1 else yoe + era * 400) - 1
    else if (if mp <? 10 then mp + 3 else mp - 9) <=? 2 then yoe + era * 400 + 1 else yoe + era * 400) = yoe + era * 400).
  { destruct (_ <=? 2); lia. }
  rewrite Hyear. replace ((yoe + era * 400) / 400) with era by (symmetry; rewrite Z.div_add by done; rewrite Z.div_small; lia).
  replace (yoe + era * 400 - era * 400) with yoe by lia.
  assert (Hs := Z.div_mod secs 86400 ltac:(done)). assert (Ht := Z.mod_pos_bound secs 86400 ltac:(done)).
  set (tod := secs mod 86400) in *.
  assert (Htod : tod / 3600 * 3600 + (tod mod 3600) / 60 * 60 + tod mod 60 = tod)
    by (clearbody tod; Z.to_euclidean_division_equations; lia).
  assert (Hdoe : yoe * 365 + Z.quot yoe 4 - Z.quot yoe 100 + doy = doe) by (unfold doy; lia).
  replace (Z.quot (153 * mp + 2) 5 + (doy - Z.quot (153 * mp + 2) 5 + 1) - 1) with doy by lia.
  lia.
Qed.

(** ** The text *)
Definition ascii_text (s : chars) : Prop := Forall (fun c => 0 <= c < 128) s.

Lemma encode_ascii s : ascii_text s -> Utf8.encode s = s.
Proof.
  induction 1 as [|c s Hc _ IH]; [done|]. unfold Utf8.encode in *. cbn. rewrite IH.
  unfold Utf8.encode_char. by destruct (Z.ltb_spec c 128); [|lia].
Qed.

Lemma decode_ascii s : ascii_text s -> Utf8.decode s = Some s.
Proof.
  intros Hs. rewrite <- (encode_ascii s Hs) at 1. apply utf8_decode_encode.
  apply (Forall_impl _ _ _ Hs). intros c Hc. left. lia.
Qed.

Lemma lit_to_string s : ascii_text s -> lit (to_string s) = s.
Proof.
  intros Hs. unfold lit, to_string. rewrite encode_ascii, String.list_ascii_of_string_of_list_ascii by done.
  induction Hs as [|c s Hc _ IH]; [done|]. rewrite !fmap_cons, IH. f_equal.
  rewrite Ascii.nat_ascii_embedding; lia.
Qed.

(** What the reader needs of a field: its width, that it is text, and its value. *)
Definition field (w : nat) (n : Z) (s : chars) : Prop := length s = w /\ ascii_text s /\ parse_i64 s = Some n.

Lemma decimal_loop_length fuel w n acc :
  0 <= n < 10 ^ Z.of_nat (S w) -> (length (decimal_loop fuel n acc) <= S w + length acc)%nat.
Proof.
  revert w n acc. induction fuel as [|fuel IH]; intros w n acc Hn; cbn [decimal_loop]; [lia|].
  destruct (Z.eqb_spec (n / 10) 0) as [Hz|Hz]; [cbn; lia|].
  assert (Ht : 10 ^ Z.of_nat (S w) = 10 * 10 ^ Z.of_nat w) by (rewrite Nat2Z.inj_succ, Z.pow_succ_r; lia).
  destruct w as [|w]; [rewrite Z.div_small in Hz; cbn in *; lia|].
  etransitivity; [apply (IH w)|cbn; lia]. rewrite Ht in Hn. Z.to_euclidean_division_equations. nia.
Qed.

Lemma zeros_value k s : s <> [] -> parse_digits (replicate k 48 ++ s) = parse_digits s.
Proof.
  intros Hs. induction k as [|k IH]; [done|]. rewrite <- IH. cbn.
  destruct (replicate k 48 ++ s) eqn:E; [|done]. apply app_nil in E as [_ ?]. done.
Qed.

Lemma parse_plain_digits lo hi c s : is_digit c -> lo <= hi ->
  parse_int lo hi (c :: s) = match parse_digits (c :: s) with Some v => if Utf8.within lo hi v then Some v else None | None => None end.
Proof.
  intros Hc _. unfold parse_int. unfold is_digit in Hc.
  assert (c = 48 + (c - 48)) as -> by lia. assert (0 <= c - 48 < 10) by lia. set (d := c - 48) in *.
  assert (d = 0 \/ d = 1 \/ d = 2 \/ d = 3 \/ d = 4 \/ d = 5 \/ d = 6 \/ d = 7 \/ d = 8 \/ d = 9) as Hd by lia.
  repeat (destruct Hd as [Hd|Hd]; [rewrite Hd; reflexivity|]). rewrite Hd. reflexivity.
Qed.

Lemma padded_field (w : nat) n : 0 <= n < 10 ^ Z.of_nat (S w) -> (w < 18)%nat -> field (S w) n (padded (S w) n).
Proof.
  intros Hn Hw. unfold padded. destruct (Z.ltb_spec n 0) as [|_]; [lia|].
  assert (Hl := decimal_loop_length (S (Z.to_nat (Z.log2 n))) w n [] Hn). fold (decimal n) in Hl. cbn [length] in Hl.
  assert (Hd : Forall is_digit (replicate (S w - length (decimal n)) 48 ++ decimal n)).
  { apply Forall_app_2; [apply Forall_replicate; unfold is_digit; lia|apply decimal_digits]. }
  split; [rewrite length_app, length_replicate; lia|]. split.
  { apply (Forall_impl _ _ _ Hd). unfold is_digit. lia. }
  assert (Hv : parse_digits (replicate (S w - length (decimal n)) 48 ++ decimal n) = Some n).
  { rewrite zeros_value by apply decimal_nonempty. apply parse_digits_decimal. lia. }
  destruct (replicate _ 48 ++ decimal n) as [|c s] eqn:E; [done|].
  unfold parse_i64. rewrite parse_plain_digits, Hv by (try apply (Forall_inv Hd); lia).
  assert (10 ^ Z.of_nat (S w) <= 10 ^ 18) by (apply Z.pow_le_mono_r; lia).
  unfold Utf8.within. by destruct (Z.leb_spec (- 2 ^ 63) n), (Z.leb_spec n (2 ^ 63 - 1)); try lia.
Qed.

Lemma parse_at_field bytes (off len : nat) n pre s post :
  bytes = pre ++ s ++ post -> length pre = off -> field len n s -> parse_at bytes off len = Some n.
Proof.
  intros -> <- (Hl & Ha & Hv). unfold parse_at. rewrite drop_app_length, <- Hl, take_app_length, decode_ascii by done. exact Hv.
Qed.

Lemma ascii_app a b : ascii_text a -> ascii_text b -> ascii_text (a ++ b).
Proof. apply Forall_app_2. Qed.

Lemma ascii_char c : 0 <= c < 128 -> ascii_text [c].
Proof. intros Hc. apply Forall_cons_2; [done|]. apply Forall_nil_2. Qed.

(** The 24 bytes the formatter lays out are read field by field. *)
Lemma layout_read ty tmo td th tmi ts tz y mo d h mi s z :
  field 4 y ty -> field 2 mo tmo -> field 2 d td -> field 2 h th -> field 2 mi tmi -> field 2 s ts -> field 3 z tz ->
  parse_iso8601_opt (to_string (ty ++ [45] ++ tmo ++ [45] ++ td ++ [84] ++ th ++ [58] ++ tmi ++ [58] ++ ts ++ [46] ++ tz ++ [90]))
  = Some (civil_to_unix_ms y (wrap_u32 mo) (wrap_u32 d) (wrap_u32 h) (wrap_u32 mi) (wrap_u32 s) + z).
Proof.
  intros Fy Fmo Fd Fh Fmi Fs Fz. unfold parse_iso8601_opt.
  set (bytes := ty ++ [45] ++ tmo ++ [45] ++ td ++ [84] ++ th ++ [58] ++ tmi ++ [58] ++ ts ++ [46] ++ tz ++ [90]).
  rewrite lit_to_string
    by (by repeat first [apply Fy|apply Fmo|apply Fd|apply Fh|apply Fmi|apply Fs|apply Fz|by apply ascii_char|apply ascii_app]).
  assert (Hl : (length bytes = 24)%nat /\ (length ty = 4)%nat /\ (length tmo = 2)%nat /\ (length td = 2)%nat
    /\ (length th = 2)%nat /\ (length tmi = 2)%nat /\ (length ts = 2)%nat).
  { destruct Fy as [Ly _], Fmo as [Lmo _], Fd as [Ld _], Fh as [Lh _], Fmi as [Lmi _], Fs as [Ls _], Fz as [Lz _].
    unfold bytes. rewrite !length_app. cbn [length]. lia. }
  destruct Hl as (-> & Ly & Lmo & Ld & Lh & Lmi & Ls). cbn [Nat.ltb Nat.leb].
  assert (Hat : forall off len n pre s' post, field len n s' -> bytes = pre ++ s' ++ post -> length pre = off ->
    parse_at bytes off len = Some n) by (intros; by eapply parse_at_field).
  rewrite (Hat 0%nat 4%nat y [] ty _ Fy eq_refl eq_refl),
    (Hat 5%nat 2%nat mo (ty ++ [45]) tmo ([45] ++ td ++ [84] ++ th ++ [58] ++ tmi ++ [58] ++ ts ++ [46] ++ tz ++ [90]) Fmo),
    (Hat 8%nat 2%nat d (ty ++ [45] ++ tmo ++ [45]) td ([84] ++ th ++ [58] ++ tmi ++ [58] ++ ts ++ [46] ++ tz ++ [90]) Fd),
    (Hat 11%nat 2%nat h (ty ++ [45] ++ tmo ++ [45] ++ td ++ [84]) th ([58] ++ tmi ++ [58] ++ ts ++ [46] ++ tz ++ [90]) Fh),
    (Hat 14%nat 2%nat mi (ty ++ [45] ++ tmo ++ [45] ++ td ++ [84] ++ th ++ [58]) tmi ([58] ++ ts ++ [46] ++ tz ++ [90]) Fmi),
    (Hat 17%nat 2%nat s (ty ++ [45] ++ tmo ++ [45] ++ td ++ [84] ++ th ++ [58] ++ tmi ++ [58]) ts ([46] ++ tz ++ [90]) Fs),
    (Hat 20%nat 3%nat z (ty ++ [45] ++ tmo ++ [45] ++ td ++ [84] ++ th ++ [58] ++ tmi ++ [58] ++ ts ++ [46]) tz [90] Fz)
    by (rewrite <- ?app_assoc, ?length_app; cbn [length]; (reflexivity || lia)).
  reflexivity.
Qed.

(** The milliseconds of the years 0 to 9999. *)
Definition printable (ms : Z) : Prop := - 62167219200000 <= ms < 253402300800000.

(** Every stamp from the year 0 to the year 9999 reads back: the code's formatter writes
    24 ASCII bytes from which its tolerant reader recovers the same millisecond. *)
Theorem stamp_roundtrip ms : printable ms -> parse_iso8601_opt (format_iso8601_utc ms) = Some ms.
Proof.
  unfold printable. intros Hms. unfold format_iso8601_utc. destruct (unix_to_civil (ms / 1000)) as [[[[[y mo] d] h] mi] s] eqn:Ec.
  destruct (civil_fields _ _ _ _ _ _ _ Ec) as (Hmo & Hd & Hh & Hmi & Hs).
  assert (Hy := civil_year _ _ _ _ _ _ _ Ec ltac:(Z.to_euclidean_division_equations; lia)).
  assert (Hz : 0 <= ms mod 1000 < 1000) by (apply Z.mod_pos_bound; lia).
  rewrite (layout_read _ _ _ _ _ _ _ y mo d h mi s (ms mod 1000)) by (apply padded_field; lia).
  rewrite !wrap_u32_id by (unfold in_u32; lia).
  rewrite (civil_roundtrip _ _ _ _ _ _ _ Ec). f_equal. assert (Hm := Z.div_mod ms 1000 ltac:(done)). lia.
Qed.

Lemma stamp_roundtrip_witness :
  format_iso8601_utc 1777161600123 = "2026-04-26T00:00:00.123Z"%string /\
  parse_iso8601_opt (format_iso8601_utc 1777161600123) = Some 1777161600123.
Proof. split; [vm_compute; reflexivity|apply (stamp_roundtrip 1777161600123); unfold printable; lia]. Defined.

Example short_stamp_is_absent : parse_iso8601_opt "2026-01-01" = None /\ parse_iso8601_or_now "nope" 42 = 42.
Proof. split; reflexivity. Qed.

(** A stamp with an offset keeps its local time and loses the offset. *)
Example offset_is_dropped :
  parse_iso8601_opt "2026-04-26T00:00:00+02:00" = parse_iso8601_opt "2026-04-26T00:00:00.000Z".
Proof. vm_compute. reflexivity. Qed.

(** From the year 10000 the text is a digit longer and reads back as the year 1000. *)
Example year_10000_reads_back_as_1000 :
  parse_iso8601_opt (format_iso8601_utc 253402300800000) <> Some 253402300800000.
Proof. vm_compute. done. Qed.
