(* ===== verification/Tables.v ===== *)
(** * The database ([db/*.rs])

    The tables of the schema, and the data-access functions as the SQL they send.  A
    statement's meaning is a function on the tables, [None] where a constraint of the schema
    (a foreign key, the unique live tag name) refuses it; SQLite itself is the class
    [Database], which promises that a statement either does what it means or fails and
    changes nothing, and what a transaction falls back to.  An [id] is the primary key of its
    table; [deleted_at] is the tombstone of the synchronised tables. *)
From Stdlib Require Import ZArith Lia.
From stdpp Require Import prelude gmap strings list.
From S2P Require Import Prelude Text Bus PromptRegistry Prog KnownHosts.

Open Scope Z_scope.

(** ** Rows *)
Record FolderRow := mkFolder {
  folder_key : string;
  folder_name : string;
  parent_id : option string;
  folder_sort_order : Z;
  collapsed : bool;
  folder_created_at_ms : Z
}.

(** The columns of [sessions]. *)
Record SessionMain := mkMain {
  main_label : string;
  main_folder_id : option string;
  main_kind : string;
  main_sort_order : Z;
  main_notes : string;
  main_last_connected_at : option Z;
  main_extras : string;
  main_created_at : Z;
  main_updated_at : Z
}.

(** The columns of [ssh_session_details]; its [deleted_at] is never set. *)
Record SshDetails := mkSsh {
  ssh_host : string;
  ssh_port : Z;
  ssh_user : string;
  ssh_auth_type : string;
  ssh_password : string;
  ssh_key_path : string;
  ssh_key_data : string;
  ssh_key_id : option string;
  ssh_passphrase : string;
  ssh_via_session_id : option string;
  ssh_via_host : option string;
  ssh_via_port : option Z;
  ssh_via_user : option string;
  ssh_updated_at : Z
}.

(** [SessionRow]: both, joined. *)
Record SessionRow := mkSession {
  session_key : string;
  label : string;
  folder_id : option string;
  kind : string;
  s_host : string;
  s_port : Z;
  user : string;
  auth_type : string;
  password : string;
  key_path : string;
  key_data : string;
  key_id : option string;
  passphrase : string;
  sort_order : Z;
  notes : string;
  last_connected_at_ms : option Z;
  extras : string;
  via_session_id : option string;
  via_host : option string;
  via_port : option Z;
  via_user : option string;
  created_at_ms : Z;
  updated_at_ms : Z
}.

Inductive KeyBackend := Software | Fido2 | Pkcs11 | Tpm | Enclave | Hello | Keystore.
Inductive AgentPolicy := Always | Ask | Deny.

#[export] Instance KeyBackend_eq_dec : EqDecision KeyBackend.
Proof. solve_decision. Defined.
#[export] Instance AgentPolicy_eq_dec : EqDecision AgentPolicy.
Proof. solve_decision. Defined.

Definition backend_from_db (s : string) : KeyBackend :=
  if String.eqb s "fido2" then Fido2 else if String.eqb s "pkcs11" then Pkcs11
  else if String.eqb s "tpm" then Tpm else if String.eqb s "enclave" then Enclave
  else if String.eqb s "hello" then Hello else if String.eqb s "keystore" then Keystore else Software.

Definition backend_as_db_str (b : KeyBackend) : string :=
  match b with
  | Software => "software" | Fido2 => "fido2" | Pkcs11 => "pkcs11" | Tpm => "tpm"
  | Enclave => "enclave" | Hello => "hello" | Keystore => "keystore"
  end.

Lemma backend_roundtrip b : backend_from_db (backend_as_db_str b) = b.
Proof. by destruct b. Qed.

(** The columns [agent_policy] and [backend] hold their names; reading a name back gives the
    value it was written from, so the table holds the values. *)
Record SshKeyRow := mkKey {
  key_key : string;
  key_label : string;
  private_key : string;
  public_key : string;
  k_key_type : string;
  is_generated : bool;
  key_created_at_ms : Z;
  credential_id : option (list Z);
  application_string : option string;
  has_user_verification : bool;
  agent_policy : AgentPolicy;
  backend : KeyBackend;
  pkcs11_uri : option string;
  pkcs11_module_path : option string;
  pkcs11_token_serial : option string;
  pkcs11_object_id : option (list Z);
  pkcs11_object_label : option string;
  enclave_tag : option (list Z);
  hello_credential_name : option string;
  tpm_blob : option (list Z);
  tpm_handle : option Z;
  tpm_provider : option string;
  tpm_pin_required : bool;
  cng_key_name : option string;
  keystore_alias : option string;
  keystore_strongbox : bool;
  keystore_user_auth_required : bool;
  keystore_platform : option string;
  imported_as_stub : bool
}.

Record CertRecord := mkCert {
  cert_key_id : string;
  certificate : list Z;
  valid_after : Z;
  valid_before : Z;
  principals : list string;
  critical_options : gmap string string;
  fingerprint : string
}.

Record TagRow := mkTag { tag_key : string; tag_name : string; color : option string; tag_created_at_ms : Z }.

Record SnippetRow := mkSnippet {
  snippet_key : string;
  title : string;
  command : string;
  description : string;
  snippet_created_at_ms : Z;
  snippet_updated_at_ms : Z
}.

Record SftpBookmarkRow := mkBookmark {
  bookmark_key : string;
  bookmark_session_id : string;
  remote_path : string;
  bookmark_label : string;
  bookmark_created_at_ms : Z
}.

Record PortForwardRuleRow := mkRule {
  rule_key : string;
  rule_session_id : string;
  rule_kind : string;
  bind_host : string;
  bind_port : Z;
  remote_host : string;
  remote_port : Z;
  rule_description : string;
  enabled : bool;
  rule_sort_order : Z;
  rule_created_at_ms : Z;
  rule_updated_at_ms : Z
}.

Record WebDavSessionRow := mkWebDav {
  webdav_session_id : string;
  base_url : string;
  username : string;
  auth_method : string;
  trusted_cert_pem : option string;
  insecure_skip_verify : bool
}.

(** A row of [webdav_session_details]: the fields of the struct, and the columns it lacks. *)
Record WebDavDetails := mkWebDavDetails { webdav_row : WebDavSessionRow; webdav_password : string; webdav_updated_at : Z }.

Record S3SessionRow := mkS3 {
  s3_session_id : string;
  access_key_id : string;
  region : string;
  endpoint : string;
  path_style : bool;
  default_bucket : string;
  default_prefix : string;
  s3_trusted_cert_pem : option string;
  s3_insecure_skip_verify : bool
}.

Record S3Details := mkS3Details { s3_row : S3SessionRow; secret_access_key : string; s3_updated_at : Z }.

Record HostKey := mkHostKey { hk_id : Z; hk_key_type : chars; hk_key_base64 : chars; hk_added_at : Z }.

(** A row of a synchronised table and its tombstone. *)
Record stored (R : Type) := mkStored { row : R; deleted_at : option Z }.
Arguments mkStored {R} _ _.
Arguments row {R} _.
Arguments deleted_at {R} _.

Definition alive {R} (s : stored R) : bool := match deleted_at s with None => true | Some _ => false end.

(** ** Tables *)
Record Tables := mkTables {
  folders : gmap string FolderRow;
  ssh_keys : gmap string (stored SshKeyRow);
  certificates : gmap string CertRecord;
  sessions : gmap string (stored SessionMain);
  ssh_details : gmap string SshDetails;
  webdav_details : gmap string (stored WebDavDetails);
  s3_details : gmap string (stored S3Details);
  known_hosts : gmap (chars * Z) HostKey;
  host_sequence : Z;
  tags : gmap string (stored TagRow);
  session_tags : gset (string * string);
  folder_tags : gset (string * string);
  snippets : gmap string (stored SnippetRow);
  session_snippets : gset (string * string);
  port_forward_rules : gmap string (stored PortForwardRuleRow);
  sftp_bookmarks : gmap string (stored SftpBookmarkRow)
}.

(** Each table replaced by a function of it. *)
Definition over_folders (f : gmap string FolderRow -> gmap string FolderRow) (t : Tables) : Tables :=
  mkTables (f (folders t)) (ssh_keys t) (certificates t) (sessions t) (ssh_details t) (webdav_details t) (s3_details t) (known_hosts t) (host_sequence t) (tags t) (session_tags t) (folder_tags t) (snippets t) (session_snippets t) (port_forward_rules t) (sftp_bookmarks t).
Definition over_ssh_keys (f : gmap string (stored SshKeyRow) -> gmap string (stored SshKeyRow)) (t : Tables) : Tables :=
  mkTables (folders t) (f (ssh_keys t)) (certificates t) (sessions t) (ssh_details t) (webdav_details t) (s3_details t) (known_hosts t) (host_sequence t) (tags t) (session_tags t) (folder_tags t) (snippets t) (session_snippets t) (port_forward_rules t) (sftp_bookmarks t).
Definition over_certificates (f : gmap string CertRecord -> gmap string CertRecord) (t : Tables) : Tables :=
  mkTables (folders t) (ssh_keys t) (f (certificates t)) (sessions t) (ssh_details t) (webdav_details t) (s3_details t) (known_hosts t) (host_sequence t) (tags t) (session_tags t) (folder_tags t) (snippets t) (session_snippets t) (port_forward_rules t) (sftp_bookmarks t).
Definition over_sessions (f : gmap string (stored SessionMain) -> gmap string (stored SessionMain)) (t : Tables) : Tables :=
  mkTables (folders t) (ssh_keys t) (certificates t) (f (sessions t)) (ssh_details t) (webdav_details t) (s3_details t) (known_hosts t) (host_sequence t) (tags t) (session_tags t) (folder_tags t) (snippets t) (session_snippets t) (port_forward_rules t) (sftp_bookmarks t).
Definition over_ssh_details (f : gmap string SshDetails -> gmap string SshDetails) (t : Tables) : Tables :=
  mkTables (folders t) (ssh_keys t) (certificates t) (sessions t) (f (ssh_details t)) (webdav_details t) (s3_details t) (known_hosts t) (host_sequence t) (tags t) (session_tags t) (folder_tags t) (snippets t) (session_snippets t) (port_forward_rules t) (sftp_bookmarks t).
Definition over_webdav_details (f : gmap string (stored WebDavDetails) -> gmap string (stored WebDavDetails)) (t : Tables) : Tables :=
  mkTables (folders t) (ssh_keys t) (certificates t) (sessions t) (ssh_details t) (f (webdav_details t)) (s3_details t) (known_hosts t) (host_sequence t) (tags t) (session_tags t) (folder_tags t) (snippets t) (session_snippets t) (port_forward_rules t) (sftp_bookmarks t).
Definition over_s3_details (f : gmap string (stored S3Details) -> gmap string (stored S3Details)) (t : Tables) : Tables :=
  mkTables (folders t) (ssh_keys t) (certificates t) (sessions t) (ssh_details t) (webdav_details t) (f (s3_details t)) (known_hosts t) (host_sequence t) (tags t) (session_tags t) (folder_tags t) (snippets t) (session_snippets t) (port_forward_rules t) (sftp_bookmarks t).
Definition over_known_hosts (f : gmap (chars * Z) HostKey -> gmap (chars * Z) HostKey) (t : Tables) : Tables :=
  mkTables (folders t) (ssh_keys t) (certificates t) (sessions t) (ssh_details t) (webdav_details t) (s3_details t) (f (known_hosts t)) (host_sequence t) (tags t) (session_tags t) (folder_tags t) (snippets t) (session_snippets t) (port_forward_rules t) (sftp_bookmarks t).
Definition over_host_sequence (f : Z -> Z) (t : Tables) : Tables :=
  mkTables (folders t) (ssh_keys t) (certificates t) (sessions t) (ssh_details t) (webdav_details t) (s3_details t) (known_hosts t) (f (host_sequence t)) (tags t) (session_tags t) (folder_tags t) (snippets t) (session_snippets t) (port_forward_rules t) (sftp_bookmarks t).
Definition over_tags (f : gmap string (stored TagRow) -> gmap string (stored TagRow)) (t : Tables) : Tables :=
  mkTables (folders t) (ssh_keys t) (certificates t) (sessions t) (ssh_details t) (webdav_details t) (s3_details t) (known_hosts t) (host_sequence t) (f (tags t)) (session_tags t) (folder_tags t) (snippets t) (session_snippets t) (port_forward_rules t) (sftp_bookmarks t).
Definition over_session_tags (f : gset (string * string) -> gset (string * string)) (t : Tables) : Tables :=
  mkTables (folders t) (ssh_keys t) (certificates t) (sessions t) (ssh_details t) (webdav_details t) (s3_details t) (known_hosts t) (host_sequence t) (tags t) (f (session_tags t)) (folder_tags t) (snippets t) (session_snippets t) (port_forward_rules t) (sftp_bookmarks t).
Definition over_folder_tags (f : gset (string * string) -> gset (string * string)) (t : Tables) : Tables :=
  mkTables (folders t) (ssh_keys t) (certificates t) (sessions t) (ssh_details t) (webdav_details t) (s3_details t) (known_hosts t) (host_sequence t) (tags t) (session_tags t) (f (folder_tags t)) (snippets t) (session_snippets t) (port_forward_rules t) (sftp_bookmarks t).
Definition over_snippets (f : gmap string (stored SnippetRow) -> gmap string (stored SnippetRow)) (t : Tables) : Tables :=
  mkTables (folders t) (ssh_keys t) (certificates t) (sessions t) (ssh_details t) (webdav_details t) (s3_details t) (known_hosts t) (host_sequence t) (tags t) (session_tags t) (folder_tags t) (f (snippets t)) (session_snippets t) (port_forward_rules t) (sftp_bookmarks t).
Definition over_session_snippets (f : gset (string * string) -> gset (string * string)) (t : Tables) : Tables :=
  mkTables (folders t) (ssh_keys t) (certificates t) (sessions t) (ssh_details t) (webdav_details t) (s3_details t) (known_hosts t) (host_sequence t) (tags t) (session_tags t) (folder_tags t) (snippets t) (f (session_snippets t)) (port_forward_rules t) (sftp_bookmarks t).
Definition over_port_forward_rules (f : gmap string (stored PortForwardRuleRow) -> gmap string (stored PortForwardRuleRow)) (t : Tables) : Tables :=
  mkTables (folders t) (ssh_keys t) (certificates t) (sessions t) (ssh_details t) (webdav_details t) (s3_details t) (known_hosts t) (host_sequence t) (tags t) (session_tags t) (folder_tags t) (snippets t) (session_snippets t) (f (port_forward_rules t)) (sftp_bookmarks t).
Definition over_sftp_bookmarks (f : gmap string (stored SftpBookmarkRow) -> gmap string (stored SftpBookmarkRow)) (t : Tables) : Tables :=
  mkTables (folders t) (ssh_keys t) (certificates t) (sessions t) (ssh_details t) (webdav_details t) (s3_details t) (known_hosts t) (host_sequence t) (tags t) (session_tags t) (folder_tags t) (snippets t) (session_snippets t) (port_forward_rules t) (f (sftp_bookmarks t)).

(** ** Statements *)
Definition sql (A : Type) : Type := Tables -> option (A * Tables).

(** A changing statement: the tables after it, and whether its constraints hold there. *)
Definition change {A} (ok : Tables -> bool) (t' : Tables) (a : A) : option (A * Tables) :=
  if ok t' then Some (a, t') else None.

(** [FOREIGN KEY … REFERENCES]: NULL, or the key of a row (live or not). *)
Definition references {R} (parents : gmap string R) (key : option string) : bool :=
  match key with None => true | Some k => bool_decide (is_Some (parents !! k)) end.

Definition count_of (n : nat) : Z := Z.of_nat n.

(** The class is SQLite together with the two other things the data-access functions ask of
    the process: random bytes for a fresh id and the clock.  [saved] is what an open
    transaction falls back to, [row_order] the order a query answers in ([ORDER BY] fixes it
    up to ties; no proof looks at it beyond it being a permutation). *)
Class Database (D : Type) := {
  tables : D -> Tables;
  saved : D -> option Tables;
  execute {A} : sql A -> D -> (stage * string + A) * D;
  begin_tx : D -> (string + unit) * D;
  commit_tx : D -> (string + unit) * D;
  rollback_tx : D -> (string + unit) * D;
  fill_bytes : D -> list Z * D;
  now_unix_ms : D -> Z * D;
  row_order {A} : gmap string A -> list A;
  row_order_perm A (m : gmap string A) : row_order m ≡ₚ (map_to_list m).*2;
  executed A (s : sql A) d a :
    (execute s d).1 = inr a -> s (tables d) = Some (a, tables (execute s d).2);
  execute_failed A (s : sql A) d e : (execute s d).1 = inl e -> tables (execute s d).2 = tables d;
  execute_saved A (s : sql A) d : saved (execute s d).2 = saved d;
  begun d : (begin_tx d).1 = inr () -> tables (begin_tx d).2 = tables d /\ saved (begin_tx d).2 = Some (tables d);
  begin_failed d e : (begin_tx d).1 = inl e -> tables (begin_tx d).2 = tables d /\ saved (begin_tx d).2 = saved d;
  committed d : (commit_tx d).1 = inr () -> tables (commit_tx d).2 = tables d /\ saved (commit_tx d).2 = None;
  commit_failed d e : (commit_tx d).1 = inl e ->
    tables (commit_tx d).2 = default (tables d) (saved d) /\ saved (commit_tx d).2 = None;
  rolled_back_ok d : (rollback_tx d).1 = inr () ->
    tables (rollback_tx d).2 = default (tables d) (saved d) /\ saved (rollback_tx d).2 = None;
  rollback_failed d e : (rollback_tx d).1 = inl e ->
    default (tables (rollback_tx d).2) (saved (rollback_tx d).2) = default (tables d) (saved d);
  fill_bytes_same d : tables (fill_bytes d).2 = tables d /\ saved (fill_bytes d).2 = saved d;
  now_same d : tables (now_unix_ms d).2 = tables d /\ saved (now_unix_ms d).2 = saved d;
  (** a database that never fails on its own *)
  working : D -> Prop;
  working_executes A (s : sql A) d a t : working d -> s (tables d) = Some (a, t) ->
    (execute s d).1 = inr a /\ working (execute s d).2;
  working_refuses A (s : sql A) d : working d -> working (execute s d).2;
  working_begins d : working d -> (begin_tx d).1 = inr () /\ working (begin_tx d).2;
  working_commits d : working d -> (commit_tx d).1 = inr () /\ working (commit_tx d).2;
  working_rolls_back d : working d -> (rollback_tx d).1 = inr () /\ working (rollback_tx d).2;
  working_asks d : working d -> working (fill_bytes d).2 /\ working (now_unix_ms d).2
}.

(** What survives a crash: an open transaction is rolled back when the file is opened again. *)
Definition durable `{Database D} (d : D) : Tables := default (tables d) (saved d).

(** [format!("{b:02x}")] of each of the sixteen bytes. *)
Definition hex_id (bytes : list Z) : string := to_string (bytes ≫= hex_byte).

Section Sql.
Context {D : Type} `{Database D}.

(** ** Folders *)
Definition select_folders : sql (list FolderRow) := fun t => Some (row_order (folders t), t).

Definition insert_folder (r : FolderRow) : sql unit := fun t =>
  change (fun t' => references (folders t') (parent_id r)) (over_folders (insert (folder_key r) r) t) ().

(** [DELETE FROM folders] for the keys in [gone]: parents and sessions are set to NULL, tags
    unlinked. *)
Definition orphan {A} (gone : string -> bool) (key : option A) (name : A -> string) : option A :=
  match key with Some k => if gone (name k) then None else key | None => None end.

Definition detach_folder (gone : string -> bool) (f : FolderRow) : FolderRow :=
  mkFolder (folder_key f) (folder_name f) (orphan gone (parent_id f) id) (folder_sort_order f) (collapsed f)
    (folder_created_at_ms f).

Definition detach_main (gone : string -> bool) (m : SessionMain) : SessionMain :=
  mkMain (main_label m) (orphan gone (main_folder_id m) id) (main_kind m) (main_sort_order m) (main_notes m)
    (main_last_connected_at m) (main_extras m) (main_created_at m) (main_updated_at m).

Definition on_row {R} (f : R -> R) (s : stored R) : stored R := mkStored (f (row s)) (deleted_at s).

Definition drop_folders (gone : string -> bool) (t : Tables) : Tables :=
  over_folders (fun m => detach_folder gone <$> filter (fun kv => gone kv.1 = false) m)
    (over_sessions (fmap (on_row (detach_main gone)))
       (over_folder_tags (filter (fun link => gone link.1 = false)) t)).

Definition delete_folders (gone : string -> bool) : sql Z := fun t =>
  Some (count_of (size (filter (fun kv => gone kv.1 = true) (folders t))), drop_folders gone t).

(** ** Sessions *)

(** [sessions::list_all] joins the SSH columns to a row, with defaults where there are none. *)
Definition session_of (id : string) (m : SessionMain) (j : option SshDetails) : SessionRow :=
  let col {A} (f : SshDetails -> A) (d : A) : A := match j with Some x => f x | None => d end in
  {| session_key := id; label := main_label m; folder_id := main_folder_id m; kind := main_kind m;
     s_host := col ssh_host ""%string; s_port := col ssh_port 22; user := col ssh_user ""%string;
     auth_type := col ssh_auth_type "password"%string; password := col ssh_password ""%string;
     key_path := col ssh_key_path ""%string; key_data := col ssh_key_data ""%string; key_id := col ssh_key_id None;
     passphrase := col ssh_passphrase ""%string; sort_order := main_sort_order m; notes := main_notes m;
     last_connected_at_ms := main_last_connected_at m; extras := main_extras m;
     via_session_id := col ssh_via_session_id None; via_host := col ssh_via_host None;
     via_port := col ssh_via_port None; via_user := col ssh_via_user None;
     created_at_ms := main_created_at m; updated_at_ms := main_updated_at m |}.

Definition live_sessions (t : Tables) : gmap string SessionRow :=
  map_imap (fun id s => if alive s then Some (session_of id (row s) (ssh_details t !! id)) else None) (sessions t).

Definition select_sessions : sql (list SessionRow) := fun t => Some (row_order (live_sessions t), t).

Definition all_sessions (t : Tables) : gmap string (stored SessionRow) :=
  map_imap (fun id s => Some (mkStored (session_of id (row s) (ssh_details t !! id)) (deleted_at s))) (sessions t).

Definition select_all_sessions : sql (list (stored SessionRow)) := fun t => Some (row_order (all_sessions t), t).

Definition SESSION_KIND_SSH : string := "ssh".
Definition SESSION_KIND_WEBDAV : string := "webdav".
Definition SESSION_KIND_S3 : string := "s3".

Definition normalise_kind (k : string) : string := if String.eqb k "" then SESSION_KIND_SSH else k.

(** An existing row keeps its [created_at]. *)
Definition insert_session (r : SessionRow) : sql unit := fun t =>
  let created := match sessions t !! session_key r with Some old => main_created_at (row old) | None => created_at_ms r end in
  let m := mkMain (label r) (folder_id r) (normalise_kind (kind r)) (sort_order r) (notes r) (last_connected_at_ms r)
             (extras r) created (updated_at_ms r) in
  change (fun t' => references (folders t') (folder_id r)) (over_sessions (insert (session_key r) (mkStored m None)) t) ().

Definition insert_ssh_details (r : SessionRow) : sql unit := fun t =>
  let j := mkSsh (s_host r) (s_port r) (user r) (auth_type r) (password r) (key_path r) (key_data r) (key_id r)
             (passphrase r) (via_session_id r) (via_host r) (via_port r) (via_user r) (updated_at_ms r) in
  change (fun t' => references (sessions t') (Some (session_key r)) && references (ssh_keys t') (key_id r)
                    && references (sessions t') (via_session_id r))
    (over_ssh_details (insert (session_key r) j) t) ().

Definition remove_ssh_details (id : string) : sql Z := fun t =>
  Some (count_of (if decide (is_Some (ssh_details t !! id)) then 1 else 0), over_ssh_details (delete id) t).
Definition remove_webdav_details (id : string) : sql Z := fun t =>
  Some (count_of (if decide (is_Some (webdav_details t !! id)) then 1 else 0), over_webdav_details (delete id) t).
Definition remove_s3_details (id : string) : sql Z := fun t =>
  Some (count_of (if decide (is_Some (s3_details t !! id)) then 1 else 0), over_s3_details (delete id) t).

Definition stamp_main (ts : Z) (m : SessionMain) : SessionMain :=
  mkMain (main_label m) (main_folder_id m) (main_kind m) (main_sort_order m) (main_notes m)
    (main_last_connected_at m) (main_extras m) (main_created_at m) ts.

(** [UPDATE … WHERE id = …]: the row [f] gives, where it gives one. *)
Definition update_row {R} (f : stored R -> option (stored R)) (id : string) (m : gmap string (stored R)) :
    Z * gmap string (stored R) :=
  match m !! id ≫= f with Some s => (1, <[id := s]> m) | None => (0, m) end.

(** The peer tombstone of a table with [updated_at]. *)
Definition bury {R} (stamp : R -> Z) (restamp : Z -> R -> R) (ts : Z) (s : stored R) : option (stored R) :=
  if stamp (row s) <? ts then Some (mkStored (restamp ts (row s)) (Some ts)) else None.

Definition tombstone_session (id : string) (ts : Z) : sql Z := fun t =>
  let '(n, m) := update_row (bury main_updated_at stamp_main ts) id (sessions t) in Some (n, over_sessions (fun _ => m) t).

(** [UPDATE … SET deleted_at … WHERE deleted_at IS NULL]: every live row. *)
Definition bury_all {R} (f : R -> R) (ts : Z) (m : gmap string (stored R)) : gmap string (stored R) :=
  (fun s => if alive s then mkStored (f (row s)) (Some ts) else s) <$> m.

Definition live_count {R} (m : gmap string (stored R)) : Z := count_of (size (filter (fun kv => alive kv.2 = true) m)).

Definition bury_sessions (ts : Z) : sql Z := fun t => Some (live_count (sessions t), over_sessions (bury_all id ts) t).

Definition mark_deleted {R} (ts : Z) (s : stored R) : option (stored R) :=
  if alive s then Some (mkStored (row s) (Some ts)) else None.

Definition bury_session (id : string) (ts : Z) : sql Z := fun t =>
  let '(n, m) := update_row (mark_deleted ts) id (sessions t) in Some (n, over_sessions (fun _ => m) t).

(** ** Keys and certificates *)
Definition live_rows {R} (m : gmap string (stored R)) : gmap string R :=
  omap (fun s => if alive s then Some (row s) else None) m.

Definition select_keys : sql (list SshKeyRow) := fun t => Some (row_order (live_rows (ssh_keys t)), t).
Definition select_all_keys : sql (list (stored SshKeyRow)) := fun t => Some (row_order (ssh_keys t), t).

Definition insert_key (r : SshKeyRow) : sql unit := fun t =>
  Some ((), over_ssh_keys (insert (key_key r) (mkStored r None)) t).

(** The peer tombstone of a table without [updated_at]: only a live row created before it. *)
Definition bury_created {R} (stamp : R -> Z) (ts : Z) (s : stored R) : option (stored R) :=
  if alive s && (stamp (row s) <? ts) then Some (mkStored (row s) (Some ts)) else None.

Definition tombstone_key (id : string) (ts : Z) : sql Z := fun t =>
  let '(n, m) := update_row (bury_created key_created_at_ms ts) id (ssh_keys t) in Some (n, over_ssh_keys (fun _ => m) t).

Definition bury_key (id : string) (ts : Z) : sql Z := fun t =>
  let '(n, m) := update_row (mark_deleted ts) id (ssh_keys t) in Some (n, over_ssh_keys (fun _ => m) t).

Definition insert_certificate (r : CertRecord) : sql unit := fun t =>
  change (fun t' => references (ssh_keys t') (Some (cert_key_id r))) (over_certificates (insert (cert_key_id r) r) t) ().

Definition select_certificates : sql (list CertRecord) := fun t => Some (row_order (certificates t), t).

(** ** Tags, snippets and their links *)
Definition select_tags : sql (list TagRow) := fun t => Some (row_order (live_rows (tags t)), t).
Definition select_all_tags : sql (list (stored TagRow)) := fun t => Some (row_order (tags t), t).

(** The index [idx_tags_name_live]: no two live tags share a name. *)
Definition name_free (id name : string) (m : gmap string (stored TagRow)) : bool :=
  bool_decide (map_Forall (fun k s => k = id \/ alive s = false \/ tag_name (row s) <> name) m).

Definition insert_tag (r : TagRow) : sql unit := fun t =>
  let created := match tags t !! tag_key r with Some old => tag_created_at_ms (row old) | None => tag_created_at_ms r end in
  let new := mkTag (tag_key r) (tag_name r) (color r) created in
  change (fun t' => name_free (tag_key r) (tag_name r) (tags t')) (over_tags (insert (tag_key r) (mkStored new None)) t) ().

Definition tombstone_tag (id : string) (ts : Z) : sql Z := fun t =>
  let '(n, m) := update_row (bury_created tag_created_at_ms ts) id (tags t) in Some (n, over_tags (fun _ => m) t).

Definition bury_tag (id : string) (ts : Z) : sql Z := fun t =>
  let '(n, m) := update_row (mark_deleted ts) id (tags t) in Some (n, over_tags (fun _ => m) t).

Definition bury_tags (ts : Z) : sql Z := fun t => Some (live_count (tags t), over_tags (bury_all id ts) t).

(** [INSERT OR IGNORE]: a link already there stays, a dangling one is refused. *)
Definition insert_session_tag (s tag : string) : sql unit := fun t =>
  change (fun t' => references (sessions t') (Some s) && references (tags t') (Some tag))
    (over_session_tags (union {[(s, tag)]}) t) ().

Definition insert_folder_tag (f tag : string) : sql unit := fun t =>
  change (fun t' => references (folders t') (Some f) && references (tags t') (Some tag))
    (over_folder_tags (union {[(f, tag)]}) t) ().

Definition select_snippets : sql (list SnippetRow) := fun t => Some (row_order (live_rows (snippets t)), t).
Definition select_all_snippets : sql (list (stored SnippetRow)) := fun t => Some (row_order (snippets t), t).

(** The second column of a link table where the first is [k]. *)
Definition linked (k : string) (links : gset (string * string)) : list string :=
  row_order (set_to_map (fun l => (l.2, l.2)) (filter (fun l => l.1 = k) links) : gmap string string).

Definition select_session_tags (s : string) : sql (list string) := fun t => Some (linked s (session_tags t), t).
Definition select_folder_tags (f : string) : sql (list string) := fun t => Some (linked f (folder_tags t), t).
Definition select_session_snippets (s : string) : sql (list string) := fun t => Some (linked s (session_snippets t), t).

Definition insert_snippet (r : SnippetRow) : sql unit := fun t =>
  let created := match snippets t !! snippet_key r with Some old => snippet_created_at_ms (row old) | None => snippet_created_at_ms r end in
  let new := mkSnippet (snippet_key r) (title r) (command r) (description r) created (snippet_updated_at_ms r) in
  Some ((), over_snippets (insert (snippet_key r) (mkStored new None)) t).

Definition stamp_snippet (ts : Z) (r : SnippetRow) : SnippetRow :=
  mkSnippet (snippet_key r) (title r) (command r) (description r) (snippet_created_at_ms r) ts.

Definition tombstone_snippet (id : string) (ts : Z) : sql Z := fun t =>
  let '(n, m) := update_row (bury snippet_updated_at_ms stamp_snippet ts) id (snippets t) in Some (n, over_snippets (fun _ => m) t).

Definition bury_snippet (id : string) (ts : Z) : sql Z := fun t =>
  let '(n, m) := update_row (mark_deleted ts) id (snippets t) in Some (n, over_snippets (fun _ => m) t).

Definition bury_snippets (ts : Z) : sql Z := fun t => Some (live_count (snippets t), over_snippets (bury_all id ts) t).

Definition insert_session_snippet (s snippet : string) : sql unit := fun t =>
  change (fun t' => references (sessions t') (Some s) && references (snippets t') (Some snippet))
    (over_session_snippets (union {[(s, snippet)]}) t) ().

(** ** What hangs off a session *)
Definition select_webdavs : sql (list WebDavSessionRow) := fun t => Some (row_order (webdav_row <$> live_rows (webdav_details t)), t).
Definition select_all_webdavs : sql (list (stored WebDavDetails)) := fun t => Some (row_order (webdav_details t), t).
Definition select_s3s : sql (list S3SessionRow) := fun t => Some (row_order (s3_row <$> live_rows (s3_details t)), t).
Definition select_all_s3s : sql (list (stored S3Details)) := fun t => Some (row_order (s3_details t), t).
Definition select_bookmarks : sql (list SftpBookmarkRow) := fun t => Some (row_order (live_rows (sftp_bookmarks t)), t).
Definition select_rules : sql (list PortForwardRuleRow) := fun t => Some (row_order (live_rows (port_forward_rules t)), t).

Definition select_webdav_updated_at (id : string) : sql (option Z) := fun t =>
  Some ((fun s => webdav_updated_at (row s)) <$> webdav_details t !! id, t).

(** The column [password] is not named by the upsert: a row keeps its own. *)
Definition insert_webdav (r : WebDavSessionRow) (ts : Z) : sql unit := fun t =>
  let pw := match webdav_details t !! webdav_session_id r with Some old => webdav_password (row old) | None => ""%string end in
  change (fun t' => references (sessions t') (Some (webdav_session_id r)))
    (over_webdav_details (insert (webdav_session_id r) (mkStored (mkWebDavDetails r pw ts) None)) t) ().

Definition stamp_webdav (ts : Z) (r : WebDavDetails) : WebDavDetails := mkWebDavDetails (webdav_row r) (webdav_password r) ts.

Definition tombstone_webdav (id : string) (ts : Z) : sql Z := fun t =>
  let '(n, m) := update_row (bury webdav_updated_at stamp_webdav ts) id (webdav_details t) in
  Some (n, over_webdav_details (fun _ => m) t).

Definition bury_webdavs (ts : Z) : sql Z := fun t =>
  Some (live_count (webdav_details t), over_webdav_details (bury_all (stamp_webdav ts) ts) t).

Definition select_s3_updated_at (id : string) : sql (option Z) := fun t =>
  Some ((fun s => s3_updated_at (row s)) <$> s3_details t !! id, t).

Definition insert_s3 (r : S3SessionRow) (ts : Z) : sql unit := fun t =>
  let secret := match s3_details t !! s3_session_id r with Some old => secret_access_key (row old) | None => ""%string end in
  change (fun t' => references (sessions t') (Some (s3_session_id r)))
    (over_s3_details (insert (s3_session_id r) (mkStored (mkS3Details r secret ts) None)) t) ().

Definition stamp_s3 (ts : Z) (r : S3Details) : S3Details := mkS3Details (s3_row r) (secret_access_key r) ts.

Definition tombstone_s3 (id : string) (ts : Z) : sql Z := fun t =>
  let '(n, m) := update_row (bury s3_updated_at stamp_s3 ts) id (s3_details t) in Some (n, over_s3_details (fun _ => m) t).

Definition bury_s3s (ts : Z) : sql Z := fun t =>
  Some (live_count (s3_details t), over_s3_details (bury_all (stamp_s3 ts) ts) t).

Definition select_all_bookmarks : sql (list (stored SftpBookmarkRow)) := fun t => Some (row_order (sftp_bookmarks t), t).

Definition insert_bookmark (r : SftpBookmarkRow) : sql unit := fun t =>
  let created := match sftp_bookmarks t !! bookmark_key r with Some old => bookmark_created_at_ms (row old) | None => bookmark_created_at_ms r end in
  let new := mkBookmark (bookmark_key r) (bookmark_session_id r) (remote_path r) (bookmark_label r) created in
  change (fun t' => references (sessions t') (Some (bookmark_session_id r)))
    (over_sftp_bookmarks (insert (bookmark_key r) (mkStored new None)) t) ().

Definition tombstone_bookmark (id : string) (ts : Z) : sql Z := fun t =>
  let '(n, m) := update_row (bury_created bookmark_created_at_ms ts) id (sftp_bookmarks t) in
  Some (n, over_sftp_bookmarks (fun _ => m) t).

Definition bury_bookmarks (ts : Z) : sql Z := fun t => Some (live_count (sftp_bookmarks t), over_sftp_bookmarks (bury_all id ts) t).

Definition select_all_rules : sql (list (stored PortForwardRuleRow)) := fun t => Some (row_order (port_forward_rules t), t).

Definition stamp_rule (ts : Z) (r : PortForwardRuleRow) : PortForwardRuleRow :=
  mkRule (rule_key r) (rule_session_id r) (rule_kind r) (bind_host r) (bind_port r) (remote_host r) (remote_port r)
    (rule_description r) (enabled r) (rule_sort_order r) (rule_created_at_ms r) ts.

Definition insert_rule (r : PortForwardRuleRow) (ts : Z) : sql unit := fun t =>
  let created := match port_forward_rules t !! rule_key r with Some old => rule_created_at_ms (row old) | None => rule_created_at_ms r end in
  let new := mkRule (rule_key r) (rule_session_id r) (rule_kind r) (bind_host r) (bind_port r) (remote_host r) (remote_port r)
               (rule_description r) (enabled r) (rule_sort_order r) created ts in
  change (fun t' => references (sessions t') (Some (rule_session_id r)))
    (over_port_forward_rules (insert (rule_key r) (mkStored new None)) t) ().

Definition tombstone_rule (id : string) (ts : Z) : sql Z := fun t =>
  let '(n, m) := update_row (bury rule_updated_at_ms stamp_rule ts) id (port_forward_rules t) in
  Some (n, over_port_forward_rules (fun _ => m) t).

Definition bury_rules (ts : Z) : sql Z := fun t =>
  Some (live_count (port_forward_rules t), over_port_forward_rules (bury_all (stamp_rule ts) ts) t).

(** ** Known hosts: the statements of [KnownHosts.statement], as changes of this table.  [id]
    is AUTOINCREMENT: one more than any ever given. *)
Definition host_row (k : chars * Z) (v : HostKey) : KnownHostRow :=
  KnownHosts.mkRow (hk_id v) k.1 k.2 (hk_key_type v) (hk_key_base64 v) (hk_added_at v).

Definition known_hosts_sql {A} (s : statement A) : sql A :=
  match s with
  | SelectAll => fun t => Some ((fun kv => host_row kv.1 kv.2) <$> map_to_list (known_hosts t), t)
  | SelectByHostPort h p => fun t => Some (option_list (host_row (h, p) <$> known_hosts t !! (h, p)), t)
  | InsertOrUpdate h p kt kb at_ => fun t =>
      match known_hosts t !! (h, p) with
      | Some old => Some (hk_id old, over_known_hosts (insert (h, p) (mkHostKey (hk_id old) kt kb at_)) t)
      | None =>
          let i := host_sequence t + 1 in
          Some (i, over_host_sequence (fun _ => i) (over_known_hosts (insert (h, p) (mkHostKey i kt kb at_)) t))
      end
  | DeleteByHostPort h p => fun t =>
      Some (count_of (if decide (is_Some (known_hosts t !! (h, p))) then 1 else 0), over_known_hosts (delete (h, p)) t)
  | DeleteAll => fun t => Some (count_of (size (known_hosts t)), over_known_hosts (fun _ => ∅) t)
  end.

End Sql.

#[global] Arguments change : simpl never.

(** ** The known-hosts interface

    The statements of [KnownHosts] run on these tables. *)
#[export] Instance database_sqlite `{Database D} : Sqlite D := fun A s d => execute (known_hosts_sql s) d.

Definition host_table (t : Tables) : gmap (chars * Z) KnownHostRow := map_imap (fun k v => Some (host_row k v)) (known_hosts t).

Lemma host_table_insert t k v : host_table (over_known_hosts (insert k v) t) = <[k := host_row k v]> (host_table t).
Proof. unfold host_table, over_known_hosts. cbn [known_hosts]. by erewrite map_imap_insert_Some. Qed.

Lemma host_table_lookup t k : host_table t !! k = host_row k <$> known_hosts t !! k.
Proof. unfold host_table. rewrite map_lookup_imap. by destruct (known_hosts t !! k). Qed.

Lemma host_rows_list t : (fun kv : chars * Z * HostKey => host_row kv.1 kv.2) <$> map_to_list (known_hosts t) ≡ₚ (map_to_list (host_table t)).*2.
Proof.
  unfold host_table. induction (known_hosts t) as [|k v m Hk IH] using map_ind.
  { by rewrite map_imap_empty, !map_to_list_empty. }
  erewrite map_imap_insert_Some by done. rewrite !map_to_list_insert, !fmap_cons by (done || (by rewrite map_lookup_imap, Hk)).
  by rewrite IH.
Qed.

(** What the engine answered to a statement of [KnownHosts], and the tables it left. *)
Lemma host_executed `{Database D} A (s : statement A) d a :
  (KnownHosts.execute s d).1 = inr a -> known_hosts_sql s (tables d) = Some (a, tables (KnownHosts.execute s d).2).
Proof. apply executed. Qed.

#[export, program] Instance database_known_hosts `{Database D} : KnownHostsTable D :=
  {| table d := host_table (tables d); KnownHosts.working := Tables.working |}.
Next Obligation. intros ? ? A s d e He. unfold KnownHosts.execute, database_sqlite in *. by rewrite (execute_failed _ _ _ e). Qed.
Next Obligation.
  intros ? ? d l Ht%host_executed. injection Ht as <- Ht. rewrite <- Ht. split; [apply host_rows_list|done].
Qed.
Next Obligation.
  intros ? ? h p d l Ht%host_executed. injection Ht as <- Ht. rewrite <- Ht, host_table_lookup. done.
Qed.
Next Obligation.
  intros ? ? h p kt kb at_ d i Ht%host_executed. cbn [known_hosts_sql] in Ht.
  destruct (known_hosts (tables d) !! (h, p)) as [old|]; injection Ht as <- Ht; rewrite <- Ht; apply host_table_insert.
Qed.
Next Obligation. intros ? ? h p d n Ht%host_executed. injection Ht as <- Ht. cbv beta. rewrite <- Ht. apply map_imap_delete. Qed.
Next Obligation. intros ? ? d n Ht%host_executed. injection Ht as <- Ht. cbv beta. rewrite <- Ht. apply map_imap_empty. Qed.
Next Obligation.
  intros ? ? d h p r. cbn beta. rewrite host_table_lookup. intros (v & _ & ->)%fmap_Some. done.
Qed.
Next Obligation.
  intros ? ? A s d Hw. unfold KnownHosts.execute, database_sqlite.
  assert (exists a t, known_hosts_sql s (tables d) = Some (a, t)) as (a & t & Hs).
  { destruct s; cbn; eauto. destruct (_ !! _); eauto. }
  destruct (working_executes _ _ _ _ _ Hw Hs). eauto.
Qed.
