(* ===== verification/Dao.v ===== *)
(** * Data access ([db/*.rs])

    One module per file of [src/rust/crates/lfs_core/src/db]: each function as the calls it
    makes to the connection, over the statements of [Tables]. *)
From Stdlib Require Import ZArith Lia.
From stdpp Require Import prelude gmap strings list.
From S2P Require Import Prelude Text Bus PromptRegistry Prog KnownHosts Tables.

Open Scope Z_scope.

(** [Display] of the errors this code raises. *)
Definition display (e : Error) : string :=
  match e with
  | Db s => "db: " ++ s
  | Io s => "io: " ++ s
  | Transport s => "transport: " ++ s
  | Archive s => "archive: " ++ s
  | Auth s => "auth error: " ++ s
  end%string.

(** The [?] operator. *)
Definition try {W A B} (p : prog W (Error + A)) (q : A -> prog W (Error + B)) : prog W (Error + B) :=
  pbind p (fun r => match r with inl e => Ret (inl e) | inr a => q a end).

Declare Scope dao_scope.
Delimit Scope dao_scope with dao.
Notation "'let?' x := p 'in' q" := (try p (fun x => q))
  (at level 200, x name, p at level 100, q at level 200, right associativity) : dao_scope.
Open Scope prog_scope.
Open Scope dao_scope.

Section Calls.
Context {D : Type} `{Database D}.

(** [conn.raw().execute(…).map_err(|e| Error::Db(format!("{label}: {e}")))] *)
Definition exec {A} (label : string) (s : sql A) : prog D (Error + A) :=
  let! r := call (execute s) in
  Ret (match r with inl f => inl (Db (label ++ ": " ++ f.2)) | inr a => inr a end).

(** A prepared query: its three failures are labelled. *)
Definition query_as {A} (prepare q row : string) (s : sql A) : prog D (Error + A) :=
  let! r := call (execute s) in
  Ret (match r with inl f => inl (in_stage prepare q row f) | inr a => inr a end).

Definition query {A} (label : string) (s : sql A) : prog D (Error + A) :=
  query_as (label ++ " prepare") (label ++ " query") (label ++ " row") s.

(** [.query_row(…).ok()] of one column: any failure reads as no row. *)
Definition query_ok {A} (s : sql (option A)) : prog D (Error + option A) :=
  let! r := call (execute s) in Ret (inr (match r with inl _ => None | inr a => a end)).

Definition fresh_id : prog D string := let! bytes := call fill_bytes in Ret (hex_id bytes).

Definition at_now {A} (p : Z -> prog D A) : prog D A := let! now_ms := call now_unix_ms in p now_ms.

End Calls.

Definition slash : Ascii.ascii := Ascii.ascii_of_nat 47.

(** [path.split('/')] *)
Definition split_slash (path : string) : list string :=
  (fun s => String.string_of_list_ascii s) <$>
    foldr (fun c acc => match acc with
                        | [] => [[c]]
                        | h :: rest => if Ascii.eqb c slash then [] :: h :: rest else (c :: h) :: rest
                        end) [[]] (String.list_ascii_of_string path).

(** [path.split('/').filter(|s| !s.is_empty())] *)
Definition segments (path : string) : list string := filter (fun s => s <> ""%string) (split_slash path).

Module Folders.
Section Ops.
Context {D : Type} `{Database D}.

Definition list_all : prog D (Error + list FolderRow) := query "folders" select_folders.
Definition upsert (r : FolderRow) : prog D (Error + unit) := exec "folders upsert" (insert_folder r).
Definition delete (id : string) : prog D (Error + Z) := exec "folders delete" (delete_folders (String.eqb id)).
Definition delete_all : prog D (Error + Z) := exec "folders delete_all" (delete_folders (fun _ => true)).

(** The walk of [ensure_folder_path]: known folders by parent and name. *)
Definition Known : Type := gmap (option string * string) string.

Definition known_folders (rows : list FolderRow) : Known :=
  foldl (fun m f => <[(parent_id f, folder_name f) := folder_key f]> m) ∅ rows.

Fixpoint walk (segs : list string) (now_ms : Z) (by_parent : Known) (parent : option string) :
    prog D (Error + option string) :=
  match segs with
  | [] => Ret (inr parent)
  | seg :: segs =>
      match by_parent !! (parent, seg) with
      | Some existing => walk segs now_ms by_parent (Some existing)
      | None =>
          let! new := fresh_id in
          let? _ := upsert (mkFolder new seg parent 0 false now_ms) in
          walk segs now_ms (<[(parent, seg) := new]> by_parent) (Some new)
      end
  end.

Definition ensure_folder_path (path : string) (now_ms : Z) : prog D (Error + option string) :=
  if String.eqb path "" then Ret (inr None)
  else let? folders := list_all in walk (segments path) now_ms (known_folders folders) None.

End Ops.
End Folders.

Module Sessions.
Section Ops.
Context {D : Type} `{Database D}.

Definition list_all : prog D (Error + list SessionRow) := query "sessions" select_sessions.
Definition list_all_with_tombstones : prog D (Error + list (stored SessionRow)) :=
  query "sessions list_all_with_tombstones" select_all_sessions.

Definition apply_tombstone (id : string) (deleted_at_ms : Z) : prog D (Error + Z) :=
  exec "sessions apply_tombstone" (tombstone_session id deleted_at_ms).

Definition upsert_ssh_details (r : SessionRow) : prog D (Error + unit) :=
  exec "ssh_session_details upsert" (insert_ssh_details r).
Definition delete_ssh_details (id : string) : prog D (Error + unit) :=
  let? _ := exec "ssh_session_details delete" (remove_ssh_details id) in Ret (inr ()).
Definition delete_webdav_details (id : string) : prog D (Error + unit) :=
  let? _ := exec "webdav_session_details delete" (remove_webdav_details id) in Ret (inr ()).
Definition delete_s3_details (id : string) : prog D (Error + unit) :=
  let? _ := exec "s3_session_details delete" (remove_s3_details id) in Ret (inr ()).

Definition upsert (r : SessionRow) : prog D (Error + unit) :=
  let k := normalise_kind (kind r) in
  let? _ := exec "sessions upsert" (insert_session r) in
  let? _ := if String.eqb k SESSION_KIND_SSH then upsert_ssh_details r else delete_ssh_details (session_key r) in
  let? _ := if String.eqb k SESSION_KIND_WEBDAV then Ret (inr ()) else delete_webdav_details (session_key r) in
  let? _ := if String.eqb k SESSION_KIND_S3 then Ret (inr ()) else delete_s3_details (session_key r) in
  Ret (inr ()).

Definition delete (id : string) : prog D (Error + Z) := at_now (fun now => exec "sessions delete" (bury_session id now)).
Definition delete_all : prog D (Error + Z) := at_now (fun now => exec "sessions delete_all" (bury_sessions now)).

End Ops.
End Sessions.

Module SshKeys.
Section Ops.
Context {D : Type} `{Database D}.
Variable sha256 : list Z -> list Z.

Definition list_all : prog D (Error + list SshKeyRow) := query_as "ssh_keys list prepare" "ssh_keys list query" "ssh_keys row" select_keys.
Definition list_all_with_tombstones : prog D (Error + list (stored SshKeyRow)) :=
  query "ssh_keys list_all_with_tombstones" select_all_keys.
Definition apply_tombstone (id : string) (deleted_at_ms : Z) : prog D (Error + Z) :=
  exec "ssh_keys apply_tombstone" (tombstone_key id deleted_at_ms).
Definition upsert (r : SshKeyRow) : prog D (Error + unit) := exec "ssh_keys upsert" (insert_key r).
Definition delete (id : string) : prog D (Error + Z) := at_now (fun now => exec "ssh_keys delete" (bury_key id now)).

(** [s.replace("\r\n", "\n")] *)
Fixpoint unix_lines (s : chars) : chars :=
  match s with
  | 13 :: 10 :: r => 10 :: unix_lines r
  | c :: r => c :: unix_lines r
  | [] => []
  end.

Definition normalized_sha256_hex (s : string) : string :=
  let trimmed := trim (unix_lines (default [] (Utf8.decode (lit s)))) in
  if bool_decide (trimmed = []) then ""%string else to_string (sha256 (Utf8.encode trimmed) ≫= hex_byte).

(** Of the 22 fields of the struct, those its readers here look at. *)
Record SshKeyMetadata := mkMetadata {
  m_id : string;
  m_label : string;
  m_public_key : string;
  m_private_fingerprint : string;
  m_public_fingerprint : string
}.

Definition metadata_of (r : SshKeyRow) : SshKeyMetadata :=
  mkMetadata (key_key r) (key_label r) (public_key r) (normalized_sha256_hex (private_key r))
    (normalized_sha256_hex (public_key r)).

Definition list_metadata : prog D (Error + list SshKeyMetadata) :=
  let? rows := query "ssh_keys list_metadata" select_keys in Ret (inr (metadata_of <$> rows)).

End Ops.
End SshKeys.

Module Certificates.
Section Ops.
Context {D : Type} `{Database D}.
Definition list_all : prog D (Error + list CertRecord) := query "ssh_key_certificates list" select_certificates.
Definition upsert (r : CertRecord) : prog D (Error + unit) := exec "ssh_key_certificates upsert" (insert_certificate r).
End Ops.
End Certificates.

Module Tags.
Section Ops.
Context {D : Type} `{Database D}.
Definition list_all : prog D (Error + list TagRow) := query "tags" select_tags.
Definition list_all_with_tombstones : prog D (Error + list (stored TagRow)) := query "tags list_all_with_tombstones" select_all_tags.
Definition list_session_tag_ids (s : string) : prog D (Error + list string) := query "session_tags" (select_session_tags s).
Definition list_folder_tag_ids (f : string) : prog D (Error + list string) := query "folder_tags" (select_folder_tags f).
Definition apply_tombstone (id : string) (ts : Z) : prog D (Error + Z) := exec "tags apply_tombstone" (tombstone_tag id ts).
Definition upsert (r : TagRow) : prog D (Error + unit) := exec "tags upsert" (insert_tag r).
Definition delete (id : string) : prog D (Error + Z) := at_now (fun now => exec "tags delete" (bury_tag id now)).
Definition delete_all : prog D (Error + Z) := at_now (fun now => exec "tags delete_all" (bury_tags now)).
Definition link_session_tag (s tag : string) : prog D (Error + unit) := exec "session_tags insert" (insert_session_tag s tag).
Definition link_folder_tag (f tag : string) : prog D (Error + unit) := exec "folder_tags insert" (insert_folder_tag f tag).
End Ops.
End Tags.

Module Snippets.
Section Ops.
Context {D : Type} `{Database D}.
Definition list_all : prog D (Error + list SnippetRow) := query "snippets" select_snippets.
Definition list_all_with_tombstones : prog D (Error + list (stored SnippetRow)) :=
  query "snippets list_all_with_tombstones" select_all_snippets.
Definition list_session_snippet_ids (s : string) : prog D (Error + list string) := query "session_snippets" (select_session_snippets s).
Definition apply_tombstone (id : string) (ts : Z) : prog D (Error + Z) := exec "snippets apply_tombstone" (tombstone_snippet id ts).
Definition upsert (r : SnippetRow) : prog D (Error + unit) := exec "snippets upsert" (insert_snippet r).
Definition delete (id : string) : prog D (Error + Z) := at_now (fun now => exec "snippets delete" (bury_snippet id now)).
Definition delete_all : prog D (Error + Z) := at_now (fun now => exec "snippets delete_all" (bury_snippets now)).
Definition link_session_snippet (s sn : string) : prog D (Error + unit) :=
  exec "session_snippets insert" (insert_session_snippet s sn).
End Ops.
End Snippets.

Module WebDavSessions.
Section Ops.
Context {D : Type} `{Database D}.
Definition list_all : prog D (Error + list WebDavSessionRow) := query "webdav_session_details list" select_webdavs.
Definition list_all_with_tombstones : prog D (Error + list (stored WebDavDetails)) :=
  query "webdav_session_details list_all_with_tombstones" select_all_webdavs.
Definition get_updated_at (id : string) : prog D (Error + option Z) := query_ok (select_webdav_updated_at id).
Definition upsert_with_stamp (r : WebDavSessionRow) (ts : Z) : prog D (Error + unit) :=
  exec "webdav_session_details upsert" (insert_webdav r ts).
Definition upsert (r : WebDavSessionRow) : prog D (Error + unit) := at_now (upsert_with_stamp r).
Definition apply_tombstone (id : string) (ts : Z) : prog D (Error + Z) :=
  exec "webdav_session_details apply_tombstone" (tombstone_webdav id ts).
Definition delete_all : prog D (Error + Z) := at_now (fun now => exec "webdav_session_details delete_all" (bury_webdavs now)).
End Ops.
End WebDavSessions.

Module S3Sessions.
Section Ops.
Context {D : Type} `{Database D}.
Definition list_all : prog D (Error + list S3SessionRow) := query "s3_session_details list" select_s3s.
Definition list_all_with_tombstones : prog D (Error + list (stored S3Details)) :=
  query "s3_session_details list_all_with_tombstones" select_all_s3s.
Definition get_updated_at (id : string) : prog D (Error + option Z) := query_ok (select_s3_updated_at id).
Definition upsert_with_stamp (r : S3SessionRow) (ts : Z) : prog D (Error + unit) :=
  exec "s3_session_details upsert" (insert_s3 r ts).
Definition upsert (r : S3SessionRow) : prog D (Error + unit) := at_now (upsert_with_stamp r).
Definition apply_tombstone (id : string) (ts : Z) : prog D (Error + Z) :=
  exec "s3_session_details apply_tombstone" (tombstone_s3 id ts).
Definition delete_all : prog D (Error + Z) := at_now (fun now => exec "s3_session_details delete_all" (bury_s3s now)).
End Ops.
End S3Sessions.

Module Bookmarks.
Section Ops.
Context {D : Type} `{Database D}.
Definition list_all : prog D (Error + list SftpBookmarkRow) := query "sftp_bookmarks list_all" select_bookmarks.
Definition list_all_with_tombstones : prog D (Error + list (stored SftpBookmarkRow)) :=
  query "sftp_bookmarks list_all_with_tombstones" select_all_bookmarks.
Definition upsert (r : SftpBookmarkRow) : prog D (Error + unit) := exec "sftp_bookmarks upsert" (insert_bookmark r).
Definition apply_tombstone (id : string) (ts : Z) : prog D (Error + Z) :=
  exec "sftp_bookmarks apply_tombstone" (tombstone_bookmark id ts).
Definition delete_all : prog D (Error + Z) := at_now (fun now => exec "sftp_bookmarks delete_all" (bury_bookmarks now)).
End Ops.
End Bookmarks.

Module PortForwards.
Section Ops.
Context {D : Type} `{Database D}.
Definition list_all : prog D (Error + list PortForwardRuleRow) := query "port_forwards list_all" select_rules.
Definition list_all_with_tombstones : prog D (Error + list (stored PortForwardRuleRow)) :=
  query "port_forwards list_all_with_tombstones" select_all_rules.
Definition upsert_with_stamp (r : PortForwardRuleRow) (ts : Z) : prog D (Error + unit) :=
  exec "port_forwards upsert" (insert_rule r ts).
Definition upsert (r : PortForwardRuleRow) : prog D (Error + unit) := at_now (upsert_with_stamp r).
Definition apply_tombstone (id : string) (ts : Z) : prog D (Error + Z) :=
  exec "port_forwards apply_tombstone" (tombstone_rule id ts).
Definition delete_all : prog D (Error + Z) := at_now (fun now => exec "port_forwards delete_all" (bury_rules now)).
End Ops.
End PortForwards.
