(* ===== verification/Apply.v ===== *)
(** * Applying an archive ([archive/apply/mod.rs], [sync/merge.rs])

    The driver that folds a parsed archive into the database: an import that merges, an import
    that replaces, and the last-writer-wins merge of a synchronised snapshot.  Each arm is the
    sequence of data-access calls the code makes, with the counters and messages it collects on
    the way.  The JSON text is the serializer's ([SerdeText]), base64 and SHA-256 are
    parameters. *)
From Stdlib Require Import ZArith Lia.
From stdpp Require Import prelude gmap strings list sorting.
From S2P Require Import Prelude Text Json Bus PromptRegistry Prog KnownHosts Iso8601 Tables Dao.

Open Scope Z_scope.
Open Scope prog_scope.

(** ** Modes and outcome *)
Inductive ImportMode := Merge | Replace.
Inductive ApplyMode := ArchiveImport (replace_mode : bool) | Sync.

Definition is_archive (m : ApplyMode) : bool := match m with ArchiveImport _ => true | Sync => false end.
Definition is_sync (m : ApplyMode) : bool := match m with Sync => true | ArchiveImport _ => false end.

Record ApplyOutcome := mkOutcome {
  sessions_applied : Z;
  keys_applied : Z;
  keys_skipped_dedup : Z;
  tags_applied : Z;
  snippets_applied : Z;
  known_hosts_applied : Z;
  folders_applied : Z;
  session_tags_applied : Z;
  folder_tags_applied : Z;
  session_snippets_applied : Z;
  ssh_key_certificates_applied : Z;
  webdav_session_details_applied : Z;
  s3_session_details_applied : Z;
  sftp_bookmarks_applied : Z;
  port_forward_rules_applied : Z;
  links_skipped : Z;
  errors : list string;
  warnings : list string;
  rolled_back : bool
}.

Definition new_outcome : ApplyOutcome := mkOutcome 0 0 0 0 0 0 0 0 0 0 0 0 0 0 0 0 [] [] false.

Definition bump_sessions_applied (o : ApplyOutcome) : ApplyOutcome :=
  mkOutcome (sessions_applied o + 1) (keys_applied o) (keys_skipped_dedup o) (tags_applied o) (snippets_applied o) (known_hosts_applied o) (folders_applied o) (session_tags_applied o) (folder_tags_applied o) (session_snippets_applied o) (ssh_key_certificates_applied o) (webdav_session_details_applied o) (s3_session_details_applied o) (sftp_bookmarks_applied o) (port_forward_rules_applied o) (links_skipped o) (errors o) (warnings o) (rolled_back o).
Definition bump_keys_applied (o : ApplyOutcome) : ApplyOutcome :=
  mkOutcome (sessions_applied o) (keys_applied o + 1) (keys_skipped_dedup o) (tags_applied o) (snippets_applied o) (known_hosts_applied o) (folders_applied o) (session_tags_applied o) (folder_tags_applied o) (session_snippets_applied o) (ssh_key_certificates_applied o) (webdav_session_details_applied o) (s3_session_details_applied o) (sftp_bookmarks_applied o) (port_forward_rules_applied o) (links_skipped o) (errors o) (warnings o) (rolled_back o).
Definition bump_keys_skipped_dedup (o : ApplyOutcome) : ApplyOutcome :=
  mkOutcome (sessions_applied o) (keys_applied o) (keys_skipped_dedup o + 1) (tags_applied o) (snippets_applied o) (known_hosts_applied o) (folders_applied o) (session_tags_applied o) (folder_tags_applied o) (session_snippets_applied o) (ssh_key_certificates_applied o) (webdav_session_details_applied o) (s3_session_details_applied o) (sftp_bookmarks_applied o) (port_forward_rules_applied o) (links_skipped o) (errors o) (warnings o) (rolled_back o).
Definition bump_tags_applied (o : ApplyOutcome) : ApplyOutcome :=
  mkOutcome (sessions_applied o) (keys_applied o) (keys_skipped_dedup o) (tags_applied o + 1) (snippets_applied o) (known_hosts_applied o) (folders_applied o) (session_tags_applied o) (folder_tags_applied o) (session_snippets_applied o) (ssh_key_certificates_applied o) (webdav_session_details_applied o) (s3_session_details_applied o) (sftp_bookmarks_applied o) (port_forward_rules_applied o) (links_skipped o) (errors o) (warnings o) (rolled_back o).
Definition bump_snippets_applied (o : ApplyOutcome) : ApplyOutcome :=
  mkOutcome (sessions_applied o) (keys_applied o) (keys_skipped_dedup o) (tags_applied o) (snippets_applied o + 1) (known_hosts_applied o) (folders_applied o) (session_tags_applied o) (folder_tags_applied o) (session_snippets_applied o) (ssh_key_certificates_applied o) (webdav_session_details_applied o) (s3_session_details_applied o) (sftp_bookmarks_applied o) (port_forward_rules_applied o) (links_skipped o) (errors o) (warnings o) (rolled_back o).
Definition bump_known_hosts_applied (o : ApplyOutcome) : ApplyOutcome :=
  mkOutcome (sessions_applied o) (keys_applied o) (keys_skipped_dedup o) (tags_applied o) (snippets_applied o) (known_hosts_applied o + 1) (folders_applied o) (session_tags_applied o) (folder_tags_applied o) (session_snippets_applied o) (ssh_key_certificates_applied o) (webdav_session_details_applied o) (s3_session_details_applied o) (sftp_bookmarks_applied o) (port_forward_rules_applied o) (links_skipped o) (errors o) (warnings o) (rolled_back o).
Definition bump_folders_applied (o : ApplyOutcome) : ApplyOutcome :=
  mkOutcome (sessions_applied o) (keys_applied o) (keys_skipped_dedup o) (tags_applied o) (snippets_applied o) (known_hosts_applied o) (folders_applied o + 1) (session_tags_applied o) (folder_tags_applied o) (session_snippets_applied o) (ssh_key_certificates_applied o) (webdav_session_details_applied o) (s3_session_details_applied o) (sftp_bookmarks_applied o) (port_forward_rules_applied o) (links_skipped o) (errors o) (warnings o) (rolled_back o).
Definition bump_session_tags_applied (o : ApplyOutcome) : ApplyOutcome :=
  mkOutcome (sessions_applied o) (keys_applied o) (keys_skipped_dedup o) (tags_applied o) (snippets_applied o) (known_hosts_applied o) (folders_applied o) (session_tags_applied o + 1) (folder_tags_applied o) (session_snippets_applied o) (ssh_key_certificates_applied o) (webdav_session_details_applied o) (s3_session_details_applied o) (sftp_bookmarks_applied o) (port_forward_rules_applied o) (links_skipped o) (errors o) (warnings o) (rolled_back o).
Definition bump_folder_tags_applied (o : ApplyOutcome) : ApplyOutcome :=
  mkOutcome (sessions_applied o) (keys_applied o) (keys_skipped_dedup o) (tags_applied o) (snippets_applied o) (known_hosts_applied o) (folders_applied o) (session_tags_applied o) (folder_tags_applied o + 1) (session_snippets_applied o) (ssh_key_certificates_applied o) (webdav_session_details_applied o) (s3_session_details_applied o) (sftp_bookmarks_applied o) (port_forward_rules_applied o) (links_skipped o) (errors o) (warnings o) (rolled_back o).
Definition bump_session_snippets_applied (o : ApplyOutcome) : ApplyOutcome :=
  mkOutcome (sessions_applied o) (keys_applied o) (keys_skipped_dedup o) (tags_applied o) (snippets_applied o) (known_hosts_applied o) (folders_applied o) (session_tags_applied o) (folder_tags_applied o) (session_snippets_applied o + 1) (ssh_key_certificates_applied o) (webdav_session_details_applied o) (s3_session_details_applied o) (sftp_bookmarks_applied o) (port_forward_rules_applied o) (links_skipped o) (errors o) (warnings o) (rolled_back o).
Definition bump_ssh_key_certificates_applied (o : ApplyOutcome) : ApplyOutcome :=
  mkOutcome (sessions_applied o) (keys_applied o) (keys_skipped_dedup o) (tags_applied o) (snippets_applied o) (known_hosts_applied o) (folders_applied o) (session_tags_applied o) (folder_tags_applied o) (session_snippets_applied o) (ssh_key_certificates_applied o + 1) (webdav_session_details_applied o) (s3_session_details_applied o) (sftp_bookmarks_applied o) (port_forward_rules_applied o) (links_skipped o) (errors o) (warnings o) (rolled_back o).
Definition bump_webdav_session_details_applied (o : ApplyOutcome) : ApplyOutcome :=
  mkOutcome (sessions_applied o) (keys_applied o) (keys_skipped_dedup o) (tags_applied o) (snippets_applied o) (known_hosts_applied o) (folders_applied o) (session_tags_applied o) (folder_tags_applied o) (session_snippets_applied o) (ssh_key_certificates_applied o) (webdav_session_details_applied o + 1) (s3_session_details_applied o) (sftp_bookmarks_applied o) (port_forward_rules_applied o) (links_skipped o) (errors o) (warnings o) (rolled_back o).
Definition bump_s3_session_details_applied (o : ApplyOutcome) : ApplyOutcome :=
  mkOutcome (sessions_applied o) (keys_applied o) (keys_skipped_dedup o) (tags_applied o) (snippets_applied o) (known_hosts_applied o) (folders_applied o) (session_tags_applied o) (folder_tags_applied o) (session_snippets_applied o) (ssh_key_certificates_applied o) (webdav_session_details_applied o) (s3_session_details_applied o + 1) (sftp_bookmarks_applied o) (port_forward_rules_applied o) (links_skipped o) (errors o) (warnings o) (rolled_back o).
Definition bump_sftp_bookmarks_applied (o : ApplyOutcome) : ApplyOutcome :=
  mkOutcome (sessions_applied o) (keys_applied o) (keys_skipped_dedup o) (tags_applied o) (snippets_applied o) (known_hosts_applied o) (folders_applied o) (session_tags_applied o) (folder_tags_applied o) (session_snippets_applied o) (ssh_key_certificates_applied o) (webdav_session_details_applied o) (s3_session_details_applied o) (sftp_bookmarks_applied o + 1) (port_forward_rules_applied o) (links_skipped o) (errors o) (warnings o) (rolled_back o).
Definition bump_port_forward_rules_applied (o : ApplyOutcome) : ApplyOutcome :=
  mkOutcome (sessions_applied o) (keys_applied o) (keys_skipped_dedup o) (tags_applied o) (snippets_applied o) (known_hosts_applied o) (folders_applied o) (session_tags_applied o) (folder_tags_applied o) (session_snippets_applied o) (ssh_key_certificates_applied o) (webdav_session_details_applied o) (s3_session_details_applied o) (sftp_bookmarks_applied o) (port_forward_rules_applied o + 1) (links_skipped o) (errors o) (warnings o) (rolled_back o).
Definition bump_links_skipped (o : ApplyOutcome) : ApplyOutcome :=
  mkOutcome (sessions_applied o) (keys_applied o) (keys_skipped_dedup o) (tags_applied o) (snippets_applied o) (known_hosts_applied o) (folders_applied o) (session_tags_applied o) (folder_tags_applied o) (session_snippets_applied o) (ssh_key_certificates_applied o) (webdav_session_details_applied o) (s3_session_details_applied o) (sftp_bookmarks_applied o) (port_forward_rules_applied o) (links_skipped o + 1) (errors o) (warnings o) (rolled_back o).
Definition push_error (e : string) (o : ApplyOutcome) : ApplyOutcome :=
  mkOutcome (sessions_applied o) (keys_applied o) (keys_skipped_dedup o) (tags_applied o) (snippets_applied o) (known_hosts_applied o) (folders_applied o) (session_tags_applied o) (folder_tags_applied o) (session_snippets_applied o) (ssh_key_certificates_applied o) (webdav_session_details_applied o) (s3_session_details_applied o) (sftp_bookmarks_applied o) (port_forward_rules_applied o) (links_skipped o) (errors o ++ [e]) (warnings o) (rolled_back o).
Definition push_warning (e : string) (o : ApplyOutcome) : ApplyOutcome :=
  mkOutcome (sessions_applied o) (keys_applied o) (keys_skipped_dedup o) (tags_applied o) (snippets_applied o) (known_hosts_applied o) (folders_applied o) (session_tags_applied o) (folder_tags_applied o) (session_snippets_applied o) (ssh_key_certificates_applied o) (webdav_session_details_applied o) (s3_session_details_applied o) (sftp_bookmarks_applied o) (port_forward_rules_applied o) (links_skipped o) (errors o) (warnings o ++ [e]) (rolled_back o).
Definition set_rolled_back (o : ApplyOutcome) : ApplyOutcome :=
  mkOutcome (sessions_applied o) (keys_applied o) (keys_skipped_dedup o) (tags_applied o) (snippets_applied o) (known_hosts_applied o) (folders_applied o) (session_tags_applied o) (folder_tags_applied o) (session_snippets_applied o) (ssh_key_certificates_applied o) (webdav_session_details_applied o) (s3_session_details_applied o) (sftp_bookmarks_applied o) (port_forward_rules_applied o) (links_skipped o) (errors o) (warnings o) true.

Record ApplyOptions := mkOptions {
  mode : ImportMode;
  apply_sessions_ : bool;
  apply_keys_ : bool;
  apply_tags_ : bool;
  apply_snippets_ : bool;
  apply_known_hosts_ : bool;
  apply_recordings : bool
}.

Record WantFlags := mkWant { want_keys : bool; want_sessions : bool; want_tags : bool; want_snippets : bool; want_known_hosts : bool }.

(** [options.is_none_or(…)] *)
Definition from_options (options : option ApplyOptions) : WantFlags :=
  let toggled (f : ApplyOptions -> bool) : bool := match options with None => true | Some o => f o end in
  mkWant (toggled apply_keys_) (toggled apply_sessions_) (toggled apply_tags_) (toggled apply_snippets_) (toggled apply_known_hosts_).

Record PendingRecording := mkRecording { recording_session_id : string; file_name : string; recording_bytes : list Z }.

Record PendingImport := mkPending {
  manifest_json : option string;
  sessions_json : option string;
  keys_json : option string;
  tags_json : option string;
  session_tags_json : option string;
  folder_tags_json : option string;
  snippets_json : option string;
  session_snippets_json : option string;
  empty_folders_json : option string;
  config_json : option string;
  known_hosts_text : option chars;
  ssh_key_certificates_json : option string;
  webdav_session_details_json : option string;
  s3_session_details_json : option string;
  sftp_bookmarks_json : option string;
  port_forward_rules_json : option string;
  recordings : list PendingRecording
}.

(** Nothing but [None]s, as the parser starts. *)
Definition no_pending : PendingImport := mkPending None None None None None None None None None None None None None None None None [].

(** ** Reading JSON *)

(** [Value::get] of a key. *)
Definition jget (v : json) (key : string) : option json := Json.as_object v ≫= lookup key.

Definition str_at (v : json) (key : string) : option string := jget v key ≫= Json.as_str.
Definition bool_at (v : json) (key : string) : option bool := jget v key ≫= Json.as_bool.

Definition json_string (v : json) (key : string) : string := default ""%string (str_at v key).
Definition json_i64_opt (v : json) (key : string) : option Z := jget v key ≫= Json.as_i64.
Definition json_i64 (v : json) (key : string) : Z := default 0 (json_i64_opt v key).
Definition is_tombstone (v : json) : bool := default false (bool_at v "tombstone").

(** [.and_then(|x| x.as_str()).filter(|s| !s.is_empty())] *)
Definition nonempty_at (v : json) (key : string) : option string :=
  str_at v key ≫= fun s => if String.eqb s "" then None else Some s.

(** [as_array] of numbers, [n as u8]; other elements are dropped. *)
Definition bytes_at (v : json) (key : string) : option (list Z) :=
  jget v key ≫= fun x => match x with JArray l => Some (omap (fun b => (fun n => n mod 256) <$> Json.as_u64 b) l) | _ => None end.

Definition lww_peer_loses (peer_ts : Z) (local_ts : option Z) : bool :=
  match local_ts with Some local => peer_ts <=? local | None => false end.

Section Serde.
Context `{SerdeText}.

(** [serde_json::from_str] into [Vec<Value>], [Vec<String>] and a map of strings. *)
Definition values_of (text : string) : option (list json) :=
  match from_text text with Some (JArray l) => Some l | _ => None end.
Definition strings_of (text : string) : option (list string) := values_of text ≫= mapM Json.as_str.
Definition string_map_of (text : string) : option (gmap string string) :=
  match from_text text with
  | Some (JObject m) => if bool_decide (map_Forall (fun _ v => is_Some (Json.as_str v)) m) then Some (omap Json.as_str m) else None
  | _ => None
  end.

Definition peer_stamp (v : json) (key : string) : option Z := parse_iso8601_opt (json_string v key).

(** ** Rows *)
Definition build_session_row (v : json) (m : ApplyMode) (folder_path_to_id : gmap string string)
    (id : string) (peer_updated_at now_ms : Z) : SessionRow :=
  let via := jget v "via_override" in
  {| session_key := id;
     label := json_string v "label";
     folder_id := nonempty_at v "folder" ≫= fun p => folder_path_to_id !! p;
     kind := default SESSION_KIND_SSH (nonempty_at v "kind");
     s_host := json_string v "host";
     s_port := if is_sync m then default 22 (json_i64_opt v "port") else json_i64 v "port";
     user := json_string v "user";
     auth_type := json_string v "auth_type";
     password := json_string v "password";
     key_path := json_string v "key_path";
     key_data := json_string v "key_data";
     key_id := nonempty_at v "key_id";
     passphrase := json_string v "passphrase";
     sort_order := 0;
     notes := if is_sync m then ""%string else json_string v "notes";
     last_connected_at_ms := None;
     extras :=
       if is_sync m then match jget v "extras" with Some e => to_text e | None => "{}"%string end
       else match jget v "extras" with Some (JObject o) => to_text (JObject o) | _ => ""%string end;
     via_session_id := nonempty_at v "via_session_id";
     via_host := via ≫= fun o => str_at o "host";
     via_port := via ≫= fun o => json_i64_opt o "port";
     via_user := via ≫= fun o => str_at o "user";
     created_at_ms := parse_iso8601_or_now (json_string v "created_at") now_ms;
     updated_at_ms := peer_updated_at |}.

Definition is_device_bound (b : KeyBackend) : bool :=
  match b with Enclave | Hello | Tpm | Keystore => true | _ => false end.

(** The source's [Result] is always [Ok]. *)
Definition build_key_row (v : json) (now_ms : Z) : SshKeyRow :=
  let b := match str_at v "backend" with Some name => backend_from_db name | None => Software end in
  let is_stub := is_device_bound b in
  let pkcs {A} (o : option A) : option A := match b with Pkcs11 => o | _ => None end in
  {| key_key := json_string v "id";
     key_label := json_string v "label";
     private_key := if is_stub then ""%string else json_string v "private_key";
     public_key := json_string v "public_key";
     k_key_type := json_string v "key_type";
     is_generated := default false (bool_at v "is_generated");
     key_created_at_ms := parse_iso8601_or_now (json_string v "created_at") now_ms;
     credential_id := bytes_at v "credential_id";
     application_string := str_at v "application_string";
     has_user_verification := default false (bool_at v "has_user_verification");
     agent_policy := Ask;
     backend := b;
     pkcs11_uri := pkcs (str_at v "pkcs11_uri");
     pkcs11_module_path := None;
     pkcs11_token_serial := pkcs (str_at v "pkcs11_token_serial");
     pkcs11_object_id := pkcs (bytes_at v "pkcs11_object_id");
     pkcs11_object_label := pkcs (str_at v "pkcs11_object_label");
     enclave_tag := None; hello_credential_name := None; tpm_blob := None; tpm_handle := None;
     tpm_provider := None; tpm_pin_required := false; cng_key_name := None; keystore_alias := None;
     keystore_strongbox := false; keystore_user_auth_required := false; keystore_platform := None;
     imported_as_stub := is_stub |}.

Definition with_identity (id : string) (created : Z) (r : SshKeyRow) : SshKeyRow :=
  {| key_key := id; key_label := key_label r; private_key := private_key r; public_key := public_key r;
     k_key_type := k_key_type r; is_generated := is_generated r; key_created_at_ms := created;
     credential_id := credential_id r; application_string := application_string r;
     has_user_verification := has_user_verification r; agent_policy := agent_policy r; backend := backend r;
     pkcs11_uri := pkcs11_uri r; pkcs11_module_path := pkcs11_module_path r;
     pkcs11_token_serial := pkcs11_token_serial r; pkcs11_object_id := pkcs11_object_id r;
     pkcs11_object_label := pkcs11_object_label r; enclave_tag := enclave_tag r;
     hello_credential_name := hello_credential_name r; tpm_blob := tpm_blob r; tpm_handle := tpm_handle r;
     tpm_provider := tpm_provider r; tpm_pin_required := tpm_pin_required r; cng_key_name := cng_key_name r;
     keystore_alias := keystore_alias r; keystore_strongbox := keystore_strongbox r;
     keystore_user_auth_required := keystore_user_auth_required r; keystore_platform := keystore_platform r;
     imported_as_stub := imported_as_stub r |}.

Definition build_certificate (v : json) (key : string) : CertRecord :=
  {| cert_key_id := key;
     certificate := default [] (bytes_at v "certificate");
     valid_after := json_i64 v "valid_after";
     valid_before := json_i64 v "valid_before";
     principals :=
       match jget v "principals" with
       | Some (JArray l) => omap Json.as_str l
       | Some (JString s) => default [] (strings_of s)
       | _ => []
       end;
     critical_options :=
       match jget v "critical_options" with
       | Some (JObject m) => omap Json.as_str m
       | Some (JString s) => default ∅ (string_map_of s)
       | _ => ∅
       end;
     fingerprint := json_string v "fingerprint" |}.

End Serde.

(** ** The driver *)
Record Applying (D : Type) := mkApplying { conn : D; outcome : ApplyOutcome }.
Arguments mkApplying {D} _ _.
Arguments conn {D} _.
Arguments outcome {D} _.

Section Driver.
Context `{SerdeText} {D : Type} `{Database D}.
(** [STANDARD.decode]; the digest; the message of a serde_json error for a text. *)
Variable decode : chars -> string + list Z.
Variable sha256 : list Z -> list Z.
Variable parse_error : string -> string.
Notation M A := (prog (Applying D) A).

Definition on_conn {A} (p : prog D A) : M A := zoom conn (fun d w => mkApplying d (outcome w)) p.
Definition note (f : ApplyOutcome -> ApplyOutcome) : M unit := call (fun w => ((), mkApplying (conn w) (f (outcome w)))).
Definition fail (e : string) : M unit := note (push_error e).
Definition warn (e : string) : M unit := note (push_warning e).

(** [match dao(…) { Ok(_) => counter += 1, Err(e) => errors.push(format!("{label}: {e}")) }] *)
Definition tally {A} (p : prog D (Error + A)) (bump : ApplyOutcome -> ApplyOutcome) (label : string) : M unit :=
  let! r := on_conn p in
  match r with inl e => fail (label ++ ": " ++ display e) | inr _ => note bump end.

Definition when (b : bool) (p : M unit) : M unit := if b then p else Ret ().
Definition if_present {A} (o : option A) (p : A -> M unit) : M unit := match o with Some a => p a | None => Ret () end.

Fixpoint each {A} (l : list A) (p : A -> M unit) : M unit :=
  match l with [] => Ret () | a :: l => let! _ := p a in each l p end.

(** [from_str::<Vec<Value>>], or an error and nothing more. *)
Definition parsed {A} (read : string -> option A) (json label : string) (p : A -> M unit) : M unit :=
  match read json with Some a => p a | None => fail (label ++ " parse: " ++ parse_error json) end.

(** A list query whose failure is recorded and ends the arm. *)
Definition listed {A} (p : prog D (Error + A)) (label : string) (k : A -> M unit) : M unit :=
  let! r := on_conn p in match r with inl e => fail (label ++ ": " ++ display e) | inr a => k a end.

(** [rows.into_iter().map(|r| (r.id.clone(), r)).collect::<HashMap<_, _>>()] *)
Definition by_id {R} (id : R -> string) (rows : list R) : gmap string R := foldl (fun m r => <[id r := r]> m) ∅ rows.

(** ** Folders *)
Record Walked := mkWalked { path_to_id : gmap string string; next_order : Z; parent : option string; accum : string }.

Definition materialise_segment (err_label : string) (now_ms : Z) (w : Walked) (seg : string) : M Walked :=
  let path := if String.eqb (accum w) "" then seg else (accum w ++ "/" ++ seg)%string in
  match path_to_id w !! path with
  | Some existing => Ret (mkWalked (path_to_id w) (next_order w) (Some existing) path)
  | None =>
      let! id := on_conn fresh_id in
      let! r := on_conn (Folders.upsert (mkFolder id seg (parent w) (next_order w) false now_ms)) in
      match r with
      | inr _ =>
          let! _ := note bump_folders_applied in
          Ret (mkWalked (<[path := id]> (path_to_id w)) (next_order w + 1) (Some id) path)
      | inl e =>
          let! _ := fail (err_label ++ " " ++ path ++ " upsert: " ++ display e) in
          Ret (mkWalked (path_to_id w) (next_order w + 1) None path)
      end
  end.

Fixpoint materialise_segments (err_label : string) (now_ms : Z) (w : Walked) (segs : list string) : M Walked :=
  match segs with
  | [] => Ret w
  | seg :: segs => let! w := materialise_segment err_label now_ms w seg in materialise_segments err_label now_ms w segs
  end.

(** The map and the running sort order after one path. *)
Definition materialise_folder_path (path err_label : string) (now_ms : Z) (s : gmap string string * Z) : M (gmap string string * Z) :=
  let! w := materialise_segments err_label now_ms (mkWalked s.1 s.2 None "") (segments path) in
  Ret (path_to_id w, next_order w).

Fixpoint materialise_paths (err_label : string) (now_ms : Z) (paths : list string) (s : gmap string string * Z) :
    M (gmap string string * Z) :=
  match paths with
  | [] => Ret s
  | path :: paths => let! s := materialise_folder_path path err_label now_ms s in materialise_paths err_label now_ms paths s
  end.

Fixpoint ensure_folder_paths_sync (sorted : list string) (now_ms : Z) (out : gmap string string) : M (gmap string string) :=
  match sorted with
  | [] => Ret out
  | path :: sorted =>
      if String.eqb path "" || bool_decide (is_Some (out !! path)) then ensure_folder_paths_sync sorted now_ms out
      else
        let! r := on_conn (Folders.ensure_folder_path path now_ms) in
        match r with
        | inr (Some id) => ensure_folder_paths_sync sorted now_ms (<[path := id]> out)
        | inr None => ensure_folder_paths_sync sorted now_ms out
        | inl e =>
            let! _ := fail ("sync merge folder ensure: " ++ display e) in
            ensure_folder_paths_sync sorted now_ms out
        end
  end.

(** Byte order on strings. *)
Definition str_le (a b : string) : Prop := String.leb a b = true.
#[export] Instance str_le_dec : RelDecision str_le := fun a b => decide (String.leb a b = true).

(** The distinct folder paths of the sessions, sorted. *)
Definition folder_paths (arr : list json) : list string :=
  merge_sort str_le (elements (list_to_set (omap (fun v => nonempty_at v "folder") arr) : gset string)).

Definition apply_folder_tree (sessions_json : string) (m : ApplyMode) (now_ms : Z) : M (gmap string string) :=
  match values_of sessions_json with
  | None => Ret ∅
  | Some arr =>
      if is_sync m then ensure_folder_paths_sync (folder_paths arr) now_ms ∅
      else let! s := materialise_paths "folder" now_ms (folder_paths arr) (∅, 0) in Ret s.1
  end.

Fixpoint empty_folders_loop (paths : list string) (now_ms : Z) (s : gmap string string * Z) : M (gmap string string) :=
  match paths with
  | [] => Ret s.1
  | path :: paths =>
      if String.eqb path "" || bool_decide (is_Some (s.1 !! path)) then empty_folders_loop paths now_ms s
      else let! s := materialise_folder_path path "empty_folder" now_ms s in empty_folders_loop paths now_ms s
  end.

Definition apply_empty_folders (json : string) (path_to_id : gmap string string) (now_ms : Z) : M (gmap string string) :=
  match strings_of json with
  | None => let! _ := fail ("empty_folders parse: " ++ parse_error json) in Ret path_to_id
  | Some paths => empty_folders_loop paths now_ms (path_to_id, Z.of_nat (size path_to_id))
  end.

(** ** Links *)
Definition link {A} (p : prog D (Error + A)) (bump : ApplyOutcome -> ApplyOutcome) (label : string) : M unit :=
  let! r := on_conn p in
  match r with
  | inr _ => note bump
  | inl e => let! _ := note bump_links_skipped in fail (label ++ ": " ++ display e)
  end.

Definition apply_session_tags (json : string) : M unit :=
  parsed values_of json "session_tags" (fun arr => each arr (fun v =>
    let s := json_string v "session_id" in
    let tag := json_string v "tag_id" in
    if String.eqb s "" || String.eqb tag "" then note bump_links_skipped
    else link (Tags.link_session_tag s tag) bump_session_tags_applied ("session_tag " ++ s ++ "↔" ++ tag))).

Definition apply_folder_tags (json : string) (path_to_id : gmap string string) : M unit :=
  parsed values_of json "folder_tags" (fun arr => each arr (fun v =>
    let path := json_string v "folder_path" in
    let tag := json_string v "tag_id" in
    if String.eqb path "" || String.eqb tag "" then note bump_links_skipped
    else
      match path_to_id !! path with
      | None => note bump_links_skipped
      | Some folder => link (Tags.link_folder_tag folder tag) bump_folder_tags_applied ("folder_tag " ++ path ++ "↔" ++ tag)
      end)).

Definition apply_session_snippets (json : string) : M unit :=
  parsed values_of json "session_snippets" (fun arr => each arr (fun v =>
    let s := json_string v "session_id" in
    let snippet := json_string v "snippet_id" in
    if String.eqb s "" || String.eqb snippet "" then note bump_links_skipped
    else link (Snippets.link_session_snippet s snippet) bump_session_snippets_applied ("session_snippet " ++ s ++ "↔" ++ snippet))).

(** ** Sessions *)
Definition apply_one_session (m : ApplyMode) (folder_path_to_id : gmap string string) (local : gmap string SessionRow)
    (now_ms : Z) (v : json) : M unit :=
  let id := json_string v "id" in
  if String.eqb id "" then when (is_archive m) (fail "session row missing id")
  else if is_tombstone v then
    when (is_sync m)
      (tally (Sessions.apply_tombstone id (default 0 (json_i64_opt v "deleted_at_ms"))) bump_sessions_applied
        ("session " ++ id ++ " tombstone"))
  else
    let peer_updated_at := if is_sync m then default 0 (peer_stamp v "updated_at") else now_ms in
    if is_sync m && lww_peer_loses peer_updated_at (updated_at_ms <$> local !! id) then Ret ()
    else
      let row := build_session_row v m folder_path_to_id id peer_updated_at now_ms in
      tally (Sessions.upsert row) bump_sessions_applied ("session " ++ session_key row ++ " upsert").

(** The snapshot a last-writer-wins gate compares with: taken once, before the rows are applied. *)
Definition local_snapshot {R A} (m : ApplyMode) (p : prog D (Error + list R)) (label : string)
    (of_rows : list R -> gmap string A) (k : gmap string A -> M unit) : M unit :=
  if is_sync m then listed p label (fun rows => k (of_rows rows)) else k ∅.

Definition apply_sessions (json : string) (m : ApplyMode) (folder_path_to_id : gmap string string) (now_ms : Z) : M unit :=
  parsed values_of json "sessions" (fun arr =>
    local_snapshot m Sessions.list_all "sync merge sessions list" (by_id session_key) (fun local =>
      each arr (apply_one_session m folder_path_to_id local now_ms))).

(** ** Keys *)
Definition apply_one_key_sync (local : gmap string SshKeyRow) (now_ms : Z) (v : json) : M unit :=
  let id := json_string v "id" in
  if String.eqb id "" then Ret ()
  else if is_tombstone v then
    tally (SshKeys.apply_tombstone id (default 0 (json_i64_opt v "deleted_at_ms"))) bump_keys_applied
      ("sync merge key " ++ id ++ " tombstone")
  else
    let peer_ts := default 0 (peer_stamp v "created_at") in
    if lww_peer_loses peer_ts (key_created_at_ms <$> local !! id) then Ret ()
    else tally (SshKeys.upsert (with_identity id peer_ts (build_key_row v now_ms))) bump_keys_applied ("sync merge key " ++ id).

Definition apply_keys_sync (arr : list json) (now_ms : Z) : M unit :=
  listed SshKeys.list_all "sync merge keys list" (fun rows => each arr (apply_one_key_sync (by_id key_key rows) now_ms)).

(** The fingerprint of [apply/mod.rs] repeats the one of [db/ssh_keys.rs]. *)
Definition key_pub_fingerprint (s : string) : string := SshKeys.normalized_sha256_hex sha256 s.

Definition apply_one_key_import (existing_fps : gset string) (now_ms : Z) (v : json) : M unit :=
  let fp := key_pub_fingerprint (json_string v "public_key") in
  if negb (String.eqb fp "") && bool_decide (fp ∈ existing_fps) then note bump_keys_skipped_dedup
  else
    let row := build_key_row v now_ms in
    if String.eqb (key_key row) "" then fail "key row missing id"
    else tally (SshKeys.upsert row) bump_keys_applied ("key " ++ key_key row ++ " upsert").

Definition apply_keys (json : string) (m : ApplyMode) (now_ms : Z) : M unit :=
  parsed values_of json "keys" (fun arr =>
    if is_sync m then apply_keys_sync arr now_ms
    else
      listed (SshKeys.list_metadata sha256) "keys metadata" (fun existing =>
        let fps := filter (fun s => s <> ""%string) (SshKeys.m_public_fingerprint <$> existing) in
        each arr (apply_one_key_import (list_to_set fps) now_ms))).

(** ** Tags and snippets *)
Definition apply_one_tag (m : ApplyMode) (local : gmap string TagRow) (now_ms : Z) (v : json) : M unit :=
  let id := json_string v "id" in
  let name := json_string v "name" in
  if is_tombstone v then
    when (is_sync m && negb (String.eqb id ""))
      (tally (Tags.apply_tombstone id (default 0 (json_i64_opt v "deleted_at_ms"))) bump_tags_applied ("tag " ++ id ++ " tombstone"))
  else
    let peer_ts := default (if is_sync m then 0 else now_ms) (peer_stamp v "created_at") in
    if String.eqb id "" || String.eqb name "" then Ret ()
    else if is_sync m && lww_peer_loses peer_ts (tag_created_at_ms <$> local !! id) then Ret ()
    else tally (Tags.upsert (mkTag id name (nonempty_at v "color") peer_ts)) bump_tags_applied ("tag " ++ id ++ " upsert").

Definition apply_tags (json : string) (m : ApplyMode) (now_ms : Z) : M unit :=
  parsed values_of json "tags" (fun arr =>
    local_snapshot m Tags.list_all "sync merge tags list" (by_id tag_key) (fun local =>
      each arr (apply_one_tag m local now_ms))).

Definition apply_one_snippet (m : ApplyMode) (local : gmap string SnippetRow) (now_ms : Z) (v : json) : M unit :=
  let id := json_string v "id" in
  let title := json_string v "title" in
  if String.eqb id "" then Ret ()
  else if is_tombstone v then
    when (is_sync m)
      (tally (Snippets.apply_tombstone id (default 0 (json_i64_opt v "deleted_at_ms"))) bump_snippets_applied
        ("snippet " ++ id ++ " tombstone"))
  else if negb (is_sync m) && String.eqb title "" then Ret ()
  else
    let peer_updated := default 0 (peer_stamp v "updated_at") in
    if is_sync m && lww_peer_loses peer_updated (snippet_updated_at_ms <$> local !! id) then Ret ()
    else
      let row := mkSnippet id title (json_string v "command") (json_string v "description")
                   (parse_iso8601_or_now (json_string v "created_at") now_ms) (if is_sync m then peer_updated else now_ms) in
      tally (Snippets.upsert row) bump_snippets_applied ("snippet " ++ id ++ " upsert").

Definition apply_snippets (json : string) (m : ApplyMode) (now_ms : Z) : M unit :=
  parsed values_of json "snippets" (fun arr =>
    local_snapshot m Snippets.list_all "sync merge snippets list" (by_id snippet_key) (fun local =>
      each arr (apply_one_snippet m local now_ms))).

(** ** Known hosts *)

(** [line.splitn(3, char::is_whitespace)] with all three parts. *)
Definition splitn3 (line : chars) : option (chars * chars * chars) :=
  '(a, rest) ← split_once_by is_whitespace line;
  '(b, c) ← split_once_by is_whitespace rest;
  Some (a, b, c).

Definition host_and_port (host_port : chars) : chars * Z :=
  match Manager.rsplit_once_by (Z.eqb 58) host_port with
  | Some (h, p) => match parse_i64 p with Some n => (h, n) | None => (host_port, 22) end
  | None => (host_port, 22)
  end.

Definition apply_known_host_line (now_ms : Z) (raw : chars) : M unit :=
  let line := trim raw in
  if bool_decide (line = []) || starts_with [35] line then Ret ()
  else
    match splitn3 line with
    | None => Ret ()
    | Some (host_port, kt, kb) =>
        if bool_decide (kb = []) || (match decode kb with inl _ => true | inr _ => false end)
        then warn "known_hosts row skipped: invalid base64 key body"
        else
          let '(h, p) := host_and_port host_port in
          tally (call (KnownHosts.upsert_by_host_port h p kt kb now_ms)) bump_known_hosts_applied
            ("known_host " ++ to_string (h ++ [58] ++ display_int p))
    end.

(** A line ends at LF; the CR of CRLF is trimmed with it. *)
Definition apply_known_hosts (text : chars) (now_ms : Z) : M unit :=
  each (split_by (Z.eqb 10) text) (apply_known_host_line now_ms).

(** ** Child tables *)
Definition apply_one_certificate (live_keys : gset string) (v : json) : M unit :=
  let key := json_string v "key_id" in
  if String.eqb key "" then Ret ()
  else if negb (bool_decide (key ∈ live_keys)) then warn ("ssh_key_certificate " ++ key ++ ": parent key absent")
  else tally (Certificates.upsert (build_certificate v key)) bump_ssh_key_certificates_applied ("ssh_key_certificate " ++ key ++ " upsert").

Definition apply_ssh_key_certificates (json : string) : M unit :=
  parsed values_of json "ssh_key_certificates" (fun arr =>
    listed SshKeys.list_all "ssh_key_certificates list keys" (fun rows =>
      each arr (apply_one_certificate (list_to_set (key_key <$> rows))))).

Definition apply_one_webdav_session_detail (m : ApplyMode) (live_sessions : gset string) (now_ms : Z) (v : json) : M unit :=
  let s := json_string v "session_id" in
  if String.eqb s "" then Ret ()
  else if is_tombstone v then
    when (is_sync m)
      (tally (WebDavSessions.apply_tombstone s (default 0 (json_i64_opt v "deleted_at_ms"))) bump_webdav_session_details_applied
        ("webdav_session_details " ++ s ++ " tombstone"))
  else if negb (bool_decide (s ∈ live_sessions)) then warn ("webdav_session_details " ++ s ++ ": parent session absent")
  else
    let! loses :=
      if is_sync m then
        let! r := on_conn (WebDavSessions.get_updated_at s) in
        Ret (lww_peer_loses (default 0 (json_i64_opt v "updated_at_ms")) (match r with inl _ => None | inr o => o end))
      else Ret false in
    if loses then Ret ()
    else
      let row := mkWebDav s (json_string v "base_url") (json_string v "username") (json_string v "auth_method")
                   (nonempty_at v "trusted_cert_pem") (default false (bool_at v "insecure_skip_verify")) in
      tally (if is_sync m then WebDavSessions.upsert_with_stamp row (default now_ms (json_i64_opt v "updated_at_ms"))
             else WebDavSessions.upsert row)
        bump_webdav_session_details_applied ("webdav_session_details " ++ s ++ " upsert").

Definition session_ids (rows : list SessionRow) : gset string := list_to_set (session_key <$> rows).

Definition apply_webdav_session_details (json : string) (m : ApplyMode) (now_ms : Z) : M unit :=
  parsed values_of json "webdav_session_details" (fun arr =>
    listed Sessions.list_all "webdav_session_details list sessions" (fun rows =>
      each arr (apply_one_webdav_session_detail m (session_ids rows) now_ms))).

Definition apply_one_s3_session_detail (m : ApplyMode) (live_sessions : gset string) (now_ms : Z) (v : json) : M unit :=
  let s := json_string v "session_id" in
  if String.eqb s "" then Ret ()
  else if is_tombstone v then
    when (is_sync m)
      (tally (S3Sessions.apply_tombstone s (default 0 (json_i64_opt v "deleted_at_ms"))) bump_s3_session_details_applied
        ("s3_session_details " ++ s ++ " tombstone"))
  else if negb (bool_decide (s ∈ live_sessions)) then warn ("s3_session_details " ++ s ++ ": parent session absent")
  else
    let! loses :=
      if is_sync m then
        let! r := on_conn (S3Sessions.get_updated_at s) in
        Ret (lww_peer_loses (default 0 (json_i64_opt v "updated_at_ms")) (match r with inl _ => None | inr o => o end))
      else Ret false in
    if loses then Ret ()
    else
      let row := mkS3 s (json_string v "access_key_id") (json_string v "region") (json_string v "endpoint")
                   (default false (bool_at v "path_style")) (json_string v "default_bucket") (json_string v "default_prefix")
                   (nonempty_at v "trusted_cert_pem") (default false (bool_at v "insecure_skip_verify")) in
      tally (if is_sync m then S3Sessions.upsert_with_stamp row (default now_ms (json_i64_opt v "updated_at_ms"))
             else S3Sessions.upsert row)
        bump_s3_session_details_applied ("s3_session_details " ++ s ++ " upsert").

Definition apply_s3_session_details (json : string) (m : ApplyMode) (now_ms : Z) : M unit :=
  parsed values_of json "s3_session_details" (fun arr =>
    listed Sessions.list_all "s3_session_details list sessions" (fun rows =>
      each arr (apply_one_s3_session_detail m (session_ids rows) now_ms))).

Definition apply_one_sftp_bookmark (m : ApplyMode) (live_sessions : gset string) (local_created_at : gmap string Z)
    (now_ms : Z) (v : json) : M unit :=
  let id := json_string v "id" in
  let s := json_string v "session_id" in
  if String.eqb id "" || String.eqb s "" then Ret ()
  else if is_tombstone v then
    when (is_sync m)
      (tally (Bookmarks.apply_tombstone id (default 0 (json_i64_opt v "deleted_at_ms"))) bump_sftp_bookmarks_applied
        ("sftp_bookmark " ++ id ++ " tombstone"))
  else if negb (bool_decide (s ∈ live_sessions)) then warn ("sftp_bookmark " ++ id ++ ": parent session " ++ s ++ " absent")
  else
    let created := parse_iso8601_or_now (json_string v "created_at") now_ms in
    if is_sync m && lww_peer_loses created (local_created_at !! id) then Ret ()
    else tally (Bookmarks.upsert (mkBookmark id s (json_string v "remote_path") (json_string v "label") created))
           bump_sftp_bookmarks_applied ("sftp_bookmark " ++ id ++ " upsert").

Definition apply_sftp_bookmarks (json : string) (m : ApplyMode) (now_ms : Z) : M unit :=
  parsed values_of json "sftp_bookmarks" (fun arr =>
    listed Sessions.list_all "sftp_bookmarks list sessions" (fun rows =>
      local_snapshot m Bookmarks.list_all_with_tombstones "sftp_bookmarks local snapshot"
        (fun rows => bookmark_created_at_ms <$> by_id bookmark_key (row <$> rows)) (fun local =>
          each arr (apply_one_sftp_bookmark m (session_ids rows) local now_ms)))).

Definition apply_one_port_forward_rule (m : ApplyMode) (live_sessions : gset string) (local_updated_at : gmap string Z)
    (now_ms : Z) (v : json) : M unit :=
  let id := json_string v "id" in
  let s := json_string v "session_id" in
  if String.eqb id "" || String.eqb s "" then Ret ()
  else if is_tombstone v then
    when (is_sync m)
      (tally (PortForwards.apply_tombstone id (default 0 (json_i64_opt v "deleted_at_ms"))) bump_port_forward_rules_applied
        ("port_forward_rule " ++ id ++ " tombstone"))
  else if negb (bool_decide (s ∈ live_sessions)) then warn ("port_forward_rule " ++ id ++ ": parent session " ++ s ++ " absent")
  else
    let peer_updated_at := if is_sync m then default 0 (json_i64_opt v "updated_at_ms") else now_ms in
    if is_sync m && lww_peer_loses peer_updated_at (local_updated_at !! id) then Ret ()
    else
      let row := mkRule id s (json_string v "kind") (json_string v "bind_host") (json_i64 v "bind_port")
                   (json_string v "remote_host") (json_i64 v "remote_port") (json_string v "description")
                   (default true (bool_at v "enabled")) (json_i64 v "sort_order") (json_i64 v "created_at_ms") peer_updated_at in
      tally (if is_sync m then PortForwards.upsert_with_stamp row peer_updated_at else PortForwards.upsert row)
        bump_port_forward_rules_applied ("port_forward_rule " ++ id ++ " upsert").

Definition apply_port_forward_rules (json : string) (m : ApplyMode) (now_ms : Z) : M unit :=
  parsed values_of json "port_forward_rules" (fun arr =>
    listed Sessions.list_all "port_forward_rules list sessions" (fun rows =>
      local_snapshot m PortForwards.list_all_with_tombstones "port_forward_rules local snapshot"
        (fun rows => rule_updated_at_ms <$> by_id rule_key (row <$> rows)) (fun local =>
          each arr (apply_one_port_forward_rule m (session_ids rows) local now_ms)))).

(** ** Phases *)
Definition apply_sessions_phase (pending : PendingImport) (m : ApplyMode) (want : bool) (now_ms : Z) : M (gmap string string) :=
  if negb want then Ret ∅
  else
    let! map :=
      match sessions_json pending with
      | None => Ret ∅
      | Some json =>
          let! map := apply_folder_tree json m now_ms in
          let! _ := apply_sessions json m map now_ms in
          Ret map
      end in
    match empty_folders_json pending with
    | None => Ret map
    | Some json => apply_empty_folders json map now_ms
    end.

Definition apply_tags_phase (pending : PendingImport) (m : ApplyMode) (want : WantFlags) (folder_path_to_id : gmap string string)
    (now_ms : Z) : M unit :=
  let! _ := when (want_tags want) (if_present (tags_json pending) (fun json => apply_tags json m now_ms)) in
  when (want_sessions want && want_tags want)
    (let! _ := if_present (session_tags_json pending) apply_session_tags in
     if_present (folder_tags_json pending) (fun json => apply_folder_tags json folder_path_to_id)).

Definition apply_snippets_phase (pending : PendingImport) (m : ApplyMode) (want : WantFlags) (now_ms : Z) : M unit :=
  let! _ := when (want_snippets want) (if_present (snippets_json pending) (fun json => apply_snippets json m now_ms)) in
  when (want_sessions want && want_snippets want) (if_present (session_snippets_json pending) apply_session_snippets).

Definition apply_child_tables (pending : PendingImport) (m : ApplyMode) (keys sessions : bool) (now_ms : Z) : M unit :=
  let! _ := when keys (if_present (ssh_key_certificates_json pending) apply_ssh_key_certificates) in
  when sessions
    (let! _ := if_present (webdav_session_details_json pending) (fun json => apply_webdav_session_details json m now_ms) in
     let! _ := if_present (s3_session_details_json pending) (fun json => apply_s3_session_details json m now_ms) in
     let! _ := if_present (sftp_bookmarks_json pending) (fun json => apply_sftp_bookmarks json m now_ms) in
     if_present (port_forward_rules_json pending) (fun json => apply_port_forward_rules json m now_ms)).

Definition run_apply (pending : PendingImport) (m : ApplyMode) (options : option ApplyOptions) (now_ms : Z) : M unit :=
  let want := from_options options in
  let! _ := when (want_keys want) (if_present (keys_json pending) (fun json => apply_keys json m now_ms)) in
  let! map := apply_sessions_phase pending m (want_sessions want) now_ms in
  let! _ := apply_tags_phase pending m want map now_ms in
  let! _ := apply_snippets_phase pending m want now_ms in
  let! _ := when (want_known_hosts want) (if_present (known_hosts_text pending) (fun text => apply_known_hosts text now_ms)) in
  apply_child_tables pending m (want_keys want) (want_sessions want) now_ms.

Definition record_clear {A} (p : prog D (Error + A)) (kind : string) : M unit :=
  let! r := on_conn p in
  match r with inl e => fail ("replace clear " ++ kind ++ ": " ++ display e) | inr _ => Ret () end.

Definition run_replace_clear (options : ApplyOptions) : M unit :=
  let! _ := when (apply_sessions_ options)
    (let! _ := record_clear Bookmarks.delete_all "sftp_bookmarks" in
     let! _ := record_clear PortForwards.delete_all "port_forward_rules" in
     let! _ := record_clear WebDavSessions.delete_all "webdav_session_details" in
     let! _ := record_clear S3Sessions.delete_all "s3_session_details" in
     let! _ := record_clear Sessions.delete_all "sessions" in
     record_clear Folders.delete_all "folders") in
  let! _ := when (apply_tags_ options) (record_clear Tags.delete_all "tags") in
  let! _ := when (apply_snippets_ options) (record_clear Snippets.delete_all "snippets") in
  when (apply_known_hosts_ options) (record_clear (call KnownHosts.clear_all) "known_hosts").

Definition in_tx (f : D -> (string + unit) * D) (wrap : string -> Error) : M (Error + unit) :=
  on_conn (let! r := call f in Ret (match r with inl e => inl (wrap e) | inr _ => inr () end)).

Definition ask {A} (f : ApplyOutcome -> A) : M A := call (fun w => (f (outcome w), w)).

Definition apply_pending_to_db (pending : PendingImport) (m : ApplyMode) (options : ApplyOptions) (now_ms : Z) : M (Error + unit) :=
  match m with
  | ArchiveImport false =>
      let! _ := run_apply pending m (Some options) now_ms in Ret (inr ())
  | ArchiveImport true =>
      let! r := in_tx begin_tx (fun e => Archive ("apply tx begin: " ++ e)) in
      match r with
      | inl e => Ret (inl e)
      | inr _ =>
          let! _ := run_replace_clear options in
          let! _ := run_apply pending m (Some options) now_ms in
          let! failed := ask (fun o => negb (bool_decide (errors o = []))) in
          if failed then
            let! r := in_tx rollback_tx (fun e => Archive ("apply tx rollback: " ++ e)) in
            match r with
            | inl e => Ret (inl e)
            | inr _ => let! _ := note set_rolled_back in Ret (inr ())
            end
          else in_tx commit_tx (fun e => Archive ("apply tx commit: " ++ e))
      end
  | Sync =>
      let! r := in_tx begin_tx (fun e => Db ("sync apply: tx begin: " ++ e)) in
      match r with
      | inl e => Ret (inl e)
      | inr _ =>
          let! _ := run_apply pending m None now_ms in
          in_tx commit_tx (fun e => Db ("sync apply: tx commit: " ++ e))
      end
  end.

(** A driver with an outcome of its own, as the entry points call it. *)
Fixpoint with_outcome {A} (p : M A) (o : ApplyOutcome) : prog D (A * ApplyOutcome) :=
  match p with
  | Ret a => Ret (a, o)
  | Step f k =>
      Step (fun d => let '(b, w) := f (mkApplying d o) in ((b, outcome w), conn w)) (fun r => with_outcome (k r.1) r.2)
  end.

Definition apply_pending_import (pending : PendingImport) (options : ApplyOptions) (now_ms : Z) : prog D (Error + ApplyOutcome) :=
  let replace_mode := match mode options with Replace => true | Merge => false end in
  let! r := with_outcome (apply_pending_to_db pending (ArchiveImport replace_mode) options now_ms) new_outcome in
  Ret (match r.1 with inl e => inl e | inr _ => inr r.2 end).

Definition apply_pending_import_merge (pending : PendingImport) (options : ApplyOptions) (now_ms : Z) : prog D (Error + ApplyOutcome) :=
  let! r := with_outcome (run_apply pending (ArchiveImport false) (Some options) now_ms) new_outcome in Ret (inr r.2).

Definition no_options : ApplyOptions := mkOptions Merge false false false false false false.

(** [sync::merge::merge_pending_into_local], up to the projection of the outcome. *)
Definition merge_pending_into_local (pending : PendingImport) : prog D (Error + ApplyOutcome) :=
  let! now_ms := call now_unix_ms in
  let! r := with_outcome (apply_pending_to_db pending Sync no_options now_ms) new_outcome in
  Ret (match r.1 with inl e => inl e | inr _ => inr r.2 end).

End Driver.
