(* ===== verification/ApplyLaws.v ===== *)
(** * Laws of the archive driver

    What an import or a merge leaves behind: that a replacing import is all or nothing at every
    crash point, and that a merge never overwrites a live local row with one that is not newer. *)
From Stdlib Require Import ZArith Lia.
From stdpp Require Import prelude gmap strings list sorting.
From S2P Require Import Prelude Text Json Bus PromptRegistry Prog KnownHosts Iso8601 Tables Dao Apply.

Open Scope Z_scope.

(** ** What every call keeps *)

Section Safe.
Context {D : Type} `{Database D}.
Variable decode : chars -> string + list Z.
Variable sha256 : list Z -> list Z.
Variable parse_error : string -> string.
(** A property of the connection that random bytes and the clock keep. *)
Variable I : D -> Prop.
Hypothesis I_fill : forall d, I d -> I (fill_bytes d).2.
Hypothesis I_now : forall d, I d -> I (now_unix_ms d).2.

Definition keeps_sql {A} (s : sql A) : Prop := forall d, I d -> I (execute s d).2.
Definition sound {A} (p : prog D A) : Prop := ensures I p (fun _ => True).
Definition safe {A} (p : prog (Applying D) A) : Prop := ensures (fun w => I (conn w)) p (fun _ => True).

Lemma sound_bind {A B} (p : prog D A) (q : A -> prog D B) : sound p -> (forall a, sound (q a)) -> sound (pbind p q).
Proof. intros Hp Hq. eapply ensures_bind; [done|]. intros a _. apply Hq. Qed.

Lemma sound_try {A B} (p : prog D (Error + A)) (q : A -> prog D (Error + B)) :
  sound p -> (forall a, sound (q a)) -> sound (try p q).
Proof. intros Hp Hq. unfold try. apply sound_bind; [done|]. intros [e|a]; [done|apply Hq]. Qed.

Lemma sound_execute {A} (s : sql A) : keeps_sql s -> sound (call (execute s)).
Proof. intros Hs. apply ensures_call. auto. Qed.

Lemma sound_exec {A} label (s : sql A) : keeps_sql s -> sound (exec label s).
Proof. intros Hs. apply sound_bind; [by apply sound_execute|done]. Qed.

Lemma sound_query_as {A} a b c (s : sql A) : keeps_sql s -> sound (query_as a b c s).
Proof. intros Hs. apply sound_bind; [by apply sound_execute|done]. Qed.

Lemma sound_query_ok {A} (s : sql (option A)) : keeps_sql s -> sound (query_ok s).
Proof. intros Hs. apply sound_bind; [by apply sound_execute|done]. Qed.

Lemma sound_at_now {A} (p : Z -> prog D A) : (forall now, sound (p now)) -> sound (at_now p).
Proof. intros Hp. apply sound_bind; [apply ensures_call; auto|done]. Qed.

Lemma sound_fresh_id : sound fresh_id.
Proof. apply sound_bind; [apply ensures_call; auto|done]. Qed.

Lemma safe_ret {A} (a : A) : safe (Ret a).
Proof. done. Qed.

Lemma safe_bind {A B} (p : prog (Applying D) A) (q : A -> prog (Applying D) B) :
  safe p -> (forall a, safe (q a)) -> safe (pbind p q).
Proof. intros Hp Hq. eapply ensures_bind; [done|]. intros a _. apply Hq. Qed.

Lemma safe_conn {A} (p : prog D A) : sound p -> safe (on_conn p).
Proof. intros Hp. unfold safe, on_conn. by apply (ensures_zoom conn). Qed.

Lemma safe_note f : safe (note f).
Proof. apply ensures_call. by intros w Hw. Qed.

Lemma safe_each {A} (l : list A) (p : A -> prog (Applying D) unit) : (forall a, a ∈ l -> safe (p a)) -> safe (each l p).
Proof.
  induction l as [|a l IH]; intros Hp; [done|].
  apply safe_bind; [apply Hp; left|]. intros _. apply IH. intros b Hb. apply Hp. by right.
Qed.

Lemma safe_tally {A} (p : prog D (Error + A)) bump label : sound p -> safe (tally p bump label).
Proof. intros Hp. unfold tally. apply safe_bind; [by apply safe_conn|]. intros [e|a]; apply safe_note. Qed.

Lemma safe_link {A} (p : prog D (Error + A)) bump label : sound p -> safe (link p bump label).
Proof.
  intros Hp. unfold link. apply safe_bind; [by apply safe_conn|].
  intros [e|a]; [|apply safe_note]. apply safe_bind; [apply safe_note|]. intros _. apply safe_note.
Qed.

Lemma safe_when b p : (b = true -> safe p) -> safe (when b p).
Proof. intros Hp. destruct b; [by apply Hp|apply safe_ret]. Qed.

Lemma safe_if_present {A} (o : option A) p : (forall a, o = Some a -> safe (p a)) -> safe (if_present o p).
Proof. intros Hp. destruct o; [by apply Hp|apply safe_ret]. Qed.

Lemma safe_parsed {A} read json label (p : A -> prog (Applying D) unit) :
  (forall a, read json = Some a -> safe (p a)) -> safe (parsed parse_error read json label p).
Proof. intros Hp. unfold parsed. destruct (read json); [by apply Hp|apply safe_note]. Qed.

(** A list query: what is known of the rows it answers. *)
Lemma safe_listed {A} (p : prog D (Error + A)) label k (Q : A -> Prop) :
  ensures I p (fun r => match r with inl _ => True | inr a => Q a end) ->
  (forall a, Q a -> safe (k a)) -> safe (listed p label k).
Proof.
  intros Hp Hk. unfold listed. eapply ensures_bind; [apply (ensures_zoom conn); [done|exact Hp]|].
  intros [e|a] Ha; [apply safe_note|by apply Hk].
Qed.

Lemma sound_listed {A} (p : prog D (Error + A)) : sound p -> ensures I p (fun r => match r with inl _ => True | inr a => True end).
Proof. apply ensures_mono. by intros []. Qed.

Lemma sound_walk_folders segs now_ms m parent :
  (forall r, keeps_sql (insert_folder r)) -> sound (Folders.walk segs now_ms m parent).
Proof.
  intros Hi. revert m parent. induction segs as [|seg segs IH]; intros m parent; [done|].
  cbn [Folders.walk]. destruct (m !! (parent, seg)); [apply IH|].
  apply sound_bind; [apply sound_fresh_id|]. intros new. apply sound_try; [by apply sound_exec|]. intros _. apply IH.
Qed.

Lemma sound_ensure_folder_path path now_ms :
  (forall r, keeps_sql (insert_folder r)) -> keeps_sql select_folders -> sound (Folders.ensure_folder_path path now_ms).
Proof.
  intros Hi Hs. unfold Folders.ensure_folder_path. destruct (String.eqb path ""); [done|].
  apply sound_try; [by apply sound_query_as|]. intros rows. by apply sound_walk_folders.
Qed.

Lemma sound_session_upsert r :
  keeps_sql (insert_session r) -> keeps_sql (insert_ssh_details r) -> keeps_sql (remove_ssh_details (session_key r)) ->
  keeps_sql (remove_webdav_details (session_key r)) -> keeps_sql (remove_s3_details (session_key r)) ->
  sound (Sessions.upsert r).
Proof.
  intros. unfold Sessions.upsert. apply sound_try; [by apply sound_exec|]. intros _.
  apply sound_try; [destruct (String.eqb _ _); [by apply sound_exec|apply sound_try; [by apply sound_exec|done]]|]. intros _.
  apply sound_try; [destruct (String.eqb _ _); [done|apply sound_try; [by apply sound_exec|done]]|]. intros _.
  apply sound_try; [destruct (String.eqb _ _); [done|apply sound_try; [by apply sound_exec|done]]|done].
Qed.

Lemma sound_statement {A B} (s : statement A) (f : (stage * string + A) -> B) :
  keeps_sql (known_hosts_sql s) -> sound (call (fun d => let '(r, d) := KnownHosts.execute s d in (f r, d))).
Proof.
  intros Hs. apply ensures_call. intros d Hd. split; [|done]. specialize (Hs d Hd). unfold KnownHosts.execute, database_sqlite.
  by destruct (execute _ d).
Qed.

(** ** The folder arms *)
Lemma safe_materialise label now_ms w segs :
  (forall r, keeps_sql (insert_folder r)) -> safe (materialise_segments label now_ms w segs).
Proof.
  intros Hi. revert w. induction segs as [|seg segs IH]; intros w; [done|]. cbn [materialise_segments].
  apply safe_bind; [|apply IH]. unfold materialise_segment. destruct (path_to_id w !! _); [done|].
  apply safe_bind; [apply safe_conn, sound_fresh_id|]. intros id. apply safe_bind; [by apply safe_conn, sound_exec|].
  intros [e|[]]; (apply safe_bind; [apply safe_note|done]).
Qed.

Lemma safe_materialise_paths label now_ms paths s :
  (forall r, keeps_sql (insert_folder r)) -> safe (materialise_paths label now_ms paths s).
Proof.
  intros Hi. revert s. induction paths as [|path paths IH]; intros s; [done|]. cbn [materialise_paths].
  apply safe_bind; [|apply IH]. apply safe_bind; [by apply safe_materialise|done].
Qed.

Lemma safe_ensure_paths sorted now_ms out :
  (forall r, keeps_sql (insert_folder r)) -> keeps_sql select_folders -> safe (ensure_folder_paths_sync sorted now_ms out).
Proof.
  intros Hi Hs. revert out. induction sorted as [|path sorted IH]; intros out; [done|]. cbn [ensure_folder_paths_sync].
  destruct (_ || _); [apply IH|]. apply safe_bind; [by apply safe_conn, sound_ensure_folder_path|].
  intros [e|[id|]]; [|apply IH..]. apply safe_bind; [apply safe_note|]. intros _. apply IH.
Qed.

Lemma safe_empty_folders json m now_ms `{SerdeText} :
  (forall r, keeps_sql (insert_folder r)) -> safe (apply_empty_folders parse_error json m now_ms).
Proof.
  intros Hi. unfold apply_empty_folders. destruct (strings_of json) as [paths|]; [|apply safe_bind; [apply safe_note|done]].
  generalize (m, Z.of_nat (size m)). induction paths as [|path paths IH]; intros s; [done|]. cbn [empty_folders_loop].
  destruct (_ || _); [apply IH|]. apply safe_bind; [|apply IH]. apply safe_bind; [by apply safe_materialise|done].
Qed.

End Safe.

(** Sequences, choices and calls, down to the statements. *)
Ltac unfold_dao :=
  unfold Sessions.list_all, Sessions.apply_tombstone, Sessions.delete_all, SshKeys.list_all, SshKeys.list_metadata,
    SshKeys.apply_tombstone, SshKeys.upsert, Certificates.upsert, Tags.list_all, Tags.apply_tombstone, Tags.upsert,
    Tags.delete_all, Tags.link_session_tag, Tags.link_folder_tag, Snippets.list_all, Snippets.apply_tombstone,
    Snippets.upsert, Snippets.delete_all, Snippets.link_session_snippet, WebDavSessions.get_updated_at,
    WebDavSessions.upsert, WebDavSessions.upsert_with_stamp, WebDavSessions.apply_tombstone, WebDavSessions.delete_all,
    S3Sessions.get_updated_at, S3Sessions.upsert, S3Sessions.upsert_with_stamp, S3Sessions.apply_tombstone,
    S3Sessions.delete_all, Bookmarks.list_all_with_tombstones, Bookmarks.upsert, Bookmarks.apply_tombstone,
    Bookmarks.delete_all, PortForwards.list_all_with_tombstones, PortForwards.upsert, PortForwards.upsert_with_stamp,
    PortForwards.apply_tombstone, PortForwards.delete_all, Folders.upsert, Folders.delete_all, query.

Ltac step :=
  lazymatch goal with
  | |- safe _ (pbind _ _) => apply safe_bind; [|intros ?]
  | |- safe _ (Ret _) => apply safe_ret
  | |- safe _ (note _) => apply safe_note
  | |- safe _ (fail _) => apply safe_note
  | |- safe _ (warn _) => apply safe_note
  | |- safe _ (when _ _) => apply safe_when; intros ?
  | |- safe _ (if_present _ _) => apply safe_if_present; intros ? ?
  | |- safe _ (parsed _ _ _ _ _) => apply safe_parsed; intros ? ?
  | |- safe _ (each _ _) => apply safe_each; intros ? ?
  | |- safe _ (tally _ _ _) => apply safe_tally
  | |- safe _ (link _ _ _) => apply safe_link
  | |- safe _ (local_snapshot _ _ _ _ _) => unfold local_snapshot
  | |- safe _ (listed _ _ _) => eapply (safe_listed _ _ _ _ (fun _ => True)); [apply sound_listed|intros ? _]
  | |- safe _ (on_conn _) => apply safe_conn
  | |- safe _ (materialise_paths _ _ _ _) => apply safe_materialise_paths; [|intros ?]
  | |- safe _ (ensure_folder_paths_sync _ _ _) => apply safe_ensure_paths; [|intros ?|]
  | |- safe _ (apply_empty_folders _ _ _ _) => apply safe_empty_folders; [|intros ?]
  | |- safe _ (match ?x with _ => _ end) => destruct x eqn:?
  | |- sound _ (exec _ _) => apply sound_exec
  | |- sound _ (query_as _ _ _ _) => apply sound_query_as
  | |- sound _ (query_ok _) => apply sound_query_ok
  | |- sound _ (at_now _) => apply sound_at_now; [|intros ?]
  | |- sound _ (try _ _) => apply sound_try; [|intros ?]
  | |- sound _ (Ret _) => exact Logic.I
  | |- sound _ (Sessions.upsert _) => apply sound_session_upsert
  | |- sound _ (call (KnownHosts.upsert_by_host_port _ _ _ _ _)) => unfold KnownHosts.upsert_by_host_port; apply sound_statement
  | |- sound _ (call KnownHosts.clear_all) => unfold KnownHosts.clear_all; apply sound_statement
  | |- sound _ (match ?x with _ => _ end) => destruct x eqn:?
  end.
Ltac walk := repeat (unfold_dao; step).

Section Anything.
Context `{SerdeText} {D : Type} `{Database D}.
Variable decode : chars -> string + list Z.
Variable sha256 : list Z -> list Z.
Variable parse_error : string -> string.
Variable I : D -> Prop.
Hypothesis I_sql : forall A (s : sql A), keeps_sql I s.
Hypothesis I_fill : forall d, I d -> I (fill_bytes d).2.
Hypothesis I_now : forall d, I d -> I (now_unix_ms d).2.

Lemma safe_run_apply pending m options now_ms : safe I (run_apply decode sha256 parse_error pending m options now_ms).
Proof.
  unfold run_apply, apply_keys, apply_keys_sync, apply_one_key_sync, apply_one_key_import, apply_sessions_phase, apply_folder_tree,
    apply_sessions, apply_one_session, apply_tags_phase, apply_tags, apply_one_tag, apply_session_tags, apply_folder_tags,
    apply_snippets_phase, apply_snippets, apply_one_snippet, apply_session_snippets, apply_known_hosts, apply_known_host_line,
    apply_child_tables, apply_ssh_key_certificates, apply_one_certificate, apply_webdav_session_details,
    apply_one_webdav_session_detail, apply_s3_session_details, apply_one_s3_session_detail, apply_sftp_bookmarks,
    apply_one_sftp_bookmark, apply_port_forward_rules, apply_one_port_forward_rule.
  walk; auto.
Qed.
End Anything.

(** ** A replacing import is all or nothing *)
Section Atomic.
Context `{SerdeText} {D : Type} `{Database D}.
Variable decode : chars -> string + list Z.
Variable sha256 : list Z -> list Z.
Variable parse_error : string -> string.

(** An open transaction that falls back to [t]. *)
Definition pending_on (t : Tables) (d : D) : Prop := saved d = Some t.

Lemma pending_on_sql t A (s : sql A) : keeps_sql (pending_on t) s.
Proof. intros d Hd. unfold pending_on in *. by rewrite execute_saved. Qed.

Lemma pending_on_fill t d : pending_on t d -> pending_on t (fill_bytes d).2.
Proof. unfold pending_on. by rewrite (proj2 (fill_bytes_same d)). Qed.

Lemma pending_on_now t d : pending_on t d -> pending_on t (now_unix_ms d).2.
Proof. unfold pending_on. by rewrite (proj2 (now_same d)). Qed.

Lemma replace_clear_pending t options : safe (pending_on t) (run_replace_clear options).
Proof. unfold run_replace_clear, record_clear. walk; auto using pending_on_sql, pending_on_now. Qed.

Lemma run_apply_pending t pending m options now_ms :
  safe (pending_on t) (run_apply decode sha256 parse_error pending m options now_ms).
Proof. apply safe_run_apply; [apply pending_on_sql|apply pending_on_fill|apply pending_on_now]. Qed.

Lemma pending_on_durable t d : pending_on t d -> durable d = t.
Proof. unfold pending_on, durable. by intros ->. Qed.

Lemma ensures_always {W A} (I J : W -> Prop) (p : prog W A) Q w :
  ensures I p Q -> I w -> (forall w, I w -> J w) -> always J p w.
Proof. intros Hp Hw HJ n. by eapply HJ, ensures_crash. Qed.

Lemma run_in_tx (f : D -> (string + unit) * D) wrap w :
  run (in_tx f wrap) w =
  (match (f (conn w)).1 with inl e => inl (wrap e) | inr _ => inr () end, mkApplying (f (conn w)).2 (outcome w)).
Proof. unfold in_tx, on_conn. simpl. by destruct (f (conn w)). Qed.

Lemma always_in_tx (J : Applying D -> Prop) (f : D -> (string + unit) * D) wrap w :
  J w -> J (run (in_tx f wrap) w).2 -> always J (in_tx f wrap) w.
Proof.
  intros Hw Hf [|n]; [done|]. rewrite run_in_tx in Hf. unfold in_tx, on_conn. simpl in *. destruct (f (conn w)). by destruct n.
Qed.

(** The end of a replacing import: commit without errors, roll back otherwise. *)
Definition finish : prog (Applying D) (Error + unit) :=
  (let! failed := ask (fun o => negb (bool_decide (errors o = []))) in
   if failed then
     let! r := in_tx rollback_tx (fun e => Archive ("apply tx rollback: " ++ e)) in
     match r with inl e => Ret (inl e) | inr _ => let! _ := note set_rolled_back in Ret (inr ()) end
   else in_tx commit_tx (fun e => Archive ("apply tx commit: " ++ e)))%prog.

Lemma durable_rollback d : durable (rollback_tx d).2 = durable d.
Proof.
  unfold durable. destruct (rollback_tx d).1 as [e|[]] eqn:E; [by apply (rollback_failed d e)|].
  by destruct (rolled_back_ok d E) as [-> ->].
Qed.

Lemma run_finish w : run finish w =
  if bool_decide (errors (outcome w) = []) then run (in_tx commit_tx (fun e => Archive ("apply tx commit: " ++ e))) w
  else
    (match (rollback_tx (conn w)).1 with inl e => inl (Archive ("apply tx rollback: " ++ e)) | inr _ => inr () end,
     mkApplying (rollback_tx (conn w)).2
       (match (rollback_tx (conn w)).1 with inl e => outcome w | inr _ => set_rolled_back (outcome w) end)).
Proof.
  unfold finish. simpl. destruct (bool_decide (errors (outcome w) = [])); [done|]. simpl.
  by destruct (rollback_tx (conn w)) as [[e|[]] d].
Qed.

Lemma always_finish (J : Applying D -> Prop) w :
  J w -> (forall o, J (mkApplying (conn (run finish w).2) o)) -> always J finish w.
Proof.
  intros Hw Hf. rewrite run_finish in Hf. destruct w as [d o]. intros [|[|n]]; [exact Hw..|]. unfold finish. simpl in *.
  destruct (bool_decide (errors o = [])); simpl in *.
  - destruct (commit_tx d). destruct n; apply Hf.
  - destruct (rollback_tx d) as [[e|[]] d']; simpl in *; [destruct n; apply Hf|].
    destruct n as [|[|n]]; apply Hf.
Qed.

Lemma finish_outcome t w :
  pending_on t (conn w) ->
  durable (conn (run finish w).2) = t \/
  ((run finish w).1 = inr () /\ errors (outcome (run finish w).2) = [] /\
   durable (conn (run finish w).2) = tables (conn (run finish w).2)).
Proof.
  intros Hp. rewrite run_finish. destruct (bool_decide (errors (outcome w) = [])) eqn:E.
  - apply bool_decide_eq_true in E. rewrite run_in_tx. simpl.
    destruct (commit_tx (conn w)).1 as [e|[]] eqn:Ec.
    + left. destruct (commit_failed _ _ Ec) as [Ht Hs]. unfold durable. by rewrite Hs, Ht, Hp.
    + right. destruct (committed _ Ec) as [Ht Hs]. unfold durable. by rewrite Hs.
  - left. simpl. rewrite durable_rollback. by apply pending_on_durable.
Qed.

(** All or nothing, from a state with tables [t]: at every crash point, and at the end. *)
Definition all_or_nothing (t : Tables) (ok : ApplyOutcome -> Prop) (p : prog (Applying D) (Error + unit)) (w : Applying D) : Prop :=
  let after := durable (conn (run p w).2) in
  always (fun v => durable (conn v) = t \/ durable (conn v) = after) p w /\
  (after = t \/ ((run p w).1 = inr () /\ ok (outcome (run p w).2) /\ after = tables (conn (run p w).2))).

Lemma all_or_nothing_after {A} t ok (p : prog (Applying D) A) q w :
  always (fun v => durable (conn v) = t) p w -> all_or_nothing t ok (q (run p w).1) (run p w).2 ->
  all_or_nothing t ok (pbind p q) w.
Proof.
  intros Hp [Ha Hq]. unfold all_or_nothing. rewrite run_bind. destruct (run p w) as [a w'] eqn:E. split; [|exact Hq].
  apply always_bind; [intros n; left; apply Hp|]. by rewrite E.
Qed.

Lemma all_or_nothing_safe {A} t ok (p : prog (Applying D) A) q w :
  safe (pending_on t) p -> pending_on t (conn w) ->
  (forall a w', pending_on t (conn w') -> all_or_nothing t ok (q a) w') -> all_or_nothing t ok (pbind p q) w.
Proof.
  intros Hp Hw Hq. apply all_or_nothing_after.
  - eapply (ensures_always (fun w => pending_on t (conn w))); [exact Hp|done|]. intros v. apply pending_on_durable.
  - apply Hq. by eapply (ensures_run (fun w => pending_on t (conn w))).
Qed.

Lemma all_or_nothing_finish t w : pending_on t (conn w) -> all_or_nothing t (fun o => errors o = []) finish w.
Proof.
  intros Hw. split; [|by apply finish_outcome].
  apply always_finish; [left; by apply pending_on_durable|]. intros o. by right.
Qed.

Lemma all_or_nothing_commit t wrap w : pending_on t (conn w) -> all_or_nothing t (fun _ => True) (in_tx commit_tx wrap) w.
Proof.
  intros Hw. assert (Hd := pending_on_durable _ _ Hw). split; [apply always_in_tx; [by left|by right]|].
  rewrite run_in_tx. cbn [conn fst snd outcome]. destruct (commit_tx (conn w)).1 as [e|[]] eqn:Ec.
  - left. destruct (commit_failed _ _ Ec) as [Ht Hs]. unfold durable. by rewrite Hs, Ht, Hw.
  - right. destruct (committed _ Ec) as [Ht Hs]. unfold durable. by rewrite Hs.
Qed.

(** A program that opens a transaction and ends it all or nothing. *)
Lemma all_or_nothing_tx ok wrap (q : prog (Applying D) (Error + unit)) w :
  saved (conn w) = None -> (forall w', pending_on (tables (conn w)) (conn w') -> all_or_nothing (tables (conn w)) ok q w') ->
  all_or_nothing (tables (conn w)) ok (pbind (in_tx begin_tx wrap) (fun r => match r with inl e => Ret (inl e) | inr _ => q end)) w.
Proof.
  intros Hs Hq. assert (Hd : durable (conn w) = tables (conn w)) by (unfold durable; by rewrite Hs).
  apply all_or_nothing_after.
  - apply always_in_tx; [done|]. rewrite run_in_tx. cbn [conn snd].
    destruct (begin_tx (conn w)).1 as [e|[]] eqn:Eb.
    + destruct (begin_failed _ _ Eb) as [Ht Hs']. unfold durable. by rewrite Hs', Hs.
    + destruct (begun _ Eb) as [Ht Hs']. unfold durable. by rewrite Hs'.
  - rewrite run_in_tx. cbn [conn fst snd]. destruct (begin_tx (conn w)).1 as [e|[]] eqn:Eb.
    + destruct (begin_failed _ _ Eb) as [Ht Hs']. split; [intros n; left; destruct n|left]; unfold durable; cbn; by rewrite Hs', Hs.
    + destruct (begun _ Eb) as [Ht Hs']. by apply Hq.
Qed.

(** C24. A replacing import and a merge never leave half of themselves behind.  Whatever
    statement fails and wherever the process dies, what is durable is either the database as it
    was or the completed run; a replacing import is completed only when it returned success
    without a single recorded error, so with an error, or reporting [rolled_back], nothing
    changed. *)
Theorem import_is_atomic pending m options now_ms w :
  m <> ArchiveImport false -> saved (conn w) = None ->
  let p := apply_pending_to_db decode sha256 parse_error pending m options now_ms in
  let before := tables (conn w) in
  let after := durable (conn (run p w).2) in
  (forall n, durable (conn (crash n p w)) = before \/ durable (conn (crash n p w)) = after) /\
  (after = before \/
   ((run p w).1 = inr () /\ (is_archive m = true -> errors (outcome (run p w).2) = []) /\ after = tables (conn (run p w).2))).
Proof.
  intros Hm Hs p before after.
  enough (all_or_nothing before (fun o => is_archive m = true -> errors o = []) p w) by done.
  unfold before, p, apply_pending_to_db. destruct m as [[]|]; [|done|]; (apply all_or_nothing_tx; [done|]); intros w' Hw'.
  - apply all_or_nothing_safe; [apply replace_clear_pending|done|]. intros _ w1 Hw1.
    apply all_or_nothing_safe; [apply run_apply_pending|done|]. intros _ w2 Hw2.
    destruct (all_or_nothing_finish _ _ Hw2) as [? [?|(? & ? & ?)]]; (split; [done|]); [by left|by right].
  - apply all_or_nothing_safe; [apply run_apply_pending|done|]. intros _ w1 Hw1.
    destruct (all_or_nothing_commit _ (fun e => Db ("sync apply: tx commit: " ++ e)) _ Hw1) as [? [?|(? & ? & ?)]];
      (split; [done|]); [by left|by right].
Qed.

End Atomic.

(** ** A merge keeps what is not older *)

(** Every row sits under its own id. *)
Record keyed (t : Tables) : Prop := {
  keyed_keys k s : ssh_keys t !! k = Some s -> key_key (row s) = k;
  keyed_tags k s : tags t !! k = Some s -> tag_key (row s) = k;
  keyed_snippets k s : snippets t !! k = Some s -> snippet_key (row s) = k;
  keyed_bookmarks k s : sftp_bookmarks t !! k = Some s -> bookmark_key (row s) = k;
  keyed_rules k s : port_forward_rules t !! k = Some s -> rule_key (row s) = k
}.

(** The stamp the merge gives a peer row: where its tombstone lies, or when it was last written. *)
Definition deleted_stamp (v : json) : Z := default 0 (json_i64_opt v "deleted_at_ms").
Definition session_stamp (v : json) : Z := if is_tombstone v then deleted_stamp v else default 0 (peer_stamp v "updated_at").
Definition created_stamp (v : json) : Z := if is_tombstone v then deleted_stamp v else default 0 (peer_stamp v "created_at").
Definition bookmark_stamp (now_ms : Z) (v : json) : Z :=
  if is_tombstone v then deleted_stamp v else parse_iso8601_or_now (json_string v "created_at") now_ms.
Definition millis_stamp (v : json) : Z := if is_tombstone v then deleted_stamp v else default 0 (json_i64_opt v "updated_at_ms").

(** A row of the peer's list [text] with this id and a stamp later than [version]. *)
Definition newer_row `{SerdeText} (text : option string) (key : string) (stamp : json -> Z) (id : string) (version : Z) : Prop :=
  exists rows v, text ≫= values_of = Some rows /\ v ∈ rows /\ json_string v key = id /\ version < stamp v.

Section Merge.
Context `{SerdeText} {D : Type} `{Database D}.
Variable decode : chars -> string + list Z.
Variable sha256 : list Z -> list Z.
Variable parse_error : string -> string.
Variable pending : PendingImport.
Variable now_ms : Z.
Variable t0 : Tables.

Definition newer_session (id : string) (m : SessionMain) : Prop :=
  newer_row (sessions_json pending) "id" session_stamp id (main_updated_at m).
Definition newer_key (id : string) (r : SshKeyRow) : Prop :=
  newer_row (keys_json pending) "id" created_stamp id (key_created_at_ms r).
Definition newer_tag (id : string) (r : TagRow) : Prop :=
  newer_row (tags_json pending) "id" created_stamp id (tag_created_at_ms r).
Definition newer_snippet (id : string) (r : SnippetRow) : Prop :=
  newer_row (snippets_json pending) "id" session_stamp id (snippet_updated_at_ms r).
Definition newer_bookmark (id : string) (r : SftpBookmarkRow) : Prop :=
  newer_row (sftp_bookmarks_json pending) "id" (bookmark_stamp now_ms) id (bookmark_created_at_ms r).
Definition newer_rule (id : string) (r : PortForwardRuleRow) : Prop :=
  newer_row (port_forward_rules_json pending) "id" millis_stamp id (rule_updated_at_ms r).

(** A live row of [m0] is still in [m], unless the peer had a newer one. *)
Definition kept {R} (newer : string -> R -> Prop) (m0 m : gmap string (stored R)) : Prop :=
  forall id r, m0 !! id = Some (mkStored r None) -> m !! id = Some (mkStored r None) \/ newer id r.

Record Kept (t : Tables) : Prop := {
  kept_keyed : keyed t;
  kept_main : kept newer_session (sessions t0) (sessions t);
  kept_ssh : forall id m, sessions t0 !! id = Some (mkStored m None) ->
    newer_session id m \/ ssh_details t !! id = ssh_details t0 !! id;
  kept_keys : kept newer_key (ssh_keys t0) (ssh_keys t);
  kept_tags : kept newer_tag (tags t0) (tags t);
  kept_snippets : kept newer_snippet (snippets t0) (snippets t);
  kept_bookmarks : kept newer_bookmark (sftp_bookmarks t0) (sftp_bookmarks t);
  kept_rules : kept newer_rule (port_forward_rules t0) (port_forward_rules t)
}.

Lemma kept_same : keyed t0 -> Kept t0.
Proof. intros Hk. split; try done; try (by left); intros ???; right; auto. Qed.

Definition Ik (d : D) : Prop := Kept (tables d).

Lemma Ik_fill d : Ik d -> Ik (fill_bytes d).2.
Proof. unfold Ik. by rewrite (proj1 (fill_bytes_same d)). Qed.

Lemma Ik_now d : Ik d -> Ik (now_unix_ms d).2.
Proof. unfold Ik. by rewrite (proj1 (now_same d)). Qed.

Lemma keeps_by_meaning {A} (s : sql A) :
  (forall t a t', s t = Some (a, t') -> Kept t -> Kept t') -> keeps_sql Ik s.
Proof.
  intros Hs d Hd. unfold Ik in *. destruct (execute s d).1 as [e|a] eqn:E.
  - by rewrite (execute_failed _ _ _ _ E).
  - by eapply Hs, Hd; apply executed.
Qed.

Lemma change_some {A} ok t' (a a' : A) t'' : change ok t' a = Some (a', t'') -> t'' = t'.
Proof. unfold change. destruct (ok t'); congruence. Qed.

(** A statement that leaves every synchronised table alone. *)
Lemma keeps_others {A} (s : sql A) :
  (forall t a t', s t = Some (a, t') ->
     (sessions t', ssh_details t', ssh_keys t', tags t', snippets t', sftp_bookmarks t', port_forward_rules t')
     = (sessions t, ssh_details t, ssh_keys t, tags t, snippets t, sftp_bookmarks t, port_forward_rules t)) ->
  keeps_sql Ik s.
Proof.
  intros Hs. apply keeps_by_meaning. intros t a t' Ht [[] ???????]. injection (Hs _ _ _ Ht) as E1 E2 E3 E4 E5 E6 E7.
  split; [split|..]; rewrite ?E1, ?E2, ?E3, ?E4, ?E5, ?E6, ?E7; assumption.
Qed.

Ltac others := apply keeps_others; intros ? ? ? Ht; injection Ht as _ <-; done.

Lemma keeps_select_sessions : keeps_sql Ik select_sessions. Proof. others. Qed.
Lemma keeps_select_folders : keeps_sql Ik select_folders. Proof. others. Qed.
Lemma keeps_select_keys : keeps_sql Ik select_keys. Proof. others. Qed.
Lemma keeps_select_tags : keeps_sql Ik select_tags. Proof. others. Qed.
Lemma keeps_select_snippets : keeps_sql Ik select_snippets. Proof. others. Qed.
Lemma keeps_select_bookmarks : keeps_sql Ik select_all_bookmarks. Proof. others. Qed.
Lemma keeps_select_rules : keeps_sql Ik select_all_rules. Proof. others. Qed.
Lemma keeps_select_webdav id : keeps_sql Ik (select_webdav_updated_at id). Proof. others. Qed.
Lemma keeps_select_s3 id : keeps_sql Ik (select_s3_updated_at id). Proof. others. Qed.

Ltac changes s := apply keeps_others; intros ? ? ? Hc; unfold s in Hc; apply change_some in Hc; by rewrite Hc.

Lemma keeps_folder r : keeps_sql Ik (insert_folder r). Proof. changes insert_folder. Qed.
Lemma keeps_certificate r : keeps_sql Ik (insert_certificate r). Proof. changes insert_certificate. Qed.
Lemma keeps_session_tag s tag : keeps_sql Ik (insert_session_tag s tag). Proof. changes insert_session_tag. Qed.
Lemma keeps_folder_tag f tag : keeps_sql Ik (insert_folder_tag f tag). Proof. changes insert_folder_tag. Qed.
Lemma keeps_session_snippet s sn : keeps_sql Ik (insert_session_snippet s sn). Proof. changes insert_session_snippet. Qed.

Lemma keeps_known_hosts {A} (s : statement A) : keeps_sql Ik (known_hosts_sql s).
Proof.
  apply keeps_others. intros t a t'. destruct s; cbn; try destruct (_ !! _); intros; simplify_eq; done.
Qed.

(** ** Writes to a synchronised table *)
Lemma kept_insert {R} (newer : string -> R -> Prop) m0 m id s :
  (forall r, m0 !! id = Some (mkStored r None) -> newer id r) -> kept newer m0 m -> kept newer m0 (<[id := s]> m).
Proof.
  intros Hn Hk k r Hr. destruct (decide (k = id)) as [->|]; [right; by apply Hn|].
  rewrite lookup_insert_ne by done. by apply Hk.
Qed.

Lemma kept_update {R} (newer : string -> R -> Prop) m0 m id f :
  (forall r s, m0 !! id = Some (mkStored r None) -> f (mkStored r None) = Some s -> newer id r) ->
  kept newer m0 m -> kept newer m0 (update_row f id m).2.
Proof.
  intros Hn Hk. unfold update_row. destruct (m !! id ≫= f) as [s|] eqn:E; [|done].
  intros k r Hr. destruct (decide (k = id)) as [->|]; cbn.
  - destruct (Hk id r Hr) as [Hm|?]; [|by right]. right. rewrite Hm in E. by eapply Hn.
  - rewrite lookup_insert_ne by done. by apply Hk.
Qed.

(** A change of one session's rows, when the peer's row is newer than a live one. *)
Definition overrides (id : string) : Prop := forall m, sessions t0 !! id = Some (mkStored m None) -> newer_session id m.

Lemma kept_ssh_override id t (j : gmap string SshDetails) :
  overrides id -> (forall k m, sessions t0 !! k = Some (mkStored m None) -> newer_session k m \/ ssh_details t !! k = ssh_details t0 !! k) ->
  (forall k, k <> id -> j !! k = ssh_details t !! k) ->
  forall k m, sessions t0 !! k = Some (mkStored m None) -> newer_session k m \/ j !! k = ssh_details t0 !! k.
Proof.
  intros Ho Hk Hj k m Hr. destruct (decide (k = id)) as [->|Hne]; [left; by apply Ho|].
  rewrite Hj by done. by apply Hk.
Qed.

Lemma keeps_insert_session r : overrides (session_key r) -> keeps_sql Ik (insert_session r).
Proof.
  intros Ho. apply keeps_by_meaning. intros t a t' Hc [[] ???????]. unfold insert_session in Hc. apply change_some in Hc as ->.
  split; [split|..]; try assumption. by apply kept_insert.
Qed.

Lemma keeps_insert_ssh r : overrides (session_key r) -> keeps_sql Ik (insert_ssh_details r).
Proof.
  intros Ho. apply keeps_by_meaning. intros t a t' Hc [[] ???????]. unfold insert_ssh_details in Hc. apply change_some in Hc as ->.
  split; [split|..]; try assumption. eapply kept_ssh_override; [done..|]. intros k Hk. by apply lookup_insert_ne.
Qed.

Lemma keeps_remove_ssh id : overrides id -> keeps_sql Ik (remove_ssh_details id).
Proof.
  intros Ho. apply keeps_by_meaning. intros t a t' Hc [[] ???????]. injection Hc as _ <-.
  split; [split|..]; try assumption. eapply kept_ssh_override; [done..|]. intros k Hk. by apply lookup_delete_ne.
Qed.

Lemma keeps_remove_webdav id : keeps_sql Ik (remove_webdav_details id). Proof. others. Qed.
Lemma keeps_remove_s3 id : keeps_sql Ik (remove_s3_details id). Proof. others. Qed.
Lemma keeps_insert_webdav r ts : keeps_sql Ik (insert_webdav r ts). Proof. changes insert_webdav. Qed.
Lemma keeps_insert_s3 r ts : keeps_sql Ik (insert_s3 r ts). Proof. changes insert_s3. Qed.

Lemma keeps_tombstone_webdav id ts : keeps_sql Ik (tombstone_webdav id ts).
Proof. apply keeps_others. intros t a t'. unfold tombstone_webdav. destruct (update_row _ _ _). by intros [= _ <-]. Qed.
Lemma keeps_tombstone_s3 id ts : keeps_sql Ik (tombstone_s3 id ts).
Proof. apply keeps_others. intros t a t'. unfold tombstone_s3. destruct (update_row _ _ _). by intros [= _ <-]. Qed.

(** A peer row with this id and exactly this stamp. *)
Definition stamped (text : option string) (key : string) (stamp : json -> Z) (id : string) (ts : Z) : Prop :=
  exists rows v, text ≫= values_of = Some rows /\ v ∈ rows /\ json_string v key = id /\ stamp v = ts.

Lemma stamped_newer text key stamp id ts version :
  stamped text key stamp id ts -> version < ts -> newer_row text key stamp id version.
Proof. intros (rows & v & Hr & Hv & Hid & <-) Hlt. by exists rows, v. Qed.

Lemma keyed_update {R} (key : R -> string) f id (m : gmap string (stored R)) :
  (forall s s', f s = Some s' -> key (row s') = key (row s)) ->
  (forall k s, m !! k = Some s -> key (row s) = k) ->
  forall k s, (update_row f id m).2 !! k = Some s -> key (row s) = k.
Proof.
  intros Hf Hk k s. unfold update_row. destruct (m !! id ≫= f) as [s'|] eqn:E; [|apply Hk]. cbn.
  apply bind_Some in E as (s0 & Hm & Hs). intros [[-> ->]|[_ Hs']]%lookup_insert_Some; [|by apply Hk].
  rewrite (Hf _ _ Hs). by apply Hk.
Qed.

Lemma keyed_insert {R} (key : R -> string) r d (m : gmap string (stored R)) :
  (forall k s, m !! k = Some s -> key (row s) = k) ->
  forall k s, <[key r := mkStored r d]> m !! k = Some s -> key (row s) = k.
Proof. intros Hk k s [[<- <-]|[_ Hs]]%lookup_insert_Some; [done|by apply Hk]. Qed.

Lemma bury_some {R} (stamp : R -> Z) restamp ts r s :
  bury stamp restamp ts (mkStored r None) = Some s -> stamp r < ts.
Proof. unfold bury. cbn. destruct (Z.ltb_spec (stamp r) ts); [done|discriminate]. Qed.

Lemma bury_created_some {R} (stamp : R -> Z) ts r s :
  bury_created stamp ts (mkStored r None) = Some s -> stamp r < ts.
Proof. unfold bury_created. cbn. destruct (Z.ltb_spec (stamp r) ts); [done|discriminate]. Qed.

Lemma bury_created_row {R} (key : R -> string) (stamp : R -> Z) ts s s' :
  bury_created stamp ts s = Some s' -> key (row s') = key (row s).
Proof. unfold bury_created. destruct (_ && _); [|discriminate]. by intros [= <-]. Qed.

Lemma bury_row {R} (key : R -> string) (stamp : R -> Z) restamp ts s s' :
  (forall r, key (restamp ts r) = key r) -> bury stamp restamp ts s = Some s' -> key (row s') = key (row s).
Proof. intros Hk. unfold bury. destruct (_ <? _); [|discriminate]. intros [= <-]. apply Hk. Qed.

Lemma keeps_tombstone_session id ts :
  stamped (sessions_json pending) "id" session_stamp id ts -> keeps_sql Ik (tombstone_session id ts).
Proof.
  intros Hs. apply keeps_by_meaning. intros t a t' Hc [[] ???????]. unfold tombstone_session in Hc.
  assert (Hk : kept newer_session (sessions t0) (update_row (bury main_updated_at stamp_main ts) id (sessions t)).2).
  { apply kept_update; [|done]. intros r s _ Hb%bury_some. by eapply stamped_newer. }
  destruct (update_row _ _ _). injection Hc as _ <-. split; [split|..]; assumption.
Qed.

Definition overrides_row {R} (m0 : gmap string (stored R)) (newer : string -> R -> Prop) (id : string) : Prop :=
  forall r, m0 !! id = Some (mkStored r None) -> newer id r.

Lemma keeps_insert_key r : overrides_row (ssh_keys t0) newer_key (key_key r) -> keeps_sql Ik (insert_key r).
Proof.
  intros Ho. apply keeps_by_meaning. intros t a t' Hc [[] ???????]. injection Hc as _ <-.
  split; [split|..]; try assumption; [by apply keyed_insert|by apply kept_insert].
Qed.

Lemma keeps_insert_tag r : overrides_row (tags t0) newer_tag (tag_key r) -> keeps_sql Ik (insert_tag r).
Proof.
  intros Ho. apply keeps_by_meaning. intros t a t' Hc [[] ???????]. unfold insert_tag in Hc. apply change_some in Hc as ->.
  split; [split|..]; try assumption; [by apply (keyed_insert tag_key (mkTag (tag_key r) _ _ _))|by apply kept_insert].
Qed.

Lemma keeps_insert_snippet r : overrides_row (snippets t0) newer_snippet (snippet_key r) -> keeps_sql Ik (insert_snippet r).
Proof.
  intros Ho. apply keeps_by_meaning. intros t a t' Hc [[] ???????]. injection Hc as _ <-.
  split; [split|..]; try assumption; [by apply (keyed_insert snippet_key (mkSnippet (snippet_key r) _ _ _ _ _))|by apply kept_insert].
Qed.

Lemma keeps_insert_bookmark r : overrides_row (sftp_bookmarks t0) newer_bookmark (bookmark_key r) -> keeps_sql Ik (insert_bookmark r).
Proof.
  intros Ho. apply keeps_by_meaning. intros t a t' Hc [[] ???????]. unfold insert_bookmark in Hc. apply change_some in Hc as ->.
  split; [split|..]; try assumption; [by apply (keyed_insert bookmark_key (mkBookmark (bookmark_key r) _ _ _ _))|by apply kept_insert].
Qed.

Lemma keeps_insert_rule r ts : overrides_row (port_forward_rules t0) newer_rule (rule_key r) -> keeps_sql Ik (insert_rule r ts).
Proof.
  intros Ho. apply keeps_by_meaning. intros t a t' Hc [[] ???????]. unfold insert_rule in Hc. apply change_some in Hc as ->.
  split; [split|..]; try assumption; [by apply (keyed_insert rule_key (mkRule (rule_key r) _ _ _ _ _ _ _ _ _ _ _))|by apply kept_insert].
Qed.

Ltac buried st newer key some same :=
  intros Hs; apply keeps_by_meaning; intros t a t' Hc [[] ???????]; unfold st in Hc;
  match type of Hc with
  | context [update_row ?f ?id ?m] =>
      assert (Hk : kept newer _ (update_row f id m).2)
        by (apply kept_update; [intros r s _ Hb%some; by eapply stamped_newer|eassumption]);
      assert (Hy : forall k s, (update_row f id m).2 !! k = Some s -> key (row s) = k)
        by (apply keyed_update; [intros s s'; by apply same|assumption])
  end;
  destruct (update_row _ _ _); injection Hc as _ <-; split; [split|..]; assumption.

Lemma keeps_tombstone_key id ts :
  stamped (keys_json pending) "id" created_stamp id ts -> keeps_sql Ik (tombstone_key id ts).
Proof. buried (@tombstone_key) newer_key key_key @bury_created_some @bury_created_row. Qed.

Lemma keeps_tombstone_tag id ts :
  stamped (tags_json pending) "id" created_stamp id ts -> keeps_sql Ik (tombstone_tag id ts).
Proof. buried (@tombstone_tag) newer_tag tag_key @bury_created_some @bury_created_row. Qed.

Lemma keeps_tombstone_snippet id ts :
  stamped (snippets_json pending) "id" session_stamp id ts -> keeps_sql Ik (tombstone_snippet id ts).
Proof. buried (@tombstone_snippet) newer_snippet snippet_key @bury_some @bury_row. Qed.

Lemma keeps_tombstone_bookmark id ts :
  stamped (sftp_bookmarks_json pending) "id" (bookmark_stamp now_ms) id ts -> keeps_sql Ik (tombstone_bookmark id ts).
Proof. buried (@tombstone_bookmark) newer_bookmark bookmark_key @bury_created_some @bury_created_row. Qed.

Lemma keeps_tombstone_rule id ts :
  stamped (port_forward_rules_json pending) "id" millis_stamp id ts -> keeps_sql Ik (tombstone_rule id ts).
Proof. buried (@tombstone_rule) newer_rule rule_key @bury_some @bury_row. Qed.

(** ** The snapshots the gates compare with *)
Lemma ensures_query {A} a b c (s : sql A) (Q : A -> Prop) :
  keeps_sql Ik s -> (forall t x t', s t = Some (x, t') -> Kept t -> Q x) ->
  ensures Ik (query_as a b c s) (fun r => match r with inl _ => True | inr x => Q x end).
Proof.
  intros Hs HQ. unfold query_as. eapply ensures_bind.
  - apply (ensures_call _ _ (fun r => match r with inl _ => True | inr x => Q x end)). intros d Hd. split; [by apply Hs|].
    destruct (execute s d).1 as [e|x] eqn:E; [done|]. eapply HQ; [by apply executed|done].
  - by intros [e|x].
Qed.

Lemma row_order_elem {A} (m : gmap string A) a : a ∈ row_order m <-> exists k, m !! k = Some a.
Proof.
  rewrite row_order_perm, list_elem_of_fmap. split.
  - intros ([k x] & -> & Hk%elem_of_map_to_list). by exists k.
  - intros [k Hk]. exists (k, a). by rewrite elem_of_map_to_list.
Qed.

Lemma by_id_lookup {R} (key : R -> string) rows k r :
  r ∈ rows -> key r = k -> (forall r', r' ∈ rows -> key r' = k -> r' = r) -> by_id key rows !! k = Some r.
Proof.
  intros Hin Hk Hu. unfold by_id.
  assert (Hg : forall l (m : gmap string R), (forall r', r' ∈ l -> key r' = k -> r' = r) -> r ∈ l \/ m !! k = Some r ->
    foldl (fun m r => <[key r := r]> m) m l !! k = Some r).
  { induction l as [|x l IH]; intros m Hl Ho; cbn; [destruct Ho as [Ho|Ho]; [by apply elem_of_nil in Ho|done]|].
    apply IH; [intros; apply Hl; [by right|done]|].
    destruct (decide (key x = k)) as [Hx|Hx]; [right; rewrite <- Hx, (Hl x) by (done || left); by rewrite lookup_insert_eq|].
    rewrite lookup_insert_ne by done. destruct Ho as [[->|Ho]%elem_of_cons|Ho]; [done|by left|by right]. }
  apply Hg; [done|by left].
Qed.

(** A live row of [m0] is in the snapshot with its own stamp, or the peer had a newer one. *)
Definition covers {R L} (m0 : gmap string (stored R)) (newer : string -> R -> Prop) (stamp : R -> Z) (stamp_l : L -> Z)
    (local : gmap string L) : Prop :=
  forall id r, m0 !! id = Some (mkStored r None) -> newer id r \/ exists l, local !! id = Some l /\ stamp_l l = stamp r.

Lemma covers_live {R} (key : R -> string) (stamp : R -> Z) newer m0 m :
  (forall k s, m !! k = Some s -> key (row s) = k) -> kept newer m0 m ->
  covers m0 newer stamp stamp (by_id key (row_order (live_rows m))).
Proof.
  intros Hkey Hk id r Hr. destruct (Hk id r Hr) as [Hm|?]; [right|by left]. exists r. split; [|done].
  assert (Hl : forall k r', live_rows m !! k = Some r' -> exists s, m !! k = Some s /\ row s = r').
  { intros k r'. unfold live_rows. rewrite lookup_omap, bind_Some. intros (s & Hs & Ha). exists s. split; [done|].
    cbn in Ha. destruct (alive s); congruence. }
  apply by_id_lookup; [|exact (Hkey _ _ Hm)|].
  - apply row_order_elem. exists id. unfold live_rows. by rewrite lookup_omap, Hm.
  - intros r' [k Hr']%row_order_elem He. destruct (Hl _ _ Hr') as (s & Hs & <-). assert (Hks := Hkey _ _ Hs).
    rewrite He in Hks. subst k. rewrite Hm in Hs. by injection Hs as <-.
Qed.

Lemma covers_all {R} (key : R -> string) (stamp : R -> Z) newer m0 m :
  (forall k s, m !! k = Some s -> key (row s) = k) -> kept newer m0 m ->
  covers m0 newer stamp id (stamp <$> by_id key (row <$> row_order m)).
Proof.
  intros Hkey Hk k r Hr. destruct (Hk k r Hr) as [Hm|?]; [right|by left]. exists (stamp r). split; [|done].
  rewrite lookup_fmap, (by_id_lookup _ _ k r); [done|..].
  - apply list_elem_of_fmap. exists (mkStored r None). split; [done|]. apply row_order_elem. by exists k.
  - exact (Hkey _ _ Hm).
  - intros r' (s & -> & [k' Hs]%row_order_elem)%list_elem_of_fmap He. assert (Hks := Hkey _ _ Hs).
    rewrite He in Hks. subst k'. rewrite Hm in Hs. by injection Hs as <-.
Qed.

Lemma covers_sessions t : Kept t ->
  covers (sessions t0) newer_session main_updated_at updated_at_ms (by_id session_key (row_order (live_sessions t))).
Proof.
  intros Hk id m Hr. destruct (kept_main _ Hk id m Hr) as [Hm|?]; [right|by left].
  assert (Hl : live_sessions t !! id = Some (session_of id m (ssh_details t !! id)))
    by (unfold live_sessions; by rewrite map_lookup_imap, Hm).
  eexists. split; [apply by_id_lookup; [apply row_order_elem; by exists id|done|]|done].
  intros r' [k Hr']%row_order_elem He. unfold live_sessions in Hr'. rewrite map_lookup_imap in Hr'.
  destruct (sessions t !! k) as [s|] eqn:Es; [|discriminate]. cbn in Hr'. destruct (alive s) eqn:Ea; [|discriminate].
  injection Hr' as <-. cbn in He. subst k. rewrite Hm in Es. by injection Es as <-.
Qed.

(** A peer row that passes the gate of such a snapshot is newer than the row it replaces. *)
Lemma gate_passed {R L} (m0 : gmap string (stored R)) newer (stamp : R -> Z) (stamp_l : L -> Z) local text key peer id ts :
  (forall r, newer_row text key peer id (stamp r) -> newer id r) ->
  covers m0 newer stamp stamp_l local -> lww_peer_loses ts (stamp_l <$> local !! id) = false ->
  stamped text key peer id ts -> overrides_row m0 newer id.
Proof.
  intros Hn Hc Hg Hs r Hr. destruct (Hc id r Hr) as [?|(l & Hl & Hst)]; [done|].
  apply Hn. eapply stamped_newer; [done|]. rewrite Hl in Hg. cbn in Hg. lia.
Qed.

(** ** The arms of the merge *)
Notation arrives text arr v := (text ≫= values_of = Some arr /\ v ∈ arr).

Lemma arrives_stamped text arr v key (stamp : json -> Z) ts :
  arrives text arr v -> stamp v = ts -> stamped text key stamp (json_string v key) ts.
Proof. intros [Ht Hv] Hs. by exists arr, v. Qed.

Lemma merge_session arr map local v :
  covers (sessions t0) newer_session main_updated_at updated_at_ms local -> arrives (sessions_json pending) arr v ->
  safe Ik (apply_one_session Sync map local now_ms v).
Proof.
  intros Hc Hv. unfold apply_one_session. cbn [is_sync is_archive andb].
  destruct (String.eqb (json_string v "id") ""); [walk|]. destruct (is_tombstone v) eqn:Et.
  - unfold_dao. walk. apply keeps_tombstone_session, (arrives_stamped _ arr); [done|]. unfold session_stamp. by rewrite Et.
  - destruct (lww_peer_loses _ _) eqn:Eg; [walk|].
    assert (Ho : overrides (json_string v "id")).
    { eapply (gate_passed _ _ _ _ _ _ "id" session_stamp); [done..|]. apply (arrives_stamped _ arr); [done|].
      unfold session_stamp. by rewrite Et. }
    apply safe_tally, sound_session_upsert; cbn [session_key build_session_row].
    + by apply keeps_insert_session.
    + by apply keeps_insert_ssh.
    + by apply keeps_remove_ssh.
    + apply keeps_remove_webdav.
    + apply keeps_remove_s3.
Qed.

Lemma merge_key arr local v :
  covers (ssh_keys t0) newer_key key_created_at_ms key_created_at_ms local -> arrives (keys_json pending) arr v ->
  safe Ik (apply_one_key_sync local now_ms v).
Proof.
  intros Hc Hv. unfold apply_one_key_sync. destruct (String.eqb (json_string v "id") ""); [walk|].
  destruct (is_tombstone v) eqn:Et.
  - walk. apply keeps_tombstone_key, (arrives_stamped _ arr); [done|]. unfold created_stamp. by rewrite Et.
  - destruct (lww_peer_loses _ _) eqn:Eg; [walk|]. walk. apply keeps_insert_key.
    eapply (gate_passed _ _ _ _ _ _ "id" created_stamp); [done..|]. apply (arrives_stamped _ arr); [done|].
    unfold created_stamp. by rewrite Et.
Qed.

Lemma merge_tag arr local v :
  covers (tags t0) newer_tag tag_created_at_ms tag_created_at_ms local -> arrives (tags_json pending) arr v ->
  safe Ik (apply_one_tag Sync local now_ms v).
Proof.
  intros Hc Hv. unfold apply_one_tag. cbn [is_sync andb]. destruct (is_tombstone v) eqn:Et.
  - walk. apply keeps_tombstone_tag, (arrives_stamped _ arr); [done|]. unfold created_stamp. by rewrite Et.
  - destruct (String.eqb _ "" || _); [walk|]. destruct (lww_peer_loses _ _) eqn:Eg; [walk|]. walk. apply keeps_insert_tag.
    eapply (gate_passed _ _ _ _ _ _ "id" created_stamp); [done..|]. apply (arrives_stamped _ arr); [done|].
    unfold created_stamp. by rewrite Et.
Qed.

Lemma merge_snippet arr local v :
  covers (snippets t0) newer_snippet snippet_updated_at_ms snippet_updated_at_ms local -> arrives (snippets_json pending) arr v ->
  safe Ik (apply_one_snippet Sync local now_ms v).
Proof.
  intros Hc Hv. unfold apply_one_snippet. cbn [is_sync andb negb]. destruct (String.eqb _ ""); [walk|].
  destruct (is_tombstone v) eqn:Et.
  - walk. apply keeps_tombstone_snippet, (arrives_stamped _ arr); [done|]. unfold session_stamp. by rewrite Et.
  - destruct (lww_peer_loses _ _) eqn:Eg; [walk|]. walk. apply keeps_insert_snippet.
    eapply (gate_passed _ _ _ _ _ _ "id" session_stamp); [done..|]. apply (arrives_stamped _ arr); [done|].
    unfold session_stamp. by rewrite Et.
Qed.

Lemma merge_bookmark arr live local v :
  covers (sftp_bookmarks t0) newer_bookmark bookmark_created_at_ms id local -> arrives (sftp_bookmarks_json pending) arr v ->
  safe Ik (apply_one_sftp_bookmark Sync live local now_ms v).
Proof.
  intros Hc Hv. unfold apply_one_sftp_bookmark. cbn [is_sync andb]. destruct (String.eqb _ "" || _); [walk|].
  destruct (is_tombstone v) eqn:Et.
  - walk. apply keeps_tombstone_bookmark, (arrives_stamped _ arr); [done|]. unfold bookmark_stamp. by rewrite Et.
  - destruct (negb _); [walk|]. destruct (lww_peer_loses _ _) eqn:Eg; [walk|]. walk. apply keeps_insert_bookmark.
    eapply (gate_passed _ _ _ id local _ "id" (bookmark_stamp now_ms)); [done..| |].
    + by rewrite option_fmap_id.
    + apply (arrives_stamped _ arr); [done|]. unfold bookmark_stamp. by rewrite Et.
Qed.

Lemma merge_rule arr live local v :
  covers (port_forward_rules t0) newer_rule rule_updated_at_ms id local -> arrives (port_forward_rules_json pending) arr v ->
  safe Ik (apply_one_port_forward_rule Sync live local now_ms v).
Proof.
  intros Hc Hv. unfold apply_one_port_forward_rule. cbn [is_sync andb]. destruct (String.eqb _ "" || _); [walk|].
  destruct (is_tombstone v) eqn:Et.
  - walk. apply keeps_tombstone_rule, (arrives_stamped _ arr); [done|]. unfold millis_stamp. by rewrite Et.
  - destruct (negb _); [walk|]. destruct (lww_peer_loses _ _) eqn:Eg; [walk|]. walk. apply keeps_insert_rule.
    eapply (gate_passed _ _ _ id local _ "id" millis_stamp); [done..| |].
    + by rewrite option_fmap_id.
    + apply (arrives_stamped _ arr); [done|]. unfold millis_stamp. by rewrite Et.
Qed.

Lemma merge_sessions json map :
  sessions_json pending = Some json -> safe Ik (apply_sessions parse_error json Sync map now_ms).
Proof.
  intros Hj. apply safe_parsed. intros arr Harr. cbn [local_snapshot is_sync].
  apply (safe_listed _ _ _ _ (fun rows => covers (sessions t0) newer_session main_updated_at updated_at_ms (by_id session_key rows))).
  - apply ensures_query; [apply keeps_select_sessions|]. intros t x t' Ht Hk. injection Ht as <- _. by apply covers_sessions.
  - intros rows Hc. apply safe_each. intros v Hv. apply (merge_session arr); [done|]. by rewrite Hj.
Qed.

Lemma merge_keys json : keys_json pending = Some json -> safe Ik (apply_keys sha256 parse_error json Sync now_ms).
Proof.
  intros Hj. apply safe_parsed. intros arr Harr. cbn [is_sync].
  apply (safe_listed _ _ _ _ (fun rows => covers (ssh_keys t0) newer_key key_created_at_ms key_created_at_ms (by_id key_key rows))).
  - apply ensures_query; [apply keeps_select_keys|]. intros t x t' Ht Hk. injection Ht as <- _. apply covers_live; apply Hk.
  - intros rows Hc. apply safe_each. intros v Hv. apply (merge_key arr); [done|]. by rewrite Hj.
Qed.

Lemma merge_tags json : tags_json pending = Some json -> safe Ik (apply_tags parse_error json Sync now_ms).
Proof.
  intros Hj. apply safe_parsed. intros arr Harr. cbn [local_snapshot is_sync].
  apply (safe_listed _ _ _ _ (fun rows => covers (tags t0) newer_tag tag_created_at_ms tag_created_at_ms (by_id tag_key rows))).
  - apply ensures_query; [apply keeps_select_tags|]. intros t x t' Ht Hk. injection Ht as <- _. apply covers_live; apply Hk.
  - intros rows Hc. apply safe_each. intros v Hv. apply (merge_tag arr); [done|]. by rewrite Hj.
Qed.

Lemma merge_snippets json : snippets_json pending = Some json -> safe Ik (apply_snippets parse_error json Sync now_ms).
Proof.
  intros Hj. apply safe_parsed. intros arr Harr. cbn [local_snapshot is_sync].
  apply (safe_listed _ _ _ _ (fun rows => covers (snippets t0) newer_snippet snippet_updated_at_ms snippet_updated_at_ms (by_id snippet_key rows))).
  - apply ensures_query; [apply keeps_select_snippets|]. intros t x t' Ht Hk. injection Ht as <- _. apply covers_live; apply Hk.
  - intros rows Hc. apply safe_each. intros v Hv. apply (merge_snippet arr); [done|]. by rewrite Hj.
Qed.

Lemma merge_bookmarks json :
  sftp_bookmarks_json pending = Some json -> safe Ik (apply_sftp_bookmarks parse_error json Sync now_ms).
Proof.
  intros Hj. apply safe_parsed. intros arr Harr.
  apply (safe_listed _ _ _ _ (fun _ => True)); [apply sound_listed; walk; apply keeps_select_sessions|]. intros live _. cbn [local_snapshot is_sync].
  apply (safe_listed _ _ _ _ (fun rows => covers (sftp_bookmarks t0) newer_bookmark bookmark_created_at_ms id
    (bookmark_created_at_ms <$> by_id bookmark_key (row <$> rows)))).
  - apply ensures_query; [apply keeps_select_bookmarks|]. intros t x t' Ht Hk. injection Ht as <- _. apply covers_all; apply Hk.
  - intros rows Hc. apply safe_each. intros v Hv. apply (merge_bookmark arr); [done|]. by rewrite Hj.
Qed.

Lemma merge_rules json :
  port_forward_rules_json pending = Some json -> safe Ik (apply_port_forward_rules parse_error json Sync now_ms).
Proof.
  intros Hj. apply safe_parsed. intros arr Harr.
  apply (safe_listed _ _ _ _ (fun _ => True)); [apply sound_listed; walk; apply keeps_select_sessions|]. intros live _. cbn [local_snapshot is_sync].
  apply (safe_listed _ _ _ _ (fun rows => covers (port_forward_rules t0) newer_rule rule_updated_at_ms id
    (rule_updated_at_ms <$> by_id rule_key (row <$> rows)))).
  - apply ensures_query; [apply keeps_select_rules|]. intros t x t' Ht Hk. injection Ht as <- _. apply covers_all; apply Hk.
  - intros rows Hc. apply safe_each. intros v Hv. apply (merge_rule arr); [done|]. by rewrite Hj.
Qed.

Lemma merge_run_apply : safe Ik (run_apply decode sha256 parse_error pending Sync None now_ms).
Proof.
  unfold run_apply. apply safe_bind; [cbn; apply safe_if_present, merge_keys|]. intros _. apply safe_bind.
  { unfold apply_sessions_phase. cbn [from_options want_sessions negb]. apply safe_bind.
    - destruct (sessions_json pending) eqn:Hj; [|walk]. apply safe_bind.
      + unfold apply_folder_tree. cbn [is_sync]. walk; auto using Ik_fill, keeps_folder, keeps_select_folders.
      + intros map. apply safe_bind; [by apply merge_sessions|]. intros _. walk.
    - intros map. walk; auto using Ik_fill, keeps_folder. }
  intros map. apply safe_bind.
  { unfold apply_tags_phase. cbn [from_options want_tags want_sessions andb when].
    apply safe_bind; [apply safe_if_present, merge_tags|]. intros _. unfold apply_session_tags, apply_folder_tags.
    walk; auto using keeps_session_tag, keeps_folder_tag. }
  intros _. apply safe_bind.
  { unfold apply_snippets_phase. cbn [from_options want_snippets want_sessions andb when].
    apply safe_bind; [apply safe_if_present, merge_snippets|]. intros _. unfold apply_session_snippets.
    walk; auto using keeps_session_snippet. }
  intros _. apply safe_bind; [unfold apply_known_hosts, apply_known_host_line; walk; apply keeps_known_hosts|]. intros _.
  unfold apply_child_tables. cbn [from_options want_keys want_sessions when].
  apply safe_bind; [unfold apply_ssh_key_certificates, apply_one_certificate; walk; auto using keeps_select_keys, keeps_certificate|].
  intros _. apply safe_bind.
  { unfold apply_webdav_session_details, apply_one_webdav_session_detail.
    walk; auto using keeps_select_sessions, keeps_select_webdav, keeps_insert_webdav, keeps_tombstone_webdav, Ik_now. }
  intros _. apply safe_bind.
  { unfold apply_s3_session_details, apply_one_s3_session_detail.
    walk; auto using keeps_select_sessions, keeps_select_s3, keeps_insert_s3, keeps_tombstone_s3, Ik_now. }
  intros _. apply safe_bind; [apply safe_if_present, merge_bookmarks|]. intros _. apply safe_if_present, merge_rules.
Qed.

End Merge.

Section Newest.
Context `{SerdeText} {D : Type} `{Database D}.
Variable decode : chars -> string + list Z.
Variable sha256 : list Z -> list Z.
Variable parse_error : string -> string.

Lemma live_row_stored {R} (m : gmap string (stored R)) id r :
  live_rows m !! id = Some r <-> m !! id = Some (mkStored r None).
Proof.
  unfold live_rows. rewrite lookup_omap, bind_Some. split.
  - intros ([r' [ts|]] & Hm & Ha); cbn in Ha; [discriminate|]. by injection Ha as <-.
  - intros Hm. eexists. by split.
Qed.

Lemma kept_live {R} (newer : string -> R -> Prop) m0 m id r :
  kept newer m0 m -> live_rows m0 !! id = Some r -> live_rows m !! id = Some r \/ newer id r.
Proof. rewrite !live_row_stored. intros Hk Hr. by apply Hk. Qed.

Lemma live_session_stored t id r :
  live_sessions t !! id = Some r <->
  exists m, sessions t !! id = Some (mkStored m None) /\ r = session_of id m (ssh_details t !! id).
Proof.
  unfold live_sessions. rewrite map_lookup_imap. destruct (sessions t !! id) as [[m [ts|]]|]; cbn.
  - split; [discriminate|]. intros (? & ? & _). congruence.
  - split; [intros [= <-]; by exists m|]. intros (? & [= <-] & ->). done.
  - split; [discriminate|]. by intros (? & ? & _).
Qed.

(** Merging leaves [Kept] tables, or the old ones. *)
Lemma merge_kept pending options now_ms w :
  saved (conn w) = None -> keyed (tables (conn w)) ->
  Kept pending now_ms (tables (conn w))
    (tables (conn (run (apply_pending_to_db decode sha256 parse_error pending Sync options now_ms) w).2)).
Proof.
  intros Hs Hk. assert (H0k := kept_same pending now_ms _ Hk). unfold apply_pending_to_db. rewrite run_bind, run_in_tx.
  cbn [conn fst snd]. destruct (begin_tx (conn w)).1 as [e|[]] eqn:Eb.
  - cbn. by rewrite (proj1 (begin_failed _ _ Eb)).
  - destruct (begun _ Eb) as [Ht Hs']. rewrite run_bind.
    set (w1 := mkApplying (begin_tx (conn w)).2 (outcome w)).
    set (body := run_apply decode sha256 parse_error pending Sync None now_ms).
    assert (Hb : Kept pending now_ms (tables (conn w)) (tables (conn (run body w1).2)) /\ pending_on (tables (conn w)) (conn (run body w1).2)).
    { split.
      - eapply (ensures_run (fun v => Ik pending now_ms (tables (conn w)) (conn v)));
          [apply merge_run_apply|]. unfold Ik. cbn. by rewrite Ht.
      - eapply (ensures_run (fun v => pending_on (tables (conn w)) (conn v))); [apply run_apply_pending|done]. }
    destruct (run body w1) as [[] w2]. cbn [fst snd] in Hb. destruct Hb as [Hb Hp]. rewrite run_in_tx. cbn [conn fst snd].
    destruct (commit_tx (conn w2)).1 as [e|[]] eqn:Ec.
    + rewrite (proj1 (commit_failed _ _ Ec)), Hp. done.
    + by rewrite (proj1 (committed _ Ec)).
Qed.

(** C25. A merge is last-writer-wins and no worse: whatever the peer sends and whatever
    statement fails, every live session (with its SSH details), key, tag, snippet, bookmark and
    forwarding rule is still there, unchanged, unless the peer's snapshot holds a row of the same
    id whose stamp is strictly later than the local one.  A row without a stamp counts as the
    epoch, a bookmark without one as the moment of the merge: an unstamped bookmark may win. *)
Theorem merge_keeps_what_is_not_older pending options now_ms w :
  saved (conn w) = None -> keyed (tables (conn w)) ->
  let before := tables (conn w) in
  let after := tables (conn (run (apply_pending_to_db decode sha256 parse_error pending Sync options now_ms) w).2) in
  (forall id r, live_sessions before !! id = Some r ->
     live_sessions after !! id = Some r \/ newer_row (sessions_json pending) "id" session_stamp id (updated_at_ms r)) /\
  (forall id r, live_rows (ssh_keys before) !! id = Some r ->
     live_rows (ssh_keys after) !! id = Some r \/ newer_row (keys_json pending) "id" created_stamp id (key_created_at_ms r)) /\
  (forall id r, live_rows (tags before) !! id = Some r ->
     live_rows (tags after) !! id = Some r \/ newer_row (tags_json pending) "id" created_stamp id (tag_created_at_ms r)) /\
  (forall id r, live_rows (snippets before) !! id = Some r ->
     live_rows (snippets after) !! id = Some r \/ newer_row (snippets_json pending) "id" session_stamp id (snippet_updated_at_ms r)) /\
  (forall id r, live_rows (sftp_bookmarks before) !! id = Some r ->
     live_rows (sftp_bookmarks after) !! id = Some r \/
     newer_row (sftp_bookmarks_json pending) "id" (bookmark_stamp now_ms) id (bookmark_created_at_ms r)) /\
  (forall id r, live_rows (port_forward_rules before) !! id = Some r ->
     live_rows (port_forward_rules after) !! id = Some r \/
     newer_row (port_forward_rules_json pending) "id" millis_stamp id (rule_updated_at_ms r)).
Proof.
  intros Hs Hk before after. assert (Ha : Kept pending now_ms before after) by by apply merge_kept.
  destruct Ha as [_ Hm Hd Hkeys Htags Hsn Hbm Hru].
  split; [|split_and!; intros id r Hr;
    [exact (kept_live _ _ _ _ _ Hkeys Hr)|exact (kept_live _ _ _ _ _ Htags Hr)|exact (kept_live _ _ _ _ _ Hsn Hr)
    |exact (kept_live _ _ _ _ _ Hbm Hr)|exact (kept_live _ _ _ _ _ Hru Hr)]].
  intros id r (m & Hr & ->)%live_session_stored.
  destruct (Hm id m Hr) as [Hm'|?]; [|by right]. destruct (Hd id m Hr) as [?|Hd']; [by right|].
  left. apply live_session_stored. exists m. by rewrite Hd'.
Qed.

End Newest.

(** ** Concrete runs *)

(** A database that executes statements by their meaning, except where [faults] says the next
    one fails. *)
Record DemoDb := mkDemoDb { demo_tables : Tables; demo_saved : option Tables; demo_faults : list bool; demo_drawn : Z }.

Definition demo_execute_sql {A} (s : sql A) (d : DemoDb) : (stage * string + A) * DemoDb :=
  let d' := mkDemoDb (demo_tables d) (demo_saved d) (tail (demo_faults d)) (demo_drawn d) in
  match demo_faults d with
  | true :: _ => (inl (Query, "disk I/O error"%string), d')
  | _ =>
      match s (demo_tables d) with
      | Some (a, t) => (inr a, mkDemoDb t (demo_saved d) (tail (demo_faults d)) (demo_drawn d))
      | None => (inl (Query, "constraint failed"%string), d')
      end
  end.

Lemma demo_execute_cases {A} (s : sql A) d :
  (exists e, (demo_execute_sql s d).1 = inl e /\ demo_tables (demo_execute_sql s d).2 = demo_tables d) \/
  (exists a, (demo_execute_sql s d).1 = inr a /\ s (demo_tables d) = Some (a, demo_tables (demo_execute_sql s d).2)).
Proof. unfold demo_execute_sql. destruct (demo_faults d) as [|[] fs], (s (demo_tables d)) as [[a t]|]; eauto. Qed.

Lemma demo_execute_rest {A} (s : sql A) d :
  demo_saved (demo_execute_sql s d).2 = demo_saved d /\ demo_faults (demo_execute_sql s d).2 = tail (demo_faults d).
Proof. unfold demo_execute_sql. by destruct (demo_faults d) as [|[] fs], (s (demo_tables d)) as [[a t]|]. Qed.

#[export, program] Instance demo_database : Database DemoDb := {|
  tables := demo_tables;
  saved := demo_saved;
  execute A := demo_execute_sql;
  begin_tx d := (inr (), mkDemoDb (demo_tables d) (Some (demo_tables d)) (demo_faults d) (demo_drawn d));
  commit_tx d := (inr (), mkDemoDb (demo_tables d) None (demo_faults d) (demo_drawn d));
  rollback_tx d := (inr (), mkDemoDb (default (demo_tables d) (demo_saved d)) None (demo_faults d) (demo_drawn d));
  fill_bytes d := (replicate 15 0 ++ [demo_drawn d], mkDemoDb (demo_tables d) (demo_saved d) (demo_faults d) (demo_drawn d + 1));
  now_unix_ms d := (1000, d);
  row_order A m := (map_to_list m).*2;
  Tables.working d := Forall (eq false) (demo_faults d)
|}.
Next Obligation. done. Qed.
Next Obligation. intros A s d a Ha. destruct (demo_execute_cases s d) as [(e & He & _)|(a' & Ha' & Ht)]; congruence. Qed.
Next Obligation. intros A s d e He. destruct (demo_execute_cases s d) as [(e' & _ & Ht)|(a' & Ha' & _)]; congruence. Qed.
Next Obligation. intros A s d. apply demo_execute_rest. Qed.
Next Obligation. done. Qed.
Next Obligation. done. Qed.
Next Obligation. done. Qed.
Next Obligation. done. Qed.
Next Obligation. done. Qed.
Next Obligation. done. Qed.
Next Obligation. done. Qed.
Next Obligation. done. Qed.
Next Obligation.
  intros A s d a t Hw Hs. cbn in *. split; [|rewrite (proj2 (demo_execute_rest s d)); by destruct Hw; [apply Forall_nil_2|]].
  unfold demo_execute_sql. rewrite Hs. destruct Hw as [|b fs <- _]; [done|]. done.
Qed.
Next Obligation. intros A s d Hw. cbn in *. rewrite (proj2 (demo_execute_rest s d)). by destruct Hw; [apply Forall_nil_2|]. Qed.
Next Obligation. done. Qed.
Next Obligation. done. Qed.
Next Obligation. done. Qed.
Next Obligation. done. Qed.

Definition no_tables : Tables := mkTables ∅ ∅ ∅ ∅ ∅ ∅ ∅ ∅ 0 ∅ ∅ ∅ ∅ ∅ ∅ ∅.

Section Demo.
Definition obj (fields : list (string * json)) : json := JObject (list_to_map fields).
Definition txt (s : string) : json := JString s.
#[local] Open Scope list_scope.
#[local] Open Scope string_scope.

(** The peer's session row, last written at 50 ms, at 150 ms, and its row without a stamp. *)
Definition peer_session (stamp : list (string * json)) : json :=
  JArray [obj ([("id", txt "s"); ("label", txt "peer"); ("host", txt "peer-host")] ++ stamp)%list].

Definition demo_docs : gmap string json := list_to_map [
  ("older", peer_session [("updated_at", txt "1970-01-01T00:00:00.050Z")]);
  ("newer", peer_session [("updated_at", txt "1970-01-01T00:00:00.150Z")]);
  ("keyed", JArray [obj [("id", txt "s"); ("key_id", txt "peer-key"); ("host", txt "peer-host")]]);
  ("bookmark", JArray [obj [("id", txt "b"); ("session_id", txt "s"); ("remote_path", txt "/peer")]]);
  ("webdav", JArray [obj [("session_id", txt "s"); ("base_url", txt "https://peer"); ("updated_at_ms", Json.of_i64 50)]]);
  ("key", JArray [obj [("id", txt "peer-key"); ("public_key", txt "ssh-ed25519 AAAA")]]);
  ("hardware", JArray [obj [("id", txt "k"); ("label", txt "peer"); ("created_at", txt "1970-01-01T00:00:00.150Z")]])
]%string.

Definition demo_read (t : string) : option json :=
  match demo_docs !! t with Some (JArray l) => Some (JArray l) | _ => None end.

#[local, program] Instance demo_serde : SerdeText := {|
  to_text v := "{}"%string;
  from_text := demo_read
|}.
Next Obligation.
  intros t m. unfold demo_read. destruct (demo_docs !! t) as [j|]; [destruct j|]; intros [=].
Qed.

Definition demo_decode (s : chars) : string + list Z := inr s.
Definition demo_sha (b : list Z) : list Z := take 4 (rev b).
Definition just_sessions (text : string) : PendingImport :=
  mkPending None (Some text) None None None None None None None None None None None None None None [].

Definition demo_main (updated : Z) : SessionMain := mkMain "mine" None "ssh" 3 "my notes" (Some 90) "{}" 10 updated.
Definition demo_ssh : SshDetails := mkSsh "my-host" 22 "me" "password" "pw" "" "" None "" None None None None 100.

Definition with_session (deleted : option Z) : Tables :=
  over_ssh_details (fun _ => {["s"%string := demo_ssh]}) (over_sessions (fun _ => {["s"%string := mkStored (demo_main 100) deleted]}) no_tables).

Definition started (t : Tables) (faults : list bool) : Applying DemoDb := mkApplying (mkDemoDb t None faults 0) new_outcome.

Definition merged (pending : PendingImport) (t : Tables) (faults : list bool) : Applying DemoDb :=
  (run (apply_pending_to_db demo_decode demo_sha (fun _ => "bad JSON"%string) pending Sync no_options 1000) (started t faults)).2.

Definition imported (m : ApplyMode) (pending : PendingImport) (t : Tables) (faults : list bool) : Applying DemoDb :=
  (run (apply_pending_to_db demo_decode demo_sha (fun _ => "bad JSON"%string) pending m
          (mkOptions Merge true true true true true false) 1000) (started t faults)).2.

Lemma with_session_keyed deleted : keyed (with_session deleted).
Proof. split; intros k s E; exfalso; cbn in E; by rewrite lookup_empty in E. Qed.

Lemma started_closed t faults : saved (conn (started t faults)) = None.
Proof. reflexivity. Qed.

Lemma merge_keeps_what_is_not_older_witness :
  live_sessions (demo_tables (conn (merged (just_sessions "older") (with_session None) []))) !! "s"%string
  = Some (session_of "s" (demo_main 100) (Some demo_ssh)).
Proof.
  destruct (merge_keeps_what_is_not_older demo_decode demo_sha (fun _ => "bad JSON"%string) (just_sessions "older") no_options 1000
    (started (with_session None) []) (started_closed _ _) (with_session_keyed None)) as [Hs _].
  destruct (Hs "s"%string (session_of "s" (demo_main 100) (Some demo_ssh)) eq_refl) as [?|(rows & v & Hr & Hv & _ & Hlt)]; [done|].
  exfalso. vm_compute in Hr. injection Hr as <-. apply list_elem_of_singleton in Hv as ->. vm_compute in Hlt. discriminate.
Defined.

Lemma import_is_atomic_witness :
  durable (conn (imported (ArchiveImport true) (just_sessions "not JSON") (with_session None) [])) = with_session None.
Proof.
  destruct (import_is_atomic demo_decode demo_sha (fun _ => "bad JSON"%string) (just_sessions "not JSON") (ArchiveImport true)
    (mkOptions Merge true true true true true false) 1000 (started (with_session None) []) ltac:(done) (started_closed _ _))
    as [_ [Ha|(_ & He & _)]]; [exact Ha|]. specialize (He eq_refl). vm_compute in He. discriminate.
Defined.

(** A row the peer wrote later replaces the local one: its notes, position and last connection
    are lost; the merge does not read the notes a snapshot carries. *)
Example newer_row_erases_local_notes :
  (fun s => (main_label (row s), main_notes (row s), main_sort_order (row s), main_last_connected_at (row s)))
    <$> sessions (demo_tables (conn (merged (just_sessions "newer") (with_session None) []))) !! "s"%string
  = Some ("peer", "", 0, None)%string.
Proof. vm_compute. reflexivity. Qed.

(** A session deleted here after the peer last wrote it is brought back by the peer's older
    row: the stamps the merge compares with are read from the live rows only. *)
Example older_row_revives_deleted_session :
  (fun s => (main_label (row s), deleted_at s))
    <$> sessions (demo_tables (conn (merged (just_sessions "older") (with_session (Some 200)) []))) !! "s"
  = Some ("peer", None).
Proof. vm_compute. reflexivity. Qed.

Definition with_bookmark : Tables :=
  over_sftp_bookmarks (fun _ => {["b" := mkStored (mkBookmark "b" "s" "/mine" "" 100) None]}) (with_session None).
Definition just_bookmarks : PendingImport :=
  mkPending None None None None None None None None None None None None None None (Some "bookmark") None [].

(** A bookmark that carries no stamp wins: it is dated at the moment of the merge. *)
Example unstamped_bookmark_wins :
  remote_path <$> live_rows (sftp_bookmarks (demo_tables (conn (merged just_bookmarks with_bookmark [])))) !! "b" = Some "/peer".
Proof. vm_compute. reflexivity. Qed.

Definition demo_webdav : WebDavDetails := mkWebDavDetails (mkWebDav "s" "https://mine" "me" "basic" None false) "pw" 100.
Definition with_webdav : Tables :=
  over_webdav_details (fun _ => {["s" := mkStored demo_webdav None]}) (with_session None).
Definition just_webdav : PendingImport :=
  mkPending None None None None None None None None None None None None (Some "webdav") None None None [].

(** The peer's older WebDAV row loses, unless the statement that reads the local stamp fails:
    then it is taken for a row this device does not have. *)
Example failed_stamp_read_lets_older_row_win :
  let url faults := (fun s => base_url (webdav_row (row s)))
    <$> webdav_details (demo_tables (conn (merged just_webdav with_webdav faults))) !! "s" in
  url [] = Some "https://mine" /\ exists faults, url faults = Some "https://peer".
Proof. split; [vm_compute; reflexivity|]. exists [false; true]. vm_compute. reflexivity. Qed.

Definition demo_key : SshKeyRow :=
  mkKey "k" "mine" "" "ssh-ed25519 BBBB" "ed25519" true 100 None None false Ask Tpm None None None None None None None
    (Some [1; 2; 3]) None None false None None false false None false.
Definition with_key : Tables := over_ssh_keys (fun _ => {["k" := mkStored demo_key None]}) no_tables.
Definition just_keys (text : string) : PendingImport :=
  mkPending None None (Some text) None None None None None None None None None None None None None [].

(** A newer row of the same id takes the blob of a key held by this device's TPM away. *)
Example merge_drops_hardware_key :
  (fun r => (backend r, tpm_blob r)) <$> live_rows (ssh_keys (demo_tables (conn (merged (just_keys "hardware") with_key [])))) !! "k"
  = Some (Software, None).
Proof. vm_compute. reflexivity. Qed.

Definition same_key : SshKeyRow :=
  mkKey "k" "mine" "" "ssh-ed25519 AAAA" "ed25519" true 100 None None false Ask Software None None None None None None None
    None None None false None None false false None false.
Definition with_same_key : Tables := over_ssh_keys (fun _ => {["k" := mkStored same_key None]}) no_tables.
Definition keyed_session : PendingImport :=
  mkPending None (Some "keyed") (Some "key") None None None None None None None None None None None None None [].

(** The archive's key is already here under another id and skipped; the session that names it
    by the archive's id then arrives without its host. *)
Example deduplicated_key_orphans_session :
  let after := imported (ArchiveImport false) keyed_session with_same_key [] in
  keys_skipped_dedup (outcome after) = 1 /\
  is_Some (sessions (demo_tables (conn after)) !! "s") /\ ssh_details (demo_tables (conn after)) !! "s" = None.
Proof. vm_compute. split_and!; [reflexivity|eexists; reflexivity|reflexivity]. Qed.
End Demo.
