(* ===== verification/Lfs.v ===== *)
(** * The archive container ([archive/mod.rs])

    What both ends of an archive share: the empty folders a selection brings along, folder
    paths, the known-hosts text, the names of recordings, the reader that turns a zip into a
    [PendingImport], its preview and the registry of imports in flight.  The zip format is the
    zip crate's: the class [Zip]. *)
From Stdlib Require Import ZArith Lia.
From stdpp Require Import prelude gmap strings list sorting pretty.
From S2P Require Import Prelude Text Json Bus PromptRegistry Prog Crypto Envelope KnownHosts Tables Dao Apply.

Open Scope Z_scope.

Definition MAX_ARCHIVE_BYTES : Z := 256 * 1024 * 1024.
Definition MAX_DECOMPRESSED_BYTES : Z := 1024 * 1024 * 1024.
(** [migration::SchemaVersions::ARCHIVE] *)
Definition ARCHIVE_VERSION : Z := 1.

(** ** The zip crate *)

(** An entry as the reader finds it: its declared size, and its content read up to a limit. *)
Record ZipEntry := mkZipEntry { entry_name : string; entry_size : Z; contents : Z -> string + list Z }.

Definition stored_entry (e : string * list Z) : ZipEntry :=
  mkZipEntry e.1 (Z.of_nat (length e.2)) (fun limit => inr (if Z.of_nat (length e.2) <=? limit then e.2 else take (Z.to_nat limit) e.2)).

Definition zip_magic : list Z := [0x50; 0x4B; 3; 4].

Class Zip := {
  (** [start_file]: why the writer, holding these entries, refuses a name *)
  start_file : list (string * list Z) -> string -> option string;
  finish_zip : list (string * list Z) -> string + list Z;
  open_zip : list Z -> string + list (string + ZipEntry);
  zip_reads_back es b : finish_zip es = inr b -> open_zip b = inr ((fun e => inr (stored_entry e)) <$> es);
  zip_starts es b : finish_zip es = inr b -> es <> [] -> take 4 b = zip_magic
}.

(** ** Folders *)
Definition starts_with (prefix s : string) : bool := String.prefix prefix s.

Definition join_slash (parts : list string) : string := String.concat "/" parts.

(** [parts[..i].join("/")] for each [i] in [1..parts.len()]. *)
Definition ancestors (folder : string) : list string :=
  if String.eqb folder "" then []
  else let parts := split_slash folder in (fun i => join_slash (take i parts)) <$> seq 1 (length parts - 1).

Definition related (selected : list string) (folder : string) : bool :=
  existsb (fun sel => String.eqb sel folder || starts_with (folder ++ "/") sel || starts_with (sel ++ "/") folder) selected.

Definition resolve_relevant_empty_folders (selected_session_folders source_empty_folders : list string) (all_selected : bool) :
    list string :=
  let kept := filter (fun folder => all_selected || related selected_session_folders folder = true) source_empty_folders in
  merge_sort str_le (elements (list_to_set ((selected_session_folders ≫= ancestors) ++ kept) : gset string)).

(** The [while let] of [build_folder_paths]: names from the leaf up, until the parent is unknown
    or was seen.  Each turn sees a new id, so as many turns as there are rows are enough. *)
Fixpoint climb (fuel : nat) (by_id : gmap string FolderRow) (seen : gset string) (cursor : option FolderRow) : list string :=
  match fuel, cursor with
  | S fuel, Some node =>
      if bool_decide (folder_key node ∈ seen) then []
      else folder_name node :: climb fuel by_id ({[folder_key node]} ∪ seen) (parent_id node ≫= fun p => by_id !! p)
  | _, _ => []
  end.

Definition folder_path (rows : list FolderRow) (r : FolderRow) : string :=
  join_slash (rev (climb (S (length rows)) (by_id folder_key rows) ∅ (Some r))).

Section Reads.
Context {D : Type} `{Database D}.
Open Scope prog_scope.
Open Scope dao_scope.

Definition build_known_hosts : prog D (Error + chars) :=
  let? rows := call KnownHosts.list_all in Ret (inr (rows ≫= KnownHosts.Manager.export_row)).

Definition build_folder_paths : prog D (Error + gmap string string) :=
  let? rows := Folders.list_all in
  Ret (inr (foldl (fun m r => <[folder_key r := folder_path rows r]> m) ∅ rows)).

End Reads.

(** ** Recordings *)
Definition str_contains_char (c : Ascii.ascii) (s : string) : bool := existsb (Ascii.eqb c) (String.list_ascii_of_string s).

Definition ascii_lower (c : Ascii.ascii) : Ascii.ascii :=
  let n := Ascii.nat_of_ascii c in if (65 <=? n)%nat && (n <=? 90)%nat then Ascii.ascii_of_nat (n + 32) else c.

Definition ends_with (suffix s : string) : bool :=
  let a := String.list_ascii_of_string suffix in
  let b := String.list_ascii_of_string s in
  bool_decide (drop (length b - length a) b = a).

Definition strip_prefix (prefix s : string) : option string :=
  if starts_with prefix s then Some (String.substring (String.length prefix) (String.length s - String.length prefix) s) else None.

Definition backslash : Ascii.ascii := Ascii.ascii_of_nat 92.

Definition plain_segment (s : string) : bool :=
  negb (String.eqb s "") && negb (String.eqb s ".") && negb (String.eqb s "..") && negb (str_contains_char backslash s).

Definition parse_recording_entry_path (raw : string) : option (string * string) :=
  match strip_prefix "recordings/" raw with
  | None => None
  | Some stripped =>
      match split_slash stripped with
      | [session_id; file] =>
          if negb (plain_segment session_id) || negb (plain_segment file) then None
          else if negb (ends_with ".cast" (String.string_of_list_ascii (ascii_lower <$> String.list_ascii_of_string file))) then None
          else Some (session_id, file)
      | _ => None
      end
  end.

(** ** Reading *)

(** The first pass: declared sizes, summed with saturation, against the cap. *)
Fixpoint check_sizes (i total : Z) (es : list (string + ZipEntry)) : option Error :=
  match es with
  | [] => None
  | inl e :: _ => Some (Archive ("import zip entry " ++ pretty i ++ ": " ++ e)%string)
  | inr e :: es =>
      let total := Z.min (total + entry_size e) (2 ^ 64 - 1) in
      if MAX_DECOMPRESSED_BYTES <? total then
        Some (Archive ("import zip uncompressed " ++ pretty total ++ " bytes exceeds " ++ pretty MAX_DECOMPRESSED_BYTES ++ "-byte cap")%string)
      else check_sizes (i + 1) total es
  end.

Definition over_cap (name : string) : Error :=
  Archive ("import zip entry " ++ name ++ ": decompressed size exceeds " ++ pretty MAX_DECOMPRESSED_BYTES ++ "-byte cap (zip bomb?)")%string.

(** [take(cap + 1).read_to_end] and the length check after it. *)
Definition read_bytes (e : ZipEntry) : Error + list Z :=
  match contents e (MAX_DECOMPRESSED_BYTES + 1) with
  | inl err => inl (Archive ("import read " ++ entry_name e ++ ": " ++ err)%string)
  | inr b => if MAX_DECOMPRESSED_BYTES <? Z.of_nat (length b) then inl (over_cap (entry_name e)) else inr b
  end.

(** [take(cap + 1).read_to_string] and the length check after it. *)
Definition read_text (e : ZipEntry) : Error + chars :=
  match contents e (MAX_DECOMPRESSED_BYTES + 1) with
  | inl err => inl (Archive ("import read " ++ entry_name e ++ ": " ++ err)%string)
  | inr b =>
      match Utf8.decode b with
      | None => inl (Archive ("import read " ++ entry_name e ++ ": stream did not contain valid UTF-8")%string)
      | Some text => if MAX_DECOMPRESSED_BYTES <? Z.of_nat (length b) then inl (over_cap (entry_name e)) else inr text
      end
  end.

(** The fields of [PendingImport] under the names of their entries; the last entry of a name
    wins, and names the struct has no field for are dropped. *)
Definition pending_of (texts : gmap string chars) (recordings : list PendingRecording) : PendingImport :=
  let text (name : string) : option string := to_string <$> texts !! name in
  {| manifest_json := text "manifest.json";
     sessions_json := text "sessions.json";
     keys_json := text "keys.json";
     tags_json := text "tags.json";
     session_tags_json := text "session_tags.json";
     folder_tags_json := text "folder_tags.json";
     snippets_json := text "snippets.json";
     session_snippets_json := text "session_snippets.json";
     empty_folders_json := text "empty_folders.json";
     config_json := text "config.json";
     known_hosts_text := texts !! "known_hosts.txt";
     ssh_key_certificates_json := text "ssh_key_certificates.json";
     webdav_session_details_json := text "webdav_session_details.json";
     s3_session_details_json := text "s3_session_details.json";
     sftp_bookmarks_json := text "sftp_bookmarks.json";
     port_forward_rules_json := text "port_forward_rules.json";
     recordings := recordings |}%string.

Fixpoint read_entries (i : Z) (es : list (string + ZipEntry)) (texts : gmap string chars) (recs : list PendingRecording) :
    Error + PendingImport :=
  match es with
  | [] => inr (pending_of texts recs)
  | inl e :: _ => inl (Archive ("import zip entry " ++ pretty i ++ ": " ++ e)%string)
  | inr e :: es =>
      match parse_recording_entry_path (entry_name e) with
      | Some (s, f) =>
          match read_bytes e with
          | inl err => inl err
          | inr b => read_entries (i + 1) es texts (recs ++ [mkRecording s f b])
          end
      | None =>
          match read_text e with
          | inl err => inl err
          | inr text => read_entries (i + 1) es (<[entry_name e := text]> texts) recs
          end
      end
  end.

Section Parse.
Context `{SerdeText} `{Zip}.

Definition schema_version_of (p : PendingImport) : Z :=
  default 0 ((manifest_json p ≫= from_text) ≫= fun v => json_i64_opt v "schema_version").

Definition parse_pending_import (zip_bytes : list Z) : Error + (PendingImport * Z) :=
  match open_zip zip_bytes with
  | inl e => inl (Archive ("import zip open: " ++ e)%string)
  | inr es =>
      match check_sizes 0 0 es with
      | Some err => inl err
      | None =>
          match read_entries 0 es ∅ [] with
          | inl err => inl err
          | inr p => inr (p, schema_version_of p)
          end
      end
  end.

Definition parse_sync_origin (p : PendingImport) : option string :=
  (manifest_json p ≫= from_text) ≫= fun v => nonempty_at v "sync_origin".

(** ** The preview *)
Record ImportPreview := mkPreview {
  preview_version : Z;
  session_count : Z;
  session_labels : list string;
  manager_key_count : Z;
  tag_count : Z;
  snippet_count : Z;
  empty_folder_count : Z;
  has_config : bool;
  has_known_hosts : bool;
  recording_count : Z
}.

Definition json_array_len (s : option string) : Z :=
  match s ≫= values_of with Some arr => Z.of_nat (length arr) | None => 0 end.

Definition preview (p : PendingImport) (version : Z) : ImportPreview :=
  let labels : list string :=
    match sessions_json p ≫= values_of with Some arr => omap (fun v => str_at v "label") arr | None => [] end in
  {| preview_version := version;
     session_count := Z.of_nat (length labels);
     session_labels := labels;
     manager_key_count := json_array_len (keys_json p);
     tag_count := json_array_len (tags_json p);
     snippet_count := json_array_len (snippets_json p);
     empty_folder_count := json_array_len (empty_folders_json p);
     has_config := match config_json p with Some s => negb (String.eqb s "") | None => false end;
     has_known_hosts := match known_hosts_text p with Some (_ :: _) => true | _ => false end;
     recording_count := Z.of_nat (length (recordings p)) |}.

(** ** Opening a file *)
Inductive ReadError :=
| Refused (e : Error)
| Sealed (e : EnvelopeError)
| FutureVersion (found supported : Z).

Context `{Crypto.Primitives}.
Variable mobile : bool.

(** The part of [read_archive_to_pending] after the read; [sync::parse_archive_bytes] repeats it. *)
Definition archive_to_pending (path : string) (content : list Z) (password : string) : ReadError + (PendingImport * ImportPreview) :=
  let zip_bytes :=
    if bool_decide (take 4 content = ENC_HEADER_MAGIC) then
      match decrypt_archive_with_password mobile content password with inl e => inl (Sealed e) | inr z => inr z end
    else if bool_decide (take 4 content = zip_magic) then inr content
    else inl (Refused (Archive (path ++ ": not an LFSE archive or ZIP file")%string)) in
  match zip_bytes with
  | inl e => inl e
  | inr z =>
      match parse_pending_import z with
      | inl e => inl (Refused e)
      | inr (p, version) =>
          if negb ((1 <=? version) && (version <=? ARCHIVE_VERSION)) then inl (FutureVersion version ARCHIVE_VERSION)
          else inr (p, preview p version)
      end
  end.

Open Scope prog_scope.

Definition read_archive_to_pending (path password : string) : prog Os (ReadError + (PendingImport * ImportPreview)) :=
  let! meta := call (Os.read_file path) in
  match meta with
  | inl _ => Ret (inl (Refused (Archive ("import stat " ++ path)%string)))
  | inr b =>
      if MAX_ARCHIVE_BYTES <? Z.of_nat (length b) then
        Ret (inl (Refused (Archive (path ++ ": archive " ++ pretty (Z.of_nat (length b)) ++ " bytes exceeds " ++ pretty MAX_ARCHIVE_BYTES ++ "-byte cap")%string)))
      else
        let! r := call (Os.read_file path) in
        match r with
        | inl _ => Ret (inl (Refused (Archive ("import read " ++ path)%string)))
        | inr content => Ret (archive_to_pending path content password)
        end
  end.

End Parse.

(** ** Imports in flight *)
Definition ImportRegistry : Type := gmap string PendingImport.

Module ImportRegistry.
Definition new : ImportRegistry := ∅.
Definition insert (id : string) (p : PendingImport) (r : ImportRegistry) : ImportRegistry := <[id := p]> r.
Definition take (id : string) (r : ImportRegistry) : option PendingImport * ImportRegistry := (r !! id, delete id r).
Definition get_clone (id : string) (r : ImportRegistry) : option PendingImport := r !! id.
Definition drop_handle (id : string) (r : ImportRegistry) : ImportRegistry := delete id r.
Definition count (r : ImportRegistry) : nat := size r.
End ImportRegistry.
