(* ===== verification/Compose.v ===== *)
(** * The archive composer ([archive/compose/mod.rs])

    Reads the tables and writes the entries of an archive: one builder per kind, each reading
    the rows it ships and turning them into JSON.  A sync push ships tombstones and stamps, a
    manual export only live rows.  The recordings to bundle are an argument: they are what the
    walk of the recordings directory decrypts.  Salt and nonce of the envelope are arguments. *)
From Stdlib Require Import ZArith Lia.
From stdpp Require Import prelude gmap strings list.
From S2P Require Import Prelude Text Json Bus PromptRegistry Prog Crypto Envelope KnownHosts Iso8601 Tables Dao Apply Lfs.

Open Scope Z_scope.

(** ** JSON objects *)

(** A [serde_json::Map] filled field by field; a field that is not inserted is [None]. *)
Notation fields := (list (string * option json)).

Definition object (fs : fields) : json :=
  JObject (foldr (fun f m => match f.2 with Some v => <[f.1 := v]> m | None => m end) ∅ fs).

Definition str (s : string) : option json := Some (JString s).
Definition int (n : Z) : option json := Some (Json.of_i64 n).
Definition flag (b : bool) : option json := Some (JBool b).
Definition stamp (ms : Z) : option json := str (format_iso8601_utc ms).
Definition when_some {A} (o : option A) (f : A -> option json) : option json := match o with Some a => f a | None => None end.
Definition when_nonempty (o : option string) : option json :=
  when_some o (fun s => if String.eqb s "" then None else str s).
Definition byte_array (b : list Z) : option json := Some (JArray ((fun n => JNumber (PosInt n)) <$> b)).

(** The marker every kind of row carries when it is a tombstone. *)
Definition tombstone_marker (deleted_at : option Z) : fields :=
  [("deleted_at_ms", when_some deleted_at int); ("tombstone", when_some deleted_at (fun _ => flag true))]%string.

Record ExportOptions := mkExport {
  include_sessions : bool;
  include_known_hosts : bool;
  include_config : bool;
  include_tags : bool;
  include_snippets : bool;
  include_all_manager_keys : bool;
  has_manager_keys : bool;
  include_recordings : bool
}.

(** A recording of the tree: session, file name without extension, plain text of the cast. *)
Record CastFile := mkCast { cast_session : string; cast_base : string; cast_bytes : list Z }.

Record ExportInput := mkExportInput {
  options : ExportOptions;
  selected_session_ids : list string;
  selected_empty_folders : list string;
  config_text : string;
  export_version : Z;
  app_version : option string;
  master_password : option string;
  kdf_memory_kib : Z;
  kdf_iterations : Z;
  kdf_parallelism : Z;
  composed_at_ms : Z;
  sync_origin : option string;
  cast_files : list CastFile
}.

Definition sync_mode (input : ExportInput) : bool :=
  match sync_origin input with Some s => negb (String.eqb s "") | None => false end.

(** ** Rows *)
Section Rows.
Context `{SerdeText}.

(** Only a document that is an object with fields. *)
Definition session_extras (r : SessionRow) : option json :=
  if String.eqb (extras r) "" then None
  else match from_text (extras r) with
       | Some (JObject m) => if bool_decide (m = ∅) then None else Some (JObject m)
       | _ => None
       end.

Definition via_override (r : SessionRow) : option json :=
  match via_host r, via_port r, via_user r with
  | Some h, Some p, Some u =>
      if negb (String.eqb h "") && negb (String.eqb u "") then
        Some (object [("host", str h); ("port", int p); ("user", str u)]%string)
      else None
  | _, _, _ => None
  end.

Definition session_row_to_json (r : SessionRow) (folder_paths : gmap string string) (deleted_at : option Z) : json :=
  let folder := default ""%string (folder_id r ≫= fun id => folder_paths !! id) in
  object ([("id", str (session_key r)); ("label", str (label r)); ("folder", str folder);
     ("kind", if String.eqb (kind r) SESSION_KIND_SSH || String.eqb (kind r) "" then None else str (kind r));
     ("host", str (s_host r)); ("port", int (s_port r)); ("user", str (user r)); ("auth_type", str (auth_type r));
     ("key_id", when_nonempty (key_id r)); ("key_path", str (key_path r));
     ("created_at", stamp (created_at_ms r)); ("updated_at", stamp (updated_at_ms r));
     ("extras", session_extras r);
     ("via_session_id", when_nonempty (via_session_id r)); ("via_override", via_override r);
     ("password", str (password r)); ("key_data", str (key_data r)); ("passphrase", str (passphrase r));
     ("notes", if String.eqb (notes r) "" then None else str (notes r))]%string
    ++ tombstone_marker deleted_at).

Definition build_key_value (k : SshKeyRow) (deleted_at : option Z) : json :=
  object ([("id", str (key_key k)); ("label", str (key_label k)); ("public_key", str (public_key k));
     ("key_type", str (k_key_type k)); ("is_generated", flag (is_generated k));
     ("created_at", stamp (key_created_at_ms k)); ("backend", str (backend_as_db_str (backend k)))]%string
    ++ (match backend k with
        | Software => [("private_key", str (private_key k))]
        | Fido2 =>
            [("credential_id", when_some (credential_id k) byte_array);
             ("application_string", when_some (application_string k) str);
             ("has_user_verification", flag (has_user_verification k))]
        | Pkcs11 =>
            [("pkcs11_uri", when_some (pkcs11_uri k) str);
             ("pkcs11_token_serial", when_some (pkcs11_token_serial k) str);
             ("pkcs11_object_id", when_some (pkcs11_object_id k) byte_array);
             ("pkcs11_object_label", when_some (pkcs11_object_label k) str)]
        | Enclave | Hello | Tpm | Keystore => []
        end)%string
    ++ tombstone_marker deleted_at).

Definition certificate_to_value (c : CertRecord) : json :=
  object [("key_id", str (cert_key_id c)); ("certificate", byte_array (certificate c));
    ("valid_after", int (valid_after c)); ("valid_before", int (valid_before c));
    ("principals", Some (JArray (JString <$> principals c)));
    ("critical_options", Some (JObject (JString <$> critical_options c)));
    ("fingerprint", str (fingerprint c))]%string.

Definition webdav_secret_id (session_id : string) : string := "session.webdav." ++ session_id.
Definition s3_secret_id (session_id : string) : string := "session.s3." ++ session_id.

Definition webdav_row_to_value (r : WebDavSessionRow) (updated_at deleted_at : option Z) : json :=
  object ([("session_id", str (webdav_session_id r)); ("base_url", str (base_url r)); ("username", str (username r));
     ("auth_method", str (auth_method r)); ("trusted_cert_pem", when_some (trusted_cert_pem r) str);
     ("insecure_skip_verify", if insecure_skip_verify r then flag true else None);
     ("credential_secret_id", str (webdav_secret_id (webdav_session_id r)));
     ("updated_at_ms", when_some updated_at int)]%string ++ tombstone_marker deleted_at).

Definition s3_row_to_value (r : S3SessionRow) (updated_at deleted_at : option Z) : json :=
  object ([("session_id", str (s3_session_id r)); ("access_key_id", str (access_key_id r)); ("region", str (region r));
     ("endpoint", str (endpoint r)); ("path_style", flag (path_style r)); ("default_bucket", str (default_bucket r));
     ("default_prefix", str (default_prefix r)); ("trusted_cert_pem", when_some (s3_trusted_cert_pem r) str);
     ("insecure_skip_verify", if s3_insecure_skip_verify r then flag true else None);
     ("secret_access_key_secret_id", str (s3_secret_id (s3_session_id r)));
     ("updated_at_ms", when_some updated_at int)]%string ++ tombstone_marker deleted_at).

Definition bookmark_to_value (r : SftpBookmarkRow) (deleted_at : option Z) : json :=
  object ([("id", str (bookmark_key r)); ("session_id", str (bookmark_session_id r)); ("remote_path", str (remote_path r));
     ("label", str (bookmark_label r)); ("created_at", stamp (bookmark_created_at_ms r))]%string ++ tombstone_marker deleted_at).

Definition port_forward_row_to_value (r : PortForwardRuleRow) (include_sync_stamps : bool) (deleted_at : option Z) : json :=
  object ([("id", str (rule_key r)); ("session_id", str (rule_session_id r)); ("kind", str (rule_kind r));
     ("bind_host", str (bind_host r)); ("bind_port", int (bind_port r)); ("remote_host", str (remote_host r));
     ("remote_port", int (remote_port r)); ("description", str (rule_description r)); ("enabled", flag (enabled r));
     ("sort_order", int (rule_sort_order r)); ("created_at_ms", int (rule_created_at_ms r));
     ("updated_at_ms", if include_sync_stamps then int (rule_updated_at_ms r) else None)]%string
    ++ tombstone_marker deleted_at).

Definition tag_to_value (r : TagRow) (deleted_at : option Z) : json :=
  object ([("id", str (tag_key r)); ("name", str (tag_name r));
     ("color", Some (match color r with Some c => JString c | None => JNull end));
     ("created_at", stamp (tag_created_at_ms r))]%string ++ tombstone_marker deleted_at).

Definition snippet_to_value (r : SnippetRow) (deleted_at : option Z) : json :=
  object ([("id", str (snippet_key r)); ("title", str (title r)); ("command", str (command r));
     ("description", str (description r)); ("created_at", stamp (snippet_created_at_ms r));
     ("updated_at", stamp (snippet_updated_at_ms r))]%string ++ tombstone_marker deleted_at).

Definition link_to_value (k1 : string) (a : string) (k2 : string) (b : string) : json := object [(k1, str a); (k2, str b)].

Definition manifest_value (input : ExportInput) : json :=
  object [("schema_version", int (export_version input)); ("created_at", stamp (composed_at_ms input));
    ("app_version", when_nonempty (app_version input)); ("sync_origin", when_nonempty (sync_origin input))]%string.

End Rows.

(** ** Builders *)
Section Builders.
Context `{SerdeText} {D : Type} `{Database D}.
Open Scope prog_scope.
Open Scope dao_scope.

Definition wanted (ids : list string) (id : string) : bool := bool_decide (id ∈ ids).

Definition nonempty_array (l : list json) : option json := match l with [] => None | _ => Some (JArray l) end.

(** Every row with its tombstone on a sync push, the live rows otherwise. *)
Definition keyed_rows {R} (sync : bool) (all : prog D (Error + list (stored R))) (live : prog D (Error + list R)) :
    prog D (Error + list (R * option Z)) :=
  if sync then let? rows := all in Ret (inr ((fun s => (row s, deleted_at s)) <$> rows))
  else let? rows := live in Ret (inr ((fun r => (r, None)) <$> rows)).

Definition build_sessions_value (selected : list string) (folder_paths : gmap string string) (sync : bool) : prog D (Error + json) :=
  let? rows := keyed_rows sync Sessions.list_all_with_tombstones Sessions.list_all in
  Ret (inr (JArray ((fun kr => session_row_to_json kr.1 folder_paths kr.2)
                      <$> filter (fun kr => wanted selected (session_key kr.1) = true) rows))).

(** The keys the selected sessions name. *)
Definition used_key_ids (selected : list string) : prog D (Error + list string) :=
  let? rows := Sessions.list_all in
  Ret (inr (omap (fun r => match key_id r with
                           | Some k => if wanted selected (session_key r) && negb (String.eqb k "") then Some k else None
                           | None => None
                           end) rows)).

Definition build_manager_keys_value (selected : list string) (include_all sync : bool) : prog D (Error + option json) :=
  let? rows := keyed_rows sync SshKeys.list_all_with_tombstones SshKeys.list_all in
  match rows with
  | [] => Ret (inr None)
  | _ =>
      let? used := if include_all then Ret (inr []) else used_key_ids selected in
      Ret (inr (nonempty_array ((fun kr => build_key_value kr.1 kr.2)
                                  <$> filter (fun kr => include_all || wanted used (key_key kr.1) = true) rows)))
  end.

Definition build_ssh_key_certificates_value (selected : list string) (include_all_keys : bool) : prog D (Error + option json) :=
  let? certs := Certificates.list_all in
  match certs with
  | [] => Ret (inr None)
  | _ =>
      let? allowed := if include_all_keys then Ret (inr []) else used_key_ids selected in
      Ret (inr (nonempty_array (certificate_to_value <$> filter (fun c => include_all_keys || wanted allowed (cert_key_id c) = true) certs)))
  end.

Definition build_webdav_session_details_value (selected : list string) (sync : bool) : prog D (Error + option json) :=
  if sync then
    let? rows := WebDavSessions.list_all_with_tombstones in
    Ret (inr (nonempty_array ((fun s => webdav_row_to_value (webdav_row (row s)) (Some (webdav_updated_at (row s))) (deleted_at s))
      <$> filter (fun s => wanted selected (webdav_session_id (webdav_row (row s))) = true) rows)))
  else
    let? rows := WebDavSessions.list_all in
    Ret (inr (nonempty_array ((fun r => webdav_row_to_value r None None) <$> filter (fun r => wanted selected (webdav_session_id r) = true) rows))).

Definition build_s3_session_details_value (selected : list string) (sync : bool) : prog D (Error + option json) :=
  if sync then
    let? rows := S3Sessions.list_all_with_tombstones in
    Ret (inr (nonempty_array ((fun s => s3_row_to_value (s3_row (row s)) (Some (s3_updated_at (row s))) (deleted_at s))
      <$> filter (fun s => wanted selected (s3_session_id (s3_row (row s))) = true) rows)))
  else
    let? rows := S3Sessions.list_all in
    Ret (inr (nonempty_array ((fun r => s3_row_to_value r None None) <$> filter (fun r => wanted selected (s3_session_id r) = true) rows))).

Definition build_sftp_bookmarks_value (selected : list string) (sync : bool) : prog D (Error + option json) :=
  let? rows := keyed_rows sync Bookmarks.list_all_with_tombstones Bookmarks.list_all in
  Ret (inr (nonempty_array ((fun kr => bookmark_to_value kr.1 kr.2)
    <$> filter (fun kr => wanted selected (bookmark_session_id kr.1) = true) rows))).

Definition build_port_forward_rules_value (selected : list string) (sync : bool) : prog D (Error + option json) :=
  let? rows := keyed_rows sync PortForwards.list_all_with_tombstones PortForwards.list_all in
  Ret (inr (nonempty_array ((fun kr => port_forward_row_to_value kr.1 sync kr.2)
    <$> filter (fun kr => wanted selected (rule_session_id kr.1) = true) rows))).

Definition build_tags_value (sync : bool) : prog D (Error + option json) :=
  let? rows := keyed_rows sync Tags.list_all_with_tombstones Tags.list_all in
  Ret (inr (nonempty_array ((fun kr => tag_to_value kr.1 kr.2) <$> rows))).

Definition build_snippets_value (sync : bool) : prog D (Error + option json) :=
  let? rows := keyed_rows sync Snippets.list_all_with_tombstones Snippets.list_all in
  Ret (inr (nonempty_array ((fun kr => snippet_to_value kr.1 kr.2) <$> rows))).

(** One query per parent, in order; the first failure ends the walk. *)
Fixpoint gather {A} (parents : list A) (f : A -> prog D (Error + list json)) : prog D (Error + list json) :=
  match parents with
  | [] => Ret (inr [])
  | a :: parents => let? l := f a in let? rest := gather parents f in Ret (inr (l ++ rest))
  end.

Definition build_session_tags_value (selected : list string) : prog D (Error + option json) :=
  let? arr := gather selected (fun s =>
    let? ids := Tags.list_session_tag_ids s in Ret (inr (link_to_value "session_id" s "tag_id" <$> ids))) in
  Ret (inr (nonempty_array arr)).

Definition build_folder_tags_value : prog D (Error + option json) :=
  let? folders := Folders.list_all in
  match folders with
  | [] => Ret (inr None)
  | _ =>
      let? folder_paths := build_folder_paths in
      let? arr := gather folders (fun f =>
        let? ids := Tags.list_folder_tag_ids (folder_key f) in
        Ret (inr (link_to_value "folder_path" (default ""%string (folder_paths !! folder_key f)) "tag_id" <$> ids))) in
      Ret (inr (nonempty_array arr))
  end.

Definition build_session_snippets_value (selected : list string) : prog D (Error + option json) :=
  let? arr := gather selected (fun s =>
    let? ids := Snippets.list_session_snippet_ids s in Ret (inr (link_to_value "session_id" s "snippet_id" <$> ids))) in
  Ret (inr (nonempty_array arr)).

(** ** Entries *)
Context `{Zip}.
Notation entries := (list (string * list Z)).

Definition add_entry (label name : string) (content : list Z) (es : entries) : Error + entries :=
  match start_file es name with
  | Some e => inl (Archive (label ++ " " ++ name ++ ": " ++ e)%string)
  | None => inr (es ++ [(name, content)])
  end.

Definition write_text_entry (name : string) (text : list Z) (es : entries) : Error + entries := add_entry "zip start" name text es.
Definition write_json_entry (name : string) (v : json) (es : entries) : Error + entries := add_entry "zip start" name (lit (to_text v)) es.

Definition write_present (name : string) (v : option json) (es : entries) : Error + entries :=
  match v with Some v => write_json_entry name v es | None => inr es end.

Definition write_manifest (input : ExportInput) (es : entries) : Error + entries :=
  write_json_entry "manifest.json" (manifest_value input) es.

Definition write_sessions_entries (input : ExportInput) (es : entries) : prog D (Error + entries) :=
  let? folder_paths := build_folder_paths in
  let? v := build_sessions_value (selected_session_ids input) folder_paths (sync_mode input) in
  let? es := Ret (write_json_entry "sessions.json" v es) in
  Ret (match selected_empty_folders input with
       | [] => inr es
       | l => write_json_entry "empty_folders.json" (JArray (JString <$> l)) es
       end).

Definition write_keys_entry (input : ExportInput) (es : entries) : prog D (Error + entries) :=
  let? v := build_manager_keys_value (selected_session_ids input) (include_all_manager_keys (options input)) (sync_mode input) in
  Ret (write_present "keys.json" v es).

Definition write_known_hosts_entry (es : entries) : prog D (Error + entries) :=
  let? kh := build_known_hosts in
  Ret (match kh with [] => inr es | _ => write_text_entry "known_hosts.txt" (Utf8.encode kh) es end).

Definition write_tags_entries (input : ExportInput) (es : entries) : prog D (Error + entries) :=
  let? v := build_tags_value (sync_mode input) in
  match v with
  | None => Ret (inr es)
  | Some v =>
      let? es := Ret (write_json_entry "tags.json" v es) in
      let? st := build_session_tags_value (selected_session_ids input) in
      let? es := Ret (write_present "session_tags.json" st es) in
      let? ft := build_folder_tags_value in
      Ret (write_present "folder_tags.json" ft es)
  end.

Definition write_snippets_entries (input : ExportInput) (es : entries) : prog D (Error + entries) :=
  let? v := build_snippets_value (sync_mode input) in
  match v with
  | None => Ret (inr es)
  | Some v =>
      let? es := Ret (write_json_entry "snippets.json" v es) in
      let? ss := build_session_snippets_value (selected_session_ids input) in
      Ret (write_present "session_snippets.json" ss es)
  end.

Definition entry_if (on : bool) (p : entries -> prog D (Error + entries)) (es : entries) : prog D (Error + entries) :=
  if on then p es else Ret (inr es).

Definition present (name : string) (p : prog D (Error + option json)) (es : entries) : prog D (Error + entries) :=
  let? v := p in Ret (write_present name v es).

Definition write_child_table_entries (input : ExportInput) (es : entries) : prog D (Error + entries) :=
  let ids := selected_session_ids input in
  let sync := sync_mode input in
  let? es := entry_if (has_manager_keys (options input))
    (present "ssh_key_certificates.json" (build_ssh_key_certificates_value ids (include_all_manager_keys (options input)))) es in
  entry_if (include_sessions (options input)) (fun es =>
    let? es := present "webdav_session_details.json" (build_webdav_session_details_value ids sync) es in
    let? es := present "s3_session_details.json" (build_s3_session_details_value ids sync) es in
    let? es := present "sftp_bookmarks.json" (build_sftp_bookmarks_value ids sync) es in
    present "port_forward_rules.json" (build_port_forward_rules_value ids sync) es) es.

Fixpoint write_recordings (files : list CastFile) (es : entries) : Error + entries :=
  match files with
  | [] => inr es
  | f :: files =>
      match add_entry "recording start" ("recordings/" ++ cast_session f ++ "/" ++ cast_base f ++ ".cast")%string (cast_bytes f) es with
      | inl e => inl e
      | inr es => write_recordings files es
      end
  end.

Definition build_zip (input : ExportInput) : prog D (Error + list Z) :=
  let o := options input in
  let? es := Ret (write_manifest input []) in
  let? es := entry_if (include_sessions o) (write_sessions_entries input) es in
  let? es := entry_if (has_manager_keys o) (write_keys_entry input) es in
  let? es := entry_if (include_config o && negb (String.eqb (config_text input) ""))
               (fun es => Ret (write_text_entry "config.json" (lit (config_text input)) es)) es in
  let? es := entry_if (include_known_hosts o) write_known_hosts_entry es in
  let? es := entry_if (include_tags o) (write_tags_entries input) es in
  let? es := entry_if (include_snippets o) (write_snippets_entries input) es in
  let? es := write_child_table_entries input es in
  let? es := entry_if (include_recordings o) (fun es => Ret (write_recordings (cast_files input) es)) es in
  Ret (match finish_zip es with inl e => inl (Archive ("zip finish: " ++ e)%string) | inr b => inr b end).

Context `{Crypto.Primitives}.

Inductive ExportError := Unbuilt (e : Error) | Unsealed (e : EnvelopeError).

Definition encrypts (input : ExportInput) : bool :=
  match master_password input with Some pw => negb (String.eqb pw "") | None => false end.

Definition export_archive (mobile : bool) (slt iv : list Z) (input : ExportInput) : prog D (ExportError + list Z) :=
  let! z := build_zip input in
  Ret (match z with
       | inl e => inl (Unbuilt e)
       | inr zip_bytes =>
           let pw := default ""%string (master_password input) in
           if String.eqb pw "" then inr zip_bytes
           else match encrypt_with_password mobile slt iv zip_bytes pw (kdf_memory_kib input) (kdf_iterations input) (kdf_parallelism input) with
                | inl e => inl (Unsealed e)
                | inr b => inr b
                end
       end).

(** [u32] sizes, saturating. *)
Definition export_archive_size (input : ExportInput) : prog D (Error + Z) :=
  let? z := build_zip input in
  let inner := Z.min (Z.of_nat (length z)) (2 ^ 32 - 1) in
  Ret (inr (if encrypts input then Z.min (inner + Z.of_nat LFSE_ENVELOPE_OVERHEAD) (2 ^ 32 - 1) else inner)).

End Builders.
