(* ===== verification/ComposeLaws.v ===== *)
(** * What a snapshot delivers

    The rows a device composes, read back by the merge of another: the JSON of every kind of row
    reads back as the row, and after a merge the peer holds every live row that was newer there
    than its own. *)
From Stdlib Require Import ZArith Lia.
From stdpp Require Import prelude gmap strings list sorting.
From S2P Require Import Prelude Text Json Bus PromptRegistry Prog Crypto Envelope KnownHosts Iso8601 Tables Dao Apply ApplyLaws Lfs Compose.

Open Scope Z_scope.

#[local] Arguments format_iso8601_utc : simpl never.
#[local] Arguments parse_iso8601_opt : simpl never.
#[local] Arguments Json.of_i64 : simpl never.
#[local] Arguments Json.as_i64 : simpl never.
#[local] Arguments byte_array : simpl never.
#[local] Arguments session_extras : simpl never.
#[local] Arguments via_override : simpl never.

(** ** Objects *)

(** The field of a name, where names do not repeat. *)
Fixpoint field_of (k : string) (fs : fields) : option json :=
  match fs with
  | [] => None
  | (k', o) :: fs => match (if String.eqb k k' then o else None) with Some v => Some v | None => field_of k fs end
  end.

Lemma jget_object fs k : jget (object fs) k = field_of k fs.
Proof.
  unfold jget, object. cbn [Json.as_object]. change (Some ?m ≫= lookup k) with (m !! k).
  induction fs as [|[k' o] fs IH]; cbn [foldr field_of fst snd]; [apply lookup_empty|].
  destruct o as [v|]; [|by destruct (String.eqb k k')].
  destruct (String.eqb_spec k k') as [<-|Hne]; [by rewrite lookup_insert_eq|]. by rewrite lookup_insert_ne.
Qed.

Lemma field_of_app k fs gs : field_of k (fs ++ gs) = match field_of k fs with Some v => Some v | None => field_of k gs end.
Proof.
  induction fs as [|[k' o] fs IH]; cbn [field_of app]; [done|]. by destruct (if String.eqb k k' then o else None).
Qed.

Lemma as_i64_int n : in_i64 n -> Json.as_i64 (Json.of_i64 n) = Some n.
Proof. apply as_i64_of_i64. Qed.

(** Reading a concrete key of a concrete list of fields. *)
Ltac read_fields :=
  unfold json_string, json_i64, json_i64_opt, is_tombstone, nonempty_at, str_at, bool_at, bytes_at, peer_stamp, json_string, str_at;
  rewrite ?jget_object, ?field_of_app;
  cbn [field_of String.eqb Ascii.eqb Bool.eqb tombstone_marker when_some str flag].

Lemma squash {A} (o : option A) : match o with Some v => Some v | None => None end = o.
Proof. by destruct o. Qed.

Lemma nonempty_back (o : option string) : o <> Some ""%string ->
  ((when_nonempty o ≫= Json.as_str) ≫= fun s => if String.eqb s "" then None else Some s) = o.
Proof. destruct o as [[|c s]|]; intros Ho; by cbn. Qed.

Lemma str_back (o : option string) : when_some o str ≫= Json.as_str = o.
Proof. by destruct o. Qed.

(** ** Keys *)

(** The columns of a key that travel: nothing bound to the device, and the policy asks again. *)
Definition travelling_key (k : SshKeyRow) : SshKeyRow :=
  {| key_key := key_key k; key_label := key_label k;
     private_key := match backend k with Software => private_key k | _ => ""%string end;
     public_key := public_key k; k_key_type := k_key_type k; is_generated := is_generated k;
     key_created_at_ms := key_created_at_ms k;
     credential_id := match backend k with Fido2 => credential_id k | _ => None end;
     application_string := match backend k with Fido2 => application_string k | _ => None end;
     has_user_verification := match backend k with Fido2 => has_user_verification k | _ => false end;
     agent_policy := Ask; backend := backend k;
     pkcs11_uri := match backend k with Pkcs11 => pkcs11_uri k | _ => None end;
     pkcs11_module_path := None;
     pkcs11_token_serial := match backend k with Pkcs11 => pkcs11_token_serial k | _ => None end;
     pkcs11_object_id := match backend k with Pkcs11 => pkcs11_object_id k | _ => None end;
     pkcs11_object_label := match backend k with Pkcs11 => pkcs11_object_label k | _ => None end;
     enclave_tag := None; hello_credential_name := None; tpm_blob := None; tpm_handle := None;
     tpm_provider := None; tpm_pin_required := false; cng_key_name := None; keystore_alias := None;
     keystore_strongbox := false; keystore_user_auth_required := false; keystore_platform := None;
     imported_as_stub := is_device_bound (backend k) |}.

(** Byte columns hold bytes. *)
Record portable_key (k : SshKeyRow) : Prop := {
  key_stamp : printable (key_created_at_ms k);
  key_credential : forall b, credential_id k = Some b -> Forall in_u8 b;
  key_object_id : forall b, pkcs11_object_id k = Some b -> Forall in_u8 b
}.

Lemma byte_array_back b : Forall in_u8 b ->
  omap (fun x => (fun n => n mod 256) <$> Json.as_u64 x) ((fun n => JNumber (PosInt n)) <$> b) = b.
Proof.
  induction 1 as [|n b Hn Hb IH]; [done|]. rewrite fmap_cons. cbn [omap list_omap Json.as_u64].
  change (option_fmap ?A ?B ?f (Some ?x)) with (Some (f x)). cbn. rewrite IH. f_equal. int_unfold. apply Z.mod_small. lia.
Qed.

Lemma bytes_back (o : option (list Z)) : (forall b, o = Some b -> Forall in_u8 b) ->
  when_some o byte_array ≫= (fun x => match x with
    | JArray l => Some (omap (fun b => (fun n => n mod 256) <$> Json.as_u64 b) l) | _ => None end) = o.
Proof. destruct o as [b|]; intros Hb; [|done]. unfold byte_array. cbn. by rewrite byte_array_back by auto. Qed.

Lemma or_now_printed ms now_ms : printable ms -> parse_iso8601_or_now (format_iso8601_utc ms) now_ms = ms.
Proof. intros Hms. unfold parse_iso8601_or_now. by rewrite stamp_roundtrip. Qed.

Lemma key_reads_back k now_ms : portable_key k -> build_key_row (build_key_value k None) now_ms = travelling_key k.
Proof.
  intros [Hs Hc Ho]. unfold build_key_row, travelling_key, build_key_value.
  destruct (backend k) eqn:Hb; read_fields; cbn; rewrite ?(or_now_printed _ _ Hs); [done| | |done..].
  - by rewrite !squash, str_back, bytes_back.
  - by rewrite !squash, !str_back, bytes_back.
Qed.

Lemma key_fields k d : json_string (build_key_value k d) "id" = key_key k /\ is_tombstone (build_key_value k d) = bool_decide (is_Some d).
Proof. unfold build_key_value. split; (destruct (backend k), d; read_fields; cbn; done). Qed.

Lemma key_peer_stamp k : printable (key_created_at_ms k) -> peer_stamp (build_key_value k None) "created_at" = Some (key_created_at_ms k).
Proof. intros Hs. unfold build_key_value. destruct (backend k); read_fields; cbn; by apply stamp_roundtrip. Qed.

(** ** Sessions *)

(** What a merge makes of a session row: its folder is the one of the same path, its place in
    the list, its notes and its last connection are not carried over. *)
Definition travelling_session `{SerdeText} (r : SessionRow) (folder : option string) : SessionRow :=
  {| session_key := session_key r; label := label r; folder_id := folder; kind := normalise_kind (kind r);
     s_host := s_host r; s_port := s_port r; user := user r; auth_type := auth_type r; password := password r;
     key_path := key_path r; key_data := key_data r; key_id := key_id r; passphrase := passphrase r;
     sort_order := 0; notes := ""; last_connected_at_ms := None;
     extras := match session_extras r with Some e => to_text e | None => "{}"%string end;
     via_session_id := via_session_id r; via_host := via_host r; via_port := via_port r; via_user := via_user r;
     created_at_ms := created_at_ms r; updated_at_ms := updated_at_ms r |}.

(** Empty names stand for absent ones, and an override is complete or absent. *)
Record portable_session (r : SessionRow) : Prop := {
  session_created : printable (created_at_ms r);
  session_updated : printable (updated_at_ms r);
  session_port : in_i64 (s_port r);
  session_key_id : key_id r <> Some ""%string;
  session_via : via_session_id r <> Some ""%string;
  session_override :
    (via_host r = None /\ via_port r = None /\ via_user r = None) \/
    (exists h p u, via_host r = Some h /\ via_port r = Some p /\ via_user r = Some u /\
       h <> ""%string /\ u <> ""%string /\ in_i64 p)
}.

Lemma kind_back k :
  default SESSION_KIND_SSH (((if String.eqb k SESSION_KIND_SSH || String.eqb k "" then None else str k) ≫= Json.as_str)
    ≫= fun s => if String.eqb s "" then None else Some s) = normalise_kind k.
Proof.
  unfold normalise_kind. destruct (String.eqb_spec k SESSION_KIND_SSH) as [->|]; [done|].
  destruct (String.eqb_spec k "") as [->|Hne]; [done|]. cbn. by apply String.eqb_neq in Hne as ->.
Qed.

Lemma override_back `{SerdeText} r :
  (via_host r = None /\ via_port r = None /\ via_user r = None) \/
  (exists h p u, via_host r = Some h /\ via_port r = Some p /\ via_user r = Some u /\
     h <> ""%string /\ u <> ""%string /\ in_i64 p) ->
  (via_override r ≫= (fun o => jget o "host" ≫= Json.as_str)) = via_host r /\
  (via_override r ≫= (fun o => jget o "port" ≫= Json.as_i64)) = via_port r /\
  (via_override r ≫= (fun o => jget o "user" ≫= Json.as_str)) = via_user r.
Proof.
  unfold via_override. intros [(-> & -> & ->)|(h & p & u & -> & -> & -> & Hh & Hu & Hp)]; [done|].
  apply String.eqb_neq in Hh as ->, Hu as ->. cbn [negb andb mbind option_bind]. rewrite !jget_object. cbn. by rewrite as_i64_of_i64.
Qed.

Lemma session_reads_back `{SerdeText} r paths ids now_ms : portable_session r ->
  build_session_row (session_row_to_json r paths None) Sync ids (session_key r) (updated_at_ms r) now_ms
  = travelling_session r (nonempty_at (session_row_to_json r paths None) "folder" ≫= fun p => ids !! p).
Proof.
  intros [Hc Hu Hp Hk Hv Ho]. unfold build_session_row, travelling_session, session_row_to_json.
  read_fields. cbn. rewrite !squash, (or_now_printed _ _ Hc), (as_i64_of_i64 _ Hp), !nonempty_back, kind_back by done.
  destruct (override_back r Ho) as (-> & -> & ->).
  reflexivity.
Qed.

Lemma session_fields `{SerdeText} r paths d :
  json_string (session_row_to_json r paths d) "id" = session_key r /\
  is_tombstone (session_row_to_json r paths d) = bool_decide (is_Some d).
Proof. unfold session_row_to_json. split; (destruct d; read_fields; cbn; done). Qed.

Lemma session_peer_stamp `{SerdeText} r paths : printable (updated_at_ms r) ->
  peer_stamp (session_row_to_json r paths None) "updated_at" = Some (updated_at_ms r).
Proof. intros Hs. unfold session_row_to_json. read_fields. cbn. by apply stamp_roundtrip. Qed.
