(* ===== verification/MergeDelivers.v ===== *)
(** * What a merge installs

    The other half of last-writer-wins: on a working database the merge of a composed snapshot
    leaves every live key and session of the snapshot on this device, unless this device has a
    live row that is at least as new. *)
From Stdlib Require Import ZArith Lia.
From stdpp Require Import prelude gmap strings list sorting.
From S2P Require Import Prelude Text Json Bus PromptRegistry Prog Crypto Envelope KnownHosts Iso8601 Tables Dao Apply ApplyLaws Lfs Compose ComposeLaws.

Open Scope Z_scope.

(** ** Calls on a working database *)
Section Working.
Context {D : Type} `{Database D}.

Lemma wp_execute {A} (s : sql A) (Q : stage * string + A -> D -> Prop) d a t :
  Tables.working d -> s (tables d) = Some (a, t) ->
  (forall d', Tables.working d' -> tables d' = t -> Q (inr a) d') -> wp (call (execute s)) Q d.
Proof.
  intros Hw Hs HQ. destruct (working_executes _ _ _ _ _ Hw Hs) as [Ha Hw'].
  apply wp_call. rewrite Ha. apply HQ; [done|]. apply executed in Ha. congruence.
Qed.

Lemma wp_exec {A} label (s : sql A) (Q : Error + A -> D -> Prop) d a t :
  Tables.working d -> s (tables d) = Some (a, t) ->
  (forall d', Tables.working d' -> tables d' = t -> Q (inr a) d') -> wp (exec label s) Q d.
Proof. intros Hw Hs HQ. apply wp_bind. eapply wp_execute; [done..|]. intros d' Hd' Ht. by apply wp_ret, HQ. Qed.

Lemma wp_query {A} label (s : sql A) (Q : Error + A -> D -> Prop) d a :
  Tables.working d -> s (tables d) = Some (a, tables d) ->
  (forall d', Tables.working d' -> tables d' = tables d -> Q (inr a) d') -> wp (query label s) Q d.
Proof. intros Hw Hs HQ. apply wp_bind. eapply wp_execute; [done..|]. intros d' Hd' Ht. by apply wp_ret, HQ. Qed.

Lemma wp_query_as {A} a b c (s : sql A) (Q : Error + A -> D -> Prop) d r :
  Tables.working d -> s (tables d) = Some (r, tables d) ->
  (forall d', Tables.working d' -> tables d' = tables d -> Q (inr r) d') -> wp (query_as a b c s) Q d.
Proof. intros Hw Hs HQ. apply wp_bind. eapply wp_execute; [done..|]. intros d' Hd' Ht. by apply wp_ret, HQ. Qed.

Lemma wp_fresh (Q : string -> D -> Prop) d :
  Tables.working d -> (forall i d', Tables.working d' -> tables d' = tables d -> Q i d') -> wp fresh_id Q d.
Proof.
  intros Hw HQ. apply wp_bind, wp_call, wp_ret, HQ; [by apply working_asks|apply (fill_bytes_same d)].
Qed.

Lemma wp_try {A B} (p : prog D (Error + A)) (q : A -> prog D (Error + B)) Q d :
  wp p (fun r d' => match r with inl e => Q (inl e) d' | inr a => wp (q a) Q d' end) d -> wp (try p q) Q d.
Proof. intros Hp. apply wp_bind. eapply wp_mono; [|exact Hp]. intros [e|a] d' Hd'; [by apply wp_ret|done]. Qed.

Lemma run_on_conn {A} (p : prog D A) w :
  run (on_conn p) w = ((run p (conn w)).1, mkApplying (run p (conn w)).2 (outcome w)).
Proof.
  destruct w as [d o]. unfold on_conn. cbn [conn outcome]. revert d. induction p as [a|C f k IH]; intros d; [done|].
  cbn [zoom run conn outcome]. destruct (f d) as [b d']. apply IH.
Qed.

Lemma wp_conn {A} (p : prog D A) Q w : wp p (fun a d' => Q a (mkApplying d' (outcome w))) (conn w) -> wp (on_conn p) Q w.
Proof. intros Hp. unfold wp in *. by rewrite run_on_conn. Qed.

(** What an arm leaves in the database; its counters and messages are not looked at. *)
Definition leaves (p : prog (Applying D) unit) (P : D -> Prop) (w : Applying D) : Prop := wp p (fun _ w' => P (conn w')) w.

Lemma leaves_note f (P : D -> Prop) w : P (conn w) -> leaves (note f) P w.
Proof. intros Hw. unfold leaves, note. by apply wp_call. Qed.

Lemma leaves_tally {A} (p : prog D (Error + A)) bump label P w : wp p (fun _ d' => P d') (conn w) -> leaves (tally p bump label) P w.
Proof.
  intros Hp. unfold leaves, tally. apply wp_bind, wp_conn. eapply wp_mono; [|exact Hp]. intros [e|a] d' Hd'; by apply leaves_note.
Qed.

Lemma leaves_listed {A} (p : prog D (Error + A)) label k P w :
  wp p (fun r d' => exists a, r = inr a /\ leaves (k a) P (mkApplying d' (outcome w))) (conn w) -> leaves (listed p label k) P w.
Proof.
  intros Hp. unfold leaves, listed. apply wp_bind, wp_conn. eapply wp_mono; [|exact Hp]. intros r d' (a & -> & Hk). exact Hk.
Qed.

(** A loop, by what holds after each prefix. *)
Lemma leaves_each {A} (l : list A) (p : A -> prog (Applying D) unit) (I : list A -> D -> Prop) w :
  (forall pre a post w, l = pre ++ a :: post -> I pre (conn w) -> leaves (p a) (I (pre ++ [a])) w) ->
  I [] (conn w) -> leaves (each l p) (I l) w.
Proof.
  intros Hp. enough (forall post pre w, l = pre ++ post -> I pre (conn w) -> leaves (each post p) (I l) w) as Ha
    by (intros Hw; by apply (Ha l [])).
  clear w. induction post as [|a post IH]; intros pre w Hl Hw; cbn [each].
  - rewrite app_nil_r in Hl. subst pre. by apply wp_ret.
  - apply wp_bind. eapply wp_mono; [|by eapply Hp]. intros [] w' Hw'. eapply (IH (pre ++ [a])); [|exact Hw'].
    by rewrite <- app_assoc.
Qed.

Lemma each_fmap {A B} (f : A -> B) l (p : B -> prog (Applying D) unit) : each (f <$> l) p = each l (fun a => p (f a)).
Proof.
  induction l as [|a l IH]; [done|]. rewrite fmap_cons. cbn [each]. by rewrite IH.
Qed.

End Working.

(** ** Updates *)
Lemma update_row_other {R} (f : stored R -> option (stored R)) i (m : gmap string (stored R)) k :
  k <> i -> (update_row f i m).2 !! k = m !! k.
Proof. intros Hne. unfold update_row. destruct (m !! i ≫= f); cbn; [by rewrite lookup_insert_ne|done]. Qed.

Lemma update_row_present {R} (f : stored R -> option (stored R)) i (m : gmap string (stored R)) k :
  is_Some (m !! k) -> is_Some ((update_row f i m).2 !! k).
Proof.
  intros Hk. unfold update_row. destruct (m !! i ≫= f); cbn; [|done].
  destruct (decide (k = i)) as [->|Hne]; [rewrite lookup_insert_eq; eauto|by rewrite lookup_insert_ne].
Qed.

Lemma insert_present {R} i (r : R) (m : gmap string R) k : is_Some (m !! k) -> is_Some (<[i := r]> m !! k).
Proof. intros Hk. destruct (decide (k = i)) as [->|Hne]; [rewrite lookup_insert_eq; eauto|by rewrite lookup_insert_ne]. Qed.

(** A listing of a keyed table, collected under the keys again, is the table. *)
Lemma by_id_row_order `{Database D} {R} (key : R -> string) (m : gmap string R) :
  (forall k r, m !! k = Some r -> key r = k) -> by_id key (row_order m) = m.
Proof.
  intros Hkey. apply map_eq. intros k. destruct (m !! k) as [r|] eqn:Hk.
  - apply by_id_lookup; [apply row_order_elem; eauto|by apply Hkey|].
    intros r' [k' Hr']%row_order_elem He. assert (Hk' := Hkey _ _ Hr'). congruence.
  - unfold by_id. assert (Hg : forall l (m' : gmap string R), (forall r, r ∈ l -> key r <> k) -> m' !! k = None ->
      foldl (fun m r => <[key r := r]> m) m' l !! k = None).
    { induction l as [|x l IH]; intros m' Hl Hm'; [done|]. cbn. apply IH; [intros r Hr; apply Hl; by right|].
      rewrite lookup_insert_ne; [done|]. apply Hl. left. }
    apply Hg; [|done]. intros r [k' Hr]%row_order_elem He. rewrite (Hkey _ _ Hr) in He. congruence.
Qed.

(** ** Keys *)
Section Keys.
Context {D : Type} `{Database D}.
Variable sha256 : list Z -> list Z.
Variable t0 : Tables.
Hypothesis Hkeyed : forall k s, ssh_keys t0 !! k = Some s -> key_key (row s) = k.
Variable now_ms : Z.

Definition key_value (s : stored SshKeyRow) : json := build_key_value (row s) (deleted_at s).

(** The peer's key is newer than what lives here under its id. *)
Definition wins_key (k : SshKeyRow) : Prop :=
  forall r, live_rows (ssh_keys t0) !! key_key k = Some r -> key_created_at_ms r < key_created_at_ms k.

(** What the loop has made of the keys in [pre]. *)
Record KeysDone (pre : list (stored SshKeyRow)) (d : D) : Prop := {
  keys_working : Tables.working d;
  keys_rest : exists m, tables d = over_ssh_keys (fun _ => m) t0;
  keys_stay k : is_Some (ssh_keys t0 !! k) -> is_Some (ssh_keys (tables d) !! k);
  keys_untouched k : k ∉ (fun s => key_key (row s)) <$> pre -> ssh_keys (tables d) !! k = ssh_keys t0 !! k;
  keys_present k : mkStored k None ∈ pre -> key_key k <> ""%string -> is_Some (ssh_keys (tables d) !! key_key k);
  keys_delivered k : mkStored k None ∈ pre -> key_key k <> ""%string -> portable_key k -> wins_key k ->
    ssh_keys (tables d) !! key_key k = Some (mkStored (travelling_key k) None)
}.

(** A statement that leaves every other key alone and removes none. *)
Lemma keys_step pre (a : stored SshKeyRow) d d' m :
  KeysDone pre d -> Tables.working d' -> tables d' = over_ssh_keys (fun _ => m) (tables d) ->
  key_key (row a) ∉ (fun s => key_key (row s)) <$> pre ->
  (forall k, k <> key_key (row a) -> m !! k = ssh_keys (tables d) !! k) ->
  (is_Some (ssh_keys (tables d) !! key_key (row a)) -> is_Some (m !! key_key (row a))) ->
  (deleted_at a = None -> key_key (row a) <> ""%string -> is_Some (m !! key_key (row a))) ->
  (deleted_at a = None -> key_key (row a) <> ""%string -> portable_key (row a) -> wins_key (row a) ->
     m !! key_key (row a) = Some (mkStored (travelling_key (row a)) None)) ->
  KeysDone (pre ++ [a]) d'.
Proof.
  intros [Hw [m0 Hr] Hst Hu Hp Hd] Hw' Ht Hn Ho Hs Hpa Hda.
  assert (Hk : ssh_keys (tables d') = m) by by rewrite Ht.
  assert (Hin : forall k, mkStored k None ∈ pre -> key_key k <> key_key (row a)).
  { intros k Hk' He. apply Hn. rewrite <- He. apply list_elem_of_fmap. by exists (mkStored k None). }
  split; [done| | | | |]; rewrite ?Hk.
  - exists m. by rewrite Ht, Hr.
  - intros k Hk'. apply Hst in Hk'. destruct (decide (k = key_key (row a))) as [->|]; [auto|by rewrite Ho].
  - intros k. rewrite fmap_app, not_elem_of_app. intros [Hk1 Hk2]. rewrite Ho; [auto|].
    intros ->. apply Hk2. left.
  - intros k [Hk'|He%list_elem_of_singleton]%elem_of_app Hne; [rewrite Ho by auto; auto|].
    subst a. by apply Hpa.
  - intros k [Hk'|He%list_elem_of_singleton]%elem_of_app Hne Hpo Hwi; [rewrite Ho by auto; auto|].
    subst a. by apply Hda.
Qed.

Lemma key_tombstone_step pre a ts d :
  KeysDone pre d -> deleted_at a <> None -> key_key (row a) ∉ (fun s => key_key (row s)) <$> pre ->
  wp (SshKeys.apply_tombstone (key_key (row a)) ts) (fun _ d' => KeysDone (pre ++ [a]) d') d.
Proof.
  intros Hd Ha Hn. unfold SshKeys.apply_tombstone. set (f := bury_created key_created_at_ms ts).
  set (id := key_key (row a)) in *.
  eapply (wp_exec _ _ _ _ (update_row f id (ssh_keys (tables d))).1
    (over_ssh_keys (fun _ => (update_row f id (ssh_keys (tables d))).2) (tables d))); [apply Hd| |].
  { unfold tombstone_key. fold f. by destruct (update_row f id _). }
  intros d' Hw' Ht. eapply keys_step; [done..| | | |]; try done.
  - intros k Hk. by apply update_row_other.
  - apply update_row_present.
Qed.

Lemma key_upsert_step pre k d peer_ts :
  KeysDone pre d -> key_key k ∉ (fun s => key_key (row s)) <$> pre ->
  (portable_key k -> peer_ts = key_created_at_ms k) ->
  wp (SshKeys.upsert (with_identity (key_key k) peer_ts (build_key_row (build_key_value k None) now_ms)))
    (fun _ d' => KeysDone (pre ++ [mkStored k None]) d') d.
Proof.
  intros Hd Hn Hp. set (r := with_identity _ _ _). unfold SshKeys.upsert.
  eapply (wp_exec _ _ _ _ () (over_ssh_keys (insert (key_key k) (mkStored r None)) (tables d))); [apply Hd|done|].
  intros d' Hw' Ht. eapply (keys_step pre (mkStored k None) d d' (<[key_key k := mkStored r None]> (ssh_keys (tables d)))); try done.
  - intros k' Hk'. by rewrite lookup_insert_ne.
  - intros _. cbn. rewrite lookup_insert_eq. eauto.
  - intros _ _. cbn. rewrite lookup_insert_eq. eauto.
  - intros _ _ Hpo _. cbn. rewrite lookup_insert_eq. unfold r. rewrite key_reads_back, (Hp Hpo) by done.
    by destruct k.
Qed.

Lemma keys_loop rows w :
  NoDup ((fun s => key_key (row s)) <$> rows) -> KeysDone [] (conn w) ->
  leaves (each (key_value <$> rows) (apply_one_key_sync (by_id key_key (row_order (live_rows (ssh_keys t0)))) now_ms))
    (KeysDone rows) w.
Proof.
  intros Hnd Hw. rewrite each_fmap. apply leaves_each; [|done]. clear w Hw. intros pre a post w -> Hw.
  assert (Hn : key_key (row a) ∉ (fun s => key_key (row s)) <$> pre).
  { rewrite fmap_app, fmap_cons in Hnd. apply NoDup_app in Hnd as (_ & Hnd & _). intros Hin. apply (Hnd _ Hin). left. }
  unfold apply_one_key_sync, key_value. destruct (key_fields (row a) (deleted_at a)) as [-> ->].
  assert (Hskip : (key_key (row a) <> ""%string -> deleted_at a = None /\ exists r, live_rows (ssh_keys t0) !! key_key (row a) = Some r /\
       (portable_key (row a) -> key_created_at_ms (row a) <= key_created_at_ms r)) -> leaves (Ret ()) (KeysDone (pre ++ [a])) w).
  { intros Hs. apply wp_ret. destruct Hw as [Hwk [m Hr] ????]. eapply (keys_step pre a _ _ (ssh_keys (tables (conn w)))); try done.
    - by split; [|exists m|..].
    - by destruct (tables (conn w)).
    - intros _ Hne. destruct (Hs Hne) as (_ & r & Hl & _). apply live_row_stored in Hl. eauto.
    - intros _ Hne Hpo Hwin. destruct (Hs Hne) as (_ & r & Hl & Hle). specialize (Hwin _ Hl). specialize (Hle Hpo). lia. }
  destruct (String.eqb_spec (key_key (row a)) "") as [Hz|Hne]; [by apply Hskip|].
  rewrite (by_id_row_order key_key) by (intros k r Hr%live_row_stored; by apply Hkeyed in Hr).
  destruct a as [k [ts|]]; cbn [row deleted_at] in *.
  - rewrite bool_decide_eq_true_2 by eauto. apply leaves_tally.
    by apply (key_tombstone_step pre (mkStored k (Some ts))).
  - rewrite bool_decide_eq_false_2 by (by intros [? ?]). cbv zeta.
    assert (Hts : portable_key k -> default 0 (peer_stamp (build_key_value k None) "created_at") = key_created_at_ms k)
      by (intros Hp; rewrite key_peer_stamp by apply Hp; done).
    unfold lww_peer_loses. destruct (live_rows (ssh_keys t0) !! key_key k) as [r|] eqn:Hl; cbn [fmap option_fmap option_map].
    + destruct (Z.leb_spec (default 0 (peer_stamp (build_key_value k None) "created_at")) (key_created_at_ms r)) as [Hle|Hgt].
      * apply Hskip. intros _. split; [done|]. exists r. split; [done|]. intros Hp. by rewrite <- Hts.
      * apply leaves_tally. by apply key_upsert_step.
    + apply leaves_tally. by apply key_upsert_step.
Qed.
End Keys.

(** ** Folders *)
Definition keyed_folders (t : Tables) : Prop := forall k f, folders t !! k = Some f -> folder_key f = k.

(** Folders are added, nothing else changes. *)
Record grows (t t' : Tables) : Prop := {
  grows_only : exists m, t' = over_folders (fun _ => m) t;
  grows_keeps k : is_Some (folders t !! k) -> is_Some (folders t' !! k);
  grows_keyed : keyed_folders t -> keyed_folders t'
}.

Lemma grows_refl t : grows t t.
Proof. split; [exists (folders t); by destruct t|done..]. Qed.

Lemma grows_trans t1 t2 t3 : grows t1 t2 -> grows t2 t3 -> grows t1 t3.
Proof. intros [[m ->] H1 H2] [[m' ->] H3 H4]. split; [by exists m'|eauto..]. Qed.

Lemma grows_insert r t : grows t (over_folders (insert (folder_key r) r) t).
Proof.
  split; [by eexists| |].
  - intros k Hk. by apply insert_present.
  - intros Hkd k f. cbn. intros [[<- <-]|[_ Hf]]%lookup_insert_Some; [done|by apply Hkd].
Qed.

Section Folders.
Context {D : Type} `{Database D}.

(** What a folder arm leaves of a working database. *)
Definition grown (t : Tables) (d : D) : Prop := Tables.working d /\ grows t (tables d).

Lemma walk_grows segs now_ms by_parent parent t d :
  grown t d -> (forall p i, by_parent !! p = Some i -> is_Some (folders (tables d) !! i)) ->
  (forall p, parent = Some p -> is_Some (folders (tables d) !! p)) ->
  wp (Folders.walk segs now_ms by_parent parent)
    (fun r d' => grown t d' /\ grows (tables d) (tables d') /\ forall i, r = inr (Some i) -> is_Some (folders (tables d') !! i)) d.
Proof.
  revert by_parent parent d. induction segs as [|seg segs IH]; intros by_parent parent d Hd Hb Hp; cbn [Folders.walk].
  { apply wp_ret. split_and!; [done|apply grows_refl|]. intros i [= ->]. by apply Hp. }
  destruct (by_parent !! (parent, seg)) as [e|] eqn:He.
  { apply IH; [done..|]. intros p [= <-]. by eapply Hb. }
  apply wp_bind, wp_fresh; [apply Hd|]. intros new d1 Hw1 Ht1. set (r := mkFolder new seg parent 0 false now_ms).
  assert (Hg1 : grows (tables d) (over_folders (insert (folder_key r) r) (tables d))) by apply grows_insert.
  apply wp_try. eapply (wp_exec _ _ _ _ () (over_folders (insert new r) (tables d))); [done| |].
  { rewrite Ht1. unfold insert_folder, change. cbn. destruct parent as [p|]; cbn; [|done].
    rewrite bool_decide_eq_true_2; [done|]. apply (grows_keeps _ _ Hg1). by apply Hp. }
  intros d2 Hw2 Ht2. assert (Hg2 : grows (tables d) (tables d2)) by by rewrite Ht2.
  eapply wp_mono; [|apply IH].
  - cbn. intros a w' (Hgr & Hg & Hi). split_and!; [done| |done]. by eapply grows_trans.
  - split; [done|]. eapply grows_trans; [apply Hd|done].
  - intros p i [[_ <-]|[_ Hi]]%lookup_insert_Some; [rewrite Ht2; cbn; rewrite lookup_insert_eq; eauto|].
    apply (grows_keeps _ _ Hg2). by eapply Hb.
  - intros p [= <-]. rewrite Ht2. cbn. rewrite lookup_insert_eq. eauto.
Qed.

Lemma known_folders_exist t p i : keyed_folders t -> Folders.known_folders (row_order (folders t)) !! p = Some i -> is_Some (folders t !! i).
Proof.
  intros Hk. unfold Folders.known_folders.
  assert (Hg : forall l (m : Folders.Known), (forall f, f ∈ l -> is_Some (folders t !! folder_key f)) ->
    (forall p i, m !! p = Some i -> is_Some (folders t !! i)) ->
    foldl (fun m f => <[(parent_id f, folder_name f) := folder_key f]> m) m l !! p = Some i -> is_Some (folders t !! i)).
  { induction l as [|f l IH]; intros m Hl Hm; cbn; [apply Hm|]. apply IH; [intros f' Hf'; apply Hl; by right|].
    intros p' i' [[_ <-]|[_ Hi]]%lookup_insert_Some; [apply Hl; left|by eapply Hm]. }
  apply Hg; [|by intros ? ? ?%lookup_empty_Some].
  intros f [k Hf]%row_order_elem. rewrite (Hk _ _ Hf). eauto.
Qed.

Lemma ensure_folder_grows path now_ms t d : keyed_folders t -> grown t d ->
  wp (Folders.ensure_folder_path path now_ms)
    (fun r d' => grown t d' /\ grows (tables d) (tables d') /\ forall i, r = inr (Some i) -> is_Some (folders (tables d') !! i)) d.
Proof.
  intros Hk Hd. unfold Folders.ensure_folder_path. destruct (String.eqb path "").
  { apply wp_ret. split_and!; [done|apply grows_refl|done]. }
  apply wp_try. eapply (wp_query _ _ _ _ (row_order (folders (tables d)))); [apply Hd|done|]. intros d1 Hw1 Ht1.
  rewrite <- Ht1. apply walk_grows; [split; [done|rewrite Ht1; apply Hd]| |done].
  intros p i Hi. rewrite Ht1 in *. eapply known_folders_exist, Hi. apply Hd, Hk.
Qed.

(** Every path the map knows is a folder. *)
Definition folders_exist (t : Tables) (paths : gmap string string) : Prop :=
  forall p i, paths !! p = Some i -> is_Some (folders t !! i).

Lemma folders_exist_grows t t' paths : grows t t' -> folders_exist t paths -> folders_exist t' paths.
Proof. intros Hg Hf p i Hi. apply Hg. by eapply Hf. Qed.

Lemma ensure_paths_grow sorted now_ms out t w : keyed_folders t -> grown t (conn w) -> folders_exist (tables (conn w)) out ->
  wp (ensure_folder_paths_sync sorted now_ms out) (fun paths w' => grown t (conn w') /\ folders_exist (tables (conn w')) paths) w.
Proof.
  intros Hk. revert out w. induction sorted as [|path sorted IH]; intros out w Hw Ho; cbn [ensure_folder_paths_sync].
  { by apply wp_ret. }
  destruct (_ || _); [by apply IH|]. apply wp_bind, wp_conn. eapply wp_mono; [|by apply ensure_folder_grows].
  cbn. intros [e|[i|]] d' (Hd' & Hg & Hi).
  - apply (IH out (mkApplying d' _)); [done|]. by eapply folders_exist_grows.
  - apply IH; [done|]. intros p j [[_ <-]|[_ Hj]]%lookup_insert_Some; [by apply Hi|]. apply Hg. by eapply Ho.
  - apply IH; [done|]. by eapply folders_exist_grows.
Qed.
End Folders.

(** ** Sessions *)
Section Frame.
Context {D : Type} `{Database D}.

(** A condition on the tables of a working database, kept by a statement that keeps it when it
    succeeds. *)
Definition on_tables (P : Tables -> Prop) (d : D) : Prop := Tables.working d /\ P (tables d).

Lemma on_tables_sql {A} (P : Tables -> Prop) (s : sql A) :
  (forall t a t', s t = Some (a, t') -> P t -> P t') -> keeps_sql (on_tables P) s.
Proof.
  intros Hs d [Hw Hp]. split; [by apply working_refuses|]. destruct (execute s d).1 as [e|a] eqn:E.
  - by rewrite (execute_failed _ _ _ _ E).
  - eapply Hs, Hp. by apply executed.
Qed.

Lemma on_tables_fill P d : on_tables P d -> on_tables P (fill_bytes d).2.
Proof. intros [Hw Hp]. split; [by apply working_asks|]. by rewrite (proj1 (fill_bytes_same d)). Qed.

Lemma on_tables_now P d : on_tables P d -> on_tables P (now_unix_ms d).2.
Proof. intros [Hw Hp]. split; [by apply working_asks|]. by rewrite (proj1 (now_same d)). Qed.

Lemma wp_sound {A} (I : D -> Prop) (p : prog D A) d : sound I p -> I d -> wp p (fun _ d' => I d') d.
Proof. intros Hp Hd. exact (proj2 (ensures_run I p _ d Hp Hd)). Qed.

Lemma wp_safe {A} (I : D -> Prop) (p : prog (Applying D) A) w : safe I p -> I (conn w) -> wp p (fun _ w' => I (conn w')) w.
Proof. intros Hp Hw. exact (proj2 (ensures_run (fun w => I (conn w)) p _ w Hp Hw)). Qed.

End Frame.

Section Upsert.
Context {D : Type} `{Database D}.
Variable r : SessionRow.
Notation id := (session_key r).

(** The two rows of a session written over what [t] has of it. *)
Definition main_of (t : Tables) : SessionMain :=
  mkMain (label r) (folder_id r) (normalise_kind (kind r)) (sort_order r) (notes r) (last_connected_at_ms r) (extras r)
    (match sessions t !! id with Some old => main_created_at (row old) | None => created_at_ms r end) (updated_at_ms r).
Definition details_of : SshDetails :=
  mkSsh (s_host r) (s_port r) (user r) (auth_type r) (password r) (key_path r) (key_data r) (key_id r)
    (passphrase r) (via_session_id r) (via_host r) (via_port r) (via_user r) (updated_at_ms r).

(** The session row is there; its details, too, when they refer to nothing missing. *)
Record upserted (t t' : Tables) : Prop := {
  up_sessions : sessions t' = <[id := mkStored (main_of t) None]> (sessions t);
  up_keys : ssh_keys t' = ssh_keys t;
  up_folders : folders t' = folders t;
  up_others k : k <> id -> ssh_details t' !! k = ssh_details t !! k;
  up_details : normalise_kind (kind r) = SESSION_KIND_SSH -> references (ssh_keys t) (key_id r) = true ->
    references (sessions t) (via_session_id r) = true -> ssh_details t' !! id = Some details_of
}.

Lemma references_insert {R} (m : gmap string R) k v o : references m o = true -> references (<[k := v]> m) o = true.
Proof. destruct o; [|done]. cbn. rewrite !bool_decide_eq_true. apply insert_present. Qed.

Lemma session_upsert_wp d : Tables.working d -> references (folders (tables d)) (folder_id r) = true ->
  wp (Sessions.upsert r) (fun _ d' => on_tables (upserted (tables d)) d') d.
Proof.
  intros Hw Hf. unfold Sessions.upsert. apply wp_try.
  eapply (wp_exec _ _ _ _ () (over_sessions (insert id (mkStored (main_of (tables d)) None)) (tables d))); [done| |].
  { unfold insert_session, change. cbn. by rewrite Hf. }
  intros d1 Hw1 Ht1. set (t := tables d) in *.
  assert (Hrest : forall P, (forall t' , P t' -> P (over_webdav_details (delete id) t')) ->
    (forall t', P t' -> P (over_s3_details (delete id) t')) ->
    sound (on_tables P) (try (if String.eqb (normalise_kind (kind r)) SESSION_KIND_WEBDAV then Ret (inr ()) else Sessions.delete_webdav_details id)
      (fun _ => try (if String.eqb (normalise_kind (kind r)) SESSION_KIND_S3 then Ret (inr ()) else Sessions.delete_s3_details id)
        (fun _ => Ret (inr ()))))).
  { intros P H1 H2. assert (keeps_sql (on_tables P) (remove_webdav_details id)) by (apply on_tables_sql; intros ? ? ? [= _ <-]; auto).
    assert (keeps_sql (on_tables P) (remove_s3_details id)) by (apply on_tables_sql; intros ? ? ? [= _ <-]; auto).
    unfold Sessions.delete_webdav_details, Sessions.delete_s3_details. walk; done. }
  set (Pbase := fun t' => sessions t' = <[id := mkStored (main_of t) None]> (sessions t) /\ ssh_keys t' = ssh_keys t /\
    folders t' = folders t /\ forall k, k <> id -> ssh_details t' !! k = ssh_details t !! k).
  apply wp_try. destruct (String.eqb_spec (normalise_kind (kind r)) SESSION_KIND_SSH) as [Hk|Hk].
  - unfold Sessions.upsert_ssh_details.
    destruct (references (ssh_keys t) (key_id r) && references (sessions t) (via_session_id r)) eqn:Hr.
    + apply andb_true_iff in Hr as [Hr1 Hr2].
      eapply (wp_exec _ _ _ _ () (over_ssh_details (insert id details_of) (tables d1))); [done| |].
      { unfold insert_ssh_details, change. rewrite Ht1. cbn. rewrite bool_decide_eq_true_2 by (rewrite lookup_insert_eq; eauto).
        by rewrite Hr1, references_insert. }
      intros d2 Hw2 Ht2. eapply wp_mono; [|apply (wp_sound (on_tables (upserted t))); [apply Hrest; by intros t' []|]]; [done|].
      split; [done|]. rewrite Ht2, Ht1. split; try done; cbn; [intros k Hne; by rewrite lookup_insert_ne|].
        intros _ _ _. by rewrite lookup_insert_eq.
    + eapply wp_mono; [|apply (wp_sound (on_tables Pbase))].
      * intros a d2 Hd2. assert (Hup : forall d', on_tables Pbase d' -> on_tables (upserted t) d').
        { intros d' [Hw' (?&?&?&?)]. split; [done|]. split; try done. intros _ Hr1 Hr2. by rewrite Hr1, Hr2 in Hr. }
        destruct a as [e|[]]; [by apply Hup|]. eapply wp_mono; [|apply (wp_sound (on_tables Pbase)); [by apply Hrest|done]].
        intros ? ? ?. by apply Hup.
      * apply sound_exec, on_tables_sql. intros t1 a t2 Hc. unfold insert_ssh_details in Hc. apply change_some in Hc as ->.
        intros (?&?&?&Ho). split_and!; [done..|]. intros k Hne. cbn. by rewrite lookup_insert_ne, Ho.
      * split; [done|]. rewrite Ht1. by split_and!.
  - eapply wp_mono; [|apply (wp_sound (on_tables Pbase))].
    + intros a d2 Hd2. assert (Hup : forall d', on_tables Pbase d' -> on_tables (upserted t) d').
      { intros d' [Hw' (?&?&?&?)]. split; [done|]. by split. }
      destruct a as [e|[]]; [by apply Hup|]. eapply wp_mono; [|apply (wp_sound (on_tables Pbase)); [by apply Hrest|done]].
      intros ? ? ?. by apply Hup.
    + unfold Sessions.delete_ssh_details. apply sound_try; [|done]. apply sound_exec, on_tables_sql. intros t1 a t2 [= _ <-].
      intros (?&?&?&Ho). split_and!; [done..|]. intros k Hne. cbn. by rewrite lookup_delete_ne, Ho.
    + split; [done|]. rewrite Ht1. by split_and!.
Qed.
End Upsert.

Lemma normalise_twice k : normalise_kind (normalise_kind k) = normalise_kind k.
Proof. unfold normalise_kind. destruct (String.eqb_spec k ""); [done|]. by destruct (String.eqb_spec k ""). Qed.

Section Sessions.
Context `{SerdeText} {D : Type} `{Database D}.
Variable t1 : Tables.
Variable apaths bpaths : gmap string string.
Hypothesis Hpaths : folders_exist t1 bpaths.
Variable now_ms : Z.
Variable rows : list (stored SessionRow).
Hypothesis Hdistinct : NoDup ((fun s => session_key (row s)) <$> rows).

Definition session_value (s : stored SessionRow) : json := session_row_to_json (row s) apaths (deleted_at s).

Definition wins_session (r : SessionRow) : Prop :=
  forall l, live_sessions t1 !! session_key r = Some l -> updated_at_ms l < updated_at_ms r.

(** What the SSH columns refer to is here, or comes with the snapshot before the row. *)
Definition anchored (r : SessionRow) : Prop :=
  (forall k, key_id r = Some k -> is_Some (ssh_keys t1 !! k)) /\
  (forall v, via_session_id r = Some v -> is_Some (sessions t1 !! v) \/
     exists pre post via, rows = pre ++ mkStored r None :: post /\ mkStored via None ∈ pre /\ session_key via = v).

Definition since (created : Z) (r : SessionRow) : SessionRow :=
  {| session_key := session_key r; label := label r; folder_id := folder_id r; kind := kind r;
     s_host := s_host r; s_port := s_port r; user := user r; auth_type := auth_type r; password := password r;
     key_path := key_path r; key_data := key_data r; key_id := key_id r; passphrase := passphrase r;
     sort_order := sort_order r; notes := notes r; last_connected_at_ms := last_connected_at_ms r; extras := extras r;
     via_session_id := via_session_id r; via_host := via_host r; via_port := via_port r; via_user := via_user r;
     created_at_ms := created; updated_at_ms := updated_at_ms r |}.

(** The copy of a peer's session: its travelling columns, in the folder of the same path, created
    when a row of this id was first created here. *)
Definition copy_of (r : SessionRow) : SessionRow :=
  since (match sessions t1 !! session_key r with Some old => main_created_at (row old) | None => created_at_ms r end)
    (travelling_session r (nonempty_at (session_row_to_json r apaths None) "folder" ≫= fun p => bpaths !! p)).

Record SessionsDone (pre : list (stored SessionRow)) (d : D) : Prop := {
  done_working : Tables.working d;
  done_keys : ssh_keys (tables d) = ssh_keys t1;
  done_folders : folders (tables d) = folders t1;
  done_stay k : is_Some (sessions t1 !! k) -> is_Some (sessions (tables d) !! k);
  done_untouched k : k ∉ (fun s => session_key (row s)) <$> pre -> sessions (tables d) !! k = sessions t1 !! k;
  done_present r : mkStored r None ∈ pre -> session_key r <> ""%string -> is_Some (sessions (tables d) !! session_key r);
  done_delivered r : mkStored r None ∈ pre -> session_key r <> ""%string -> portable_session r -> wins_session r -> anchored r ->
    normalise_kind (kind r) = SESSION_KIND_SSH -> live_sessions (tables d) !! session_key r = Some (copy_of r)
}.

Lemma live_sessions_same t t' k : sessions t' !! k = sessions t !! k -> ssh_details t' !! k = ssh_details t !! k ->
  live_sessions t' !! k = live_sessions t !! k.
Proof. intros Hs Hj. unfold live_sessions. by rewrite !map_lookup_imap, Hs, Hj. Qed.

(** A change of one session. *)
Lemma sessions_step pre (a : stored SessionRow) d d' :
  SessionsDone pre d -> Tables.working d' -> ssh_keys (tables d') = ssh_keys (tables d) -> folders (tables d') = folders (tables d) ->
  session_key (row a) ∉ (fun s => session_key (row s)) <$> pre ->
  (forall k, k <> session_key (row a) ->
     sessions (tables d') !! k = sessions (tables d) !! k /\ ssh_details (tables d') !! k = ssh_details (tables d) !! k) ->
  (is_Some (sessions (tables d) !! session_key (row a)) -> is_Some (sessions (tables d') !! session_key (row a))) ->
  (deleted_at a = None -> session_key (row a) <> ""%string -> is_Some (sessions (tables d') !! session_key (row a))) ->
  (deleted_at a = None -> session_key (row a) <> ""%string -> portable_session (row a) -> wins_session (row a) -> anchored (row a) ->
     normalise_kind (kind (row a)) = SESSION_KIND_SSH ->
     live_sessions (tables d') !! session_key (row a) = Some (copy_of (row a))) ->
  SessionsDone (pre ++ [a]) d'.
Proof.
  intros [Hw Hkk Hff Hst Hu Hp Hd] Hw' Hk' Hf' Hn Ho Hs Hpa Hda.
  assert (Hin : forall r, mkStored r None ∈ pre -> session_key r <> session_key (row a)).
  { intros r Hr He. apply Hn. rewrite <- He. apply list_elem_of_fmap. by exists (mkStored r None). }
  split; [done|congruence|congruence|..].
  - intros k Hk%Hst. destruct (decide (k = session_key (row a))) as [->|Hne]; [auto|by rewrite (proj1 (Ho _ Hne))].
  - intros k. rewrite fmap_app, not_elem_of_app. intros [Hk1 Hk2]. rewrite (proj1 (Ho k (fun He => Hk2 ltac:(rewrite He; left)))). auto.
  - intros r [Hr|He%list_elem_of_singleton]%elem_of_app Hne; [rewrite (proj1 (Ho _ (Hin _ Hr))); auto|].
    subst a. by apply Hpa.
  - intros r [Hr|He%list_elem_of_singleton]%elem_of_app Hne Hpo Hwi Han Hki.
    + destruct (Ho _ (Hin _ Hr)). erewrite live_sessions_same by done. auto.
    + subst a. by apply Hda.
Qed.

Lemma session_tombstone_step pre a ts d :
  SessionsDone pre d -> deleted_at a <> None -> session_key (row a) ∉ (fun s => session_key (row s)) <$> pre ->
  wp (Sessions.apply_tombstone (session_key (row a)) ts) (fun _ d' => SessionsDone (pre ++ [a]) d') d.
Proof.
  intros Hd Ha Hn. unfold Sessions.apply_tombstone. set (f := bury main_updated_at stamp_main ts).
  set (id := session_key (row a)) in *.
  eapply (wp_exec _ _ _ _ (update_row f id (sessions (tables d))).1
    (over_sessions (fun _ => (update_row f id (sessions (tables d))).2) (tables d))); [apply Hd| |].
  { unfold tombstone_session. fold f. by destruct (update_row f id _). }
  intros d' Hw' Ht. eapply sessions_step; [done..| | | | | | |]; rewrite ?Ht; try done.
  - intros k Hk. split; [by apply update_row_other|done].
  - apply update_row_present.
Qed.

Lemma copy_read_back r : portable_session r ->
  forall old, session_of (session_key r)
    (main_of (build_session_row (session_row_to_json r apaths None) Sync bpaths (session_key r) (updated_at_ms r) now_ms) old)
    (Some (details_of (build_session_row (session_row_to_json r apaths None) Sync bpaths (session_key r) (updated_at_ms r) now_ms)))
  = since (match sessions old !! session_key r with Some o => main_created_at (row o) | None => created_at_ms r end)
      (travelling_session r (nonempty_at (session_row_to_json r apaths None) "folder" ≫= fun p => bpaths !! p)).
Proof.
  intros Hp old. rewrite session_reads_back by done. unfold session_of, main_of, details_of, since, travelling_session. cbn.
  f_equal. apply normalise_twice.
Qed.

(** The references of an anchored row hold when its turn comes. *)
Lemma anchored_holds pre r post d : rows = pre ++ mkStored r None :: post -> SessionsDone pre d ->
  portable_session r -> anchored r ->
  references (ssh_keys (tables d)) (key_id r) = true /\ references (sessions (tables d)) (via_session_id r) = true.
Proof.
  intros Hrows Hd Hpo [Hak Hav]. destruct Hd as [_ Hk _ Hst _ Hp _]. split.
  - rewrite Hk. destruct (key_id r) as [k|]; [|done]. by apply bool_decide_eq_true, Hak.
  - destruct (via_session_id r) as [v|] eqn:Hv; [|done]. apply bool_decide_eq_true.
    destruct (Hav v eq_refl) as [Hb|(pre' & post' & via & Hrows' & Hin & <-)]; [by apply Hst|].
    assert (Heq : pre' = pre).
    { rewrite Hrows in Hrows', Hdistinct. rewrite fmap_app, fmap_cons in Hdistinct.
      apply (f_equal (fmap (fun s => session_key (row s)))) in Hrows' as Hids. rewrite !fmap_app, !fmap_cons in Hids.
      apply NoDup_app in Hdistinct as (_ & Hni & Hnd). apply NoDup_cons in Hnd as [Hni2 _].
      clear -Hrows' Hni Hni2. revert pre' Hrows'. induction pre as [|x pre IH]; intros [|x' pre'] Hrows'; cbn in *; try done.
      - injection Hrows' as _ ->. exfalso. apply Hni2. rewrite fmap_app. apply elem_of_app. right. left.
      - injection Hrows' as -> _. exfalso. apply (Hni (session_key r)); [left|left].
      - injection Hrows' as -> Hrows'. f_equal. apply IH; [|done]. intros y Hy. apply Hni. by right. }
    subst pre'. apply Hp; [done|]. intros He. apply (session_via _ Hpo). by rewrite Hv, He.
Qed.

Lemma session_upsert_step pre r post d peer_ts : rows = pre ++ mkStored r None :: post ->
  SessionsDone pre d -> session_key r ∉ (fun s => session_key (row s)) <$> pre ->
  (portable_session r -> peer_ts = updated_at_ms r) ->
  wp (Sessions.upsert (build_session_row (session_row_to_json r apaths None) Sync bpaths (session_key r) peer_ts now_ms))
    (fun _ d' => SessionsDone (pre ++ [mkStored r None]) d') d.
Proof.
  intros Hrows Hd Hn Hts. set (b := build_session_row _ _ _ _ _ _).
  assert (Hb : session_key b = session_key r) by done.
  eapply wp_mono; [|apply (session_upsert_wp b); [apply Hd|]].
  - intros _ d' [Hw' [Hs' Hk' Hf' Ho' Hd']]. rewrite Hb in *.
    eapply (sessions_step pre (mkStored r None) d); cbn [row deleted_at]; try done.
    + intros k Hk. split; [by rewrite Hs', lookup_insert_ne|by apply Ho'].
    + rewrite Hs', lookup_insert_eq. eauto.
    + rewrite Hs', lookup_insert_eq. eauto.
    + intros _ Hne Hpo _ Han Hki. apply live_session_stored. exists (main_of b (tables d)).
      rewrite Hs', lookup_insert_eq. split; [done|].
      destruct (anchored_holds _ _ _ _ Hrows Hd Hpo Han) as [Hrk Hrv].
      assert (Heq : b = travelling_session r (nonempty_at (session_row_to_json r apaths None) "folder" ≫= fun p => bpaths !! p))
        by (unfold b; rewrite (Hts Hpo); by apply session_reads_back).
      rewrite Hd'; [|by rewrite Heq; cbn; rewrite normalise_twice|by rewrite Heq|by rewrite Heq].
      unfold b. rewrite (Hts Hpo), copy_read_back by done. unfold copy_of. by rewrite (done_untouched _ _ Hd).
  - unfold b, build_session_row. cbn [folder_id]. rewrite (done_folders _ _ Hd).
    destruct (nonempty_at (session_row_to_json r apaths None) "folder") as [p|]; [|done]. cbn [mbind option_bind].
    destruct (bpaths !! p) as [i|] eqn:Hi; [|done]. apply bool_decide_eq_true. by eapply Hpaths.
Qed.

Lemma sessions_start d : Tables.working d -> tables d = t1 -> SessionsDone [] d.
Proof. intros Hw Ht. split; rewrite ?Ht; try done; intros ? Hr; by apply elem_of_nil in Hr. Qed.

Lemma sessions_loop w : SessionsDone [] (conn w) ->
  leaves (each (session_value <$> rows) (apply_one_session Sync bpaths (by_id session_key (row_order (live_sessions t1))) now_ms))
    (SessionsDone rows) w.
Proof.
  intros Hw. rewrite each_fmap. apply leaves_each; [|done]. clear w Hw. intros pre a post w Hrows Hw.
  assert (Hn : session_key (row a) ∉ (fun s => session_key (row s)) <$> pre).
  { rewrite Hrows, fmap_app, fmap_cons in Hdistinct. apply NoDup_app in Hdistinct as (_ & Hnd & _). intros Hin. apply (Hnd _ Hin). left. }
  unfold apply_one_session, session_value. destruct (session_fields (row a) apaths (deleted_at a)) as [-> ->].
  assert (Hskip : (session_key (row a) <> ""%string -> deleted_at a = None /\ exists l, live_sessions t1 !! session_key (row a) = Some l /\
       (portable_session (row a) -> updated_at_ms (row a) <= updated_at_ms l)) -> leaves (Ret ()) (SessionsDone (pre ++ [a])) w).
  { intros Hs. apply wp_ret. eapply (sessions_step pre a _ _ Hw); try done; try apply Hw.
    - intros _ Hne. destruct (Hs Hne) as (_ & l & Hl & _). apply live_session_stored in Hl as (m & Hm & _).
      apply (done_stay _ _ Hw). eauto.
    - intros _ Hne Hpo Hwin. destruct (Hs Hne) as (_ & l & Hl & Hle). specialize (Hwin _ Hl). specialize (Hle Hpo). lia. }
  destruct (String.eqb_spec (session_key (row a)) "") as [Hz|Hne]; [by apply Hskip|].
  rewrite (by_id_row_order session_key) by (intros k l (m & _ & ->)%live_session_stored; done).
  destruct a as [r [ts|]]; cbn [row deleted_at] in *.
  - rewrite bool_decide_eq_true_2 by eauto. cbn [is_sync when]. apply leaves_tally.
    by apply (session_tombstone_step pre (mkStored r (Some ts))).
  - rewrite bool_decide_eq_false_2 by (by intros [? ?]). cbn [is_sync andb]. cbv zeta.
    assert (Hts : portable_session r -> default 0 (peer_stamp (session_row_to_json r apaths None) "updated_at") = updated_at_ms r)
      by (intros Hp; rewrite session_peer_stamp by apply Hp; done).
    unfold lww_peer_loses. destruct (live_sessions t1 !! session_key r) as [l|] eqn:Hl; cbn [fmap option_fmap option_map].
    + destruct (Z.leb_spec (default 0 (peer_stamp (session_row_to_json r apaths None) "updated_at")) (updated_at_ms l)) as [Hle|Hgt].
      * apply Hskip. intros _. split; [done|]. exists l. split; [done|]. intros Hp. by rewrite <- Hts.
      * apply leaves_tally. by eapply session_upsert_step.
    + apply leaves_tally. by eapply session_upsert_step.
Qed.
End Sessions.

(** ** The rest of a merge *)

(** Keys and sessions as they are, and every folder there is. *)
Definition settled (t0 t : Tables) : Prop :=
  ssh_keys t = ssh_keys t0 /\ sessions t = sessions t0 /\ ssh_details t = ssh_details t0 /\
  forall k, is_Some (folders t0 !! k) -> is_Some (folders t !! k).

Ltac framed :=
  apply on_tables_sql; intros ? ? ? Hf Hp;
  cbv [insert_tag insert_session_tag insert_folder_tag insert_snippet insert_session_snippet insert_certificate insert_webdav insert_s3
       insert_bookmark insert_rule tombstone_tag tombstone_snippet tombstone_webdav tombstone_s3 tombstone_bookmark tombstone_rule] in Hf;
  first [apply change_some in Hf as ->; exact Hp | (destruct (update_row _ _ _); injection Hf as _ <-; exact Hp) | injection Hf as _ <-; exact Hp].

Section Rest.
Context `{SerdeText} {D : Type} `{Database D}.
Variable decode : chars -> string + list Z.
Variable parse_error : string -> string.
Variable t0 : Tables.
Notation I := (on_tables (settled t0)).

Lemma settles_folder r : keeps_sql I (insert_folder r).
Proof.
  apply on_tables_sql. intros t a t' Hf (Hk & Hs & Hd & Hff). unfold insert_folder in Hf. apply change_some in Hf as ->.
  split_and!; [done..|]. intros k Hk'. apply insert_present. auto.
Qed.

Lemma settles_known_hosts {A} (s : statement A) : keeps_sql I (known_hosts_sql s).
Proof. apply on_tables_sql. intros t a t'. destruct s; cbn; try destruct (_ !! _); intros; simplify_eq; done. Qed.

Lemma settles_tags pending map now_ms : safe I (apply_tags_phase parse_error pending Sync (from_options None) map now_ms).
Proof.
  unfold apply_tags_phase, apply_tags, apply_one_tag, apply_session_tags, apply_folder_tags. walk; framed.
Qed.

Lemma settles_snippets pending now_ms : safe I (apply_snippets_phase parse_error pending Sync (from_options None) now_ms).
Proof. unfold apply_snippets_phase, apply_snippets, apply_one_snippet, apply_session_snippets. walk; framed. Qed.

Lemma settles_hosts text now_ms : safe I (apply_known_hosts decode text now_ms).
Proof. unfold apply_known_hosts, apply_known_host_line. walk. apply settles_known_hosts. Qed.

Lemma settles_children pending now_ms : safe I (apply_child_tables parse_error pending Sync true true now_ms).
Proof.
  unfold apply_child_tables, apply_ssh_key_certificates, apply_one_certificate, apply_webdav_session_details, apply_one_webdav_session_detail,
    apply_s3_session_details, apply_one_s3_session_detail, apply_sftp_bookmarks, apply_one_sftp_bookmark, apply_port_forward_rules,
    apply_one_port_forward_rule.
  walk; try framed; apply on_tables_now.
Qed.

Lemma settles_empty_folders json map now_ms : safe I (apply_empty_folders parse_error json map now_ms).
Proof. apply safe_empty_folders; [apply on_tables_fill|apply settles_folder]. Qed.

End Rest.

(** ** The whole merge *)
Section Whole.
Context `{SerdeText} {D : Type} `{Database D}.
Variable decode : chars -> string + list Z.
Variable sha256 : list Z -> list Z.
Variable parse_error : string -> string.
Variable pending : PendingImport.
Variable now_ms : Z.
(** The peer's folder paths, sessions and keys, and the tables before the merge. *)
Variable apaths : gmap string string.
Variable srows : list (stored SessionRow).
Variable krows : list (stored SshKeyRow).
Variable tb : Tables.

(** The snapshot lists these sessions and keys, under distinct ids. *)
Record lists_rows : Prop := {
  lists_sessions : sessions_json pending ≫= values_of = Some (session_value apaths <$> srows);
  lists_keys : (keys_json pending = None /\ krows = []) \/ keys_json pending ≫= values_of = Some (key_value <$> krows);
  distinct_sessions : NoDup ((fun s => session_key (row s)) <$> srows);
  distinct_keys : NoDup ((fun s => key_key (row s)) <$> krows)
}.

(** What the SSH columns of a session refer to: a key that is here or comes along alive, and a
    jump host that is here or is listed before it, alive. *)
Definition anchors_travel (r : SessionRow) : Prop :=
  (forall k, key_id r = Some k -> is_Some (ssh_keys tb !! k) \/ exists key, mkStored key None ∈ krows /\ key_key key = k) /\
  (forall v, via_session_id r = Some v -> is_Some (sessions tb !! v) \/
     exists pre post via, srows = pre ++ mkStored r None :: post /\ mkStored via None ∈ pre /\ session_key via = v).

Definition here_since (r : SessionRow) : Z :=
  match sessions tb !! session_key r with Some old => main_created_at (row old) | None => created_at_ms r end.

(** The newer keys and SSH sessions of the snapshot are here, with their travelling columns. *)
Record delivered (t : Tables) : Prop := {
  keys_arrive k : mkStored k None ∈ krows -> key_key k <> ""%string -> portable_key k ->
    (forall l, live_rows (ssh_keys tb) !! key_key k = Some l -> key_created_at_ms l < key_created_at_ms k) ->
    live_rows (ssh_keys t) !! key_key k = Some (travelling_key k);
  sessions_arrive r : mkStored r None ∈ srows -> session_key r <> ""%string -> portable_session r ->
    (forall l, live_sessions tb !! session_key r = Some l -> updated_at_ms l < updated_at_ms r) ->
    anchors_travel r -> normalise_kind (kind r) = SESSION_KIND_SSH ->
    exists folder, live_sessions t !! session_key r = Some (since (here_since r) (travelling_session r folder)) /\
      forall f, folder = Some f -> is_Some (folders t !! f)
}.

Hypothesis Hrows : lists_rows.
Hypothesis Hkeyed : forall k s, ssh_keys tb !! k = Some s -> key_key (row s) = k.
Hypothesis Hfolders : keyed_folders tb.

Lemma keys_phase w : Tables.working (conn w) -> tables (conn w) = tb ->
  wp (if_present (keys_json pending) (fun json => apply_keys sha256 parse_error json Sync now_ms)) (fun _ w' => KeysDone tb krows (conn w')) w.
Proof.
  intros Hw Ht. assert (Hstart : forall d, Tables.working d -> tables d = tb -> KeysDone tb [] d).
  { intros d Hd Htd. split; rewrite ?Htd; try done; [exists (ssh_keys tb); by destruct tb|..]; intros ? Hr; by apply elem_of_nil in Hr. }
  destruct (lists_keys Hrows) as [[-> ->]|Hj]; [by apply wp_ret, Hstart|].
  destruct (keys_json pending) as [json|]; [|done]. cbn in Hj |- *. unfold apply_keys, parsed. rewrite Hj. cbn [is_sync].
  apply (leaves_listed SshKeys.list_all _ _ (KeysDone tb krows)).
  eapply (wp_query_as _ _ _ _ _ _ (row_order (live_rows (ssh_keys tb)))); [done|by rewrite Ht|].
  intros d' Hd' Ht'. eexists. split; [done|]. rewrite Ht in Ht'. apply keys_loop; [exact Hkeyed|apply Hrows|by apply Hstart].
Qed.

Lemma delivered_settled t t' : delivered t -> settled t t' -> delivered t'.
Proof.
  intros [Hk Hs] (Ek & Es & Ed & Ef). split.
  - intros k. rewrite Ek. apply Hk.
  - intros r Hin Hne Hpo Hwin Han Hki. destruct (Hs r Hin Hne Hpo Hwin Han Hki) as (f & Hl & Hf). exists f.
    split; [|auto]. rewrite <- Hl. apply live_sessions_same; congruence.
Qed.

(** What the two loops promise, put together. *)
Lemma loops_deliver bpaths t1 d1 d2 : KeysDone tb krows d1 -> grows (tables d1) t1 -> folders_exist t1 bpaths ->
  SessionsDone t1 apaths bpaths srows srows d2 -> delivered (tables d2).
Proof.
  intros [_ [m Hr] Hst _ Hp Hd] [[fm ->] _ _] Hfe Hw2. rewrite Hr in *. cbn in Hst, Hp, Hd. split.
  - intros k Hk Hne Hpo Hwin. apply live_row_stored. rewrite (done_keys _ _ _ _ _ _ Hw2). by apply Hd.
  - intros r Hin Hne Hpo Hwin [Hak Hav] Hki. eexists. split.
    + rewrite (done_delivered _ _ _ _ _ _ Hw2 r); [by unfold copy_of|done..| |done].
      split; [|done]. intros k Hk. destruct (Hak k Hk) as [Hb|(key & Hkey & <-)]; [by apply Hst|].
      apply Hp; [done|]. intros He. apply (session_key_id _ Hpo). by rewrite Hk, He.
    + intros f Hf. rewrite (done_folders _ _ _ _ _ _ Hw2).
      destruct (nonempty_at (session_row_to_json r apaths None) "folder") as [p|]; [|done]. by eapply Hfe.
Qed.

Lemma sessions_phase w : KeysDone tb krows (conn w) ->
  wp (apply_sessions_phase parse_error pending Sync true now_ms) (fun _ w' => on_tables delivered (conn w')) w.
Proof.
  intros Hk. assert (Hr := keys_rest _ _ _ Hk). destruct Hr as [m Hr]. unfold apply_sessions_phase. cbn [negb].
  assert (Hls := lists_sessions Hrows). destruct (sessions_json pending) as [json|]; [|done]. cbn in Hls.
  apply wp_bind, wp_bind. unfold apply_folder_tree. rewrite Hls. cbn [is_sync].
  eapply wp_mono; [|apply (ensure_paths_grow _ _ _ (tables (conn w)))];
    [|by rewrite Hr|split; [apply Hk|apply grows_refl]|by intros ? ? ?%lookup_empty_Some].
  cbn. intros bpaths w1 [[Hw1 Hg] Hfe]. apply wp_bind. unfold apply_sessions, parsed. rewrite Hls. cbn [local_snapshot is_sync].
  eapply wp_mono; [|apply (leaves_listed Sessions.list_all _ _ (SessionsDone (tables (conn w1)) apaths bpaths srows srows))].
  2:{ eapply (wp_query _ _ _ _ (row_order (live_sessions (tables (conn w1))))); [done..|]. intros d' Hd' Ht'. eexists. split; [done|].
      apply sessions_loop; [done|apply Hrows|]. by apply sessions_start. }
  intros [] w2 Hw2. apply wp_ret. assert (Hdel := loops_deliver _ _ _ _ Hk Hg Hfe Hw2).
  destruct (empty_folders_json pending) as [ejson|]; [|apply wp_ret; split; [apply Hw2|done]].
  eapply wp_mono; [|apply (wp_safe (on_tables (settled (tables (conn w2))))); [apply settles_empty_folders|split; [apply Hw2|by split_and!]]].
  cbn. intros _ w3 [Hw3 Hs3]. split; [done|]. by eapply delivered_settled.
Qed.

(** A phase that touches neither keys nor sessions. *)
Lemma phase_settles (p : prog (Applying D) unit) w : (forall t, safe (on_tables (settled t)) p) -> on_tables delivered (conn w) ->
  wp p (fun _ w' => on_tables delivered (conn w')) w.
Proof.
  intros Hp [Hw Hd]. eapply wp_mono; [|apply (wp_safe (on_tables (settled (tables (conn w))))); [apply Hp|split; [done|by split_and!]]].
  cbn. intros _ w' [Hw' Hs]. split; [done|]. by eapply delivered_settled.
Qed.

Lemma merge_body w : Tables.working (conn w) -> tables (conn w) = tb ->
  wp (run_apply decode sha256 parse_error pending Sync None now_ms) (fun _ w' => on_tables delivered (conn w')) w.
Proof.
  intros Hw Ht. unfold run_apply. apply wp_bind. cbn [from_options want_keys when].
  eapply wp_mono; [|by apply keys_phase]. cbn. intros [] w1 Hw1.
  apply wp_bind. cbn [want_sessions]. eapply wp_mono; [|by apply sessions_phase]. cbn. intros map w2 Hw2.
  apply wp_bind. eapply wp_mono; [|apply phase_settles; [intros t; apply settles_tags|exact Hw2]]. cbn. intros [] w3 Hw3.
  apply wp_bind. eapply wp_mono; [|apply phase_settles; [intros t; apply settles_snippets|exact Hw3]]. cbn. intros [] w4 Hw4.
  apply wp_bind. eapply wp_mono; [|apply phase_settles; [|exact Hw4]].
  - cbn. intros [] w5 Hw5. apply phase_settles; [intros t; apply settles_children|exact Hw5].
  - intros t. cbn [want_known_hosts when]. apply safe_if_present. intros text _. apply settles_hosts.
Qed.

(** Begun, run and committed. *)
Lemma merge_delivers options w : Tables.working (conn w) -> tables (conn w) = tb ->
  wp (apply_pending_to_db decode sha256 parse_error pending Sync options now_ms)
    (fun r w' => r = inr () /\ on_tables delivered (conn w') /\ saved (conn w') = None) w.
Proof.
  intros Hw Ht. unfold apply_pending_to_db. apply wp_bind. unfold wp at 1. rewrite run_in_tx.
  destruct (working_begins _ Hw) as [Hb Hwb]. rewrite Hb. cbn [fst snd]. apply wp_bind.
  eapply wp_mono; [|apply merge_body; [exact Hwb|]].
  - intros [] w' [Hw' Hd]. unfold wp. rewrite run_in_tx. destruct (working_commits _ Hw') as [Hc Hwc]. rewrite Hc. cbn [fst snd conn].
    destruct (committed _ Hc) as [Htc Hsc]. split; [done|]. split; [|done]. split; [done|]. by rewrite Htc.
  - cbn. rewrite (proj1 (begun _ Hb)). done.
Qed.
End Whole.
