(* ===== verification/Snapshot.v ===== *)
(** * What a snapshot holds

    The composer's side of a synchronisation: whatever the database answers, a snapshot that was
    written and opened again lists every session and every key of the tables it was composed
    from, tombstones included. *)
From Stdlib Require Import ZArith Lia.
From stdpp Require Import prelude gmap strings list sorting.
From S2P Require Import Prelude Text Json Bus PromptRegistry Prog Crypto Envelope KnownHosts Iso8601 Tables Dao Apply ApplyLaws Lfs Compose ComposeLaws MergeDelivers.

Open Scope Z_scope.

(** ** Programs that only read *)
Section Reads.
Context {D : Type} `{Database D}.
Variable t : Tables.

(** Run on the tables [t], the program leaves them and its result, if any, satisfies [P]. *)
Definition yields {A} (p : prog D (Error + A)) (P : A -> Prop) : Prop :=
  forall d, tables d = t -> wp p (fun r d' => tables d' = t /\ forall a, r = inr a -> P a) d.

Lemma yields_mono {A} (p : prog D (Error + A)) (P Q : A -> Prop) : (forall a, P a -> Q a) -> yields p P -> yields p Q.
Proof. intros Hpq Hp d Hd. eapply wp_mono; [|by apply Hp]. intros r d' [Ht Hr]. split; [done|auto]. Qed.

Lemma yields_try {A B} (p : prog D (Error + A)) (q : A -> prog D (Error + B)) P Q :
  yields p P -> (forall a, P a -> yields (q a) Q) -> yields (try p q) Q.
Proof.
  intros Hp Hq d Hd. apply wp_try. eapply wp_mono; [|by apply Hp]. intros [e|a] d' [Ht Ha]; [by split|]. apply Hq; auto.
Qed.

Lemma yields_ret {A} (r : Error + A) (P : A -> Prop) : (forall a, r = inr a -> P a) -> yields (Ret r) P.
Proof. intros Hr d Hd. by apply wp_ret. Qed.

Lemma yields_query_as {A} a b c (s : sql A) (x : A) (P : A -> Prop) : s t = Some (x, t) -> P x -> yields (query_as a b c s) P.
Proof.
  intros Hs Hx d Hd. apply wp_bind, wp_call, wp_ret. destruct (execute s d).1 as [f|y] eqn:E.
  - by rewrite (execute_failed _ _ _ _ E).
  - apply executed in E. rewrite Hd, Hs in E. injection E as -> <-. split; [done|]. by intros ? [= <-].
Qed.

Lemma yields_query {A} l (s : sql A) (x : A) (P : A -> Prop) : s t = Some (x, t) -> P x -> yields (query l s) P.
Proof. intros Hs Hx. by eapply yields_query_as. Qed.

Lemma yields_if {A} (b : bool) (p q : prog D (Error + A)) P : yields p P -> yields q P -> yields (if b then p else q) P.
Proof. by destruct b. Qed.

Lemma yields_gather {A} (l : list A) f : (forall a, yields (f a) (fun _ => True)) -> yields (gather l f) (fun _ => True).
Proof.
  intros Hf. induction l as [|a l IH]; [by apply yields_ret|]. cbn [gather].
  eapply yields_try; [apply Hf|]. intros x _. eapply yields_try; [apply IH|]. intros y _. by apply yields_ret.
Qed.

Lemma yields_known_hosts : yields build_known_hosts (fun _ => True).
Proof.
  unfold build_known_hosts. apply (yields_try _ _ (fun _ => True)); [|intros rows _; by apply yields_ret].
  intros d Hd. apply wp_call. split; [|done]. unfold KnownHosts.list_all, KnownHosts.execute, database_sqlite.
  destruct (execute (known_hosts_sql SelectAll) d) as [r d'] eqn:E. cbn. destruct r as [f|y].
  - assert (Hf := execute_failed _ (known_hosts_sql SelectAll) d f). rewrite E in Hf. rewrite <- Hd. by apply Hf.
  - assert (Hf := executed _ (known_hosts_sql SelectAll) d y). rewrite E in Hf. specialize (Hf eq_refl). cbn in Hf. congruence.
Qed.

End Reads.

(** Every composed listing only reads. *)
Ltac reads :=
  repeat lazymatch goal with
  | |- yields _ (try _ _) _ => apply (yields_try _ _ _ (fun _ => True)); [|intros ? _]
  | |- yields _ (Ret _) _ => apply yields_ret; done
  | |- yields _ (query _ _) _ => eapply yields_query; done
  | |- yields _ (query_as _ _ _ _) _ => eapply yields_query_as; done
  | |- yields _ (gather _ _) _ => apply yields_gather; intros ?
  | |- yields _ build_known_hosts _ => apply yields_known_hosts
  | |- yields _ (match ?x with _ => _ end) _ => destruct x
  end.

Section Listings.
Context `{SerdeText} {D : Type} `{Database D} `{Zip}.
Variable t : Tables.
Notation any := (fun _ => True).

Ltac listing :=
  cbv [build_folder_paths Folders.list_all Tags.list_all Tags.list_all_with_tombstones Tags.list_session_tag_ids Tags.list_folder_tag_ids
       Snippets.list_all Snippets.list_all_with_tombstones Snippets.list_session_snippet_ids WebDavSessions.list_all
       WebDavSessions.list_all_with_tombstones S3Sessions.list_all S3Sessions.list_all_with_tombstones Bookmarks.list_all
       Bookmarks.list_all_with_tombstones PortForwards.list_all PortForwards.list_all_with_tombstones Certificates.list_all
       Sessions.list_all keyed_rows used_key_ids];
  reads.

Lemma reads_folder_paths : yields t build_folder_paths any. Proof. listing. Qed.
Lemma reads_tags sync : yields t (build_tags_value sync) any. Proof. unfold build_tags_value. listing. Qed.
Lemma reads_session_tags ids : yields t (build_session_tags_value ids) any. Proof. unfold build_session_tags_value. listing. Qed.
Lemma reads_folder_tags : yields t build_folder_tags_value any. Proof. unfold build_folder_tags_value. listing. Qed.
Lemma reads_snippets sync : yields t (build_snippets_value sync) any. Proof. unfold build_snippets_value. listing. Qed.
Lemma reads_session_snippets ids : yields t (build_session_snippets_value ids) any. Proof. unfold build_session_snippets_value. listing. Qed.
Lemma reads_certificates ids all : yields t (build_ssh_key_certificates_value ids all) any. Proof. unfold build_ssh_key_certificates_value. listing. Qed.
Lemma reads_webdav ids sync : yields t (build_webdav_session_details_value ids sync) any. Proof. unfold build_webdav_session_details_value. listing. Qed.
Lemma reads_s3 ids sync : yields t (build_s3_session_details_value ids sync) any. Proof. unfold build_s3_session_details_value. listing. Qed.
Lemma reads_bookmarks ids sync : yields t (build_sftp_bookmarks_value ids sync) any. Proof. unfold build_sftp_bookmarks_value. listing. Qed.
Lemma reads_rules ids sync : yields t (build_port_forward_rules_value ids sync) any. Proof. unfold build_port_forward_rules_value. listing. Qed.

(** ** What is listed *)

Lemma composed_sessions ids paths : (forall k, is_Some (sessions t !! k) -> k ∈ ids) ->
  yields t (build_sessions_value ids paths true) (fun v => v = JArray (session_value paths <$> row_order (all_sessions t))).
Proof.
  intros Hids. unfold build_sessions_value, keyed_rows, Sessions.list_all_with_tombstones.
  eapply yields_try.
  - eapply yields_try; [by eapply (yields_query _ _ _ _ (fun rows => rows = row_order (all_sessions t)))|].
    intros ? ->. eapply (yields_ret _ _ (fun rows => rows = _)). by intros ? [= <-].
  - intros ? ->. apply yields_ret. intros ? [= <-]. f_equal.
    assert (Hall : Forall (fun s => session_key (row s) ∈ ids) (row_order (all_sessions t))).
    { apply Forall_forall. intros s [k Hs]%row_order_elem. unfold all_sessions in Hs. rewrite map_lookup_imap in Hs.
      destruct (sessions t !! k) as [m|] eqn:Hm; [|done]. injection Hs as <-. apply Hids. eauto. }
    induction Hall as [|s l Hs _ IH]; [done|].
    rewrite fmap_cons, filter_cons_True by (unfold wanted; by rewrite bool_decide_eq_true_2). by rewrite fmap_cons, IH.
Qed.

Lemma composed_keys ids : yields t (build_manager_keys_value ids true true) (fun v =>
  (v = None /\ row_order (ssh_keys t) = []) \/ v = Some (JArray (key_value <$> row_order (ssh_keys t)))).
Proof.
  unfold build_manager_keys_value, keyed_rows, SshKeys.list_all_with_tombstones.
  eapply yields_try.
  - eapply yields_try; [by eapply (yields_query _ _ _ _ (fun rows => rows = row_order (ssh_keys t)))|].
    intros ? ->. eapply (yields_ret _ _ (fun rows => rows = _)). by intros ? [= <-].
  - intros ? ->. destruct (row_order (ssh_keys t)) as [|s l]; [apply yields_ret; intros ? [= <-]; by left|].
    cbn [fmap list_fmap]. eapply (yields_try _ _ _ (fun _ => True)); [by apply yields_ret|]. intros used _. apply yields_ret. intros ? [= <-]. right.
    assert (Hf : forall (l : list (SshKeyRow * option Z)), filter (fun kr => true || wanted used (key_key kr.1) = true) l = l).
    { intros l'. induction l' as [|x l' IH]; [done|]. by rewrite filter_cons_True, IH. }
    rewrite <- fmap_cons, Hf, <- list_fmap_compose. done.
Qed.
End Listings.

(** ** Entries *)
Section Entries.
Context `{SerdeText} {D : Type} `{Database D} `{Zip}.
Variable t : Tables.
Notation entries := (list (string * list Z)).

(** The entries a snapshot has besides its sessions and keys. *)
Definition other_names : list string :=
  ["manifest.json"; "empty_folders.json"; "config.json"; "known_hosts.txt"; "tags.json"; "session_tags.json"; "folder_tags.json";
   "snippets.json"; "session_snippets.json"; "ssh_key_certificates.json"; "webdav_session_details.json"; "s3_session_details.json";
   "sftp_bookmarks.json"; "port_forward_rules.json"]%string.

(** [es'] is [es] with more of those entries. *)
Definition more (es es' : entries) : Prop := exists delta, es' = es ++ delta /\ Forall (fun e => e.1 ∈ other_names) delta.

Lemma more_refl es : more es es.
Proof. exists []. by rewrite app_nil_r. Qed.

Lemma more_trans es1 es2 es3 : more es1 es2 -> more es2 es3 -> more es1 es3.
Proof. intros (d1 & -> & Hn1) (d2 & -> & Hn2). exists (d1 ++ d2). rewrite app_assoc. split; [done|by apply Forall_app]. Qed.

Lemma added label name content es es' : add_entry label name content es = inr es' -> es' = es ++ [(name, content)].
Proof. unfold add_entry. destruct (start_file es name); [done|]. by intros [= <-]. Qed.

Lemma added_more label name content es es' : name ∈ other_names -> add_entry label name content es = inr es' -> more es es'.
Proof. intros Hn ->%added. eexists. split; [done|]. by apply Forall_singleton. Qed.

Lemma present_more name v es es' : name ∈ other_names -> write_present name v es = inr es' -> more es es'.
Proof. intros Hn. destruct v; [by apply added_more|]. intros [= <-]. apply more_refl. Qed.

Ltac listed_name := apply list_elem_of_In; cbn; tauto.

(** Writers keep to those names. *)
Ltac writers :=
  repeat lazymatch goal with
  | |- yields _ (try (Ret (write_json_entry _ _ ?es)) _) _ =>
      apply (yields_try _ _ _ (more es)); [apply yields_ret; intros ?; apply added_more; listed_name|intros ? ?]
  | |- yields _ (try (Ret (write_present _ _ ?es)) _) _ =>
      apply (yields_try _ _ _ (more es)); [apply yields_ret; intros ?; apply present_more; listed_name|intros ? ?]
  | |- yields _ (try (present _ _ ?es) _) _ => apply (yields_try _ _ _ (more es)); [|intros ? ?]
  | |- yields _ (try (entry_if _ _ ?es) _) _ => apply (yields_try _ _ _ (more es)); [|intros ? ?]
  | |- yields _ (try (write_child_table_entries _ ?es) _) _ => apply (yields_try _ _ _ (more es)); [|intros ? ?]
  | |- yields _ (try _ _) _ => apply (yields_try _ _ _ (fun _ => True)); [|intros ? _]
  | |- yields _ (entry_if _ _ _) _ => unfold entry_if
  | |- yields _ (present _ _ _) _ => unfold present
  | |- yields _ (Ret (write_present _ _ _)) _ => apply yields_ret; intros ? ?%present_more; [|listed_name]
  | |- yields _ (Ret (write_json_entry _ _ _)) _ => apply yields_ret; intros ? ?%added_more; [|listed_name]
  | |- yields _ (Ret (write_text_entry _ _ _)) _ => apply yields_ret; intros ? ?%added_more; [|listed_name]
  | |- yields _ (Ret (inr _)) _ => apply yields_ret; intros ? [= <-]
  | |- yields _ (match ?x with _ => _ end) _ => destruct x
  | |- yields _ (Ret (match ?x with _ => _ end)) _ => destruct x
  end; eauto using more_refl, more_trans.

Lemma tags_more input es : yields t (write_tags_entries input es) (more es).
Proof. unfold write_tags_entries. writers; auto using reads_tags, reads_session_tags, reads_folder_tags. Qed.

Lemma snippets_more input es : yields t (write_snippets_entries input es) (more es).
Proof. unfold write_snippets_entries. writers; auto using reads_snippets, reads_session_snippets. Qed.

Lemma hosts_more es : yields t (write_known_hosts_entry es) (more es).
Proof. unfold write_known_hosts_entry. writers; auto using yields_known_hosts. Qed.

Lemma children_more input es : yields t (write_child_table_entries input es) (more es).
Proof.
  unfold write_child_table_entries. writers; auto using reads_certificates, reads_webdav, reads_s3, reads_bookmarks, reads_rules.
Qed.

(** The document of the sessions, then the document of the keys if there are any; nothing else
    goes by these names. *)
Definition holds_rows (es : entries) : Prop :=
  exists paths pre mid post,
    Forall (fun e : string * list Z => e.1 ∈ other_names) (pre ++ mid ++ post) /\
    let ss := ("sessions.json"%string, lit (to_text (JArray (session_value paths <$> row_order (all_sessions t))))) in
    (es = pre ++ ss :: mid ++ post /\ row_order (ssh_keys t) = []) \/
    es = pre ++ ss :: mid ++ ("keys.json"%string, lit (to_text (JArray (key_value <$> row_order (ssh_keys t))))) :: post.

Lemma holds_more es es' : more es es' -> holds_rows es -> holds_rows es'.
Proof.
  intros (delta & -> & Hd) (paths & pre & mid & post & Hn & Hes). exists paths, pre, mid, (post ++ delta). split.
  - rewrite !app_assoc in *. by apply Forall_app.
  - destruct Hes as [[-> Hk]| ->]; [left|right]; [split; [|done]|]; rewrite <- !app_assoc; cbn; rewrite <- !app_assoc; [done|]; by cbn; rewrite <- ?app_assoc.
Qed.

(** What [compose_archive] of [sync/service.rs] asks for. *)
Record snapshot_input (input : ExportInput) : Prop := {
  asks_sync : sync_mode input = true;
  asks_sessions : include_sessions (options input) = true;
  asks_keys : has_manager_keys (options input) = true;
  asks_all_keys : include_all_manager_keys (options input) = true;
  asks_no_recordings : include_recordings (options input) = false;
  asks_every_session k : is_Some (sessions t !! k) -> k ∈ selected_session_ids input
}.

(** The sessions' document written after the manifest, and the keys' document after it. *)
Definition sessions_written (es : entries) : Prop :=
  exists paths pre mid, Forall (fun e : string * list Z => e.1 ∈ other_names) (pre ++ mid) /\
    es = pre ++ ("sessions.json"%string, lit (to_text (JArray (session_value paths <$> row_order (all_sessions t))))) :: mid.

Lemma writes_sessions input es : snapshot_input input -> Forall (fun e : string * list Z => e.1 ∈ other_names) es ->
  yields t (write_sessions_entries input es) sessions_written.
Proof.
  intros Hin Hes. unfold write_sessions_entries. eapply yields_try; [apply reads_folder_paths|]. intros paths _.
  rewrite (asks_sync _ Hin). eapply yields_try; [apply composed_sessions, Hin|]. intros v ->.
  set (ss := ("sessions.json"%string, lit (to_text (JArray (session_value paths <$> row_order (all_sessions t)))))).
  apply (yields_try _ _ _ (fun es' => es' = es ++ [ss])); [apply yields_ret; by intros ? ?%added|]. intros es' ->.
  apply yields_ret. intros es' Hes'.
  assert (Hm : more (es ++ [ss]) es').
  { destruct (selected_empty_folders input); [injection Hes' as <-; apply more_refl|]. apply added_more in Hes'; [done|listed_name]. }
  destruct Hm as (delta & -> & Hd). exists paths, es, delta. split; [by apply Forall_app|]. by rewrite <- app_assoc.
Qed.

Lemma writes_keys input es : snapshot_input input -> sessions_written es -> yields t (write_keys_entry input es) holds_rows.
Proof.
  intros Hin (paths & pre & mid & Hn & ->). unfold write_keys_entry. rewrite (asks_sync _ Hin), (asks_all_keys _ Hin).
  eapply yields_try; [apply composed_keys|]. intros v Hv. apply yields_ret. intros es' Hes'.
  exists paths, pre, mid, []. rewrite app_nil_r. split; [done|].
  destruct Hv as [[-> Hk]| ->]; [left|right]; cbn [write_present] in Hes'.
  - injection Hes' as <-. by split.
  - apply added in Hes' as ->. by rewrite <- app_assoc.
Qed.

Lemma built_zip input : snapshot_input input ->
  yields t (build_zip input) (fun z => exists es, finish_zip es = inr z /\ holds_rows es).
Proof.
  intros Hin. unfold build_zip. rewrite (asks_sessions _ Hin), (asks_keys _ Hin), (asks_no_recordings _ Hin). unfold entry_if at 1 2.
  apply (yields_try _ _ _ (fun es => Forall (fun e : string * list Z => e.1 ∈ other_names) es)).
  { apply yields_ret. intros es ->%added. apply Forall_singleton. listed_name. }
  intros es Hes. eapply yields_try; [by apply writes_sessions|]. intros es1 Hes1.
  eapply yields_try; [by apply writes_keys|]. intros es2 Hes2.
  apply (yields_mono _ _ (fun z => exists es', finish_zip es' = inr z /\ more es2 es')).
  { intros z (es' & Hz & Hm). exists es'. split; [done|]. by eapply holds_more. }
  apply (yields_try _ _ _ (more es2)); [writers|]. intros es3 H3.
  apply (yields_try _ _ _ (more es3)); [unfold entry_if; destruct (include_known_hosts _); [apply hosts_more|apply yields_ret; intros ? [= <-]; apply more_refl]|]. intros es4 H4.
  apply (yields_try _ _ _ (more es4)); [unfold entry_if; destruct (include_tags _); [apply tags_more|apply yields_ret; intros ? [= <-]; apply more_refl]|]. intros es5 H5.
  apply (yields_try _ _ _ (more es5)); [unfold entry_if; destruct (include_snippets _); [apply snippets_more|apply yields_ret; intros ? [= <-]; apply more_refl]|]. intros es6 H6.
  apply (yields_try _ _ _ (more es6)); [apply children_more|]. intros es7 H7.
  apply (yields_try _ _ _ (fun es => es = es7)); [apply yields_ret; by intros ? [= <-]|]. intros ? ->.
  apply yields_ret. intros z Hz. exists es7. split; [by destruct (finish_zip es7); simplify_eq|].
  eauto using more_trans.
Qed.
End Entries.

(** ** Opening it *)

Lemma string_of_lit s : String.string_of_list_ascii ((fun b => Ascii.ascii_of_nat (Z.to_nat b)) <$> lit s) = s.
Proof.
  unfold lit. rewrite <- list_fmap_compose. transitivity (String.string_of_list_ascii (String.list_ascii_of_string s));
    [|apply String.string_of_list_ascii_of_string]. f_equal.
  etransitivity; [|apply list_fmap_id]. apply list_fmap_ext. intros i a _. cbn. by rewrite Nat2Z.id, Ascii.ascii_nat_embedding.
Qed.

Lemma to_string_decoded s cs : Utf8.decode (lit s) = Some cs -> to_string cs = s.
Proof. intros Hd%decode_sound. unfold to_string. rewrite Hd. apply string_of_lit. Qed.

(** The texts read from entries, last one of a name first. *)
Fixpoint texts_after (texts : gmap string chars) (es : list (string * list Z)) (texts' : gmap string chars) : Prop :=
  match es with
  | [] => texts' = texts
  | e :: es => exists cs, Utf8.decode e.2 = Some cs /\ texts_after (<[e.1 := cs]> texts) es texts'
  end.

Lemma texts_other texts es texts' name : texts_after texts es texts' -> name ∉ es.*1 -> texts' !! name = texts !! name.
Proof.
  revert texts. induction es as [|[n b] es IH]; intros texts; cbn; [by intros ->|].
  intros (cs & _ & Ht) [Hne Hn]%not_elem_of_cons. rewrite (IH _ Ht Hn). by apply lookup_insert_ne.
Qed.

Lemma texts_app texts es1 es2 texts' : texts_after texts (es1 ++ es2) texts' ->
  exists texts1, texts_after texts es1 texts1 /\ texts_after texts1 es2 texts'.
Proof.
  revert texts. induction es1 as [|e es1 IH]; intros texts; cbn; [eauto|].
  intros (cs & Hd & Ht). destruct (IH _ Ht) as (t1 & H1 & H2). exists t1. split; [|done]. eauto.
Qed.

(** An entry nothing after it shadows. *)
Lemma texts_entry texts pre name s post texts' : texts_after texts (pre ++ (name, lit s) :: post) texts' -> name ∉ post.*1 ->
  to_string <$> texts' !! name = Some s.
Proof.
  intros (t1 & _ & cs & Hd & Ht)%texts_app Hn. rewrite (texts_other _ _ _ _ Ht Hn). cbn. rewrite lookup_insert_eq. cbn.
  by rewrite (to_string_decoded _ _ Hd).
Qed.

Lemma read_text_stored e cs : read_text (stored_entry e) = inr cs -> Utf8.decode e.2 = Some cs.
Proof.
  unfold read_text, stored_entry. cbn [contents entry_name].
  destruct (Z.leb_spec (Z.of_nat (length e.2)) (MAX_DECOMPRESSED_BYTES + 1)) as [Hle|Hgt].
  - destruct (Utf8.decode e.2) as [cs'|]; [|done]. destruct (MAX_DECOMPRESSED_BYTES <? _); [done|]. by intros [= <-].
  - destruct (Utf8.decode _) as [cs'|]; [|done]. rewrite length_take.
    destruct (Z.ltb_spec MAX_DECOMPRESSED_BYTES (Z.of_nat (Z.to_nat (MAX_DECOMPRESSED_BYTES + 1) `min` length e.2))); [done|].
    exfalso. unfold MAX_DECOMPRESSED_BYTES in *. lia.
Qed.

Lemma read_stored i es texts recs p : Forall (fun e : string * list Z => parse_recording_entry_path e.1 = None) es ->
  read_entries i ((fun e => inr (stored_entry e)) <$> es) texts recs = inr p ->
  exists texts', p = pending_of texts' recs /\ texts_after texts es texts'.
Proof.
  intros Hes. revert i texts. induction Hes as [|e es He _ IH]; intros i texts; cbn [fmap list_fmap read_entries].
  - intros [= <-]. by exists texts.
  - cbn [stored_entry entry_name]. rewrite He. destruct (read_text (stored_entry e)) as [err|cs] eqn:Hr; [done|].
    intros (texts' & -> & Ht)%IH. exists texts'. split; [done|]. exists cs. split; [by apply read_text_stored|done].
Qed.

Section Opened.
Context `{SerdeText} {D : Type} `{Database D} `{Zip} `{Crypto.Primitives}.
Variable t : Tables.

Lemma rows_not_recordings es : holds_rows t es -> Forall (fun e : string * list Z => parse_recording_entry_path e.1 = None) es.
Proof.
  intros (paths & pre & mid & post & Hn & Hes).
  assert (Ho : forall l : list (string * list Z), Forall (fun e => e.1 ∈ other_names) l -> Forall (fun e => parse_recording_entry_path e.1 = None) l).
  { intros l Hl. eapply Forall_impl; [exact Hl|]. intros [n b] Hin. cbn in *.
    repeat (apply elem_of_cons in Hin as [->|Hin]; [vm_compute; reflexivity|]). by apply elem_of_nil in Hin. }
  apply Forall_app in Hn as [Hpre [Hmid Hpost]%Forall_app]. apply Ho in Hpre, Hmid, Hpost.
  destruct Hes as [[-> _]| ->]; repeat (apply Forall_app_2 || apply Forall_cons_2); try done; vm_compute; reflexivity.
Qed.

Lemma parsed_rows z es p version : finish_zip es = inr z -> holds_rows t es -> parse_pending_import z = inr (p, version) ->
  exists paths,
    sessions_json p = Some (to_text (JArray (session_value paths <$> row_order (all_sessions t)))) /\
    ((keys_json p = None /\ row_order (ssh_keys t) = []) \/
     keys_json p = Some (to_text (JArray (key_value <$> row_order (ssh_keys t))))).
Proof.
  intros Hz Hes. unfold parse_pending_import. rewrite (zip_reads_back _ _ Hz). destruct (check_sizes _ _ _); [done|].
  destruct (read_entries _ _ _ _) as [err|p'] eqn:Hr; [done|]. intros [= -> _].
  apply read_stored in Hr as (texts & -> & Ht); [|by apply rows_not_recordings].
  destruct Hes as (paths & pre & mid & post & Hn & Hes). exists paths.
  assert (Hfree : forall name l, name ∉ other_names -> l ⊆ pre ++ mid ++ post -> name ∉ l.*1).
  { intros name l Hname Hl (e & -> & Hel)%list_elem_of_fmap. rewrite Forall_forall in Hn. by apply Hname, Hn, Hl. }
  assert (Hss : "sessions.json"%string ∉ other_names) by (by vm_compute; intros Hin%list_elem_of_In; repeat destruct Hin as [|Hin]).
  assert (Hks : "keys.json"%string ∉ other_names) by (by vm_compute; intros Hin%list_elem_of_In; repeat destruct Hin as [|Hin]).
  destruct Hes as [[-> Hk]| ->]; cbn [sessions_json keys_json pending_of]; split.
  - apply (texts_entry _ _ _ _ _ _ Ht). apply (Hfree _ (mid ++ post)); [done|set_solver].
  - left. split; [|done]. rewrite (texts_other _ _ _ _ Ht); [done|].
    rewrite fmap_app, fmap_cons, not_elem_of_app, not_elem_of_cons. split_and!; [apply Hfree; [done|set_solver]|done|].
    apply (Hfree _ (mid ++ post)); [done|set_solver].
  - apply (texts_entry _ _ _ _ _ _ Ht). rewrite fmap_app, fmap_cons, not_elem_of_app, not_elem_of_cons.
    split_and!; [apply Hfree; [done|set_solver]|done|apply Hfree; [done|set_solver]].
  - right. rewrite app_comm_cons, app_assoc in Ht. apply (texts_entry _ _ _ _ _ _ Ht). apply Hfree; [done|set_solver].
Qed.
End Opened.

Section Sealed.
Context `{SerdeText} {D : Type} `{Database D} `{Zip} `{Crypto.Primitives}.

(** What a device that opens an export finds in it. *)
Lemma opened_rows mobile mobile' slt iv input path pw d bytes d' pending prev :
  snapshot_input (tables d) input -> length slt = SALT_LEN -> length iv = IV_LEN -> encrypts input = true ->
  run (export_archive mobile slt iv input) d = (inr bytes, d') ->
  archive_to_pending mobile' path bytes pw = inr (pending, prev) ->
  exists paths,
    sessions_json pending = Some (to_text (JArray (session_value paths <$> row_order (all_sessions (tables d))))) /\
    ((keys_json pending = None /\ row_order (ssh_keys (tables d)) = []) \/
     keys_json pending = Some (to_text (JArray (key_value <$> row_order (ssh_keys (tables d)))))).
Proof.
  intros Hin Hs Hi He Hr Ho. unfold export_archive in Hr. rewrite run_bind in Hr.
  destruct (built_zip (tables d) input Hin d eq_refl) as [_ Hz]. destruct (run (build_zip input) d) as [z d1]. cbn [fst snd run] in Hr, Hz.
  injection Hr as Hb _. destruct z as [e|z]; [done|]. destruct (Hz z eq_refl) as (es & Hf & Hes).
  unfold encrypts in He. destruct (master_password input) as [mp|]; [|done]. change (default ""%string (Some mp)) with mp in Hb.
  apply negb_true_iff in He. rewrite He in Hb. destruct (encrypt_with_password _ _ _ _ _ _ _ _) as [e|b] eqn:Henc; [done|]. injection Hb as ->.
  unfold archive_to_pending in Ho. destruct (bool_decide_reflect (take 4 bytes = ENC_HEADER_MAGIC)) as [Hm|Hm].
  - destruct (decrypt_archive_with_password mobile' bytes pw) as [e|z'] eqn:Hd; [done|].
    destruct (opened_is_sealed _ _ _ _ _ _ _ _ _ _ _ _ Hs Hi Henc Hd) as [-> _].
    destruct (parse_pending_import z) as [e|[p version]] eqn:Hp; [done|]. destruct (negb _); [done|]. injection Ho as <- _.
    by eapply parsed_rows.
  - apply encrypt_inv in Henc as (_ & k & ct & _ & _ & ->). by exfalso.
Qed.
End Sealed.
