(* ===== verification/Replicate.v ===== *)
(** * Replication

    A snapshot composed on one device, sealed, opened on another and merged there: the newer
    keys and sessions of the first device are then live on the second, with the columns that
    travel.  Composes [Compose], [Envelope], [Lfs] and [Apply]. *)
From Stdlib Require Import ZArith Lia.
From stdpp Require Import prelude gmap strings list sorting.
From S2P Require Import Prelude Text Json Bus PromptRegistry Prog Crypto Envelope KnownHosts Iso8601 Tables Dao Apply ApplyLaws Lfs Compose ComposeLaws MergeDelivers Snapshot.

Open Scope Z_scope.

Lemma distinct_ids `{Database D} {R} (key : R -> string) (m : gmap string R) :
  (forall k r, m !! k = Some r -> key r = k) -> NoDup (key <$> row_order m).
Proof.
  intros Hk. rewrite (row_order_perm _ m). rewrite <- list_fmap_compose.
  assert (He : (fun kv : string * R => key kv.2) <$> map_to_list m = fst <$> map_to_list m).
  { apply list_fmap_ext. intros i [k r] Hi. apply (Hk k r). apply elem_of_map_to_list. by eapply list_elem_of_lookup_2. }
  change (NoDup ((fun kv : string * R => key kv.2) <$> map_to_list m)). rewrite He. apply NoDup_fst_map_to_list.
Qed.

Lemma values_back `{SerdeText} l : text_exact (JArray l) -> values_of (to_text (JArray l)) = Some l.
Proof. unfold values_of, text_exact. by intros ->. Qed.

Section Replicate.
Context `{SerdeText} {A : Type} `{Database A} {B : Type} `{Database B} `{Zip} `{Crypto.Primitives}.
Variable decode : chars -> string + list Z.
Variable sha : list Z -> list Z.
Variable parse_error : string -> string.
(** A query of the first device answers in this order. *)
Notation listing := (row_order (D := A)).

(** What the SSH columns of a session of [ta] refer to is stored on the other device, or travels:
    its key is alive here, its jump host is alive here and listed before it. *)
Definition refs_travel (ta tb : Tables) (r : SessionRow) : Prop :=
  anchors_travel (listing (all_sessions ta)) (listing (ssh_keys ta)) tb r.

(** C15. Synchronisation replicates: after a device composed and sealed a snapshot and another
    opened and merged it, with no call failing, the merge is committed, and on the second device
    every live key and every live SSH session of the first that is newer than its row there is live
    with the columns that travel, if its stamps can be printed and its numbers and bytes are in
    range ([portable_key], [portable_session]), the session provided moreover that its key is
    stored there or alive here and its jump host is stored there or alive here and listed before
    the session ([refs_travel]; a jump host listed later is lost, see below); a session it already
    had keeps the time it was created here, and lies in a folder of this device. *)
Theorem snapshot_replicates mobile mobile' slt iv input path pw (da da' : A) bytes pending prev options now_ms (w : Applying B) :
  let ta := tables da in let tb := tables (conn w) in
  snapshot_input ta input -> encrypts input = true -> length slt = SALT_LEN -> length iv = IV_LEN ->
  run (export_archive mobile slt iv input) da = (inr bytes, da') ->
  archive_to_pending mobile' path bytes pw = inr (pending, prev) ->
  (forall paths, text_exact (JArray (session_value paths <$> listing (all_sessions ta)))) ->
  text_exact (JArray (key_value <$> listing (ssh_keys ta))) ->
  (forall k s, ssh_keys ta !! k = Some s -> key_key (row s) = k) ->
  (forall k s, ssh_keys tb !! k = Some s -> key_key (row s) = k) -> keyed_folders tb -> Tables.working (conn w) ->
  let r := run (apply_pending_to_db decode sha parse_error pending Sync options now_ms) w in
  let tb' := tables (conn r.2) in
  r.1 = inr () /\ saved (conn r.2) = None /\
  (forall id k, live_rows (ssh_keys ta) !! id = Some k -> id <> ""%string -> portable_key k ->
     (forall l, live_rows (ssh_keys tb) !! id = Some l -> key_created_at_ms l < key_created_at_ms k) ->
     live_rows (ssh_keys tb') !! id = Some (travelling_key k)) /\
  (forall id s, live_sessions ta !! id = Some s -> id <> ""%string -> portable_session s ->
     (forall l, live_sessions tb !! id = Some l -> updated_at_ms l < updated_at_ms s) ->
     refs_travel ta tb s -> normalise_kind (kind s) = SESSION_KIND_SSH ->
     exists folder, live_sessions tb' !! id = Some (since (here_since tb s) (travelling_session s folder)) /\
       forall f, folder = Some f -> is_Some (folders tb' !! f)).
Proof.
  intros ta tb Hin Henc Hs Hi Hexp Hopen Hxs Hxk Hka Hkb Hfb Hw.
  destruct (opened_rows _ _ _ _ _ _ _ _ _ _ _ _ Hin Hs Hi Henc Hexp Hopen) as (paths & Hsj & Hkj).
  assert (Hsk : forall k s, all_sessions ta !! k = Some s -> session_key (row s) = k).
  { intros k s. unfold all_sessions. rewrite map_lookup_imap. destruct (sessions ta !! k); [|done]. by intros [= <-]. }
  assert (Hl : lists_rows pending paths (listing (all_sessions ta)) (listing (ssh_keys ta))).
  { split; [| |by apply (distinct_ids (fun s => session_key (row s)))|by apply (distinct_ids (fun s => key_key (row s)))].
    - rewrite Hsj. apply values_back, Hxs.
    - destruct Hkj as [Hk|Hk]; [by left|right]. rewrite Hk. by apply values_back. }
  destruct (merge_delivers decode sha parse_error pending now_ms _ _ _ tb Hl Hkb Hfb options w Hw eq_refl) as (Hr & [_ [Hdk Hds]] & Hsv).
  split; [exact Hr|]. split; [exact Hsv|]. split.
  - intros id k Hk%live_row_stored Hne Hpo Hn. assert (Hid := Hka _ _ Hk). cbn in Hid. subst id.
    apply Hdk; [|done..]. apply row_order_elem. eauto.
  - intros id s Hlive Hne Hpo Hn Han Hki. apply live_session_stored in Hlive as (m & Hm & ->).
    apply (Hds (session_of id m (ssh_details ta !! id))); [|done..].
    apply row_order_elem. exists id. unfold all_sessions. by rewrite map_lookup_imap, Hm.
Qed.
End Replicate.

(** ** Two concrete devices *)

(** A zip that only frames: each entry is two lengths, its name and its content. *)
Definition pack (es : list (string * list Z)) : list Z :=
  es ≫= fun e => Z.of_nat (length (lit e.1)) :: Z.of_nat (length e.2) :: lit e.1 ++ e.2.

Fixpoint unpack (fuel : nat) (b : list Z) : list (string * list Z) :=
  match fuel, b with
  | S fuel, n :: m :: rest =>
      let n := Z.to_nat n in
      let m := Z.to_nat m in
      (String.string_of_list_ascii ((fun b => Ascii.ascii_of_nat (Z.to_nat b)) <$> take n rest), take m (drop n rest))
        :: unpack fuel (drop m (drop n rest))
  | _, _ => []
  end.

Lemma pack_cons e es :
  pack (e :: es) = Z.of_nat (length (lit e.1)) :: Z.of_nat (length e.2) :: lit e.1 ++ e.2 ++ pack es.
Proof. unfold pack. rewrite bind_cons, <- app_comm_cons, <- app_comm_cons, <- app_assoc. done. Qed.

Lemma unpack_pack es fuel : (length (pack es) <= fuel)%nat -> unpack fuel (pack es) = es.
Proof.
  revert fuel. induction es as [|[name content] es IH]; intros fuel Hf; [by destruct fuel|].
  rewrite pack_cons in *. cbn [fst snd length] in *. rewrite !length_app in Hf. destruct fuel as [|fuel]; [lia|]. cbn [unpack].
  rewrite !Nat2Z.id, take_app_length, drop_app_length, take_app_length, drop_app_length, string_of_lit.
  f_equal. apply IH. lia.
Qed.

#[local, program] Instance toy_zip : Zip := {|
  start_file es name := None;
  finish_zip es := inr (zip_magic ++ pack es);
  open_zip b := inr ((fun e => inr (stored_entry e)) <$> unpack (length b) (drop 4 b))
|}.
Next Obligation.
  intros es b [= <-]. f_equal. f_equal. change (drop 4 (zip_magic ++ pack es)) with (pack es). apply unpack_pack.
  cbn [length app zip_magic]. lia.
Qed.
Next Obligation. by intros es b [= <-] _. Qed.

(** A text form that knows the documents of one snapshot. *)
Definition has_field (name : string) (v : json) : bool := match jget v name with Some _ => true | None => false end.

Section Serde.
Variable ta : Tables.

Definition name_text (v : json) : string :=
  match v with
  | JObject _ => if has_field "schema_version" v then "manifest" else "{}"
  | JArray (row :: _) => if has_field "backend" row then "keys" else if has_field "host" row then "sessions" else "other"
  | _ => "other"
  end%string.

#[program] Definition only_names : SerdeText := {| to_text := name_text; from_text _ := None |}.
Next Obligation. done. Qed.

Definition named_text (s : string) : option json :=
  if String.eqb s "manifest" then Some (JObject {["schema_version"%string := JNumber (PosInt 1)]})
  else if String.eqb s "sessions" then Some (JArray (session_value (H := only_names) ∅ <$> row_order (D := DemoDb) (all_sessions ta)))
  else if String.eqb s "keys" then Some (JArray (key_value <$> row_order (D := DemoDb) (ssh_keys ta)))
  else None.

#[program] Definition snapshot_texts : SerdeText := {| to_text := name_text; from_text := named_text |}.
Next Obligation.
  intros s m. unfold named_text. destruct (String.eqb s "manifest"); [|by repeat destruct (String.eqb s _)].
  intros [= <-] k v [<- <-]%lookup_singleton_Some. done.
Qed.
End Serde.

Section Demo.
#[local] Open Scope string_scope.

(** The laptop has a key, a jump host and a session through it; the phone has nothing yet. *)
Definition laptop_key : SshKeyRow :=
  mkKey "k" "deploy" "PRIVATE" "ssh-ed25519 AAAA" "ed25519" true 40 None None false Ask Software None None None None None None None None None
    None false None None false false None false.
Definition laptop_main (name : string) : SessionMain := mkMain name None "ssh" 0 "notes" None "{}" 10 50.
Definition laptop_ssh (via : option string) : SshDetails := mkSsh "host" 22 "me" "key" "" "" "" (Some "k") "" via None None None 50.

Definition laptop_tables (key_deleted : option Z) (jump : string) : Tables :=
  over_ssh_details (fun _ => {["s" := laptop_ssh (Some jump); jump := laptop_ssh None]})
    (over_sessions (fun _ => {["s" := mkStored (laptop_main "server") None; jump := mkStored (laptop_main "jump") None]})
      (over_ssh_keys (fun _ => {["k" := mkStored laptop_key key_deleted]}) no_tables)).

Definition laptop (ta : Tables) : DemoDb := mkDemoDb ta None [] 0.
Definition phone : Applying DemoDb := started no_tables [].

Definition push_input (jump : string) : ExportInput :=
  mkExportInput (mkExport true true true true true true true false) ["s"; jump] [] "" 1 None (Some "pw") 8 1 1 1000 (Some "laptop:1000") [].

Definition sealed (ta : Tables) (jump : string) : list Z :=
  match (run (export_archive (H := snapshot_texts ta) false (repeat 7 32) (repeat 9 12) (push_input jump)) (laptop ta)).1 with
  | inr b => b | inl _ => []
  end.

Definition arrived (ta : Tables) (jump : string) : PendingImport :=
  match archive_to_pending (H := snapshot_texts ta) true "remote" (sealed ta jump) "pw" with inr (p, _) => p | inl _ => no_pending end.

Definition phone_after (ta : Tables) (jump : string) : Tables :=
  demo_tables (conn (run (apply_pending_to_db (H := snapshot_texts ta) demo_decode demo_sha (fun _ => "bad JSON") (arrived ta jump) Sync no_options 1000) phone).2).

Definition gate_tables : Tables := laptop_tables None "gate".

Lemma texts_exact paths :
  text_exact (H := snapshot_texts gate_tables)
    (JArray (session_value (H := snapshot_texts gate_tables) paths <$> row_order (D := DemoDb) (all_sessions gate_tables))).
Proof. vm_compute. reflexivity. Qed.

Definition laptop_session (ta : Tables) (id : string) : SessionRow :=
  session_of id (laptop_main (if String.eqb id "s" then "server" else "jump")) (ssh_details ta !! id).

Lemma gate_input : snapshot_input gate_tables (push_input "gate").
Proof.
  split; try reflexivity. intros k. unfold gate_tables, laptop_tables. cbn -[lookup insert].
  destruct (decide (k = "s")) as [->|Hs]; [intros _; left|]. destruct (decide (k = "gate")) as [->|Hg]; [intros _; right; left|].
  rewrite lookup_insert_ne, lookup_singleton_ne by done. by intros [].
Qed.

Lemma gate_keyed k s : ssh_keys gate_tables !! k = Some s -> key_key (row s) = k.
Proof. cbn -[lookup]. by intros [<- <-]%lookup_singleton_Some. Qed.

Lemma nothing_keyed k s : ssh_keys no_tables !! k = Some s -> key_key (row s) = k.
Proof. cbn. by rewrite lookup_empty. Qed.

Lemma nothing_filed : keyed_folders no_tables.
Proof. intros k f. cbn. by rewrite lookup_empty. Qed.

Lemma gate_portable : portable_session (laptop_session gate_tables "s").
Proof.
  assert (Hs : ssh_details gate_tables !! "s" = Some (laptop_ssh (Some "gate"))) by (vm_compute; reflexivity).
  unfold laptop_session. rewrite Hs. split; cbn; [| | |discriminate|discriminate|by left].
  - unfold printable. lia.
  - unfold printable. lia.
  - unfold in_i64. lia.
Qed.

Lemma snapshot_replicates_witness :
  live_sessions gate_tables !! "s" = Some (laptop_session gate_tables "s") /\
  exists folder, live_sessions (phone_after gate_tables "gate") !! "s"
    = Some (since (here_since no_tables (laptop_session gate_tables "s"))
              (travelling_session (H := snapshot_texts gate_tables) (laptop_session gate_tables "s") folder)).
Proof.
  assert (Hlive : live_sessions gate_tables !! "s" = Some (laptop_session gate_tables "s")) by (vm_compute; reflexivity).
  split; [exact Hlive|].
  destruct (run (export_archive (H := snapshot_texts gate_tables) false (repeat 7 32) (repeat 9 12) (push_input "gate")) (laptop gate_tables))
    as [r d'] eqn:Hr.
  assert (Hb : r = inr (sealed gate_tables "gate")).
  { transitivity (fst (r, d')); [reflexivity|]. rewrite <- Hr. vm_compute. reflexivity. }
  rewrite Hb in Hr.
  assert (exists prev, archive_to_pending (H := snapshot_texts gate_tables) true "remote" (sealed gate_tables "gate") "pw"
    = inr (arrived gate_tables "gate", prev)) as [prev Ho] by (eexists; vm_compute; reflexivity).
  assert (Hk : text_exact (H := snapshot_texts gate_tables) (JArray (key_value <$> row_order (D := DemoDb) (ssh_keys gate_tables))))
    by (vm_compute; reflexivity).
  destruct (snapshot_replicates (H := snapshot_texts gate_tables) (H0 := demo_database) (H1 := demo_database) demo_decode demo_sha (fun _ => "bad JSON") false true (repeat 7 32) (repeat 9 12)
    (push_input "gate") "remote" "pw" (laptop gate_tables) d' (sealed gate_tables "gate") (arrived gate_tables "gate") prev
    no_options 1000 phone gate_input eq_refl eq_refl eq_refl Hr Ho texts_exact Hk gate_keyed nothing_keyed nothing_filed (Forall_nil_2 _))
    as (_ & _ & _ & Hs).
  destruct (Hs "s" _ Hlive) as (folder & Hf & _); [discriminate|exact gate_portable| | |reflexivity|exists folder; exact Hf].
  - intros l Hl. exfalso. cbn in Hl. vm_compute in Hl. discriminate.
  - split.
    + intros k [= <-]. right. exists laptop_key. split; [vm_compute; left|reflexivity].
    + intros v [= <-]. right. exists [mkStored (laptop_session gate_tables "gate") None], [], (laptop_session gate_tables "gate").
      split_and!; [vm_compute; reflexivity|left|reflexivity].
Defined.

(** A jump host the list shows after its client: the client arrives without host, user and key,
    and no later snapshot repairs it, since its row is as new as the peer's. *)
Example jump_host_listed_later_is_lost :
  let once := phone_after (laptop_tables None "jump") "jump" in
  let host t := s_host <$> live_sessions t !! "s" in
  host once = Some "" /\ host (laptop_tables None "jump") = Some "host" /\ is_Some (live_sessions once !! "jump") /\
  host (demo_tables (conn (run (apply_pending_to_db (H := snapshot_texts (laptop_tables None "jump")) demo_decode demo_sha (fun _ => "bad JSON")
    (arrived (laptop_tables None "jump") "jump") Sync no_options 1000) (started once [])).2)) = Some "".
Proof. vm_compute. split_and!; try reflexivity. eexists. reflexivity. Qed.

(** A session that still names a deleted key arrives without its host as well. *)
Example deleted_key_strips_session :
  s_host <$> live_sessions (phone_after (laptop_tables (Some 45) "gate") "gate") !! "s" = Some "".
Proof. vm_compute. reflexivity. Qed.
End Demo.
