(* ===== verification/Migration.v ===== *)
(** * Startup migrations ([migration/mod.rs], [migration/registry.rs], [migration/artefacts.rs])

    The runner that brings every file of the support directory to the version of the current
    build: the order of the artefacts, the chain of steps of each, the report; and the four
    version probes of the application.  A migration and a probe may fail or panic. *)
From Stdlib Require Import ZArith Lia.
From stdpp Require Import prelude gmap strings list pretty.
From S2P Require Import Prelude Text Json Prog.

Open Scope Z_scope.
Open Scope prog_scope.

Module SchemaVersions.
Definition CONFIG : Z := 1.
Definition KDF : Z := 1.
Definition PASS_GATE : Z := 1.
Definition HW_SALT : Z := 1.
End SchemaVersions.

(** What a call to foreign code comes back with. *)
Inductive outcome (A : Type) := Panicked (msg : string) | Failed (e : string) | Got (a : A).
Arguments Panicked {A} _.
Arguments Failed {A} _.
Arguments Got {A} _.

Section Runner.
Context {W : Type}.

Record Artefact := mkArtefact { artefact_id : string; target_version : Z; read_version : prog W (outcome Z) }.

Record Migration := mkMigration {
  migrates : string;
  source_version : Z;
  result_version : Z;
  apply : prog W (outcome unit)
}.

(** [dependencies] in the order the map iterates. *)
Record Registry := mkRegistry {
  artefacts : list Artefact;
  migrations : list Migration;
  dependencies : list (string * list string)
}.

Record MigrationStep := mkStep { step_artefact : string; from_version : Z; to_version : Z; succeeded : bool; step_error : option string }.

Record UnsupportedFutureVersion := mkFuture { future_artefact : string; on_disk_version : Z; known_target_version : Z }.

Record Report := mkReport {
  steps : list MigrationStep;
  future_versions : list UnsupportedFutureVersion;
  fatal_error : option string
}.

Definition has_failures (r : Report) : bool :=
  (match fatal_error r with Some _ => true | None => false end)
  || (match future_versions r with [] => false | _ => true end) || existsb (fun s => negb (succeeded s)) (steps r).

Definition no_op (r : Report) : bool :=
  (match steps r with [] => true | _ => false end) && (match future_versions r with [] => true | _ => false end)
  && (match fatal_error r with None => true | Some _ => false end).

Definition migrated_count (r : Report) : nat := length (filter (fun s => succeeded s = true) (steps r)).

(** ** The order of the artefacts *)

(** Later artefacts of an id replace earlier ones. *)
Definition id_to_idx (reg : Registry) : gmap string nat :=
  foldl (fun m ia => <[artefact_id ia.2 := ia.1]> m) ∅ (imap pair (artefacts reg)).

(** The edges both ends of which are registered, the first before the second. *)
Definition edges (reg : Registry) : list (nat * nat) :=
  dependencies reg ≫= fun d =>
    match id_to_idx reg !! d.1 with
    | None => []
    | Some dep => omap (fun pre => (fun i => (i, dep)) <$> id_to_idx reg !! pre) d.2
    end.

Definition adjacency (n : nat) (es : list (nat * nat)) : list (list nat) :=
  foldl (fun adj e => alter (fun l => l ++ [e.2]) e.1 adj) (replicate n []) es.

Definition indegree (n : nat) (es : list (nat * nat)) : list nat :=
  foldl (fun deg e => alter S e.2 deg) (replicate n 0%nat) es.

(** [indegree[next] -= 1], pushed when that makes it zero.  The queue is a stack, its top first. *)
Definition relax (s : list nat * list nat) (next : nat) : list nat * list nat :=
  let deg := alter pred next s.1 in
  (deg, if bool_decide (deg !! next = Some 0%nat) then next :: s.2 else s.2).

Fixpoint kahn (fuel : nat) (adj : list (list nat)) (deg queue ordered : list nat) : list nat :=
  match fuel, queue with
  | S fuel, i :: queue =>
      let s := foldl relax (deg, queue) (default [] (adj !! i)) in
      kahn fuel adj s.1 s.2 (ordered ++ [i])
  | _, _ => ordered
  end.

Definition topo_sort (reg : Registry) : string + list nat :=
  let n := length (artefacts reg) in
  let es := edges reg in
  let deg := indegree n es in
  let ready := filter (fun i => deg !! i = Some 0%nat) (seq 0 n) in
  let ordered := kahn n (adjacency n es) deg (rev ready) [] in
  if negb (length ordered =? n)%nat then inl "cycle in migration dependencies"%string else inr ordered.

(** ** The chain of one artefact *)
Inductive ArtefactOutcome := Fine | Future (f : UnsupportedFutureVersion) | Fatal (e : string) | Panic (msg : string).

Definition find_migration (reg : Registry) (id : string) (from : Z) : option Migration :=
  snd <$> list_find (fun m => migrates m = id /\ source_version m = from) (migrations reg).

(** The steps of a run are pushed to the list it is given.  [None]: the loop still runs when the
    fuel is spent. *)
Fixpoint walk_chain (fuel : nat) (id : string) (reg : Registry) (current target : Z) (done : list MigrationStep) :
    prog W (option (ArtefactOutcome * list MigrationStep)) :=
  if negb (current <? target) then Ret (Some (Fine, done))
  else
    match fuel with
    | O => Ret None
    | S fuel =>
        match find_migration reg id current with
        | None =>
            let err := ("no migration registered for " ++ id ++ " from version " ++ pretty current)%string in
            Ret (Some (Fatal err, done ++ [mkStep id current (current + 1) false (Some err)]))
        | Some m =>
            let! r := apply m in
            match r with
            | Got _ => walk_chain fuel id reg (result_version m) target
                         (done ++ [mkStep id (source_version m) (result_version m) true None])
            | Failed e => Ret (Some (Fatal e, done ++ [mkStep id (source_version m) (result_version m) false (Some e)]))
            | Panicked msg => Ret (Some (Panic msg, done))
            end
        end
    end.

Definition migrate_artefact (fuel : nat) (a : Artefact) (reg : Registry) (done : list MigrationStep) :
    prog W (option (ArtefactOutcome * list MigrationStep)) :=
  let! r := read_version a in
  match r with
  | Panicked msg => Ret (Some (Panic msg, done))
  | Failed e => Ret (Some (Fatal (artefact_id a ++ ": " ++ e)%string, done))
  | Got on_disk =>
      if on_disk <? 0 then Ret (Some (Fine, done))
      else if on_disk =? target_version a then Ret (Some (Fine, done))
      else if target_version a <? on_disk then
        Ret (Some (Future (mkFuture (artefact_id a) on_disk (target_version a)), done))
      else walk_chain fuel (artefact_id a) reg on_disk (target_version a) done
  end.

(** The loop over the ordered artefacts; an index is in range by [topo_sort_order]. *)
Fixpoint migrate_all (fuel : nat) (reg : Registry) (order : list Artefact) (done : list MigrationStep)
    (future : list UnsupportedFutureVersion) : prog W (option Report) :=
  match order with
  | [] => Ret (Some (mkReport done future None))
  | a :: order =>
      let! r := migrate_artefact fuel a reg done in
      match r with
      | None => Ret None
      | Some (Fine, done) => migrate_all fuel reg order done future
      | Some (Future f, done) => migrate_all fuel reg order done (future ++ [f])
      | Some (Fatal e, done) => Ret (Some (mkReport done future (Some e)))
      | Some (Panic msg, done) => Ret (Some (mkReport done future (Some (artefact_id a ++ ": panicked: " ++ msg)%string)))
      end
  end.

Definition run_on_startup (fuel : nat) (reg : Registry) : prog W (option Report) :=
  match topo_sort reg with
  | inl e => Ret (Some (mkReport [] [] (Some e)))
  | inr order => migrate_all fuel reg (omap (fun i => artefacts reg !! i) order) [] []
  end.

End Runner.

Arguments Artefact W : clear implicits.
Arguments Migration W : clear implicits.
Arguments Registry W : clear implicits.

(** ** The artefacts of the application *)
Section Probes.
(** [serde_json::from_slice] on a file. *)
Variable from_slice : list Z -> string + json.

Definition read_or (name : string) (k : list Z -> outcome Z) : prog Os (outcome Z) :=
  let! there := call (Os.exists_ name) in
  if negb there then Ret (Got (-1))
  else
    let! r := call (Os.read_file name) in
    Ret (match r with inl _ => Failed ("read " ++ name)%string | inr b => k b end).

(** [as i32] *)
Definition as_i32 (n : Z) : Z := (n + 2 ^ 31) mod 2 ^ 32 - 2 ^ 31.

(** The two JSON files: the version under [field], one when there is none. *)
Definition json_version (name field : string) (b : list Z) : outcome Z :=
  match from_slice b with
  | inl e => Failed (name ++ ": parse: " ++ e)%string
  | inr (JObject m) =>
      match m !! field with
      | Some (JNumber n) =>
          match Json.as_i64 (JNumber n) with
          | Some v => Got (as_i32 v)
          | None => Failed (name ++ ": " ++ field ++ " not representable as i32")%string
          end
      | None => Got 1
      | Some _ => Failed (name ++ ": non-integer " ++ field)%string
      end
  | inr _ => Failed (name ++ ": not a JSON object")%string
  end.

Definition ConfigArtefact : Artefact Os :=
  mkArtefact "config.json" SchemaVersions.CONFIG (read_or "config.json" (json_version "config.json" "config_schema_version")).

Definition PassGateArtefact : Artefact Os :=
  mkArtefact "security_pass_hash.bin" SchemaVersions.PASS_GATE
    (read_or "security_pass_hash.bin" (json_version "security_pass_hash.bin" "v")).

Definition HW_SALT_LEN : nat := 32.

(** [std::fs::metadata]: only a missing file is absent. *)
Definition HwSaltArtefact : Artefact Os :=
  let name := "hardware_vault_salt.bin"%string in
  mkArtefact name SchemaVersions.HW_SALT
    (let! meta := call (Os.read_file name) in
     Ret (match meta with
          | inl NotFound => Got (-1)
          | inl OtherError => Failed ("stat " ++ name)%string
          | inr b => if bool_decide (length b = HW_SALT_LEN) then Got 1
                     else Failed (name ++ ": unexpected length (" ++ pretty (Z.of_nat (length b)) ++ " bytes, want 32)")%string
          end)).

Definition FILE_MAGIC : list Z := [0x4C; 0x46; 0x4B; 0x44].
Definition HEADER_MIN_LEN : nat := length FILE_MAGIC + 1.

Definition kdf_version (b : list Z) : outcome Z :=
  let name := "credentials.kdf"%string in
  if (length b <? HEADER_MIN_LEN)%nat then Failed (name ++ ": truncated header (" ++ pretty (Z.of_nat (length b)) ++ " bytes, need ≥ 5)")%string
  else if negb (bool_decide (take 4 b = FILE_MAGIC)) then Failed (name ++ ": wrong magic")%string
  else
    let version := nth 4 b 0 in
    if version <? 1 then Failed (name ++ ": invalid schema version " ++ pretty version ++ " (must be ≥ 1)")%string
    else Got version.

Definition KdfArtefact : Artefact Os := mkArtefact "credentials.kdf" SchemaVersions.KDF (read_or "credentials.kdf" kdf_version).

Definition build_app_registry : Registry Os :=
  mkRegistry [ConfigArtefact; KdfArtefact; PassGateArtefact; HwSaltArtefact] [] [].

End Probes.

(** ** Kahn's algorithm *)
Section Kahn.
Variable n : nat.
Variable es : list (nat * nat).
Hypothesis Hes : Forall (fun e => (e.1 < n)%nat /\ (e.2 < n)%nat) es.

(** The edges into [v] from outside [seen], and the occurrences of [v] in a list. *)
Definition pending_into (l : list (nat * nat)) (seen : list nat) (v : nat) : nat :=
  length (filter (fun e => e.2 = v /\ e.1 ∉ seen) l).
Definition occurrences (v : nat) (l : list nat) : nat := length (filter (fun x => x = v) l).

Lemma adjacency_lookup u : (u < n)%nat -> adjacency n es !! u = Some ((filter (fun e : nat * nat => e.1 = u) es).*2).
Proof.
  intros Hu. unfold adjacency.
  assert (Hg : forall (l : list (nat * nat)) (adj : list (list nat)) (pre : list nat), adj !! u = Some pre ->
    foldl (fun adj (e : nat * nat) => alter (fun l => l ++ [e.2]) e.1 adj) adj l !! u = Some (pre ++ (filter (fun e : nat * nat => e.1 = u) l).*2)).
  { induction l as [|e l IH]; intros adj pre Hp; cbn [foldl]; [by rewrite filter_nil, app_nil_r|].
    destruct (decide (e.1 = u)) as [He|He].
    - rewrite filter_cons_True by done. rewrite (IH _ (pre ++ [e.2])); [by rewrite <- app_assoc|]. subst u. by rewrite list_lookup_alter_eq, Hp.
    - rewrite filter_cons_False by done. apply IH. by rewrite list_lookup_alter_ne. }
  rewrite (Hg es _ []); [done|]. by apply lookup_replicate.
Qed.

Lemma indegree_lookup v : (v < n)%nat -> indegree n es !! v = Some (pending_into es [] v).
Proof.
  intros Hv. unfold indegree, pending_into.
  assert (Hg : forall (l : list (nat * nat)) (deg : list nat) (d : nat), deg !! v = Some d ->
    foldl (fun deg (e : nat * nat) => alter S e.2 deg) deg l !! v = Some (d + length (filter (fun e : nat * nat => e.2 = v /\ e.1 ∉ []) l))%nat).
  { induction l as [|e l IH]; intros deg d Hd; cbn [foldl]; [by rewrite filter_nil, Nat.add_0_r|].
    destruct (decide (e.2 = v)) as [He|He].
    - rewrite filter_cons_True by (split; [done|apply not_elem_of_nil]). rewrite (IH _ (S d)); [cbn; f_equal; lia|].
      subst v. by rewrite list_lookup_alter_eq, Hd.
    - rewrite filter_cons_False by tauto. apply IH. by rewrite list_lookup_alter_ne. }
  rewrite (Hg es _ 0%nat); [done|]. by apply lookup_replicate.
Qed.

(** Popping [i] leaves the edges from elsewhere. *)
Lemma pending_pop seen i v : i ∉ seen ->
  pending_into es seen v = (pending_into es (seen ++ [i]) v + occurrences v ((filter (fun e : nat * nat => e.1 = i) es).*2))%nat.
Proof.
  intros Hi. unfold pending_into, occurrences. clear Hes. induction es as [|[u w] l IH]; [done|].
  rewrite !(filter_cons _ (u, w)). cbn [fst snd].
  destruct (decide (u = i)) as [->|Hu]; [rewrite fmap_cons, (filter_cons (fun x => x = v))|]; cbn [fst snd];
    repeat destruct (decide _); cbn [length]; rewrite ?IH; try lia; exfalso; rewrite ?not_elem_of_app, ?not_elem_of_cons in *; set_solver.
Qed.

Lemma occurrences_pos v l : v ∈ l -> (0 < occurrences v l)%nat.
Proof.
  unfold occurrences. intros Hv. destruct (filter _ l) eqn:Hf; [|cbn; lia].
  assert (v ∈ filter (fun x => x = v) l) as Hin by (by apply list_elem_of_filter). rewrite Hf in Hin. by apply elem_of_nil in Hin.
Qed.

(** ** The invariant *)
Record Ordering (seen rest queue deg : list nat) : Prop := {
  ord_distinct : NoDup (seen ++ queue);
  ord_bound v : v ∈ seen ++ queue -> (v < n)%nat;
  ord_length : length deg = n;
  ord_degree v : (v < n)%nat -> deg !! v = Some (pending_into es seen v + occurrences v rest)%nat;
  ord_ready v : (v < n)%nat -> (v ∈ seen ++ queue <-> deg !! v = Some 0%nat)
}.

Lemma relax_step seen v rest queue deg : (v < n)%nat -> Ordering seen (v :: rest) queue deg ->
  Ordering seen rest (relax (deg, queue) v).2 (relax (deg, queue) v).1.
Proof.
  intros Hv [Hd Hb Hl Hdeg Hr]. unfold relax. cbn [fst snd].
  assert (Hv0 := Hdeg v Hv). assert (Ho : occurrences v (v :: rest) = S (occurrences v rest)).
  { unfold occurrences. by rewrite filter_cons_True. }
  rewrite Ho in Hv0. set (k := (pending_into es seen v + occurrences v rest)%nat) in *.
  assert (Hk : deg !! v = Some (S k)) by (rewrite Hv0; f_equal; lia).
  assert (Hnew : alter pred v deg !! v = Some k) by (by rewrite list_lookup_alter_eq, Hk).
  assert (Hnotin : v ∉ seen ++ queue) by (intros Hin%Hr; congruence).
  assert (Hother : forall u, u <> v -> alter pred v deg !! u = deg !! u) by (intros u Hu; by rewrite list_lookup_alter_ne).
  assert (Hocc : forall u, u <> v -> occurrences u (v :: rest) = occurrences u rest).
  { intros u Hu. unfold occurrences. by rewrite filter_cons_False. }
  rewrite Hnew.
  split.
  - case_bool_decide; [|done]. rewrite <- Permutation_middle. by constructor.
  - intros u. case_bool_decide; [|apply Hb]. rewrite <- Permutation_middle. intros [->|Hu]%elem_of_cons; [done|by apply Hb].
  - by rewrite length_alter.
  - intros u Hu. destruct (decide (u = v)) as [->|Hne]; [done|]. by rewrite Hother, (Hdeg u Hu), Hocc.
  - intros u Hu. case_bool_decide as Hz; destruct (decide (u = v)) as [->|Hne].
    + rewrite Hnew. split; [done|]. intros _. rewrite <- Permutation_middle. left.
    + rewrite Hother by done. rewrite <- (Hr u Hu), <- Permutation_middle, elem_of_cons. tauto.
    + rewrite Hnew. split; [done|]. intros Hc. by rewrite Hc in Hz.
    + by rewrite Hother, <- (Hr u Hu).
Qed.

Lemma relax_all seen rest queue deg : Forall (fun v => (v < n)%nat) rest -> Ordering seen rest queue deg ->
  Ordering seen [] (foldl relax (deg, queue) rest).2 (foldl relax (deg, queue) rest).1.
Proof.
  intros Hrest. revert queue deg. induction Hrest as [|v rest Hv _ IH]; intros queue deg Ho; [done|].
  cbn [foldl]. apply relax_step in Ho; [|done]. destruct (relax (deg, queue) v) as [deg' queue']. by apply IH.
Qed.

(** A popped vertex comes after everything that points at it. *)
Definition sources_first (l : list nat) : Prop :=
  forall l1 v l2, l = l1 ++ v :: l2 -> forall u, (u, v) ∈ es -> u ∈ l1.

Lemma pop_sources seen i queue deg : Ordering seen [] (i :: queue) deg -> sources_first seen -> sources_first (seen ++ [i]).
Proof.
  intros Ho Hs l1 v l2 Hl u Hu. destruct l2 as [|x l2 _] using rev_ind.
  - apply app_inj_tail in Hl as [-> ->].
    destruct (decide (u ∈ l1)) as [|Hn]; [done|exfalso].
    assert (Hi : (v < n)%nat) by (apply (ord_bound _ _ _ _ Ho); set_solver).
    assert (H0 : deg !! v = Some 0%nat) by (apply (ord_ready _ _ _ _ Ho); [done|set_solver]).
    rewrite (ord_degree _ _ _ _ Ho v Hi) in H0. injection H0 as H0.
    assert (Hin : (u, v) ∈ filter (fun e : nat * nat => e.2 = v /\ e.1 ∉ l1) es) by (by apply list_elem_of_filter).
    unfold pending_into in H0. destruct (filter _ es); [by apply elem_of_nil in Hin|cbn in H0; lia].
  - rewrite app_comm_cons, app_assoc in Hl. apply app_inj_tail in Hl as [-> _]. by eapply Hs.
Qed.

Lemma pop_ordering seen i queue deg : Ordering seen [] (i :: queue) deg ->
  let s := foldl relax (deg, queue) (default [] (adjacency n es !! i)) in Ordering (seen ++ [i]) [] s.2 s.1.
Proof.
  intros Ho. assert (Hi : (i < n)%nat) by (apply (ord_bound _ _ _ _ Ho); set_solver).
  rewrite adjacency_lookup by done. cbn [default]. apply relax_all.
  - apply Forall_fmap, Forall_forall. intros e [_ He]%list_elem_of_filter. rewrite Forall_forall in Hes. by apply Hes.
  - destruct Ho as [Hd Hb Hl Hdeg Hr]. assert (Hperm : (seen ++ [i]) ++ queue = seen ++ i :: queue) by (by rewrite <- app_assoc).
    split; [by rewrite Hperm| |done| |].
    + intros v. rewrite Hperm. apply Hb.
    + intros v Hv. rewrite (Hdeg v Hv). cbn. rewrite Nat.add_0_r. f_equal. apply pending_pop.
      apply NoDup_app in Hd as (_ & Hd & _). intros Hin. apply (Hd i Hin). left.
    + intros v Hv. rewrite Hperm. by apply Hr.
Qed.

(** The loop ends with an empty queue. *)
Lemma kahn_result fuel queue deg seen : (n <= fuel + length seen)%nat -> Ordering seen [] queue deg -> sources_first seen ->
  exists deg', Ordering (kahn fuel (adjacency n es) deg queue seen) [] [] deg' /\ sources_first (kahn fuel (adjacency n es) deg queue seen).
Proof.
  revert queue deg seen. induction fuel as [|fuel IH]; intros queue deg seen Hf Ho Hs; cbn [kahn].
  - exists deg. destruct queue as [|i queue]; [done|exfalso].
    assert (Hle : (length (seen ++ i :: queue) <= length (seq 0 n))%nat).
    { apply submseteq_length, NoDup_submseteq; [apply Ho|]. intros v Hv%(ord_bound _ _ _ _ Ho). apply elem_of_seq. lia. }
    rewrite length_app, length_seq in Hle. cbn in Hle. lia.
  - destruct queue as [|i queue]; [by exists deg|]. apply IH; [rewrite length_app; cbn; lia|by apply pop_ordering|by eapply pop_sources].
Qed.

Lemma kahn_start : let deg := indegree n es in
  Ordering [] [] (rev (filter (fun i => deg !! i = Some 0%nat) (seq 0 n))) deg.
Proof.
  cbv zeta. split.
  - cbn. apply NoDup_ListNoDup, NoDup_rev, NoDup_ListNoDup, NoDup_filter, NoDup_seq.
  - intros v Hv. cbn in Hv. apply list_elem_of_In, in_rev, list_elem_of_In in Hv. apply list_elem_of_filter in Hv as [_ Hv%elem_of_seq]. lia.
  - unfold indegree. assert (Hg : forall l deg, length (foldl (fun deg (e : nat * nat) => alter S e.2 deg) deg l) = length deg).
    { induction l as [|e l IH]; intros deg; cbn; [done|]. by rewrite IH, length_alter. }
    by rewrite Hg, length_replicate.
  - intros v Hv. rewrite indegree_lookup by done. unfold occurrences. cbn. by rewrite Nat.add_0_r.
  - intros v Hv. cbn. rewrite list_elem_of_In, <- in_rev, <- list_elem_of_In, list_elem_of_filter, elem_of_seq. split; [tauto|]. intros ?. split; [done|lia].
Qed.
End Kahn.

(** ** The order is right *)
Lemma id_to_idx_bound {W} (reg : Registry W) id i : id_to_idx reg !! id = Some i -> (i < length (artefacts reg))%nat.
Proof.
  unfold id_to_idx.
  assert (Hg : forall (l : list (nat * Artefact W)) (m : gmap string nat) n,
    Forall (fun ia => (ia.1 < n)%nat) l -> (forall k j, m !! k = Some j -> (j < n)%nat) ->
    forall k j, foldl (fun m ia => <[artefact_id ia.2 := ia.1]> m) m l !! k = Some j -> (j < n)%nat).
  { induction l as [|x l IH]; intros m n Hl Hm k j; cbn; [apply Hm|]. apply Forall_cons_1 in Hl as [Hx Hl].
    apply IH; [done|]. intros k' j' [[_ <-]|[_ Hj]]%lookup_insert_Some; [done|by eapply Hm]. }
  apply Hg; [|by intros ? ? ?%lookup_empty_Some]. apply Forall_forall. intros [j a] Hj%elem_of_lookup_imap. cbn.
  destruct Hj as (j' & a' & [= -> ->] & Ha). by eapply lookup_lt_Some.
Qed.

(** [i] is the index an id stands for: the last artefact registered under it. *)
Definition stands_for {W} (reg : Registry W) (id : string) (i : nat) : Prop :=
  (exists a, artefacts reg !! i = Some a /\ artefact_id a = id) /\
  forall j b, (i < j)%nat -> artefacts reg !! j = Some b -> artefact_id b <> id.

Lemma id_to_idx_stands_for {W} (reg : Registry W) id i : id_to_idx reg !! id = Some i <-> stands_for reg id i.
Proof.
  unfold id_to_idx, stands_for. revert i. induction (artefacts reg) as [|x l IH] using rev_ind; intros i.
  { cbn. rewrite lookup_empty. split; [done|]. by intros [(a & ? & _) _]. }
  rewrite imap_app, foldl_app. cbn. rewrite Nat.add_0_r. destruct (decide (artefact_id x = id)) as [Hx|Hx].
  - rewrite <- Hx, lookup_insert_eq. split.
    + intros [= <-]. split; [exists x; by rewrite list_lookup_middle|]. intros j b Hj Hb%lookup_lt_Some.
      rewrite length_app in Hb. cbn in Hb. lia.
    + intros [(a & Ha & _) Hlast]. apply lookup_lt_Some in Ha. rewrite length_app in Ha. cbn in Ha.
      destruct (decide (i = length l)) as [->|Hi]; [done|]. exfalso. apply (Hlast (length l) x); [lia|by rewrite list_lookup_middle|done].
  - rewrite lookup_insert_ne by done. rewrite IH. split; intros [(a & Ha & Hid) Hlast].
    + split; [exists a; split; [by apply lookup_app_l_Some|done]|]. intros j b Hj [Hb|[_ Hb]]%lookup_app_Some; [by eapply Hlast|].
      apply list_lookup_singleton_Some in Hb as [_ <-]. done.
    + apply lookup_app_Some in Ha as [Ha|[_ Ha]]; [|apply list_lookup_singleton_Some in Ha as [_ <-]; done].
      split; [by exists a|]. intros j b Hj Hb. apply (Hlast j b Hj). by apply lookup_app_l_Some.
Qed.

(** Artefact [v] is declared to be migrated after artefact [u]. *)
Definition depends {W} (reg : Registry W) (u v : nat) : Prop :=
  exists id after pre, (id, after) ∈ dependencies reg /\ pre ∈ after /\ stands_for reg pre u /\ stands_for reg id v.

Lemma edges_depends {W} (reg : Registry W) u v : (u, v) ∈ edges reg <-> depends reg u v.
Proof.
  unfold edges, depends. rewrite list_elem_of_bind. split.
  - intros ([id after] & He & Hd). cbn in He. destruct (id_to_idx reg !! id) as [dep|] eqn:Hdep; [|by apply elem_of_nil in He].
    apply list_elem_of_omap in He as (pre & Hpre & Hp). apply fmap_Some in Hp as (i & Hi & [= -> ->]).
    exists id, after, pre. by rewrite <- !id_to_idx_stands_for.
  - intros (id & after & pre & Hd & Hpre & Hu & Hv). exists (id, after). split; [|done]. cbn.
    apply id_to_idx_stands_for in Hu, Hv. rewrite Hv. apply list_elem_of_omap. exists pre. by rewrite Hu.
Qed.

Lemma edges_bound {W} (reg : Registry W) :
  Forall (fun e => (e.1 < length (artefacts reg))%nat /\ (e.2 < length (artefacts reg))%nat) (edges reg).
Proof.
  apply Forall_forall. intros [u v] He. unfold edges in He. apply list_elem_of_bind in He as (d & He & _).
  destruct (id_to_idx reg !! d.1) as [dep|] eqn:Hd; [|by apply elem_of_nil in He].
  apply list_elem_of_omap in He as (pre & _ & Hp). apply fmap_Some in Hp as (i & Hi & [= -> ->]).
  split; by eapply id_to_idx_bound.
Qed.

(** An order of the vertices that every edge agrees with. *)
Definition acyclic (es : list (nat * nat)) : Prop := exists rank : nat -> nat, forall u v, (u, v) ∈ es -> (rank u < rank v)%nat.

Definition position (o : list nat) (v : nat) : nat := match list_find (fun x => x = v) o with Some (i, _) => i | None => length o end.

Lemma position_prefix l1 v l2 : v ∉ l1 -> position (l1 ++ v :: l2) v = length l1.
Proof.
  intros Hv. unfold position. rewrite list_find_app_r by (apply list_find_None, Forall_forall; intros x Hx ->; done).
  cbn. rewrite decide_True by done. cbn. lia.
Qed.

Lemma position_before l1 u l2 : u ∈ l1 -> (position (l1 ++ l2) u < length l1)%nat.
Proof.
  intros Hu. unfold position. destruct (list_find (fun x => x = u) l1) as [[i x]|] eqn:Hf.
  - rewrite (list_find_app_l _ _ _ _ _ Hf). apply list_find_Some in Hf as (Hi & _). by eapply lookup_lt_Some.
  - apply list_find_None in Hf. rewrite Forall_forall in Hf. by destruct (Hf u Hu).
Qed.

(** ** A run that stops short has met a cycle *)
Section Stuck.
Context (n : nat) (es : list (nat * nat)) (deg : list nat) (o : list nat).
Hypothesis Hes : Forall (fun e => (e.1 < n)%nat /\ (e.2 < n)%nat) es.
Hypothesis Ho : Ordering n es o [] [] deg.

Lemma missing_vertex : length o <> n -> exists v, (v < n)%nat /\ v ∉ o.
Proof.
  intros Hl. assert (Hnd : NoDup o) by (rewrite <- (app_nil_r o); apply Ho).
  destruct (decide (Forall (fun v => v ∈ o) (seq 0 n))) as [Hall|Hnone].
  - exfalso. apply Hl. rewrite Forall_forall in Hall.
    assert (Hle : (length (seq 0 n) <= length o)%nat) by (apply submseteq_length, NoDup_submseteq; [apply NoDup_seq|exact Hall]).
    assert (Hge : (length o <= length (seq 0 n))%nat).
    { apply submseteq_length, NoDup_submseteq; [done|]. intros v Hv. apply elem_of_seq. split; [lia|].
      apply (ord_bound _ _ _ _ _ _ Ho). by rewrite app_nil_r. }
    rewrite length_seq in *. lia.
  - apply not_Forall_Exists in Hnone; [|intros v; apply _]. apply Exists_exists in Hnone as (v & Hv & Hvo).
    exists v. apply elem_of_seq in Hv. split; [lia|done].
Qed.

Lemma missing_predecessor v : (v < n)%nat -> v ∉ o -> exists u, (u, v) ∈ es /\ (u < n)%nat /\ u ∉ o.
Proof.
  intros Hv Hvo. destruct (pending_into es o v) eqn:Hp.
  { destruct Hvo. rewrite <- (app_nil_r o). apply (ord_ready _ _ _ _ _ _ Ho); [done|].
    rewrite (ord_degree _ _ _ _ _ _ Ho v Hv), Hp. done. }
  unfold pending_into in Hp. destruct (filter _ es) as [|[u w] l] eqn:Hf; [done|].
  assert (He : (u, w) ∈ filter (fun e : nat * nat => e.2 = v /\ e.1 ∉ o) es) by (rewrite Hf; left).
  apply list_elem_of_filter in He as [[Hw Huo] He]. cbn in Hw, Huo. subst w. rewrite Forall_forall in Hes.
  exists u. by destruct (Hes _ He).
Qed.

Lemma stuck_cycle : length o <> n -> ~ acyclic es.
Proof.
  intros (v & Hv & Hvo)%missing_vertex [rank Hrank]. revert Hv Hvo.
  induction v as [v IH] using (induction_ltof1 _ rank). intros Hv Hvo.
  destruct (missing_predecessor v Hv Hvo) as (u & Hu & Hun & Huo). by apply (IH u (Hrank _ _ Hu)).
Qed.
End Stuck.

(** What the run of the loop leaves, and what the answer is made of. *)
Lemma topo_sort_run {W} (reg : Registry W) : let n := length (artefacts reg) in
  exists o deg, Ordering n (edges reg) o [] [] deg /\ sources_first (edges reg) o /\ (length o = n -> o ≡ₚ seq 0 n) /\
    topo_sort reg = if bool_decide (length o = n) then inr o else inl "cycle in migration dependencies"%string.
Proof.
  intros n. set (es := edges reg). assert (Hes := edges_bound reg). fold n es in Hes.
  destruct (kahn_result n es Hes n _ _ [] ltac:(lia) (kahn_start n es) ltac:(intros l1 v l2 Hl; by destruct l1)) as (deg & Ho & Hs).
  eexists _, deg. split; [exact Ho|]. split; [exact Hs|]. split.
  - intros Hl. apply submseteq_length_Permutation; [|by rewrite length_seq, Hl].
    apply NoDup_submseteq; [erewrite <- (app_nil_r (kahn _ _ _ _ _)); apply Ho|]. intros v Hv. apply elem_of_seq. split; [lia|].
    apply (ord_bound _ _ _ _ _ _ Ho). by rewrite app_nil_r.
  - unfold topo_sort. fold n es. case_bool_decide as Hl; [by rewrite (proj2 (Nat.eqb_eq _ _) Hl)|by rewrite (proj2 (Nat.eqb_neq _ _) Hl)].
Qed.

Lemma topo_sort_acyclic {W} (reg : Registry W) : acyclic (edges reg) -> exists o, topo_sort reg = inr o.
Proof.
  intros Ha. destruct (topo_sort_run reg) as (o & deg & Ho & _ & _ & ->). case_bool_decide as Hl; [by exists o|].
  by destruct (stuck_cycle _ _ deg o (edges_bound reg) Ho Hl).
Qed.

Lemma topo_sort_perm {W} (reg : Registry W) o : topo_sort reg = inr o -> o ≡ₚ seq 0 (length (artefacts reg)).
Proof. destruct (topo_sort_run reg) as (o' & deg & _ & _ & Hp & ->). case_bool_decide; [|done]. intros [= <-]. auto. Qed.

(** The order of the migrations is right: when the runner gets an order it lists every
    artefact exactly once, each after all it is declared to depend on; and it gets one exactly
    when the declarations have no cycle, so the reported cycle is a real one. *)
Theorem topo_sort_correct {W} (reg : Registry W) :
  (forall o, topo_sort reg = inr o -> o ≡ₚ seq 0 (length (artefacts reg)) /\
     forall l1 v l2, o = l1 ++ v :: l2 -> forall u, depends reg u v -> u ∈ l1) /\
  ((exists o, topo_sort reg = inr o) <-> exists rank : nat -> nat, forall u v, depends reg u v -> (rank u < rank v)%nat).
Proof.
  split; [|split].
  - intros o Hsort. split; [by apply topo_sort_perm|]. revert Hsort. destruct (topo_sort_run reg) as (o' & deg & _ & Hs & _ & ->).
    case_bool_decide; [|done]. intros [= <-] l1 v l2 Ho u Hu%edges_depends. by eapply Hs.
  - intros [o Hsort]. revert Hsort. destruct (topo_sort_run reg) as (o' & deg & Ho & Hs & Hp & ->). case_bool_decide as Hl; [|done].
    intros _. exists (position o'). intros u v Huv%edges_depends.
    assert (Hv : v ∈ o').
    { rewrite (Hp Hl), elem_of_seq. assert (Hb := edges_bound reg). rewrite Forall_forall in Hb. destruct (Hb _ Huv). cbn in *. lia. }
    assert (Hnd : NoDup o') by (rewrite <- (app_nil_r o'); apply Ho).
    apply list_elem_of_split in Hv as (l1 & l2 & ->). assert (Hu := Hs _ _ _ eq_refl u Huv).
    rewrite position_prefix; [by apply position_before|]. apply NoDup_app in Hnd as (_ & Hd & _). intros Hv1. apply (Hd v Hv1). left.
  - intros [rank Hrank]. apply topo_sort_acyclic. exists rank. intros u v Huv. by apply Hrank, edges_depends.
Qed.

(** ** What the runner promises *)

(** [version w id]: the version of the artefact on disk, negative when there is none.  What the
    traits document: a probe changes nothing and tells the version or fails; a migration takes
    its artefact from its source to its result and touches no other, and a failed one leaves
    everything as it was. *)
Class Contract {W} (reg : Registry W) (version : W -> string -> Z) : Prop := {
  probe_tells a w : a ∈ artefacts reg -> wp (read_version a) (fun r w' =>
    (forall id, version w' id = version w id) /\ match r with Got v => v = version w (artefact_id a) | _ => True end) w;
  migration_moves m w : m ∈ migrations reg -> version w (migrates m) = source_version m -> wp (apply m) (fun r w' =>
    forall id, version w' id = match r with
                               | Got _ => if decide (id = migrates m) then result_version m else version w id
                               | _ => version w id
                               end) w;
  migration_advances m : m ∈ migrations reg -> source_version m < result_version m;
  migration_within a m : a ∈ artefacts reg -> m ∈ migrations reg -> migrates m = artefact_id a -> result_version m <= target_version a;
  ids_distinct : NoDup (artefact_id <$> artefacts reg)
}.

(** Where a run without a fatal error leaves an artefact, and the artefacts ahead of the build. *)
Definition settled_version (target v : Z) : Z := if v <? 0 then v else Z.max v target.
Definition ahead {W} (version : W -> string -> Z) (w : W) (a : Artefact W) : option UnsupportedFutureVersion :=
  let v := version w (artefact_id a) in
  if (0 <=? v) && (target_version a <? v) then Some (mkFuture (artefact_id a) v (target_version a)) else None.

Section Promise.
Context {W : Type} (reg : Registry W) (version : W -> string -> Z) `{HC : !Contract reg version}.

(** Only [id] has moved, upwards and not past [target]. *)
Definition moved (id : string) (target : Z) (w w' : W) : Prop :=
  (forall id', id' <> id -> version w' id' = version w id') /\ version w id <= version w' id /\
  (version w' id <= Z.max target (version w id)).

Lemma moved_refl id target w w' : (forall id', version w' id' = version w id') -> moved id target w w'.
Proof. intros Hw. unfold moved. rewrite Hw. split; [auto|lia]. Qed.

Lemma walk_chain_ends fuel a current acc w : a ∈ artefacts reg ->
  version w (artefact_id a) = current -> (Z.to_nat (target_version a - current) <= fuel)%nat ->
  wp (walk_chain fuel (artefact_id a) reg current (target_version a) acc) (fun r w' =>
    exists o acc', r = Some (o, acc') /\ moved (artefact_id a) (target_version a) w w' /\
      match o with Fine => target_version a <= version w' (artefact_id a) | Future _ => False | _ => True end) w.
Proof.
  intros Ha. revert current acc w. induction fuel as [|fuel IH]; intros current acc w Hv Hf; cbn [walk_chain];
    (destruct (Z.ltb_spec current (target_version a)) as [Hlt|Hge]; cbn [negb];
      [|apply wp_ret; exists Fine, acc; split; [done|]; split; [by apply moved_refl|lia]]).
  { lia. }
  unfold find_migration. destruct (list_find _ _) as [[i m]|] eqn:Hfind; cbn [fmap option_fmap option_map snd];
    [|apply wp_ret; eexists (Fatal _), _; split; [done|]; split; [by apply moved_refl|done]].
  apply list_find_Some in Hfind as (Hi & [Hid Hsrc] & _). apply list_elem_of_lookup_2 in Hi as Hm.
  assert (Hadv := migration_advances m Hm). assert (Hin := migration_within a m Ha Hm Hid).
  apply wp_bind. eapply wp_mono; [|apply (migration_moves m w Hm); congruence].
  intros r w' Hw'. destruct r as [msg|e|[]].
  - apply wp_ret. eexists (Panic _), _. split; [done|]. split; [|done]. by apply moved_refl.
  - apply wp_ret. eexists (Fatal _), _. split; [done|]. split; [|done]. by apply moved_refl.
  - assert (Hnew : version w' (artefact_id a) = result_version m) by (rewrite Hw'; by rewrite decide_True).
    eapply wp_mono; [|apply IH; [done|lia]].
    intros r w'' (o & acc' & -> & (Hframe & Hup & Hmax) & Ho). exists o, acc'. split; [done|]. split; [|done].
    split; [|lia]. intros id' Hid'. rewrite Hframe, Hw' by done. rewrite decide_False by congruence. done.
Qed.
(** What one artefact's turn leaves of it, by its outcome. *)
Definition outcome_of (a : Artefact W) (w w' : W) (o : ArtefactOutcome) : Prop :=
  let id := artefact_id a in
  match o with
  | Fine => version w' id = settled_version (target_version a) (version w id) /\ ahead version w a = None
  | Future f => version w' id = version w id /\ ahead version w a = Some f
  | _ => True
  end.

Lemma migrate_artefact_ends fuel a acc w : a ∈ artefacts reg ->
  (Z.to_nat (target_version a - version w (artefact_id a)) <= fuel)%nat ->
  wp (migrate_artefact fuel a reg acc) (fun r w' =>
    exists o acc', r = Some (o, acc') /\ moved (artefact_id a) (target_version a) w w' /\ outcome_of a w w' o) w.
Proof.
  intros Ha Hf. apply wp_bind. eapply wp_mono; [|by apply (probe_tells a w)].
  intros r w' [Hw Hr]. assert (Hm := moved_refl (artefact_id a) (target_version a) w w' Hw).
  destruct r as [msg|e|v]; [by apply wp_ret; eauto 6|by apply wp_ret; eauto 6|]. subst v.
  unfold outcome_of, settled_version, ahead. rewrite <- (Hw (artefact_id a)) in *.
  destruct (Z.ltb_spec (version w' (artefact_id a)) 0) as [Hneg|Hpos].
  { apply wp_ret. exists Fine, acc. split; [done|]. split; [done|]. by rewrite (proj2 (Z.leb_gt _ _) Hneg). }
  rewrite (proj2 (Z.leb_le _ _) Hpos). cbn [andb].
  destruct (Z.eqb_spec (version w' (artefact_id a)) (target_version a)) as [Heq|Hne].
  { apply wp_ret. exists Fine, acc. split; [done|]. split; [done|]. split; [lia|]. by rewrite (proj2 (Z.ltb_ge _ _)) by lia. }
  destruct (Z.ltb_spec (target_version a) (version w' (artefact_id a))) as [Hlt|Hge]; [by apply wp_ret; eauto 8|].
  eapply wp_mono; [|apply walk_chain_ends; [done|done|exact Hf]].
  intros r w'' (o & acc' & -> & (Hframe & Hup & Hmax) & Ho). exists o, acc'. split; [done|].
  split; [split; [intros id' Hid'; rewrite Hframe by done; apply Hw|rewrite <- (Hw (artefact_id a)); lia]|].
  destruct o; try done. split; [lia|done].
Qed.

(** After the artefacts of [order]. *)
Record passed (order : list (Artefact W)) (future : list UnsupportedFutureVersion) (w w' : W) (r : Report) : Prop := {
  passed_up a : a ∈ order -> version w (artefact_id a) <= version w' (artefact_id a);
  passed_others id : id ∉ artefact_id <$> order -> version w' id = version w id;
  passed_settled a : fatal_error r = None -> a ∈ order ->
    version w' (artefact_id a) = settled_version (target_version a) (version w (artefact_id a));
  passed_future : fatal_error r = None -> future_versions r = future ++ omap (ahead version w) order
}.

Lemma omap_ahead_frame (order : list (Artefact W)) w w' : (forall a, a ∈ order -> version w' (artefact_id a) = version w (artefact_id a)) ->
  omap (ahead version w') order = omap (ahead version w) order.
Proof.
  intros Hw. induction order as [|a order IH]; [done|]. cbn [omap list_omap]. assert (Hah : ahead version w' a = ahead version w a) by (unfold ahead; by rewrite (Hw a) by left).
  rewrite Hah, IH; [done|]. intros b Hb. apply Hw. by right.
Qed.

(** The turn of one artefact and the rest of the list. *)
Lemma passed_cons a order future future' w w1 w2 r : artefact_id a ∉ artefact_id <$> order ->
  moved (artefact_id a) (target_version a) w w1 -> passed order future' w1 w2 r ->
  (fatal_error r = None -> version w1 (artefact_id a) = settled_version (target_version a) (version w (artefact_id a)) /\
     future' = future ++ option_list (ahead version w a)) ->
  passed (a :: order) future w w2 r.
Proof.
  intros Hid (Hframe & Hup & _) [Hup2 Hothers Hsettled Hfuture] Ha.
  assert (Hkeep : version w2 (artefact_id a) = version w1 (artefact_id a)) by (by apply Hothers).
  assert (Hrest : forall b, b ∈ order -> version w1 (artefact_id b) = version w (artefact_id b)).
  { intros b Hb. apply Hframe. intros Heq. apply Hid. rewrite <- Heq. by apply list_elem_of_fmap_2. }
  split.
  - intros b [->|Hb]%elem_of_cons; [lia|]. rewrite <- (Hrest b Hb). by apply Hup2.
  - intros id [Hne Hno]%not_elem_of_cons. rewrite (Hothers id Hno). by apply Hframe.
  - intros b Hok [->|Hb]%elem_of_cons; [rewrite Hkeep; by apply Ha|]. rewrite <- (Hrest b Hb). by apply Hsettled.
  - intros Hok. rewrite (Hfuture Hok). destruct (Ha Hok) as [_ ->]. rewrite (omap_ahead_frame order w w1 Hrest), <- app_assoc.
    cbn [omap list_omap]. by destruct (ahead version w a).
Qed.

Lemma migrate_all_ends fuel order acc future w : (forall a, a ∈ order -> a ∈ artefacts reg) -> NoDup (artefact_id <$> order) ->
  (forall a, a ∈ order -> (Z.to_nat (target_version a - version w (artefact_id a)) <= fuel)%nat) ->
  wp (migrate_all fuel reg order acc future) (fun r w' => exists r', r = Some r' /\ passed order future w w' r') w.
Proof.
  revert acc future w. induction order as [|a order IH]; intros acc future w Hin Hnd Hf.
  { apply wp_ret. eexists. split; [done|]. split; intros; [by apply not_elem_of_nil in H|done|by apply not_elem_of_nil in H0|by rewrite app_nil_r]. }
  apply NoDup_cons in Hnd as [Hid Hnd]. apply wp_bind.
  eapply wp_mono; [|apply (migrate_artefact_ends fuel a acc w); [apply Hin; left|apply Hf; left]].
  intros r w1 (o & acc' & -> & Hm & Ho).
  assert (Hrest : forall b, b ∈ order -> version w1 (artefact_id b) = version w (artefact_id b)).
  { intros b Hb. apply Hm. intros Heq. apply Hid. rewrite <- Heq. by apply list_elem_of_fmap_2. }
  assert (Hstop : forall future e, passed (a :: order) future w w1 (mkReport acc' future (Some e))).
  { intros future' e. split; [|intros id [? _]%not_elem_of_cons; by apply Hm|done|done].
    intros b [->|Hb]%elem_of_cons; [apply Hm|by rewrite Hrest]. }
  destruct o as [|f|e|msg]; [| |by apply wp_ret; eauto|by apply wp_ret; eauto]; destruct Ho as [Hv Hah];
    (eapply wp_mono; [|apply IH; [intros b Hb; apply Hin; by right|done|intros b Hb; rewrite Hrest by done; apply Hf; by right]]);
    intros r w2 (r' & -> & Hp); exists r'; (split; [done|]); eapply passed_cons; [done|exact Hm|exact Hp| |done|exact Hm|exact Hp|];
    intros _; rewrite Hah; cbn; rewrite ?app_nil_r; split; try done.
  rewrite Hv. unfold ahead in Hah. unfold settled_version.
  destruct (Z.leb_spec 0 (version w (artefact_id a))), (Z.ltb_spec (target_version a) (version w (artefact_id a))); try done; cbn in Hah.
  destruct (Z.ltb_spec (version w (artefact_id a)) 0); lia.
Qed.
(** Where nothing is below its target no migration runs. *)
Definition idle (w : W) (a : Artefact W) : Prop :=
  version w (artefact_id a) < 0 \/ target_version a <= version w (artefact_id a).

Lemma migrate_all_idle fuel order acc future w : (forall a, a ∈ order -> a ∈ artefacts reg /\ idle w a) ->
  wp (migrate_all fuel reg order acc future) (fun r w' =>
    (exists r', r = Some r' /\ steps r' = acc) /\ forall id, version w' id = version w id) w.
Proof.
  revert future w. induction order as [|a order IH]; intros future w Hin; [apply wp_ret; by eauto|].
  destruct (Hin a) as [Ha Hidle]; [left|]. apply wp_bind. unfold migrate_artefact. apply wp_bind.
  eapply wp_mono; [|by apply (probe_tells a w)]. intros r w1 [Hw Hr]. unfold idle in Hidle.
  assert (Hnext : forall future, wp (migrate_all fuel reg order acc future) (fun r w' =>
    (exists r', r = Some r' /\ steps r' = acc) /\ forall id, version w' id = version w id) w1).
  { intros future'. eapply wp_mono; [|apply (IH future' w1)].
    - intros r' w' [Hr' Hw']. split; [done|]. intros id. by rewrite Hw'.
    - intros b Hb. unfold idle. rewrite Hw. apply Hin. by right. }
  destruct r as [msg|e|v]; [apply wp_ret, wp_ret; by eauto|apply wp_ret, wp_ret; by eauto|]. subst v.
  repeat (case_match; [apply wp_ret, Hnext|]). lia.
Qed.
End Promise.

Lemma omap_lookup_seq {A} (l : list A) : omap (fun i => l !! i) (seq 0 (length l)) = l.
Proof.
  assert (Hg : forall (pre l : list A), omap (fun i => (pre ++ l) !! i) (seq (length pre) (length l)) = l).
  { intros pre l'. revert pre. induction l' as [|x l' IH]; intros pre; [done|]. cbn. rewrite list_lookup_middle by done. f_equal.
    specialize (IH (pre ++ [x])). rewrite length_app, <- app_assoc, Nat.add_1_r in IH. apply IH. }
  apply (Hg []).
Qed.

(** ** Outside the contract *)

(** A migration that does not advance keeps the startup running for ever. *)
Lemma stuck_migration_never_ends {W} (reg : Registry W) (id : string) (m : Migration W) (target : Z) :
  find_migration reg id (source_version m) = Some m -> result_version m = source_version m -> source_version m < target ->
  (forall w, exists w', run (apply m) w = (Got tt, w')) ->
  forall fuel acc w, (run (walk_chain fuel id reg (source_version m) target acc) w).1 = None.
Proof.
  intros Hf Hr Hlt Happ fuel. induction fuel as [|fuel IH]; intros acc w; cbn [walk_chain];
    rewrite (proj2 (Z.ltb_lt _ _) Hlt); cbn [negb]; [done|].
  rewrite Hf, run_bind. destruct (Happ w) as [w' ->]. rewrite Hr. apply IH.
Qed.

(** The migrations of the application write no file and no key, whatever fails. *)
Lemma app_startup_reads_only from_slice fuel (o : Os) n :
  Os.durable (crash n (run_on_startup fuel (build_app_registry from_slice)) o) = Os.durable o.
Proof.
  apply (keeps_crash (fun o' => Os.durable o' = Os.durable o)); [|done].
  assert (Hread : forall name, keeps (fun o' => Os.durable o' = Os.durable o) (call (Os.read_file name))).
  { intros name. apply keeps_call. intros w. unfold Os.read_file, Os.fallible, Os.next_fault.
    by destruct (faults w) as [|[] ?]; [|done|]; cbn; destruct (files w !! name). }
  assert (Hor : forall name k, keeps (fun o' => Os.durable o' = Os.durable o) (read_or name k)).
  { intros name k. apply keeps_bind.
    - apply keeps_call. intros w. unfold Os.exists_, Os.next_fault. by destruct (faults w) as [|[] ?].
    - intros []; [apply keeps_bind; [apply Hread|intros]; constructor|constructor]. }
  assert (Hwalk : forall fuel id v t acc, keeps (fun o' => Os.durable o' = Os.durable o)
    (walk_chain fuel id (build_app_registry from_slice) v t acc)).
  { intros [|f] id v t acc; cbn [walk_chain]; destruct (negb _); constructor. }
  unfold run_on_startup. destruct (topo_sort _) as [e|ord]; [constructor|].
  generalize (@nil MigrationStep) (@nil UnsupportedFutureVersion).
  assert (Hin : Forall (fun a => a ∈ artefacts (build_app_registry from_slice)) (omap (fun i => artefacts (build_app_registry from_slice) !! i) ord)).
  { apply Forall_forall. intros a (i & _ & Hi)%list_elem_of_omap. by eapply list_elem_of_lookup_2. }
  induction Hin as [|a l Ha _ IH]; intros acc future; cbn [migrate_all]; [constructor|]. apply keeps_bind.
  - apply keeps_bind.
    + cbn in Ha. repeat (apply elem_of_cons in Ha as [->|Ha]); [apply Hor..| |by apply elem_of_nil in Ha].
      apply keeps_bind; [apply Hread|constructor].
    + intros [msg|e|v]; [constructor..|]. repeat (case_match; [constructor|]). apply Hwalk.
  - intros [[[] acc']|]; [apply IH|apply IH|constructor..].
Qed.

(** [v as i32] keeps the low bits: a file of version 2^32 + 1 is taken for one of version 1 and
    one of version 2^32 - 1 for a file that is not there. *)
Example version_truncated (n : Z) (from_slice := fun _ : list Z => inr (JObject (<["v" := JNumber (PosInt n)]> ∅)) : string + json) :
  n = 2 ^ 32 + 1 \/ n = 2 ^ 32 - 1 ->
  run (run_on_startup 1 (mkRegistry [PassGateArtefact from_slice] [] []))
    (mkOs (<["security_pass_hash.bin" := []]> ∅) ∅ []) =
  (Some (mkReport [] [] None), mkOs (<["security_pass_hash.bin" := []]> ∅) ∅ []).
Proof. intros [-> | ->]; vm_compute; reflexivity. Qed.

(** C20. The startup migrations converge: with migrations that keep their documented contract
    and dependencies without a cycle, a run with enough fuel ends with a report; nothing on
    disk goes down a version, no other file is touched; when the report has no fatal error,
    every artefact that is there and not ahead of the build is at its target and the report
    lists exactly those that are ahead; and then a second run applies no migration. *)
Theorem migrations_converge {W} (reg : Registry W) (version : W -> string -> Z) (w : W) (fuel : nat) :
  Contract reg version -> (exists rank : nat -> nat, forall u v, depends reg u v -> (rank u < rank v)%nat) ->
  (forall a, a ∈ artefacts reg -> (Z.to_nat (target_version a - version w (artefact_id a)) <= fuel)%nat) ->
  exists r w', run (run_on_startup fuel reg) w = (Some r, w') /\
    (forall a, a ∈ artefacts reg -> version w (artefact_id a) <= version w' (artefact_id a)) /\
    (forall id, id ∉ artefact_id <$> artefacts reg -> version w' id = version w id) /\
    (fatal_error r = None ->
      (forall a, a ∈ artefacts reg ->
         version w' (artefact_id a) = settled_version (target_version a) (version w (artefact_id a))) /\
      future_versions r ≡ₚ omap (ahead version w) (artefacts reg) /\
      exists r2 w2, run (run_on_startup fuel reg) w' = (Some r2, w2) /\ steps r2 = [] /\ forall id, version w2 id = version w' id).
Proof.
  intros HC [rank Hrank] Hf.
  destruct (topo_sort_acyclic reg) as [o Ho]; [exists rank; intros u v Huv; by apply Hrank, edges_depends|]. assert (Hp := topo_sort_perm reg o Ho).
  set (order := omap (fun i => artefacts reg !! i) o).
  assert (Hord : order ≡ₚ artefacts reg) by (unfold order; rewrite Hp, omap_lookup_seq; done).
  assert (Hwp : wp (run_on_startup fuel reg) (fun r w' => exists r', r = Some r' /\ passed version order [] w w' r') w).
  { unfold run_on_startup. rewrite Ho. apply migrate_all_ends; [done| | |].
    - intros a. by rewrite Hord.
    - rewrite Hord. apply ids_distinct.
    - intros a. rewrite Hord. apply Hf. }
  unfold wp in Hwp. destruct (run _ _) as [r w'] eqn:Hr. destruct Hwp as (r' & Hr' & [Hup Hothers Hsettled Hfuture]). cbn in *. subst r.
  exists r', w'. split; [done|]. split; [intros a Ha; apply Hup; by rewrite Hord|].
  split; [intros id Hid; apply Hothers; by rewrite Hord|]. intros Hok.
  assert (Hset : forall a, a ∈ artefacts reg -> version w' (artefact_id a) = settled_version (target_version a) (version w (artefact_id a))).
  { intros a Ha. apply Hsettled; [done|by rewrite Hord]. }
  split; [done|]. split; [rewrite (Hfuture Hok); cbn; by rewrite Hord|].
  assert (Hidle : wp (run_on_startup fuel reg) (fun r w2 => (exists r', r = Some r' /\ steps r' = []) /\ forall id, version w2 id = version w' id) w').
  { unfold run_on_startup. rewrite Ho. apply migrate_all_idle; [done|]. intros a. fold order. rewrite Hord. intros Ha. split; [done|].
    unfold idle. rewrite (Hset a Ha). unfold settled_version. destruct (Z.ltb_spec (version w (artefact_id a)) 0); lia. }
  unfold wp in Hidle. destruct (run (run_on_startup fuel reg) w') as [r2 w2]. destruct Hidle as [(r3 & Hr2 & Hs3) Hw2]. cbn in *. subst r2. eauto.
Qed.

(** Two artefacts of a toy build, the second to be migrated after the first. *)
Definition toy_step (id : string) (v : Z) : Migration (gmap string Z) :=
  mkMigration id v (v + 1) (call (fun w : gmap string Z => (Got tt, <[id := v + 1]> w))).
Definition toy_version (w : gmap string Z) (id : string) : Z := default (-1) (w !! id).
Definition toy_artefact (id : string) (target : Z) : Artefact (gmap string Z) :=
  mkArtefact id target (call (fun w => (Got (toy_version w id), w))).
Definition toy_registry : Registry (gmap string Z) :=
  mkRegistry [toy_artefact "vault" 3; toy_artefact "config" 2] [toy_step "config" 1; toy_step "vault" 1; toy_step "vault" 2]
    [("vault"%string, ["config"%string; "missing"%string])].
Definition toy_disk : gmap string Z := <["vault" := 1]> (<["config" := 1]> (<["other" := 7]> ∅)).

Instance toy_contract : Contract toy_registry toy_version.
Proof.
  split.
  - intros a w Ha. cbn in Ha. repeat (apply elem_of_cons in Ha as [->|Ha]; [by apply wp_call|]). by apply elem_of_nil in Ha.
  - intros m w Hm _. cbn in Hm.
    repeat (apply elem_of_cons in Hm as [->|Hm]; [apply wp_call; intros id; cbn; unfold toy_version;
      destruct (decide _) as [->|]; [by rewrite lookup_insert_eq|by rewrite lookup_insert_ne by congruence]|]). by apply elem_of_nil in Hm.
  - intros m Hm. cbn in Hm. repeat (apply elem_of_cons in Hm as [->|Hm]; [done|]). by apply elem_of_nil in Hm.
  - intros a m Ha Hm. cbn in Ha, Hm.
    repeat (apply elem_of_cons in Ha as [->|Ha]); try (by apply elem_of_nil in Ha);
      repeat (apply elem_of_cons in Hm as [->|Hm]); try (by apply elem_of_nil in Hm); cbn; intros Hid; congruence || lia.
  - vm_compute. repeat constructor; intros Hin; repeat (apply elem_of_cons in Hin as [Hin|Hin]; [done|]); by apply elem_of_nil in Hin.
Qed.

Example toy_run :
  run (run_on_startup 2 toy_registry) toy_disk =
  (Some (mkReport [mkStep "config" 1 2 true None; mkStep "vault" 1 2 true None; mkStep "vault" 2 3 true None] [] None),
   <["vault" := 3]> (<["config" := 2]> toy_disk)).
Proof. vm_compute. reflexivity. Qed.

Lemma migrations_converge_witness :
  exists r w', run (run_on_startup 2 toy_registry) toy_disk = (Some r, w') /\
    (forall a, a ∈ artefacts toy_registry -> toy_version toy_disk (artefact_id a) <= toy_version w' (artefact_id a)) /\
    (forall id, id ∉ artefact_id <$> artefacts toy_registry -> toy_version w' id = toy_version toy_disk id) /\
    (fatal_error r = None ->
      (forall a, a ∈ artefacts toy_registry ->
         toy_version w' (artefact_id a) = settled_version (target_version a) (toy_version toy_disk (artefact_id a))) /\
      future_versions r ≡ₚ omap (ahead toy_version toy_disk) (artefacts toy_registry) /\
      exists r2 w2, run (run_on_startup 2 toy_registry) w' = (Some r2, w2) /\ steps r2 = [] /\
        forall id, toy_version w2 id = toy_version w' id).
Proof.
  apply (migrations_converge toy_registry toy_version toy_disk 2 toy_contract).
  - exists (fun i => 2 - i)%nat. intros u v Hin%edges_depends. vm_compute in Hin. apply elem_of_cons in Hin as [[= -> ->]|Hin]; [lia|by apply elem_of_nil in Hin].
  - intros a Ha. cbn in Ha. repeat (apply elem_of_cons in Ha as [->|Ha]; [vm_compute; lia|]). by apply elem_of_nil in Ha.
Defined.
