(* ===== verification/FolderTree.v ===== *)
(** * The folder tree ([folder_path.rs], [db/folders.rs])

    Folder paths computed from the flat table, and the operations of the data-access module that
    move and delete folders: the cycle check, the rename that creates its target's parents, the
    recursive deletion.  The theorems: a rename moves exactly one subtree and a re-parenting
    never makes a cycle; the deletion removes exactly the subtree; the cached path sets that the
    user interface renames by text agree with the table. *)
From Stdlib Require Import ZArith Lia.
From stdpp Require Import prelude gmap strings list sorting.
From S2P Require Import Prelude Text Bus PromptRegistry Prog KnownHosts Tables Dao Apply ApplyLaws MergeDelivers.

Open Scope Z_scope.

(** ** Paths of the tree *)
Module FolderPath.

(** [parts.join("/")] *)
Definition join (parts : list string) : string := String.concat "/" parts.

(** The loop of [build_folder_path]; [parts] is kept in the order of the result.  The fuel is
    the number of folders: every round but the last finds a new one ([climb_enough]). *)
Fixpoint climb (fuel : nat) (folders : gmap string FolderRow) (visited : gset string) (parts : list string)
    (current : option string) : string :=
  match current with
  | None => join parts
  | Some id =>
      if bool_decide (id ∈ visited) then "(cycle)/" ++ join parts
      else
        match folders !! id with
        | None => "(orphaned)/" ++ join parts
        | Some row =>
            match fuel with
            | O => ""
            | S fuel => climb fuel folders ({[id]} ∪ visited) (folder_name row :: parts) (parent_id row)
            end
        end
  end.

Definition build_folder_path (folder_id : string) (folders : gmap string FolderRow) : string :=
  if String.eqb folder_id "" then "" else climb (size folders) folders ∅ [] (Some folder_id).

(** A [BTreeMap] iterates in the order of its keys. *)
Definition keys (folders : gmap string FolderRow) : list string := merge_sort str_le (map_to_list folders).*1.

Definition find_folder_id_by_path (path : string) (folders : gmap string FolderRow) : option string :=
  if String.eqb path "" then None
  else snd <$> list_find (fun id => build_folder_path id folders = path) (keys folders).

(** [Vec::dedup]: of equal neighbours the first stays. *)
Fixpoint dedup (l : list string) : list string :=
  match l with
  | a :: rest =>
      match dedup rest with
      | b :: rest' => if String.eqb a b then b :: rest' else a :: b :: rest'
      | [] => [a]
      end
  | [] => []
  end.

Definition sorted_distinct (l : list string) : list string := dedup (merge_sort str_le l).

Definition all_folder_paths (folders : gmap string FolderRow) : list string :=
  sorted_distinct ((fun id => build_folder_path id folders) <$> keys folders).

Definition rows (folders : gmap string FolderRow) : list FolderRow := omap (fun id => folders !! id) (keys folders).

Definition derive_empty_folders (folders : gmap string FolderRow) (used_folder_ids : gset string) : list string :=
  sorted_distinct (filter (fun path => path <> ""%string)
    ((fun row => build_folder_path (folder_key row) folders) <$> filter (fun row => folder_key row ∉ used_folder_ids) (rows folders))).

Definition derive_collapsed_folders (folders : gmap string FolderRow) : list string :=
  sorted_distinct (filter (fun path => path <> ""%string)
    ((fun row => build_folder_path (folder_key row) folders) <$> filter (fun row => collapsed row = true) (rows folders))).

(** [str::strip_prefix] *)
Fixpoint strip_prefix (prefix s : string) : option string :=
  match prefix, s with
  | EmptyString, _ => Some s
  | String a prefix, String b s => if Ascii.eqb a b then strip_prefix prefix s else None
  | String _ _, EmptyString => None
  end.

Definition rename_path (old_path new_path p : string) : string :=
  if String.eqb p old_path then new_path
  else match strip_prefix (old_path ++ "/") p with
       | Some suffix => new_path ++ "/" ++ suffix
       | None => p
       end.

Definition rename_paths_cascade (paths : list string) (old_path new_path : string) : list string :=
  if String.eqb old_path "" || String.eqb new_path "" || String.eqb old_path new_path then sorted_distinct paths
  else sorted_distinct (rename_path old_path new_path <$> paths).

End FolderPath.
Import FolderPath.

(** ** The statements *)
Section Statements.

(** [SELECT parent_id FROM folders WHERE id = ?1], read with [.ok().flatten()]. *)
Definition select_parent (id : string) : sql (option string) := fun t => Some (folders t !! id ≫= parent_id, t).

Definition update_folder (id : string) (f : FolderRow -> FolderRow) : sql Z := fun t =>
  match folders t !! id with
  | None => Some (0, t)
  | Some row => change (fun t' => references (folders t') (parent_id (f row))) (over_folders (insert id (f row)) t) 1
  end.

Definition set_name_parent (name : string) (parent : option string) (f : FolderRow) : FolderRow :=
  mkFolder (folder_key f) name parent (folder_sort_order f) (collapsed f) (folder_created_at_ms f).

Definition flip_collapsed (f : FolderRow) : FolderRow :=
  mkFolder (folder_key f) (folder_name f) (parent_id f) (folder_sort_order f) (negb (collapsed f)) (folder_created_at_ms f).

(** The recursive query: the folder itself, and round after round the folders whose parent is
    already in; [UNION] keeps each once. *)
Definition parent_in (s : gset string) (f : FolderRow) : bool :=
  match parent_id f with Some p => bool_decide (p ∈ s) | None => false end.

Definition children_of (m : gmap string FolderRow) (s : gset string) : gset string :=
  dom (filter (fun kf : string * FolderRow => parent_in s kf.2 = true) m).

Definition descendants (m : gmap string FolderRow) (id : string) : gset string :=
  Nat.iter (size m) (fun s => s ∪ children_of m s) (if bool_decide (is_Some (m !! id)) then {[id]} else ∅).

End Statements.

Module FolderDao.
Section Ops.
Context {D : Type} `{Database D}.

Definition toggle_collapsed (id : string) : prog D (Error + Z) := exec "folders toggle_collapsed" (update_folder id flip_collapsed).

Definition MAX_HOPS : nat := N.to_nat 65536.

(** The walk up, with the hops left. *)
Fixpoint climbs_to (hops : nat) (ancestor : string) (current : option string) : prog D (Error + bool) :=
  match current with
  | None => Ret (inr false)
  | Some id =>
      match hops with
      | O => Ret (inl (Io "folders is_descendant_of: traversal hop cap exceeded — likely a pre-existing cycle in the parent_id chain"))
      | S hops =>
          if String.eqb id ancestor then Ret (inr true)
          else let? parent := query_ok (select_parent id) in climbs_to hops ancestor parent
      end
  end.

Definition is_descendant_of (candidate ancestor : string) : prog D (Error + bool) := climbs_to MAX_HOPS ancestor (Some candidate).

Definition update_name_parent (id name : string) (parent : option string) : prog D (Error + Z) :=
  let write := exec "folders update_name_parent" (update_folder id (set_name_parent name parent)) in
  match parent with
  | None => write
  | Some target =>
      if String.eqb target id then Ret (inl (Db ("folders update_name_parent: cycle — parent_id == id (" ++ id ++ ")")))
      else
        let? below := is_descendant_of target id in
        if below : bool then
          Ret (inl (Db ("folders update_name_parent: cycle — refused to move " ++ id ++ " under its own descendant " ++ target)))
        else write
  end.

(** A [rusqlite] transaction: dropped without a commit it is rolled back. *)
Definition in_transaction {A} (label : string) (body : prog D (Error + (bool * A))) : prog D (Error + A) :=
  let! b := call begin_tx in
  match b with
  | inl e => Ret (inl (Db (label ++ " tx: " ++ e)))
  | inr _ =>
      let! r := body in
      match r with
      | inl e => let! _ := call rollback_tx in Ret (inl e)
      | inr (false, a) => let! _ := call rollback_tx in Ret (inr a)
      | inr (true, a) =>
          let! c := call commit_tx in
          Ret (match c with inl e => inl (Db (label ++ " commit: " ++ e)) | inr _ => inr a end)
      end
  end.

Definition resolve_or_create_path (path : string) (now_ms : Z) : prog D (Error + option string) :=
  if String.eqb path "" then Ret (inr None)
  else in_transaction "folders resolve_or_create_path"
         (let? leaf := Folders.ensure_folder_path path now_ms in Ret (inr (true, leaf))).

(** What the transaction of a rename does; [false]: returned before the commit. *)
Definition rename_in_tx (old_path new_path : string) (now_ms : Z) : prog D (Error + (bool * Z)) :=
  let? folders := Folders.list_all in
  match find_folder_id_by_path old_path (by_id folder_key folders) with
  | None => Ret (inr (false, 0))
  | Some folder_id =>
      let segs := segments new_path in
      match last segs with
      | None => Ret (inl (Db ("folders rename_path_cascade: empty new_path after split: " ++ new_path)))
      | Some new_name =>
          let new_parent_path := join (removelast segs) in
          let? new_parent_id := Folders.ensure_folder_path new_parent_path now_ms in
          let? n := update_name_parent folder_id new_name new_parent_id in
          Ret (inr (true, n))
      end
  end.

Definition rename_path_cascade (old_path new_path : string) (now_ms : Z) : prog D (Error + Z) :=
  if String.eqb old_path "" || String.eqb new_path "" || String.eqb old_path new_path then Ret (inr 0)
  else if String.prefix (old_path ++ "/") new_path then
    Ret (inl (Db ("folders rename_path_cascade: refused to move " ++ old_path ++ " under its own descendant " ++ new_path)))
  else in_transaction "folders rename_path_cascade" (rename_in_tx old_path new_path now_ms).

Definition delete_recursive (id : string) : prog D (Error + Z) :=
  exec "folders delete_recursive" (fun t => delete_folders (fun k => bool_decide (k ∈ descendants (folders t) id)) t).

End Ops.
End FolderDao.

(** ** Text *)
Lemma list_ascii_app (a b : string) : String.list_ascii_of_string (a ++ b) = (String.list_ascii_of_string a ++ String.list_ascii_of_string b)%list.
Proof. induction a as [|c a IH]; [done|]. change (String c a ++ b)%string with (String c (a ++ b)). cbn. by rewrite IH. Qed.

Definition plain (s : string) : Prop := s <> ""%string /\ slash ∉ String.list_ascii_of_string s.

Definition split_chars (l : list Ascii.ascii) : list (list Ascii.ascii) :=
  foldr (fun c acc => match acc with
                      | [] => [[c]]
                      | h :: rest => if Ascii.eqb c slash then [] :: h :: rest else (c :: h) :: rest
                      end) [[]] l.

Lemma split_chars_some l : exists h rest, split_chars l = h :: rest.
Proof. destruct l as [|c l]; cbn; [eauto|]. destruct (foldr _ _ _); [eauto|]. destruct (Ascii.eqb c slash); eauto. Qed.

Lemma split_chars_plain w l : slash ∉ w ->
  split_chars (w ++ slash :: l) = w :: split_chars l /\ split_chars w = [w].
Proof.
  induction w as [|c w IH]; intros Hw; cbn.
  - destruct (split_chars_some l) as (h & rest & Hl). unfold split_chars in Hl |- *. by rewrite Hl.
  - apply not_elem_of_cons in Hw as [Hc Hw]. destruct (IH Hw) as [H1 H2]. unfold split_chars in H1, H2. rewrite H1, H2.
    destruct (Ascii.eqb_spec c slash); [by subst c|done].
Qed.

Lemma split_chars_all_plain l : Forall (fun w => slash ∉ w) (split_chars l).
Proof.
  induction l as [|c l IH]; cbn; [apply Forall_cons_2; [apply not_elem_of_nil|by apply Forall_nil_2]|].
  fold (split_chars l). destruct (split_chars_some l) as (h & rest & Hl). rewrite Hl in *. apply Forall_cons_1 in IH as [Hh Hr].
  destruct (Ascii.eqb_spec c slash); repeat apply Forall_cons_2; try done; [apply not_elem_of_nil|].
  by apply not_elem_of_cons.
Qed.

Lemma split_slash_join ns : ns <> [] -> Forall plain ns -> split_slash (join ns) = ns.
Proof.
  intros Hne Hns. unfold split_slash. fold (split_chars (String.list_ascii_of_string (join ns))).
  assert (Hs : split_chars (String.list_ascii_of_string (join ns)) = String.list_ascii_of_string <$> ns).
  { induction Hns as [|a ns [_ Ha] Hns IH]; [done|]. unfold join. destruct ns as [|b ns].
    - cbn. by apply (split_chars_plain _ []).
    - change (String.concat "/" (a :: b :: ns)) with (a ++ "/" ++ join (b :: ns))%string. rewrite !list_ascii_app.
      cbn [String.list_ascii_of_string app]. rewrite (proj1 (split_chars_plain _ _ Ha)), IH by done. done. }
  rewrite Hs, <- list_fmap_compose. rewrite <- (list_fmap_id ns) at 2. apply list_fmap_ext. intros i x _. apply String.string_of_list_ascii_of_string.
Qed.

Lemma segments_join ns : Forall plain ns -> segments (join ns) = ns.
Proof.
  intros Hns. unfold segments. destruct ns as [|n ns]; [done|]. rewrite split_slash_join by done.
  induction Hns as [|a l [Ha _] _ IH]; [done|]. rewrite filter_cons_True by done. by rewrite IH.
Qed.

Lemma segments_plain p : Forall plain (segments p).
Proof.
  unfold segments, split_slash. fold (split_chars (String.list_ascii_of_string p)).
  assert (Ha := split_chars_all_plain (String.list_ascii_of_string p)). rewrite Forall_forall in Ha.
  apply Forall_forall. intros s [Hs (w & -> & Hw)%list_elem_of_fmap]%list_elem_of_filter. split; [done|].
  rewrite String.list_ascii_of_string_of_list_ascii. by apply Ha.
Qed.

Lemma join_inj ns ns' : Forall plain ns -> Forall plain ns' -> join ns = join ns' -> ns = ns'.
Proof. intros Hns Hns' Heq. rewrite <- (segments_join ns Hns), <- (segments_join ns' Hns'). by rewrite Heq. Qed.

(** ** The tree in the table *)

(** The names on the way from a root to a folder. *)
Inductive named (m : gmap string FolderRow) : string -> list string -> Prop :=
| named_root k f : m !! k = Some f -> parent_id f = None -> named m k [folder_name f]
| named_child k f p ns : m !! k = Some f -> parent_id f = Some p -> named m p ns -> named m k (ns ++ [folder_name f]).

(** [k] is [a] or somewhere below it. *)
Inductive under (m : gmap string FolderRow) (a : string) : string -> Prop :=
| under_self f : m !! a = Some f -> under m a a
| under_child k f p : m !! k = Some f -> parent_id f = Some p -> under m a p -> under m a k.

(** A forest of folders, each row under its own id, with names that can stand in a path. *)
Record tree (m : gmap string FolderRow) : Prop := {
  tree_named k f : m !! k = Some f -> exists ns, named m k ns;
  tree_keyed k f : m !! k = Some f -> folder_key f = k;
  tree_ids k : is_Some (m !! k) -> k <> ""%string;
  tree_plain k f : m !! k = Some f -> plain (folder_name f)
}.

Lemma named_fun m k ns ns' : named m k ns -> named m k ns' -> ns = ns'.
Proof.
  intros Hn. revert ns'. induction Hn as [k f Hk Hp|k f p ns Hk Hp _ IH]; intros ns' Hn'; inversion Hn'; simplify_eq; [done|].
  f_equal. by apply IH.
Qed.

Lemma named_present m k ns : named m k ns -> is_Some (m !! k).
Proof. destruct 1; eauto. Qed.

Lemma under_present m a k : under m a k -> is_Some (m !! a) /\ is_Some (m !! k).
Proof. induction 1 as [f Hf|k f p Hk Hp _ [IH _]]; eauto. Qed.

Lemma under_trans m a b c : under m a b -> under m b c -> under m a c.
Proof. intros Hab. induction 1 as [f Hf|k f p Hk Hp _ IH]; [done|]. by eapply under_child. Qed.

(** Going up ends: nothing is below its own child. *)
Lemma under_inv m a k : under m a k -> a = k \/ exists f p, m !! k = Some f /\ parent_id f = Some p /\ under m a p.
Proof. destruct 1; [by left|right; eauto]. Qed.

Lemma named_under m k ns a : named m k ns -> under m a k -> exists ns' rest, named m a ns' /\ ns = ns' ++ rest /\ (rest = [] -> a = k).
Proof.
  intros Hn. induction Hn as [k f Hk Hp|k f p ns Hk Hp Hn IH]; intros [->|(f' & p' & Hk' & Hp' & Hu)]%under_inv; simplify_eq.
  - exists [folder_name f], []. split; [by apply named_root|done].
  - exists (ns ++ [folder_name f]), []. rewrite app_nil_r. split; [by eapply named_child|done].
  - destruct (IH Hu) as (ns' & rest & Ha & -> & _). exists ns', (rest ++ [folder_name f]). rewrite app_assoc. split; [done|]. split; [done|].
    intros Hr. by apply app_eq_nil in Hr as [_ ?].
Qed.

Lemma tree_parent m k f p : tree m -> m !! k = Some f -> parent_id f = Some p -> is_Some (m !! p).
Proof. intros Ht Hk Hp. destruct (tree_named _ Ht _ _ Hk) as [ns Hn]. inversion Hn; simplify_eq. by eapply named_present. Qed.

Lemma named_plain m k ns : tree m -> named m k ns -> Forall plain ns /\ ns <> [].
Proof.
  intros Ht. induction 1 as [k f Hk Hp|k f p ns Hk Hp _ [IH _]]; (split; [|by try (intros []%app_eq_nil)]).
  - apply Forall_cons_2; [by eapply tree_plain|by apply Forall_nil_2].
  - apply Forall_app_2; [done|]. apply Forall_cons_2; [by eapply tree_plain|by apply Forall_nil_2].
Qed.

(** ** What [build_folder_path] computes *)

(** The fuel is never spent: more of it changes nothing. *)
Lemma climb_enough m fuel extra visited parts current : visited ⊆ dom m -> (size m <= fuel + size visited)%nat ->
  climb (fuel + extra) m visited parts current = climb fuel m visited parts current.
Proof.
  revert visited parts current. induction fuel as [|fuel IH]; intros visited parts [id|] Hv Hf; [|by destruct extra| |done].
  - assert (Hall : visited = dom m).
    { apply leibniz_equiv, set_subseteq_size_equiv; [done|]. by rewrite size_dom. }
    destruct extra as [|extra]; [done|]. cbn. case_bool_decide as Hin; [done|].
    destruct (m !! id) as [f|] eqn:Hid; [|done]. destruct Hin. rewrite Hall. by eapply elem_of_dom_2.
  - cbn. case_bool_decide as Hin; [done|]. destruct (m !! id) as [f|] eqn:Hid; [|done]. apply IH.
    + apply elem_of_dom_2 in Hid. set_solver.
    + rewrite size_union by set_solver. rewrite size_singleton. lia.
Qed.

(** Climbing from a folder that has names, past nothing already visited. *)
Lemma climb_named m k ns visited parts fuel : named m k ns -> (length ns <= fuel)%nat ->
  (forall j, j ∈ visited -> exists ns', named m j ns' /\ (length ns < length ns')%nat) ->
  climb fuel m visited parts (Some k) = join (ns ++ parts).
Proof.
  intros Hn. revert visited parts fuel. induction Hn as [k f Hk Hp|k f p ns Hk Hp Hn IH]; intros visited parts fuel Hf Hv;
    (assert (Hnew : k ∉ visited) by (intros (ns' & Hns' & Hlt)%Hv;
       assert (Heq := named_fun _ _ _ _ Hns' ltac:(by econstructor)); subst ns'; cbn in *; lia));
    (destruct fuel as [|fuel]; [rewrite ?length_app in Hf; cbn in Hf; lia|]); cbn [climb]; rewrite bool_decide_eq_false_2 by done; rewrite Hk, Hp.
  - by destruct fuel.
  - rewrite IH; [by rewrite <- app_assoc|rewrite length_app in Hf; cbn in Hf; lia|].
    intros j [->%elem_of_singleton|Hj]%elem_of_union.
    + exists (ns ++ [folder_name f]). split; [by eapply named_child|]. rewrite length_app. cbn. lia.
    + destruct (Hv j Hj) as (ns' & Hns' & Hlt). exists ns'. split; [done|]. rewrite length_app in Hlt. cbn in Hlt. lia.
Qed.

Lemma path_of_named m k ns : k <> ""%string -> named m k ns -> build_folder_path k m = join ns.
Proof.
  intros Hk Hn. unfold build_folder_path. destruct (String.eqb_spec k ""); [done|].
  rewrite <- (climb_enough m (size m) (length ns)); [|apply empty_subseteq|lia].
  rewrite (climb_named m k ns); [by rewrite app_nil_r|done|lia|]. intros j Hj. by apply elem_of_empty in Hj.
Qed.

Lemma path_exact m k ns : tree m -> is_Some (m !! k) -> Forall plain ns -> build_folder_path k m = join ns <-> named m k ns.
Proof.
  intros Ht [f Hk] Hns. assert (Hid : k <> ""%string) by (by eapply tree_ids; eauto).
  destruct (tree_named _ Ht _ _ Hk) as [ns' Hn]. rewrite (path_of_named _ _ _ Hid Hn). split.
  - intros Heq%join_inj; [by subst|by eapply named_plain|done].
  - intros Hn'. by rewrite (named_fun _ _ _ _ Hn Hn').
Qed.

(** ** New folders *)
Lemma named_mono m m' k ns : m ⊆ m' -> named m k ns -> named m' k ns.
Proof.
  intros Hm. induction 1; [eapply named_root|eapply named_child]; eauto; by eapply lookup_weaken.
Qed.

Lemma under_mono m m' a k : m ⊆ m' -> under m a k -> under m' a k.
Proof. intros Hm. induction 1; [eapply under_self|eapply under_child]; eauto; by eapply lookup_weaken. Qed.

(** The folder reached by [ns] from the root, [None] standing for the root itself. *)
Definition at_path (m : gmap string FolderRow) (leaf : option string) (ns : list string) : Prop :=
  match leaf with None => ns = [] | Some k => named m k ns end.

Lemma at_path_present m leaf ns : at_path m leaf ns -> references m leaf = true.
Proof. destruct leaf as [k|]; [|done]. intros Hn. cbn. apply bool_decide_eq_true_2. by eapply named_present. Qed.

Lemma named_at m k f ns : m !! k = Some f -> at_path m (parent_id f) ns -> named m k (ns ++ [folder_name f]).
Proof. intros Hk Ha. destruct (parent_id f) as [p|] eqn:Hp; cbn in Ha; [by eapply named_child|]. subst ns. by apply named_root. Qed.

Lemma tree_insert m f ns : tree m -> m !! folder_key f = None -> folder_key f <> ""%string -> plain (folder_name f) ->
  at_path m (parent_id f) ns -> tree (<[folder_key f := f]> m) /\ named (<[folder_key f := f]> m) (folder_key f) (ns ++ [folder_name f]).
Proof.
  intros Ht Hk Hid Hname Ha. assert (Hsub : m ⊆ <[folder_key f := f]> m) by by apply insert_subseteq.
  assert (Hnew : named (<[folder_key f := f]> m) (folder_key f) (ns ++ [folder_name f])).
  { apply named_at; [apply lookup_insert_eq|]. unfold at_path in *. destruct (parent_id f); [by eapply named_mono|done]. }
  split; [|done]. split.
  - intros k g [[<- <-]|[_ Hg]]%lookup_insert_Some; [eauto|]. destruct (tree_named _ Ht _ _ Hg) as [ns' Hn]. exists ns'. by eapply named_mono.
  - intros k g [[<- <-]|[_ Hg]]%lookup_insert_Some; [done|by apply (tree_keyed _ Ht)].
  - intros k [g [[<- <-]|[_ Hg]]%lookup_insert_Some]; [done|]. apply (tree_ids _ Ht). by eexists.
  - intros k g [[<- <-]|[_ Hg]]%lookup_insert_Some; [done|by eapply (tree_plain _ Ht)].
Qed.

(** The folders of [m] are all still there as they were; a new one is on the path [ns]. *)
Record path_added (ns : list string) (m m' : gmap string FolderRow) : Prop := {
  added_tree : tree m';
  added_keeps : m ⊆ m';
  added_on_path k f : m !! k = None -> m' !! k = Some f -> collapsed f = false /\ exists pre, named m' k pre /\ pre `prefix_of` ns
}.

Lemma path_added_trans ns m1 m2 m3 : path_added ns m1 m2 -> path_added ns m2 m3 -> path_added ns m1 m3.
Proof.
  intros [_ Hk1 Hn1] [Ht2 Hk2 Hn2]. split; [done|by etrans|]. intros k f Hk Hf. destruct (m2 !! k) as [f2|] eqn:Hf2; [|by apply Hn2].
  destruct (Hn1 k f2 Hk Hf2) as (Hc & pre & Hpre & Hp). assert (f2 = f) as -> by (eapply lookup_weaken in Hf2; [|done]; congruence).
  split; [done|]. exists pre. split; [by eapply named_mono|done].
Qed.

Definition below (m : gmap string FolderRow) (top leaf : option string) : Prop :=
  forall p, top = Some p -> exists l, leaf = Some l /\ under m p l.

Lemma below_trans m a b c : below m (Some a) (Some b) -> below m (Some b) c -> below m (Some a) c.
Proof.
  intros Hab Hbc p [= <-]. destruct (Hab a eq_refl) as (b' & [= <-] & Hu). destruct (Hbc b eq_refl) as (l & -> & Hu').
  exists l. split; [done|by eapply under_trans].
Qed.

Lemma below_self m k : is_Some (m !! k) -> below m (Some k) (Some k).
Proof. intros [f Hf] p [= <-]. exists k. split; [done|by eapply under_self]. Qed.

(** What the map of known folders knows. *)
Definition knows (m : gmap string FolderRow) (by_parent : Folders.Known) : Prop :=
  forall parent name i, by_parent !! (parent, name) = Some i -> exists f, m !! i = Some f /\ parent_id f = parent /\ folder_name f = name.

Lemma knows_rows m l : (forall f, f ∈ l -> m !! folder_key f = Some f) -> knows m (Folders.known_folders l).
Proof.
  intros Hl. unfold Folders.known_folders.
  assert (Hg : forall l (b : Folders.Known), (forall f, f ∈ l -> m !! folder_key f = Some f) -> knows m b ->
    knows m (foldl (fun m f => <[(parent_id f, folder_name f) := folder_key f]> m) b l)).
  { clear. induction l as [|f l IH]; intros b Hl Hb; cbn; [done|]. apply IH; [intros g Hg; apply Hl; by right|].
    intros parent name i [[[= <- <-] <-]|[_ Hi]]%lookup_insert_Some; [exists f; split; [apply Hl; left|done]|by apply Hb]. }
  apply Hg; [done|]. by intros ? ? ? ?%lookup_empty_Some.
Qed.

Section OnWorking.
Context {D : Type} `{Database D}.

(** A drawn id is not in use. *)
Definition draws_fresh_ids : Prop := forall d : D, Tables.working d ->
  folders (tables d) !! hex_id (fill_bytes d).1 = None /\ hex_id (fill_bytes d).1 <> ""%string.

Lemma over_folders_twice f g t : over_folders f (over_folders g t) = over_folders (fun m => f (g m)) t.
Proof. by destruct t. Qed.

Lemma over_folders_self t : over_folders (fun _ => folders t) t = t.
Proof. by destruct t. Qed.

Context (Hfresh : draws_fresh_ids).

Lemma walk_adds segs now_ms by_parent parent pre d : let m := folders (tables d) in
  Tables.working d -> tree m -> knows m by_parent -> at_path m parent pre -> Forall plain segs ->
  wp (Folders.walk segs now_ms by_parent parent) (fun r d' => let m' := folders (tables d') in
    Tables.working d' /\ tables d' = over_folders (fun _ => m') (tables d) /\ path_added (pre ++ segs) m m' /\
    exists leaf, r = inr leaf /\ at_path m' leaf (pre ++ segs) /\ below m' parent leaf /\
      forall k, m !! k = None -> is_Some (m' !! k) -> below m' (Some k) leaf) d.
Proof.
  intros m Hw Ht Hb Hp Hs. subst m. revert by_parent parent pre d Hw Ht Hb Hp. induction Hs as [|seg segs Hseg Hs IH];
    intros by_parent parent pre d Hw Ht Hb Hp; cbn [Folders.walk].
  { apply wp_ret. rewrite app_nil_r. split_and!; [done|by rewrite over_folders_self| |exists parent; split_and!; [done|done| |]].
    - split; [done|done|]. intros k f Hk Hf. congruence.
    - intros p ->. exact (below_self _ p (named_present _ _ _ Hp) p eq_refl).
    - intros k Hk [f Hf]. congruence. }
  rewrite (app_assoc pre [seg] segs : pre ++ seg :: segs = (pre ++ [seg]) ++ segs).
  destruct (by_parent !! (parent, seg)) as [e|] eqn:He.
  { destruct (Hb _ _ _ He) as (f & Hf & Hpf & <-).
    eapply wp_mono; [|apply (IH by_parent (Some e)); [done..|apply named_at; [done|by rewrite Hpf]]].
    intros a d' (Hw' & Ht' & Hadd & leaf & -> & Hleaf & Hbl & Hnb). split_and!; [done..|]. exists leaf. split_and!; [done|done| |done].
    intros p ->. eapply below_trans; [|exact Hbl|done]. intros p' [= <-]. exists e. split; [done|].
    eapply under_child; [by eapply lookup_weaken; [|apply Hadd]|done|].
    destruct (named_present _ _ _ Hp) as [g Hg]. eapply under_self, lookup_weaken; [exact Hg|apply Hadd]. }
  apply wp_bind. unfold fresh_id. apply wp_bind, wp_call, wp_ret. destruct (Hfresh d Hw) as [Hnew Hne].
  destruct (fill_bytes_same d) as [Ht1 _]. assert (Hw1 := proj1 (working_asks d Hw)).
  set (d1 := (fill_bytes d).2) in *. set (new := hex_id (fill_bytes d).1) in *.
  set (r := mkFolder new seg parent 0 false now_ms).
  destruct (tree_insert (folders (tables d)) r pre Ht Hnew Hne Hseg Hp) as [Htr Hnr]. cbn [folder_key folder_name r] in Htr, Hnr.
  assert (Hsub : folders (tables d) ⊆ <[new := r]> (folders (tables d))) by by apply insert_subseteq.
  apply wp_try. eapply (wp_exec _ _ _ _ () (over_folders (insert new r) (tables d))); [done| |].
  { rewrite Ht1. unfold insert_folder, change. cbn -[references]. rewrite (at_path_present _ parent pre); [done|].
    unfold at_path in *. destruct parent; [by eapply named_mono|done]. }
  intros d2 Hw2 Ht2. assert (Hm2 : folders (tables d2) = <[new := r]> (folders (tables d))) by by rewrite Ht2.
  eapply wp_mono; [|apply (IH _ (Some new) (pre ++ [seg])); rewrite ?Hm2; [done|done| |done]].
  - intros a d' (Hw' & Ht' & Hadd & leaf & -> & Hleaf & Hbl & Hnb). rewrite Hm2 in Hadd, Hnb.
    split_and!; [done|by rewrite Ht', Ht2, over_folders_twice| |exists leaf; split_and!; [done|done| |]].
    + eapply path_added_trans; [|exact Hadd]. split; [done|done|].
      intros k f Hk [[<- <-]|[_ Hf]]%lookup_insert_Some; [|congruence]. split; [done|]. exists (pre ++ [seg]). split; [done|]. by apply prefix_app_r.
    + intros p ->. eapply below_trans; [|exact Hbl|done]. intros p' [= <-]. exists new. split; [done|].
      eapply under_child; [eapply lookup_weaken; [apply lookup_insert_eq|apply Hadd]|done|].
      destruct (named_present _ _ _ Hp) as [g Hg]. eapply under_self, lookup_weaken; [|apply Hadd]. by eapply lookup_weaken.
    + intros k Hk Hk'. destruct (decide (k = new)) as [->|Hne']; [exact Hbl|]. apply Hnb; [by rewrite lookup_insert_ne|done].
  - intros par name i [[[= <- <-] <-]|[_ Hi]]%lookup_insert_Some; [exists r; by rewrite lookup_insert_eq|].
    destruct (Hb _ _ _ Hi) as (f & Hf & Hpf & Hnf). exists f. split; [by eapply lookup_weaken|done].
Qed.

Lemma ensure_adds path now_ms d : let m := folders (tables d) in
  Tables.working d -> tree m -> wp (Folders.ensure_folder_path path now_ms) (fun r d' => let m' := folders (tables d') in
    Tables.working d' /\ tables d' = over_folders (fun _ => m') (tables d) /\ path_added (segments path) m m' /\
    exists leaf, r = inr leaf /\ at_path m' leaf (segments path) /\
      forall k, m !! k = None -> is_Some (m' !! k) -> below m' (Some k) leaf) d.
Proof.
  intros m Hw Ht. subst m. unfold Folders.ensure_folder_path. destruct (String.eqb_spec path "") as [->|_].
  { apply wp_ret. split_and!; [done|by rewrite over_folders_self| |exists None; split_and!; [done|done|]].
    - split; [done|done|]. intros k f Hk Hf. congruence.
    - intros k Hk [f Hf]. congruence. }
  apply wp_try. eapply (wp_query _ _ _ _ (row_order (folders (tables d)))); [done|done|]. intros d1 Hw1 Ht1.
  rewrite <- Ht1. eapply wp_mono; [|apply (walk_adds _ _ _ None []); [done|by rewrite Ht1| |done|apply segments_plain]].
  { intros a d' (Hw' & Ht' & Hadd & leaf & -> & Hleaf & _ & Hnb). split_and!; [done..|]. by exists leaf. }
  apply knows_rows. intros f [k Hf]%row_order_elem. rewrite Ht1 in Hf |- *. assert (Hk := tree_keyed _ Ht _ _ Hf). congruence.
Qed.
End OnWorking.

(** ** One folder moved *)
Lemma under_dec m a k ns : named m k ns -> under m a k \/ ~ under m a k.
Proof.
  induction 1 as [k f Hk Hp|k f p ns Hk Hp _ IH]; (destruct (decide (a = k)) as [->|Hne]; [left; by eapply under_self|]).
  - right. intros [?|(f' & p' & Hk' & Hp' & _)]%under_inv; congruence.
  - destruct IH as [Hu|Hn]; [left; by eapply under_child|]. right.
    intros [?|(f' & p' & Hk' & Hp' & Hu)]%under_inv; by simplify_eq.
Qed.

Section Move.
Context (m : gmap string FolderRow) (fid name : string) (parent : option string) (f : FolderRow) (psegs old : list string).
Hypothesis Ht : tree m.
Hypothesis Hfid : m !! fid = Some f.
Hypothesis Hold : named m fid old.
Hypothesis Hparent : at_path m parent psegs.
Hypothesis Hfree : forall p, parent = Some p -> ~ under m fid p.
Let m' := <[fid := set_name_parent name parent f]> m.

Lemma move_other k ns : named m k ns -> ~ under m fid k -> named m' k ns.
Proof using m fid name parent f.
  clear Ht Hfid Hold Hparent Hfree old psegs.
  induction 1 as [k g Hk Hp|k g p ns Hk Hp Hn IH]; intros Hu; (assert (Hne : fid <> k) by (intros ->; by eapply Hu, under_self)).
  - apply named_root; [|done]. unfold m'. by rewrite lookup_insert_ne.
  - eapply named_child; [|done|apply IH; intros Hup; by eapply Hu, under_child]. unfold m'. by rewrite lookup_insert_ne.
Qed.

Lemma move_at leaf ns : at_path m leaf ns -> (forall p, leaf = Some p -> ~ under m fid p) -> at_path m' leaf ns.
Proof using m fid name parent f. destruct leaf as [p|]; [|done]. intros Hn Hu. apply move_other; [done|by apply Hu]. Qed.

Lemma move_self : named m' fid (psegs ++ [name]).
Proof.
  apply (named_at m' fid (set_name_parent name parent f)); [apply lookup_insert_eq|]. by apply move_at.
Qed.

Lemma move_under k ns : named m k ns -> under m fid k -> exists rest, ns = old ++ rest /\ named m' k ((psegs ++ [name]) ++ rest).
Proof.
  intros Hn Hu. revert ns Hn. induction Hu as [g Hg|k g p Hk Hp Hu IH]; intros ns Hn.
  - exists []. rewrite !app_nil_r. split; [by eapply named_fun|apply move_self].
  - destruct (decide (k = fid)) as [->|Hne].
    { exists []. rewrite !app_nil_r. split; [by eapply named_fun|apply move_self]. }
    inversion Hn as [? g' Hk' Hp'|? g' p' ns' Hk' Hp' Hn']; simplify_eq.
    destruct (IH ns' Hn') as (rest & -> & Hr). exists (rest ++ [folder_name g]). rewrite !app_assoc. split; [done|].
    eapply named_child; [|done|by rewrite <- app_assoc in Hr |- *]. unfold m'. by rewrite lookup_insert_ne.
Qed.

Lemma move_tree : plain name -> tree m'.
Proof.
  intros Hname. split.
  - intros k g Hg. assert (Hk : is_Some (m !! k)).
    { unfold m' in Hg. destruct (decide (k = fid)) as [->|Hne]; [eauto|]. rewrite lookup_insert_ne in Hg by done. eauto. }
    destruct Hk as [g0 Hg0]. destruct (tree_named _ Ht _ _ Hg0) as [ns Hn].
    destruct (under_dec m fid k ns Hn) as [Hu|Hu]; [destruct (move_under k ns Hn Hu) as (rest & _ & ?); eauto|eexists; by eapply move_other].
  - intros k g [[<- <-]|[_ Hg]]%lookup_insert_Some; [cbn; by apply (tree_keyed _ Ht)|by apply (tree_keyed _ Ht)].
  - intros k [g [[<- _]|[_ Hg]]%lookup_insert_Some]; apply (tree_ids _ Ht); eauto.
  - intros k g [[<- <-]|[_ Hg]]%lookup_insert_Some; [done|by eapply (tree_plain _ Ht)].
Qed.
End Move.

Section Reparent.
Context {D : Type} `{Database D}.

Lemma climbs_to_decides hops anc k ns d : Tables.working d -> named (folders (tables d)) k ns ->
  wp (FolderDao.climbs_to hops anc (Some k)) (fun r d' => Tables.working d' /\ tables d' = tables d /\
    match r with inr b => b = true <-> under (folders (tables d)) anc k | inl _ => (hops < length ns)%nat end) d.
Proof.
  revert k hops d. induction ns as [ns IH] using (induction_ltof1 _ length). intros k hops d Hw Hn. destruct hops as [|hops]; cbn [FolderDao.climbs_to].
  { apply wp_ret. split_and!; [done|done|]. inversion Hn; rewrite ?length_app; cbn; lia. }
  destruct (String.eqb_spec k anc) as [->|Hne].
  { apply wp_ret. split_and!; [done|done|]. split; [|done]. intros _. destruct (named_present _ _ _ Hn). by eapply under_self. }
  apply wp_try, wp_bind. eapply wp_execute; [done|reflexivity|].
  intros d1 Hw1 Ht1. apply wp_ret. inversion Hn as [k' f Hk Hp|k' f p ns' Hk Hp Hn']; subst k'; rewrite Hk; cbn [mbind option_bind]; rewrite Hp.
  - destruct hops; cbn [FolderDao.climbs_to]; apply wp_ret; (split_and!; [done|done|]); (split; [done|]);
      intros [->|(f' & p' & Hk' & Hp' & _)]%under_inv; congruence.
  - eapply wp_mono; [|eapply (IH ns'); [|done|by rewrite Ht1]].
    + intros r d' (Hw' & Ht' & Hr). rewrite Ht1 in Ht', Hr. split_and!; [done|done|].
      destruct r as [e|b]; [subst ns; rewrite length_app; cbn; lia|]. rewrite Hr. split; [intros Hu; by eapply under_child|].
      intros [->|(f' & p' & Hk' & Hp' & Hu)]%under_inv; [done|]. by simplify_eq.
    + subst ns. unfold ltof. rewrite length_app. cbn. lia.
Qed.

Lemma update_name_parent_moves id name parent f psegs d : let m := folders (tables d) in
  Tables.working d -> m !! id = Some f -> at_path m parent psegs ->
  wp (FolderDao.update_name_parent id name parent) (fun r d' => Tables.working d' /\
    match r with
    | inr n => n = 1 /\ tables d' = over_folders (insert id (set_name_parent name parent f)) (tables d) /\
               (forall p, parent = Some p -> ~ under m id p)
    | inl _ => tables d' = tables d /\ exists p, parent = Some p /\ (under m id p \/ (FolderDao.MAX_HOPS < length psegs)%nat)
    end) d.
Proof.
  intros m Hw Hid Hp. unfold FolderDao.update_name_parent.
  assert (Hwrite : forall d1, Tables.working d1 -> tables d1 = tables d -> (forall p, parent = Some p -> ~ under m id p) ->
    wp (exec "folders update_name_parent" (update_folder id (set_name_parent name parent))) (fun r d' => Tables.working d' /\
    match r with
    | inr n => n = 1 /\ tables d' = over_folders (insert id (set_name_parent name parent f)) (tables d) /\
               (forall p, parent = Some p -> ~ under m id p)
    | inl _ => tables d' = tables d /\ exists p, parent = Some p /\ (under m id p \/ (FolderDao.MAX_HOPS < length psegs)%nat)
    end) d1).
  { intros d1 Hw1 Ht1 Hfree. eapply (wp_exec _ _ _ _ 1 (over_folders (insert id (set_name_parent name parent f)) (tables d))); [done| |].
    - unfold update_folder, change. rewrite Ht1. fold m. rewrite Hid. cbn -[references].
      assert (Href : references (<[id := set_name_parent name parent f]> m) parent = true).
      { destruct parent as [p|]; [|done]. cbn in Hp |- *. apply bool_decide_eq_true_2. apply named_present in Hp as [g Hg].
        destruct (decide (p = id)) as [->|Hne]; [rewrite lookup_insert_eq; eauto|rewrite lookup_insert_ne by done; eauto]. }
      unfold m in *. rewrite Href. done.
    - intros d' Hw' Ht'. done. }
  destruct parent as [target|]; [|by apply Hwrite]. destruct (String.eqb_spec target id) as [->|Hne].
  { apply wp_ret. split; [done|]. split; [done|]. exists id. split; [done|]. left. by eapply under_self. }
  apply wp_try. eapply wp_mono; [|by apply climbs_to_decides]. intros [e|b] d1 (Hw1 & Ht1 & Hb).
  - split; [done|]. split; [done|]. eauto.
  - destruct b; [apply wp_ret; split; [done|]; split; [done|]; exists target; split; [done|left; by apply Hb]|].
    apply Hwrite; [done|done|]. intros p [= <-] Hu. by apply Hb in Hu.
Qed.
End Reparent.

(** ** Transactions *)
Section Transactions.
Context {D : Type} `{Database D}.

Lemma exec_pending {A} t label (s : sql A) : ensures (pending_on t) (exec label s) (fun _ => True).
Proof. intros d Hd. split; [by apply pending_on_sql|]. done. Qed.

Lemma try_pending {A B} t (p : prog D (Error + A)) (q : A -> prog D (Error + B)) :
  ensures (pending_on t) p (fun _ => True) -> (forall a, ensures (pending_on t) (q a) (fun _ => True)) ->
  ensures (pending_on t) (try p q) (fun _ => True).
Proof. intros Hp Hq. eapply ensures_bind; [exact Hp|]. intros [e|a] _; [done|apply Hq]. Qed.

Lemma ensure_pending t path now_ms : ensures (pending_on t) (Folders.ensure_folder_path path now_ms) (fun _ => True).
Proof.
  unfold Folders.ensure_folder_path. destruct (String.eqb path ""); [done|].
  apply try_pending; [intros d Hd; split; [by apply pending_on_sql|done]|]. intros l.
  generalize (Folders.known_folders l) (@None string). induction (segments path) as [|seg segs IH]; intros b parent; cbn [Folders.walk]; [done|].
  destruct (b !! (parent, seg)); [apply IH|]. eapply ensures_bind with (Q := fun _ => True).
  - intros d Hd. split; [by apply pending_on_fill|done].
  - intros new _. apply try_pending; [apply exec_pending|]. intros []. apply IH.
Qed.

Lemma update_name_parent_pending t id name parent : ensures (pending_on t) (FolderDao.update_name_parent id name parent) (fun _ => True).
Proof.
  unfold FolderDao.update_name_parent. destruct parent as [target|]; [|apply exec_pending].
  destruct (String.eqb target id); [done|]. apply try_pending; [|intros []; [done|apply exec_pending]].
  unfold FolderDao.is_descendant_of. generalize (Some target). induction FolderDao.MAX_HOPS as [|hops IH]; intros [k|]; cbn [FolderDao.climbs_to]; try done.
  destruct (String.eqb k id); [done|]. apply try_pending; [|intros o; apply IH].
  intros d Hd. split; [by apply pending_on_sql|done].
Qed.

Lemma rename_in_tx_pending t old_path new_path now_ms : ensures (pending_on t) (FolderDao.rename_in_tx old_path new_path now_ms) (fun _ => True).
Proof.
  unfold FolderDao.rename_in_tx. apply try_pending; [intros d Hd; split; [by apply pending_on_sql|done]|]. intros l.
  destruct (find_folder_id_by_path _ _); [|done]. destruct (last _); [|done].
  apply try_pending; [apply ensure_pending|]. intros leaf. apply try_pending; [apply update_name_parent_pending|done].
Qed.

(** All or nothing, whatever fails and wherever the process dies. *)
Definition settles {A} (t : Tables) (p : prog D (Error + A)) (d : D) : Prop :=
  always (fun d' => durable d' = t \/ durable d' = durable (run p d).2) p d /\
  (durable (run p d).2 = t \/ exists a, (run p d).1 = inr a).

Lemma settles_call {B A} t (f : D -> B * D) (g : B -> Error + A) d : durable d = t ->
  (durable (f d).2 = t \/ exists a, g (f d).1 = inr a) -> settles t (pbind (call f) (fun b => Ret (g b))) d.
Proof.
  intros Hd Hf. unfold settles. rewrite run_bind, run_call. destruct (f d) as [b d1] eqn:Hfd. cbn [run fst snd] in *.
  split; [|done]. apply always_bind; [apply always_call; rewrite ?Hfd; auto|]. rewrite run_call, Hfd. apply always_ret. by right.
Qed.

Lemma settles_bind {B A} t (p : prog D B) (q : B -> prog D (Error + A)) d : always (fun d' => durable d' = t) p d ->
  settles t (q (run p d).1) (run p d).2 -> settles t (pbind p q) d.
Proof.
  intros Hp [Hq Hend]. unfold settles. rewrite run_bind. destruct (run p d) as [b d1] eqn:Hrun. cbn [fst snd] in *.
  split; [|done]. apply always_bind; [intros n; left; apply Hp|]. by rewrite Hrun.
Qed.

Lemma settles_ret {A} t (r : Error + A) d : durable d = t -> settles t (Ret r) d.
Proof. intros Hd. split; [|by left]. apply always_ret. by left. Qed.

Lemma in_transaction_settles {A} label (body : prog D (Error + (bool * A))) d : saved d = None ->
  ensures (pending_on (tables d)) body (fun _ => True) -> settles (tables d) (FolderDao.in_transaction label body) d.
Proof.
  intros Hs Hb. assert (Hd : durable d = tables d) by (unfold durable; by rewrite Hs).
  unfold FolderDao.in_transaction. destruct (begin_tx d) as [[e|[]] d1] eqn:Hbegin.
  - assert (Hd1 : durable d1 = tables d).
    { destruct (begin_failed d e) as [Ht1 Hs1]; [by rewrite Hbegin|]. rewrite Hbegin in Ht1, Hs1. cbn in *. unfold durable. by rewrite Hs1, Hs. }
    apply settles_bind; [apply always_call; by rewrite ?Hbegin|]. rewrite run_call, Hbegin. by apply settles_ret.
  - assert (Hs1 : pending_on (tables d) d1) by (destruct (begun d) as [_ Hs1]; rewrite Hbegin in *; done).
    apply settles_bind; [apply always_call; [done|]; rewrite Hbegin; by apply pending_on_durable|]. rewrite run_call, Hbegin. cbn [fst snd].
    apply settles_bind; [eapply ensures_always; [exact Hb|done|apply pending_on_durable]|].
    destruct (ensures_run _ _ _ _ Hb Hs1) as [_ Hs2]. destruct (run body d1) as [r d2]. cbn [fst snd] in *.
    assert (Hroll : durable (rollback_tx d2).2 = tables d) by (rewrite durable_rollback; by apply pending_on_durable).
    destruct r as [e|[[] a]]; (apply settles_call; [by apply pending_on_durable|]); [by left| |by left].
    destruct (commit_tx d2).1 as [e|[]] eqn:Hc; [left|right; eauto].
    destruct (commit_failed _ _ Hc) as [Ht3 Hs3]. unfold durable. by rewrite Hs3, Ht3, Hs2.
Qed.

Lemma rename_path_cascade_atomic old_path new_path now_ms d : saved d = None ->
  settles (tables d) (FolderDao.rename_path_cascade old_path new_path now_ms) d.
Proof.
  intros Hs. assert (Hd : durable d = tables d) by (unfold durable; by rewrite Hs). unfold FolderDao.rename_path_cascade.
  destruct (_ || _); [by apply settles_ret|]. destruct (String.prefix _ _); [by apply settles_ret|].
  apply in_transaction_settles; [done|apply rename_in_tx_pending].
Qed.

(** On a working database the transaction is its body, kept or undone. *)
Lemma in_transaction_works {A} label (body : prog D (Error + (bool * A))) (R : Error + (bool * A) -> Tables -> Prop) d :
  Tables.working d -> saved d = None -> ensures (pending_on (tables d)) body (fun _ => True) ->
  (forall d1, Tables.working d1 -> tables d1 = tables d -> wp body (fun r d2 => Tables.working d2 /\ R r (tables d2)) d1) ->
  wp (FolderDao.in_transaction label body) (fun r d' => Tables.working d' /\ saved d' = None /\ exists r0 t2, R r0 t2 /\
    match r0 with
    | inl e => r = inl e /\ tables d' = tables d
    | inr (false, a) => r = inr a /\ tables d' = tables d
    | inr (true, a) => r = inr a /\ tables d' = t2
    end) d.
Proof.
  intros Hw Hs Hb HR. destruct (working_begins d Hw) as [Hb1 Hw1]. destruct (begun d Hb1) as [Ht1 Hs1].
  unfold FolderDao.in_transaction. apply wp_bind, wp_call. rewrite Hb1. apply wp_bind.
  set (d1 := (begin_tx d).2) in *. specialize (HR d1 Hw1 Ht1). unfold wp at 1.
  destruct (ensures_run _ _ _ _ Hb Hs1) as [_ Hs2]. unfold wp in HR. destruct (run body d1) as [r d2]. cbn [fst snd] in *.
  destruct HR as [Hw2 HR]. unfold pending_on in Hs2.
  assert (Hroll : forall r : Error + A, wp (pbind (call rollback_tx) (fun _ => Ret r)) (fun r' d' => Tables.working d' /\ saved d' = None /\ r' = r /\ tables d' = tables d) d2).
  { intros r'. destruct (working_rolls_back d2 Hw2) as [Hr Hw3]. destruct (rolled_back_ok d2 Hr) as [Ht3 Hs3].
    apply wp_bind, wp_call, wp_ret. split_and!; [done..|]. by rewrite Ht3, Hs2. }
  destruct r as [e|[[] a]].
  - eapply wp_mono; [|apply Hroll]. cbn. intros r' d' (? & ? & -> & ?). split_and!; [done..|]. by exists (inl e), (tables d2).
  - destruct (working_commits d2 Hw2) as [Hc Hw3]. destruct (committed d2 Hc) as [Ht3 Hs3].
    apply wp_bind, wp_call. rewrite Hc. apply wp_ret. split_and!; [done..|]. by exists (inr (true, a)), (tables d2).
  - eapply wp_mono; [|apply Hroll]. cbn. intros r' d' (? & ? & -> & ?). split_and!; [done..|]. by exists (inr (false, a)), (tables d2).
Qed.
End Transactions.

(** ** A rename *)
Lemma elem_of_keys m k : k ∈ keys m <-> is_Some (m !! k).
Proof.
  unfold keys. rewrite merge_sort_Permutation, list_elem_of_fmap. split.
  - intros ([k' f] & -> & Hf%elem_of_map_to_list). eauto.
  - intros [f Hf]. exists (k, f). split; [done|by apply elem_of_map_to_list].
Qed.

Lemma find_folder_named path m fid : tree m -> find_folder_id_by_path path m = Some fid ->
  exists f names, m !! fid = Some f /\ named m fid names /\ path = join names.
Proof.
  intros Ht. unfold find_folder_id_by_path. destruct (String.eqb path ""); [done|].
  destruct (list_find _ _) as [[i k]|] eqn:Hf; [|done]. intros [= <-]. apply list_find_Some in Hf as (Hk & Hpath & _).
  apply list_elem_of_lookup_2, elem_of_keys in Hk as [f Hk]. destruct (tree_named _ Ht _ _ Hk) as [names Hn].
  exists f, names. split; [done|]. split; [done|]. rewrite <- Hpath. apply path_of_named; [|done]. by eapply (tree_ids _ Ht); eauto.
Qed.

Lemma find_folder_missing path m : find_folder_id_by_path path m = None ->
  path = ""%string \/ forall k, is_Some (m !! k) -> build_folder_path k m <> path.
Proof.
  unfold find_folder_id_by_path. destruct (String.eqb_spec path ""); [by left|]. destruct (list_find _ _) as [[i k]|] eqn:Hf; [done|].
  intros _. right. intros k Hk. apply list_find_None in Hf. rewrite Forall_forall in Hf. by apply Hf, elem_of_keys.
Qed.

(** What a rename leaves: the folder of the old path stands at the new one with all that is
    below it, every other folder is where it was, and the folders made on the way are the
    missing parents of the new path, open. *)
Record renamed (old_path new_path : string) (m m' : gmap string FolderRow) (fid : string) (names : list string) : Prop := {
  renamed_old : named m fid names /\ old_path = join names;
  renamed_tree : tree m';
  renamed_below k ns : named m k ns -> under m fid k -> exists rest, ns = names ++ rest /\ named m' k (segments new_path ++ rest);
  renamed_elsewhere k ns : named m k ns -> ~ under m fid k -> named m' k ns;
  renamed_row f : m !! fid = Some f -> exists name parent, m' !! fid = Some (set_name_parent name parent f);
  renamed_rows k : is_Some (m !! k) -> k <> fid -> m' !! k = m !! k;
  renamed_made k f : m !! k = None -> m' !! k = Some f ->
    collapsed f = false /\ exists ns, named m' k ns /\ ns `prefix_of` removelast (segments new_path)
}.

(** Why a rename is refused. *)
Definition refused (old_path new_path : string) : Prop :=
  String.prefix (old_path ++ "/") new_path = true \/ segments new_path = [] \/
  segments old_path `prefix_of` removelast (segments new_path) \/ (FolderDao.MAX_HOPS < length (segments new_path))%nat.

Lemma last_removelast {A} (l : list A) x : last l = Some x -> l = removelast l ++ [x].
Proof. intros Hl. apply last_Some in Hl as [l' ->]. by rewrite removelast_last. Qed.

Lemma moved_renamed old_path new_path m m1 fid f names name leaf : tree m -> m !! fid = Some f -> named m fid names -> old_path = join names ->
  last (segments new_path) = Some name -> path_added (removelast (segments new_path)) m m1 ->
  at_path m1 leaf (removelast (segments new_path)) -> (forall k, m !! k = None -> is_Some (m1 !! k) -> below m1 (Some k) leaf) ->
  (forall p, leaf = Some p -> ~ under m1 fid p) ->
  renamed old_path new_path m (<[fid := set_name_parent name leaf f]> m1) fid names.
Proof.
  intros Ht Hfid Hn Hold Hlast [Ht1 Hsub Hnew] Hleaf Hnb Hfree. assert (Hsegs := last_removelast _ _ Hlast).
  assert (Hfid1 : m1 !! fid = Some f) by (by eapply lookup_weaken). assert (Hn1 : named m1 fid names) by (by eapply named_mono).
  assert (Hname : plain name).
  { assert (Hp := segments_plain new_path). rewrite Hsegs in Hp. apply Forall_app in Hp as [_ Hp]. by apply Forall_cons_1 in Hp as [? _]. }
  split; [done|by eapply move_tree| | | | |].
  - intros k ns Hk Hu. rewrite Hsegs. eapply (move_under m1 fid name leaf f); eauto; [by eapply named_mono|by eapply under_mono].
  - intros k ns Hk Hu. apply move_other; [by eapply named_mono|]. intros Hu1.
    destruct (under_dec m fid k ns Hk) as [|Hno]; [done|]. apply Hno. clear -Hu1 Hk Hsub Hfid Ht.
    revert ns Hk. induction Hu1 as [g Hg|k g p Hk1 Hp Hu IH]; intros ns Hk; [by eapply under_self|].
    destruct (named_present _ _ _ Hk) as [g' Hg']. assert (g' = g) as -> by (eapply lookup_weaken in Hg'; [|done]; congruence).
    destruct (tree_parent _ _ _ _ Ht Hg' Hp) as [h Hh]. destruct (tree_named _ Ht _ _ Hh) as [ns' Hns'].
    eapply under_child; [done|done|by eapply IH].
  - intros f' Hf'. simplify_eq. exists name, leaf. by rewrite lookup_insert_eq.
  - intros k [g Hg] Hne. rewrite lookup_insert_ne by done. rewrite Hg. by eapply lookup_weaken.
  - intros k g Hk Hg. assert (Hne : fid <> k) by congruence. rewrite lookup_insert_ne in Hg by done.
    destruct (Hnew k g Hk Hg) as (Hc & pre & Hpre & Hprefix). split; [done|]. exists pre. split; [|done].
    apply move_other; [done|]. intros Hu. destruct (Hnb k Hk ltac:(eauto) k eq_refl) as (l & -> & Hl). by eapply Hfree, under_trans.
Qed.

Section Rename.
Context {D : Type} `{Database D}.
Context (Hfresh : draws_fresh_ids (D := D)).

(** What the body of the rename's transaction does to a tree. *)
Lemma rename_in_tx_moves old_path new_path now_ms d : Tables.working d -> tree (folders (tables d)) -> old_path <> ""%string ->
  wp (FolderDao.rename_in_tx old_path new_path now_ms) (fun r d' => Tables.working d' /\
    let m := folders (tables d) in let m' := folders (tables d') in
    match r with
    | inl _ => refused old_path new_path
    | inr (false, n) => n = 0 /\ forall k, is_Some (m !! k) -> build_folder_path k m <> old_path
    | inr (true, n) => n = 1 /\ tables d' = over_folders (fun _ => m') (tables d) /\
                       exists fid names, renamed old_path new_path m m' fid names
    end) d.
Proof.
  intros Hw Ht Hold. unfold FolderDao.rename_in_tx. apply wp_try.
  eapply (wp_query _ _ _ _ (row_order (folders (tables d)))); [done|done|]. intros d1 Hw1 Ht1.
  rewrite (by_id_row_order folder_key) by (intros k f Hf; by apply (tree_keyed _ Ht)).
  destruct (find_folder_id_by_path old_path (folders (tables d))) as [fid|] eqn:Hfind.
  2:{ apply wp_ret. split; [done|]. split; [done|]. by destruct (find_folder_missing _ _ Hfind). }
  destruct (find_folder_named _ _ _ Ht Hfind) as (f & names & Hfid & Hn & Hpath).
  destruct (last (segments new_path)) as [name|] eqn:Hlast; [|apply wp_ret; split; [done|]; right; left; by apply last_None].
  assert (Hsegs := last_removelast _ _ Hlast).
  assert (Hinit : segments (join (removelast (segments new_path))) = removelast (segments new_path)).
  { apply segments_join. assert (Hp := segments_plain new_path). rewrite Hsegs in Hp. by apply Forall_app in Hp as [? _]. }
  apply wp_try. eapply wp_mono; [|apply (ensure_adds Hfresh); [done|by rewrite Ht1]].
  rewrite Ht1, Hinit. intros r d2 (Hw2 & Ht2 & Hadd & leaf & -> & Hleaf & Hnb).
  assert (Hfid2 : folders (tables d2) !! fid = Some f) by (eapply lookup_weaken; [exact Hfid|apply Hadd]).
  apply wp_try. eapply wp_mono; [|by eapply (update_name_parent_moves fid name leaf f)].
  intros r d3 [Hw3 Hr]. destruct r as [e|n].
  - destruct Hr as (Ht3 & p & -> & Hr). split; [done|]. cbn in Hleaf. right; right. destruct Hr as [Hu|Hlen]; [left|right].
    + destruct (named_under _ _ _ _ Hleaf Hu) as (ns & rest & Hns & -> & _).
      assert (ns = names) as -> by (eapply named_fun; [exact Hns|eapply named_mono; [apply Hadd|done]]).
      rewrite Hpath, segments_join by (by eapply named_plain). by exists rest.
    + rewrite Hsegs, length_app. cbn. lia.
  - destruct Hr as (-> & Ht3 & Hfree). apply wp_ret. split; [done|]. split; [done|]. rewrite Ht3, Ht2.
    split; [by rewrite over_folders_twice|]. exists fid, names. by eapply moved_renamed; eauto; apply Hadd.
Qed.

(** What a rename of a tree reports and leaves. *)
Definition rename_outcome (old_path new_path : string) (t : Tables) (r : Error + Z) (t' : Tables) : Prop :=
  match r with
  | inl _ => t' = t /\ refused old_path new_path
  | inr n =>
      n = 0 /\ t' = t /\
        (old_path = ""%string \/ new_path = ""%string \/ old_path = new_path \/
         forall k, is_Some (folders t !! k) -> build_folder_path k (folders t) <> old_path) \/
      n = 1 /\ t' = over_folders (fun _ => folders t') t /\
        exists fid names, renamed old_path new_path (folders t) (folders t') fid names
  end.

Lemma rename_path_cascade_works old_path new_path now_ms (d : D) :
  saved d = None -> Tables.working d -> tree (folders (tables d)) ->
  wp (FolderDao.rename_path_cascade old_path new_path now_ms)
    (fun r d' => Tables.working d' /\ saved d' = None /\ rename_outcome old_path new_path (tables d) r (tables d')) d.
Proof.
  intros Hs Hw Ht. unfold FolderDao.rename_path_cascade.
  destruct (String.eqb_spec old_path "") as [|Hold]; [apply wp_ret; split_and!; [done|done|left; split_and!; [done|done|auto]]|].
  destruct (String.eqb_spec new_path "") as [|Hnew]; [apply wp_ret; split_and!; [done|done|left; split_and!; [done|done|auto]]|].
  destruct (String.eqb_spec old_path new_path) as [|Hne]; [apply wp_ret; split_and!; [done|done|left; split_and!; [done|done|auto]]|]. cbn [orb].
  destruct (String.prefix (old_path ++ "/") new_path) eqn:Hprefix; [apply wp_ret; split_and!; [done|done|split; [done|by left]]|].
  eapply wp_mono; [|apply (in_transaction_works _ (FolderDao.rename_in_tx old_path new_path now_ms)
    (fun r t2 => match r with
      | inl _ => refused old_path new_path
      | inr (false, n) => n = 0 /\ forall k, is_Some (folders (tables d) !! k) -> build_folder_path k (folders (tables d)) <> old_path
      | inr (true, n) => n = 1 /\ t2 = over_folders (fun _ => folders t2) (tables d) /\
                         exists fid names, renamed old_path new_path (folders (tables d)) (folders t2) fid names
      end) d Hw Hs (rename_in_tx_pending _ _ _ _))].
  - intros r d' (Hw' & Hs' & r0 & t2 & HR & Hr). split_and!; [done..|]. destruct r0 as [e|[[] n]]; destruct Hr as [-> Ht'].
    + done.
    + destruct HR as (-> & Ht2 & Hren). right. rewrite Ht'. done.
    + destruct HR as (-> & Hmiss). left. split_and!; [done..|]. auto.
  - intros d1 Hw1 Ht1. eapply wp_mono; [|by apply rename_in_tx_moves; [|rewrite Ht1|]]. rewrite Ht1. intros r d2 [Hw2 Hr].
    split; [done|]. by destruct r as [e|[[] n]].
Qed.

(** C18. Renaming a folder moves exactly one subtree: on a working database holding a tree, a
    rename that reports one row has put the folder of the old path at the new path with
    everything below it under the same relative path, left every other folder and every other
    table alone, and added only the missing parents of the new path; one that reports no row
    changed nothing, and had nothing to rename; a refusal changed nothing and is one of the
    declared ones.  Whatever statement fails and wherever the process dies, what is durable is
    the tree before or the tree after. *)
Theorem rename_moves_subtree old_path new_path now_ms (d : D) :
  saved d = None ->
  let p := FolderDao.rename_path_cascade old_path new_path now_ms in
  let d' := (run p d).2 in
  (forall n, durable (crash n p d) = tables d \/ durable (crash n p d) = durable d') /\
  (Tables.working d -> tree (folders (tables d)) ->
   Tables.working d' /\ saved d' = None /\ rename_outcome old_path new_path (tables d) (run p d).1 (tables d')).
Proof.
  intros Hs p d'. split; [apply (rename_path_cascade_atomic old_path new_path now_ms d Hs)|].
  by apply rename_path_cascade_works.
Qed.
End Rename.

(** ** A deletion *)
Section Descendants.
Context (m : gmap string FolderRow) (id : string).

Let round (n : nat) : gset string := Nat.iter n (fun s => s ∪ children_of m s) (if bool_decide (is_Some (m !! id)) then {[id]} else ∅).

Lemma elem_of_children s k : k ∈ children_of m s <-> exists f p, m !! k = Some f /\ parent_id f = Some p /\ p ∈ s.
Proof.
  unfold children_of. rewrite elem_of_dom. split.
  - intros [f [Hf Hp]%map_lookup_filter_Some]. cbn in Hp. unfold parent_in in Hp. destruct (parent_id f) as [p|] eqn:Hpf; [|done].
    apply bool_decide_eq_true in Hp. eauto.
  - intros (f & p & Hf & Hp & Hin). exists f. apply map_lookup_filter_Some. split; [done|]. cbn. unfold parent_in. rewrite Hp.
    by apply bool_decide_eq_true_2.
Qed.

Lemma round_under n k : k ∈ round n -> under m id k.
Proof.
  revert k. induction n as [|n IH]; intros k; cbn.
  - case_bool_decide as Hid; [|set_solver]. intros ->%elem_of_singleton. destruct Hid as [f Hf]. by eapply under_self.
  - intros [Hk|(f & p & Hk & Hp & Hin)%elem_of_children]%elem_of_union; [by apply IH|]. eapply under_child; eauto.
Qed.

Lemma round_dom n : round n ⊆ dom m.
Proof. intros k Hk%round_under. apply under_present in Hk as [_ Hk]. by apply elem_of_dom. Qed.

Lemma round_mono n : round n ⊆ round (S n).
Proof. cbn. set_solver. Qed.

(** A round that adds nothing is followed only by such rounds. *)
Lemma round_grows n : children_of m (round n) ⊆ round n \/ (n + size (round 0) <= size (round n))%nat.
Proof.
  induction n as [|n [IH|IH]]; [by right| |].
  - left. assert (Heq : round (S n) = round n) by (cbn; set_solver). by rewrite Heq.
  - destruct (decide (children_of m (round n) ⊆ round n)) as [Hc|Hc].
    + left. assert (Heq : round (S n) = round n) by (cbn; set_solver). by rewrite Heq.
    + right. assert (Hlt : (size (round n) < size (round (S n)))%nat); [|lia]. apply subset_size. split; [apply round_mono|].
      intros Hs. apply Hc. transitivity (round (S n)); [cbn; set_solver|done].
Qed.

Lemma round_closed : children_of m (round (size m)) ⊆ round (size m).
Proof.
  destruct (round_grows (size m)) as [|Hsize]; [done|]. intros k (f & p & Hk & Hp & Hin)%elem_of_children.
  assert (Hall : round (size m) = dom m).
  { apply leibniz_equiv, set_subseteq_size_equiv; [apply round_dom|]. rewrite size_dom. lia. }
  rewrite Hall. by eapply elem_of_dom_2.
Qed.

Lemma elem_of_descendants k : k ∈ descendants m id <-> under m id k.
Proof.
  split; [apply round_under|]. change (descendants m id) with (round (size m)). intros Hu.
  assert (Hstart : forall n, round 0 ⊆ round n) by (induction n as [|n IH]; [done|]; etrans; [exact IH|apply round_mono]).
  induction Hu as [f Hf|k f p Hk Hp _ IH].
  - apply (Hstart (size m)). cbn. rewrite bool_decide_eq_true_2 by eauto. set_solver.
  - apply round_closed, elem_of_children. eauto.
Qed.
End Descendants.

Section Delete.
Context {D : Type} `{Database D}.

(** C19. A recursive deletion removes exactly the subtree: on a working database, whatever the
    table holds (a cycle too), it returns the number of folders at or below the given one;
    those are gone, every other folder keeps its row, the sessions of the removed folders are
    at the root with nothing else changed, and a tree stays a tree. *)
Theorem delete_recursive_exact id (d : D) : Tables.working d ->
  let m := folders (tables d) in
  exists (gone : gset string) d', (forall k, k ∈ gone <-> under m id k) /\
    run (FolderDao.delete_recursive id) d = (inr (Z.of_nat (size gone)), d') /\
    (forall k, folders (tables d') !! k = if bool_decide (k ∈ gone) then None else m !! k) /\
    sessions (tables d') = on_row (detach_main (fun k => bool_decide (k ∈ gone))) <$> sessions (tables d) /\
    (tree m -> tree (folders (tables d'))).
Proof.
  intros Hw m. set (gone := descendants m id). set (g := fun k => bool_decide (k ∈ gone)).
  assert (Hu : forall k, k ∈ gone <-> under m id k) by apply elem_of_descendants.
  assert (Hwp : wp (FolderDao.delete_recursive id) (fun r d' => r = inr (Z.of_nat (size gone)) /\ tables d' = drop_folders g (tables d)) d).
  { eapply (wp_exec _ _ _ _ (count_of (size (filter (fun kv : string * FolderRow => g kv.1 = true) m))) (drop_folders g (tables d))); [done|done|].
    intros d' _ Ht'. split; [|done]. unfold count_of. do 2 f_equal. rewrite <- size_dom. apply set_size_proper. intros k.
    rewrite elem_of_dom. split.
    - intros [f [_ Hg]%map_lookup_filter_Some]. by apply bool_decide_eq_true in Hg.
    - intros Hk. destruct (proj1 (Hu k) Hk) as [f Hf|k f p Hf _ _]; exists f; apply map_lookup_filter_Some; (split; [done|]);
        by apply bool_decide_eq_true_2. }
  unfold wp in Hwp. destruct (run _ _) as [r d']. cbn [fst snd] in Hwp. destruct Hwp as [-> Ht'].
  assert (Hrows : forall k, folders (tables d') !! k = if bool_decide (k ∈ gone) then None else m !! k).
  { intros k. rewrite Ht'. cbn. rewrite lookup_fmap, map_lookup_filter. fold m. destruct (m !! k) as [f|] eqn:Hk; cbn; [|by case_bool_decide].
    destruct (decide (k ∈ gone)) as [Hin|Hin]; [rewrite (bool_decide_eq_true_2 _ Hin)|rewrite (bool_decide_eq_false_2 _ Hin)].
    { rewrite option_guard_False; [done|]. unfold g. by rewrite (bool_decide_eq_true_2 _ Hin). }
    rewrite option_guard_True by (unfold g; by rewrite bool_decide_eq_false_2). cbn. f_equal. unfold detach_folder, orphan.
    destruct f as [i n [p|] o c cr]; cbn; [|done]. unfold g. rewrite bool_decide_eq_false_2; [done|]. intros Hp. apply Hin, Hu.
    eapply under_child; [exact Hk|done|by apply Hu]. }
  exists gone, d'. split_and!; [done|done|done|by rewrite Ht'|]. intros Htree.
  assert (Hkeep : forall k f, folders (tables d') !! k = Some f -> m !! k = Some f /\ ~ under m id k).
  { intros k f. rewrite Hrows. case_bool_decide as Hin; [done|]. split; [done|]. by rewrite <- Hu. }
  split.
  - intros k f [Hf Hno]%Hkeep. destruct (tree_named _ Htree _ _ Hf) as [ns Hn]. exists ns. clear Hf f. revert Hno.
    induction Hn as [k f Hk Hp|k f p ns Hk Hp Hn IH]; intros Hno.
    + apply named_root; [|done]. by rewrite Hrows, bool_decide_eq_false_2 by (by rewrite Hu).
    + eapply named_child; [|done|apply IH; intros Hup; by eapply Hno, under_child]. by rewrite Hrows, bool_decide_eq_false_2 by (by rewrite Hu).
  - intros k f [Hf _]%Hkeep. by apply (tree_keyed _ Htree).
  - intros k [f [Hf _]%Hkeep]. apply (tree_ids _ Htree). eauto.
  - intros k f [Hf _]%Hkeep. by eapply (tree_plain _ Htree).
Qed.
End Delete.

(** Re-parenting keeps the tree: a move the check lets through leaves one, a refused one changes
    nothing. *)
Lemma reparent_keeps_tree `{Database D} id name parent f psegs (d : D) : Tables.working d -> tree (folders (tables d)) ->
  folders (tables d) !! id = Some f -> at_path (folders (tables d)) parent psegs -> plain name ->
  wp (FolderDao.update_name_parent id name parent) (fun r d' => Tables.working d' /\ tree (folders (tables d')) /\
    match r with inr n => n = 1 /\ at_path (folders (tables d')) (Some id) (psegs ++ [name]) | inl _ => tables d' = tables d end) d.
Proof.
  intros Hw Ht Hid Hp Hname. eapply wp_mono; [|by apply update_name_parent_moves]. intros r d' [Hw' Hr]. split; [done|].
  destruct r as [e|n]; [destruct Hr as [-> _]; done|]. destruct Hr as (-> & -> & Hfree). destruct (tree_named _ Ht _ _ Hid) as [old Hold].
  split; [by eapply move_tree|]. split; [done|]. by eapply move_self.
Qed.

(** ** A database that never fails *)
Record QuietDb := mkQuietDb { quiet_tables : Tables; quiet_saved : option Tables }.

(** Longer than every id in use. *)
Definition roomy_bytes (t : Tables) : list Z := replicate (S (max_list ((fun kf => String.length kf.1) <$> map_to_list (folders t)))) 0.

Definition quiet_execute {A} (s : sql A) (d : QuietDb) : (stage * string + A) * QuietDb :=
  match s (quiet_tables d) with
  | Some (a, t) => (inr a, mkQuietDb t (quiet_saved d))
  | None => (inl (Query, "constraint failed"%string), d)
  end.

Lemma length_hex_zeros n : String.length (hex_id (replicate n 0)) = (2 * n)%nat.
Proof.
  unfold hex_id, Text.to_string. assert (Hl : forall l, String.length (String.string_of_list_ascii l) = length l) by (induction l; cbn; congruence).
  rewrite Hl, length_fmap. induction n as [|n IH]; [done|].
  change (S (S (length (Utf8.encode (replicate n 0 ≫= hex_byte)))) = (2 * S n)%nat). rewrite IH. lia.
Qed.

Lemma max_list_in l n : n ∈ l -> (n <= max_list l)%nat.
Proof. induction 1; cbn; lia. Qed.

#[export, program] Instance quiet_database : Database QuietDb := {|
  tables := quiet_tables;
  saved := quiet_saved;
  execute A := quiet_execute;
  begin_tx d := (inr (), mkQuietDb (quiet_tables d) (Some (quiet_tables d)));
  commit_tx d := (inr (), mkQuietDb (quiet_tables d) None);
  rollback_tx d := (inr (), mkQuietDb (default (quiet_tables d) (quiet_saved d)) None);
  fill_bytes d := (roomy_bytes (quiet_tables d), d);
  now_unix_ms d := (1000, d);
  row_order A m := (map_to_list m).*2;
  Tables.working d := True
|}.
Solve Obligations with (try done; unfold quiet_execute; intros; repeat (case_match; simplify_eq/=; try done); naive_solver).

Lemma quiet_draws_fresh : draws_fresh_ids (D := QuietDb).
Proof.
  intros d _. change (folders (quiet_tables d) !! hex_id (roomy_bytes (quiet_tables d)) = None /\ hex_id (roomy_bytes (quiet_tables d)) <> EmptyString).
  assert (Hlen := length_hex_zeros (S (max_list ((fun kf => String.length kf.1) <$> map_to_list (folders (quiet_tables d)))))).
  fold (roomy_bytes (quiet_tables d)) in Hlen. split; [|intros He; by rewrite He in Hlen].
  destruct (folders (quiet_tables d) !! hex_id (roomy_bytes (quiet_tables d))) as [f|] eqn:Hf; [|done]. exfalso.
  assert (Hin : String.length (hex_id (roomy_bytes (quiet_tables d))) ∈ (fun kf : string * FolderRow => String.length kf.1) <$> map_to_list (folders (quiet_tables d))).
  { apply list_elem_of_fmap. exists (hex_id (roomy_bytes (quiet_tables d)), f). split; [done|by apply elem_of_map_to_list]. }
  apply max_list_in in Hin. lia.
Qed.

(** [a] with [b] below it and [c] beside it. *)
Definition toy_folder (k name : string) (parent : option string) (c : bool) : FolderRow := mkFolder k name parent 0 c 5.
Definition toy_folders : gmap string FolderRow :=
  <["a" := toy_folder "a" "infra" None true]> (<["b" := toy_folder "b" "web" (Some "a"%string) true]>
    (<["c" := toy_folder "c" "home" None false]> ∅)).
Definition toy_tables : Tables := over_folders (fun _ => toy_folders) no_tables.
Definition toy_db : QuietDb := mkQuietDb toy_tables None.

Lemma toy_cases k f : toy_folders !! k = Some f ->
  k = "a"%string /\ f = toy_folder "a" "infra" None true \/ k = "b"%string /\ f = toy_folder "b" "web" (Some "a"%string) true \/
  k = "c"%string /\ f = toy_folder "c" "home" None false.
Proof. unfold toy_folders. rewrite !lookup_insert_Some, lookup_empty. naive_solver. Qed.

Lemma toy_tree : tree toy_folders.
Proof.
  split; intros k.
  - intros f Hf. destruct (toy_cases _ _ Hf) as [[-> ->]|[[-> ->]|[-> ->]]].
    + eexists. by apply (named_root _ _ _ Hf).
    + eexists. eapply (named_child _ _ _ _ _ Hf); [done|]. by apply (named_root toy_folders "a" (toy_folder "a" "infra" None true)).
    + eexists. by apply (named_root _ _ _ Hf).
  - intros f Hf. by destruct (toy_cases _ _ Hf) as [[-> ->]|[[-> ->]|[-> ->]]].
  - intros [f Hf]. by destruct (toy_cases _ _ Hf) as [[-> ->]|[[-> ->]|[-> ->]]].
  - intros f Hf. destruct (toy_cases _ _ Hf) as [[-> ->]|[[-> ->]|[-> ->]]]; (split; [done|]); vm_compute; intros Hin;
      repeat (apply elem_of_cons in Hin as [Hin|Hin]; [done|]); by apply elem_of_nil in Hin.
Qed.

Lemma rename_moves_subtree_witness :
  let p := FolderDao.rename_path_cascade "infra" "home/lab/net" 7 in
  let d' := (run p toy_db).2 in
  (run p toy_db).1 = inr 1 /\ build_folder_path "b" (folders (tables d')) = "home/lab/net/web"%string /\
  (forall n, durable (crash n p toy_db) = toy_tables \/ durable (crash n p toy_db) = durable d') /\
  (Tables.working toy_db -> tree toy_folders ->
   Tables.working d' /\ saved d' = None /\ rename_outcome "infra" "home/lab/net" toy_tables (run p toy_db).1 (tables d')).
Proof.
  cbv zeta. split; [vm_compute; reflexivity|]. split; [vm_compute; reflexivity|].
  exact (rename_moves_subtree quiet_draws_fresh "infra" "home/lab/net" 7 toy_db eq_refl).
Defined.

Lemma delete_recursive_exact_witness :
  let m := toy_folders in
  exists (gone : gset string) d', (forall k, k ∈ gone <-> under m "a" k) /\
    run (FolderDao.delete_recursive "a") toy_db = (inr (Z.of_nat (size gone)), d') /\
    (forall k, folders (tables d') !! k = if bool_decide (k ∈ gone) then None else m !! k) /\
    sessions (tables d') = on_row (detach_main (fun k => bool_decide (k ∈ gone))) <$> sessions (tables toy_db) /\
    (tree m -> tree (folders (tables d'))).
Proof. exact (delete_recursive_exact "a" toy_db I). Defined.

(** The other two behaviours: a name that is taken gives two folders of one path, and a walk
    whose query fails takes the folder for a root, so that the move makes a cycle. *)
Example rename_onto_existing_path :
  let d' := (run (FolderDao.rename_path_cascade "infra" "home" 7) toy_db).2 in
  build_folder_path "a" (folders (tables d')) = "home"%string /\ build_folder_path "c" (folders (tables d')) = "home"%string.
Proof. vm_compute. split; reflexivity. Qed.

Example failed_walk_makes_a_cycle :
  let d := mkDemoDb toy_tables None [true] 0 in
  let p := FolderDao.update_name_parent "a" "infra" (Some "b"%string) in
  (run p d).1 = inr 1 /\ build_folder_path "b" (folders (tables (run p d).2)) = "(cycle)/infra/web"%string.
Proof. vm_compute. split; reflexivity. Qed.
