(* ===== verification/FolderPaths.v ===== *)
(** * Cached folder paths

    The user interface keeps sets of folder paths and renames them as text
    ([folder_path::rename_paths_cascade]) while the table is renamed by ids
    ([db::folders::rename_path_cascade]).  The two agree. *)
From Stdlib Require Import ZArith Lia.
From stdpp Require Import prelude gmap strings list sorting.
From S2P Require Import Prelude Text Codec Bus PromptRegistry Prog KnownHosts Tables Dao Apply ApplyLaws MergeDelivers FolderTree.
Import FolderPath.

Open Scope Z_scope.

(** ** The order of strings *)
Lemma compare_cons a s b t : String.compare (String a s) (String b t) =
  match N.compare (Ascii.N_of_ascii a) (Ascii.N_of_ascii b) with Eq => String.compare s t | c => c end.
Proof. done. Qed.

Lemma str_le_iff a b : str_le a b <-> String.compare a b <> Gt.
Proof. unfold str_le, String.leb. by destruct (String.compare a b). Qed.

#[export] Instance str_le_trans : Transitive str_le.
Proof.
  intros a b c. rewrite !str_le_iff. revert b c. induction a as [|x a IH]; intros [|y b] [|z c]; try done.
  rewrite !compare_cons. destruct (N.compare_spec (Ascii.N_of_ascii x) (Ascii.N_of_ascii y)) as [E1|E1|E1],
    (N.compare_spec (Ascii.N_of_ascii y) (Ascii.N_of_ascii z)) as [E2|E2|E2]; try done;
    destruct (N.compare_spec (Ascii.N_of_ascii x) (Ascii.N_of_ascii z)) as [E3|E3|E3]; try done; try lia. apply IH.
Qed.

#[export] Instance str_le_total : Total str_le.
Proof. intros a b. apply String.leb_total. Qed.

#[export] Instance str_le_antisym : AntiSymm (=) str_le.
Proof. intros a b. apply String.leb_antisym. Qed.

(** ** [sort] and [dedup] *)
Lemma elem_of_dedup x l : x ∈ dedup l <-> x ∈ l.
Proof.
  induction l as [|a l IH]; [done|]. cbn. destruct (dedup l) as [|b l'] eqn:Hd.
  - rewrite !elem_of_cons, <- IH. done.
  - destruct (String.eqb_spec a b) as [->|_]; rewrite !elem_of_cons, <- IH, !elem_of_cons; tauto.
Qed.

Lemma dedup_sorted l : StronglySorted str_le l -> StronglySorted str_le (dedup l) /\ NoDup (dedup l).
Proof.
  induction 1 as [|a l Hl [IHs IHn] Ha]; [split; constructor|]. cbn. assert (Hin := fun x => elem_of_dedup x l).
  rewrite List.Forall_forall in Ha. destruct (dedup l) as [|b l'] eqn:Hd.
  - split; [by repeat constructor|]. apply NoDup_singleton.
  - destruct (String.eqb_spec a b) as [->|Hne]; [done|]. split.
    + constructor; [done|]. apply List.Forall_forall. intros x Hx%list_elem_of_In. apply Ha, list_elem_of_In. by apply Hin.
    + apply NoDup_cons. split; [|done]. intros Hx. apply StronglySorted_inv in IHs as [_ Hb]. rewrite List.Forall_forall in Hb.
      apply elem_of_cons in Hx as [|Hx]; [done|]. apply Hne, (anti_symm str_le).
      * apply Ha, list_elem_of_In, Hin. left.
      * apply Hb. by apply list_elem_of_In.
Qed.

Lemma sorted_distinct_ext l l' : (forall x, x ∈ l <-> x ∈ l') -> sorted_distinct l = sorted_distinct l'.
Proof.
  intros Heq. unfold sorted_distinct.
  destruct (dedup_sorted (merge_sort str_le l)) as [Hs Hn]; [apply (StronglySorted_merge_sort str_le)|].
  destruct (dedup_sorted (merge_sort str_le l')) as [Hs' Hn']; [apply (StronglySorted_merge_sort str_le)|].
  apply (StronglySorted_unique str_le); [done..|]. apply NoDup_Permutation; [done..|].
  intros x. by rewrite !elem_of_dedup, !merge_sort_Permutation.
Qed.

Lemma elem_of_sorted_distinct x l : x ∈ sorted_distinct l <-> x ∈ l.
Proof. unfold sorted_distinct. by rewrite elem_of_dedup, merge_sort_Permutation. Qed.

(** ** Text under a renamed prefix *)
Lemma strip_prefix_some p s r : strip_prefix p s = Some r <-> s = (p ++ r)%string.
Proof.
  revert s. induction p as [|a p IH]; intros s; cbn [strip_prefix]; [by split; [intros [= ->]|intros ->]|].
  change (String a p ++ r)%string with (String a (p ++ r)). destruct s as [|b s]; [done|].
  destruct (Ascii.eqb_spec a b) as [->|Hne]; [rewrite IH; split; [by intros ->|by intros [=]]|].
  split; [done|]. intros [=]. congruence.
Qed.

Lemma join_app ns rest : ns <> [] -> rest <> [] -> join (ns ++ rest) = (join ns ++ "/" ++ join rest)%string.
Proof.
  intros Hns Hrest. induction ns as [|a ns IH]; [done|]. destruct ns as [|b ns].
  - destruct rest; done.
  - change (join ((a :: b :: ns) ++ rest)) with (a ++ "/" ++ join ((b :: ns) ++ rest))%string.
    change (join (a :: b :: ns)) with (a ++ "/" ++ join (b :: ns))%string. rewrite IH by done. by rewrite !string_app_assoc.
Qed.

Lemma split_slash_app ns s : ns <> [] -> Forall plain ns -> split_slash (join ns ++ "/" ++ s) = ns ++ split_slash s.
Proof.
  intros Hne Hns. unfold split_slash. fold (split_chars (String.list_ascii_of_string (join ns ++ "/" ++ s))).
  fold (split_chars (String.list_ascii_of_string s)).
  enough (split_chars (String.list_ascii_of_string (join ns ++ "/" ++ s)) = (String.list_ascii_of_string <$> ns) ++ split_chars (String.list_ascii_of_string s)) as Hs.
  { rewrite Hs, fmap_app. f_equal. rewrite <- list_fmap_compose. rewrite <- (list_fmap_id ns) at 2.
    apply list_fmap_ext. intros i x _. apply String.string_of_list_ascii_of_string. }
  induction Hns as [|a ns [_ Ha] Hns IH]; [done|]. destruct ns as [|b ns].
  - change (join [a]) with a. rewrite !list_ascii_app. cbn [String.list_ascii_of_string app]. by rewrite (proj1 (split_chars_plain _ _ Ha)).
  - change (join (a :: b :: ns)) with (a ++ "/" ++ join (b :: ns))%string. rewrite !string_app_assoc, list_ascii_app, list_ascii_app.
    cbn [String.list_ascii_of_string app]. rewrite (proj1 (split_chars_plain _ _ Ha)), IH by done. done.
Qed.

(** Renaming a path as text is renaming its names. *)
Lemma rename_path_names names ns new : names <> [] -> Forall plain names -> Forall plain ns -> ns <> [] -> new <> [] -> Forall plain new ->
  (forall rest, ns = names ++ rest -> rename_path (join names) (join new) (join ns) = join (new ++ rest)) /\
  (~ names `prefix_of` ns -> rename_path (join names) (join new) (join ns) = join ns).
Proof.
  intros Hne Hnames Hns Hnens Hnenew Hnew. unfold rename_path. split.
  - intros rest ->. destruct rest as [|r rest].
    + rewrite !app_nil_r, String.eqb_refl. done.
    + destruct (String.eqb_spec (join (names ++ r :: rest)) (join names)) as [Heq|_].
      { apply join_inj in Heq; [|done|done]. rewrite <- (app_nil_r names) in Heq at 2. by apply app_inv_head in Heq. }
      rewrite join_app by done. rewrite (proj2 (strip_prefix_some _ _ (join (r :: rest)))) by by rewrite string_app_assoc.
      by rewrite join_app.
  - intros Hno. destruct (String.eqb_spec (join ns) (join names)) as [Heq|_].
    { apply join_inj in Heq as ->; [|done|done]. by destruct Hno. }
    destruct (strip_prefix _ _) as [s|] eqn:Hs; [|done]. apply strip_prefix_some in Hs. rewrite string_app_assoc in Hs. destruct Hno.
    exists (split_slash s). rewrite <- split_slash_app, <- Hs by done. by rewrite split_slash_join.
Qed.

(** ** The paths of a tree *)
Lemma elem_of_rows m f : (forall k g, m !! k = Some g -> folder_key g = k) -> f ∈ rows m <-> m !! folder_key f = Some f.
Proof.
  intros Hk. unfold rows. rewrite list_elem_of_omap. split.
  - intros (k & _ & Hf). by rewrite (Hk _ _ Hf).
  - intros Hf. exists (folder_key f). split; [|done]. apply elem_of_keys. eauto.
Qed.

Lemma join_nonempty ns : ns <> [] -> Forall plain ns -> join ns <> ""%string.
Proof. intros Hne Hns Heq. assert (Hs := segments_join ns Hns). rewrite Heq in Hs. by destruct ns. Qed.

Lemma elem_of_collapsed m x : tree m ->
  x ∈ derive_collapsed_folders m <-> exists k f ns, m !! k = Some f /\ collapsed f = true /\ named m k ns /\ x = join ns.
Proof.
  intros Ht. unfold derive_collapsed_folders. rewrite elem_of_sorted_distinct, list_elem_of_filter, list_elem_of_fmap. split.
  - intros [_ (f & -> & [Hc Hf%elem_of_rows]%list_elem_of_filter)]; [|by apply (tree_keyed _ Ht)].
    destruct (tree_named _ Ht _ _ Hf) as [ns Hn]. exists (folder_key f), f, ns. split_and!; [done..|].
    apply path_of_named; [apply (tree_ids _ Ht); eauto|done].
  - intros (k & f & ns & Hk & Hc & Hn & ->). destruct (named_plain _ _ _ Ht Hn) as [Hp Hne]. split; [by apply join_nonempty|].
    assert (Hkey := tree_keyed _ Ht _ _ Hk). exists f. rewrite Hkey. split; [symmetry; apply path_of_named; [apply (tree_ids _ Ht); eauto|done]|].
    apply list_elem_of_filter. split; [done|]. apply elem_of_rows; [by apply (tree_keyed _ Ht)|congruence].
Qed.

(** The folder on the way at a given depth. *)
Lemma named_ancestor m k ns rest : named m k (ns ++ rest) -> ns <> [] -> exists a, named m a ns /\ under m a k.
Proof.
  intros Hn Hne. remember (ns ++ rest) as all eqn:Hall. revert rest Hall. induction Hn as [k f Hk Hp|k f p nsp Hk Hp Hn IH]; intros rest Hall.
  - destruct ns as [|n [|? ?]]; [done| |by destruct rest]. destruct rest; [|done]. injection Hall as <-.
    exists k. split; [by apply named_root|by eapply under_self].
  - destruct rest as [|r rest _] using rev_ind.
    + rewrite app_nil_r in Hall. subst ns. exists k. split; [by eapply named_child|by eapply under_self].
    + rewrite app_assoc in Hall. apply app_inj_tail in Hall as [-> _]. destruct (IH rest eq_refl) as (a & Ha & Hu).
      exists a. split; [done|by eapply under_child].
Qed.

Lemma cascade_paths paths old_path new_path : old_path <> ""%string -> new_path <> ""%string ->
  rename_paths_cascade paths old_path new_path = sorted_distinct (rename_path old_path new_path <$> paths).
Proof.
  intros Hold Hnew. unfold rename_paths_cascade.
  destruct (String.eqb_spec old_path "") as [|_]; [done|]. destruct (String.eqb_spec new_path "") as [|_]; [done|]. cbn [orb].
  destruct (String.eqb_spec old_path new_path) as [->|_]; [|done]. f_equal. rewrite <- (list_fmap_id paths) at 1.
  apply list_fmap_ext. intros i p _. unfold rename_path. destruct (String.eqb_spec p new_path) as [->|_]; [done|].
  destruct (strip_prefix _ p) as [s|] eqn:Hs; [|done]. apply strip_prefix_some in Hs as ->. by rewrite string_app_assoc.
Qed.

Lemma renamed_collapsed old_path new_path m m' fid names : tree m -> renamed old_path new_path m m' fid names ->
  join (segments new_path) = new_path -> (forall k, named m k names -> k = fid) ->
  derive_collapsed_folders m' = rename_paths_cascade (derive_collapsed_folders m) old_path new_path.
Proof.
  intros Ht [[Hn ->] Ht' Hbelow Helse Hrow Hrows Hmade] Hnorm Hunique.
  destruct (named_plain _ _ _ Ht Hn) as [Hnames Hne]. assert (Hnew := segments_plain new_path).
  assert (Hnenew : segments new_path <> []).
  { destruct (named_present _ _ _ Hn) as [f Hf]. destruct (Hbelow fid names Hn ltac:(by eapply under_self)) as (rest & Hr & Hn').
    rewrite <- (app_nil_r names) in Hr at 1. apply app_inv_head in Hr as <-. rewrite app_nil_r in Hn'. by eapply named_plain. }
  (** where a folder ends up is what the text says *)
  assert (Hpath : forall k ns, named m k ns -> exists ns', named m' k ns' /\ join ns' = rename_path (join names) new_path (join ns)).
  { intros k ns Hk. destruct (named_plain _ _ _ Ht Hk) as [Hns Hnens].
    destruct (rename_path_names names ns (segments new_path)) as [Hyes Hno]; [done..|]. rewrite Hnorm in Hyes, Hno.
    destruct (under_dec m fid k ns Hk) as [Hu|Hu].
    - destruct (Hbelow k ns Hk Hu) as (rest & Hr & Hk'). exists (segments new_path ++ rest). split; [done|]. by rewrite (Hyes rest Hr).
    - exists ns. split; [by apply Helse|]. rewrite Hno; [done|]. intros [rest ->].
      destruct (named_ancestor m k names rest Hk Hne) as (a & Ha & Hua). by rewrite (Hunique a Ha) in Hua. }
  assert (Hflag : forall k f, m !! k = Some f -> exists f', m' !! k = Some f' /\ collapsed f' = collapsed f).
  { intros k f Hk. destruct (decide (k = fid)) as [->|Hne']; [destruct (Hrow f Hk) as (? & ? & Hf'); eauto|].
    exists f. split; [rewrite Hrows; eauto|done]. }
  rewrite cascade_paths; [|by apply join_nonempty|rewrite <- Hnorm; by apply join_nonempty].
  unfold derive_collapsed_folders at 1. apply sorted_distinct_ext. intros x. rewrite <- elem_of_sorted_distinct. fold (derive_collapsed_folders m').
  rewrite elem_of_collapsed, list_elem_of_fmap by done. split.
  - intros (k & f' & ns' & Hk' & Hc & Hn' & ->). destruct (m !! k) as [f|] eqn:Hk.
    + destruct (tree_named _ Ht _ _ Hk) as [ns Hns]. destruct (Hpath k ns Hns) as (ns2 & Hn2 & Hj).
      assert (ns2 = ns') as -> by (by eapply named_fun). exists (join ns). split; [done|].
      apply elem_of_collapsed; [done|]. exists k, f, ns. destruct (Hflag k f Hk) as (f2 & Hf2 & Hc2). split_and!; [done| |done..]. congruence.
    + destruct (Hmade k f' Hk Hk') as [Hc' _]. congruence.
  - intros (p & -> & Hp). apply elem_of_collapsed in Hp as (k & f & ns & Hk & Hc & Hns & ->); [|done].
    destruct (Hpath k ns Hns) as (ns' & Hn' & Hj). destruct (Hflag k f Hk) as (f' & Hf' & Hc').
    exists k, f', ns'. split_and!; [done|congruence|done..].
Qed.

Section Cached.
Context {D : Type} `{Database D}.
Context (Hfresh : draws_fresh_ids (D := D)).

(** The user interface renames its cached set of collapsed folders as text, the database
    renames the folder: when a rename to a normalised path has gone through and no other folder
    had the old path, the renamed cache is exactly what the table now says. *)
Theorem cached_paths_follow_rename old_path new_path now_ms (d : D) :
  saved d = None -> Tables.working d -> tree (folders (tables d)) -> join (segments new_path) = new_path ->
  (forall k k', is_Some (folders (tables d) !! k) -> is_Some (folders (tables d) !! k') ->
     build_folder_path k (folders (tables d)) = old_path -> build_folder_path k' (folders (tables d)) = old_path -> k = k') ->
  (run (FolderDao.rename_path_cascade old_path new_path now_ms) d).1 = inr 1 ->
  derive_collapsed_folders (folders (tables (run (FolderDao.rename_path_cascade old_path new_path now_ms) d).2)) =
  rename_paths_cascade (derive_collapsed_folders (folders (tables d))) old_path new_path.
Proof.
  intros Hs Hw Ht Hnorm Hunique Hr.
  assert (Hwp := rename_path_cascade_works Hfresh old_path new_path now_ms d Hs Hw Ht). unfold wp in Hwp. rewrite Hr in Hwp.
  destruct Hwp as (_ & _ & [(Hn & _)|(_ & _ & fid & names & Hren)]); [done|].
  eapply renamed_collapsed; [done|exact Hren|done|]. intros k Hk. destruct (renamed_old _ _ _ _ _ _ Hren) as [Hfid Hold].
  assert (Hpath : forall i, named (folders (tables d)) i names -> build_folder_path i (folders (tables d)) = old_path).
  { intros i Hi. rewrite Hold. apply path_of_named; [|done]. by eapply (tree_ids _ Ht), named_present. }
  apply Hunique; eauto using named_present.
Qed.
End Cached.

Lemma cached_paths_follow_rename_witness :
  let p := FolderDao.rename_path_cascade "infra" "home/lab/net" 7 in
  derive_collapsed_folders toy_folders = ["infra"; "infra/web"]%string /\
  derive_collapsed_folders (folders (tables (run p toy_db).2)) =
  rename_paths_cascade (derive_collapsed_folders toy_folders) "infra" "home/lab/net".
Proof.
  cbv zeta. split; [vm_compute; reflexivity|].
  apply (cached_paths_follow_rename quiet_draws_fresh "infra" "home/lab/net" 7 toy_db eq_refl I toy_tree).
  - vm_compute. reflexivity.
  - intros k k' [f Hf%toy_cases] [f' Hf'%toy_cases]. destruct Hf as [[-> _]|[[-> _]|[-> _]]]; [|by vm_compute..].
    destruct Hf' as [[-> _]|[[-> _]|[-> _]]]; [done|by vm_compute..].
  - vm_compute. reflexivity.
Defined.
