(* ===== verification/Wipe.v ===== *)
(** * Reset and recovery ([security/wipe.rs], [security/wipe_keychain.rs], [security/recovery.rs],
      [security/recovery_prompt.rs], [security/tier_transition_marker.rs], [security/keychain_marker.rs])

    The sweep of the support directory with its marker, the purge of the keychain, the cascade
    that composes them with the hardware vault, and the prompts that lead to it.  The theorems: a
    sweep cut anywhere is before, after or marked as pending, and running it again finishes it; a
    recovery prompt destroys nothing unless the answer is a reset. *)
From Stdlib Require Import ZArith Lia.
From stdpp Require Import prelude gmap strings list pretty.
From S2P Require Import Prelude Text Types Codec Bus Json Prog AtomicFile Secrets Crypto Gate Migration FolderTree FolderPaths.
Import FolderPath.

Open Scope Z_scope.
Open Scope prog_scope.

(** ** Marker files *)
Definition has_header (magic : list Z) (version : Z) (b : list Z) : bool :=
  (5 <=? length b)%nat && bool_decide (take 4 b = magic) && (nth 4 b 0 =? version).

Module KeychainMarker.
Definition MARKER_FILE_NAME : string := "keychain_enabled".

Definition exists_ (dir : string) : prog Os bool := call (Os.exists_ (Gate.join dir MARKER_FILE_NAME)).

Definition set (dir : string) : prog Os (string + unit) :=
  let! d := call Os.create_dir_all in
  match d with
  | inl _ => Ret (inl "create dir"%string)
  | inr _ =>
      let! w := write_bytes_atomic (Gate.join dir MARKER_FILE_NAME) [49] in
      Ret (match w with inl _ => inl "write"%string | inr _ => inr () end)
  end.

Definition clear (dir : string) : prog Os (string + unit) :=
  let path := Gate.join dir MARKER_FILE_NAME in
  let! e := call (Os.exists_ path) in
  if negb e then Ret (inr ())
  else let! r := call (Os.remove_file path) in Ret (match r with inl _ => inl ("delete " ++ path)%string | inr _ => inr () end).
End KeychainMarker.

Module TierTransitionMarker.
Definition MARKER_FILE_NAME : string := ".tier-transition-pending".
Definition MAGIC : list Z := [76; 70; 84; 77].
Definition VERSION : Z := 1.
Definition HEADER_LEN : nat := length MAGIC + 1.

(** The body of the marker, as characters. *)
Definition read (dir : string) : prog Os (option (list Z)) :=
  let path := Gate.join dir MARKER_FILE_NAME in
  let! e := call (Os.exists_ path) in
  if negb e then Ret None
  else
    let! r := call (Os.read_file path) in
    Ret (match r with
         | inl _ => None
         | inr b => if has_header MAGIC VERSION b then Utf8.decode (drop HEADER_LEN b) else None
         end).

Definition write (dir : string) (payload : list Z) : prog Os (string + unit) :=
  let! d := call Os.create_dir_all in
  match d with
  | inl _ => Ret (inl "create dir"%string)
  | inr _ =>
      let! w := write_bytes_atomic (Gate.join dir MARKER_FILE_NAME) (MAGIC ++ [VERSION] ++ Utf8.encode payload) in
      Ret (match w with inl _ => inl "write"%string | inr _ => inr () end)
  end.

Definition clear (dir : string) : prog Os (string + unit) :=
  let path := Gate.join dir MARKER_FILE_NAME in
  let! e := call (Os.exists_ path) in
  if negb e then Ret (inr ())
  else let! r := call (Os.remove_file path) in Ret (match r with inl _ => inl ("delete " ++ path)%string | inr _ => inr () end).
End TierTransitionMarker.

(** ** The sweep *)
Definition WIPE_PENDING_MARKER : string := ".wipe-pending".
Definition WIPE_PENDING_MAGIC : list Z := [76; 70; 87; 80].
Definition WIPE_PENDING_VERSION : Z := 1.

Definition MANAGED_FILES : list string :=
  [".tier-transition-pending"; "keychain_enabled"; "rate_limit_state.bin";
   "hardware_vault_android_bio.bin"; "hardware_vault_password_overlay_android.bin"; "hardware_vault_password_overlay_apple.bin";
   "hardware_vault_password_overlay_linux.bin"; "hardware_vault_password_overlay_windows.bin";
   "security_pass_hash.bin";
   "hardware_vault.bin"; "hardware_vault_android.bin"; "hardware_vault_apple.bin"; "hardware_vault_ios.bin";
   "hardware_vault_macos.bin"; "hardware_vault_windows.bin"; "hardware_vault_linux.bin"; "hardware_vault_salt.bin";
   "credentials.kdf"; "credentials.verify"; "credentials.key";
   "config.json"; "migration_history.json";
   "letsflutssh.db"; "letsflutssh.db-wal"; "letsflutssh.db-shm"; "letsflutssh.db-journal";
   "lfs_core.db"; "lfs_core.db-wal"; "lfs_core.db-shm"; "lfs_core.db-journal"]%string.

Definition ORPHAN_PROBE_FILES : list string :=
  [".tier-transition-pending"; "keychain_enabled"; "rate_limit_state.bin";
   "hardware_vault_android_bio.bin"; "hardware_vault_password_overlay_android.bin"; "hardware_vault_password_overlay_apple.bin";
   "hardware_vault_password_overlay_linux.bin"; "hardware_vault_password_overlay_windows.bin";
   "security_pass_hash.bin";
   "hardware_vault.bin"; "hardware_vault_android.bin"; "hardware_vault_apple.bin"; "hardware_vault_ios.bin";
   "hardware_vault_macos.bin"; "hardware_vault_windows.bin"; "hardware_vault_linux.bin"; "hardware_vault_salt.bin";
   "credentials.kdf"; "credentials.verify"; "credentials.key";
   "letsflutssh.db"; "letsflutssh.db-wal"; "letsflutssh.db-shm"; "letsflutssh.db-journal"]%string.

Record FileSweepReport := mkSweep { deleted_files : list string; failed_files : list string }.

Definition has_pending_wipe (dir : string) : prog Os bool :=
  let! r := call (Os.read_file (Gate.join dir WIPE_PENDING_MARKER)) in
  Ret (match r with inl _ => false | inr b => has_header WIPE_PENDING_MAGIC WIPE_PENDING_VERSION b end).

(** [.iter().any(…)] stops at the first file that is there. *)
Fixpoint any_exists (dir : string) (names : list string) : prog Os bool :=
  match names with
  | [] => Ret false
  | name :: names => let! e := call (Os.exists_ (Gate.join dir name)) in if e : bool then Ret true else any_exists dir names
  end.

Definition has_any_state (dir : string) : prog Os bool := any_exists dir ORPHAN_PROBE_FILES.

(** [now]: the milliseconds since the epoch, negative before it. *)
Definition marker_bytes (now : Z) : list Z :=
  WIPE_PENDING_MAGIC ++ [WIPE_PENDING_VERSION] ++ (if now <? 0 then [48] else decimal now) ++ [10].

Definition write_pending_marker (dir : string) (now : Z) : prog Os unit :=
  let! d := call Os.create_dir_all in
  match d with
  | inl _ => Ret ()
  | inr _ => let! _ := write_bytes_atomic (Gate.join dir WIPE_PENDING_MARKER) (marker_bytes now) in Ret ()
  end.

Definition clear_pending_marker (dir : string) : prog Os unit :=
  let path := Gate.join dir WIPE_PENDING_MARKER in
  let! e := call (Os.exists_ path) in
  if negb e then Ret () else let! _ := call (Os.remove_file path) in Ret ().

(** The loop over the managed files.  The check of their permissions only logs. *)
Fixpoint delete_each (dir : string) (names : list string) (r : FileSweepReport) : prog Os FileSweepReport :=
  match names with
  | [] => Ret r
  | name :: names =>
      let path := Gate.join dir name in
      let! e := call (Os.exists_ path) in
      if negb e then delete_each dir names r
      else
        let! d := call (Os.remove_file path) in
        delete_each dir names
          (match d with
           | inr _ => mkSweep (deleted_files r ++ [name]) (failed_files r)
           | inl _ => mkSweep (deleted_files r) (failed_files r ++ [name])
           end)
  end.

(** The files below a directory, and the entries a listing of it yields. *)
Definition below_dir (d : string) (o : Os) : list string :=
  filter (fun p => is_Some (strip_prefix (d ++ "/") p)) (map_to_list (files o)).*1.

Definition entry_of (d p : string) : option string :=
  strip_prefix (d ++ "/") p ≫= fun rest => (fun e => Gate.join d e) <$> head (Dao.split_slash rest).

Definition read_dir (d : string) : Os -> (io_error + list string) * Os :=
  Os.fallible (fun o => (inr (remove_dups (omap (entry_of d) (below_dir d o))), o)).

(** [remove_dir_all]: file by file, up to the first that cannot be removed. *)
Fixpoint remove_files (paths : list string) : prog Os unit :=
  match paths with
  | [] => Ret ()
  | p :: paths => let! r := call (Os.remove_file p) in match r with inl _ => Ret () | inr _ => remove_files paths end
  end.

Definition is_dir (path : string) (o : Os) : bool * Os :=
  let '(b, o') := Os.next_fault o in (if b then false else bool_decide (below_dir path o' <> []), o').

Fixpoint wipe_entries (entries : list string) : prog Os unit :=
  match entries with
  | [] => Ret ()
  | path :: entries =>
      let! d := call (is_dir path) in
      let! _ := (if d : bool then let! fs := call (fun o => (below_dir path o, o)) in remove_files fs
                 else let! _ := call (Os.remove_file path) in Ret ()) in
      wipe_entries entries
  end.

Definition logs_exist (logs : string) (o : Os) : bool * Os :=
  let '(b, o') := Os.next_fault o in (if b then false else bool_decide (below_dir logs o' <> []), o').

Definition wipe_logs_dir (dir : string) : prog Os unit :=
  let logs := Gate.join dir "logs" in
  let! e := call (logs_exist logs) in
  if negb e then Ret ()
  else
    let! r := call (read_dir logs) in
    match r with inl _ => Ret () | inr entries => wipe_entries entries end.

(** ** The install *)
Section Recovery.
Context {V : Type}.
(** The hardware vault of the platform; [PlatformUnsupported] counts as a success. *)
Context (clear_hw_vault_primary clear_hw_vault_biometric : V -> bool * V).

Record Install := mkInstall {
  os : Os;
  secrets : SecretStore;
  db_opened : bool;
  hardware : V;
  bus : EventBus;
  (** What the receiver of the next prompt gets: the wire name of the choice, or nothing. *)
  answer : option string
}.

Definition on_os {A} (p : prog Os A) : prog Install A :=
  zoom os (fun o w => mkInstall o (secrets w) (db_opened w) (hardware w) (bus w) (answer w)) p.

Definition sweep_files (dir : string) (now : Z) : prog Install FileSweepReport :=
  let! _ := on_os (write_pending_marker dir now) in
  let! _ := call (fun w => ((), mkInstall (os w) (SecretStore.clear (secrets w)) (db_opened w) (hardware w) (bus w) (answer w))) in
  let! r := on_os (delete_each dir MANAGED_FILES (mkSweep [] [])) in
  let! _ := on_os (wipe_logs_dir dir) in
  let! _ := on_os (clear_pending_marker dir) in
  Ret r.

(** ** The keychain *)
Definition MANAGED_KEYS : list string :=
  ["letsflutssh_encryption_key"; "letsflutssh_biometric_encryption_key"; "letsflutssh_keychain_probe";
   "letsflutssh_l2_pepper"; "letsflutssh_bio_db_key"]%string.

Inductive KeyWipeOutcome := KeyDeleted | KeyFailed (detail : string).
Definition is_success (o : KeyWipeOutcome) : bool := match o with KeyDeleted => true | KeyFailed _ => false end.

Fixpoint purge_keys (keys : list string) : prog Os (list (string * KeyWipeOutcome)) :=
  match keys with
  | [] => Ret []
  | key :: keys =>
      let! r := call (Os.keychain_delete key) in
      let! rest := purge_keys keys in
      Ret ((key, match r with inr _ => KeyDeleted | inl _ => KeyFailed "keychain" end) :: rest)
  end.

Definition run_keychain_wipe : prog Os (list (string * KeyWipeOutcome)) := purge_keys MANAGED_KEYS.

Definition report_to_json (report : list (string * KeyWipeOutcome)) : json :=
  JObject (foldl (fun m ko => <[ko.1 := JString (match ko.2 with KeyDeleted => "deleted" | KeyFailed d => "failed: " ++ d end)%string]> m) ∅ report).

(** ** The cascade *)
Record DestructiveResetReport := mkReset {
  reset_deleted_files : list string;
  reset_failed_files : list string;
  keychain_purge_succeeded : bool;
  hw_vault_cleared : bool;
  hw_vault_biometric_cleared : bool
}.

Definition db_close (w : Install) : unit * Install := ((), mkInstall (os w) (secrets w) false (hardware w) (bus w) (answer w)).

Definition on_hardware (f : V -> bool * V) (w : Install) : bool * Install :=
  let '(b, v) := f (hardware w) in (b, mkInstall (os w) (secrets w) (db_opened w) v (bus w) (answer w)).

Definition run_destructive_reset (dir : string) (now : Z) : prog Install DestructiveResetReport :=
  let! _ := call db_close in
  let! files := sweep_files dir now in
  let! kc := on_os run_keychain_wipe in
  let! hw := call (on_hardware clear_hw_vault_primary) in
  let! bio := call (on_hardware clear_hw_vault_biometric) in
  Ret (mkReset (deleted_files files) (failed_files files) (forallb (fun ko => is_success ko.2) kc) hw bio).

(** ** The prompts *)
Inductive RecoveryOutcome := WipedAndRestarted | UserExited | Continued.

Inductive RecoveryPromptResponse := Reset | Quit | TryOtherTier.

Definition wire_name (r : RecoveryPromptResponse) : string :=
  match r with Reset => "reset" | Quit => "quit" | TryOtherTier => "tryOtherTier" end.

Definition from_wire_name (s : string) : option RecoveryPromptResponse :=
  if String.eqb s "reset" then Some Reset
  else if String.eqb s "quit" then Some Quit
  else if String.eqb s "tryOtherTier" then Some TryOtherTier
  else None.

Definition await_prompt_choice (prompt_id : string) (kind : RecoveryPromptKind) (choices : list RecoveryPromptResponse) :
    prog Install RecoveryPromptResponse :=
  let! _ := call (fun w => ((), mkInstall (os w) (secrets w) (db_opened w) (hardware w)
                                  (EventBus.publish (RecoveryPromptRequest prompt_id kind (wire_name <$> choices)) (bus w)).2 (answer w))) in
  let! wire := call (fun w => (answer w, w)) in
  Ret (match wire with Some wire => default Quit (from_wire_name wire) | None => Quit end).

Definition on_response (dir : string) (now : Z) (r : RecoveryPromptResponse) : prog Install RecoveryOutcome :=
  match r with
  | Reset => let! _ := run_destructive_reset dir now in Ret WipedAndRestarted
  | Quit => Ret UserExited
  | TryOtherTier => Ret Continued
  end.

Definition recovery_handle_corrupt_db (dir : string) (now : Z) (prompt_id reason : string) : prog Install RecoveryOutcome :=
  let! r := await_prompt_choice prompt_id (DbCorruptDetected reason) [Reset; TryOtherTier; Quit] in on_response dir now r.

Definition recovery_handle_vault_state_missing (dir : string) (now : Z) (prompt_id tier_label : string) : prog Install RecoveryOutcome :=
  let! r := await_prompt_choice prompt_id (VaultStateMissing tier_label) [Reset; TryOtherTier; Quit] in on_response dir now r.

Definition recovery_handle_legacy_state (dir : string) (now : Z) (prompt_id : string) (config_version_on_disk : Z) (orphan_artefacts : bool) :
    prog Install RecoveryOutcome :=
  let! r := await_prompt_choice prompt_id (LegacyStateFound config_version_on_disk orphan_artefacts) [Reset; Quit] in on_response dir now r.

(** ** Legacy state *)
Record LegacyStateDetection := mkLegacy {
  legacy_config : bool; orphans : bool; version_on_disk : Z; config_target_version : Z
}.

Definition should_prompt_reset (d : LegacyStateDetection) : bool := legacy_config d || orphans d.

(** [read_version]: the probe of the configuration in the support directory. *)
Definition detect_legacy_state (read_version : prog Os (outcome Z)) (dir : string) (has_current_security_config : bool) :
    prog Os LegacyStateDetection :=
  let target := SchemaVersions.CONFIG in
  let! r := read_version in
  let version := match r with Got v => v | _ => -1 end in
  let! orphan := (if has_current_security_config then Ret false else has_any_state dir) in
  Ret (mkLegacy ((0 <=? version) && (version <? target)) orphan version target).


(** ** What a sweep may touch *)
Definition with_os (o : Os) (w : Install) : Install := mkInstall o (secrets w) (db_opened w) (hardware w) (bus w) (answer w).

Definition marker_path (dir : string) : string := Gate.join dir WIPE_PENDING_MARKER.

Definition is_managed (dir k : string) : bool := existsb (fun name => String.eqb k (Gate.join dir name)) MANAGED_FILES.
Definition is_log (dir k : string) : bool := match strip_prefix (Gate.join dir "logs" ++ "/") k with Some _ => true | None => false end.
Definition wiped (dir k : string) : bool := String.eqb k (marker_path dir) || is_managed dir k || is_log dir k.

(** The marker as the next launch reads it. *)
Definition pending (dir : string) (o : Os) : bool :=
  match files o !! marker_path dir with Some b => has_header WIPE_PENDING_MAGIC WIPE_PENDING_VERSION b | None => false end.

Lemma run_on_os {A} (p : prog Os A) w : run (on_os p) w = ((run p (os w)).1, with_os (run p (os w)).2 w).
Proof.
  destruct w as [o se db hw b an]. unfold on_os, with_os. cbn [os secrets db_opened hardware bus answer]. revert o.
  induction p as [a|C f k IH]; intros o; [done|]. cbn [zoom run os]. destruct (f o) as [r o']. apply IH.
Qed.

Lemma crash_on_os {A} n (p : prog Os A) w : crash n (on_os p) w = with_os (crash n p (os w)) w.
Proof.
  destruct w as [o se db hw b an]. unfold on_os, with_os. cbn [os secrets db_opened hardware bus answer]. revert n o.
  induction p as [a|C f k IH]; intros [|n] o; try done. cbn [zoom crash os]. destruct (f o) as [r o']. apply IH.
Qed.

Lemma always_on_os {A} (I : Os -> Prop) (p : prog Os A) w : always I p (os w) -> always (fun w' => I (os w')) (on_os p) w.
Proof. intros Hp n. rewrite crash_on_os. apply Hp. Qed.

(** Only files that satisfy [may] change, and no key of the keychain. *)
Definition only (may : string -> Prop) (o o' : Os) : Prop :=
  (forall k, ~ may k -> files o' !! k = files o !! k) /\ keychain o' = keychain o.

Lemma only_trans may o1 o2 o3 : only may o1 o2 -> only may o2 o3 -> only may o1 o3.
Proof. intros [Hf1 Hk1] [Hf2 Hk2]. split; [intros k Hk; by rewrite Hf2, Hf1|congruence]. Qed.

(** Every call of a program changes only such files. *)
Definition touches (may : string -> Prop) {A} (p : prog Os A) : Prop := each_call (only may) p.

Lemma touches_crash may {A} (p : prog Os A) n o : touches may p -> only may o (crash n p o).
Proof. apply each_call_crash; [done|intros o1 o2 o3; apply only_trans]. Qed.

Lemma touches_run may {A} (p : prog Os A) o : touches may p -> only may o (run p o).2.
Proof. apply each_call_run; [done|intros o1 o2 o3; apply only_trans]. Qed.

Lemma touches_mono (may may' : string -> Prop) {A} (p : prog Os A) : (forall k, may k -> may' k) -> touches may p -> touches may' p.
Proof.
  intros Hm. induction 1 as [a|B f k Hf _ IH]; constructor; [|done]. intros o. destruct (Hf o) as [Ho Hk]. split; [|done]. auto.
Qed.

Lemma touches_bind may {A B} (p : prog Os A) (q : A -> prog Os B) : touches may p -> (forall a, touches may (q a)) -> touches may (pbind p q).
Proof. apply each_call_bind. Qed.

Lemma touches_bind_of may {A B} (Q : A -> Prop) (p : prog Os A) (q : A -> prog Os B) : touches may p -> produces Q p ->
  (forall a, Q a -> touches may (q a)) -> touches may (pbind p q).
Proof. apply each_call_bind_of. Qed.

Lemma touches_ret may {A} (a : A) : touches may (Ret a).
Proof. constructor. Qed.

Lemma touches_quiet may {A} (f : Os -> A * Os) : (forall o, files (f o).2 = files o /\ keychain (f o).2 = keychain o) -> touches may (call f).
Proof. intros Hf. apply each_call_call. intros o. destruct (Hf o) as [Hf1 Hf2]. split; [by rewrite Hf1|done]. Qed.

Lemma fallible_quiet {A} (f : Os -> (io_error + A) * Os) : (forall o, files (f o).2 = files o /\ keychain (f o).2 = keychain o) ->
  forall o, files (Os.fallible f o).2 = files o /\ keychain (Os.fallible f o).2 = keychain o.
Proof.
  intros Hf o. unfold Os.fallible, Os.next_fault. destruct (faults o) as [|[] fs]; [apply Hf|done|].
  destruct (Hf (mkOs (files o) (keychain o) fs)) as [-> ->]. done.
Qed.

Lemma touches_exists may k : touches may (call (Os.exists_ k)).
Proof. apply touches_quiet. intros o. unfold Os.exists_, Os.next_fault. by destruct (faults o) as [|[] fs]. Qed.

Lemma touches_mkdir may : touches may (call Os.create_dir_all).
Proof. apply touches_quiet, fallible_quiet. done. Qed.

Lemma touches_read may k : touches may (call (Os.read_file k)).
Proof. apply touches_quiet, fallible_quiet. intros o. by destruct (files o !! k). Qed.

Lemma touches_write (may : string -> Prop) k b : may k -> (forall salt, may (tmp_name k salt)) -> touches may (write_bytes_atomic k b).
Proof. apply write_confined. Qed.

Lemma touches_remove (may : string -> Prop) k : may k -> touches may (call (Os.remove_file k)).
Proof.
  intros Hk. apply each_call_call. intros o. unfold Os.remove_file, Os.fallible, Os.next_fault.
  destruct (faults o) as [|[] fs]; cbn; [|done|]; destruct (files o !! k); cbn; (split; [|done]); intros k' Hk'; cbn;
    try done; (rewrite lookup_delete_ne; [done|congruence]).
Qed.

(** The marker, or a temporary file of it. *)
Definition marker_file (dir k : string) : Prop := k = marker_path dir \/ exists salt, k = tmp_name (marker_path dir) salt.

Lemma touches_marker (may : string -> Prop) dir now : (forall k, marker_file dir k -> may k) -> touches may (write_pending_marker dir now).
Proof.
  intros Hm. apply touches_bind; [apply touches_mkdir|]. intros [e|[]]; [apply touches_ret|].
  apply touches_bind; [|intros _; apply touches_ret]. apply touches_write; [|intros salt]; apply Hm; [by left|right; eauto].
Qed.

Lemma touches_clear_marker (may : string -> Prop) dir : may (marker_path dir) -> touches may (clear_pending_marker dir).
Proof.
  intros Hm. apply touches_bind; [apply touches_exists|]. intros [|]; [|apply touches_ret].
  apply touches_bind; [by apply touches_remove|]. intros _. apply touches_ret.
Qed.

Lemma touches_delete_each (may : string -> Prop) dir names r : (forall name, name ∈ names -> may (Gate.join dir name)) -> touches may (delete_each dir names r).
Proof.
  revert r. induction names as [|name names IH]; intros r Hm; [apply touches_ret|]. cbn [delete_each].
  assert (Hrest : forall r, touches may (delete_each dir names r)) by (intros r'; apply IH; intros n Hn; apply Hm; by right).
  apply touches_bind; [apply touches_exists|]. intros [|]; [|apply Hrest].
  apply touches_bind; [apply touches_remove, Hm; left|]. intros [e|[]]; apply Hrest.
Qed.

Lemma is_log_below dir e p : is_log dir e = true -> is_Some (strip_prefix (e ++ "/") p) -> is_log dir p = true.
Proof.
  unfold is_log. intros He [r Hr]. apply strip_prefix_some in Hr as ->.
  destruct (strip_prefix (Gate.join dir "logs" ++ "/") e) as [s|] eqn:Hs; [|done]. apply strip_prefix_some in Hs as ->.
  rewrite (proj2 (strip_prefix_some _ _ (s ++ "/" ++ r))); [done|]. by rewrite !string_app_assoc.
Qed.

Lemma entry_is_log dir p e : entry_of (Gate.join dir "logs") p = Some e -> is_log dir e = true.
Proof.
  unfold entry_of. destruct (strip_prefix _ p) as [rest|]; [|done]. cbn. destruct (head (Dao.split_slash rest)) as [h|]; [|done].
  intros [= <-]. unfold is_log. unfold Gate.join at 2.
  assert (Heq : strip_prefix (Gate.join dir "logs" ++ "/") (Gate.join dir "logs" ++ "/" ++ h) = Some h).
  { apply strip_prefix_some. by rewrite string_app_assoc. }
  by rewrite Heq.
Qed.

Lemma touches_remove_files (may : string -> Prop) paths : Forall may paths -> touches may (remove_files paths).
Proof.
  induction 1 as [|p paths Hp _ IH]; [apply touches_ret|]. cbn [remove_files].
  apply touches_bind; [by apply touches_remove|]. intros [e|[]]; [apply touches_ret|done].
Qed.

Lemma touches_wipe_entries dir entries : Forall (fun e => is_log dir e = true) entries ->
  touches (fun k => is_log dir k = true) (wipe_entries entries).
Proof.
  induction 1 as [|e entries He _ IH]; [apply touches_ret|]. cbn [wipe_entries]. apply touches_bind.
  { apply touches_quiet. intros o. unfold is_dir, Os.next_fault. by destruct (faults o) as [|[] fs]. }
  intros d. apply touches_bind; [|done]. destruct d; [|apply touches_bind; [by apply touches_remove|intros; apply touches_ret]].
  apply touches_bind_of with (Q := Forall (fun k => is_log dir k = true)); [by apply touches_quiet| |intros fs; apply touches_remove_files].
  apply produces_call. intros o. apply Forall_forall. intros k [Hk _]%list_elem_of_filter. by eapply is_log_below.
Qed.

Lemma touches_logs dir : touches (fun k => is_log dir k = true) (wipe_logs_dir dir).
Proof.
  unfold wipe_logs_dir. apply touches_bind.
  { apply touches_quiet. intros o. unfold logs_exist, Os.next_fault. by destruct (faults o) as [|[] fs]. }
  intros [|]; [|apply touches_ret]. cbn [negb].
  apply touches_bind_of with (Q := fun r => match r with inl _ => True | inr l => Forall (fun e => is_log dir e = true) l end).
  - apply touches_quiet, fallible_quiet. done.
  - apply produces_call. intros o. unfold read_dir, Os.fallible, Os.next_fault.
    assert (Hl : forall o', Forall (fun e => is_log dir e = true) (remove_dups (omap (entry_of (Gate.join dir "logs")) (below_dir (Gate.join dir "logs") o')))).
    { intros o'. apply Forall_forall. intros e He. rewrite elem_of_remove_dups in He. apply list_elem_of_omap in He as (p & _ & He). by eapply entry_is_log. }
    destruct (faults o) as [|[] fs]; cbn; [apply Hl|done|apply (Hl (mkOs (files o) (keychain o) fs))].
  - intros [e|l] Hl; [apply touches_ret|]. by apply touches_wipe_entries.
Qed.

(** ** Names *)
Lemma append_inj (a b c : string) : (a ++ b = a ++ c)%string -> b = c.
Proof. induction a as [|x a IH]; [done|]. change (String x (a ++ b) = String x (a ++ c) -> b = c). intros [= H']. by apply IH. Qed.

Lemma file_path_inj dir a b : Gate.join dir a = Gate.join dir b -> a = b.
Proof. unfold Gate.join. intros ?%append_inj%append_inj. done. Qed.

Lemma is_managed_join dir n : is_managed dir (Gate.join dir n) = true <-> n ∈ MANAGED_FILES.
Proof.
  unfold is_managed. rewrite existsb_exists. split.
  - intros (m & Hm & Heq%String.eqb_eq%file_path_inj). subst m. by apply list_elem_of_In.
  - intros Hn. exists n. split; [by apply list_elem_of_In|apply String.eqb_refl].
Qed.

Lemma strip_prefix_common a p s : strip_prefix (a ++ p) (a ++ s) = strip_prefix p s.
Proof.
  induction a as [|x a IH]; [done|]. change (strip_prefix (String x (a ++ p)) (String x (a ++ s)) = strip_prefix p s). cbn.
  by rewrite Ascii.eqb_refl.
Qed.

Lemma is_log_join dir n : is_log dir (Gate.join dir n) = match strip_prefix "logs/" n with Some _ => true | None => false end.
Proof.
  unfold is_log, Gate.join. rewrite !string_app_assoc, strip_prefix_common.
  change ("/" ++ "logs" ++ "/")%string with ("/" ++ "logs/")%string. by rewrite strip_prefix_common.
Qed.

Lemma managed_not_log dir n : n ∈ MANAGED_FILES -> is_log dir (Gate.join dir n) = false.
Proof.
  intros Hn. rewrite is_log_join. enough (Forall (fun n => strip_prefix "logs/" n = None) MANAGED_FILES) as Hall
    by (rewrite Forall_forall in Hall; by rewrite (Hall n Hn)).
  repeat (apply Forall_cons_2; [reflexivity|]). by apply Forall_nil_2.
Qed.

Lemma marker_not_managed dir : is_managed dir (marker_path dir) = false.
Proof.
  apply not_true_iff_false. unfold marker_path. rewrite is_managed_join. intros Hin.
  by apply (bool_decide_eq_true_2 (WIPE_PENDING_MARKER ∈ MANAGED_FILES)) in Hin.
Qed.

Lemma marker_not_log dir : is_log dir (marker_path dir) = false.
Proof. unfold marker_path. by rewrite is_log_join. Qed.

Lemma pending_only (may : string -> Prop) dir o o' : only may o o' -> ~ may (marker_path dir) -> pending dir o = true -> pending dir o' = true.
Proof. intros [Hf _] Hm. unfold pending. by rewrite Hf. Qed.

(** ** A sweep cut anywhere *)
(** The marker is there once the sweep has tried to write it: written now, or left by an earlier
    sweep. *)
Definition marks (dir : string) (now : Z) (o : Os) : Prop := pending dir (run (write_pending_marker dir now) o).2 = true.

Lemma marker_header now : has_header WIPE_PENDING_MAGIC WIPE_PENDING_VERSION (marker_bytes now) = true.
Proof. done. Qed.

Lemma managed_not_marker dir name : name ∈ MANAGED_FILES -> ~ marker_file dir (Gate.join dir name).
Proof.
  assert (Hall : Forall (fun n => n <> WIPE_PENDING_MARKER /\ forall salt, n <> tmp_name WIPE_PENDING_MARKER salt) MANAGED_FILES).
  { repeat (apply Forall_cons_2; [by split|]). by apply Forall_nil_2. }
  rewrite Forall_forall in Hall. intros Hn. destruct (Hall name Hn) as [H1 H2]. intros [He|[salt He]].
  - by apply file_path_inj in He.
  - unfold marker_path in He. rewrite Gate.tmp_join in He. by apply file_path_inj, H2 in He.
Qed.

Definition managed (dir k : string) : Prop := is_managed dir k = true.

(** The sweep over any list of names. *)
Definition sweep_of (names : list string) (dir : string) (now : Z) : prog Install FileSweepReport :=
  let! _ := on_os (write_pending_marker dir now) in
  let! _ := call (fun w => ((), mkInstall (os w) (SecretStore.clear (secrets w)) (db_opened w) (hardware w) (bus w) (answer w))) in
  let! r := on_os (delete_each dir names (mkSweep [] [])) in
  let! _ := on_os (wipe_logs_dir dir) in
  let! _ := on_os (clear_pending_marker dir) in
  Ret r.

Lemma sweep_of_run names dir now w : let p := sweep_of names dir now in
  let o1 := (run (write_pending_marker dir now) (os w)).2 in
  let r2 := run (delete_each dir names (mkSweep [] [])) o1 in
  let o3 := (run (wipe_logs_dir dir) r2.2).2 in
  let o4 := (run (clear_pending_marker dir) o3).2 in
  run p w = (r2.1, mkInstall o4 (SecretStore.clear (secrets w)) (db_opened w) (hardware w) (bus w) (answer w)).
Proof.
  cbv zeta. unfold sweep_of. rewrite run_bind, run_on_os. cbn [fst snd]. rewrite run_bind, run_call. cbn [fst snd].
  rewrite run_bind, run_on_os. cbn [fst snd os with_os]. destruct (run (delete_each _ _ _) _) as [r o2].
  rewrite run_bind, run_on_os. cbn [fst snd os with_os]. rewrite run_bind, run_on_os. done.
Qed.

Lemma clear_marker_cut dir o : pending dir o = true ->
  always (fun o' => pending dir o' = true \/ files o' = files (run (clear_pending_marker dir) o).2) (clear_pending_marker dir) o.
Proof.
  intros Hp. unfold clear_pending_marker. rewrite run_bind, run_call.
  assert (Hq : files (Os.exists_ (Gate.join dir WIPE_PENDING_MARKER) o).2 = files o).
  { unfold Os.exists_, Os.next_fault. by destruct (faults o) as [|[] fs]. }
  destruct (Os.exists_ _ o) as [e o1] eqn:He. cbn [fst snd] in *. assert (Hp1 : pending dir o1 = true) by (unfold pending in *; by rewrite Hq).
  apply always_bind; [apply always_call; rewrite ?He; by left|]. rewrite run_call, He. cbn [fst snd].
  destruct e; cbn [negb]; [|apply always_ret; by left]. rewrite run_bind, run_call. destruct (Os.remove_file _ o1) as [r o2] eqn:Hr. cbn [run fst snd].
  apply always_bind; [apply always_call; rewrite ?Hr; [by left|by right]|]. rewrite run_call, Hr. apply always_ret. by right.
Qed.

Lemma sweep_cut names dir now w : (forall name, name ∈ names -> name ∈ MANAGED_FILES) -> marks dir now (os w) -> let p := sweep_of names dir now in
  always (fun w' => (forall name, name ∈ MANAGED_FILES -> files (os w') !! Gate.join dir name = files (os w) !! Gate.join dir name) \/
                    pending dir (os w') = true \/ files (os w') = files (os (run p w).2)) p w.
Proof.
  intros Hnames Hc p. subst p. rewrite sweep_of_run. cbn [snd os]. unfold sweep_of.
  match goal with |- always ?J _ _ => set (I := J) end.
  assert (Hpend : forall w', pending dir (os w') = true -> I w') by (intros w' Hw'; unfold I; auto).
  assert (Hm := Hc). unfold marks in Hm. set (o1 := (run (write_pending_marker dir now) (os w)).2) in *.
  apply always_bind.
  { intros n. left. rewrite crash_on_os. cbn [os with_os]. intros name Hn.
    destruct (touches_crash (marker_file dir) (write_pending_marker dir now) n (os w)) as [Hf _]; [by apply touches_marker|].
    by apply Hf, managed_not_marker. }
  rewrite run_on_os. cbn [fst snd]. fold o1.
  apply always_bind; [apply always_call; by apply Hpend|]. rewrite run_call. cbn [fst snd].
  assert (Ht2 : touches (managed dir) (delete_each dir names (mkSweep [] []))).
  { apply touches_delete_each. intros name Hn. by apply is_managed_join, Hnames. }
  assert (Hnm : ~ managed dir (marker_path dir)) by (unfold managed; by rewrite marker_not_managed).
  apply always_bind.
  { intros n. apply Hpend. rewrite crash_on_os. cbn [os with_os]. eapply pending_only; [by apply touches_crash|done|done]. }
  rewrite run_on_os. cbn [fst snd os with_os].
  assert (Hm2 : pending dir (run (delete_each dir names (mkSweep [] [])) o1).2 = true) by (eapply pending_only; [by apply touches_run|done|done]).
  assert (Ht3 := touches_logs dir). assert (Hnl : ~ is_log dir (marker_path dir) = true) by (by rewrite marker_not_log).
  destruct (run (delete_each dir names _) o1) as [r2 o2]. cbn [fst snd] in *.
  apply always_bind.
  { intros n. apply Hpend. rewrite crash_on_os. cbn [os with_os]. eapply pending_only; [by apply touches_crash|done|done]. }
  rewrite run_on_os. cbn [fst snd os with_os].
  assert (Hm3 : pending dir (run (wipe_logs_dir dir) o2).2 = true) by (eapply pending_only; [by apply touches_run|done|done]).
  set (o3 := (run (wipe_logs_dir dir) o2).2) in *.
  apply always_bind.
  - intros n. rewrite crash_on_os. unfold I. cbn [os with_os]. destruct (clear_marker_cut dir o3 Hm3 n) as [Hp|Hp]; auto.
  - rewrite run_on_os. apply always_ret. right. right. done.
Qed.

(** ** A sweep that nothing disturbs *)
Definition calm (o : Os) : Prop := faults o = [].

Lemma calm_fallible {A} (f : Os -> (io_error + A) * Os) o : calm o -> Os.fallible f o = f o.
Proof. intros Hc. unfold Os.fallible, Os.next_fault. by rewrite Hc. Qed.

Lemma calm_exists k o : calm o -> Os.exists_ k o = (bool_decide (is_Some (files o !! k)), o).
Proof. intros Hc. unfold Os.exists_, Os.next_fault. by rewrite Hc. Qed.

(** What is gone stays gone. *)
Definition shrinks (o o' : Os) : Prop := forall k, files o !! k = None -> files o' !! k = None.

Lemma filter_ext_in {A} (P Q : A -> Prop) `{!forall x, Decision (P x), !forall x, Decision (Q x)} (l : list A) :
  (forall x, x ∈ l -> P x <-> Q x) -> filter P l = filter Q l.
Proof.
  induction l as [|x l IH]; intros Heq; [done|]. rewrite !filter_cons, IH by (intros y Hy; apply Heq; by right).
  assert (Hx := Heq x ltac:(left)). destruct (decide (P x)), (decide (Q x)); tauto.
Qed.

Lemma delete_each_calm dir names r o : calm o -> NoDup names ->
  wp (delete_each dir names r) (fun r' o' => calm o' /\ shrinks o o' /\ (forall name, name ∈ names -> files o' !! Gate.join dir name = None) /\
    deleted_files r' = deleted_files r ++ filter (fun name => is_Some (files o !! Gate.join dir name)) names /\ failed_files r' = failed_files r) o.
Proof.
  intros Hc Hnd. revert r o Hc. induction Hnd as [|name names Hname Hnd IH]; intros r o Hc; cbn [delete_each].
  { apply wp_ret. split_and!; [done|by intros k|by intros n ?%elem_of_nil|by rewrite filter_nil, app_nil_r|done]. }
  apply wp_bind, wp_call. rewrite calm_exists by done. cbn [fst snd].
  destruct (files o !! Gate.join dir name) as [b|] eqn:Hf.
  - rewrite bool_decide_eq_true_2 by eauto. cbn [negb]. apply wp_bind, wp_call. unfold Os.remove_file. rewrite calm_fallible by done.
    rewrite Hf. cbn [fst snd]. set (o1 := mkOs (delete (Gate.join dir name) (files o)) (keychain o) (faults o)).
    eapply wp_mono; [|apply (IH _ o1); done]. intros r' o' (Hc' & Hs & Hgone & Hdel & Hfail). cbn [deleted_files failed_files] in *.
    split_and!; [done| | | |done].
    + intros k Hk. apply Hs. cbn. by apply lookup_delete_None; right.
    + intros n [->|Hn]%elem_of_cons; [apply Hs; cbn; apply lookup_delete_eq|by apply Hgone].
    + rewrite Hdel, <- app_assoc, filter_cons_True by eauto. f_equal. cbn. f_equal. apply filter_ext_in. intros n Hn. cbn.
      rewrite lookup_delete_ne; [done|]. intros Heq%file_path_inj. by subst.
  - rewrite bool_decide_eq_false_2 by (intros [? ?]; congruence). cbn [negb]. eapply wp_mono; [|apply (IH r o); done].
    intros r' o' (Hc' & Hs & Hgone & Hdel & Hfail). split_and!; [done|done| | |done].
    + intros n [->|Hn]%elem_of_cons; [by apply Hs|by apply Hgone].
    + rewrite Hdel, filter_cons_False by (rewrite Hf; by intros [? ?]). done.
Qed.

Lemma keeps_calm_fallible {A} (f : Os -> (io_error + A) * Os) : (forall o, calm o -> calm (f o).2) -> keeps calm (call (Os.fallible f)).
Proof. intros Hf. apply keeps_call. intros o Hc. rewrite calm_fallible by done. by apply Hf. Qed.

Lemma keeps_calm_remove k : keeps calm (call (Os.remove_file k)).
Proof. apply keeps_calm_fallible. intros o Hc. by destruct (files o !! k). Qed.

Lemma keeps_calm_logs dir : keeps calm (wipe_logs_dir dir).
Proof.
  assert (Hfiles : forall fs, keeps calm (remove_files fs)).
  { induction fs as [|p fs IH]; [constructor|]. cbn [remove_files]. apply keeps_bind; [apply keeps_calm_remove|]. intros [e|[]]; [constructor|done]. }
  unfold wipe_logs_dir. apply keeps_bind.
  { apply keeps_call. intros o Hc. unfold logs_exist, Os.next_fault. by rewrite Hc. }
  intros [|]; [|constructor]. cbn [negb]. apply keeps_bind; [by apply keeps_calm_fallible|]. intros [e|l]; [constructor|].
  induction l as [|e l IH]; [constructor|]. cbn [wipe_entries]. apply keeps_bind.
  { apply keeps_call. intros o Hc. unfold is_dir, Os.next_fault. by rewrite Hc. }
  intros []; (apply keeps_bind; [|done]); (apply keeps_bind; [|intros; try apply Hfiles; constructor]); [by apply keeps_call|apply keeps_calm_remove].
Qed.

Lemma clear_marker_calm dir o : calm o -> wp (clear_pending_marker dir) (fun _ o' => calm o' /\ files o' = delete (marker_path dir) (files o)) o.
Proof.
  intros Hc. unfold clear_pending_marker. fold (marker_path dir). apply wp_bind, wp_call. rewrite calm_exists by done. cbn [fst snd].
  destruct (files o !! marker_path dir) as [b|] eqn:Hf.
  - rewrite bool_decide_eq_true_2 by eauto. apply wp_bind, wp_call, wp_ret. unfold Os.remove_file. rewrite calm_fallible by done. by rewrite Hf.
  - rewrite bool_decide_eq_false_2 by (intros [? ?]; congruence). apply wp_ret. by rewrite delete_id.
Qed.

Lemma write_marker_calm dir now o : calm o -> wp (write_pending_marker dir now) (fun _ o' => calm o' /\ files o' = <[marker_path dir := marker_bytes now]> (files o)) o.
Proof.
  intros Hc. unfold write_pending_marker. apply wp_bind, wp_call. unfold Os.create_dir_all. rewrite calm_fallible by done. cbn [fst snd].
  destruct o as [fs kc ft]. unfold calm in Hc. cbn in Hc. subst ft. apply wp_bind. unfold wp at 1. rewrite write_calm. by apply wp_ret.
Qed.

Lemma sweep_calm names dir now w : calm (os w) -> NoDup names -> (forall name, name ∈ names -> name ∈ MANAGED_FILES) ->
  wp (sweep_of names dir now) (fun r w' => calm (os w') /\
    (forall name, name ∈ names -> files (os w') !! Gate.join dir name = None) /\ files (os w') !! marker_path dir = None /\
    deleted_files r = filter (fun name => is_Some (files (os w) !! Gate.join dir name)) names /\ failed_files r = [] /\
    secrets w' = SecretStore.clear (secrets w) /\ keychain (os w') = keychain (os w) /\
    db_opened w' = db_opened w /\ hardware w' = hardware w /\
    forall k, wiped dir k = false -> files (os w') !! k = files (os w) !! k) w.
Proof.
  intros Hc Hnd Hnames. unfold wp. rewrite sweep_of_run. cbn [fst snd os secrets keychain db_opened hardware].
  assert (H1 := write_marker_calm dir now (os w) Hc). unfold wp in H1.
  assert (Hk1 := proj2 (touches_run (marker_file dir) (write_pending_marker dir now) (os w) ltac:(by apply touches_marker))).
  set (o1 := (run (write_pending_marker dir now) (os w)).2) in *. destruct H1 as [Hc1 Hf1].
  assert (H2 := delete_each_calm dir names (mkSweep [] []) o1 Hc1 Hnd). unfold wp in H2.
  destruct (touches_run (managed dir) (delete_each dir names (mkSweep [] [])) o1 ltac:(apply touches_delete_each; intros n Hn; by apply is_managed_join, Hnames)) as [Ht2 Hk2].
  destruct (run (delete_each dir names _) o1) as [r o2]. cbn [fst snd deleted_files failed_files] in *. destruct H2 as (Hc2 & Hs2 & Hgone & Hdel & Hfail).
  destruct (touches_run _ (wipe_logs_dir dir) o2 (touches_logs dir)) as [Hf3 Hk3]. assert (Hc3 := keeps_run _ _ _ (keeps_calm_logs dir) Hc2).
  set (o3 := (run (wipe_logs_dir dir) o2).2) in *.
  assert (H4 := clear_marker_calm dir o3 Hc3). unfold wp in H4.
  assert (Hk4 := proj2 (touches_run (fun k => k = marker_path dir) (clear_pending_marker dir) o3 ltac:(by apply touches_clear_marker))).
  destruct (run (clear_pending_marker dir) o3) as [u o4]. cbn [fst snd] in *. destruct H4 as [Hc4 Hf4].
  split_and!; try done.
  - intros n Hn. rewrite Hf4. apply lookup_delete_None. right. rewrite Hf3; [by apply Hgone|]. rewrite managed_not_log; [done|by apply Hnames].
  - rewrite Hf4. apply lookup_delete_eq.
  - rewrite Hdel. cbn. apply filter_ext_in. intros n Hn. rewrite Hf1, lookup_insert_ne; [done|]. intros Heq%file_path_inj. subst n.
    apply Hnames in Hn. by apply (bool_decide_eq_true_2 (WIPE_PENDING_MARKER ∈ MANAGED_FILES)) in Hn.
  - congruence.
  - intros k Hk. unfold wiped in Hk. apply orb_false_iff in Hk as [[Hkm%String.eqb_neq Hkg]%orb_false_iff Hkl].
    rewrite Hf4, lookup_delete_ne by congruence. rewrite Hf3 by (by rewrite Hkl). rewrite Ht2 by (unfold managed; by rewrite Hkg).
    rewrite Hf1. by apply lookup_insert_ne.
Qed.

Lemma managed_files_distinct : NoDup MANAGED_FILES.
Proof. apply (bool_decide_unpack _). vm_compute. exact I. Qed.

(** ** The whole install *)
Definition only_os (may : string -> Prop) (w w' : Install) : Prop := only may (os w) (os w').

Lemma each_on_os (may : string -> Prop) {A} (p : prog Os A) : touches may p -> each_call (only_os may) (on_os p).
Proof.
  induction 1 as [a|B f k Hf _ IH]; cbn; constructor.
  - intros w. cbn. specialize (Hf (os w)). by destruct (f (os w)) as [b o].
  - intros w. cbn. specialize (IH (os w)). by destruct (f (os w)) as [b o].
Qed.

(** What a sweep may change, cut or complete. *)
Definition swept (dir k : string) : Prop := wiped dir k = true \/ exists salt, k = tmp_name (marker_path dir) salt.

Lemma swept_marker dir k : marker_file dir k -> swept dir k.
Proof. intros [->|Hk]; [left; unfold wiped; by rewrite String.eqb_refl|by right]. Qed.

Lemma sweep_touches names dir now : (forall name, name ∈ names -> name ∈ MANAGED_FILES) ->
  each_call (only_os (swept dir)) (sweep_of names dir now).
Proof.
  intros Hnames. unfold sweep_of. apply each_call_bind; [apply each_on_os, touches_marker, swept_marker|intros _].
  apply each_call_bind; [by apply each_call_call|intros _].
  apply each_call_bind; [apply each_on_os, touches_delete_each|intros r].
  { intros n Hn. left. unfold wiped. rewrite (proj2 (is_managed_join dir n) (Hnames n Hn)). by rewrite orb_true_r. }
  apply each_call_bind; [apply each_on_os; eapply touches_mono; [|apply touches_logs]|intros _].
  { intros k Hk. left. unfold wiped. rewrite Hk. by rewrite orb_true_r. }
  apply each_call_bind; [apply each_on_os, touches_clear_marker, swept_marker; by left|intros _]. constructor.
Qed.

(** The system the next launch finds when nothing fails any more. *)
Definition settle (w : Install) : Install := with_os (mkOs (files (os w)) (keychain (os w)) []) w.

(** C16. An interrupted wipe is resumed.  Wherever the sweep is cut and whatever call fails, only
    managed files, logs, the marker and temporary files of the marker have changed; if the marker
    is there after the attempt to write it, the managed files are those before the first deletion,
    or the wipe is marked as pending, or the files are those at the end; and a sweep that runs
    undisturbed from there leaves none of the managed files, no marker and no cached secret,
    reports no failure and lists as deleted exactly the files that were left.  (A temporary file
    of the marker left by a cut is not removed by the second sweep.) *)
Theorem interrupted_wipe_resumes dir now now' (w : Install) n :
  let p := sweep_files dir now in
  let w1 := crash n p w in
  let w2 := run (sweep_files dir now') (settle w1) in
  only_os (swept dir) w w1 /\
  (marks dir now (os w) ->
     (forall name, name ∈ MANAGED_FILES -> files (os w1) !! Gate.join dir name = files (os w) !! Gate.join dir name) \/
     pending dir (os w1) = true \/ files (os w1) = files (os (run p w).2)) /\
  (forall name, name ∈ MANAGED_FILES -> files (os w2.2) !! Gate.join dir name = None) /\
  files (os w2.2) !! marker_path dir = None /\ secrets w2.2 = SecretStore.clear (secrets w1) /\
  failed_files w2.1 = [] /\
  deleted_files w2.1 = filter (fun name => is_Some (files (os w1) !! Gate.join dir name)) MANAGED_FILES.
Proof.
  intros p w1 w2. split; [|split].
  - apply each_call_crash; [done|intros a b c; apply only_trans|by apply (sweep_touches MANAGED_FILES)].
  - intros Hc. by apply (sweep_cut MANAGED_FILES dir now w).
  - destruct (sweep_calm MANAGED_FILES dir now' (settle w1) eq_refl managed_files_distinct ltac:(done)) as (_ & Hgone & Hm & Hdel & Hfail & Hsec & _).
    done.
Qed.

(** ** The cascade *)
Lemma purge_calm keys o : calm o -> wp (purge_keys keys) (fun r o' => calm o' /\ files o' = files o /\
    (forall k, keychain o' !! k = if bool_decide (k ∈ keys) then None else keychain o !! k) /\ forallb (fun ko => is_success ko.2) r = true) o.
Proof.
  revert o. induction keys as [|key keys IH]; intros o Hc; [by apply wp_ret|]. cbn [purge_keys].
  apply wp_bind, wp_call. unfold Os.keychain_delete. rewrite calm_fallible by done. cbn [fst snd]. apply wp_bind.
  eapply wp_mono; [|by apply IH]. intros r o' (Hc' & Hf & Hk & Hr). apply wp_ret. split_and!; [done|done| |done].
  intros k. rewrite Hk. cbn [keychain]. destruct (decide (k = key)) as [->|Hne].
  - rewrite lookup_delete_eq. rewrite (bool_decide_eq_true_2 (key ∈ key :: keys)) by left. by destruct (bool_decide _).
  - rewrite lookup_delete_ne by done. rewrite (bool_decide_ext (k ∈ key :: keys) (k ∈ keys)); [done|]. rewrite elem_of_cons. naive_solver.
Qed.

Definition wiped_clean (dir : string) (w w' : Install) : Prop :=
  (forall name, name ∈ MANAGED_FILES -> files (os w') !! Gate.join dir name = None) /\
  files (os w') !! marker_path dir = None /\
  (forall k, wiped dir k = false -> files (os w') !! k = files (os w) !! k) /\
  (forall k, keychain (os w') !! k = if bool_decide (k ∈ MANAGED_KEYS) then None else keychain (os w) !! k) /\
  secrets w' = SecretStore.clear (secrets w) /\ db_opened w' = false /\
  hardware w' = (clear_hw_vault_biometric (clear_hw_vault_primary (hardware w)).2).2.

Lemma on_hardware_eq f w : on_hardware f w =
  ((f (hardware w)).1, mkInstall (os w) (secrets w) (db_opened w) (f (hardware w)).2 (bus w) (answer w)).
Proof. unfold on_hardware. by destruct (f (hardware w)). Qed.

Lemma reset_calm dir now w : calm (os w) -> wp (run_destructive_reset dir now) (fun r w' => wiped_clean dir w w' /\
  reset_deleted_files r = filter (fun name => is_Some (files (os w) !! Gate.join dir name)) MANAGED_FILES /\ reset_failed_files r = [] /\
  keychain_purge_succeeded r = true) w.
Proof.
  intros Hc. unfold run_destructive_reset. apply wp_bind, wp_call. cbn [db_close fst snd]. set (w0 := mkInstall (os w) (secrets w) false (hardware w) (bus w) (answer w)). apply wp_bind.
  assert (Hsw := sweep_calm MANAGED_FILES dir now w0 Hc managed_files_distinct ltac:(done)).
  unfold wp at 1. unfold wp in Hsw. change (sweep_of MANAGED_FILES dir now) with (sweep_files dir now) in Hsw.
  destruct (run (sweep_files dir now) w0) as [r w1]. cbn [fst snd] in *.
  destruct Hsw as (Hc1 & Hgone & Hmk & Hdel & Hfail & Hsec & Hkc & Hdb & Hhw & Htf).
  apply wp_bind. unfold wp at 1. rewrite run_on_os. assert (Hp := purge_calm MANAGED_KEYS (os w1) Hc1). unfold wp in Hp.
  unfold run_keychain_wipe. destruct (run (purge_keys MANAGED_KEYS) (os w1)) as [kc o2]. cbn [fst snd] in *. destruct Hp as (Hc2 & Hf2 & Hk2 & Hok).
  apply wp_bind, wp_call. rewrite on_hardware_eq. apply wp_bind, wp_call. rewrite on_hardware_eq.
  apply wp_ret. cbn [reset_deleted_files reset_failed_files keychain_purge_succeeded]. split_and!; [|done..].
  unfold wiped_clean. cbn [os files keychain secrets db_opened hardware with_os fst snd]. split_and!.
  - intros name Hn. rewrite Hf2. by apply Hgone.
  - by rewrite Hf2.
  - intros k Hk. rewrite Hf2. by apply Htf.
  - intros k. by rewrite Hk2, Hkc.
  - done.
  - by rewrite Hdb.
  - by rewrite Hhw.
Qed.

(** The three prompts. *)
Definition recovery_prompts (dir : string) (now : Z) (id reason tier : string) (v : Z) (orphan : bool) : list (prog Install RecoveryOutcome) :=
  [recovery_handle_corrupt_db dir now id reason; recovery_handle_vault_state_missing dir now id tier; recovery_handle_legacy_state dir now id v orphan].

(** C17. A recovery prompt destroys nothing without consent: unless the answer that comes back is
    [reset], whatever it is (nothing, an unknown name, a dropped receiver), at no moment has any
    file, key, secret, database or vault changed; with [reset], on a system where nothing fails,
    the managed files, the pending marker, the keys of the application, the cached secrets, the
    open database and the hardware vault are gone, and every other file and key is as it was, save
    the logs, which the sweep removes where it can. *)
Theorem recovery_needs_consent dir now id reason tier v orphan (w : Install) p :
  p ∈ recovery_prompts dir now id reason tier v orphan ->
  (answer w <> Some "reset"%string ->
     (run p w).1 <> WipedAndRestarted /\
     forall n, let w1 := crash n p w in os w1 = os w /\ secrets w1 = secrets w /\ db_opened w1 = db_opened w /\ hardware w1 = hardware w) /\
  (answer w = Some "reset"%string -> calm (os w) -> (run p w).1 = WipedAndRestarted /\ wiped_clean dir w (run p w).2).
Proof.
  intros Hp.
  assert (Hshape : exists kind choices, p = pbind (await_prompt_choice id kind choices) (fun r => on_response dir now r)).
  { unfold recovery_prompts in Hp. repeat (apply elem_of_cons in Hp as [->|Hp]; [by do 2 eexists|]). by apply elem_of_nil in Hp. }
  destruct Hshape as (kind & choices & ->). clear Hp.
  set (w1 := mkInstall (os w) (secrets w) (db_opened w) (hardware w)
               (EventBus.publish (RecoveryPromptRequest id kind (wire_name <$> choices)) (bus w)).2 (answer w)).
  set (r := match answer w with Some wire => default Quit (from_wire_name wire) | None => Quit end).
  assert (Hrun : run (await_prompt_choice id kind choices) w = (r, w1)) by done.
  rewrite run_bind, Hrun. split.
  - intros Ha. assert (Hr : r <> Reset).
    { unfold r. destruct (answer w) as [wire|]; [|done]. unfold from_wire_name.
      destruct (String.eqb_spec wire "reset") as [->|_]; [done|]. repeat destruct (String.eqb _ _); done. }
    split; [by destruct r|]. intros n. set (J := fun w' : Install => os w' = os w /\ secrets w' = secrets w /\ db_opened w' = db_opened w /\ hardware w' = hardware w).
    enough (always J (pbind (await_prompt_choice id kind choices) (fun r => on_response dir now r)) w) as Hal by apply Hal.
    apply always_bind; [|rewrite Hrun; destruct r; try done; by apply always_ret].
    unfold await_prompt_choice. apply always_bind; [by apply always_call|]. rewrite run_call. cbn [fst snd].
    apply always_bind; [by apply always_call|]. rewrite run_call. by apply always_ret.
  - intros Ha Hc. assert (Hr : r = Reset) by (unfold r; by rewrite Ha). rewrite Hr. cbn [on_response]. rewrite run_bind.
    destruct (reset_calm dir now w1 Hc) as [Hclean _]. destruct (run (run_destructive_reset dir now) w1) as [rep w2]. done.
Qed.

End Recovery.

(** ** Runs *)
Section Runs.
#[local] Open Scope string_scope.

Definition toy_install (fs : gmap string (list Z)) (faults : list bool) (ans : option string) : Install (V := nat) :=
  mkInstall (mkOs fs (<["letsflutssh_l2_pepper" := [1]]> (<["other_app" := [2]]> ∅)) faults)
    SecretStore.new true 3%nat EventBus.new ans.

(** A toy vault: the number of keys it holds. *)
Definition toy_clear (v : nat) : bool * nat := (true, 0%nat).

Definition toy_files : gmap string (list Z) :=
  <["d/config.json" := [7]]> (<["d/letsflutssh.db" := [8]]> (<["d/logs/app.log" := [9]]> (<["d/recordings/s1/rec.lfsr" := [6]]> ∅))).

Lemma interrupted_wipe_resumes_witness :
  let w := toy_install toy_files [] None in
  let w1 := crash 31 (sweep_files "d" 5) w in
  let w2 := run (sweep_files "d" 9) (settle w1) in
  pending "d" (os w1) = true /\ files (os w1) !! "d/config.json" = None /\
  only_os (swept "d") w w1 /\
  (marks "d" 5 (os w) ->
     (forall name, name ∈ MANAGED_FILES -> files (os w1) !! Gate.join "d" name = files (os w) !! Gate.join "d" name) \/
     pending "d" (os w1) = true \/ files (os w1) = files (os (run (sweep_files "d" 5) w).2)) /\
  (forall name, name ∈ MANAGED_FILES -> files (os w2.2) !! Gate.join "d" name = None) /\
  files (os w2.2) !! marker_path "d" = None /\ secrets w2.2 = SecretStore.clear (secrets w1) /\
  failed_files w2.1 = [] /\
  deleted_files w2.1 = filter (fun name => is_Some (files (os w1) !! Gate.join "d" name)) MANAGED_FILES.
Proof.
  cbv zeta. split; [vm_compute; reflexivity|]. split; [vm_compute; reflexivity|].
  exact (interrupted_wipe_resumes "d" 5 9 (toy_install toy_files [] None) 31).
Defined.

Lemma recovery_needs_consent_witness :
  let w := toy_install toy_files [] (Some "reset") in
  let p := recovery_handle_corrupt_db toy_clear toy_clear "d" 5 "id" "why" in
  answer w = Some "reset" /\ calm (os w) /\
  (answer w <> Some "reset" ->
     (run p w).1 <> WipedAndRestarted /\
     forall n, let w1 := crash n p w in os w1 = os w /\ secrets w1 = secrets w /\ db_opened w1 = db_opened w /\ hardware w1 = hardware w) /\
  (answer w = Some "reset" -> calm (os w) ->
     (run p w).1 = WipedAndRestarted /\ wiped_clean toy_clear toy_clear "d" w (run p w).2).
Proof.
  cbv zeta. split; [reflexivity|]. split; [reflexivity|].
  apply (recovery_needs_consent toy_clear toy_clear "d" 5 "id" "why" "tier" 1 false). left.
Defined.

(** The sealed key of the biometric vault is not on the list: a full reset leaves it. *)
Example biometric_blob_survives_reset :
  let w := toy_install (<["d/biometric_vault.tpm" := [1; 2; 3]]> ∅) [] (Some "reset") in
  files (os (run (run_destructive_reset toy_clear toy_clear "d" 5) w).2) !! "d/biometric_vault.tpm" = Some [1; 2; 3].
Proof. vm_compute. reflexivity. Qed.

(** The marker is cleared with the files: a process that dies before the keychain purge leaves
    the keys behind and nothing that tells the next launch to go on. *)
Example keychain_outlives_interrupted_reset :
  exists n, let w := crash n (run_destructive_reset toy_clear toy_clear "d" 5) (toy_install toy_files [] None) in
  pending "d" (os w) = false /\ (run (has_any_state "d") (os w)).1 = false /\ keychain (os w) !! "letsflutssh_l2_pepper" = Some [1].
Proof. exists 48%nat. vm_compute. split_and!; reflexivity. Qed.

(** A temporary file of the marker that a cut leaves is on no list: the next sweep passes it over. *)
Example cut_marker_write_leaves_tmp :
  let w1 := crash 4 (sweep_files "d" 5) (toy_install toy_files [] None) in
  files (os w1) !! "d/.wipe-pending.tmp00000000" = Some (marker_bytes 5) /\ pending "d" (os w1) = false /\
  files (os (run (sweep_files "d" 9) (settle w1)).2) !! "d/.wipe-pending.tmp00000000" = Some (marker_bytes 5).
Proof. vm_compute. split_and!; reflexivity. Qed.

(** A file that cannot be removed is reported, but the marker goes all the same. *)
Example stuck_file_is_not_pending :
  let r := run (sweep_files "d" 5) (toy_install (<["d/tmp" := [1]]> (<["d/.tier-transition-pending" := [1]]> ∅)) [false; false; false; false; false; false; false; true] None) in
  failed_files r.1 = [".tier-transition-pending"] /\ files (os r.2) !! "d/.tier-transition-pending" = Some [1] /\ pending "d" (os r.2) = false.
Proof. vm_compute. split_and!; reflexivity. Qed.

(** The legacy prompt offers no other tier; an answer that asks for one goes on as if it did. *)
Example legacy_prompt_accepts_other_tier :
  (run (recovery_handle_legacy_state toy_clear toy_clear "d" 5 "id" 0 true) (toy_install ∅ [] (Some "tryOtherTier"))).1 = Continued.
Proof. vm_compute. reflexivity. Qed.
End Runs.

(** The payload of a transition marker reads back. *)
Lemma transition_marker_reads_back dir payload o : calm o -> Utf8.decode (Utf8.encode payload) = Some payload ->
  let o1 := (run (TierTransitionMarker.write dir payload) o).2 in (run (TierTransitionMarker.read dir) o1).1 = Some payload.
Proof.
  intros Hc Hp.
  assert (Hw : calm (run (TierTransitionMarker.write dir payload) o).2 /\
    files (run (TierTransitionMarker.write dir payload) o).2 !! Gate.join dir TierTransitionMarker.MARKER_FILE_NAME =
      Some (TierTransitionMarker.MAGIC ++ [TierTransitionMarker.VERSION] ++ Utf8.encode payload)).
  { unfold TierTransitionMarker.write. rewrite run_bind, run_call. unfold Os.create_dir_all. rewrite calm_fallible by done.
    destruct o as [m kc fs]. unfold calm in Hc. cbn in Hc. subst fs.
    rewrite run_bind, write_calm by done. cbn. split; [done|]. apply lookup_insert_eq. }
  intros o1. fold o1 in Hw. destruct Hw as [Hc1 Hf]. unfold TierTransitionMarker.read. rewrite run_bind, run_call, calm_exists by done.
  rewrite bool_decide_eq_true_2 by eauto. cbn [negb]. rewrite run_bind, run_call. unfold Os.read_file. rewrite calm_fallible by done.
  rewrite Hf. exact Hp.
Qed.
