(* ===== verification/Snippet.v ===== *)
(** * Snippet templates ([snippet_template.rs])

    [render] walks a template and substitutes its tokens.  A [str] is the list of its
    characters; braces are ASCII, so a byte of the scan that is a brace is a character of its
    own and every slice the code takes starts and ends at one.  The specification cuts the
    template into pieces first and then says what each piece becomes. *)
From Stdlib Require Import ZArith Lia.
From stdpp Require Import prelude gmap strings list.
From S2P Require Import Prelude Text Release.

Open Scope Z_scope.

Record RenderedSnippet := mkRendered { rendered : chars; unresolved : list chars }.

(** The first position of two closing braces. *)
Fixpoint find_close (haystack : chars) : option nat :=
  match strip_chars (lit "}}") haystack with
  | Some _ => Some 0%nat
  | None => match haystack with [] => None | _ :: rest => S <$> find_close rest end
  end.

Section Render.
Context (context : gmap chars chars).

Record Scan := mkScan { out : chars; names : list chars; seen : gset chars }.

Definition push (s : chars) (a : Scan) : Scan := mkScan (out a ++ s) (names a) (seen a).

(** [rest] starts after the opening braces; what is left to scan, or [None] at an open token. *)
Definition scan_token (rest : chars) (a : Scan) : option chars * Scan :=
  match find_close rest with
  | None => (None, push (lit "{{" ++ rest) a)
  | Some close_rel =>
      let raw := take close_rel rest in
      let next := drop (close_rel + 2) rest in
      let token := lit "{{" ++ raw ++ lit "}}" in
      let name := trim raw in
      if is_empty name then (Some next, push token a)
      else
        match context !! name with
        | Some value => (Some next, push value a)
        | None =>
            let a := push token a in
            (Some next, if bool_decide (name ∈ seen a) then a else mkScan (out a) (names a ++ [name]) ({[name]} ∪ seen a))
        end
  end.

Fixpoint render_loop (fuel : nat) (template : chars) (a : Scan) : Scan :=
  match fuel with
  | O => a
  | S fuel =>
      match strip_chars (lit "{{{{") template, strip_chars (lit "{{") template, template with
      | Some rest, _, _ => render_loop fuel rest (push (lit "{{") a)
      | None, Some rest, _ =>
          match scan_token rest a with
          | (Some next, a) => render_loop fuel next a
          | (None, a) => a
          end
      | None, None, ch :: rest => render_loop fuel rest (push [ch] a)
      | None, None, [] => a
      end
  end.

Definition render (template : chars) : RenderedSnippet :=
  let a := render_loop (length template) template (mkScan [] [] ∅) in mkRendered (out a) (names a).

End Render.

Definition fill_unresolved (partially_rendered : chars) (values : gmap chars chars) : chars :=
  rendered (render values partially_rendered).

(** ** The specification *)
Inductive piece :=
| Plain (c : Z)
| Escape
| Token (raw : chars)
| Open (tail : chars).

Definition text_of (p : piece) : chars :=
  match p with
  | Plain c => [c]
  | Escape => lit "{{{{"
  | Token raw => lit "{{" ++ raw ++ lit "}}"
  | Open tail => lit "{{" ++ tail
  end.

Fixpoint cut (fuel : nat) (template : chars) : list piece :=
  match fuel with
  | O => []
  | S fuel =>
      match strip_chars (lit "{{{{") template, strip_chars (lit "{{") template, template with
      | Some rest, _, _ => Escape :: cut fuel rest
      | None, Some rest, _ =>
          match find_close rest with
          | None => [Open rest]
          | Some n => Token (take n rest) :: cut fuel (drop (n + 2) rest)
          end
      | None, None, ch :: rest => Plain ch :: cut fuel rest
      | None, None, [] => []
      end
  end.

Definition pieces (template : chars) : list piece := cut (length template) template.

(** What a piece becomes, whatever is around it. *)
Definition shown (context : gmap chars chars) (p : piece) : chars :=
  match p with
  | Escape => lit "{{"
  | Token raw => default (text_of p) (if is_empty (trim raw) then None else context !! trim raw)
  | _ => text_of p
  end.

Definition asks (context : gmap chars chars) (p : piece) : option chars :=
  match p with
  | Token raw =>
      if is_empty (trim raw) then None
      else match context !! trim raw with Some _ => None | None => Some (trim raw) end
  | _ => None
  end.

(** Each name once, where it first occurs. *)
Fixpoint first_seen (known : gset chars) (l : list chars) : list chars :=
  match l with
  | [] => []
  | x :: l => if bool_decide (x ∈ known) then first_seen known l else x :: first_seen ({[x]} ∪ known) l
  end.

Lemma find_close_split s n : find_close s = Some n -> s = take n s ++ lit "}}" ++ drop (n + 2) s.
Proof.
  revert n. induction s as [|c s IH]; intros n; cbn [find_close]; (destruct (strip_chars _ _) as [rest|] eqn:Hs;
    [apply strip_chars_some in Hs as Heq; intros [= <-]; rewrite Heq; done|]); [done|].
  intros (m & Hm & ->)%fmap_Some. cbn. f_equal. by apply IH.
Qed.

Lemma cut_open fuel s : (length s <= fuel)%nat -> cut fuel s = cut (length s) s.
Proof.
  assert (forall n m s, (length s <= n)%nat -> (length s <= m)%nat -> cut n s = cut m s) as Hg; [|intros; by apply Hg].
  clear. induction n as [|n IH]; intros [|m] s Hn Hm; try (by destruct s; cbn in *; lia || done); [by destruct s; cbn in *; [|lia]..|].
  cbn [cut]. destruct (strip_chars (lit "{{{{") s) as [rest|] eqn:H4.
  { apply strip_chars_some in H4 as ->. cbn in Hn, Hm. f_equal. apply IH; lia. }
  destruct (strip_chars (lit "{{") s) as [rest|] eqn:H2.
  { apply strip_chars_some in H2 as ->. cbn in Hn, Hm. destruct (find_close rest) as [k|]; [|done]. f_equal.
    apply IH; rewrite length_drop; lia. }
  destruct s as [|c s]; [done|]. cbn in Hn, Hm. f_equal. apply IH; lia.
Qed.

Lemma cut_lossless fuel t : (length t <= fuel)%nat -> concat (text_of <$> cut fuel t) = t.
Proof.
  revert t. induction fuel as [|fuel IH]; intros t Hl; [by destruct t; cbn in *; [|lia]|]. cbn [cut].
  destruct (strip_chars (lit "{{{{") t) as [rest|] eqn:H4.
  { apply strip_chars_some in H4 as ->. cbn in Hl. rewrite fmap_cons. cbn [concat text_of]. by rewrite IH by lia. }
  destruct (strip_chars (lit "{{") t) as [rest|] eqn:H2.
  { apply strip_chars_some in H2 as ->. cbn in Hl. destruct (find_close rest) as [k|] eqn:Hk; [|by cbn; rewrite app_nil_r].
    rewrite fmap_cons. cbn [concat text_of]. rewrite IH by (rewrite length_drop; lia).
    rewrite <-!app_assoc. f_equal. symmetry. by apply find_close_split. }
  destruct t as [|c t]; [done|]. cbn in Hl. rewrite fmap_cons. cbn [concat text_of]. by rewrite IH by lia.
Qed.

Lemma loop_pieces context fuel t a :
  out (render_loop context fuel t a) = out a ++ concat (shown context <$> cut fuel t) /\
  names (render_loop context fuel t a) = names a ++ first_seen (seen a) (omap (asks context) (cut fuel t)).
Proof.
  revert t a. induction fuel as [|fuel IH]; intros t a; cbn [render_loop cut]; [by rewrite !app_nil_r|].
  destruct (strip_chars (lit "{{{{") t) as [rest|].
  { destruct (IH rest (push (lit "{{") a)) as [-> ->]. split; [cbn [push out]; by rewrite <-app_assoc|done]. }
  destruct (strip_chars (lit "{{") t) as [rest|].
  - unfold scan_token. destruct (find_close rest) as [k|]; [|by cbn; rewrite !app_nil_r].
    cbn [omap list_omap fmap list_fmap concat]. unfold shown at 1, asks at 1. fold shown.
    destruct (is_empty (trim (take k rest))) eqn:He.
    { destruct (IH (drop (k + 2) rest) (push (lit "{{" ++ take k rest ++ lit "}}") a)) as [-> ->]. split; [cbn [push out]; by rewrite <-app_assoc|done]. }
    destruct (context !! trim (take k rest)) as [value|] eqn:Hv.
    { destruct (IH (drop (k + 2) rest) (push value a)) as [-> ->]. split; [cbn [push out]; by rewrite <-app_assoc|done]. }
    cbn [push seen names out default text_of first_seen]. case_bool_decide.
    + match goal with |- context [render_loop _ _ _ ?b] => destruct (IH (drop (k + 2) rest) b) as [-> ->] end.
      split; [cbn [push out]; by rewrite <-app_assoc|cbn [push names seen out]; by rewrite <-?app_assoc].
    + match goal with |- context [render_loop _ _ _ ?b] => destruct (IH (drop (k + 2) rest) b) as [-> ->] end.
      split; [cbn [push out]; by rewrite <-app_assoc|cbn [push names seen out]; by rewrite <-?app_assoc].
  - destruct t as [|c t]; [by cbn; rewrite !app_nil_r|]. destruct (IH t (push [c] a)) as [-> ->]. split; [cbn [push out]; by rewrite <-app_assoc|done].
Qed.

(** The template is cut into pieces that spell it; the rendering is what each piece becomes by
    itself, so a substituted value is never scanned, and the unresolved names are the unknown ones
    in the order they first occur. *)
Theorem render_exact context template :
  concat (text_of <$> pieces template) = template /\
  render context template =
    mkRendered (concat (shown context <$> pieces template)) (first_seen ∅ (omap (asks context) (pieces template))).
Proof.
  split; [by apply cut_lossless|]. unfold render, pieces.
  destruct (loop_pieces context (length template) template (mkScan [] [] ∅)) as [Ho Hn]. cbn [out names seen app] in *. by rewrite Ho, Hn.
Qed.

(** Filling in scans the whole text again: a value of the first pass and an escaped token are
    substituted after all. *)
Lemma second_pass_rescans :
  fill_unresolved (rendered (render (<[lit "a" := lit "{{b}}"]> ∅) (lit "{{a}} {{{{b}} {{b}}"))) (<[lit "b" := lit "X"]> ∅) = lit "X X X".
Proof. reflexivity. Qed.
