(* ===== verification/Update.v ===== *)
(** * The update channel

    Checking for a release, downloading an asset with its signed manifest, and sweeping old
    downloads ([update/http.rs], [update/orchestrator.rs], [update/signing.rs]).  The server
    is a function nobody trusts: it answers every request with any status, any final
    address and any body, and files fail by a schedule.  An abort of the task at any call
    runs the drop guard on what it tracked so far. *)
From Stdlib Require Import ZArith Lia.
From stdpp Require Import prelude gmap strings list.
From S2P Require Import Prelude Types Text Bus Json Prog Crypto Release.

Open Scope Z_scope.
Open Scope prog_scope.

(** ** The signature of a release *)
Definition PRIMARY_PUBLIC_KEY : bytes :=
  [0x15; 0x6a; 0x7d; 0x78; 0xe6; 0x28; 0x52; 0xbd; 0x3e; 0xf8; 0x60; 0x71; 0x7f; 0xcb; 0x8d; 0xde;
   0xad; 0x1b; 0x2d; 0x75; 0xe3; 0x86; 0x95; 0x8f; 0xec; 0x3c; 0xa8; 0x12; 0x30; 0x57; 0x32; 0x03].

Definition verify_release_signature `{Primitives} (message signature : bytes) : bool :=
  if negb (length signature =? 64)%nat then false else ed25519_verify PRIMARY_PUBLIC_KEY message signature.

(** ** Paths and addresses *)

(** [Path::join] of a name without a slash. *)
Definition join (dir name : chars) : chars :=
  match last dir with
  | None => name
  | Some c => if c =? 47 then dir ++ name else dir ++ 47 :: name
  end.

(** [rsplit('/').next()] *)
Definition last_segment (s : chars) : chars := default [] (last (split_by (Z.eqb 47) s)).

(** [&url[..=url.rfind('/')]] *)
Fixpoint through_last_slash (s : chars) : option chars :=
  match s with
  | [] => None
  | c :: s =>
      match through_last_slash s with
      | Some r => Some (c :: r)
      | None => if c =? 47 then Some [c] else None
      end
  end.

Definition replace_path_tail (url new_tail : chars) : chars :=
  match through_last_slash url with Some head => head ++ new_tail | None => new_tail end.

(** A path whose last component names a directory. *)
Definition names_directory (path : chars) : bool :=
  let n := last_segment path in
  is_empty n || bool_decide (n = [46]) || bool_decide (n = [46; 46]).

(** ** The world of a download *)
Inductive HttpError :=
| UntrustedUrl | ClientBuild | SendFailed | HttpStatus | RedirectedToUntrusted (url : chars)
| MkdirFailed | CreateFailed | ChunkFailed | WriteFailed | FlushFailed | OpenFailed | ReadFailed.

Inductive DownloadError :=
| Untrusted (url : chars)
| Network (e : HttpError)
| ManifestUnavailable (e : HttpError)
| InvalidSignature (why : string).

Record DownloadedAsset := mkAsset { asset_path : chars; manifest_path : chars; manifest_sig_path : chars }.

(** A response: whether its status is a success, the address the redirects ended at, the
    declared length, the body as it streams ([None]: the stream fails there). *)
Record Response := mkResponse { success : bool; final_url : chars; declared : option Z; chunks : list (option bytes) }.

Section Channel.
Context `{Primitives}.
(** The network; [send] is one GET with its redirects ([None]: no response). *)
Context {N : Type} (send : chars -> N -> option Response * N).

(** [faults] decides the file calls to come: [Some n] makes one fail, a write after [n] bytes.
    [guard] and [armed] are the task's [PartialDownloadGuard]. *)
Record World := mkWorld {
  disk : gmap chars bytes;
  faults : list (option nat);
  net : N;
  bus : EventBus;
  guard : list chars;
  armed : bool
}.

Definition with_disk (d : gmap chars bytes) (w : World) : World :=
  mkWorld d (faults w) (net w) (bus w) (guard w) (armed w).

Definition next_fault (w : World) : option nat * World :=
  match faults w with
  | b :: fs => (b, mkWorld (disk w) fs (net w) (bus w) (guard w) (armed w))
  | [] => (None, w)
  end.

Definition io {A} (e : HttpError) (f : World -> (HttpError + A) * World) (w : World) : (HttpError + A) * World :=
  match next_fault w with
  | (Some _, w) => (inl e, w)
  | (None, w) => f w
  end.

Definition create (path : chars) : World -> (HttpError + unit) * World :=
  io CreateFailed (fun w =>
    if names_directory path then (inl CreateFailed, w) else (inr (), with_disk (<[path := []]> (disk w)) w)).

Definition append (path : chars) (b : bytes) (w : World) : World :=
  with_disk (alter (fun c => c ++ b) path (disk w)) w.

Definition write_all (path : chars) (b : bytes) (w : World) : (HttpError + unit) * World :=
  match next_fault w with
  | (Some n, w) => (inl WriteFailed, append path (take n b) w)
  | (None, w) => (inr (), append path b w)
  end.

Definition read (path : chars) : World -> (HttpError + bytes) * World :=
  io ReadFailed (fun w => (match disk w !! path with Some b => inr b | None => inl ReadFailed end, w)).

(** [std::fs::remove_file], its error ignored. *)
Definition remove (path : chars) (w : World) : unit * World :=
  match next_fault w with
  | (Some _, w) => ((), w)
  | (None, w) => ((), with_disk (delete path (disk w)) w)
  end.

Definition publish (e : Event) (w : World) : unit * World :=
  ((), mkWorld (disk w) (faults w) (net w) (EventBus.publish e (bus w)).2 (guard w) (armed w)).

Definition request (url : chars) (w : World) : option Response * World :=
  let '(r, n) := send url (net w) in (r, mkWorld (disk w) (faults w) n (bus w) (guard w) (armed w)).

Definition try {E A B} (p : prog World (E + A)) (q : A -> prog World (E + B)) : prog World (E + B) :=
  let! r := p in match r with inl e => Ret (inl e) | inr a => q a end.
Notation "'let?' x := p 'in' q" := (try p (fun x => q))
  (at level 200, x name, p at level 100, q at level 200, right associativity) : prog_scope.

Definition map_err {E E' A} (f : E -> E') (p : prog World (E + A)) : prog World (E' + A) :=
  let! r := p in Ret match r with inl e => inl (f e) | inr a => inr a end.

Definition check {E} (b : bool) (e : E) : prog World (E + unit) := Ret (if b then inr () else inl e).

(** ** The client *)
Definition build_client : prog World (HttpError + unit) := call (io ClientBuild (fun w => (inr (), w))).

Definition checked_response (url : chars) : prog World (HttpError + Response) :=
  let? _ := check (is_trusted_release_asset_uri url) UntrustedUrl in
  let? _ := build_client in
  let! r := call (request url) in
  match r with
  | None => Ret (inl SendFailed)
  | Some response =>
      let? _ := check (success response) HttpStatus in
      let? _ := check (is_trusted_release_asset_uri (final_url response)) (RedirectedToUntrusted (final_url response)) in
      Ret (inr response)
  end.

(** [text]: the body, decoded; any bytes give some text. *)
Fixpoint body_bytes (cs : list (option bytes)) : option bytes :=
  match cs with
  | [] => Some []
  | None :: _ => None
  | Some b :: cs => (fun rest => b ++ rest) <$> body_bytes cs
  end.

Definition fetch_text (url : chars) : prog World (HttpError + chars) :=
  let? response := checked_response url in
  Ret match body_bytes (chunks response) with Some b => inr (Utf8.lossy b) | None => inl ReadFailed end.

(** The hasher state is the bytes hashed so far, [written] their number. *)
Fixpoint write_chunks (path : chars) (progress : Z -> option Z -> option Event) (total : option Z)
    (cs : list (option bytes)) (hashed : bytes) (written : Z) : prog World (HttpError + bytes) :=
  match cs with
  | [] => Ret (inr hashed)
  | None :: _ => Ret (inl ChunkFailed)
  | Some b :: cs =>
      let? _ := call (write_all path b) in
      let written := Z.min (2 ^ 64 - 1) (written + Z.of_nat (length b)) in
      let! _ := match progress written total with Some e => call (publish e) | None => Ret () end in
      write_chunks path progress total cs (hashed ++ b) written
  end.

Definition download_to_file (url path : chars) (progress : Z -> option Z -> option Event) : prog World (HttpError + chars) :=
  let? response := checked_response url in
  let? _ := call (io MkdirFailed (fun w => (inr (), w))) in
  let? _ := call (create path) in
  let? hashed := write_chunks path progress (declared response) (chunks response) [] 0 in
  let? _ := call (io FlushFailed (fun w => (inr (), w))) in
  Ret (inr (sha256_hex hashed)).

Definition sha256_file (path : chars) : prog World (HttpError + chars) :=
  let? content := call (read path) in Ret (inr (sha256_hex content)).

(** ** The guard *)
Definition new_guard (w : World) : unit * World := ((), mkWorld (disk w) (faults w) (net w) (bus w) [] true).
Definition track (path : chars) (w : World) : unit * World :=
  ((), mkWorld (disk w) (faults w) (net w) (bus w) (guard w ++ [path]) (armed w)).
Definition disarm (w : World) : unit * World := ((), mkWorld (disk w) (faults w) (net w) (bus w) (guard w) false).

Fixpoint remove_each (paths : list chars) : prog World unit :=
  match paths with
  | [] => Ret ()
  | p :: paths => let! _ := call (remove p) in remove_each paths
  end.

Definition drop_guard (w : World) : World := if armed w then (run (remove_each (guard w)) w).2 else w.

(** ** Download and verification *)
Definition eq_ignore_ascii_case (a b : chars) : bool :=
  let lower c := if Utf8.within 65 90 c then c + 32 else c in bool_decide (lower <$> a = lower <$> b).

Definition no_progress : Z -> option Z -> option Event := fun _ _ => None.

(** The digest of the release API, when there was one. *)
Definition check_digest (path : chars) (expected_digest : option chars) : prog World (DownloadError + unit) :=
  match expected_digest with
  | None => Ret (inr ())
  | Some expected =>
      let? actual := map_err Network (sha256_file path) in
      check (eq_ignore_ascii_case actual expected) (InvalidSignature "SHA-256 mismatch")
  end.

(** A file of the manifest pair: tracked once its download is over, whatever became of it. *)
Definition download_manifest_part (url path : chars) : prog World (DownloadError + unit) :=
  let! r := download_to_file url path no_progress in
  let! _ := call (track path) in
  match r with inl e => Ret (inl (ManifestUnavailable e)) | inr _ => Ret (inr ()) end.

Definition verify_asset (asset_name asset manifest sig : chars) : prog World (DownloadError + unit) :=
  let? manifest_bytes := map_err ManifestUnavailable (call (read manifest)) in
  let? sig_bytes := map_err ManifestUnavailable (call (read sig)) in
  let? _ := check (verify_release_signature manifest_bytes sig_bytes) (InvalidSignature "manifest signature") in
  match Utf8.decode manifest_bytes with
  | None => Ret (inl (InvalidSignature "manifest text not utf-8"))
  | Some manifest_text =>
      match parse_sha256_manifest manifest_text !! asset_name with
      | None => Ret (inl (InvalidSignature "manifest has no entry"))
      | Some expected_hash =>
          let? actual_hash := map_err Network (sha256_file asset) in
          check (eq_ignore_ascii_case actual_hash expected_hash) (InvalidSignature "SHA-256 mismatch")
      end
  end.

Definition download_body (url target_dir : chars) (expected_digest : option chars) : prog World (DownloadError + DownloadedAsset) :=
  let? _ := check (is_trusted_release_asset_uri url) (Untrusted url) in
  let asset_name := last_segment url in
  let asset := join target_dir asset_name in
  let! _ := call new_guard in
  let! _ := call (track asset) in
  let? _ := map_err Network (download_to_file url asset (fun written total =>
    Some (UpdateDownloadProgress (to_string url) written total))) in
  let! _ := call (publish (UpdateVerifyingStarted (to_string url))) in
  let? _ := check_digest asset expected_digest in
  match parse_asset_version asset_name with
  | None => Ret (inl (InvalidSignature "cannot derive version"))
  | Some version =>
      let manifest_name := RELEASE_ASSET_PREFIX ++ version ++ lit ".sha256sums" in
      let manifest_url := replace_path_tail url manifest_name in
      let manifest_sig_url := manifest_url ++ lit ".sig" in
      let? _ := check (is_trusted_release_asset_uri manifest_url && is_trusted_release_asset_uri manifest_sig_url)
        (Untrusted manifest_url) in
      let manifest := join target_dir manifest_name in
      let sig := join target_dir (manifest_name ++ lit ".sig") in
      let? _ := download_manifest_part manifest_url manifest in
      let? _ := download_manifest_part manifest_sig_url sig in
      let? _ := verify_asset asset_name asset manifest sig in
      let! _ := call (publish (UpdateDownloadCompleted (to_string url) (to_string asset))) in
      let! _ := call disarm in
      Ret (inr (mkAsset asset manifest sig))
  end.

(** The guard drops with the frame that holds it; before it exists there is nothing to drop. *)
Definition download_with_verification (url target_dir : chars) (expected_digest : option chars) (w : World) :
    (DownloadError + DownloadedAsset) * World :=
  let '(r, w') := run (download_body url target_dir expected_digest) (mkWorld (disk w) (faults w) (net w) (bus w) [] false) in
  (r, drop_guard w').

(** The task aborted after [n] calls. *)
Definition aborted (n : nat) (url target_dir : chars) (expected_digest : option chars) (w : World) : World :=
  drop_guard (crash n (download_body url target_dir expected_digest) (mkWorld (disk w) (faults w) (net w) (bus w) [] false)).

End Channel.

(** ** Checking for a release *)
Definition DEFAULT_REPO : chars := lit "Llloooggg/LetsFLUTssh".

Record UpdateInfo := mkInfo {
  latest_version : chars;
  current_version : chars;
  release_url : chars;
  asset_url : option chars;
  asset_digest : option chars;
  changelog : option chars
}.

Definition has_update (i : UpdateInfo) : bool :=
  match Version.compare_versions (latest_version i) (current_version i) with Gt => true | _ => false end.

Definition default_release_url (repo : chars) : chars := lit "https://github.com/" ++ repo ++ lit "/releases/latest".
Definition api_url (repo : chars) : chars := lit "https://api.github.com/repos/" ++ repo ++ lit "/releases?per_page=30".

(** [consts::OS] and [consts::ARCH] are those of the build. *)
Definition host_platform (os : string) : string :=
  if existsb (String.eqb os) ["linux"; "macos"; "windows"; "android"]%string then os else "unknown".

Definition host_arch (arch : string) : string :=
  if String.eqb arch "x86_64" then "x64"
  else if String.eqb arch "aarch64" then "arm64"
  else if String.eqb arch "arm" then "arm32" else "unknown".

(** A string of a document as characters. *)
Definition chars_of (s : string) : chars := default [] (Utf8.decode (lit s)).

Definition field (k : string) (v : json) : option json := match v with JObject m => m !! k | _ => None end.
Definition str_field (k : string) (v : json) : option chars := chars_of <$> (field k v ≫= Json.as_str).
Definition str_or_empty (k : string) (v : json) : chars := default [] (str_field k v).

Fixpoint first_asset (suffix : chars) (assets : list json) : option json :=
  match assets with
  | [] => None
  | a :: assets => if ends_with suffix (str_or_empty "name" a) then Some a else first_asset suffix assets
  end.

Definition pick_asset_url (assets : list json) (suffix : chars) : option chars :=
  first_asset suffix assets ≫= str_field "browser_download_url".

Definition pick_asset_digest (assets : list json) (suffix : chars) : option chars :=
  first_asset suffix assets ≫= fun a => str_field "digest" a ≫= strip_chars (lit "sha256:").

Definition changelog_release (r : json) : ChangelogRelease := mkRelease (str_or_empty "tag_name" r) (str_or_empty "body" r).

(** [None]: the body is no JSON. *)
Definition check_for_update_from_body `{SerdeText} (os arch body : string) (current repo : chars) : option UpdateInfo :=
  match from_text body with
  | None => None
  | Some parsed =>
      let release_list := match parsed with JArray l => l | JObject _ => [parsed] | _ => [] end in
      match release_list with
      | [] => Some (mkInfo current current (default_release_url repo) None None None)
      | latest :: _ =>
          let version := Version.strip_v (str_or_empty "tag_name" latest) in
          let url := default (default_release_url repo) (str_field "html_url" latest) in
          let assets := match field "assets" latest with Some (JArray l) => l | _ => [] end in
          let suffix := asset_suffix (host_platform os) (host_arch arch) in
          Some (mkInfo version current url
            (suffix ≫= pick_asset_url assets) (suffix ≫= pick_asset_digest assets)
            (build_cumulative_changelog (changelog_release <$> release_list) current))
      end
  end.

(** ** The sweep of old downloads *)
Definition is_update_manifest_artifact (name : chars) : bool :=
  starts_with RELEASE_ASSET_PREFIX name && (ends_with (lit ".sha256sums") name || ends_with (lit ".sha256sums.sig") name).

Definition stale_download_suffix (asset_url : chars) : option chars :=
  let url_no_query := take_until (fun c => (c =? 63) || (c =? 35)) asset_url in
  match List.find (fun s => negb (is_empty s)) (rev (split_by (Z.eqb 47) url_no_query)) with
  | None => None
  | Some file_name =>
      match split_once_by (Z.eqb 45) file_name with
      | None => None
      | Some (_, after_first) =>
          match split_once_by (Z.eqb 45) after_first with
          | None => None
          | Some (_, rest) => Some (45 :: rest)
          end
      end
  end.

Section Sweep.
Context {N : Type}.
Notation World := (World (N := N)).
Notation "'let?' x := p 'in' q" := (try p (fun x => q))
  (at level 200, x name, p at level 100, q at level 200, right associativity) : prog_scope.

(** The names of the files in a directory. *)
Definition entry_name (dir path : chars) : option chars :=
  match strip_chars (join dir []) path with
  | Some name => if is_empty name || existsb (Z.eqb 47) name then None else Some name
  | None => None
  end.

Definition entries (dir : chars) (d : gmap chars bytes) : list chars := omap (fun kv => entry_name dir kv.1) (map_to_list d).

Definition try_exists (dir : chars) (w : World) : bool * World :=
  match next_fault w with
  | (Some _, w) => (false, w)
  | (None, w) => (negb (is_empty (entries dir (disk w))), w)
  end.

Definition read_dir (dir : chars) : World -> (HttpError + list chars) * World :=
  io OpenFailed (fun w => (inr (entries dir (disk w)), w)).

Definition remove_file (path : chars) : World -> (HttpError + unit) * World :=
  io WriteFailed (fun w =>
    match disk w !! path with
    | Some _ => (inr (), with_disk (delete path (disk w)) w)
    | None => (inl OpenFailed, w)
    end).

Definition quiet : World -> (HttpError + unit) * World := io ReadFailed (fun w => (inr (), w)).

Definition stale (suffix name : chars) : bool := ends_with suffix name || is_update_manifest_artifact name.

(** [next_entry] fails the sweep, the type and the removal of an entry skip it. *)
Fixpoint sweep (dir suffix : chars) (names : list chars) (removed : Z) : prog World (HttpError + Z) :=
  let? _ := call quiet in
  match names with
  | [] => Ret (inr removed)
  | name :: names =>
      let! file_type := call quiet in
      match file_type with
      | inl _ => sweep dir suffix names removed
      | inr _ =>
          if stale suffix name then
            let! r := call (remove_file (join dir name)) in
            sweep dir suffix names (match r with inl _ => removed | inr _ => Z.min (2 ^ 32 - 1) (removed + 1) end)
          else sweep dir suffix names removed
      end
  end.

Definition cleanup_stale_downloads (dir asset_url : chars) : prog World (HttpError + Z) :=
  match stale_download_suffix asset_url with
  | None => Ret (inr 0)
  | Some suffix =>
      let! there := call (try_exists dir) in
      if there then
        let? names := call (read_dir dir) in
        sweep dir suffix names 0
      else Ret (inr 0)
  end.

Definition cleanup_file (path : chars) (w : World) : (HttpError + unit) * World :=
  match remove_file path w with
  | (inl OpenFailed, w) => (inr (), w)
  | r => r
  end.

End Sweep.

(** ** Runs with their crash points

    [safely I p Q w]: [p] started in [w] is in [I] at every moment and returns in [Q]. *)
Section Safely.
Context {W : Type} (I : W -> Prop).

Definition safely {A} (p : prog W A) (Q : A -> W -> Prop) (w : W) : Prop := always I p w /\ wp p Q w.

Lemma safely_ret {A} (a : A) (Q : A -> W -> Prop) w : I w -> Q a w -> safely (Ret a) Q w.
Proof. intros Hi Hq. split; [by apply always_ret|by apply wp_ret]. Qed.

Lemma safely_call {A} (f : W -> A * W) (Q : A -> W -> Prop) w : I w -> I (f w).2 -> Q (f w).1 (f w).2 -> safely (call f) Q w.
Proof. intros Hi Hf Hq. split; [by apply always_call|by apply wp_call]. Qed.

Lemma safely_bind {A B} (p : prog W A) (q : A -> prog W B) Q w :
  safely p (fun a => safely (q a) Q) w -> safely (pbind p q) Q w.
Proof. intros [Hp [Hq1 Hq2]]. split; [by apply always_bind|by apply wp_bind]. Qed.

Lemma safely_mono {A} (p : prog W A) (Q Q' : A -> W -> Prop) w :
  (forall a w', Q a w' -> Q' a w') -> safely p Q w -> safely p Q' w.
Proof. intros HQ [Hp Hq]. split; [done|by eapply wp_mono]. Qed.

(** A stretch whose calls all respect a relation that [I] allows. *)
Lemma safely_stretch {A} (R : W -> W -> Prop) (p : prog W A) (Q : A -> W -> Prop) w :
  (forall w, R w w) -> (forall a b c, R a b -> R b c -> R a c) -> each_call R p ->
  (forall w', R w w' -> I w') -> wp p (fun a w' => R w w' -> Q a w') w -> safely p Q w.
Proof.
  intros Hr Ht Hp HI HQ. split; [intros n; by apply HI, each_call_crash|].
  unfold wp in *. apply HQ. by apply each_call_run.
Qed.
End Safely.

Section Laws.
Context `{Primitives} {N : Type}.
Notation World := (World (N := N)).

(** ** What each part can touch *)
Definition leaves (may : chars -> Prop) (w w' : World) : Prop :=
  (forall k, ~ may k -> disk w' !! k = disk w !! k) /\ guard w' = guard w /\ armed w' = armed w.

Definition nothing : chars -> Prop := fun _ => False.

Lemma leaves_refl may w : leaves may w w.
Proof. done. Qed.

Lemma leaves_trans may w1 w2 w3 : leaves may w1 w2 -> leaves may w2 w3 -> leaves may w1 w3.
Proof. intros (H1 & H2 & H3) (H1' & H2' & H3'). split; [intros k Hk; by rewrite H1', H1|split; congruence]. Qed.

Lemma leaves_disk w w' : leaves nothing w w' -> disk w' = disk w.
Proof. intros (Hd & _). apply map_eq. intros k. apply Hd. intros []. Qed.

Lemma leaves_mono (may may' : chars -> Prop) w w' : (forall k, may k -> may' k) -> leaves may w w' -> leaves may' w w'.
Proof. intros Hm (Hd & ?). split; [|done]. auto. Qed.

Lemma next_fault_leaves may w : leaves may w (next_fault w).2.
Proof. unfold next_fault. by destruct (faults w) as [|[] fs]. Qed.

Lemma io_leaves {A} may e (f : World -> (HttpError + A) * World) w :
  (forall w, leaves may w (f w).2) -> leaves may w (io e f w).2.
Proof.
  intros Hf. unfold io. pose proof (next_fault_leaves may w) as Hn. destruct (next_fault w) as [[n|] w1]; [done|].
  by eapply leaves_trans.
Qed.

Lemma io_quiet {A} may e (a : HttpError + A) : each_call (leaves may) (call (io e (fun w => (a, w)))).
Proof. apply each_call_call. intros w. by apply io_leaves. Qed.

Lemma disk_at (may : chars -> Prop) k d w : may k -> (forall j, j <> k -> d !! j = disk w !! j) -> leaves may w (with_disk d w).
Proof. intros Hk Hd. split; [|done]. intros j Hj. apply Hd. by intros ->. Qed.

Lemma create_touches (may : chars -> Prop) path : may path -> each_call (leaves may) (call (create path)).
Proof.
  intros Hp. apply each_call_call. intros w. apply io_leaves. clear w. intros w. destruct (names_directory path); [done|].
  apply (disk_at _ path); [done|]. intros j Hj. by apply lookup_insert_ne.
Qed.

Lemma write_touches (may : chars -> Prop) path b : may path -> each_call (leaves may) (call (write_all path b)).
Proof.
  intros Hp. apply each_call_call. intros w. unfold write_all. pose proof (next_fault_leaves may w) as Hn.
  destruct (next_fault w) as [[n|] w1]; (eapply leaves_trans; [exact Hn|]); apply (disk_at _ path); try done;
    intros j Hj; by apply lookup_alter_ne.
Qed.

Lemma read_quiet may path : each_call (leaves may) (call (read path)).
Proof. apply each_call_call. intros w. by apply io_leaves. Qed.

Lemma publish_quiet may e : each_call (leaves may) (call (publish e)).
Proof. by apply each_call_call. Qed.

Lemma request_quiet (send : chars -> N -> option Response * N) may url : each_call (leaves may) (call (request send url)).
Proof. apply each_call_call. intros w. unfold request. by destruct (send url (net w)). Qed.

Lemma try_touches may {E A B} (p : prog World (E + A)) (q : A -> prog World (E + B)) :
  each_call (leaves may) p -> (forall a, each_call (leaves may) (q a)) -> each_call (leaves may) (try p q).
Proof. intros Hp Hq. apply each_call_bind; [done|]. intros [e|a]; [constructor|done]. Qed.

Lemma map_err_touches may {E E' A} (f : E -> E') (p : prog World (E + A)) :
  each_call (leaves may) p -> each_call (leaves may) (map_err f p).
Proof. intros Hp. apply each_call_bind; [done|constructor]. Qed.

#[local] Hint Resolve io_quiet create_touches write_touches read_quiet publish_quiet request_quiet
  try_touches map_err_touches each_ret : touches.
#[local] Hint Extern 1 (each_call _ (check _ _)) => apply each_ret : touches.
#[local] Hint Extern 2 (each_call _ (pbind _ _)) => apply each_call_bind : touches.

Lemma response_quiet (send : chars -> N -> option Response * N) may url : each_call (leaves may) (checked_response send url).
Proof.
  unfold checked_response, build_client. do 2 (apply try_touches; [auto with touches|intros _]).
  apply each_call_bind; [auto with touches|]. intros [r|]; auto 8 with touches.
Qed.

Lemma chunks_touch (may : chars -> Prop) path progress total cs hashed written :
  may path -> each_call (leaves may) (write_chunks path progress total cs hashed written).
Proof.
  intros Hp. revert hashed written. induction cs as [|[b|] cs IH]; intros hashed written; cbn [write_chunks]; auto with touches.
  apply try_touches; [auto with touches|]. intros _. apply each_call_bind; [|auto].
  destruct (progress _ _); auto with touches.
Qed.

Lemma download_touches (send : chars -> N -> option Response * N) (may : chars -> Prop) url path progress :
  may path -> each_call (leaves may) (download_to_file send url path progress).
Proof.
  intros Hp. unfold download_to_file. apply try_touches; [apply response_quiet|]. intros r.
  repeat first [apply try_touches; [by auto using chunks_touch with touches|intros ?]|apply each_ret].
Qed.

Lemma sha256_file_quiet may path : each_call (leaves may) (sha256_file path).
Proof. unfold sha256_file. auto with touches. Qed.

Lemma digest_quiet may path digest : each_call (leaves may) (check_digest path digest).
Proof. destruct digest; cbn [check_digest]; auto using sha256_file_quiet with touches. Qed.

Lemma verify_quiet may name asset manifest sig : each_call (leaves may) (verify_asset name asset manifest sig).
Proof.
  unfold verify_asset. do 3 (apply try_touches; [by auto with touches|intros ?]).
  destruct (Utf8.decode _); [|by constructor]. destruct (_ !! name); [|by constructor]. auto using sha256_file_quiet with touches.
Qed.

(** ** What a verified asset is *)
Record verified (name : chars) (d : gmap chars bytes) (asset manifest sig : chars) : Prop := {
  verified_evidence : exists m s text hash content,
    d !! manifest = Some m /\ d !! sig = Some s /\ verify_release_signature m s = true /\
    Utf8.decode m = Some text /\ parse_sha256_manifest text !! name = Some hash /\
    d !! asset = Some content /\ eq_ignore_ascii_case (sha256_hex content) hash = true
}.

Lemma wp_attempt {E A B} (p : prog World (E + A)) (q : A -> prog World (E + B)) Q w :
  wp p (fun r w' => match r with inl e => Q (inl e) w' | inr a => wp (q a) Q w' end) w -> wp (try p q) Q w.
Proof. intros Hp. apply wp_bind. eapply wp_mono; [|exact Hp]. intros [e|a] w' Hr; [by apply wp_ret|done]. Qed.

Lemma wp_map_err {E E' A} (f : E -> E') (p : prog World (E + A)) Q w :
  wp p (fun r w' => Q (match r with inl e => inl (f e) | inr a => inr a end) w') w -> wp (map_err f p) Q w.
Proof. intros Hp. apply wp_bind. eapply wp_mono; [|exact Hp]. intros r w' Hr. by apply wp_ret. Qed.

Lemma wp_check {E} b (e : E) Q (w : World) : (b = true -> Q (inr ()) w) -> (b = false -> Q (inl e) w) -> wp (check b e) Q w.
Proof. intros H1 H2. apply wp_ret. destruct b; auto. Qed.

Lemma wp_read path (w : World) :
  wp (call (read path)) (fun r w' => disk w' = disk w /\ forall b, r = inr b -> disk w !! path = Some b) w.
Proof.
  apply wp_call. unfold read, io, next_fault.
  destruct (faults w) as [|[] fs]; simpl; destruct (disk w !! path); naive_solver.
Qed.

Lemma wp_sha256_file path (w : World) :
  wp (sha256_file path) (fun r w' => disk w' = disk w /\ forall h, r = inr h -> exists b, disk w !! path = Some b /\ h = sha256_hex b) w.
Proof.
  apply wp_attempt. eapply wp_mono; [|apply wp_read]. intros [e|b] w' [Hd Hb]; [naive_solver|].
  apply wp_ret. naive_solver.
Qed.

Lemma wp_verify name asset manifest sig (w : World) :
  wp (verify_asset name asset manifest sig) (fun r w' => r = inr () -> verified name (disk w) asset manifest sig) w.
Proof.
  unfold verify_asset. apply wp_attempt, wp_map_err. eapply wp_mono; [|apply wp_read]. intros [e|m] w1 [Hd1 Hm]; [done|].
  apply wp_attempt, wp_map_err. eapply wp_mono; [|apply wp_read]. intros [e|s] w2 [Hd2 Hs]; [done|].
  apply wp_attempt, wp_check; [|done]. intros Hsig.
  destruct (Utf8.decode m) as [text|] eqn:Ht; [|by apply wp_ret].
  destruct (parse_sha256_manifest text !! name) as [hash|] eqn:Hh; [|by apply wp_ret].
  apply wp_attempt, wp_map_err. eapply wp_mono; [|apply wp_sha256_file]. intros [e|h] w3 [Hd3 Hb]; [done|].
  apply wp_check; [|done]. intros Heq _. destruct (Hb h eq_refl) as (b & Hb' & ->).
  constructor. exists m, s, text, hash, b. rewrite Hd2, Hd1 in Hb'. specialize (Hs s eq_refl). rewrite Hd1 in Hs. split_and!; auto.
Qed.

End Laws.

(** ** A download, at every moment *)
Section Body.
Context `{Primitives} {N : Type} (send : chars -> N -> option Response * N).
Notation World := (World (N := N)).
Context (url dir : chars) (digest : option chars) (start : World).

Notation asset_name := (last_segment url).
Notation asset := (join dir asset_name).

Definition manifest_of (version : chars) : chars := RELEASE_ASSET_PREFIX ++ version ++ lit ".sha256sums".

(** The paths a download may write. *)
Definition ours (k : chars) : Prop :=
  k = asset \/ exists version, parse_asset_version asset_name = Some version /\
    (k = join dir (manifest_of version) \/ k = join dir (manifest_of version ++ lit ".sig")).

Definition elsewhere (w : World) : Prop := forall k, ~ ours k -> disk w !! k = disk start !! k.

Definition idle (w : World) : Prop := armed w = false /\ disk w = disk start.
Definition tracked (w : World) : Prop := armed w = true /\ asset ∈ guard w /\ Forall ours (guard w) /\ elsewhere w.
Definition entered (w : World) : Prop := armed w = true /\ guard w = [] /\ disk w = disk start.
Definition installed (w : World) : Prop :=
  armed w = false /\ elsewhere w /\ is_trusted_release_asset_uri url = true /\
  exists version, parse_asset_version asset_name = Some version /\
    verified asset_name (disk w) asset (join dir (manifest_of version)) (join dir (manifest_of version ++ lit ".sig")).

Definition moment (w : World) : Prop := idle w \/ entered w \/ tracked w \/ installed w.

Definition result (r : DownloadError + DownloadedAsset) (w : World) : Prop :=
  match r with
  | inl _ => idle w \/ tracked w
  | inr d => installed w /\ asset_path d = asset
  end.

Lemma tracked_leaves w w' : tracked w -> leaves ours w w' -> tracked w'.
Proof.
  intros (Ha & Hg & Hf & He) (Hd & Hg' & Ha'). unfold tracked. rewrite Ha', Hg'. split_and!; try done.
  intros k Hk. rewrite Hd by done. by apply He.
Qed.

Lemma tracked_moment w : tracked w -> moment w.
Proof. unfold moment. auto. Qed.

(** A stretch of a tracked download, an error ending it. *)
Lemma tracked_try {A B} (p : prog World (DownloadError + A)) (q : A -> prog World (DownloadError + B)) R Q w :
  tracked w -> each_call (leaves ours) p -> wp p (fun r w' => forall a, r = inr a -> R a w') w ->
  (forall e w', tracked w' -> Q (inl e) w') -> (forall a w', tracked w' -> R a w' -> safely moment (q a) Q w') ->
  safely moment (try p q) Q w.
Proof.
  intros Hw Hp HR He Hq. apply safely_bind.
  apply (safely_stretch _ (leaves ours)); [apply leaves_refl|apply leaves_trans|done|..].
  - intros w' Hl. by apply tracked_moment, (tracked_leaves w).
  - eapply wp_mono; [|exact HR]. intros r w' Hr Hl. pose proof (tracked_leaves _ _ Hw Hl) as Ht.
    destruct r as [e|a]; [apply safely_ret; auto using tracked_moment|auto].
Qed.

Lemma tracked_try' {A B} (p : prog World (DownloadError + A)) (q : A -> prog World (DownloadError + B)) Q w :
  tracked w -> each_call (leaves ours) p ->
  (forall e w', tracked w' -> Q (inl e) w') -> (forall a w', tracked w' -> safely moment (q a) Q w') ->
  safely moment (try p q) Q w.
Proof. intros Hw Hp He Hq. by apply (tracked_try p q (fun _ _ => True)); auto. Qed.

Lemma tracked_call {A B} (f : World -> A * World) (q : A -> prog World B) Q w :
  tracked w -> leaves ours w (f w).2 -> (forall w', tracked w' -> w' = (f w).2 -> safely moment (q (f w).1) Q w') ->
  safely moment (pbind (call f) q) Q w.
Proof.
  intros Hw Hf Hq. pose proof (tracked_leaves _ _ Hw Hf). apply safely_bind, safely_call; auto using tracked_moment.
Qed.

Lemma part_safe part_url path Q w :
  tracked w -> ours path -> (forall e w', tracked w' -> Q (inl e) w') -> (forall w', tracked w' -> Q (inr ()) w') ->
  safely moment (download_manifest_part send part_url path) Q w.
Proof.
  intros Hw Hp He Hq. unfold download_manifest_part. apply safely_bind.
  apply (safely_stretch _ (leaves ours)); [apply leaves_refl|apply leaves_trans|by apply download_touches|..].
  - intros w' Hl. by apply tracked_moment, (tracked_leaves w).
  - intros Hl. pose proof (tracked_leaves _ _ Hw Hl) as Ht. set (w1 := (run _ w).2) in *.
    assert (tracked (track path w1).2) as Ht'.
    { destruct Ht as (Ha & Hg & Hf & He'). unfold tracked. cbn. split_and!; [done|set_solver| |done].
      apply Forall_app_2; [done|]. by apply Forall_cons_2; [|apply Forall_nil_2]. }
    apply safely_bind, safely_call; auto using tracked_moment.
    destruct (run _ w).1; apply safely_ret; auto using tracked_moment.
Qed.

Lemma body_safe w : disk w = disk start -> armed w = false -> safely moment (download_body send url dir digest) result w.
Proof.
  intros Hd Ha. assert (idle w) as Hi by done.
  unfold download_body. apply safely_bind. unfold check at 1.
  destruct (is_trusted_release_asset_uri url) eqn:Ht; (apply safely_ret; [by left|]); [|apply safely_ret; by left].
  apply safely_bind, safely_call; [by left|by right; left|]. set (w1 := (new_guard w).2).
  assert (ours asset) as Hasset by by left.
  assert (tracked (track asset w1).2) as Ht2.
  { unfold tracked. cbn. split_and!; [done|set_solver|by apply Forall_cons_2; [|apply Forall_nil_2]|]. intros k _. cbn. by rewrite Hd. }
  apply safely_bind, safely_call; [by right; left|by apply tracked_moment|].
  assert (forall (e : DownloadError) w', tracked w' -> result (inl e) w') as He by (by right).
  apply tracked_try'; [done|by apply map_err_touches, download_touches|done|]. intros _ w3 Ht3.
  apply tracked_call; [done|done|]. intros w4 Ht4 _.
  apply tracked_try'; [done|apply digest_quiet|done|]. intros _ w5 Ht5.
  destruct (parse_asset_version asset_name) as [version|] eqn:Hv; [|apply safely_ret; [by apply tracked_moment|by right]].
  apply tracked_try'; [done|constructor|done|]. intros _ w6 Ht6. fold (manifest_of version).
  assert (ours (join dir (manifest_of version)) /\ ours (join dir (manifest_of version ++ lit ".sig"))) as [Hm Hs] by (split; right; eauto).
  apply safely_bind, part_safe; [done|done|intros e w' Ht'; apply safely_ret; [by apply tracked_moment|by right]|]. intros w7 Ht7.
  apply safely_bind, part_safe; [done|done|intros e w' Ht'; apply safely_ret; [by apply tracked_moment|by right]|]. intros w8 Ht8.
  set (sure (w : World) := verified asset_name (disk w) asset (join dir (manifest_of version)) (join dir (manifest_of version ++ lit ".sig"))).
  apply (tracked_try _ _ (fun _ w' => sure w')); [done|by apply verify_quiet| |done|].
  { pose proof (wp_verify asset_name asset (join dir (manifest_of version)) (join dir (manifest_of version ++ lit ".sig")) w8) as Hver.
    pose proof (each_call_run (leaves nothing) _ w8 (leaves_refl _) (leaves_trans _)
      (verify_quiet nothing asset_name asset (join dir (manifest_of version)) (join dir (manifest_of version ++ lit ".sig")))) as Hq.
    apply leaves_disk in Hq. unfold wp in *. intros [] Hr. unfold sure. rewrite Hq. by apply Hver. }
  intros _ w9 Ht9 Hsure. apply tracked_call; [done|done|]. intros w10 Ht10 ->.
  assert (installed (disarm (publish (UpdateDownloadCompleted (to_string url) (to_string asset)) w9).2).2) as Hin.
  { destruct Ht10 as (_ & _ & _ & He'). split_and!; [done|done|done|]. by exists version. }
  apply safely_bind, safely_call; [by apply tracked_moment|by do 3 right|]. apply safely_ret; [by do 3 right|done].
Qed.

End Body.

(** ** The guard *)
Section Guard.
Context {N : Type}.
Notation World := (World (N := N)).

Lemma remove_spec path (w : World) :
  (forall k, k <> path -> disk (remove path w).2 !! k = disk w !! k) /\
  (faults w = [] -> faults (remove path w).2 = [] /\ disk (remove path w).2 = delete path (disk w)).
Proof.
  unfold remove, next_fault. destruct (faults w) as [|[n|] fs] eqn:Hf; cbn; split; try done; intros k Hk; by apply lookup_delete_ne.
Qed.

Lemma remove_each_spec paths (w : World) :
  (forall k, k ∉ paths -> disk (run (remove_each paths) w).2 !! k = disk w !! k) /\
  (faults w = [] -> forall k, k ∈ paths -> disk (run (remove_each paths) w).2 !! k = None).
Proof.
  revert w. induction paths as [|p paths IH]; intros w; cbn [remove_each]; [split; [done|set_solver]|].
  rewrite run_bind, run_call. destruct (remove_spec p w) as [Hne Hf]. destruct (remove p w) as [[] w1]. cbn [fst snd] in *.
  destruct (IH w1) as [IH1 IH2]. split.
  - intros k [Hk Hks]%not_elem_of_cons. by rewrite IH1, Hne.
  - intros Hq k Hk. destruct (Hf Hq) as [Hq1 Hd]. destruct (decide (k ∈ paths)) as [Hin|Hout]; [by apply IH2|].
    rewrite IH1, Hd by done. apply elem_of_cons in Hk as [->|]; [apply lookup_delete_eq|done].
Qed.

End Guard.

Section Promises.
Context `{Primitives} {N : Type} (send : chars -> N -> option Response * N).
Notation World := (World (N := N)).
Context (url dir : chars) (digest : option chars).

Definition fresh (w : World) : World := mkWorld (disk w) (faults w) (net w) (bus w) [] false.

Lemma drop_moment (start c : World) : moment url dir start c ->
  (forall k, ~ ours url dir k -> disk (drop_guard c) !! k = disk start !! k) /\
  (faults c = [] -> disk (drop_guard c) !! join dir (last_segment url) = None \/ disk (drop_guard c) = disk start \/
     installed url dir start c /\ drop_guard c = c).
Proof.
  unfold drop_guard. intros [[Ha Hd]|[(Ha & Hg & Hd)|[(Ha & Hg & Hours & He)|Hin]]].
  - rewrite Ha, Hd. auto.
  - rewrite Ha, Hg. cbn. rewrite Hd. auto.
  - rewrite Ha. destruct (remove_each_spec (guard c) c) as [H1 H2]. split; [|auto].
    intros k Hk. rewrite H1; [by apply He|]. intros Hin. apply Hk. by apply (proj1 (Forall_forall _ _) Hours).
  - pose proof Hin as (Ha & He & _). rewrite Ha. auto.
Qed.

(** C22. Wherever a download is cut, and when it ends, only its three files have changed; unless the
    removal itself fails the installer is then not there, or the disk is as before, or the
    download was complete and the file verified. *)
Theorem unfinished_update_leaves_no_installer n (w : World) :
  let c := crash n (download_body send url dir digest) (fresh w) in
  let w' := aborted send n url dir digest w in
  (forall k, ~ ours url dir k -> disk w' !! k = disk w !! k) /\
  (faults c = [] -> disk w' !! join dir (last_segment url) = None \/ disk w' = disk w \/
     installed url dir w c /\ w' = c).
Proof. intros c w'. apply drop_moment. by apply (body_safe send url dir digest w (fresh w)). Qed.

(** C21. Whatever the network answers, an update that is reported as downloaded is the published
    artefact of its name: no bytes but those whose hash a manifest signed with the pinned key
    lists under that name can end up there. *)
Theorem installed_update_is_released (published : bytes -> Prop) (artefact : chars -> bytes) (w w' : World) d :
  (forall m s, ed25519_parse_and_verify PRIMARY_PUBLIC_KEY m s = true -> published m) ->
  (forall m text name hash, published m -> Utf8.decode m = Some text ->
     parse_sha256_manifest text !! name = Some hash -> hash = sha256_hex (artefact name)) ->
  (forall name x, eq_ignore_ascii_case (sha256_hex x) (sha256_hex (artefact name)) = true -> x = artefact name) ->
  download_with_verification send url dir digest w = (inr d, w') ->
  is_trusted_release_asset_uri url = true /\ asset_path d = join dir (last_segment url) /\
  disk w' !! asset_path d = Some (artefact (last_segment url)) /\
  (forall k, ~ ours url dir k -> disk w' !! k = disk w !! k).
Proof.
  intros Hsig Hlist Hhash. unfold download_with_verification.
  destruct (body_safe send url dir digest w (fresh w)) as [_ Hres]; [done|done|]. unfold wp in Hres. fold (fresh w).
  destruct (run _ (fresh w)) as [r c]. cbn [fst snd] in Hres. intros [= -> <-]. destruct Hres as [Hin Hp].
  destruct (drop_moment w c) as [Helse _]; [by do 3 right|]. rewrite Hp.
  destruct Hin as (Ha & He & Htrust & version & _ & [(m & s & text & hash & x & _ & _ & Hs & Hm & Hh & Hx & Heq)]).
  split_and!; [done|done| |done]. unfold drop_guard. rewrite Ha, Hx. f_equal. apply Hhash.
  unfold verify_release_signature, ed25519_verify in Hs. repeat (case_match; [done|]).
  by rewrite <-(Hlist _ _ _ _ (Hsig _ _ Hs) Hm Hh).
Qed.

End Promises.

(** ** The sweep removes exactly the stale files of the directory *)
Section SweepLaws.
Context {N : Type}.
Notation World := (World (N := N)).

Lemma join_nil dir name : join dir name = join dir [] ++ name.
Proof.
  unfold join. destruct (last dir) as [c|]; [|done]. destruct (c =? 47); [by rewrite app_nil_r|]. by rewrite <-app_assoc.
Qed.

Lemma join_path_inj dir name name' : join dir name = join dir name' -> name = name'.
Proof. rewrite (join_nil dir name), (join_nil dir name'). apply app_inv_head. Qed.

Lemma entry_name_spec dir path name :
  entry_name dir path = Some name <-> path = join dir name /\ name <> [] /\ existsb (Z.eqb 47) name = false.
Proof.
  unfold entry_name. rewrite (join_nil dir name). split.
  - destruct (strip_chars _ path) as [n|] eqn:Hs; [|done]. apply strip_chars_some in Hs as ->.
    destruct (is_empty n) eqn:He; [done|]. destruct (existsb _ n) eqn:Hx; [done|]. intros [= <-]. by destruct n.
  - intros (-> & Hne & Hx). rewrite strip_chars_app, Hx. by destruct name.
Qed.

Lemma elem_of_entries dir d name :
  name ∈ entries dir d <-> is_Some (d !! join dir name) /\ name <> [] /\ existsb (Z.eqb 47) name = false.
Proof.
  unfold entries. rewrite list_elem_of_omap. split.
  - intros ([k b] & Hk%elem_of_map_to_list & He). cbn in He. apply entry_name_spec in He as (-> & Hn). eauto.
  - intros ([b Hb] & Hn). exists (join dir name, b). split; [by apply elem_of_map_to_list|by apply entry_name_spec].
Qed.

Lemma entries_distinct dir d : NoDup (entries dir d).
Proof.
  unfold entries. pose proof (NoDup_fst_map_to_list d) as Hnd. induction (map_to_list d) as [|[k b] l IH]; [constructor|].
  cbn in *. apply NoDup_cons in Hnd as [Hk Hnd]. destruct (entry_name dir k) as [name|] eqn:He; [|by apply IH].
  apply NoDup_cons. split; [|by apply IH]. intros ([k' b'] & Hin & He')%list_elem_of_omap.
  cbn in He'. apply entry_name_spec in He as (-> & _), He' as (-> & _). apply Hk. by apply (list_elem_of_fmap_2 fst _ _ Hin).
Qed.

Definition count (suffix : chars) (names : list chars) : Z := Z.of_nat (length (List.filter (stale suffix) names)).

Lemma still_calm (w : World) : faults w = [] -> quiet w = (inr (), w).
Proof. unfold quiet, io, next_fault. by intros ->. Qed.

Lemma calm_sweep dir suffix names removed (w : World) :
  faults w = [] -> NoDup names -> (forall name, name ∈ names -> is_Some (disk w !! join dir name)) -> removed <= 2 ^ 32 - 1 ->
  wp (sweep dir suffix names removed) (fun r w' => r = inr (Z.min (2 ^ 32 - 1) (removed + count suffix names)) /\
    forall k, disk w' !! k = if bool_decide (k ∈ join dir <$> List.filter (stale suffix) names) then None else disk w !! k) w.
Proof.
  revert removed w. induction names as [|name names IH]; intros removed w Hq Hnd Hin Hr.
  - apply wp_bind, wp_call. rewrite still_calm by done. apply wp_ret. split; [|done]. unfold count. cbn. f_equal. lia.
  - apply NoDup_cons in Hnd as [Hn Hnd]. cbn [sweep].
    apply wp_bind, wp_call. rewrite still_calm by done. cbn [fst snd].
    apply wp_bind, wp_call. rewrite still_calm by done. cbn [fst snd]. unfold count. cbn [List.filter].
    destruct (stale suffix name) eqn:Hs; [|by apply IH; [..|intros x Hx; apply Hin; by right|]].
    apply wp_bind, wp_call. unfold remove_file, io, next_fault. rewrite Hq.
    destruct (Hin name) as [b Hb]; [by left|]. rewrite Hb. cbn [fst snd].
    eapply wp_mono; [|apply IH; try done; [|lia]].
    + intros r w' [-> Hd]. unfold count in *. split; [f_equal; cbn [length]; lia|]. intros k. rewrite Hd. cbn [disk with_disk].
      destruct (decide (k = join dir name)) as [->|Hk].
      * rewrite (bool_decide_eq_true_2 (_ ∈ _ <$> _ :: _)) by (cbn; left). rewrite lookup_delete_eq. by destruct (bool_decide _).
      * rewrite lookup_delete_ne by done. rewrite (bool_decide_ext (k ∈ join dir <$> name :: _) (k ∈ join dir <$> List.filter (stale suffix) names)); [done|].
        cbn. rewrite elem_of_cons. naive_solver.
    + intros x Hx. cbn. rewrite lookup_delete_ne; [apply Hin; by right|]. intros Hj%join_path_inj. by subst.
Qed.

Definition stale_path (dir suffix path : chars) : bool :=
  match entry_name dir path with Some name => stale suffix name | None => false end.

(** With no file call failing the sweep removes exactly the files directly in the directory that
    carry the platform's suffix or are a manifest artefact, and reports their number. *)
Theorem sweep_removes_exactly dir asset_url suffix (w : World) :
  faults w = [] -> stale_download_suffix asset_url = Some suffix ->
  wp (cleanup_stale_downloads dir asset_url) (fun r w' =>
    r = inr (Z.min (2 ^ 32 - 1) (count suffix (entries dir (disk w)))) /\
    forall k, disk w' !! k = if stale_path dir suffix k then None else disk w !! k) w.
Proof.
  intros Hq Hs. unfold cleanup_stale_downloads. rewrite Hs. apply wp_bind, wp_call. unfold try_exists, next_fault. rewrite Hq.
  assert (forall k, (if bool_decide (k ∈ join dir <$> List.filter (stale suffix) (entries dir (disk w))) then None else disk w !! k) =
    if stale_path dir suffix k then None else disk w !! k) as Hk.
  { intros k. unfold stale_path. case_bool_decide as Hin.
    - apply list_elem_of_fmap in Hin as (name & -> & Hin). apply list_elem_of_In, filter_In in Hin as [Hin Hst].
      apply list_elem_of_In, elem_of_entries in Hin as (_ & Hn). by rewrite (proj2 (entry_name_spec _ _ _) (conj eq_refl Hn)), Hst.
    - destruct (entry_name dir k) as [name|] eqn:He; [|done]. destruct (stale suffix name) eqn:Hst; [|done].
      apply entry_name_spec in He as [-> Hn]. destruct (disk w !! join dir name) eqn:Hd; [|done]. exfalso. apply Hin.
      apply list_elem_of_fmap. exists name. split; [done|]. apply list_elem_of_In, filter_In. split; [|done].
      apply list_elem_of_In, elem_of_entries. by rewrite Hd. }
  cbn [fst snd]. destruct (is_empty (entries dir (disk w))) eqn:He.
  - cbn [negb]. apply wp_ret. assert (entries dir (disk w) = []) as Hnil by (by destruct (entries dir (disk w))).
    rewrite Hnil in *. split; [done|]. intros k. by rewrite <-Hk.
  - cbn [negb]. apply wp_bind, wp_call. unfold read_dir, io, next_fault. rewrite Hq. cbn [fst snd].
    eapply wp_mono; [|apply calm_sweep; [done|apply entries_distinct| |lia]].
    + intros r w' [-> Hd]. split; [done|]. intros k. by rewrite Hd, Hk.
    + intros name Hn. by apply elem_of_entries in Hn as [? _].
Qed.

End SweepLaws.

(** The suffix of an asset's address is the one its platform publishes, whatever the version. *)
Lemma stale_suffix_of_asset head version os arch suffix :
  asset_suffix os arch = Some suffix -> free (fun c => (c =? 63) || (c =? 35)) head ->
  free (fun c => (c =? 63) || (c =? 35) || (c =? 47) || (c =? 45)) version ->
  stale_download_suffix (head ++ [47] ++ RELEASE_ASSET_PREFIX ++ version ++ suffix) = Some suffix.
Proof.
  intros Hsuf Hhead Hver.
  assert (exists rest, suffix = 45 :: rest /\ free (fun c => (c =? 63) || (c =? 35)) suffix /\ free (Z.eqb 47) suffix) as (rest & Hr & Hs1 & Hs2).
  { unfold asset_suffix in Hsuf. repeat case_match; simplify_eq; eexists; (split; [reflexivity|split; repeat constructor]). }
  assert (free (fun c => (c =? 63) || (c =? 35)) version) as Hv1.
  { refine (free_weaken _ _ _ _ Hver). intros c. rewrite !orb_true_iff. tauto. }
  assert (free (Z.eqb 47) version) as Hv2.
  { refine (free_weaken _ _ _ _ Hver). intros c <-%Z.eqb_eq. done. }
  assert (free (Z.eqb 45) version) as Hv3.
  { refine (free_weaken _ _ _ _ Hver). intros c <-%Z.eqb_eq. done. }
  unfold stale_download_suffix.
  rewrite <-(app_nil_r (head ++ _)), take_until_app; [|by repeat (apply free_app; [done||by repeat constructor|])|done].
  change ([47] ++ ?x) with (47 :: x).
  assert (split_by (Z.eqb 47) (head ++ 47 :: RELEASE_ASSET_PREFIX ++ version ++ suffix) =
    split_by (Z.eqb 47) head ++ [RELEASE_ASSET_PREFIX ++ version ++ suffix]) as ->.
  { rewrite split_by_snoc by done. f_equal. apply split_by_free. by repeat (apply free_app; [done||by repeat constructor|]). }
  rewrite rev_unit. cbn [List.find is_empty negb].
  replace (is_empty (RELEASE_ASSET_PREFIX ++ version ++ suffix)) with false by done. cbn [negb].
  change (RELEASE_ASSET_PREFIX ++ version ++ suffix) with (lit "letsflutssh" ++ 45 :: (version ++ suffix)).
  rewrite split_once_by_app by (done || by repeat constructor). rewrite Hr, split_once_by_app by done. done.
Qed.

(** The address and the digest offered are those of one asset of the latest release, built for
    this platform. *)
Lemma first_asset_spec suffix assets a : first_asset suffix assets = Some a ->
  a ∈ assets /\ ends_with suffix (str_or_empty "name" a) = true.
Proof.
  induction assets as [|b assets IH]; [done|]. cbn [first_asset]. destruct (ends_with _ (str_or_empty "name" b)) eqn:E.
  - intros [= ->]. split; [by left|done].
  - intros Ha. destruct (IH Ha). split; [by right|done].
Qed.

Lemma offered_asset_is_for_platform `{SerdeText} os arch body current repo i url :
  check_for_update_from_body os arch body current repo = Some i -> asset_url i = Some url ->
  exists suffix a assets, asset_suffix (host_platform os) (host_arch arch) = Some suffix /\
    first_asset suffix assets = Some a /\ ends_with suffix (str_or_empty "name" a) = true /\
    str_field "browser_download_url" a = Some url /\
    asset_digest i = str_field "digest" a ≫= strip_chars (lit "sha256:").
Proof.
  unfold check_for_update_from_body. destruct (from_text body) as [parsed|]; [|done].
  destruct (match parsed with JArray l => l | JObject _ => [parsed] | _ => [] end) as [|latest rest]; [by intros [= <-]|].
  intros [= <-]. cbn. destruct (asset_suffix _ _) as [suffix|]; [|done]. cbn. unfold pick_asset_url, pick_asset_digest.
  set (assets := match field "assets" latest with Some (JArray l) => l | _ => [] end). intros Hu.
  destruct (first_asset suffix assets) as [a|] eqn:Ha; [|done]. exists suffix, a, assets. split_and!; try done.
  by apply first_asset_spec in Ha as [_ ?].
Qed.

(** ** A release, by evaluation *)
Section Runs.

Definition demo_asset : chars := lit "letsflutssh-1.2.3-linux-x64.AppImage".
Definition demo_installer : bytes := [1; 2; 3].
Definition demo_digest : chars := replicate 64 48.
Definition demo_manifest : bytes := sum_line false (demo_asset, demo_digest) ++ [10].

#[local] Instance demo_primitives : Primitives := {|
  hkdf_expand := @hkdf_expand toy_primitives;
  sha256 b := if bool_decide (b = demo_installer) then replicate 32 0 else replicate 32 1;
  gcm_encrypt := @gcm_encrypt toy_primitives;
  gcm_decrypt := @gcm_decrypt toy_primitives;
  ed25519_parse_and_verify pk m s := bool_decide (m = demo_manifest);
  argon2id := @argon2id toy_primitives;
  hkdf_length := @hkdf_length toy_primitives;
  gcm_total := @gcm_total toy_primitives;
  gcm_length := @gcm_length toy_primitives;
  gcm_open := @gcm_open toy_primitives;
  gcm_auth := @gcm_auth toy_primitives
|}.

Definition demo_url : chars := lit "https://github.com/o/r/releases/download/v1.2.3/" ++ demo_asset.

Definition demo_send (url : chars) (n : nat) : option Response * nat :=
  let body :=
    if ends_with (lit ".sig") url then [Some (replicate 64 7)]
    else if ends_with (lit ".sha256sums") url then [Some (take 10 demo_manifest); Some (drop 10 demo_manifest)]
    else [Some [1]; Some [2; 3]] in
  (Some (mkResponse true url None body), S n).

Definition demo_world : World := mkWorld (<[lit "/d/config.json" := [9]]> ∅) [] 0%nat EventBus.new [] false.

Lemma installed_update_is_released_witness :
  let r := download_with_verification demo_send demo_url (lit "/d") None demo_world in
  match r.1 with inr d => disk r.2 !! asset_path d = Some demo_installer | inl _ => False end.
Proof.
  intros r. destruct (r.1) as [e|d] eqn:Hr; [vm_compute in Hr; discriminate|].
  apply (installed_update_is_released demo_send demo_url (lit "/d") None (fun m => m = demo_manifest)
    (fun _ => demo_installer) demo_world (r.2) d).
  - intros m s Hs. cbn in Hs. by apply bool_decide_eq_true in Hs.
  - intros m text name hash -> Ht Hh.
    assert (Some text = Some demo_manifest) as [= ->] by (rewrite <-Ht; vm_compute; reflexivity).
    assert (parse_sha256_manifest demo_manifest = {[demo_asset := demo_digest]}) as Hp by (vm_compute; reflexivity).
    rewrite Hp in Hh. apply lookup_singleton_Some in Hh as [_ <-]. vm_compute. reflexivity.
  - intros name x Hx. destruct (decide (x = demo_installer)) as [|Hne]; [done|]. exfalso.
    unfold sha256_hex in Hx. cbn [sha256 demo_primitives] in Hx. rewrite (bool_decide_eq_false_2 _ Hne) in Hx. vm_compute in Hx. discriminate.
  - fold r. rewrite <-Hr. apply surjective_pairing.
Defined.

Lemma unfinished_update_leaves_no_installer_witness :
  let c := crash 17 (download_body demo_send demo_url (lit "/d") None) (fresh demo_world) in
  let w' := aborted demo_send 17 demo_url (lit "/d") None demo_world in
  faults c = [] /\
  (disk w' !! join (lit "/d") (last_segment demo_url) = None \/ disk w' = disk demo_world \/
   installed demo_url (lit "/d") demo_world c /\ w' = c).
Proof.
  intros c w'. assert (faults c = []) as Hc by (vm_compute; reflexivity). split; [exact Hc|].
  pose proof (unfinished_update_leaves_no_installer demo_send demo_url (lit "/d") None 17 demo_world) as [_ Hend].
  exact (Hend Hc).
Defined.

(** An abort while the manifest streams leaves what arrived of it: the guard learns of a file
    only when its download is over. *)
Lemma abort_keeps_partial_manifest :
  let w' := aborted demo_send 17 demo_url (lit "/d") None demo_world in
  disk w' !! (lit "/d/" ++ demo_asset) = None /\ disk w' !! lit "/d/letsflutssh-1.2.3.sha256sums" = Some (take 10 demo_manifest).
Proof. vm_compute. split; reflexivity. Qed.

End Runs.
