(* ===== verification/AuthCompose.v ===== *)
(** * The credential of a connect attempt

    [connection/auth_compose.rs] with the staging functions of [db/sessions.rs],
    [db/ssh_keys.rs] and [db/ssh_key_certificates.rs]: which credential a dial uses, under
    which ids its secrets go into the store, and which of these ids the caller has to drop.
    The specification picks the credential from the tables alone; the composer refines it. *)
From Stdlib Require Import ZArith Lia.
From stdpp Require Import prelude gmap strings list.
From S2P Require Import Prelude Text Prog Secrets KnownHosts Tables Dao Apply ApplyLaws.

Open Scope Z_scope.

Notation bytes := (list Z).

Record PrepareAuthInput := mkInput {
  session_id : option string;
  key_id : string;
  key_data : string;
  password : string;
  passphrase : string;
  pin : string
}.

Inductive PreparedAuthRef :=
| Password (secret_id : string)
| Pubkey (key_secret_id : string) (passphrase_secret_id : option string)
| PubkeyCert (key_secret_id cert_secret_id : string) (passphrase_secret_id : option string)
| PubkeySk (public_openssh : string) (credential_id : bytes) (application : string) (has_user_verification : bool)
    (pin_secret_id : option string)
| PubkeySkCert (public_openssh : string) (credential_id : bytes) (application : string) (has_user_verification : bool)
    (cert_secret_id : string) (pin_secret_id : option string)
| PubkeyPkcs11 (public_openssh module_path token_serial : string) (cka_id : bytes) (key_type : string)
    (pin_secret_id : option string)
| PubkeyEnclave (public_openssh : string) (application_tag : bytes)
| PubkeyHello (public_openssh credential_name key_type : string)
| PubkeyTpm (public_openssh provider : string) (blob : option bytes) (cng_key_name : option string) (key_type : string)
    (pin_secret_id : option string)
| PubkeyKeystore (public_openssh keystore_alias key_type : string).

Record PreparedAuth := mkPrepared { auth : PreparedAuthRef; transient_secret_ids : list string }.

Record StagedSecrets := mkStaged { auth_type : string; has_password : bool; has_key_data : bool; has_passphrase : bool }.

Definition is_empty (s : string) : bool := match s with EmptyString => true | _ => false end.

(** ** The columns *)
Definition live {R} (rows : gmap string (stored R)) (id : string) : option R :=
  match rows !! id with Some s => if alive s then Some (row s) else None | None => None end.

(** (auth_type, password, key_data, passphrase) *)
Definition session_secrets (t : Tables) (id : string) : option (string * string * string * string) :=
  match live (sessions t) id with
  | None => None
  | Some _ =>
      Some match ssh_details t !! id with
           | Some j => (ssh_auth_type j, ssh_password j, ssh_key_data j, ssh_passphrase j)
           | None => ("password", "", "", "")%string
           end
  end.

Definition select_session_secrets (id : string) : sql (option (string * string * string * string)) :=
  fun t => Some (session_secrets t id, t).
Definition select_key (id : string) : sql (option SshKeyRow) := fun t => Some (live (ssh_keys t) id, t).
Definition select_private_key (id : string) : sql (option string) := fun t => Some (private_key <$> live (ssh_keys t) id, t).
Definition select_certificate (id : string) : sql (option bytes) := fun t => Some (certificate <$> certificates t !! id, t).

Section Composer.
Context {D : Type} `{Database D}.

(** The connection and the process-wide secret store. *)
Record Dial := mkDial { db : D; store : SecretStore }.

Definition on_db {A} (p : prog D A) : prog Dial A := zoom db (fun d w => mkDial d (store w)) p.

Definition put (id : string) (b : bytes) : prog Dial unit :=
  call (fun w => ((), mkDial (db w) (SecretStore.put id b (store w)))).

(** [.query_row(…).ok()] behind a prepared statement: only preparing it can fail. *)
Definition query_row_ok {A} (prepare : string) (s : sql (option A)) : prog D (Error + option A) :=
  let! r := call (execute s) in
  Ret match r with
      | inl (Prepare, e) => inl (Db (prepare ++ ": " ++ e))
      | inl _ => inr None
      | inr a => inr a
      end.

Definition get_key (id : string) : prog D (Error + option SshKeyRow) :=
  query_as "ssh_keys get prepare" "ssh_keys get query" "ssh_keys get row" (select_key id).

(** A non-empty column under its id. *)
Definition put_column (id column : string) : prog Dial unit := if is_empty column then Ret () else put id (lit column).

Definition stage_secrets_into_store (session : string) : prog Dial (Error + option StagedSecrets) :=
  let? r := on_db (query_row_ok "sessions stage_secrets prepare" (select_session_secrets session)) in
  match r with
  | None => Ret (inr None)
  | Some (auth_type, pw, key, pass) =>
      let! _ := put_column ("sess.password." ++ session) pw in
      let! _ := put_column ("sess.key." ++ session) key in
      let! _ := put_column ("sess.passphrase." ++ session) pass in
      Ret (inr (Some (mkStaged auth_type (negb (is_empty pw)) (negb (is_empty key)) (negb (is_empty pass)))))
  end.

Definition private_key_secret_id (key : string) : string := "key.priv." ++ key.
Definition certificate_secret_id (key : string) : string := "key.cert." ++ key.

Definition stage_private_key (key : string) : prog Dial (Error + bool) :=
  let? r := on_db (query_row_ok "ssh_keys stage prepare" (select_private_key key)) in
  match r with
  | None => Ret (inr false)
  | Some pem =>
      if is_empty pem then Ret (inr false)
      else let! _ := put (private_key_secret_id key) (lit pem) in Ret (inr true)
  end.

Definition stage_certificate (key : string) : prog Dial (Error + bool) :=
  let? r := on_db (query_row_ok "ssh_key_certificates stage prepare" (select_certificate key)) in
  match r with
  | None | Some [] => Ret (inr false)
  | Some blob => let! _ := put (certificate_secret_id key) blob in Ret (inr true)
  end.

(** ** The composer

    [transients] is the vector the parts push to; a part that returns no reference hands it on. *)
Definition stage_pin (transients : list string) (prefix key typed : string) : prog Dial (string * list string) :=
  let id := (prefix ++ "." ++ key)%string in
  let! _ := put id (lit typed) in
  Ret (id, transients ++ [id]).

Definition try_saved_session (input : PrepareAuthInput) (transients : list string) :
    prog Dial (Error + option PreparedAuth * option string) :=
  match session_id input with
  | None => Ret (inr (None, None))
  | Some session =>
      let? staged := stage_secrets_into_store session in
      match staged with
      | None => Ret (inr (None, None))
      | Some s =>
          let session_passphrase_id := if has_passphrase s then Some ("sess.passphrase." ++ session)%string else None in
          Ret (inr (
            (if has_key_data s then Some (mkPrepared (Pubkey ("sess.key." ++ session) session_passphrase_id) transients)
             else if has_password s then Some (mkPrepared (Password ("sess.password." ++ session)) transients)
             else None),
            session_passphrase_id))
      end
  end.

Definition required {A} (o : option A) (message : string) : Error + A :=
  match o with Some a => inr a | None => inl (Auth message) end.

Definition enclave_ref (r : SshKeyRow) : Error + PreparedAuthRef :=
  match required (enclave_tag r) "enclave row missing enclave_tag" with
  | inl e => inl e
  | inr tag => inr (PubkeyEnclave (public_key r) tag)
  end.

Definition hello_ref (r : SshKeyRow) : Error + PreparedAuthRef :=
  match required (hello_credential_name r) "hello row missing hello_credential_name" with
  | inl e => inl e
  | inr name => inr (PubkeyHello (public_key r) name (k_key_type r))
  end.

Definition keystore_ref (r : SshKeyRow) : Error + PreparedAuthRef :=
  match required (keystore_alias r) "keystore row missing keystore_alias" with
  | inl e => inl e
  | inr a => inr (PubkeyKeystore (public_key r) a (k_key_type r))
  end.

(** A PIN staged when it is wanted and typed. *)
Definition optional_pin (wanted : bool) (transients : list string) (prefix : string) (input : PrepareAuthInput) :
    prog Dial (option string * list string) :=
  if wanted && negb (is_empty (pin input)) then
    let! staged := stage_pin transients prefix (key_id input) (pin input) in Ret (Some staged.1, staged.2)
  else Ret (None, transients).

Definition tpm_ref (r : SshKeyRow) (input : PrepareAuthInput) (transients : list string) : prog Dial (Error + PreparedAuth) :=
  match required (tpm_provider r) "tpm row missing tpm_provider" with
  | inl e => Ret (inl e)
  | inr provider =>
      let! p := optional_pin (tpm_pin_required r) transients "tpm.pin" input in
      Ret (inr (mkPrepared (PubkeyTpm (public_key r) provider (tpm_blob r) (cng_key_name r) (k_key_type r) p.1) p.2))
  end.

Definition pkcs11_ref (r : SshKeyRow) (input : PrepareAuthInput) (transients : list string) : prog Dial (Error + PreparedAuth) :=
  match required (pkcs11_module_path r) "pkcs11 row missing module_path" with
  | inl e => Ret (inl e)
  | inr module_path =>
      match required (pkcs11_token_serial r) "pkcs11 row missing token_serial" with
      | inl e => Ret (inl e)
      | inr serial =>
          match required (pkcs11_object_id r) "pkcs11 row missing object_id" with
          | inl e => Ret (inl e)
          | inr cka =>
              let! p := optional_pin true transients "pkcs11.pin" input in
              Ret (inr (mkPrepared (PubkeyPkcs11 (public_key r) module_path serial cka (k_key_type r) p.1) p.2))
          end
      end
  end.

Definition sk_ref (input : PrepareAuthInput) (r : SshKeyRow) (credential : bytes) (application : string)
    (transients : list string) : prog Dial (Error + PreparedAuth) :=
  let! p := optional_pin (has_user_verification r) transients "key.pin" input in
  let? cert := stage_certificate (key_id input) in
  Ret (inr (mkPrepared
    (if cert then PubkeySkCert (public_key r) credential application (has_user_verification r) (certificate_secret_id (key_id input)) p.1
     else PubkeySk (public_key r) credential application (has_user_verification r) p.1) p.2)).

(** A typed passphrase goes under its own id unless the session has one. *)
Definition optional_passphrase (id : string) (input : PrepareAuthInput) (session_passphrase_id : option string)
    (transients : list string) : prog Dial (option string * list string) :=
  match session_passphrase_id with
  | Some s => Ret (Some s, transients)
  | None =>
      if is_empty (passphrase input) then Ret (None, transients)
      else let! _ := put id (lit (passphrase input)) in Ret (Some id, transients ++ [id])
  end.

Definition software_pubkey_auth (input : PrepareAuthInput) (transients : list string) (session_passphrase_id : option string) :
    prog Dial (Error + option PreparedAuth) :=
  let? staged := stage_private_key (key_id input) in
  if staged then
    let! p := optional_passphrase ("key.passphrase." ++ key_id input) input session_passphrase_id transients in
    let? cert := stage_certificate (key_id input) in
    Ret (inr (Some (mkPrepared
      (if cert then PubkeyCert (private_key_secret_id (key_id input)) (certificate_secret_id (key_id input)) p.1
       else Pubkey (private_key_secret_id (key_id input)) p.1) p.2)))
  else Ret (inr None).

Definition plain_ref (r : Error + PreparedAuthRef) (transients : list string) : prog Dial (Error + PreparedAuth) :=
  Ret match r with inl e => inl e | inr a => inr (mkPrepared a transients) end.

Definition some_ref (p : prog Dial (Error + PreparedAuth)) : prog Dial (Error + option PreparedAuth) :=
  let? a := p in Ret (inr (Some a)).

Definition try_manager_key (input : PrepareAuthInput) (transients : list string) (session_passphrase_id : option string) :
    prog Dial (Error + option PreparedAuth) :=
  if is_empty (key_id input) then Ret (inr None)
  else
    let? found := on_db (get_key (key_id input)) in
    match found with
    | None => Ret (inr None)
    | Some r =>
        match backend r with
        | Enclave => some_ref (plain_ref (enclave_ref r) transients)
        | Hello => some_ref (plain_ref (hello_ref r) transients)
        | Tpm => some_ref (tpm_ref r input transients)
        | Keystore => some_ref (plain_ref (keystore_ref r) transients)
        | Pkcs11 => some_ref (pkcs11_ref r input transients)
        | Software | Fido2 =>
            match credential_id r, application_string r with
            | Some credential, Some application => some_ref (sk_ref input r credential application transients)
            | _, _ => software_pubkey_auth input transients session_passphrase_id
            end
        end
    end.

Definition quick_connect_fallback (input : PrepareAuthInput) (transients : list string) (session_passphrase_id : option string) :
    prog Dial PreparedAuth :=
  let! transient_id := on_db fresh_id in
  if negb (is_empty (key_data input)) then
    let key := ("conn.key." ++ transient_id)%string in
    let! _ := put key (lit (key_data input)) in
    let! p := optional_passphrase ("conn.passphrase." ++ transient_id) input session_passphrase_id (transients ++ [key]) in
    Ret (mkPrepared (Pubkey key p.1) p.2)
  else
    let id := ("conn.password." ++ transient_id)%string in
    let! _ := put id (lit (password input)) in
    Ret (mkPrepared (Password id) (transients ++ [id])).

Definition prepare_auth (input : PrepareAuthInput) : prog Dial (Error + PreparedAuth) :=
  let? saved := try_saved_session input [] in
  match saved.1 with
  | Some prepared => Ret (inr prepared)
  | None =>
      let? managed := try_manager_key input [] saved.2 in
      match managed with
      | Some prepared => Ret (inr prepared)
      | None => let! prepared := quick_connect_fallback input [] saved.2 in Ret (inr prepared)
      end
  end.

End Composer.

(** ** The specification: the credential, from the tables alone *)
Inductive Credential :=
| APassword (p : bytes)
| AKey (key : bytes) (passphrase : option bytes)
| ACert (key cert : bytes) (passphrase : option bytes)
| ASk (public_openssh : string) (credential_id : bytes) (application : string) (user_verification : bool)
    (cert : option bytes) (pin : option bytes)
| APkcs11 (public_openssh module_path token_serial : string) (cka_id : bytes) (key_type : string) (pin : option bytes)
| AEnclave (public_openssh : string) (tag : bytes)
| AHello (public_openssh name key_type : string)
| ATpm (public_openssh provider : string) (blob : option bytes) (cng_key_name : option string) (key_type : string)
    (pin : option bytes)
| AKeystore (public_openssh alias key_type : string).

Definition typed (s : string) : option bytes := if is_empty s then None else Some (lit s).

(** The certificate paired with a key, unless its blob is empty. *)
Definition cert_of (t : Tables) (key : string) : option bytes :=
  match certificate <$> certificates t !! key with Some [] | None => None | Some b => Some b end.

Definition inline_credential (input : PrepareAuthInput) (session_passphrase : option bytes) : Credential :=
  match typed (key_data input) with
  | Some key => AKey key (match session_passphrase with Some p => Some p | None => typed (passphrase input) end)
  | None => APassword (lit (password input))
  end.

Definition hardware_credential (input : PrepareAuthInput) (r : SshKeyRow) : option (Error + Credential) :=
  match backend r with
  | Enclave => Some (match enclave_tag r with Some tag => inr (AEnclave (public_key r) tag) | None => inl (Auth "enclave row missing enclave_tag") end)
  | Hello => Some (match hello_credential_name r with Some n => inr (AHello (public_key r) n (k_key_type r)) | None => inl (Auth "hello row missing hello_credential_name") end)
  | Keystore => Some (match keystore_alias r with Some a => inr (AKeystore (public_key r) a (k_key_type r)) | None => inl (Auth "keystore row missing keystore_alias") end)
  | Tpm => Some (match tpm_provider r with
                 | Some p => inr (ATpm (public_key r) p (tpm_blob r) (cng_key_name r) (k_key_type r) (if tpm_pin_required r then typed (pin input) else None))
                 | None => inl (Auth "tpm row missing tpm_provider") end)
  | Pkcs11 => Some (match pkcs11_module_path r, pkcs11_token_serial r, pkcs11_object_id r with
                    | Some m, Some s, Some o => inr (APkcs11 (public_key r) m s o (k_key_type r) (typed (pin input)))
                    | None, _, _ => inl (Auth "pkcs11 row missing module_path")
                    | _, None, _ => inl (Auth "pkcs11 row missing token_serial")
                    | _, _, None => inl (Auth "pkcs11 row missing object_id") end)
  | Software | Fido2 => None
  end.

Definition stored_credential (t : Tables) (input : PrepareAuthInput) (session_passphrase : option bytes) (r : SshKeyRow) : option (Error + Credential) :=
  match hardware_credential input r with
  | Some c => Some c
  | None =>
      match credential_id r, application_string r with
      | Some c, Some a =>
          Some (inr (ASk (public_key r) c a (has_user_verification r) (cert_of t (key_id input))
            (if has_user_verification r then typed (pin input) else None)))
      | _, _ =>
          match typed (private_key r) with
          | None => None
          | Some key =>
              let phrase := match session_passphrase with Some p => Some p | None => typed (passphrase input) end in
              Some (inr (match cert_of t (key_id input) with Some cert => ACert key cert phrase | None => AKey key phrase end))
          end
      end
  end.

(** A saved key, a saved password, the manager's key, what was typed: the first there is. *)
Definition chosen (t : Tables) (input : PrepareAuthInput) : Error + Credential :=
  let saved := session_id input ≫= session_secrets t in
  let saved_phrase := saved ≫= fun s => typed s.2 in
  match saved ≫= fun s => typed s.1.2 with
  | Some key => inr (AKey key saved_phrase)
  | None =>
      match saved ≫= fun s => typed s.1.1.2 with
      | Some p => inr (APassword p)
      | None =>
          match (if is_empty (key_id input) then None else live (ssh_keys t) (key_id input)) ≫= stored_credential t input saved_phrase with
          | Some c => c
          | None => inr (inline_credential input saved_phrase)
          end
      end
  end.

(** A reference with its ids looked up. *)
Definition opened (s : SecretStore) (id : option string) : option (option bytes) :=
  match id with None => Some None | Some i => Some <$> SecretStore.get i s end.

Definition view (s : SecretStore) (r : PreparedAuthRef) : option Credential :=
  match r with
  | Password i => APassword <$> SecretStore.get i s
  | Pubkey k p => key ← SecretStore.get k s; phrase ← opened s p; Some (AKey key phrase)
  | PubkeyCert k c p => key ← SecretStore.get k s; cert ← SecretStore.get c s; phrase ← opened s p; Some (ACert key cert phrase)
  | PubkeySk pub c a uv p => pin ← opened s p; Some (ASk pub c a uv None pin)
  | PubkeySkCert pub c a uv ci p => cert ← SecretStore.get ci s; pin ← opened s p; Some (ASk pub c a uv (Some cert) pin)
  | PubkeyPkcs11 pub m t o kt p => pin ← opened s p; Some (APkcs11 pub m t o kt pin)
  | PubkeyEnclave pub t => Some (AEnclave pub t)
  | PubkeyHello pub n kt => Some (AHello pub n kt)
  | PubkeyTpm pub pr b c kt p => pin ← opened s p; Some (ATpm pub pr b c kt pin)
  | PubkeyKeystore pub a kt => Some (AKeystore pub a kt)
  end.

(** The ids of the rows, which live as long as their session. *)
Definition slot (input : PrepareAuthInput) (k : string) : Prop :=
  (exists s, session_id input = Some s /\
     (k = "sess.password." ++ s \/ k = "sess.key." ++ s \/ k = "sess.passphrase." ++ s)%string) \/
  k = private_key_secret_id (key_id input) \/ k = certificate_secret_id (key_id input).

(** ** Ids with different prefixes *)
Fixpoint diverge (a b : string) : bool :=
  match a, b with
  | String c a, String d b => if Ascii.eqb c d then diverge a b else true
  | _, _ => false
  end.

Lemma diverge_ne a b x y : diverge a b = true -> (a ++ x)%string <> (b ++ y)%string.
Proof.
  revert b. induction a as [|c a IH]; intros [|d b]; try done. cbn [diverge].
  change ((String c a ++ x)%string) with (String c (a ++ x)). change ((String d b ++ y)%string) with (String d (b ++ y)).
  destruct (Ascii.eqb c d) eqn:E; [|apply Ascii.eqb_neq in E; congruence].
  intros Hd [= _ Hab]. by apply (IH b Hd).
Qed.

Lemma get_drop_all k s ids :
  SecretStore.get k (foldr SecretStore.drop_id s ids) = if bool_decide (k ∈ ids) then None else SecretStore.get k s.
Proof.
  induction ids as [|i ids IH]; [done|]. cbn [foldr]. unfold SecretStore.get, SecretStore.drop_id at 1. cbn [inner].
  destruct (decide (k = i)) as [->|Hne].
  - rewrite lookup_delete_eq. by rewrite bool_decide_eq_true_2 by left.
  - rewrite lookup_delete_ne by done. unfold SecretStore.get in IH. rewrite IH.
    rewrite (bool_decide_ext (k ∈ i :: ids) (k ∈ ids)); [done|]. rewrite elem_of_cons. naive_solver.
Qed.

Section Laws.
Context {D : Type} `{Database D}.
Notation Dial := (Dial (D := D)).

(** ** What the store becomes *)
Definition changed_within (may : string -> Prop) (w w' : Dial) : Prop :=
  forall k, ~ may k -> SecretStore.get k (store w') = SecretStore.get k (store w).

Lemma changed_trans may w1 w2 w3 : changed_within may w1 w2 -> changed_within may w2 w3 -> changed_within may w1 w3.
Proof. intros H12 H23 k Hk. by rewrite H23, H12. Qed.

Lemma changed_mono (may may' : string -> Prop) w w' : (forall k, may k -> may' k) -> changed_within may w w' -> changed_within may' w w'.
Proof. intros Hm Hw k Hk. apply Hw. auto. Qed.

Lemma changed_put (may : string -> Prop) id b (w : Dial) : may id -> changed_within may w (mkDial (db w) (SecretStore.put id b (store w))).
Proof. intros Hm k Hk. apply get_put_ne. by intros ->. Qed.

Definition within (may : string -> Prop) {A} (p : prog Dial A) : Prop := each_call (changed_within may) p.

Lemma within_db may {A} (p : prog D A) : within may (on_db p).
Proof.
  induction p as [a|C f k IH]; [constructor|]. constructor; intros w; destruct (f (db w)) as [b d]; [done|apply IH].
Qed.

Lemma within_put (may : string -> Prop) id b : may id -> within may (put id b).
Proof. intros Hm. apply each_call_call. intros w. by apply changed_put. Qed.

Lemma within_bind may {A B} (p : prog Dial A) (q : A -> prog Dial B) : within may p -> (forall a, within may (q a)) -> within may (pbind p q).
Proof. apply each_call_bind. Qed.

Lemma within_try may {A B} (p : prog Dial (Error + A)) (q : A -> prog Dial (Error + B)) : within may p -> (forall a, within may (q a)) -> within may (try p q).
Proof. intros Hp Hq. apply within_bind; [done|]. intros [e|a]; [constructor|done]. Qed.

Lemma within_run may {A} (p : prog Dial A) w : within may p -> wp p (fun _ w' => changed_within may w w') w.
Proof. intros Hp. apply (each_call_run (changed_within may)); [done|apply changed_trans|done]. Qed.

#[local] Hint Resolve within_db within_put within_bind within_try each_ret : within.
#[local] Hint Extern 1 (within _ (Ret _)) => apply each_ret : within.

Lemma stage_session_within input session :
  session_id input = Some session -> within (slot input) (stage_secrets_into_store session).
Proof.
  intros Hs. apply within_try; [apply within_db|]. intros [[[[at_ pw] key] pass]|]; [|auto with within].
  unfold put_column. repeat (apply within_bind; [destruct (is_empty _); [auto with within|apply within_put; left; eauto]|intros _]).
  auto with within.
Qed.

Lemma stage_key_within input : within (slot input) (stage_private_key (key_id input)).
Proof.
  apply within_try; [apply within_db|]. intros [pem|]; [|auto with within]. destruct (is_empty pem); [auto with within|].
  apply within_bind; [|auto with within]. apply within_put. by right; left.
Qed.

Lemma stage_cert_within input : within (slot input) (stage_certificate (key_id input)).
Proof.
  apply within_try; [apply within_db|]. intros [[|b blob]|]; [auto with within| |auto with within].
  apply within_bind; [|auto with within]. apply within_put. by right; right.
Qed.

(** ** Every typed secret is handed back

    Whatever the database answers, [transients] lists what was put outside the slots of the rows. *)
Definition listed (input : PrepareAuthInput) (w0 : Dial) (transients : list string) (w : Dial) : Prop :=
  changed_within (fun k => k ∈ transients \/ slot input k) w0 w.

Lemma listed_step input w0 l w w' : listed input w0 l w -> changed_within (slot input) w w' -> listed input w0 l w'.
Proof. intros Hl Hw. eapply changed_trans; [exact Hl|]. eapply changed_mono; [|exact Hw]. auto. Qed.

Lemma listed_put input w0 l id b w : listed input w0 l w -> listed input w0 (l ++ [id]) (mkDial (db w) (SecretStore.put id b (store w))).
Proof.
  intros Hl. eapply changed_trans; [|apply changed_put; left; set_solver].
  eapply changed_mono; [|exact Hl]. intros k [?|?]; [left; set_solver|by right].
Qed.

Lemma wp_step_of {A B} (p : prog Dial (Error + A)) (q : A -> prog Dial (Error + B)) Q w :
  wp p (fun r w' => match r with inl e => Q (inl e) w' | inr a => wp (q a) Q w' end) w -> wp (try p q) Q w.
Proof. intros Hp. apply wp_bind. eapply wp_mono; [|exact Hp]. intros [e|a] w' Hr; [by apply wp_ret|done]. Qed.

(** A part that only fills slots. *)
Lemma wp_slots {A} input (p : prog Dial A) Q w0 l w :
  within (slot input) p -> listed input w0 l w -> (forall r w', listed input w0 l w' -> Q r w') -> wp p Q w.
Proof.
  intros Hp Hl HQ. eapply wp_mono; [|by apply within_run]. intros r w' Hw. by apply HQ, (listed_step _ _ _ w).
Qed.

Lemma wp_optional_pin wanted l prefix input Q w0 w :
  listed input w0 l w -> (forall o l' w', listed input w0 l' w' -> Q (o, l') w') -> wp (optional_pin wanted l prefix input) Q w.
Proof.
  intros Hl HQ. unfold optional_pin. destruct (wanted && _); [|by apply wp_ret, HQ].
  unfold stage_pin. apply wp_bind, wp_bind, wp_call, wp_ret, wp_ret. cbn. by apply HQ, listed_put.
Qed.

Lemma wp_optional_phrase id input o l Q w0 w :
  listed input w0 l w -> (forall o' l' w', listed input w0 l' w' -> Q (o', l') w') -> wp (optional_passphrase id input o l) Q w.
Proof.
  intros Hl HQ. unfold optional_passphrase. destruct o; [by apply wp_ret, HQ|]. destruct (is_empty _); [by apply wp_ret, HQ|].
  apply wp_bind, wp_call, wp_ret. by apply HQ, listed_put.
Qed.

Definition accounted (input : PrepareAuthInput) (w0 : Dial) (r : Error + option PreparedAuth) (w : Dial) : Prop :=
  match r with
  | inl _ => True
  | inr None => listed input w0 [] w
  | inr (Some a) => listed input w0 (transient_secret_ids a) w
  end.

Lemma wp_some_ref input w0 (p : prog Dial (Error + PreparedAuth)) w :
  wp p (fun r w' => match r with inl _ => True | inr a => listed input w0 (transient_secret_ids a) w' end) w ->
  wp (some_ref p) (accounted input w0) w.
Proof. intros Hp. apply wp_step_of. eapply wp_mono; [|exact Hp]. intros [e|a] w' Ha; [done|]. by apply wp_ret. Qed.

Lemma managed_listed input o w0 w : listed input w0 [] w -> wp (try_manager_key input [] o) (accounted input w0) w.
Proof.
  intros Hl. unfold try_manager_key. destruct (is_empty (key_id input)); [by apply wp_ret|].
  apply wp_step_of. eapply (wp_slots input); [apply within_db|done|]. intros [e|[r|]] w1 Hl1; [done| |by apply wp_ret].
  assert (forall x, wp (some_ref (plain_ref x [])) (accounted input w0) w1) as Hplain.
  { intros x. apply wp_some_ref, wp_ret. by destruct x. }
  assert (wp (match credential_id r, application_string r with
      | Some credential, Some application => some_ref (sk_ref input r credential application [])
      | _, _ => software_pubkey_auth input [] o end) (accounted input w0) w1) as Hsoft.
  { assert (wp (software_pubkey_auth input [] o) (accounted input w0) w1) as Hs.
    { apply wp_step_of. eapply (wp_slots input); [apply stage_key_within|done|]. intros [e|[|]] w2 Hl2; [done| |by apply wp_ret].
      apply wp_bind. eapply wp_optional_phrase; [done|]. intros o' l' w3 Hl3. apply wp_step_of.
      eapply (wp_slots input); [apply stage_cert_within|done|]. intros [e|c] w4 Hl4; [done|by apply wp_ret]. }
    destruct (credential_id r); [|done]. destruct (application_string r); [|done]. apply wp_some_ref. unfold sk_ref.
    apply wp_bind. eapply wp_optional_pin; [done|]. intros o' l' w2 Hl2. apply wp_step_of.
    eapply (wp_slots input); [apply stage_cert_within|done|]. intros [e|c] w3 Hl3; [done|by apply wp_ret]. }
  destruct (backend r); auto; apply wp_some_ref; [unfold pkcs11_ref|unfold tpm_ref];
    repeat match goal with |- wp (match ?x with _ => _ end) _ _ => destruct x; [by apply wp_ret|] end; apply wp_bind; (eapply wp_optional_pin; [done|]); intros; by apply wp_ret.
Qed.

(** C12. Whatever the database answers, a prepared credential lists among its transient ids every
    id under which it put something but the slots of the session and of the key: dropping them
    leaves nothing that was typed. *)
Theorem typed_secrets_are_transient input (w : Dial) :
  wp (prepare_auth input) (fun r w' =>
    match r with
    | inl _ => True
    | inr a => forall k, ~ slot input k ->
        SecretStore.get k (foldr SecretStore.drop_id (store w') (transient_secret_ids a)) =
        if bool_decide (k ∈ transient_secret_ids a) then None else SecretStore.get k (store w)
    end) w.
Proof.
  assert (wp (prepare_auth input) (fun r w' => match r with inl _ => True | inr a => listed input w (transient_secret_ids a) w' end) w) as Hl.
  { unfold prepare_auth. apply wp_step_of.
    assert (wp (try_saved_session input []) (fun r w' => listed input w [] w' /\ match r with
      | inr (Some a, _) => transient_secret_ids a = [] | _ => True end) w) as Hsaved.
    { unfold try_saved_session. destruct (session_id input) as [s|] eqn:Hs; [|by apply wp_ret]. apply wp_step_of.
      eapply (wp_slots input); [by apply stage_session_within|done|]. intros [e|[st|]] w1 Hl1; [done| |by apply wp_ret].
      apply wp_ret. split; [done|]. by destruct (has_key_data st), (has_password st). }
    eapply wp_mono; [|exact Hsaved]. intros [e|[[a|] o]] w1 [Hl1 Ha]; [done|by apply wp_ret; cbn; rewrite Ha|]. cbn [fst snd].
    apply wp_step_of. eapply wp_mono; [|by apply managed_listed]. intros [e|[a|]] w2 Hl2; [done|by apply wp_ret|].
    apply wp_bind. unfold quick_connect_fallback. apply wp_bind. eapply (wp_slots input); [apply within_db|exact Hl2|].
    intros tid w3 Hl3. destruct (negb _).
    - apply wp_bind, wp_call, wp_bind. eapply wp_optional_phrase; [by apply (listed_put input w [])|]. intros o' l' w4 Hl4. by apply wp_ret, wp_ret.
    - apply wp_bind, wp_call, wp_ret, wp_ret. cbn [transient_secret_ids]. by apply (listed_put input w []). }
  eapply wp_mono; [|exact Hl]. intros [e|a] w' Hw'; [done|]. intros k Hk. rewrite get_drop_all.
  case_bool_decide; [done|]. apply Hw'. tauto.
Qed.

(** ** The refinement, on a working database *)
Definition calm (t : Tables) (w : Dial) : Prop := Tables.working (db w) /\ tables (db w) = t.

Lemma run_on_db {A} (p : prog D A) w : run (on_db p) w = ((run p (db w)).1, mkDial (run p (db w)).2 (store w)).
Proof.
  destruct w as [d st]. unfold on_db. cbn [db store]. revert d. induction p as [a|C f k IH]; intros d; [done|].
  cbn [zoom run db store]. destruct (f d) as [b d']. apply IH.
Qed.

Lemma wp_select {A} t prepare (s : sql (option A)) a Q w :
  calm t w -> s t = Some (a, t) -> (forall w', calm t w' -> store w' = store w -> Q (inr a) w') ->
  wp (on_db (query_row_ok prepare s)) Q w.
Proof.
  intros [Hw <-] Hs HQ. unfold wp. rewrite run_on_db. unfold query_row_ok. rewrite run_bind, run_call.
  destruct (working_executes _ _ _ _ _ Hw Hs) as [Ha Hw']. pose proof (executed _ _ _ _ Ha) as Ht.
  destruct (execute s (db w)) as [r d]. cbn [fst snd run] in *. subst r. apply HQ; [|done]. split; [done|]. cbn. congruence.
Qed.

Lemma wp_get_key t id Q w :
  calm t w -> (forall w', calm t w' -> store w' = store w -> Q (inr (live (ssh_keys t) id)) w') -> wp (on_db (get_key id)) Q w.
Proof.
  intros [Hw <-] HQ. unfold wp. rewrite run_on_db. unfold get_key, query_as. rewrite run_bind, run_call.
  destruct (working_executes _ (select_key id) _ _ _ Hw eq_refl) as [Ha Hw']. pose proof (executed _ _ _ _ Ha) as Ht.
  destruct (execute _ (db w)) as [r d]. cbn [fst snd run] in *. subst r. apply HQ; [|done]. split; [done|]. cbn. unfold select_key in Ht. congruence.
Qed.

Lemma wp_put id b Q (w : Dial) : Q () (mkDial (db w) (SecretStore.put id b (store w))) -> wp (put id b) Q w.
Proof. intros HQ. by apply wp_call. Qed.

Lemma typed_some s : is_empty s = false -> typed s = Some (lit s).
Proof. unfold typed. by intros ->. Qed.

(** [holds k o w]: when the column has a value, it is in the store under [k]. *)
Definition holds (k : string) (o : option bytes) (w : Dial) : Prop := forall b, o = Some b -> SecretStore.get k (store w) = Some b.

Lemma holds_put_ne k o id b (w : Dial) : k <> id -> holds k o w -> holds k o (mkDial (db w) (SecretStore.put id b (store w))).
Proof. intros Hne Hk c Hc. cbn [store]. rewrite get_put_ne by done. by apply Hk. Qed.

Lemma wp_put_column t id column Q w :
  calm t w ->
  (forall w', calm t w' -> holds id (typed column) w' -> (forall k o, k <> id -> holds k o w -> holds k o w') -> Q () w') ->
  wp (put_column id column) Q w.
Proof.
  intros Hc HQ. unfold put_column. destruct (is_empty column) eqn:He.
  - apply wp_ret, HQ; [done| |done]. intros b. unfold typed. by rewrite He.
  - apply wp_put, HQ; [done| |intros k o Hne; by apply holds_put_ne]. intros b. rewrite (typed_some _ He). intros [= <-]. cbn. apply get_put_eq.
Qed.

Lemma wp_stage_session t session Q w :
  calm t w ->
  (session_secrets t session = None -> forall w', calm t w' -> Q (inr None) w') ->
  (forall at_ pw key pass w', session_secrets t session = Some (at_, pw, key, pass) -> calm t w' ->
     holds ("sess.password." ++ session) (typed pw) w' -> holds ("sess.key." ++ session) (typed key) w' ->
     holds ("sess.passphrase." ++ session) (typed pass) w' ->
     Q (inr (Some (mkStaged at_ (negb (is_empty pw)) (negb (is_empty key)) (negb (is_empty pass))))) w') ->
  wp (stage_secrets_into_store session) Q w.
Proof.
  intros Hc Hnone Hsome. apply wp_step_of. eapply wp_select; [done..|]. intros w1 Hc1 _.
  destruct (session_secrets t session) as [[[[at_ pw] key] pass]|]; [|by apply wp_ret, Hnone].
  apply wp_bind. eapply wp_put_column; [done|]. intros w2 Hc2 Hp2 _.
  apply wp_bind. eapply wp_put_column; [done|]. intros w3 Hc3 Hk3 Hkeep3.
  apply wp_bind. eapply wp_put_column; [done|]. intros w4 Hc4 Hph4 Hkeep4.
  apply wp_ret. apply Hsome; [done|done| | |done].
  - apply Hkeep4; [by apply diverge_ne|]. apply Hkeep3; [by apply diverge_ne|done].
  - apply Hkeep4; [by apply diverge_ne|done].
Qed.

Lemma wp_stage_key t key Q w :
  calm t w ->
  (typed (default ""%string (private_key <$> live (ssh_keys t) key)) = None -> forall w', calm t w' -> store w' = store w -> Q (inr false) w') ->
  (forall pem w', typed (default ""%string (private_key <$> live (ssh_keys t) key)) = Some pem -> calm t w' ->
     SecretStore.get (private_key_secret_id key) (store w') = Some pem ->
     (forall k o, k <> private_key_secret_id key -> holds k o w -> holds k o w') -> Q (inr true) w') ->
  wp (stage_private_key key) Q w.
Proof.
  intros Hc Hno Hyes. apply wp_step_of. eapply wp_select; [done..|]. intros w1 Hc1 Hs1.
  destruct (private_key <$> live (ssh_keys t) key) as [pem|]; [|by apply wp_ret, Hno].
  destruct (is_empty pem) eqn:He; [apply wp_ret, Hno; [cbn; unfold typed; by rewrite He|done|done]|].
  apply wp_bind, wp_put, wp_ret. apply (Hyes (lit pem)); [by apply typed_some|done|cbn; apply get_put_eq|].
  intros k o Hne Hk b Hb. cbn. rewrite get_put_ne, Hs1 by done. by apply Hk.
Qed.

Lemma wp_stage_cert t key Q w :
  calm t w ->
  (forall w', calm t w' -> holds (certificate_secret_id key) (cert_of t key) w' ->
     (forall k o, k <> certificate_secret_id key -> holds k o w -> holds k o w') ->
     Q (inr (bool_decide (is_Some (cert_of t key)))) w') ->
  wp (stage_certificate key) Q w.
Proof.
  intros Hc HQ. unfold cert_of in *. apply wp_step_of. eapply wp_select; [done..|]. intros w1 Hc1 Hs1.
  assert (forall k o, holds k o w -> holds k o w1) as Hkeep by (intros k o Hk b Hb; rewrite Hs1; by apply Hk).
  destruct (certificate <$> certificates t !! key) as [[|c blob]|].
  - apply wp_ret. apply (HQ w1); [done|done|auto].
  - apply wp_bind, wp_put, wp_ret. apply HQ; [done| |]; cbn.
    + intros b [= <-]. cbn. apply get_put_eq.
    + intros k o Hne Hk. apply holds_put_ne; auto.
  - apply wp_ret. apply (HQ w1); [done|done|auto].
Qed.

(** An optional id that resolves to an optional secret. *)
Definition resolves (o : option string) (b : option bytes) (w : Dial) : Prop := opened (store w) o = Some b.

Lemma resolves_keep o b (w w' : Dial) : (forall k c, o = Some k -> holds k c w -> holds k c w') -> resolves o b w -> resolves o b w'.
Proof.
  intros Hk. unfold resolves, opened. destruct o as [k|]; [|done]. cbn in Hk. destruct (SecretStore.get k (store w)) as [c|] eqn:Hg; [|done].
  intros [= <-]. assert (holds k (Some c) w) as Hw by (by intros d [= <-]). by rewrite (Hk k (Some c) eq_refl Hw c eq_refl).
Qed.

Lemma wp_pin t (wanted : bool) l prefix input Q w :
  calm t w ->
  (forall o l' w', calm t w' -> resolves o (if wanted then typed (pin input) else None) w' ->
     (o = None \/ o = Some (prefix ++ "." ++ key_id input)%string) -> Q (o, l') w') ->
  wp (optional_pin wanted l prefix input) Q w.
Proof.
  intros Hc HQ. unfold optional_pin. destruct wanted; cbn [andb]; [|by apply wp_ret, HQ; auto].
  destruct (is_empty (pin input)) eqn:He; cbn [negb].
  - apply wp_ret, HQ; auto. unfold resolves, typed. by rewrite He.
  - unfold stage_pin. apply wp_bind, wp_bind, wp_put, wp_ret, wp_ret. apply HQ; cbn [fst]; [done| |by right].
    unfold resolves, opened. cbn [store]. by rewrite get_put_eq, typed_some.
Qed.

Lemma wp_phrase t id input o phrase l Q w :
  calm t w -> resolves o phrase w ->
  (forall o' l' w', calm t w' -> (o' = o \/ o' = Some id) ->
     resolves o' (match o with Some _ => phrase | None => typed (passphrase input) end) w' ->
     (forall k c, k <> id -> holds k c w -> holds k c w') -> Q (o', l') w') ->
  wp (optional_passphrase id input o l) Q w.
Proof.
  intros Hc Ho HQ. unfold optional_passphrase. destruct o as [s|]; [by apply wp_ret, HQ; auto|].
  destruct (is_empty (passphrase input)) eqn:He.
  - apply wp_ret, HQ; auto. unfold resolves, typed. by rewrite He.
  - apply wp_bind, wp_put, wp_ret, HQ; [done|by right| |intros k c; apply holds_put_ne].
    unfold resolves, opened. cbn [store]. by rewrite get_put_eq, typed_some.
Qed.

(** The passphrase of the session: its id, if any, and what it stands for. *)
Definition session_id_ok (o : option string) (phrase : option bytes) : Prop :=
  match o with Some k => (exists s, k = "sess.passphrase." ++ s)%string /\ is_Some phrase | None => phrase = None end.

Lemma phrase_choice o phrase other : session_id_ok o phrase ->
  match o with Some _ => phrase | None => other end = match phrase with Some p => Some p | None => other end.
Proof. destruct o; [intros [_ [p ->]]; done|by intros ->]. Qed.

Lemma session_phrase_ne o phrase b k : session_id_ok o phrase -> o = Some k -> diverge "sess.passphrase." b = true -> forall x, k <> (b ++ x)%string.
Proof. intros Ho -> Hb x. destruct Ho as [[s ->] _]. by apply diverge_ne. Qed.

Lemma get_holds k b (w : Dial) : SecretStore.get k (store w) = Some b <-> holds k (Some b) w.
Proof. split; [intros Hg c [= <-]; done|intros Hh; by apply Hh]. Qed.

Lemma software_refines t input o phrase r w :
  calm t w -> resolves o phrase w -> session_id_ok o phrase -> live (ssh_keys t) (key_id input) = Some r ->
  wp (software_pubkey_auth input [] o) (fun res w' => calm t w' /\
    match typed (private_key r) with
    | None => res = inr None /\ resolves o phrase w'
    | Some key =>
        let phrase := match phrase with Some p => Some p | None => typed (passphrase input) end in
        exists a, res = inr (Some a) /\
          view (store w') (auth a) = Some (match cert_of t (key_id input) with Some cert => ACert key cert phrase | None => AKey key phrase end)
    end) w.
Proof.
  intros Hc Ho Hok Hr. apply wp_step_of. apply (wp_stage_key t); [done|rewrite Hr; change (default ""%string (private_key <$> Some r)) with (private_key r)..].
  { intros -> w1 Hc1 Hs1. apply wp_ret. split; [done|]. split; [done|]. apply (resolves_keep _ _ w); [|done].
    intros k c _ Hk b Hb. rewrite Hs1. by apply Hk. }
  intros pem w1 -> Hc1 Hpem Hkeep1.
  assert (resolves o phrase w1) as Ho1.
  { apply (resolves_keep _ _ w); [|done]. intros k c Hk. apply Hkeep1. by apply (session_phrase_ne o phrase "key.priv." k). }
  apply wp_bind, (wp_phrase t _ _ o phrase); [done|done|]. intros o' l' w2 Hc2 Ho2 Hres Hkeep2.
  rewrite (phrase_choice o phrase _ Hok) in Hres. set (chosen_phrase := match phrase with Some p => Some p | None => typed (passphrase input) end) in *.
  cbv beta. apply wp_step_of. apply (wp_stage_cert t); [done|]. intros w3 Hc3 Hcert Hkeep3. apply wp_ret. split; [done|]. eexists. split; [done|].
  assert (SecretStore.get (private_key_secret_id (key_id input)) (store w3) = Some pem) as Hp3.
  { apply get_holds, Hkeep3; [by apply diverge_ne|]. apply Hkeep2; [by apply diverge_ne|]. by apply get_holds. }
  assert (opened (store w3) o' = Some chosen_phrase) as Ho3.
  { apply (resolves_keep _ _ w2); [|done]. intros k c Hk. apply Hkeep3. destruct Ho2 as [->| ->].
    - by apply (session_phrase_ne o phrase "key.cert." k).
    - injection Hk as <-. by apply diverge_ne. }
  destruct (cert_of t (key_id input)) as [cert|]; cbn [auth view fst].
  - rewrite bool_decide_eq_true_2 by done. cbn. by rewrite Hp3, (Hcert cert eq_refl), Ho3.
  - rewrite bool_decide_eq_false_2 by (by intros []). cbn. by rewrite Hp3, Ho3.
Qed.

Lemma sk_refines t input r c a w :
  calm t w ->
  wp (some_ref (sk_ref input r c a [])) (fun res w' => calm t w' /\ exists p, res = inr (Some p) /\
    view (store w') (auth p) = Some (ASk (public_key r) c a (has_user_verification r) (cert_of t (key_id input))
      (if has_user_verification r then typed (pin input) else None))) w.
Proof.
  intros Hc. apply wp_step_of. unfold sk_ref. apply wp_bind, (wp_pin t); [done|]. intros o l w1 Hc1 Hres Ho.
  cbv beta. apply wp_step_of. apply (wp_stage_cert t); [done|]. intros w2 Hc2 Hcert Hkeep. apply wp_ret, wp_ret. split; [done|]. eexists. split; [done|].
  assert (opened (store w2) o = Some (if has_user_verification r then typed (pin input) else None)) as Ho2.
  { apply (resolves_keep _ _ w1); [|done]. intros k b Hk. apply Hkeep. destruct Ho as [->| ->]; [done|]. injection Hk as <-.
    by apply (diverge_ne "key.pin" "key.cert."). }
  destruct (cert_of t (key_id input)) as [cert|]; cbn [auth view fst].
  - rewrite bool_decide_eq_true_2 by done. cbn. by rewrite (Hcert cert eq_refl), Ho2.
  - rewrite bool_decide_eq_false_2 by (by intros []). cbn. by rewrite Ho2.
Qed.

Definition installs (t : Tables) (o : option string) (phrase : option bytes) (c : option (Error + Credential))
    (r : Error + option PreparedAuth) (w : Dial) : Prop :=
  calm t w /\
  match c with
  | None => r = inr None /\ resolves o phrase w
  | Some (inl e) => r = inl e
  | Some (inr c) => exists a, r = inr (Some a) /\ view (store w) (auth a) = Some c
  end.

Lemma plain_refines t o phrase x c (w : Dial) : calm t w ->
  match x, c with inl e, inl e' => e = e' | inr a, inr c => view (store w) a = Some c | _, _ => False end ->
  wp (some_ref (plain_ref x [])) (installs t o phrase (Some c)) w.
Proof.
  intros Hc Hx. apply wp_step_of, wp_ret. destruct x as [e|a], c as [e'|c]; try done.
  - split; [done|]. by subst.
  - apply wp_ret. split; [done|]. by eexists.
Qed.

Lemma hardware_refines t input o phrase r c w (p : prog Dial (Error + option PreparedAuth)) :
  calm t w -> hardware_credential input r = Some c ->
  p = match backend r with
      | Enclave => some_ref (plain_ref (enclave_ref r) [])
      | Hello => some_ref (plain_ref (hello_ref r) [])
      | Tpm => some_ref (tpm_ref r input [])
      | Keystore => some_ref (plain_ref (keystore_ref r) [])
      | Pkcs11 => some_ref (pkcs11_ref r input [])
      | Software | Fido2 => p
      end ->
  wp p (installs t o phrase (Some c)) w.
Proof.
  intros Hc Hh ->. unfold hardware_credential in Hh. destruct (backend r); try done; injection Hh as <-.
  - apply wp_step_of. unfold pkcs11_ref, required.
    destruct (pkcs11_module_path r); [|by apply wp_ret]. destruct (pkcs11_token_serial r); [|by apply wp_ret].
    destruct (pkcs11_object_id r); [|by apply wp_ret].
    apply wp_bind, (wp_pin t); [done|]. intros o' l' w1 Hc1 Hres _. apply wp_ret, wp_ret. split; [done|]. eexists. split; [done|]. cbn. by rewrite Hres.
  - apply wp_step_of. unfold tpm_ref, required. destruct (tpm_provider r); [|by apply wp_ret].
    apply wp_bind, (wp_pin t); [done|]. intros o' l' w1 Hc1 Hres _. apply wp_ret, wp_ret. split; [done|]. eexists. split; [done|]. cbn. by rewrite Hres.
  - apply plain_refines; [done|]. unfold enclave_ref, required. by destruct (enclave_tag r).
  - apply plain_refines; [done|]. unfold hello_ref, required. by destruct (hello_credential_name r).
  - apply plain_refines; [done|]. unfold keystore_ref, required. by destruct (keystore_alias r).
Qed.

Lemma managed_refines t input o phrase w :
  calm t w -> resolves o phrase w -> session_id_ok o phrase ->
  wp (try_manager_key input [] o)
    (installs t o phrase ((if is_empty (key_id input) then None else live (ssh_keys t) (key_id input)) ≫= stored_credential t input phrase)) w.
Proof.
  intros Hc Ho Hok. unfold try_manager_key. destruct (is_empty (key_id input)); [by apply wp_ret|].
  apply wp_step_of, (wp_get_key t); [done|]. intros w1 Hc1 Hs1.
  assert (resolves o phrase w1) as Ho1 by (unfold resolves; by rewrite Hs1).
  destruct (live (ssh_keys t) (key_id input)) as [r|] eqn:Hr; [|by apply wp_ret]. cbn [mbind option_bind]. unfold stored_credential.
  destruct (hardware_credential input r) as [c|] eqn:Hh.
  { apply (hardware_refines t input o phrase r c); [done|done|]. unfold hardware_credential in Hh. by destruct (backend r). }
  assert (wp (software_pubkey_auth input [] o) (installs t o phrase (match typed (private_key r) with
      | None => None
      | Some key =>
          let phrase := match phrase with Some p => Some p | None => typed (passphrase input) end in
          Some (inr (match cert_of t (key_id input) with Some cert => ACert key cert phrase | None => AKey key phrase end)) end)) w1) as Hsoft.
  { eapply wp_mono; [|by apply (software_refines t input o phrase r)]. intros res w' [Hc' Hres]. split; [done|]. by destruct (typed (private_key r)). }
  assert (wp (match credential_id r, application_string r with
      | Some credential, Some application => some_ref (sk_ref input r credential application [])
      | _, _ => software_pubkey_auth input [] o end) (installs t o phrase (match credential_id r, application_string r with
      | Some c, Some a => Some (inr (ASk (public_key r) c a (has_user_verification r) (cert_of t (key_id input))
            (if has_user_verification r then typed (pin input) else None)))
      | _, _ => match typed (private_key r) with
          | None => None
          | Some key =>
              let phrase := match phrase with Some p => Some p | None => typed (passphrase input) end in
              Some (inr (match cert_of t (key_id input) with Some cert => ACert key cert phrase | None => AKey key phrase end))
          end end)) w1) as Hrest.
  { destruct (credential_id r); [|done]. destruct (application_string r); [|done]. by apply sk_refines. }
  unfold hardware_credential in Hh. by destruct (backend r).
Qed.

Lemma fallback_refines t input o phrase w :
  calm t w -> resolves o phrase w -> session_id_ok o phrase ->
  wp (quick_connect_fallback input [] o) (fun a w' => calm t w' /\ view (store w') (auth a) = Some (inline_credential input phrase)) w.
Proof.
  intros Hc Ho Hok. unfold quick_connect_fallback, inline_credential. apply wp_bind.
  assert (wp (on_db fresh_id) (fun _ w1 => calm t w1 /\ store w1 = store w) w) as Hfresh.
  { unfold wp. rewrite run_on_db. unfold fresh_id. rewrite run_bind, run_call. destruct Hc as [Hw <-].
    destruct (working_asks _ Hw) as [Hw' _]. destruct (fill_bytes_same (db w)) as [Ht _]. by destruct (fill_bytes (db w)). }
  eapply wp_mono; [|exact Hfresh]. clear Hfresh. intros tid w1 [Hc1 Hs1].
  assert (resolves o phrase w1) as Ho1 by (unfold resolves; by rewrite Hs1).
  destruct (is_empty (key_data input)) eqn:Hk; cbn [negb].
  - apply wp_bind, wp_put, wp_ret. split; [done|]. cbn. rewrite get_put_eq. unfold typed. by rewrite Hk.
  - apply wp_bind, wp_put. apply wp_bind, (wp_phrase t _ _ o phrase); [done| |].
    { apply (resolves_keep _ _ w1); [|done]. intros k c Hk'. apply holds_put_ne. by apply (session_phrase_ne o phrase "conn.key." k). }
    intros o' l' w2 Hc2 _ Hres Hkeep. apply wp_ret. split; [done|]. rewrite (phrase_choice o phrase _ Hok) in Hres.
    rewrite (typed_some _ Hk). cbn [auth view fst].
    rewrite (proj2 (get_holds _ (lit (key_data input)) w2)) by (apply Hkeep; [by apply diverge_ne|apply get_holds; cbn; apply get_put_eq]).
    cbn. unfold resolves in Hres. by rewrite Hres.
Qed.

Definition saved_outcome (saved : option (string * string * string * string)) (r : Error + option PreparedAuth * option string) (w : Dial) : Prop :=
  let phrase := saved ≫= fun s => typed s.2 in
  match saved ≫= fun s => typed s.1.2 with
  | Some key => exists a o, r = inr (Some a, o) /\ view (store w) (auth a) = Some (AKey key phrase)
  | None =>
      match saved ≫= fun s => typed s.1.1.2 with
      | Some p => exists a o, r = inr (Some a, o) /\ view (store w) (auth a) = Some (APassword p)
      | None => exists o, r = inr (None, o) /\ resolves o phrase w /\ session_id_ok o phrase
      end
  end.

Lemma saved_refines t input w : calm t w ->
  wp (try_saved_session input []) (fun r w' => calm t w' /\ saved_outcome (session_id input ≫= session_secrets t) r w') w.
Proof.
  intros Hc. unfold try_saved_session. destruct (session_id input) as [s|]; [|by apply wp_ret; split; [done|]; exists None].
  change (Some s ≫= session_secrets t) with (session_secrets t s). apply wp_step_of, (wp_stage_session t); [done| |].
  - intros Hss w1 Hc1. rewrite Hss. apply wp_ret. split; [done|]. by exists None.
  - intros at_ pw key pass w1 Hss Hc1 Hpw Hkey Hpass. rewrite Hss. apply wp_ret. split; [done|]. unfold saved_outcome.
    cbn [mbind option_bind fst snd has_key_data has_password has_passphrase].
    assert (resolves (if negb (is_empty pass) then Some ("sess.passphrase." ++ s)%string else None) (typed pass) w1) as Hres.
    { unfold resolves, typed in *. destruct (is_empty pass); [done|]. cbn. by rewrite (Hpass _ eq_refl). }
    destruct (is_empty key) eqn:Ek; [|rewrite (typed_some key Ek) in *; do 2 eexists; split; [done|]; cbn [auth view]; by rewrite (Hkey _ eq_refl), Hres].
    replace (typed key) with (@None bytes) by (unfold typed; by rewrite Ek).
    destruct (is_empty pw) eqn:Ep; [|rewrite (typed_some pw Ep) in *; do 2 eexists; split; [done|]; cbn [auth view]; by rewrite (Hpw _ eq_refl)].
    replace (typed pw) with (@None bytes) by (unfold typed; by rewrite Ep).
    eexists. split; [done|]. split; [done|]. unfold session_id_ok, typed. destruct (is_empty pass); [done|]. split; [eauto|done].
Qed.

(** C11. On a working database the composer picks exactly the credential the tables and the typed
    input determine, under ids that all resolve in the store, and fails exactly when a hardware key
    lacks what it needs. *)
Theorem prepare_auth_refines t input (w : Dial) :
  calm t w ->
  wp (prepare_auth input) (fun r w' => calm t w' /\
    match chosen t input with
    | inl e => r = inl e
    | inr c => exists a, r = inr a /\ view (store w') (auth a) = Some c
    end) w.
Proof.
  intros Hc. unfold prepare_auth, chosen. apply wp_step_of.
  set (saved := session_id input ≫= session_secrets t). set (phrase := saved ≫= fun s => typed s.2).
  eapply wp_mono; [|by apply saved_refines]. intros r w1 [Hc1 Hr]. fold saved in Hr. unfold saved_outcome in Hr. fold phrase in Hr.
  destruct (saved ≫= fun s => typed s.1.2) as [key|].
  { destruct Hr as (a & o & -> & Hv). apply wp_ret. split; [done|]. by exists a. }
  destruct (saved ≫= fun s => typed s.1.1.2) as [p|].
  { destruct Hr as (a & o & -> & Hv). apply wp_ret. split; [done|]. by exists a. }
  destruct Hr as (o & -> & Hres & Hok). cbn [fst snd]. apply wp_step_of.
  eapply wp_mono; [|by apply (managed_refines t input o phrase)]. intros r w2 [Hc2 Hr2]. destruct (_ ≫= stored_credential t input phrase) as [[e|c]|].
  - subst r. done.
  - destruct Hr2 as (a & -> & Hv). apply wp_ret. split; [done|]. by exists a.
  - destruct Hr2 as [-> Hres2]. apply wp_bind. eapply wp_mono; [|by apply (fallback_refines t input o phrase)].
    intros a w3 [Hc3 Hv]. apply wp_ret. split; [done|]. by exists a.
Qed.

(** An error after the PIN is staged leaves it in the store, under an id nobody is told. *)
Lemma failed_staging_leaves_pin input r c a l (w : Dial) e :
  has_user_verification r = true -> is_empty (pin input) = false ->
  (execute (select_certificate (key_id input)) (db w)).1 = inl (Prepare, e) ->
  wp (sk_ref input r c a l) (fun res w' =>
    res = inl (Db ("ssh_key_certificates stage prepare" ++ ": " ++ e)) /\
    SecretStore.get ("key.pin" ++ "." ++ key_id input)%string (store w') = Some (lit (pin input))) w.
Proof.
  intros Hu Hp He. unfold sk_ref, optional_pin. rewrite Hu, Hp. unfold stage_pin. apply wp_bind, wp_bind, wp_bind, wp_put, wp_ret, wp_ret.
  cbv beta. apply wp_step_of, wp_step_of. unfold wp. rewrite run_on_db. unfold query_row_ok. rewrite run_bind, run_call. cbn [db].
  destruct (execute _ (db w)) as [res d]. cbn in He. subst res. split; [done|]. cbn. apply get_put_eq.
Qed.
End Laws.

(** ** Concrete runs *)
Section Runs.
#[local] Open Scope string_scope.

Definition demo_details : SshDetails :=
  mkSsh "h" 22 "u" "key" "" "" "PEM" None "phrase" None None None None 5.
Definition dial_tables : Tables :=
  over_ssh_details (fun _ => <["s" := demo_details]> ∅)
    (over_sessions (fun _ => <["s" := mkStored (mkMain "l" None "ssh" 0 "" None "" 1 2) None]> ∅) no_tables).
Definition demo_input : PrepareAuthInput := mkInput (Some "s") "" "" "" "" "".
Definition demo_dial (faults : list bool) : Dial := mkDial (mkDemoDb dial_tables None faults 0) SecretStore.new.

Lemma prepare_auth_refines_witness :
  let w := demo_dial [] in
  calm dial_tables w /\
  exists a, (run (prepare_auth demo_input) w).1 = inr a /\
    view (store (run (prepare_auth demo_input) w).2) (auth a) = Some (AKey (lit "PEM") (Some (lit "phrase"))).
Proof.
  intros w. assert (calm dial_tables w) as Hc by (split; [apply Forall_nil_2|reflexivity]). split; [exact Hc|].
  pose proof (prepare_auth_refines dial_tables demo_input w Hc) as Hr. unfold wp in Hr. destruct Hr as [_ Hr].
  assert (chosen dial_tables demo_input = inr (AKey (lit "PEM") (Some (lit "phrase")))) as He by reflexivity.
  rewrite He in Hr. exact Hr.
Defined.

(** A failed query reads as a session without credentials: the dial goes out with an empty password. *)
Lemma failed_query_dials_without_credential :
  match run (prepare_auth demo_input) (demo_dial [true]) with
  | (inr a, w) => view (store w) (auth a) = Some (APassword [])
  | (inl _, _) => False
  end.
Proof. reflexivity. Qed.

End Runs.
