(* ===== verification/Agent.v ===== *)
(** * The SSH agent ([ssh_agent/*.rs])

    The agent endpoint that lends the hardware keys of the application to the SSH clients of
    the machine: the frames of a connection ([loop_runner.rs]), the listing ([identities.rs]),
    the policy gate ([endpoint.rs]), its confirmation dialog ([per_key_confirm.rs]) and the
    choice of the signer ([backends.rs]).  The crates ssh-key, ssh-encoding and ssh-agent-lib
    are parameters, as are the security devices; every call to a device is recorded. *)
From Stdlib Require Import ZArith Lia.
From stdpp Require Import prelude gmap strings list.
From S2P Require Import Prelude Text PromptRegistry Prog Rely Secrets KnownHosts Codec Wire Tables Dao Apply ApplyLaws AuthCompose.

Open Scope Z_scope.
Open Scope prog_scope.
Open Scope dao_scope.

Notation bytes := (list Z).

(** [cfg(target_os)] *)
Inductive TargetOs := Linux | MacOs | Windows.

(** ** The third-party crates *)
Class SshKeyCrate (K C Alg Sig : Type) := {
  key_data_eq_dec : EqDecision K;
  (** [PublicKey::from_openssh(…).key_data()], [KeyData::encode] *)
  key_from_openssh : string -> option K;
  encoded_bytes : K -> option bytes;
  (** [Certificate] *)
  cert_from_openssh : chars -> option C;
  cert_from_bytes : bytes -> option C;
  cert_public_key : C -> K;
  cert_to_bytes : C -> option bytes;
  (** [Algorithm::new], [Signature::new], [Signature::encode_prefixed] *)
  algorithm_new : string -> string + Alg;
  signature_new : Alg -> bytes -> string + Sig;
  encode_prefixed : Sig -> option bytes
}.
#[export] Existing Instance key_data_eq_dec.

(** [ssh_encoding]: the [string] and [uint32] of the wire. *)
Class SshEncoding := {
  decode_bytes : bytes -> option (bytes * bytes);
  decode_u32 : bytes -> option (Z * bytes);
  encode_bytes : bytes -> option bytes;
  encode_u32 : Z -> bytes
}.

(** The requests of [ssh_agent_lib::proto] by the method of [Session] they call, and its answers. *)
Inductive Request (K : Type) :=
| RequestIdentities
| SignRequest (credential : K) (data : bytes) (flags : Z)
| AddIdentity
| AddIdentityConstrained (extension_constraints : list string)
| RemoveIdentity
| RemoveAllIdentities
| AddSmartcardKey
| AddSmartcardKeyConstrained
| RemoveSmartcardKey
| Lock
| Unlock
| Extension (name : string)
| OtherRequest.
Arguments RequestIdentities {K}.
Arguments SignRequest {K} _ _ _.
Arguments AddIdentity {K}.
Arguments AddIdentityConstrained {K} _.
Arguments RemoveIdentity {K}.
Arguments RemoveAllIdentities {K}.
Arguments AddSmartcardKey {K}.
Arguments AddSmartcardKeyConstrained {K}.
Arguments RemoveSmartcardKey {K}.
Arguments Lock {K}.
Arguments Unlock {K}.
Arguments Extension {K} _.
Arguments OtherRequest {K}.

Inductive AgentError := Other (detail : string) | ExtensionFailed.

Inductive Response (K Sig : Type) :=
| IdentitiesAnswer (identities : list (K * string))
| SignResponse (signature : Sig)
| Success
| Failure
| ExtensionFailure.
Arguments IdentitiesAnswer {K Sig} _.
Arguments SignResponse {K Sig} _.
Arguments Success {K Sig}.
Arguments Failure {K Sig}.
Arguments ExtensionFailure {K Sig}.

Class AgentCrate (K Sig : Type) := {
  decode_request : bytes -> option (Request K);
  encode_response : Response K Sig -> option bytes
}.

(** ** The devices *)
Inductive SkAlgorithm := SkEd25519 | SkEcdsaSha2NistP256.

Inductive RawSignature := EcdsaRaw (b : bytes) | Rsa (b : bytes).

(** A call to a signer outside [ssh_agent/]: CTAP2 ([ssh/sk.rs]), the TPM by blob or by CNG key,
    a PKCS#11 token, the Secure Enclave, Windows Hello. *)
Inductive DeviceCall :=
| SignSkBlobOnly (algorithm : SkAlgorithm) (credential : bytes) (application : string) (data : bytes)
| TpmSshSign (key_type : string) (blob : bytes) (auth : option bytes) (data : bytes)
| SignForSshSilent (key_type credential_name algorithm : string) (data : bytes)
| SignWithPkcs11 (module_path : string) (token_serial : option string) (cka_id : bytes) (pin : option bytes)
    (algorithm : string) (data : bytes)
| EnclaveSign (application_tag data : bytes)
| SignForSsh (key_type credential_name algorithm : string) (data : bytes).

Definition device_answer (c : DeviceCall) : Type :=
  match c with
  | TpmSshSign _ _ _ _ | SignForSshSilent _ _ _ _ | SignForSsh _ _ _ _ => RawSignature
  | _ => bytes
  end.

(** ** The confirmation dialog ([per_key_confirm.rs]) *)
Inductive Decision := AuthorizeOnce | AuthorizeAndRemember | DenyRequest.

Record PendingPrompt := mkPrompt { request_id : string; p_key_id : string; key_label_of : string; requester : option string }.

(** The process around one connection: the database behind [app::instance().db()], the secret
    store, the parked prompts; and what is observable: the prompts shown, the verdicts handed
    to [respond_to_request], the calls to devices this connection makes, and its stream.
    [writes] decides what becomes of the next writes: [Some n] breaks one off after [n] bytes. *)
Record Agent (D : Type) := mkAgent {
  db : D;
  opened : bool;
  secrets : SecretStore;
  lot : PromptRegistry Decision;
  shown : list PendingPrompt;
  verdicts : list (string * Decision);
  device_log : list DeviceCall;
  output : bytes;
  writes : list (option nat)
}.
Arguments mkAgent {D}.
Arguments db {D}.
Arguments opened {D}.
Arguments secrets {D}.
Arguments lot {D}.
Arguments shown {D}.
Arguments verdicts {D}.
Arguments device_log {D}.
Arguments output {D}.
Arguments writes {D}.

Section World.
Context {D : Type}.
Implicit Types w : Agent D.
Definition with_db (d : D) w := mkAgent d (opened w) (secrets w) (lot w) (shown w) (verdicts w) (device_log w) (output w) (writes w).
Definition with_lot (l : PromptRegistry Decision) w := mkAgent (db w) (opened w) (secrets w) l (shown w) (verdicts w) (device_log w) (output w) (writes w).
Definition with_shown (p : list PendingPrompt) w := mkAgent (db w) (opened w) (secrets w) (lot w) p (verdicts w) (device_log w) (output w) (writes w).
Definition with_verdicts v w := mkAgent (db w) (opened w) (secrets w) (lot w) (shown w) v (device_log w) (output w) (writes w).
Definition with_device_log l w := mkAgent (db w) (opened w) (secrets w) (lot w) (shown w) (verdicts w) l (output w) (writes w).
Definition with_output o ws w := mkAgent (db w) (opened w) (secrets w) (lot w) (shown w) (verdicts w) (device_log w) o ws.

(** What the interface calls with the user's verdict, and on its cancel button. *)
Definition respond_to_request (request_id : string) (decision : Decision) w : (string + unit) * Agent D :=
  match pending (lot w) !! request_id with
  | None => (inl "no pending request with this id"%string, with_verdicts (verdicts w ++ [(request_id, decision)]) w)
  | Some _ =>
      let '(sent, l) := PromptRegistry.resolve request_id decision (lot w) in
      (if sent then inr () else inl "awaiting half dropped (caller disconnected)"%string,
       with_lot l (with_verdicts (verdicts w ++ [(request_id, decision)]) w))
  end.

Definition cancel_request (request_id : string) w : Agent D := with_lot (PromptRegistry.cancel request_id (lot w)) w.

(** [enqueue] parks a sender whose receiver is dropped at once. *)
Definition enqueue (new_v4 key_id label : string) (requester : option string) w : PendingPrompt * Agent D :=
  let '(c, l) := PromptRegistry.register new_v4 (lot w) in
  (mkPrompt new_v4 key_id label requester, with_lot (PromptRegistry.drop_receiver c l) w).

Definition enqueue_with_receiver (new_v4 key_id label : string) (requester : option string) w : (PendingPrompt * nat) * Agent D :=
  let '(c, l) := PromptRegistry.register new_v4 (lot w) in
  ((mkPrompt new_v4 key_id label requester, c), with_lot l w).

(** The end of [timeout(PROMPT_TIMEOUT, rx)]: the verdict, a dropped sender, or the timeout, which
    drops the receiver. *)
Definition await_decision (c : nat) w : Decision * Agent D :=
  match channels (lot w) !! c with
  | Some (Woken d) => (d, w)
  | Some Waiting => (DenyRequest, with_lot (PromptRegistry.drop_receiver c (lot w)) w)
  | _ => (DenyRequest, w)
  end.

Definition peer_requester : option string := None.

Definition publish_prompt_event (p : PendingPrompt) w : unit * Agent D := ((), with_shown (shown w ++ [p]) w).

End World.

(** ** The listener ([endpoint.rs])

    [HANDLE] holds the path of the running listener; [bound] is what binding a new one answers.
    Connections it has accepted are tasks of their own. *)
Record AgentStatus := mkStatus { running : bool; socket_path : option string; unsupported : bool }.

Definition start_endpoint (bound : Error + string) (slot : option string) : (Error + string) * option string :=
  match slot with
  | Some existing => (inr existing, slot)
  | None => match bound with inl e => (inl e, None) | inr path => (inr path, Some path) end
  end.

Definition stop (slot : option string) : option string := None.

Definition status (slot : option string) : AgentStatus :=
  match slot with Some path => mkStatus true (Some path) false | None => mkStatus false None false end.

(** ** Backends ([backends.rs]) *)
Module Kind.
Inductive BackendKind := Software | Fido2 | Pkcs11 | Enclave | Hello | Tpm | Keystore.

Definition from_row (row : SshKeyRow) : BackendKind :=
  match backend row with
  | Tables.Fido2 => Fido2
  | Tables.Pkcs11 => Pkcs11
  | Tables.Enclave => Enclave
  | Tables.Hello => Hello
  | Tables.Tpm => Tpm
  | Tables.Keystore => Keystore
  | _ => Software
  end.
End Kind.
Import Kind (BackendKind).

#[export] Instance BackendKind_eq_dec : EqDecision BackendKind.
Proof. solve_decision. Defined.

Inductive BackendError :=
| Signer (detail : string)
| SoftwareKeyRefused
| FidoUvNotSupportedViaAgent (key_label : string).

Record SignOutput := mkSigned { s_algorithm : string; s_signature : bytes }.

Definition one_of (s : string) (l : list string) : bool := existsb (String.eqb s) l.

#[local] Open Scope string_scope.

Definition ssh_algorithm_for_tpm (key_type : string) (flags : Z) : string :=
  if one_of key_type ["rsa"; "ssh-rsa"; "rsa-2048"] then
    if negb (Z.eqb (Z.land flags 0x04) 0) then "rsa-sha2-512" else "rsa-sha2-256"
  else if one_of key_type ["ecdsa-p256"; "ecdsa-sha2-nistp256"] then "ecdsa-sha2-nistp256"
  else key_type.

Definition ssh_algorithm_for_hello (key_type : string) (flags : Z) : string :=
  if one_of key_type ["rsa"; "ssh-rsa"; "rsa-2048"] then
    if negb (Z.eqb (Z.land flags 0x02) 0) then "rsa-sha2-256" else "rsa-sha2-512"
  else if one_of key_type ["ecdsa-p256"; "ecdsa-sha2-nistp256"] then "ecdsa-sha2-nistp256"
  else if one_of key_type ["ecdsa-p384"; "ecdsa-sha2-nistp384"] then "ecdsa-sha2-nistp384"
  else key_type.

Definition ssh_algorithm_for_pkcs11 (key_type : string) (flags : Z) : string :=
  if one_of key_type ["rsa"; "ssh-rsa"] then
    if negb (Z.eqb (Z.land flags 0x02) 0) then "rsa-sha2-256" else "rsa-sha2-512"
  else if one_of key_type ["ecdsa-p256"; "ecdsa-sha2-nistp256"] then "ecdsa-sha2-nistp256"
  else if one_of key_type ["ecdsa-p384"; "ecdsa-sha2-nistp384"] then "ecdsa-sha2-nistp384"
  else if one_of key_type ["ecdsa-p521"; "ecdsa-sha2-nistp521"] then "ecdsa-sha2-nistp521"
  else if one_of key_type ["ed25519"; "ssh-ed25519"] then "ssh-ed25519"
  else key_type.

Definition ssh_algorithm_from_key_type (key_type : string) : option SkAlgorithm :=
  if String.eqb key_type "sk-ssh-ed25519@openssh.com" then Some SkEd25519
  else if String.eqb key_type "sk-ecdsa-sha2-nistp256@openssh.com" then Some SkEcdsaSha2NistP256
  else None.

Definition wire_algorithm_label (a : SkAlgorithm) : string :=
  match a with SkEd25519 => "sk-ssh-ed25519@openssh.com" | SkEcdsaSha2NistP256 => "sk-ecdsa-sha2-nistp256@openssh.com" end.

Section Sign.
Context {D : Type} `{Database D}.
Notation W := (Agent D).
(** What the devices answer, given the calls so far. *)
Context (device : list DeviceCall -> forall c, string + device_answer c).
(** Whether a TPM blob can be imported and holds a key of the stored type. *)
Context (blob_matches : bytes -> string -> bool).
Context (target_os : TargetOs).

Definition device_call (c : DeviceCall) : prog W (string + device_answer c) :=
  call (fun w => (device (device_log w) c, with_device_log (device_log w ++ [c]) w)).

Definition refuse {A} (detail : string) : prog W (BackendError + A) := Ret (inl (Signer detail)).

Definition wire_of (r : RawSignature) : BackendError + bytes :=
  match r with
  | EcdsaRaw b => match ecdsa_raw_concat_to_ssh_mpint b with inl _ => inl (Signer "raw concat") | inr b => inr b end
  | Rsa b => inr (rsa_pkcs1_v15_sig_body b)
  end.

(** The raw answer of a device as the body of a signature. *)
Definition signed_raw (algorithm : string) (r : string + RawSignature) : BackendError + SignOutput :=
  match r with
  | inl e => inl (Signer e)
  | inr raw => match wire_of raw with inl e => inl e | inr b => inr (mkSigned algorithm b) end
  end.

Definition cached_pin (id : string) : prog W (option bytes) := call (fun w => (SecretStore.get id (secrets w), w)).

Definition fido2_sign (row : SshKeyRow) (data : bytes) : prog W (BackendError + SignOutput) :=
  if has_user_verification row then Ret (inl (FidoUvNotSupportedViaAgent (key_label row)))
  else
    match credential_id row, application_string row, ssh_algorithm_from_key_type (k_key_type row) with
    | None, _, _ => refuse "row missing credential_id"
    | _, None, _ => refuse "row missing application_string"
    | _, _, None => refuse "agent: key_type not a recognised sk-* shape"
    | Some credential, Some application, Some algorithm =>
        let! r := device_call (SignSkBlobOnly algorithm credential application data) in
        Ret (match r with inl e => inl (Signer e) | inr b => inr (mkSigned (wire_algorithm_label algorithm) b) end)
    end.

Definition tpm_sign_tss_esapi (row : SshKeyRow) (algorithm : string) (data : bytes) : prog W (BackendError + SignOutput) :=
  match tpm_blob row with
  | None => refuse "tss-esapi row missing tpm_blob"
  | Some blob =>
      if negb (blob_matches blob (k_key_type row)) then refuse "import_blob"
      else
        let! auth := if tpm_pin_required row then cached_pin ("tpm.pin." ++ key_key row) else Ret None in
        if tpm_pin_required row && negb (bool_decide (is_Some auth)) then refuse "tpm pin required but not cached"
        else
          let! r := device_call (TpmSshSign (k_key_type row) blob auth data) in Ret (signed_raw algorithm r)
  end.

Definition tpm_sign_cng_silent (row : SshKeyRow) (algorithm : string) (data : bytes) : prog W (BackendError + SignOutput) :=
  match cng_key_name row with
  | None => refuse "cng-pcp row missing cng_key_name"
  | Some name =>
      let! r := device_call (SignForSshSilent (k_key_type row) name algorithm data) in Ret (signed_raw algorithm r)
  end.

Definition tpm_sign (row : SshKeyRow) (data : bytes) (flags : Z) : prog W (BackendError + SignOutput) :=
  match target_os with
  | MacOs => refuse "TPM 2.0 SSH keys unavailable on this platform"
  | _ =>
      match tpm_provider row with
      | None => refuse "row missing tpm_provider"
      | Some provider =>
          let algorithm := ssh_algorithm_for_tpm (k_key_type row) flags in
          match target_os, String.eqb provider "tss-esapi", String.eqb provider "cng-pcp" with
          | Linux, true, _ => tpm_sign_tss_esapi row algorithm data
          | Windows, _, true => tpm_sign_cng_silent row algorithm data
          | _, _, _ => refuse "unknown tpm_provider"
          end
      end
  end.

(** macOS is a 64-bit platform, where the DER reader does not panic. *)
Definition enclave_sign (row : SshKeyRow) (data : bytes) : prog W (BackendError + SignOutput) :=
  match target_os with
  | MacOs =>
      match enclave_tag row with
      | None => refuse "row missing enclave_tag"
      | Some tag =>
          let! r := device_call (EnclaveSign tag data) in
          Ret (match r with
               | inl e => inl (Signer e)
               | inr der =>
                   match ecdsa_der_to_ssh_mpint 64 der with
                   | inl _ => inl (Signer "der")
                   | inr b => inr (mkSigned "ecdsa-sha2-nistp256" b)
                   end
               end)
      end
  | _ => refuse "Apple Secure Enclave unavailable on this platform"
  end.

Definition hello_sign (row : SshKeyRow) (data : bytes) (flags : Z) : prog W (BackendError + SignOutput) :=
  match target_os with
  | Windows =>
      match hello_credential_name row with
      | None => refuse "row missing hello_credential_name"
      | Some name =>
          let algorithm := ssh_algorithm_for_hello (k_key_type row) flags in
          let! r := device_call (SignForSsh (k_key_type row) name algorithm data) in Ret (signed_raw algorithm r)
      end
  | _ => refuse "Windows Hello unavailable on this platform"
  end.

(** Loading the module and finding the slot are part of the device's answer; the cached PIN is read
    in between. *)
Definition pkcs11_sign (row : SshKeyRow) (data : bytes) (flags : Z) : prog W (BackendError + SignOutput) :=
  match pkcs11_module_path row, pkcs11_object_id row with
  | None, _ => refuse "row missing pkcs11_module_path"
  | _, None => refuse "row missing pkcs11_object_id"
  | Some module_path, Some object_id =>
      let! pin := cached_pin ("pkcs11.pin." ++ key_key row) in
      if match pin with Some b => negb (bool_decide (is_Some (Utf8.decode b))) | None => false end
      then refuse "pin: cached entry not utf-8"
      else
        let algorithm := ssh_algorithm_for_pkcs11 (k_key_type row) flags in
        let! r := device_call (SignWithPkcs11 module_path (pkcs11_token_serial row) object_id pin algorithm data) in
        Ret (match r with inl e => inl (Signer e) | inr b => inr (mkSigned algorithm b) end)
  end.

Definition keystore_sign (row : SshKeyRow) (data : bytes) : prog W (BackendError + SignOutput) :=
  refuse "Android Hardware Keystore is reachable only on Android in-app sessions".

Definition dispatch_sign_by_kind (kind : BackendKind) (row : SshKeyRow) (data : bytes) (flags : Z) :
    prog W (BackendError + SignOutput) :=
  match kind with
  | Kind.Software => Ret (inl SoftwareKeyRefused)
  | Kind.Fido2 => fido2_sign row data
  | Kind.Pkcs11 => pkcs11_sign row data flags
  | Kind.Enclave => enclave_sign row data
  | Kind.Hello => hello_sign row data flags
  | Kind.Tpm => tpm_sign row data flags
  | Kind.Keystore => keystore_sign row data
  end.

Definition dispatch_sign (row : SshKeyRow) (data : bytes) (flags : Z) : prog W (BackendError + SignOutput) :=
  dispatch_sign_by_kind (Kind.from_row row) row data flags.
End Sign.

(** ** The endpoint ([endpoint.rs]) *)
Definition DESTINATION_CONSTRAINT_NAMES : list string :=
  ["restrict-destination-v00@openssh.com"; "restrict-destination-v01@openssh.com"].

Definition first_destination_constraint_name (constraints : list string) : option string :=
  head (List.filter (fun name => one_of name DESTINATION_CONSTRAINT_NAMES) constraints).

Definition refused_add : AgentError := Other "ssh-agent: external clients cannot add or remove keys via this endpoint".
Definition refused_destination_constraint : AgentError :=
  Other "ssh-agent in LetsFLUTssh does not enforce destination constraints; use a per-key signer or omit -h".

Definition extension (name : string) : AgentError + unit :=
  if String.eqb name "session-bind@openssh.com" then inr () else inl ExtensionFailed.

Definition map_backend_error (e : BackendError) : AgentError :=
  Other ("ssh-agent: " ++ match e with
                          | Signer d => "agent signer failed: " ++ d
                          | SoftwareKeyRefused => "software keys are never exposed through the agent endpoint"
                          | FidoUvNotSupportedViaAgent l => "fido2 key requires user-verification: " ++ l
                          end).

Section Endpoint.
Context {D : Type} `{Database D} {K C Alg Sig : Type} `{SshKeyCrate K C Alg Sig} `{SshEncoding} `{AgentCrate K Sig}.
Notation W := (Agent D).
Context (device : list DeviceCall -> forall c, string + device_answer c).
Context (blob_matches : bytes -> string -> bool).
Context (target_os : TargetOs).
(** [Uuid::new_v4] *)
Context (new_v4 : W -> string).

Definition is_open : prog W bool := call (fun w => (opened w, w)).

(** [with_conn] holds the connection throughout. *)
Definition with_conn {A} (p : prog D A) : prog W A := call (fun w => let '(a, d) := run p (db w) in (a, with_db d w)).

Definition not_initialised {A} : prog W (Error + A) := Ret (inl (Db "ssh-agent: DB not initialised")).

Definition list_rows : prog W (Error + list SshKeyRow) :=
  let! open := is_open in if open then with_conn SshKeys.list_all else not_initialised.

Fixpoint first_row (target : K) (rows : list SshKeyRow) : option SshKeyRow :=
  match rows with
  | [] => None
  | row :: rows =>
      match key_from_openssh (public_key row) with
      | None => first_row target rows
      | Some k => if decide (k = target) then Some row else first_row target rows
      end
  end.

Definition find_row_by_keydata (target : K) : prog W (Error + option SshKeyRow) :=
  let? rows := list_rows in Ret (inr (first_row target rows)).

Definition with_policy (p : AgentPolicy) (r : SshKeyRow) : SshKeyRow :=
  mkKey (key_key r) (key_label r) (private_key r) (public_key r) (k_key_type r) (is_generated r) (key_created_at_ms r)
    (credential_id r) (application_string r) (has_user_verification r) p (backend r) (pkcs11_uri r) (pkcs11_module_path r)
    (pkcs11_token_serial r) (pkcs11_object_id r) (pkcs11_object_label r) (enclave_tag r) (hello_credential_name r) (tpm_blob r)
    (tpm_handle r) (tpm_provider r) (tpm_pin_required r) (cng_key_name r) (keystore_alias r) (keystore_strongbox r)
    (keystore_user_auth_required r) (keystore_platform r) (imported_as_stub r).

Definition persist_policy (key_id : string) (new_policy : AgentPolicy) : prog W (Error + unit) :=
  let! open := is_open in
  if open then
    with_conn (
      let? found := get_key key_id in
      match found with
      | None => Ret (inl (Db ("ssh-agent: key " ++ key_id ++ " not found")))
      | Some row => SshKeys.upsert (with_policy new_policy row)
      end)
  else not_initialised.

(** The policy of the row, and the user where it asks. *)
Definition policy_gate (row : SshKeyRow) : prog W (AgentError + unit) :=
  match agent_policy row with
  | Deny => Ret (inl (Other "ssh-agent: this key is policy-denied"))
  | Always => Ret (inr ())
  | Ask =>
      let! parked := call (fun w => enqueue_with_receiver (new_v4 w) (key_key row) (key_label row) peer_requester w) in
      let! _ := call (publish_prompt_event parked.1) in
      let! decision := call (await_decision parked.2) in
      match decision with
      | DenyRequest => Ret (inl (Other "ssh-agent: user denied"))
      | AuthorizeAndRemember => let! _ := persist_policy (key_key row) Always in Ret (inr ())
      | AuthorizeOnce => Ret (inr ())
      end
  end.

Definition run_sign (locked : bool) (row : SshKeyRow) (data : bytes) (flags : Z) : prog W (AgentError + Sig) :=
  if locked then Ret (inl (Other "agent is locked"))
  else if decide (Kind.from_row row = Kind.Software)
  then Ret (inl (Other "ssh-agent: software keys are never signed through this endpoint"))
  else
    let! gate := policy_gate row in
    match gate with
    | inl e => Ret (inl e)
    | inr _ =>
        let! out := dispatch_sign device blob_matches target_os row data flags in
        Ret (match out with
             | inl e => inl (map_backend_error e)
             | inr out =>
                 match algorithm_new (s_algorithm out) with
                 | inl e => inl (Other ("ssh-agent: unknown algorithm label " ++ s_algorithm out ++ ": " ++ e))
                 | inr algorithm =>
                     match signature_new algorithm (s_signature out) with
                     | inl e => inl (Other ("ssh-agent: encode signature: " ++ e))
                     | inr sig => inr sig
                     end
                 end
             end)
    end.

Definition request_identities (locked : bool) : prog W (AgentError + list (K * string)) :=
  if locked then Ret (inr [])
  else
    let! rows := list_rows in
    Ret (match rows with
         | inl e => inl (Other ("ssh-agent: list rows: " ++ display e))
         | inr rows => inr (omap (fun row =>
             if decide (Kind.from_row row = Kind.Software) then None
             else if decide (agent_policy row = Deny) then None
             else (fun k => (k, key_label row)) <$> key_from_openssh (public_key row)) rows)
         end).

Definition sign (locked : bool) (credential : K) (data : bytes) (flags : Z) : prog W (AgentError + Sig) :=
  let! found := find_row_by_keydata credential in
  match found with
  | inl e => Ret (inl (Other ("ssh-agent: lookup row: " ++ display e)))
  | inr None => Ret (inl (Other "ssh-agent: unknown key"))
  | inr (Some row) => run_sign locked row data flags
  end.

(** [Session::handle]: the method of the request, and whether the connection is locked after it. *)
Definition handle (locked : bool) (r : Request K) : prog W ((AgentError + Response K Sig) * bool) :=
  match r with
  | RequestIdentities =>
      let! ids := request_identities locked in
      Ret (match ids with inl e => inl e | inr ids => inr (IdentitiesAnswer ids) end, locked)
  | SignRequest credential data flags =>
      let! sig := sign locked credential data flags in
      Ret (match sig with inl e => inl e | inr sig => inr (SignResponse sig) end, locked)
  | AddIdentityConstrained constraints =>
      Ret (inl (match first_destination_constraint_name constraints with
                | Some _ => refused_destination_constraint
                | None => refused_add
                end), locked)
  | AddIdentity | RemoveIdentity | RemoveAllIdentities | AddSmartcardKey | AddSmartcardKeyConstrained
  | RemoveSmartcardKey => Ret (inl refused_add, locked)
  | Lock => Ret (inr Success, true)
  | Unlock => Ret (inr Success, false)
  | Extension name => Ret (match extension name with inl e => inl e | inr _ => inr Success end, locked)
  | OtherRequest => Ret (inl (Other "unsupported"), locked)
  end.

(** ** The listing ([identities.rs]) *)
Definition IDENTITIES_ANSWER_MSG_ID : Z := 12.

Record Advertised := mkAdvertised { key_blob : bytes; comment : string }.

Definition row_is_publishable (row : SshKeyRow) : bool :=
  if decide (Kind.from_row row = Kind.Software) then false
  else if decide (agent_policy row = Deny) then false
  else if bool_decide (Kind.from_row row = Kind.Fido2) && has_user_verification row then false
  else true.

Definition bare_key_blob (row : SshKeyRow) : option bytes := key_from_openssh (public_key row) ≫= encoded_bytes.

Definition cert_blob (rec : CertRecord) : option bytes :=
  text ← Utf8.decode (certificate rec); cert ← cert_from_openssh (trim text); cert_to_bytes cert.

Definition select_certificate_record (key_id : string) : sql (option CertRecord) := fun t => Some (certificates t !! key_id, t).

Definition lookup_cert_from_db (key_id : string) : prog W (Error + option CertRecord) :=
  let! open := is_open in
  if open then
    with_conn (query_as "ssh_key_certificates get prepare" "ssh_key_certificates get query" "ssh_key_certificates get row"
                 (select_certificate_record key_id))
  else not_initialised.

Fixpoint build_advertised (rows : list SshKeyRow) : prog W (Error + list Advertised) :=
  match rows with
  | [] => Ret (inr [])
  | row :: rows =>
      if row_is_publishable row then
        match bare_key_blob row with
        | None => build_advertised rows
        | Some bare =>
            let? rec := lookup_cert_from_db (key_key row) in
            let? rest := build_advertised rows in
            Ret (inr (mkAdvertised bare (key_label row) ::
                      match rec ≫= cert_blob with Some blob => [mkAdvertised blob (key_label row)] | None => [] end ++ rest)%list)
        end
      else build_advertised rows
  end.

Fixpoint encode_all (l : list Advertised) : option bytes :=
  match l with
  | [] => Some []
  | a :: l =>
      blob ← encode_bytes (key_blob a); text ← encode_bytes (lit (comment a)); rest ← encode_all l;
      Some (blob ++ text ++ rest)%list
  end.

Definition encode_identities_answer (advertised : list Advertised) : option bytes :=
  (fun body => (IDENTITIES_ANSWER_MSG_ID :: encode_u32 (wrap_u32 (Z.of_nat (length advertised))) ++ body)%list) <$> encode_all advertised.

(** ** The connection ([loop_runner.rs]) *)
Definition REQUEST_IDENTITIES_MSG_ID : Z := 11.
Definition SIGN_REQUEST_MSG_ID : Z := 13.
Definition SIGN_RESPONSE_MSG_ID : Z := 14.
Definition CERT_ALGORITHM_SUFFIX : string := "-cert-v01@openssh.com".
Definition MAX_FRAME_LEN : Z := 256 * 1024.

Definition failure_payload : bytes := [5].

Definition ends_with (suffix s : bytes) : bool := bool_decide (suffix `suffix_of` s).

(** [u32::from_be_bytes] of the first four bytes. *)
Definition u32_of (b : bytes) : Z := from_be32 (at_ b 0) (at_ b 1) (at_ b 2) (at_ b 3).

Definition is_cert_algorithm (key_blob : bytes) : bool :=
  if (length key_blob <? 4)%nat then false
  else
    let algo_len := u32_of key_blob in
    if (Z.of_nat (length key_blob) <? 4 + algo_len)%Z then false
    else
      let algo_bytes := take (Z.to_nat algo_len) (drop 4 key_blob) in
      match Utf8.decode algo_bytes with
      | Some _ => ends_with (lit CERT_ALGORITHM_SUFFIX) algo_bytes
      | None => false
      end.

Definition encode_sign_response (sig : Sig) : option bytes := (fun b => SIGN_RESPONSE_MSG_ID :: b) <$> encode_prefixed sig.

Definition sign_cert_request (locked : bool) (key_blob data : bytes) (flags : Z) : prog W bytes :=
  match cert_from_bytes key_blob with
  | None => Ret failure_payload
  | Some cert =>
      let! found := find_row_by_keydata (cert_public_key cert) in
      match found with
      | inl _ | inr None => Ret failure_payload
      | inr (Some row) =>
          let! sig := run_sign locked row data flags in
          Ret (match sig with inl _ => failure_payload | inr sig => default failure_payload (encode_sign_response sig) end)
      end
  end.

Definition try_sign_with_cert (locked : bool) (body : bytes) : prog W (option bytes) :=
  match decode_bytes body with
  | None => Ret None
  | Some (key_blob, rest) =>
      if negb (is_cert_algorithm key_blob) then Ret None
      else
        match decode_bytes rest with
        | None => Ret (Some failure_payload)
        | Some (data, rest) =>
            match decode_u32 rest with
            | None => Ret (Some failure_payload)
            | Some (flags, _) => let! reply := sign_cert_request locked key_blob data flags in Ret (Some reply)
            end
        end
  end.

Definition identities_payload (locked : bool) : prog W (option bytes) :=
  if locked then Ret (encode_identities_answer [])
  else
    let! rows := list_rows in
    match rows with
    | inl _ => Ret None
    | inr rows =>
        let! advertised := build_advertised rows in
        Ret (match advertised with inl _ => None | inr l => encode_identities_answer l end)
    end.

Definition typed_payload (locked : bool) (payload : bytes) : prog W (bytes * bool) :=
  match decode_request payload with
  | None => Ret (failure_payload, locked)
  | Some req =>
      let! answer := handle locked req in
      let resp := match answer.1 with inr r => r | inl ExtensionFailed => ExtensionFailure | inl _ => Failure end in
      Ret (default failure_payload (encode_response resp), answer.2)
  end.

(** The reply, and whether the connection is locked after it. *)
Definition dispatch_payload (locked : bool) (payload : bytes) : prog W (bytes * bool) :=
  match payload with
  | [] => Ret (failure_payload, locked)
  | msg_id :: body =>
      if (msg_id =? REQUEST_IDENTITIES_MSG_ID)%Z then
        let! reply := identities_payload locked in Ret (default failure_payload reply, locked)
      else if (msg_id =? SIGN_REQUEST_MSG_ID)%Z then
        let! reply := try_sign_with_cert locked body in
        match reply with
        | Some reply => Ret (reply, locked)
        | None => typed_payload locked payload
        end
      else typed_payload locked payload
  end.

Definition write_frame (payload : bytes) : prog W (string + unit) :=
  if (2 ^ 32 <=? Z.of_nat (length payload))%Z then Ret (inl "agent: reply too large")
  else
    call (fun w =>
      let frame := (to_be32 (Z.of_nat (length payload)) ++ payload)%list in
      match writes w with
      | Some n :: ws => (inl "broken pipe", with_output (output w ++ take n frame)%list ws w)
      | _ => (inr (), with_output (output w ++ frame)%list (tail (writes w)) w)
      end).

(** [input] is what the client sends before it closes its side; [fuel] bounds the frames. *)
Fixpoint handle_socket (fuel : nat) (locked : bool) (input : bytes) : prog W (string + unit) :=
  match fuel with
  | O => Ret (inr ())
  | S fuel =>
      if (length input <? 4)%nat then Ret (inr ())
      else
        let frame_len := u32_of input in
        let input := drop 4 input in
        if (frame_len =? 0)%Z || (MAX_FRAME_LEN <? frame_len)%Z then Ret (inl "agent: invalid frame length")
        else if (Z.of_nat (length input) <? frame_len)%Z then Ret (inl "unexpected end of file")
        else
          let! reply := dispatch_payload locked (take (Z.to_nat frame_len) input) in
          let! written := write_frame reply.1 in
          match written with
          | inl e => Ret (inl e)
          | inr _ => handle_socket fuel reply.2 (drop (Z.to_nat frame_len) input)
          end
  end.

(** A connection: [Endpoint::default()] on a stream. *)
Definition connection (input : bytes) : prog W (string + unit) := handle_socket (length input) false input.

(** ** What a client may obtain *)

(** What other tasks do meanwhile: anything to the database and the secrets; prompts come and
    go and are answered, each answer on record. *)
Definition verdicts_of (os : list (prompt_op (R := Decision))) : list (string * Decision) :=
  omap (fun o => match o with Resolve id d => Some (id, d) | _ => None end) os.

Record others (w w' : W) : Prop := {
  others_calls : device_log w' = device_log w;
  others_shown : shown w `prefix_of` shown w';
  others_lot : exists os, lot w' = prompt_run (lot w) os /\ verdicts w' = (verdicts w ++ verdicts_of os)%list
}.

(** Is a request a signature request of the typed path, or one for a certificate? *)
Definition cert_form (payload : bytes) : option (bytes * bytes) :=
  match payload with
  | msg_id :: body =>
      if (msg_id =? SIGN_REQUEST_MSG_ID)%Z then
        '(key_blob, rest) ← decode_bytes body; if is_cert_algorithm key_blob then Some (key_blob, rest) else None
      else None
  | [] => None
  end.

Definition typed_form (payload : bytes) : bool :=
  match payload with
  | [] => false
  | msg_id :: _ => negb (msg_id =? REQUEST_IDENTITIES_MSG_ID)%Z && bool_decide (cert_form payload = None)
  end.

(** The key, the data and the flags a payload asks a signature for. *)
Definition requested (payload : bytes) : option (K * bytes * Z) :=
  if typed_form payload then
    match decode_request payload with Some (SignRequest k data flags) => Some (k, data, flags) | _ => None end
  else
    '(key_blob, rest) ← cert_form payload; '(data, rest) ← decode_bytes rest; '(flags, _) ← decode_u32 rest;
    cert ← cert_from_bytes key_blob; Some (cert_public_key cert, data, flags).

Definition lock_after (locked : bool) (payload : bytes) : bool :=
  if typed_form payload then
    match decode_request payload with Some Lock => true | Some Unlock => false | _ => locked end
  else locked.

(** The device call is for the key of this row and signs these data. *)
Definition uses (row : SshKeyRow) (data : bytes) (c : DeviceCall) : Prop :=
  match c with
  | SignSkBlobOnly _ cred app d =>
      backend row = Fido2 /\ has_user_verification row = false /\ credential_id row = Some cred /\ application_string row = Some app /\ d = data
  | TpmSshSign kt blob auth d =>
      backend row = Tpm /\ tpm_blob row = Some blob /\ kt = k_key_type row /\ (tpm_pin_required row = true -> is_Some auth) /\ d = data
  | SignForSshSilent kt name _ d => backend row = Tpm /\ cng_key_name row = Some name /\ kt = k_key_type row /\ d = data
  | SignWithPkcs11 m serial id _ _ d =>
      backend row = Pkcs11 /\ pkcs11_module_path row = Some m /\ serial = pkcs11_token_serial row /\ pkcs11_object_id row = Some id /\ d = data
  | EnclaveSign tag d => backend row = Enclave /\ enclave_tag row = Some tag /\ d = data
  | SignForSsh kt name _ d => backend row = Hello /\ hello_credential_name row = Some name /\ kt = k_key_type row /\ d = data
  end.

Definition newly {A} (before after : list A) (x : A) : Prop := exists l, after = (before ++ l)%list /\ x ∈ l.

(** The user was shown this key by this connection and allowed the use. *)
Definition consented (row : SshKeyRow) (found : list W) (w w' : W) : Prop :=
  exists p d s, p_key_id p = key_key row /\ key_label_of p = key_label row /\ newly (shown w) (shown w') p /\
    s ∈ found /\ newly (verdicts s) (verdicts w') (request_id p, d) /\ d <> DenyRequest.

Definition authorized (payload : bytes) (found : list W) (w w' : W) (c : DeviceCall) : Prop :=
  exists row k data flags,
    requested payload = Some (k, data, flags) /\ key_from_openssh (public_key row) = Some k /\
    (exists s id, s ∈ found /\ live_rows (ssh_keys (tables (db s))) !! id = Some row) /\
    uses row data c /\ (agent_policy row = Always \/ agent_policy row = Ask /\ consented row found w w').

(** ** Between the calls *)
Record after (w : W) (cs : list DeviceCall) (w' : W) : Prop := {
  after_calls : device_log w' = (device_log w ++ cs)%list;
  after_shown : shown w `prefix_of` shown w';
  after_verdicts : verdicts w `prefix_of` verdicts w';
  after_lot : prompts_wf (lot w) -> prompts_wf (lot w')
}.

Lemma prompts_wf_run os l : prompts_wf l -> prompts_wf (prompt_run (R := Decision) l os).
Proof. revert l. induction os as [|o os IH]; intros l Hl; [done|]. by apply IH, prompts_wf_step. Qed.

Lemma others_refl w : others w w.
Proof. split; [done|done|]. exists []. split; [done|]. cbn. by rewrite app_nil_r. Qed.

Lemma others_after w w' : others w w' -> after w [] w'.
Proof.
  intros [Hc Hs (os & Hl & Hv)]. split; [by rewrite app_nil_r|done|rewrite Hv; by apply prefix_app_r|].
  rewrite Hl. apply prompts_wf_run.
Qed.

Lemma after_refl w : after w [] w.
Proof. apply others_after, others_refl. Qed.

Lemma after_trans w cs w' cs' w'' : after w cs w' -> after w' cs' w'' -> after w (cs ++ cs')%list w''.
Proof. intros [C1 S1 V1 L1] [C2 S2 V2 L2]. split; [by rewrite C2, C1, app_assoc|by etrans|by etrans|auto]. Qed.

Lemma after_silent w cs w' w'' : after w cs w' -> after w' [] w'' -> after w cs w''.
Proof. intros Ha Hb. rewrite <-(app_nil_r cs). by eapply after_trans. Qed.

Lemma newly_mono {A} (b b' a a' : list A) x : b `prefix_of` b' -> a `prefix_of` a' -> newly b' a x -> newly b a' x.
Proof.
  intros [k ->] [m ->] (l & -> & Hx). exists (k ++ l ++ m)%list. split; [by rewrite !app_assoc|]. rewrite !elem_of_app. auto.
Qed.

Lemma consented_mono row found found' w0 cs w1 w2 cs' w3 : after w0 cs w1 -> after w2 cs' w3 -> found ⊆ found' ->
  consented row found w1 w2 -> consented row found' w0 w3.
Proof.
  intros Ha Hb Hf (p & d & s & Hi & Hl & Hs & Hin & Hv & Hd). exists p, d, s. split_and!; try done; [|by apply Hf|].
  - eapply newly_mono; [apply Ha|apply Hb|done].
  - eapply newly_mono; [done|apply Hb|done].
Qed.

(** ** The receiver of a prompt *)
Definition watch (id : string) (c : nat) (v0 : list (string * Decision)) (l : PromptRegistry Decision) (v : list (string * Decision)) : Prop :=
  (c < length (channels l))%nat /\
  match channels l !! c with
  | Some Waiting => forall id', pending l !! id' = Some c -> id' = id
  | Some (Woken d) => newly v0 v (id, d)
  | _ => True
  end.

Lemma newly_app {A} (b a : list A) x m : newly b a x -> newly b (a ++ m) x.
Proof. apply newly_mono; [done|by apply prefix_app_r]. Qed.

Lemma drop_old_waiting o c (cs : list (receiver Decision)) : cs !! c = Some Waiting ->
  PromptRegistry.drop_old o cs !! c = Some Waiting \/ PromptRegistry.drop_old o cs !! c = Some RecvError.
Proof.
  intros Hc. destruct o as [c'|]; [|by left]. cbn. unfold PromptRegistry.drop_sender.
  destruct (decide (c' = c)) as [->|Hne].
  - rewrite Hc. right. apply list_lookup_insert_eq. by eapply lookup_lt_Some.
  - left. destruct (cs !! c') as [[]|]; try done. by rewrite list_lookup_insert_ne.
Qed.

(** A channel that waits is at most dropped by anything but a verdict on its request. *)
Definition calmer (c : nat) (l l' : PromptRegistry Decision) : Prop :=
  (length (channels l) <= length (channels l'))%nat /\
  (forall id, pending l' !! id = Some c -> pending l !! id = Some c) /\
  (channels l' !! c = Some Waiting \/ channels l' !! c = Some RecvError \/ channels l' !! c = Some ReceiverDropped).

Lemma cancel_calmer id c l : channels l !! c = Some Waiting -> calmer c l (PromptRegistry.cancel id l).
Proof.
  intros Hc. split_and!; cbn.
  - by rewrite length_drop_old.
  - intros id' [_ Hd]%lookup_delete_Some. done.
  - destruct (drop_old_waiting (pending l !! id) c _ Hc); auto.
Qed.

Lemma register_calmer id c l : (c < length (channels l))%nat -> channels l !! c = Some Waiting ->
  calmer c l (PromptRegistry.register id l).2.
Proof.
  intros Hlt Hc. split_and!; cbn.
  - rewrite length_drop_old, length_app. lia.
  - intros id' [[_ He]|[_ Hd]]%lookup_insert_Some; [lia|done].
  - destruct (drop_old_waiting (pending l !! id) c (channels l ++ [Waiting])%list); [by apply lookup_app_l_Some|auto..].
Qed.

Lemma drop_receiver_calmer c' c l : channels l !! c = Some Waiting -> calmer c l (PromptRegistry.drop_receiver c' l).
Proof.
  intros Hc. unfold PromptRegistry.drop_receiver. destruct (channels l !! c') as [[]|] eqn:Hc'; (split_and!; [cbn; by rewrite ?length_insert|done|]); auto.
  cbn. destruct (decide (c' = c)) as [->|]; [|rewrite list_lookup_insert_ne by done; auto].
  rewrite list_lookup_insert_eq by (by eapply lookup_lt_Some). auto.
Qed.

Lemma watch_calmer id c v0 l l' v : channels l !! c = Some Waiting -> calmer c l l' -> watch id c v0 l v -> watch id c v0 l' v.
Proof. intros Hw (Hl & Hp & Hc) [Hlt Hx]. split; [lia|]. rewrite Hw in Hx. destruct Hc as [-> | [-> | ->]]; auto. Qed.

Lemma watch_step id c v0 l v o : v0 `prefix_of` v -> watch id c v0 l v -> watch id c v0 (prompt_step l o).2 (v ++ verdicts_of [o])%list.
Proof.
  intros Hv Hw. pose proof Hw as [Hlt Hr]. destruct (lookup_lt_is_Some_2 _ _ Hlt) as [x Hc]. rewrite Hc in Hr.
  assert (x = Waiting \/ x <> Waiting) as [-> | Hx] by (destruct x; (by left) || by right).
  2:{ pose proof (prompt_step_settled l o c x Hc Hx) as Hk. split; [by eapply lookup_lt_Some|].
      rewrite Hk. destruct x; try done. by apply newly_app. }
  destruct o as [i|i|i d|i|n|c']; cbn [prompt_step snd verdicts_of omap list_omap]; rewrite ?app_nil_r.
  - eapply watch_calmer; [done|by apply register_calmer|done].
  - pose proof (watch_calmer id c v0 l _ v Hc (register_calmer i c l Hlt Hc) Hw) as Hw'. exact Hw'.
  - unfold PromptRegistry.resolve. destruct (pending l !! i) as [ci|] eqn:Hi; [|split; cbn [snd]; [done|by rewrite Hc]].
    destruct (decide (ci = c)) as [->|Hne].
    + rewrite Hc. cbn. split; cbn; [by rewrite length_insert|]. rewrite list_lookup_insert_eq by done. rewrite (Hr i Hi).
      destruct Hv as [k ->]. exists (k ++ [(id, d)])%list. split; [by rewrite app_assoc|]. rewrite elem_of_app. right. by apply list_elem_of_singleton.
    + assert (forall cs, length cs = length (channels l) -> cs !! c = Some Waiting ->
        watch id c v0 (mkPrompts (delete i (pending l)) cs (timers l)) (v ++ [(i, d)])%list) as Hd.
      { intros cs Hlen Hcs. split; cbn; [by rewrite Hlen|]. rewrite Hcs. intros i' [_ Hp]%lookup_delete_Some. by apply Hr. }
      destruct (channels l !! ci) as [[]|]; cbn; (apply Hd; [by rewrite ?length_insert|by rewrite ?list_lookup_insert_ne]).
  - eapply watch_calmer; [done|by apply cancel_calmer|done].
  - unfold PromptRegistry.timer_fires. destruct (timers l !! n) as [i|]; [|done].
    pose proof (watch_calmer id c v0 l _ v Hc (cancel_calmer i c l Hc) Hw) as Hw'. exact Hw'.
  - eapply watch_calmer; [done|by apply drop_receiver_calmer|done].
Qed.

Lemma watch_others id c v0 (w w' : W) : v0 `prefix_of` verdicts w -> others w w' ->
  watch id c v0 (lot w) (verdicts w) -> watch id c v0 (lot w') (verdicts w').
Proof.
  intros Hp [_ _ (os & -> & ->)]. revert Hp. generalize (lot w) (verdicts w). induction os as [|o os IH]; intros l v Hp Hw; [cbn; by rewrite app_nil_r|].
  pose proof (watch_step id c v0 l v o Hp Hw) as Hs. apply IH in Hs; [|by apply prefix_app_r].
  rewrite <-app_assoc in Hs. replace (verdicts_of (o :: os)) with (verdicts_of [o] ++ verdicts_of os)%list by (by destruct o). exact Hs.
Qed.

(** A fresh receiver. *)
Lemma watch_register id (w : W) l c : prompts_wf (lot w) -> PromptRegistry.register id (lot w) = (c, l) -> watch id c (verdicts w) l (verdicts w).
Proof.
  intros Hwf Hr. pose proof (register_waits id (lot w) Hwf) as [Hp Hc]. rewrite Hr in *. cbn [fst snd] in *. split; [by eapply lookup_lt_Some|].
  rewrite Hc. intros id' Hid. injection Hr as <- <-. cbn in Hid. apply lookup_insert_Some in Hid as [[? _]|[_ Hid]]; [done|].
  apply Hwf in Hid. lia.
Qed.

(** ** Programs that make no device call *)
Definition silent {A} (p : prog W A) : Prop := forall w, under others p (fun _ _ w' => after w [] w') w.

Lemma silent_ret {A} (a : A) : silent (Ret a).
Proof. intros w. apply after_refl. Qed.

Lemma silent_bind {A B} (p : prog W A) (q : A -> prog W B) : silent p -> (forall a, silent (q a)) -> silent (pbind p q).
Proof.
  intros Hp Hq w. apply under_bind. eapply under_weaken; [|apply Hp]. intros a found w' Ha. cbv beta.
  eapply under_weaken; [|apply Hq]. intros b found' w'' Hb. exact (after_silent _ _ _ _ Ha Hb).
Qed.

Lemma silent_call {A} (f : W -> A * W) : (forall s, after s [] (f s).2) -> silent (call f).
Proof. intros Hf w s Hs. exact (after_silent _ _ _ _ (others_after _ _ Hs) (Hf s)). Qed.

Lemma after_same w w' : device_log w' = device_log w -> shown w' = shown w -> verdicts w' = verdicts w -> lot w' = lot w -> after w [] w'.
Proof. intros Hd Hs Hv Hl. split; rewrite ?app_nil_r, ?Hs, ?Hv, ?Hl; done. Qed.

Lemma silent_is_open : silent is_open.
Proof. apply silent_call. intros s. apply after_refl. Qed.

Lemma silent_with_conn {A} (p : prog D A) : silent (with_conn p).
Proof. apply silent_call. intros s. destruct (run p (db s)) as [a d]. by apply after_same. Qed.

Lemma silent_persist_policy k p : silent (persist_policy k p).
Proof. apply silent_bind; [apply silent_is_open|]. intros []; [apply silent_with_conn|apply silent_ret]. Qed.

Lemma silent_lookup_cert k : silent (lookup_cert_from_db k).
Proof. apply silent_bind; [apply silent_is_open|]. intros []; [apply silent_with_conn|apply silent_ret]. Qed.

Lemma silent_list_rows : silent list_rows.
Proof. apply silent_bind; [apply silent_is_open|]. intros []; [apply silent_with_conn|apply silent_ret]. Qed.

Lemma silent_try {A B} (p : prog W (Error + A)) (q : A -> prog W (Error + B)) : silent p -> (forall a, silent (q a)) -> silent (try p q).
Proof. intros Hp Hq. apply silent_bind; [done|]. intros [e|a]; [apply silent_ret|apply Hq]. Qed.

Lemma silent_build_advertised rows : silent (build_advertised rows).
Proof.
  induction rows as [|row rows IH]; cbn [build_advertised]; [apply silent_ret|]. destruct (row_is_publishable row); [|done].
  destruct (bare_key_blob row); [|done]. apply silent_try; [apply silent_lookup_cert|]. intros rec. apply silent_try; [done|]. intros rest. apply silent_ret.
Qed.

Lemma silent_identities_payload locked : silent (identities_payload locked).
Proof.
  unfold identities_payload. destruct locked; [apply silent_ret|]. apply silent_bind; [apply silent_list_rows|]. intros [e|rows]; [apply silent_ret|].
  apply silent_bind; [apply silent_build_advertised|]. intros [e|l]; apply silent_ret.
Qed.

Lemma silent_request_identities locked : silent (request_identities locked).
Proof.
  unfold request_identities. destruct locked; [apply silent_ret|]. apply silent_bind; [apply silent_list_rows|]. intros rows. apply silent_ret.
Qed.

(** ** The row a request is about was live when it was looked up *)
Definition live_in (found : list W) (row : SshKeyRow) : Prop :=
  exists s id, s ∈ found /\ live_rows (ssh_keys (tables (db s))) !! id = Some row.

Lemma list_all_live d : match (run SshKeys.list_all d).1 with
  | inr rows => forall row, row ∈ rows -> exists id, live_rows (ssh_keys (tables d)) !! id = Some row
  | inl _ => True
  end.
Proof.
  unfold SshKeys.list_all, query_as. rewrite run_bind, run_call. destruct (execute select_keys d) as [[f|rows] d'] eqn:He; cbn; [done|].
  pose proof (executed _ select_keys d rows) as Hx. rewrite He in Hx. specialize (Hx eq_refl). cbn in Hx. injection Hx as <- _.
  intros row Hr. rewrite row_order_perm in Hr. apply list_elem_of_fmap in Hr as ([id r] & -> & Hm). apply elem_of_map_to_list in Hm. by exists id.
Qed.

Lemma list_rows_live w : under others list_rows (fun r found w' => after w [] w' /\
  match r with inr rows => forall row, row ∈ rows -> live_in found row | inl _ => True end) w.
Proof.
  apply under_step. intros s Hs. cbn [fst snd]. destruct (opened s); [|split; [by apply others_after|done]].
  intros s' Hs'. pose proof (list_all_live (db s')) as Hl. destruct (run SshKeys.list_all (db s')) as [r d]. cbn [fst snd] in *. split.
  - apply (after_silent _ _ s'); [|by apply after_same]. exact (after_silent _ _ _ _ (others_after _ _ Hs) (others_after _ _ Hs')).
  - destruct r as [e|rows]; [done|]. intros row Hr. destruct (Hl row Hr) as [id Hid]. exists s', id. split; [set_solver|done].
Qed.

Lemma first_row_some target rows row : first_row target rows = Some row -> row ∈ rows /\ key_from_openssh (public_key row) = Some target.
Proof.
  induction rows as [|r rows IH]; cbn [first_row]; [done|]. destruct (key_from_openssh (public_key r)) as [k|] eqn:Hk.
  - case_decide; [intros [= <-]; subst; split; [by left|done]|]. intros Hf. apply IH in Hf as [? ?]. split; [by right|done].
  - intros Hf. apply IH in Hf as [? ?]. split; [by right|done].
Qed.

Lemma find_row_live target w : under others (find_row_by_keydata target) (fun r found w' => after w [] w' /\
  match r with inr (Some row) => live_in found row /\ key_from_openssh (public_key row) = Some target | _ => True end) w.
Proof.
  unfold find_row_by_keydata, try. apply under_bind. eapply under_weaken; [|apply list_rows_live]. intros [e|rows] found w' [Ha Hl]; cbn; rewrite ?app_nil_r.
  - done.
  - split; [done|]. destruct (first_row target rows) as [row|] eqn:Hf; [|done]. apply first_row_some in Hf as [Hr Hk]. split; [by apply Hl|done].
Qed.

(** ** The gate *)
Definition allowed (row : SshKeyRow) (found : list W) (w w' : W) : Prop :=
  agent_policy row = Always \/ agent_policy row = Ask /\ consented row found w w'.

Lemma gate_consents row w : prompts_wf (lot w) ->
  under others (policy_gate row) (fun r found w' => after w [] w' /\ (r = inr () -> allowed row found w w')) w.
Proof.
  intros Hwf. unfold policy_gate, allowed. destruct (agent_policy row) eqn:Hp; [split; [apply after_refl|by left]| |split; [apply after_refl|done]].
  apply under_step. intros s Hs. unfold enqueue_with_receiver.
  destruct (PromptRegistry.register (new_v4 s) (lot s)) as [c l] eqn:Hreg. cbn [fst snd].
  pose proof (others_after _ _ Hs) as Has. pose proof (after_lot _ _ _ Has Hwf) as Hwfs.
  pose proof (watch_register _ _ _ _ Hwfs Hreg) as Hwatch.
  assert (after s [] (with_lot l s)) as Hal.
  { split; cbn; rewrite ?app_nil_r; try done. intros _. pose proof (prompts_wf_step (lot s) (Register (new_v4 s)) Hwfs) as Hst. cbn [prompt_step snd] in Hst. by rewrite Hreg in Hst. }
  apply under_step. intros s2 Hs2. cbn [fst snd publish_prompt_event].
  set (p := mkPrompt _ _ _ _). set (s2' := with_shown (shown s2 ++ [p])%list s2).
  assert (after s2 [] s2') as Hap by (split; cbn; rewrite ?app_nil_r; try done; by apply prefix_app_r).
  apply under_step. intros s3 Hs3.
  assert (watch (new_v4 s) c (verdicts s) (lot s3) (verdicts s3)) as Hw3.
  { eapply (watch_others _ _ _ s2' s3); [|done|]; cbn [s2' with_shown verdicts lot].
    - apply (after_verdicts _ _ _ (others_after _ _ Hs2)).
    - eapply (watch_others _ _ _ (with_lot l s) s2); [done|done|]. exact Hwatch. }
  assert (after w [] s2) as Hws2 by (eapply after_silent; [eapply after_silent; [exact Has|exact Hal]|by apply others_after]).
  assert (after s [] s3) as Hs_3.
  { eapply after_silent; [exact Hal|]. eapply after_silent; [by apply others_after|]. eapply after_silent; [exact Hap|by apply others_after]. }
  assert (after w [] s3) as Hws3 by (eapply after_silent; [exact Has|exact Hs_3]).
  assert (newly (shown w) (shown s3) p) as Hshown.
  { eapply (newly_mono _ (shown s2) (shown s2')); [apply Hws2|apply (others_after _ _ Hs3)|]. exists [p]. split; [done|by apply list_elem_of_singleton]. }
  assert (forall d w', channels (lot s3) !! c = Some (Woken d) -> d <> DenyRequest -> after s3 [] w' -> forall found, s ∈ found -> consented row found w w') as Hyes.
  { intros d w' Hc Hd Haw found Hin. exists p, d, s. destruct Hw3 as [_ Hw3]. rewrite Hc in Hw3. split_and!; try done.
    - eapply newly_mono; [done|apply Haw|done].
    - eapply newly_mono; [done|apply Haw|done]. }
  unfold await_decision. destruct (channels (lot s3) !! c) as [[|d| |]|] eqn:Hc; cbn [fst snd].
  - split; [|done]. eapply after_silent; [exact Hws3|]. split; cbn; rewrite ?app_nil_r; try done.
    intros Hl3. apply (prompts_wf_step (lot s3) (DropReceiver c) Hl3).
  - destruct d; cbn [fst snd].
    + split; [done|]. intros _. right. split; [done|]. eapply Hyes; [done|done|apply after_refl|set_solver].
    + apply under_bind. eapply under_weaken; [|apply silent_persist_policy]. intros r found w' Hr. cbn. split; [exact (after_silent _ _ _ _ Hws3 Hr)|].
      intros _. right. split; [done|]. eapply Hyes; [done|done|done|set_solver].
    + done.
  - done.
  - done.
  - done.
Qed.

(** ** The devices *)
Notation dispatched row data flags := (dispatch_sign device blob_matches target_os row data flags).

(** At most one device call, and it uses the row's key for the data. *)
Definition one_use (row : SshKeyRow) (data : bytes) (w w' : W) : Prop :=
  exists cs, after w cs w' /\ (length cs <= 1)%nat /\ Forall (uses row data) cs.

Lemma one_use_none row data w w' : after w [] w' -> one_use row data w w'.
Proof. intros Ha. exists []. split; [done|]. split; [cbn; lia|apply Forall_nil_2]. Qed.

Lemma one_use_call row data {A} c (g : string + device_answer c -> A) w : uses row data c ->
  under others (let! r := device_call device c in Ret (g r)) (fun _ _ w' => one_use row data w w') w.
Proof.
  intros Hu. apply under_step. intros s Hs. cbn. exists [c]. split; [|split; [cbn; lia|by apply Forall_singleton]].
  apply (after_trans _ [] s [c]); [by apply others_after|]. by split.
Qed.

Lemma one_use_before row data {A B} (p : prog W A) (q : A -> prog W B) w : silent p ->
  (forall a w', under others (q a) (fun _ _ w'' => one_use row data w' w'') w') -> under others (pbind p q) (fun _ _ w' => one_use row data w w') w.
Proof.
  intros Hp Hq. apply under_bind. eapply under_weaken; [|apply Hp]. intros a found w' Ha. cbv beta. eapply under_weaken; [|apply Hq].
  intros b found' w'' (cs & Hb & Hr). exists cs. split; [exact (after_trans _ _ _ _ _ Ha Hb)|done].
Qed.

Lemma one_use_ret row data {A} (a : A) w : under others (Ret a) (fun _ _ w' => one_use row data w w') w.
Proof. apply one_use_none, after_refl. Qed.

Lemma silent_cached_pin id : silent (cached_pin id).
Proof. apply silent_call. intros s. apply after_refl. Qed.

Lemma backend_kind row : Kind.from_row row = match backend row with
  | Software => Kind.Software | Fido2 => Kind.Fido2 | Pkcs11 => Kind.Pkcs11 | Enclave => Kind.Enclave
  | Hello => Kind.Hello | Tpm => Kind.Tpm | Keystore => Kind.Keystore end.
Proof. unfold Kind.from_row. by destruct (backend row). Qed.

Lemma dispatch_uses row data flags w : under others (dispatched row data flags) (fun _ _ w' => one_use row data w w') w.
Proof.
  unfold dispatch_sign. rewrite backend_kind. destruct (backend row) eqn:Hb; cbn [dispatch_sign_by_kind]; try apply one_use_ret.
  - unfold fido2_sign. destruct (has_user_verification row) eqn:Hu; [apply one_use_ret|].
    destruct (credential_id row) eqn:Hc; [|apply one_use_ret]. destruct (application_string row) eqn:Ha; [|apply one_use_ret].
    destruct (ssh_algorithm_from_key_type _); [|apply one_use_ret]. by apply one_use_call.
  - unfold pkcs11_sign. destruct (pkcs11_module_path row) eqn:Hm; [|apply one_use_ret]. destruct (pkcs11_object_id row) eqn:Ho; [|apply one_use_ret].
    apply one_use_before; [apply silent_cached_pin|]. intros pin w'. destruct (match pin with Some _ => _ | None => _ end); [apply one_use_ret|].
    by apply one_use_call.
  - unfold tpm_sign. destruct target_os; try apply one_use_ret; (destruct (tpm_provider row) as [provider|]; [|apply one_use_ret]);
      destruct (String.eqb provider "tss-esapi"), (String.eqb provider "cng-pcp"); try apply one_use_ret.
    1,2: unfold tpm_sign_tss_esapi; destruct (tpm_blob row) eqn:Ht; [|apply one_use_ret]; destruct (negb _); [apply one_use_ret|];
      (apply one_use_before; [destruct (tpm_pin_required row); [apply silent_cached_pin|apply silent_ret]|]); intros auth w';
      (destruct (tpm_pin_required row && _) eqn:Hpin; [apply one_use_ret|]); apply one_use_call; split_and!; try done;
      intros Hreq; rewrite Hreq in Hpin; cbn in Hpin; apply negb_false_iff, bool_decide_eq_true in Hpin; done.
    all: unfold tpm_sign_cng_silent; destruct (cng_key_name row) eqn:Hn; [|apply one_use_ret]; by apply one_use_call.
  - unfold enclave_sign. destruct target_os; try apply one_use_ret. destruct (enclave_tag row) eqn:Ht; [|apply one_use_ret]. by apply one_use_call.
  - unfold hello_sign. destruct target_os; try apply one_use_ret. destruct (hello_credential_name row) eqn:Ht; [|apply one_use_ret]. by apply one_use_call.
Qed.

(** A signature takes an unlocked connection, a hardware key and the gate. *)
Lemma run_sign_gated locked row data flags w : prompts_wf (lot w) ->
  under others (run_sign locked row data flags) (fun _ found w' => exists cs, after w cs w' /\ (length cs <= 1)%nat /\
    Forall (fun c => locked = false /\ uses row data c /\ allowed row found w w') cs) w.
Proof.
  intros Hwf. assert (forall w', after w [] w' -> exists cs, after w cs w' /\ (length cs <= 1)%nat /\
    forall found, Forall (fun c => locked = false /\ uses row data c /\ allowed row found w w') cs) as Hnone.
  { intros w' Ha. exists []. split; [done|]. split; [cbn; lia|]. intros found. apply Forall_nil_2. }
  assert (under others (Ret (W := W) (inl (A := AgentError) (B := Sig) (Other ""))) (fun _ found w' => exists cs, after w cs w' /\ (length cs <= 1)%nat /\
    Forall (fun c => locked = false /\ uses row data c /\ allowed row found w w') cs) w) as Hstop.
  { destruct (Hnone w (after_refl w)) as (cs & ? & ? & ?). by exists cs. }
  unfold run_sign. destruct locked; [exact Hstop|]. case_decide; [exact Hstop|].
  apply under_bind. eapply under_weaken; [|by apply gate_consents]. intros gate found w' [Ha Hg]. cbv beta. destruct gate as [e|[]].
  { destruct (Hnone w' Ha) as (cs & ? & ? & ?). by exists cs. }
  specialize (Hg eq_refl). apply under_bind. eapply under_weaken; [|apply dispatch_uses]. intros out found' w'' (cs & Hcs & Hlen & Huse). cbn.
  exists cs. split; [exact (after_trans _ _ _ _ _ Ha Hcs)|]. split; [done|]. apply (Forall_impl _ _ _ Huse). intros c Hc. split_and!; try done.
  destruct Hg as [Hg|[Hg Hy]]; [by left|]. right. split; [done|]. eapply (consented_mono _ found _ w [] w w' cs w''); [apply after_refl|done|set_solver|done].
Qed.

(** ** One request *)
Definition gated (locked : bool) (row : SshKeyRow) (data : bytes) (found : list W) (w w' : W) : Prop :=
  exists cs, after w cs w' /\ (length cs <= 1)%nat /\ Forall (fun c => locked = false /\ uses row data c /\ allowed row found w w') cs.

(** What one request makes the devices do. *)
Definition answered (locked : bool) (payload : bytes) (found : list W) (w w' : W) : Prop :=
  exists cs, after w cs w' /\ (length cs <= 1)%nat /\ Forall (fun c => locked = false /\ authorized payload found w w' c) cs.

Lemma answered_silent locked payload found w w' : after w [] w' -> answered locked payload found w w'.
Proof. intros Ha. exists []. split; [done|]. split; [cbn; lia|apply Forall_nil_2]. Qed.

Lemma silent_answers {A} locked payload (p : prog W A) w : silent p -> under others p (fun _ found w' => answered locked payload found w w') w.
Proof. intros Hp. eapply under_weaken; [|apply Hp]. intros a found w'. apply answered_silent. Qed.

Lemma lookup_answers {A} locked payload k data flags (q : Error + option SshKeyRow -> prog W A) w :
  requested payload = Some (k, data, flags) -> prompts_wf (lot w) ->
  (forall e, silent (q (inl e))) -> silent (q (inr None)) ->
  (forall row w', prompts_wf (lot w') -> under others (q (inr (Some row))) (fun _ found w'' => gated locked row data found w' w'') w') ->
  under others (pbind (find_row_by_keydata k) q) (fun _ found w' => answered locked payload found w w') w.
Proof.
  intros Hreq Hwf He Hn Hs. apply under_bind. eapply under_weaken; [|apply find_row_live]. intros r found w' [Ha Hr]. cbv beta.
  assert (forall (p : prog W A), silent p -> under others p (fun _ found' w'' => answered locked payload (found ++ found') w w'') w') as Hq.
  { intros p Hp. eapply under_weaken; [|apply Hp]. intros a found' w'' Hw. apply answered_silent. exact (after_silent _ _ _ _ Ha Hw). }
  destruct r as [e|[row|]]; [by apply Hq|clear Hq|by apply Hq]. destruct Hr as [(s & id & Hin & Hid) Hk].
  eapply under_weaken; [|apply Hs, (after_lot _ _ _ Ha Hwf)]. intros a found' w'' (cs & Hcs & Hlen & Hall). exists cs.
  split; [exact (after_trans _ _ _ _ _ Ha Hcs)|]. split; [done|]. apply (Forall_impl _ _ _ Hall). intros c (Hl & Hu & Hc). split; [done|].
  exists row, k, data, flags. split_and!; try done; [exists s, id; split; [set_solver|done]|].
  destruct Hc as [Hc|[Hp Hc]]; [by left|]. right. split; [done|].
  eapply (consented_mono _ found' _ w [] w' w'' [] w''); [done|apply after_refl|set_solver|done].
Qed.

Lemma sign_answers payload k data flags locked w : requested payload = Some (k, data, flags) -> prompts_wf (lot w) ->
  under others (sign locked k data flags) (fun _ found w' => answered locked payload found w w') w.
Proof.
  intros Hreq Hwf. unfold sign. eapply lookup_answers; [done|done|intros; apply silent_ret|apply silent_ret|].
  intros row w' Hw'. by apply run_sign_gated.
Qed.

(** A reply computed from an answer. *)
Lemma under_reply {A B} (p : prog W A) (g : A -> B) (Q : list W -> W -> Prop) w :
  under others p (fun _ found w' => Q found w') w -> under others (let! a := p in Ret (g a)) (fun _ found w' => Q found w') w.
Proof. intros Hp. apply under_bind. eapply under_weaken; [|exact Hp]. intros a found w'. cbn. by rewrite app_nil_r. Qed.

Lemma sign_cert_answers payload locked blob cert data flags w :
  cert_from_bytes blob = Some cert -> requested payload = Some (cert_public_key cert, data, flags) -> prompts_wf (lot w) ->
  under others (sign_cert_request locked blob data flags) (fun _ found w' => answered locked payload found w w') w.
Proof.
  intros Hc Hreq Hwf. unfold sign_cert_request. rewrite Hc.
  eapply lookup_answers; [done|done|intros; apply silent_ret|apply silent_ret|].
  intros row w' Hw'. apply (under_reply _ _ (fun found w'' => gated locked row data found w' w'')). by apply run_sign_gated.
Qed.

Definition replied (locked : bool) (payload : bytes) (w : W) (r : bytes * bool) (found : list W) (w' : W) : Prop :=
  r.2 = lock_after locked payload /\ answered locked payload found w w'.

Lemma replies_of {A} locked payload (p : prog W A) (g : A -> bytes * bool) w :
  (forall a, (g a).2 = lock_after locked payload) -> under others p (fun _ found w' => answered locked payload found w w') w ->
  under others (let! a := p in Ret (g a)) (replied locked payload w) w.
Proof. intros Hg Hp. apply under_bind. eapply under_weaken; [|exact Hp]. intros a found w' Ha. cbn. rewrite app_nil_r. split; [apply Hg|done]. Qed.

Lemma typed_replies locked payload w : typed_form payload = true -> prompts_wf (lot w) ->
  under others (typed_payload locked payload) (replied locked payload w) w.
Proof.
  intros Ht Hwf. unfold typed_payload. destruct (decode_request payload) as [req|] eqn:Hd.
  2:{ split; [unfold lock_after; by rewrite Ht, Hd|]. apply answered_silent, after_refl. }
  apply under_bind. assert (under others (handle locked req) (fun a found w' => a.2 = lock_after locked payload /\ answered locked payload found w w') w) as Hh.
  { assert (forall x, (x, locked).2 = lock_after locked payload -> under others (Ret (W := W) (A := (AgentError + Response K Sig) * bool) (x, locked))
      (fun a found w' => a.2 = lock_after locked payload /\ answered locked payload found w w') w) as Hr by (intros x Hx; split; [done|apply answered_silent, after_refl]).
    unfold lock_after in *. rewrite Ht, Hd in *. destruct req; cbn [handle]; try (by apply Hr); try (split; [done|apply answered_silent, after_refl]).
    - apply under_bind. eapply under_weaken; [|apply silent_request_identities]. intros a found w' Ha. cbn. rewrite app_nil_r. split; [done|by apply answered_silent].
    - apply under_bind. eapply under_weaken; [|eapply sign_answers; [unfold requested; by rewrite Ht, Hd|done]].
      intros a found w' Ha. cbn. by rewrite app_nil_r. }
  eapply under_weaken; [|exact Hh]. intros a found w' [Hl Ha]. cbn. rewrite app_nil_r. by split.
Qed.

Lemma dispatch_replies locked payload w : prompts_wf (lot w) ->
  under others (dispatch_payload locked payload) (replied locked payload w) w.
Proof.
  intros Hwf. destruct payload as [|msg_id body]; [split; [done|apply answered_silent, after_refl]|]. cbn [dispatch_payload].
  destruct (msg_id =? REQUEST_IDENTITIES_MSG_ID)%Z eqn:H11.
  { apply replies_of; [intros a; unfold lock_after, typed_form; by rewrite H11|]. apply silent_answers, silent_identities_payload. }
  destruct (msg_id =? SIGN_REQUEST_MSG_ID)%Z eqn:H13.
  2:{ apply typed_replies; [|done]. unfold typed_form, cert_form. by rewrite H11, H13. }
  unfold try_sign_with_cert. destruct (decode_bytes body) as [[blob rest]|] eqn:Hb; cbn [pbind].
  2:{ apply typed_replies; [|done]. unfold typed_form, cert_form. by rewrite H11, H13, Hb. }
  destruct (is_cert_algorithm blob) eqn:Hc; cbn [negb pbind].
  2:{ apply typed_replies; [|done]. unfold typed_form, cert_form. rewrite H11, H13, Hb. cbn. by rewrite Hc. }
  assert (cert_form (msg_id :: body) = Some (blob, rest)) as Hform by (unfold cert_form; rewrite H13, Hb; cbn; by rewrite Hc).
  assert (typed_form (msg_id :: body) = false) as Ht by (unfold typed_form; by rewrite H11, Hform).
  assert (forall l, lock_after l (msg_id :: body) = l) as Hlock by (intros l; unfold lock_after; by rewrite Ht).
  assert (forall A (x : A), replied locked (msg_id :: body) w (failure_payload, locked) [] w) as Hfail
    by (intros; split; [cbn; by rewrite Hlock|apply answered_silent, after_refl]).
  destruct (decode_bytes rest) as [[data rest']|] eqn:Hd; cbn [pbind]; [|by apply (Hfail unit ())].
  destruct (decode_u32 rest') as [[flags rest'']|] eqn:Hf; cbn [pbind]; [|by apply (Hfail unit ())].
  apply under_bind. apply under_bind. destruct (cert_from_bytes blob) as [cert|] eqn:Hcert.
  2:{ unfold sign_cert_request. rewrite Hcert. by apply (Hfail unit ()). }
  eapply under_weaken; [|eapply (sign_cert_answers (msg_id :: body)); [done| |done]].
  - intros reply found w' Ha. cbn. rewrite !app_nil_r. split; [by rewrite Hlock|done].
  - unfold requested. rewrite Ht, Hform. cbn. rewrite Hd. cbn. rewrite Hf. cbn. rewrite Hcert. done.
Qed.

(** ** A connection *)
Lemma authorized_mono payload found found' w0 cs w1 w2 cs' w3 c : after w0 cs w1 -> after w2 cs' w3 -> found ⊆ found' ->
  authorized payload found w1 w2 c -> authorized payload found' w0 w3 c.
Proof.
  intros Ha Hb Hf (row & k & data & flags & Hreq & Hk & (s & id & Hin & Hid) & Hu & Hc). exists row, k, data, flags.
  split_and!; try done; [exists s, id; split; [by apply Hf|done]|]. destruct Hc as [Hc|[Hp Hc]]; [by left|]. right. split; [done|].
  by eapply consented_mono.
Qed.

Lemma silent_write payload : silent (write_frame payload).
Proof.
  unfold write_frame. destruct (_ <=? _)%Z; [apply silent_ret|]. apply silent_call. intros s.
  destruct (writes s) as [|[n|] ws]; by apply after_same.
Qed.

(** The requests of a stream, up to a frame that is empty, too long or cut off. *)
Fixpoint frames (fuel : nat) (input : bytes) : list bytes :=
  match fuel with
  | O => []
  | S fuel =>
      let rest := drop 4 input in
      if (4 <=? length input)%nat && negb (u32_of input =? 0)%Z && (u32_of input <=? MAX_FRAME_LEN)%Z && (u32_of input <=? Z.of_nat (length rest))%Z
      then take (Z.to_nat (u32_of input)) rest :: frames fuel (drop (Z.to_nat (u32_of input)) rest)
      else []
  end.

Definition requests (input : bytes) : list bytes := frames (length input) input.

(** The device calls of a connection, each for a request of its stream on an unlocked connection. *)
Definition served (locked : bool) (reqs : list bytes) (w : W) (found : list W) (w' : W) : Prop :=
  exists cs, after w cs w' /\ (length cs <= length reqs)%nat /\
    Forall (fun c => exists n payload, reqs !! n = Some payload /\ foldl lock_after locked (take n reqs) = false /\
                       authorized payload found w w' c) cs.

Lemma served_none locked reqs w w' found : after w [] w' -> served locked reqs w found w'.
Proof. intros Ha. exists []. split; [done|]. split; [cbn; lia|apply Forall_nil_2]. Qed.

Lemma served_cons locked payload reqs w found1 w1 found2 w2 : answered locked payload found1 w w1 ->
  served (lock_after locked payload) reqs w1 found2 w2 -> served locked (payload :: reqs) w (found1 ++ found2) w2.
Proof.
  intros (cs1 & Ha1 & Hl1 & Hc1) (cs2 & Ha2 & Hl2 & Hc2). exists (cs1 ++ cs2)%list. split; [by eapply after_trans|].
  split; [rewrite length_app; cbn; lia|]. apply Forall_app_2.
  - apply (Forall_impl _ _ _ Hc1). intros c [Hk Hc]. exists 0%nat, payload. split_and!; [done|done|].
    eapply authorized_mono; [apply after_refl|exact Ha2| |exact Hc]. set_solver.
  - apply (Forall_impl _ _ _ Hc2). intros c (n & p & Hp & Hk & Hc). exists (S n), p. split_and!; [done|done|].
    eapply authorized_mono; [exact Ha1|apply after_refl| |exact Hc]. set_solver.
Qed.

Lemma served_later locked reqs w w' w'' found found' : after w [] w' -> served locked reqs w' found' w'' -> served locked reqs w (found ++ found') w''.
Proof.
  intros Ha (cs & Hb & Hl & Hc). exists cs. split; [exact (after_trans _ _ _ _ _ Ha Hb)|]. split; [done|].
  apply (Forall_impl _ _ _ Hc). intros c (n & p & Hp & Hk & Hx). exists n, p. split_and!; [done|done|].
  eapply authorized_mono; [exact Ha|apply after_refl| |exact Hx]. set_solver.
Qed.

Lemma socket_serves fuel locked input w : prompts_wf (lot w) ->
  under others (handle_socket fuel locked input) (fun _ found w' => served locked (frames fuel input) w found w') w.
Proof.
  revert locked input w. induction fuel as [|fuel IH]; intros locked input w Hwf; [apply served_none, after_refl|].
  cbn [handle_socket frames]. destruct (Nat.ltb_spec (length input) 4); [apply served_none, after_refl|].
  destruct (u32_of input =? 0)%Z; [apply served_none, after_refl|].
  destruct (Z.ltb_spec MAX_FRAME_LEN (u32_of input)); [apply served_none, after_refl|].
  destruct (Z.ltb_spec (Z.of_nat (length (drop 4 input))) (u32_of input)); [apply served_none, after_refl|].
  rewrite (proj2 (Nat.leb_le 4 (length input))), !(proj2 (Z.leb_le _ _)) by done. cbn [negb andb orb].
  set (payload := take _ _). set (rest := drop _ (drop 4 input)).
  apply under_bind. eapply under_weaken; [|by apply dispatch_replies]. intros r found w1 [Hlock Ha]. cbv beta.
  assert (prompts_wf (lot w1)) as Hwf1 by (destruct Ha as (cs & Ha & _); by apply (after_lot _ _ _ Ha)).
  apply under_bind. eapply under_weaken; [|apply silent_write]. intros written found2 w2 Hw. cbv beta.
  destruct written as [e|[]].
  - apply (served_cons _ _ _ _ _ w1); [done|]. rewrite app_nil_r. by apply served_none.
  - eapply under_weaken; [|apply IH, (after_lot _ _ _ Hw Hwf1)]. intros u found3 w3 Hs.
    apply (served_cons _ _ _ _ _ w1); [done|]. apply (served_later _ _ _ w2); [done|]. by rewrite <-Hlock.
Qed.

(** C13. Whatever bytes a client sends and whatever other tasks do between the calls, every device
    call of a connection, at most one per request, answers a signature request of the stream that
    finds the connection unlocked; it signs the data of that request with the hardware key of a
    row that was live during the connection and stores the requested public key; and the policy
    of that row is 'always', or it is 'ask' and this connection showed a prompt for the key that
    was answered afterwards with an authorization. *)
Theorem no_signature_without_consent env input w (Hwf : prompts_wf (lot w))
    (Henv : Forall (fun e => forall s, others s (e s)) env) :
  served false (requests input) w (calls env (connection input) w).*1 (run_env env (connection input) w).2.
Proof.
  exact (under_run_env others env (connection input) _ w others_refl Henv (socket_serves (length input) false input w Hwf)).
Qed.

(** ** The listing *)
#[local] Open Scope list_scope.

(** The rows an answer may name. *)
Definition offered (row : SshKeyRow) : Prop :=
  backend row <> Software /\ agent_policy row <> Deny /\ ~ (backend row = Fido2 /\ has_user_verification row = true).

#[local] Instance offered_dec row : base.Decision (offered row).
Proof. unfold offered. apply _. Defined.

(** The bare key of a row and its certificate, with their comment. *)
Definition identities_of (t : Tables) (row : SshKeyRow) : list (bytes * bytes) :=
  match key_from_openssh (public_key row) ≫= encoded_bytes with
  | None => []
  | Some bare =>
      (bare, lit (key_label row)) ::
      match certificates t !! key_key row ≫= cert_blob with Some blob => [(blob, lit (key_label row))] | None => [] end
  end.

Definition listed (t : Tables) : list (bytes * bytes) := filter offered (row_order (live_rows (ssh_keys t))) ≫= identities_of t.

Lemma publishable_offered row : row_is_publishable row = bool_decide (offered row).
Proof.
  assert (row_is_publishable row = true <-> offered row) as Hp.
  { unfold row_is_publishable, offered. rewrite backend_kind. destruct (backend row), (agent_policy row), (has_user_verification row); cbn; naive_solver. }
  case_bool_decide as Ho; destruct (row_is_publishable row); naive_solver.
Qed.

(** A client's reading of the answer. *)
Fixpoint read_identities (n : nat) (b : bytes) : option (list (bytes * bytes)) :=
  match n with
  | O => match b with [] => Some [] | _ => None end
  | S n => '(blob, b) ← decode_bytes b; '(comment, b) ← decode_bytes b; rest ← read_identities n b; Some ((blob, comment) :: rest)
  end.

Definition read_answer (reply : bytes) : option (list (bytes * bytes)) :=
  match reply with
  | msg_id :: b => if (msg_id =? IDENTITIES_ANSWER_MSG_ID)%Z then '(n, b) ← decode_u32 b; read_identities (Z.to_nat n) b else None
  | [] => None
  end.

(** What [ssh_encoding] promises. *)
Class SshEncodingLaws : Prop := {
  bytes_roundtrip b e r : encode_bytes b = Some e -> decode_bytes (e ++ r) = Some (b, r);
  u32_roundtrip n r : 0 <= n < 2 ^ 32 -> decode_u32 (encode_u32 n ++ r) = Some (n, r)
}.

Definition pair_of (a : Advertised) : bytes * bytes := (key_blob a, lit (comment a)).

Lemma read_encoded `{!SshEncodingLaws} l e : encode_all l = Some e -> read_identities (length l) e = Some (pair_of <$> l).
Proof.
  revert e. induction l as [|a l IH]; intros e; cbn [encode_all]; [by intros [= <-]|].
  destruct (encode_bytes (key_blob a)) as [b1|] eqn:E1; [|done]. cbn. destruct (encode_bytes (lit (comment a))) as [b2|] eqn:E2; [|done]. cbn.
  destruct (encode_all l) as [b3|] eqn:E3; [|done]. cbn. intros [= <-]. rewrite (bytes_roundtrip _ _ _ E1). cbn.
  rewrite (bytes_roundtrip _ _ _ E2). cbn. by rewrite (IH b3 eq_refl).
Qed.

Lemma read_answer_encoded `{!SshEncodingLaws} l reply : Z.of_nat (length l) < 2 ^ 32 ->
  encode_identities_answer l = Some reply -> read_answer reply = Some (pair_of <$> l).
Proof.
  intros Hl. unfold encode_identities_answer. destruct (encode_all l) as [e|] eqn:He; [|done]. intros [= <-].
  unfold read_answer. rewrite Z.eqb_refl. unfold wrap_u32. rewrite Z.mod_small by lia. rewrite u32_roundtrip by lia. cbn.
  rewrite Nat2Z.id. by apply read_encoded.
Qed.

(** An undisturbed connection to a database that works, with the tables [t]. *)
Definition settled_db (t : Tables) (w : W) : Prop := opened w = true /\ tables (db w) = t /\ working (db w).

Lemma wp_with_conn {A} label1 label2 label3 (s : sql A) (Q : Error + A -> W -> Prop) t a w : settled_db t w -> s t = Some (a, t) ->
  (forall w', settled_db t w' -> device_log w' = device_log w -> Q (inr a) w') -> wp (with_conn (query_as label1 label2 label3 s)) Q w.
Proof.
  intros (Ho & Ht & Hw) Hs HQ. unfold wp, with_conn. cbn [run call]. unfold query_as. rewrite run_bind, run_call. rewrite <-Ht in Hs.
  destruct (working_executes _ s (db w) a _ Hw Hs) as [He Hw']. pose proof (executed _ s (db w) a He) as Hx. rewrite Hs in Hx.
  destruct (execute s (db w)) as [r d]. cbn [fst snd] in *. subst r. injection Hx as Hx. cbn. apply HQ; [|done].
  split; [done|]. split; [|done]. cbn. by rewrite <-Hx.
Qed.

Lemma wp_is_open (Q : bool -> W -> Prop) t w : settled_db t w -> Q true w -> wp is_open Q w.
Proof. intros (Ho & _) HQ. apply wp_call. cbn. by rewrite Ho. Qed.

Lemma wp_list_rows (Q : Error + list SshKeyRow -> W -> Prop) t w : settled_db t w ->
  (forall w', settled_db t w' -> device_log w' = device_log w -> Q (inr (row_order (live_rows (ssh_keys t)))) w') -> wp list_rows Q w.
Proof. intros Hs HQ. apply wp_bind, (wp_is_open _ t); [done|]. eapply wp_with_conn; [exact Hs|done|exact HQ]. Qed.

Lemma wp_lookup_cert (Q : Error + option CertRecord -> W -> Prop) k t w : settled_db t w ->
  (forall w', settled_db t w' -> device_log w' = device_log w -> Q (inr (certificates t !! k)) w') -> wp (lookup_cert_from_db k) Q w.
Proof. intros Hs HQ. apply wp_bind, (wp_is_open _ t); [done|]. eapply wp_with_conn; [exact Hs|done|exact HQ]. Qed.

Lemma wp_build rows t (Q : Error + list Advertised -> W -> Prop) w : settled_db t w ->
  (forall l w', settled_db t w' -> device_log w' = device_log w -> pair_of <$> l = filter offered rows ≫= identities_of t -> Q (inr l) w') ->
  wp (build_advertised rows) Q w.
Proof.
  revert Q w. induction rows as [|row rows IH]; intros Q w Hs HQ; cbn [build_advertised]; [by apply wp_ret, HQ|].
  rewrite publishable_offered. rewrite filter_cons in HQ. case_bool_decide as Hof; [rewrite decide_True in HQ by done|rewrite decide_False in HQ by done; by apply IH].
  cbn in HQ. unfold identities_of at 1 in HQ. unfold bare_key_blob.
  destruct (key_from_openssh (public_key row) ≫= encoded_bytes) as [bare|]; [|by apply IH].
  unfold try. apply wp_bind, (wp_lookup_cert _ _ t); [done|]. intros w1 Hs1 Hd1. cbv beta. apply wp_bind, IH; [done|].
  intros l w2 Hs2 Hd2 Hl. cbv beta. apply wp_ret, HQ; [done|by rewrite Hd2|]. cbn. rewrite fmap_app, Hl.
  by destruct (certificates t !! key_key row ≫= cert_blob).
Qed.

(** C14. With the database open and working, a request for identities changes neither the tables nor
    the lock and signs nothing, and a client reads from the reply exactly the listed keys: for
    every live row of a hardware key that is not denied and, for FIDO2, needs no user
    verification, the bare key and then its certificate, both under the label of the row; none
    on a locked connection.  Where a blob is too long for the wire the reply is a failure. *)
Theorem listing_is_exact `{!SshEncodingLaws} t locked body w (Hdb : settled_db t w)
    (Hfew : Z.of_nat (length (listed t)) < 2 ^ 32) :
  wp (dispatch_payload locked (REQUEST_IDENTITIES_MSG_ID :: body)) (fun r w' =>
    settled_db t w' /\ device_log w' = device_log w /\ r.2 = locked /\
    (read_answer r.1 = Some (if locked then [] else listed t) \/
     r.1 = failure_payload /\ exists x, x ∈ listed t /\ (encode_bytes x.1 = None \/ encode_bytes x.2 = None))) w.
Proof.
  cbn [dispatch_payload]. rewrite Z.eqb_refl. apply wp_bind. unfold identities_payload.
  destruct locked.
  { apply wp_ret, wp_ret. split_and!; try done. left. exact (read_answer_encoded [] _ ltac:(cbn; lia) eq_refl). }
  apply wp_bind, (wp_list_rows _ t); [done|]. intros w1 Hs1 Hd1. cbv beta. apply wp_bind, (wp_build _ t); [done|].
  intros l w2 Hs2 Hd2 Hl. cbv beta. apply wp_ret, wp_ret. fold (listed t) in Hl. split_and!; [done|by rewrite Hd2|done|]. cbn [fst].
  assert (length l = length (listed t)) as Hlen by (by rewrite <-Hl, length_fmap).
  destruct (encode_identities_answer l) as [reply|] eqn:He; cbn [default from_option id].
  - left. rewrite <-Hl. by apply read_answer_encoded; [rewrite Hlen|].
  - right. split; [done|]. rewrite <-Hl. unfold encode_identities_answer in He. clear -He. induction l as [|a l IH]; [done|]. cbn [encode_all] in He.
    destruct (encode_bytes (key_blob a)) eqn:E1; [|exists (pair_of a); split; [left|by left]].
    destruct (encode_bytes (lit (comment a))) eqn:E2; [|exists (pair_of a); split; [left|by right]]. cbn in He.
    destruct (encode_all l); [done|]. destruct (IH He) as (x & Hx & Hn). exists x. split; [by right|done].
Qed.

End Endpoint.

(** ** Concrete runs *)
Lemma respond_is_other {D} id d (w : Agent D) : others w (respond_to_request id d w).2.
Proof.
  unfold respond_to_request. destruct (pending (lot w) !! id) as [c|] eqn:Hp.
  - destruct (PromptRegistry.resolve id d (lot w)) as [sent l] eqn:Hr. split; [done|done|]. exists [Resolve id d]. split; [|done]. cbn. by rewrite Hr.
  - split; [done|done|]. exists [Resolve id d]. split; [|done]. cbn. unfold PromptRegistry.resolve. by rewrite Hp.
Qed.

Lemma cancel_is_other {D} id (w : Agent D) : others w (cancel_request id w).
Proof. split; [done|done|]. exists [Cancel id]. split; [done|]. cbn. by rewrite app_nil_r. Qed.

Section Runs.
#[local] Open Scope list_scope.

(** Keys and certificates are their texts. *)
#[local] Instance demo_keys : SshKeyCrate string string string (string * bytes) := {|
  key_data_eq_dec := String.eq_dec;
  key_from_openssh s := Some s;
  encoded_bytes k := Some (lit k);
  cert_from_openssh t := Some (to_string t);
  cert_from_bytes b := Some (to_string b);
  cert_public_key c := c;
  cert_to_bytes c := Some (lit c);
  algorithm_new a := inr a;
  signature_new a b := inr (a, b);
  encode_prefixed s := Some (snd s)
|}.

Definition demo_decode (b : bytes) : option (bytes * bytes) :=
  if (length b <? 4)%nat then None
  else
    let n := Z.to_nat (from_be32 (at_ b 0) (at_ b 1) (at_ b 2) (at_ b 3)) in
    if (length (drop 4 b) <? n)%nat then None else Some (take n (drop 4 b), drop n (drop 4 b)).

#[local] Instance demo_encoding : SshEncoding := {|
  decode_bytes := demo_decode;
  decode_u32 b := if (length b <? 4)%nat then None else Some (from_be32 (at_ b 0) (at_ b 1) (at_ b 2) (at_ b 3), drop 4 b);
  encode_bytes b := if (Z.of_nat (length b) <? 2 ^ 32)%Z then Some (to_be32 (Z.of_nat (length b)) ++ b) else None;
  encode_u32 := to_be32
|}.

Lemma be32_read n : 0 <= n < 2 ^ 32 ->
  exists a b c d, to_be32 n = [a; b; c; d] /\ from_be32 a b c d = n.
Proof.
  intros Hn. pose proof (be32_roundtrip n ltac:(lia)) as Hr. unfold to_be32 in *. do 4 eexists. split; [reflexivity|exact Hr].
Qed.

Lemma demo_decode_cons x0 x1 x2 x3 s : demo_decode (x0 :: x1 :: x2 :: x3 :: s) =
  let n := Z.to_nat (from_be32 x0 x1 x2 x3) in if (length s <? n)%nat then None else Some (take n s, drop n s).
Proof. reflexivity. Qed.

#[local] Instance demo_encoding_laws : SshEncodingLaws.
Proof.
  split.
  - intros b e r. cbn [encode_bytes demo_encoding]. destruct (Z.ltb_spec (Z.of_nat (length b)) (2 ^ 32)) as [Hb|]; [|done]. intros He. apply (inj Some) in He as <-.
    destruct (be32_read (Z.of_nat (length b))) as (x0 & x1 & x2 & x3 & -> & Hn); [lia|].
    cbn [decode_bytes demo_encoding app]. rewrite demo_decode_cons, Hn, Nat2Z.id, length_app. cbv zeta.
    destruct (Nat.ltb_spec (length b + length r) (length b)); [lia|]. by rewrite take_app_length, drop_app_length.
  - intros n r Hn. destruct (be32_read n Hn) as (x0 & x1 & x2 & x3 & Ht & Hx). cbn [encode_u32 decode_u32 demo_encoding]. rewrite Ht, <-Hx. reflexivity.
Qed.

(** Signature requests, LOCK and UNLOCK. *)
#[local] Instance demo_agent : AgentCrate string (string * bytes) := {|
  decode_request payload :=
    match payload with
    | 13 :: b => '(k, b) ← decode_bytes b; '(data, b) ← decode_bytes b; '(flags, _) ← decode_u32 b; Some (SignRequest (to_string k) data flags)
    | 22 :: _ => Some Lock
    | 23 :: _ => Some Unlock
    | _ => None
    end;
  encode_response r := match r with SignResponse s => Some (14 :: s.2) | Success => Some [6] | Failure => Some [5] | _ => None end
|}.

Definition demo_device (_ : list DeviceCall) (c : DeviceCall) : string + device_answer c :=
  match c with SignSkBlobOnly _ _ _ _ => inr [7] | _ => inl "absent" end.

Definition demo_row (id : string) (b : KeyBackend) (p : AgentPolicy) : SshKeyRow :=
  mkKey id ("label of " ++ id) "" "P" "sk-ssh-ed25519@openssh.com" false 0 (Some [1]) (Some "ssh:") false p b
    None None None None None None None None None None false None None false false None false.

Definition demo_world (rows : list SshKeyRow) : Agent DemoDb :=
  mkAgent (mkDemoDb (over_ssh_keys (fun _ => list_to_map ((fun r => (key_key r, mkStored r None)) <$> rows)) no_tables) None [] 0)
    true SecretStore.new PromptRegistry.new [] [] [] [] [].

Definition demo_string (s : string) : bytes := to_be32 (Z.of_nat (String.length s)) ++ lit s.
Definition demo_frame (payload : bytes) : bytes := to_be32 (Z.of_nat (length payload)) ++ payload.
Definition sign_frame : bytes := demo_frame (13 :: demo_string "P" ++ demo_string "data" ++ to_be32 0).

Definition demo_connection (input : bytes) : prog (Agent DemoDb) (string + unit) :=
  connection demo_device (fun _ _ => true) Linux (fun _ => "r") input.

Definition user_allows : list (Agent DemoDb -> Agent DemoDb) := [id; id; id; id; fun w => (respond_to_request "r" AuthorizeOnce w).2].

Lemma user_allows_others : Forall (fun e => forall s, others s (e s)) user_allows.
Proof. repeat (apply Forall_cons_2; [intros s; apply others_refl|]). apply Forall_cons_2; [intros s; apply respond_is_other|apply Forall_nil_2]. Qed.

Lemma no_signature_without_consent_witness :
  let w := demo_world [demo_row "k" Fido2 Ask] in
  let w' := (run_env user_allows (demo_connection sign_frame) w).2 in
  device_log w' = [SignSkBlobOnly SkEd25519 [1] "ssh:" (lit "data")] /\ output w' = demo_frame [14; 7] /\
  served false (requests sign_frame) w (calls user_allows (demo_connection sign_frame) w).*1 w'.
Proof.
  intros w w'. split; [vm_compute; reflexivity|]. split; [vm_compute; reflexivity|].
  exact (no_signature_without_consent demo_device (fun _ _ => true) Linux (fun _ => "r") user_allows sign_frame w prompts_wf_new user_allows_others).
Defined.

(** Nobody answers: no signature, and the prompt stays parked. *)
Lemma timed_out_prompt_stays_parked :
  let w' := (run (demo_connection sign_frame) (demo_world [demo_row "k" Fido2 Ask])).2 in
  output w' = demo_frame [5] /\ device_log w' = [] /\ pending (lot w') !! "r" = Some 0%nat.
Proof. vm_compute. done. Qed.

(** A software key with the same public key is found first: the listed hardware key cannot sign. *)
Lemma twin_row_hides_signer :
  let rows := [demo_row "g" Software Ask; demo_row "k" Fido2 Always] in
  let run1 := fun input => output (run (demo_connection input) (demo_world rows)).2 in
  read_answer (drop 4 (run1 (demo_frame [11]))) = Some [(lit "P", lit "label of k")] /\ run1 sign_frame = demo_frame [5].
Proof. vm_compute. done. Qed.

(** A locked connection lists nothing and signs nothing. *)
Lemma locked_connection_refuses :
  output (run (demo_connection (demo_frame [22] ++ sign_frame ++ demo_frame [11])) (demo_world [demo_row "k" Fido2 Always])).2
  = demo_frame [6] ++ demo_frame [5] ++ demo_frame (12 :: to_be32 0).
Proof. vm_compute. done. Qed.

Lemma listing_is_exact_witness :
  let w := demo_world [demo_row "k" Fido2 Ask] in
  exists r w', run (dispatch_payload demo_device (fun _ _ => true) Linux (fun _ => "r") false [11]) w = (r, w') /\
    read_answer r.1 = Some [(lit "P", lit "label of k")].
Proof.
  intros w. eexists _, _. split; [vm_compute; reflexivity|].
  assert (settled_db (tables (db w)) w) as Hs by (split; [reflexivity|split; [reflexivity|apply Forall_nil_2]]).
  assert (listed (tables (db w)) = [(lit "P", lit "label of k")]) as Hlisted by (vm_compute; reflexivity).
  assert (Z.of_nat (length (listed (tables (db w)))) < 2 ^ 32) as Hfew by (rewrite Hlisted; reflexivity).
  pose proof (listing_is_exact demo_device (fun _ _ => true) Linux (fun _ => "r") (tables (db w)) false [] w Hs Hfew) as Hl.
  rewrite Hlisted in Hl. destruct Hl as (_ & _ & _ & [Hr|[_ (x & Hx & Hn)]]); [exact Hr|exfalso]. apply list_elem_of_singleton in Hx as ->. vm_compute in Hn. destruct Hn; discriminate.
Defined.

End Runs.
