(* ===== verification/SessionTree.v ===== *)
(** * The session tree ([session_tree.rs])

    A flat list of sessions, each with the path of its folder, becomes the forest the sidebar
    shows.  The laws: every session is a leaf exactly under its folder's path and nothing else
    is; at every level a folder name occurs once, folders come first and both kinds are in
    order of their lower-cased names, and every folder counts the sessions below it. *)
From Stdlib Require Import ZArith Lia Sorting.Sorted.
From stdpp Require Import prelude gmap strings list.
From S2P Require Import Prelude Text Prog KnownHosts Tables Dao.

Open Scope Z_scope.

Record TreeSession := mkSession { id : string; label : string; folder : string; display_name : string }.

Inductive TreeNode := mkNode (name full_path : string) (session_id : option string) (session_count : Z) (children : list TreeNode).

Definition name (n : TreeNode) : string := let '(mkNode x _ _ _ _) := n in x.
Definition full_path (n : TreeNode) : string := let '(mkNode _ x _ _ _) := n in x.
Definition session_id (n : TreeNode) : option string := let '(mkNode _ _ x _ _) := n in x.
Definition session_count (n : TreeNode) : Z := let '(mkNode _ _ _ x _) := n in x.
Definition children (n : TreeNode) : list TreeNode := let '(mkNode _ _ _ _ x) := n in x.

Definition is_folder (n : TreeNode) : bool := match session_id n with None => true | Some _ => false end.
Definition is_empty (s : string) : bool := match s with EmptyString => true | _ => false end.

(** The first node a folder [part] of this level, with its children replaced, or a new one at the end. *)
Fixpoint in_folder (part path : string) (f : list TreeNode -> list TreeNode) (nodes : list TreeNode) : list TreeNode :=
  match nodes with
  | [] => [mkNode part path None 0 (f [])]
  | n :: nodes =>
      if is_folder n && String.eqb (name n) part
      then mkNode (name n) (full_path n) None (session_count n) (f (children n)) :: nodes
      else n :: in_folder part path f nodes
  end.

(** [ensure_folder_path] and what the caller appends to the list it returns. *)
Fixpoint ensure_folder_path (parts : list string) (current_path : string) (leaves : list TreeNode) (nodes : list TreeNode) : list TreeNode :=
  match parts with
  | [] => nodes ++ leaves
  | part :: parts =>
      let current_path := if is_empty current_path then part else (current_path ++ "/" ++ part)%string in
      in_folder part current_path (ensure_folder_path parts current_path leaves) nodes
  end.

Definition insert_session (root : list TreeNode) (s : TreeSession) : list TreeNode :=
  let name := if is_empty (label s) then display_name s else label s in
  if is_empty (folder s) then root ++ [mkNode name (label s) (Some (id s)) 0 []]
  else ensure_folder_path (split_slash (folder s)) ""
         [mkNode name (folder s ++ "/" ++ label s)%string (Some (id s)) 0 []] root.

(** The sum of a release build: it wraps at [u32]. *)
Fixpoint count_sessions (n : TreeNode) : Z :=
  match n with
  | mkNode _ _ (Some _) _ _ => 1
  | mkNode _ _ None _ children => foldl (fun sum c => wrap_u32 (sum + c)) 0 (count_sessions <$> children)
  end.

(** [sort_by]: a stable sort. *)
Fixpoint sorted_insert {A} (cmp : A -> A -> comparison) (x : A) (l : list A) : list A :=
  match l with
  | [] => [x]
  | y :: l' => match cmp x y with Gt => y :: sorted_insert cmp x l' | _ => x :: l end
  end.

Definition sort_by {A} (cmp : A -> A -> comparison) (l : list A) : list A := foldr (sorted_insert cmp) [] l.

Section Tree.
(** [str::to_lowercase], a table of Unicode. *)
Context (to_lowercase : string -> string).

Definition before (a b : TreeNode) : comparison :=
  match is_folder a, is_folder b with
  | true, false => Lt
  | false, true => Gt
  | _, _ => String.compare (to_lowercase (name a)) (to_lowercase (name b))
  end.

(** [sort_tree]: sorting looks at names and kinds only, so a level may be sorted after the levels
    below it. *)
Fixpoint sort_node (n : TreeNode) : TreeNode :=
  match n with
  | mkNode name path None _ children =>
      let children := sort_by before (sort_node <$> children) in
      mkNode name path None (count_sessions (mkNode name path None 0 children)) children
  | leaf => leaf
  end.

Definition sort_tree (nodes : list TreeNode) : list TreeNode := sort_by before (sort_node <$> nodes).

Definition build (sessions : list TreeSession) (empty_folders : list string) : list TreeNode :=
  sort_tree (foldl insert_session (foldl (fun root path => ensure_folder_path (split_slash path) "" [] root) [] empty_folders) sessions).

(** ** What a forest shows *)
Fixpoint leaves_of (path : list string) (n : TreeNode) : list (list string * string) :=
  match n with
  | mkNode _ _ (Some id) _ _ => [(path, id)]
  | mkNode name _ None _ children => children ≫= leaves_of (path ++ [name])
  end.

Definition shown (path : list string) (nodes : list TreeNode) : list (list string * string) := nodes ≫= leaves_of path.

(** Where a session belongs. *)
Definition place (s : TreeSession) : list string * string :=
  (if is_empty (folder s) then [] else split_slash (folder s), id s).

Definition folder_names (nodes : list TreeNode) : list string := name <$> List.filter is_folder nodes.

Definition not_after (a b : TreeNode) : Prop := before a b <> Gt.

(** The paths of the folders. *)
Fixpoint folders_of (path : list string) (n : TreeNode) : list (list string) :=
  match n with
  | mkNode _ _ (Some _) _ _ => []
  | mkNode name _ None _ children => (path ++ [name]) :: (children ≫= folders_of (path ++ [name]))
  end.

Definition shown_folders (path : list string) (nodes : list TreeNode) : list (list string) := nodes ≫= folders_of path.

(** [below parts p]: [p] is a folder on the way to [parts]. *)
Definition on_the_way (parts p : list string) : Prop := p <> [] /\ p `prefix_of` parts.

(** Every level below a node. *)
Inductive arranged : TreeNode -> Prop :=
| arranged_leaf n p i c ch : arranged (mkNode n p (Some i) c ch)
| arranged_folder n p ch :
    Forall arranged ch -> NoDup (folder_names ch) -> Sorted not_after ch ->
    arranged (mkNode n p None (wrap_u32 (Z.of_nat (length (ch ≫= leaves_of [])))) ch).

Inductive distinct : TreeNode -> Prop :=
| distinct_node n p i c ch : Forall distinct ch -> NoDup (folder_names ch) -> distinct (mkNode n p i c ch).

(** Induction over nodes and their children. *)
Lemma tree_ind (P : TreeNode -> Prop) :
  (forall n p i c ch, Forall P ch -> P (mkNode n p i c ch)) -> forall t, P t.
Proof.
  intros HP. refine (fix go t := match t with mkNode n p i c ch => HP n p i c ch _ end).
  induction ch as [|x ch IH]; [apply Forall_nil_2|by apply Forall_cons_2].
Qed.

(** ** Sorting *)
Lemma sorted_insert_perm {A} cmp (x : A) l : sorted_insert cmp x l ≡ₚ x :: l.
Proof. induction l as [|y l IH]; [done|]. cbn. destruct (cmp x y); try done. rewrite IH. constructor. Qed.

Lemma sort_by_perm {A} cmp (l : list A) : sort_by cmp l ≡ₚ l.
Proof. induction l as [|x l IH]; [done|]. cbn. by rewrite sorted_insert_perm, IH. Qed.

Lemma compare_flip a b : String.compare b a = CompOpp (String.compare a b).
Proof. apply String.compare_antisym. Qed.

Lemma before_total a b : before a b = Gt -> not_after b a.
Proof.
  unfold not_after, before. destruct (is_folder a), (is_folder b); try done;
    rewrite (compare_flip (to_lowercase (name a))); by destruct (String.compare _ _).
Qed.

Lemma sorted_insert_sorted x l : Sorted not_after l -> Sorted not_after (sorted_insert before x l).
Proof.
  induction 1 as [|y l Hl IH Hy]; cbn; [by repeat constructor|].
  destruct (before x y) eqn:E; [constructor; [by constructor|constructor; unfold not_after; by rewrite E]..|].
  constructor; [done|]. apply before_total in E. destruct l as [|z l]; cbn; [by constructor|].
  destruct (before x z); constructor; try done. by inversion Hy.
Qed.

Lemma sort_by_sorted l : Sorted not_after (sort_by before l).
Proof. induction l as [|x l IH]; [constructor|by apply sorted_insert_sorted]. Qed.


(** ** Insertion *)
Lemma shown_app path a b : shown path (a ++ b) = shown path a ++ shown path b.
Proof. apply bind_app. Qed.

Lemma shown_cons path n nodes : shown path (n :: nodes) = leaves_of path n ++ shown path nodes.
Proof. done. Qed.

Lemma in_folder_shown part fp f extra path nodes :
  (forall ch, shown (path ++ [part]) (f ch) ≡ₚ shown (path ++ [part]) ch ++ extra) ->
  shown path (in_folder part fp f nodes) ≡ₚ shown path nodes ++ extra.
Proof.
  intros Hf. induction nodes as [|n nodes IH].
  - cbn. rewrite app_nil_r. apply (Hf []).
  - cbn [in_folder]. destruct (is_folder n && String.eqb (name n) part) eqn:E.
    + apply andb_true_iff in E as [Hfo Hn%String.eqb_eq]. destruct n as [nm p i c ch]. cbn in Hn. subst nm. destruct i; [done|].
      rewrite !shown_cons. cbn [leaves_of name children]. rewrite (Hf ch). solve_Permutation.
    + rewrite !shown_cons, IH. by rewrite app_assoc.
Qed.

Lemma ensure_shown parts fp leaves path nodes :
  shown path (ensure_folder_path parts fp leaves nodes) ≡ₚ shown path nodes ++ shown (path ++ parts) leaves.
Proof.
  revert fp path nodes. induction parts as [|part parts IH]; intros fp path nodes; cbn [ensure_folder_path].
  - by rewrite app_nil_r, shown_app.
  - apply in_folder_shown. intros ch. rewrite IH. by rewrite <-app_assoc.
Qed.

Lemma insert_shown root s : shown [] (insert_session root s) ≡ₚ shown [] root ++ [place s].
Proof.
  unfold insert_session, place. destruct (is_empty (folder s)); [by rewrite shown_app|]. by rewrite ensure_shown.
Qed.

(** ** Folders *)
Lemma in_folder_folders part fp f (extra : list string -> Prop) path nodes :
  (forall ch p, p ∈ shown_folders (path ++ [part]) (f ch) <-> p ∈ shown_folders (path ++ [part]) ch \/ extra p) ->
  forall p, p ∈ shown_folders path (in_folder part fp f nodes) <-> p ∈ shown_folders path nodes \/ p = path ++ [part] \/ extra p.
Proof.
  intros Hf p. unfold shown_folders in *. induction nodes as [|n nodes IH].
  - cbn. rewrite app_nil_r, elem_of_cons, (Hf []). cbn. set_solver.
  - cbn [in_folder]. destruct (is_folder n && String.eqb (name n) part) eqn:E.
    + apply andb_true_iff in E as [Hfo Hn%String.eqb_eq]. destruct n as [nm q i c ch]. cbn in Hn. subst nm. destruct i; [done|].
      rewrite !bind_cons. cbn [folders_of name children]. rewrite !elem_of_app, !elem_of_cons, Hf. tauto.
    + rewrite !bind_cons, !elem_of_app, IH. tauto.
Qed.

Lemma on_the_way_cons part parts p : on_the_way (part :: parts) p <-> p = [part] \/ exists q, p = part :: q /\ on_the_way parts q.
Proof.
  unfold on_the_way. split.
  - intros [Hne [k Hk]]. destruct p as [|x q]; [done|]. injection Hk as -> ->. destruct q as [|y q]; [by left|]. right. eexists. split; [done|]. split; [done|]. by exists k.
  - intros [->|(q & -> & _ & k & ->)]; (split; [done|]); [by exists parts|by exists k].
Qed.

Lemma ensure_folders parts fp leaves path nodes p : (forall path, shown_folders path leaves = []) ->
  p ∈ shown_folders path (ensure_folder_path parts fp leaves nodes) <->
  p ∈ shown_folders path nodes \/ exists q, p = path ++ q /\ on_the_way parts q.
Proof.
  intros Hl. revert fp path nodes p. induction parts as [|part parts IH]; intros fp path nodes p; cbn [ensure_folder_path].
  - unfold shown_folders in *. rewrite bind_app, Hl, app_nil_r. split; [auto|]. intros [?|(q & _ & Hne & k & Hk)]; [done|].
    by destruct q.
  - rewrite (in_folder_folders part _ _ (fun p => exists q, p = (path ++ [part]) ++ q /\ on_the_way parts q)).
    + setoid_rewrite on_the_way_cons. split.
      * intros [?|[->|(q & -> & Hq)]]; [by left|right; eauto|]. right. exists (part :: q). rewrite <-app_assoc. split; [done|]. eauto.
      * intros [?|(q & -> & [->|(q' & -> & Hq)])]; [by left|by right; left|]. do 2 right. exists q'. rewrite <-app_assoc. done.
    + intros ch q. by rewrite IH.
Qed.

Lemma insert_folders root s p : p ∈ shown_folders [] (insert_session root s) <->
  p ∈ shown_folders [] root \/ on_the_way (place s).1 p.
Proof.
  unfold insert_session, place. destruct (is_empty (folder s)); cbn [fst].
  - unfold shown_folders. rewrite bind_app. cbn. rewrite app_nil_r. split; [by left|]. intros [?|[Hne [k Hk]]]; [done|]. by destruct p.
  - rewrite ensure_folders by done. cbn. naive_solver.
Qed.

(** ** Distinct names *)
Definition level (nodes : list TreeNode) : Prop := Forall distinct nodes /\ NoDup (folder_names nodes).

Lemma in_folder_names part fp f nodes :
  folder_names (in_folder part fp f nodes) = if bool_decide (part ∈ folder_names nodes) then folder_names nodes else folder_names nodes ++ [part].
Proof.
  unfold folder_names. induction nodes as [|n nodes IH]; [done|]. cbn [in_folder].
  destruct (is_folder n && String.eqb (name n) part) eqn:E.
  - apply andb_true_iff in E as [Hfo Hn%String.eqb_eq]. cbn [List.filter]. rewrite Hfo. cbn. rewrite Hn, bool_decide_eq_true_2 by (cbn; left). done.
  - cbn [List.filter]. destruct (is_folder n) eqn:Hfo; [|by rewrite IH]. cbn in E. apply String.eqb_neq in E. rewrite !fmap_cons, IH.
    rewrite (bool_decide_ext (part ∈ name n :: _) (part ∈ name <$> List.filter is_folder nodes)) by (rewrite elem_of_cons; naive_solver).
    by case_bool_decide.
Qed.

Lemma in_folder_level part fp f nodes : (forall ch, level ch -> level (f ch)) -> level nodes -> level (in_folder part fp f nodes).
Proof.
  intros Hf [Hd Hn]. split.
  - clear Hn. induction Hd as [|n nodes Hnd Hd IH]; cbn [in_folder].
    + apply Forall_cons_2; [|apply Forall_nil_2]. destruct (Hf []) as [? ?]; [split; [apply Forall_nil_2|constructor]|]. by constructor.
    + destruct (_ && _); [|by apply Forall_cons_2]. apply Forall_cons_2; [|done]. destruct Hnd as [nm p i c ch Hch Hnn]. cbn.
      destruct (Hf ch) as [? ?]; [done|]. by constructor.
  - rewrite in_folder_names. case_bool_decide as Hp; [done|]. apply NoDup_app. split; [done|]. split; [set_solver|].
    apply NoDup_singleton.
Qed.

Lemma leaves_level nodes leaves : Forall distinct leaves -> List.filter is_folder leaves = [] -> level nodes -> level (nodes ++ leaves).
Proof.
  intros Hl Hf [Hd Hn]. split; [by apply Forall_app_2|]. unfold folder_names in *. by rewrite List.filter_app, Hf, app_nil_r.
Qed.

Lemma ensure_level parts fp leaves nodes : Forall distinct leaves -> List.filter is_folder leaves = [] ->
  level nodes -> level (ensure_folder_path parts fp leaves nodes).
Proof.
  intros Hl Hf. revert fp nodes. induction parts as [|part parts IH]; intros fp nodes Hn; cbn [ensure_folder_path]; [by apply leaves_level|].
  apply in_folder_level; [|done]. intros ch. apply IH.
Qed.

Lemma leaf_distinct n p i c : Forall distinct [mkNode n p (Some i) c []].
Proof. apply Forall_cons_2; [|apply Forall_nil_2]. constructor; [apply Forall_nil_2|constructor]. Qed.

Lemma insert_level root s : level root -> level (insert_session root s).
Proof.
  intros Hr. unfold insert_session. destruct (is_empty (folder s)); [apply leaves_level|apply ensure_level]; try done; apply leaf_distinct.
Qed.

(** ** Sorting keeps what is shown *)
Lemma bind_perm_each {A B} (f g : A -> list B) l : Forall (fun x => f x ≡ₚ g x) l -> l ≫= f ≡ₚ l ≫= g.
Proof. induction 1 as [|x l Hx _ IH]; [done|]. rewrite !bind_cons. by rewrite Hx, IH. Qed.

Lemma bind_fmap_each {A B C} (f : A -> B) (g : B -> list C) l : (f <$> l) ≫= g = l ≫= (fun x => g (f x)).
Proof. induction l as [|x l IH]; [done|]. rewrite fmap_cons, !bind_cons. by rewrite IH. Qed.

Lemma sort_node_shown n path : leaves_of path (sort_node n) ≡ₚ leaves_of path n.
Proof.
  revert path. induction n as [nm p i c ch IH] using tree_ind. intros path. destruct i; [done|]. cbn [sort_node leaves_of].
  rewrite sort_by_perm, bind_fmap_each. apply bind_perm_each. apply (Forall_impl _ _ _ IH). intros x Hx. apply Hx.
Qed.

Lemma sort_node_folders n path : folders_of path (sort_node n) ≡ₚ folders_of path n.
Proof.
  revert path. induction n as [nm p i c ch IH] using tree_ind. intros path. destruct i; [done|]. cbn [sort_node folders_of].
  constructor. rewrite sort_by_perm, bind_fmap_each. apply bind_perm_each. apply (Forall_impl _ _ _ IH). intros x Hx. apply Hx.
Qed.

Lemma sort_node_kind n : is_folder (sort_node n) = is_folder n /\ name (sort_node n) = name n.
Proof. by destruct n as [nm p [i|] c ch]. Qed.

Lemma sorted_names nodes : folder_names (sort_node <$> nodes) = folder_names nodes.
Proof.
  unfold folder_names. induction nodes as [|n nodes IH]; [done|]. cbn [fmap list_fmap List.filter].
  destruct (sort_node_kind n) as [-> Hn]. destruct (is_folder n); [|done]. cbn. by rewrite Hn, IH.
Qed.

Lemma folder_names_perm a b : a ≡ₚ b -> folder_names a ≡ₚ folder_names b.
Proof.
  unfold folder_names. induction 1 as [|x l l' _ IH|x y l|l1 l2 l3 _ IH1 _ IH2]; [done|..]; cbn.
  - by destruct (is_folder x); cbn; rewrite IH.
  - destruct (is_folder x), (is_folder y); cbn; solve_Permutation.
  - by rewrite IH1.
Qed.

Lemma sum_wraps (f : TreeNode -> Z) (g : TreeNode -> list (list string * string)) ch k :
  Forall (fun x => f x = wrap_u32 (Z.of_nat (length (g x)))) ch ->
  foldl (fun sum c => wrap_u32 (sum + c)) (wrap_u32 k) (f <$> ch) = wrap_u32 (k + Z.of_nat (length (ch ≫= g))).
Proof.
  intros Hf. revert k. induction Hf as [|x ch Hx _ IH]; intros k; [cbn; by rewrite Z.add_0_r|].
  rewrite fmap_cons, bind_cons, length_app. cbn [foldl]. rewrite Hx. unfold wrap_u32 at 2 3 4. rewrite <- Z.add_mod by lia.
  fold (wrap_u32 (k + Z.of_nat (length (g x)))). rewrite IH. f_equal. lia.
Qed.

Lemma count_leaves n path : count_sessions n = wrap_u32 (Z.of_nat (length (leaves_of path n))).
Proof.
  revert path. induction n as [nm p i c ch IH] using tree_ind. intros path. destruct i; [done|]. cbn [count_sessions leaves_of].
  apply (sum_wraps count_sessions (leaves_of (path ++ [nm])) ch 0). eapply Forall_impl; [exact IH|]. intros x Hx. apply Hx.
Qed.

Lemma sort_node_arranged n : distinct n -> arranged (sort_node n).
Proof.
  induction n as [nm p i c ch IH] using tree_ind. intros Hd. inversion Hd as [? ? ? ? ? Hch Hnn]; subst. destruct i; [constructor|].
  cbn [sort_node].
  assert (count_sessions (mkNode nm p None 0 (sort_by before (sort_node <$> ch))) =
    wrap_u32 (Z.of_nat (length (sort_by before (sort_node <$> ch) ≫= leaves_of [])))) as ->.
  { cbn [count_sessions]. apply (sum_wraps count_sessions (leaves_of []) _ 0), Forall_true. intros x. apply count_leaves. }
  constructor; [| |apply sort_by_sorted].
  - rewrite sort_by_perm. apply Forall_fmap. rewrite Forall_forall in *. intros x Hx. by apply IH, Hch.
  - rewrite (folder_names_perm _ _ (sort_by_perm before _)), sorted_names. done.
Qed.

(** ** The forest *)
Lemma fold_invariant {A} (P : list TreeNode -> Prop) (f : list TreeNode -> A -> list TreeNode) l root :
  (forall r x, P r -> P (f r x)) -> P root -> P (foldl f root l).
Proof. intros Hf. revert root. induction l as [|x l IH]; intros root Hr; [done|]. cbn. by apply IH, Hf. Qed.

Notation empties empty_folders := (foldl (fun root path => ensure_folder_path (split_slash path) "" [] root) [] empty_folders).

Lemma empties_level es : level (empties es).
Proof.
  apply fold_invariant; [|split; [apply Forall_nil_2|constructor]].
  intros r x Hr. by apply ensure_level; [apply Forall_nil_2| |].
Qed.

Lemma empties_shown es : shown [] (empties es) = [].
Proof.
  apply (fold_invariant (fun r => shown [] r = [])); [|done].
  intros r x Hr. apply Permutation_nil_r. by rewrite ensure_shown, Hr.
Qed.

Lemma empties_folders es p :
  p ∈ shown_folders [] (empties es) <-> exists e, e ∈ es /\ on_the_way (split_slash e) p.
Proof.
  induction es as [|e es IH] using rev_ind; [cbn; set_solver|]. rewrite foldl_app. cbn [foldl].
  rewrite ensure_folders, IH by done. setoid_rewrite elem_of_app. setoid_rewrite list_elem_of_singleton. cbn. naive_solver.
Qed.

Lemma inserted_shown r ss : shown [] (foldl insert_session r ss) ≡ₚ shown [] r ++ (place <$> ss).
Proof.
  induction ss as [|s ss IH] using rev_ind; [cbn; by rewrite app_nil_r|].
  rewrite foldl_app, fmap_app. cbn [foldl fmap list_fmap]. rewrite insert_shown, IH. by rewrite <-app_assoc.
Qed.

Lemma inserted_folders r ss p : p ∈ shown_folders [] (foldl insert_session r ss) <->
  (exists s, s ∈ ss /\ on_the_way (place s).1 p) \/ p ∈ shown_folders [] r.
Proof.
  induction ss as [|s ss IH] using rev_ind; [cbn; set_solver|].
  rewrite foldl_app. cbn [foldl]. rewrite insert_folders, IH. setoid_rewrite elem_of_app. setoid_rewrite list_elem_of_singleton. naive_solver.
Qed.

Lemma sort_tree_shown nodes : shown [] (sort_tree nodes) ≡ₚ shown [] nodes.
Proof.
  unfold shown, sort_tree. rewrite sort_by_perm, bind_fmap_each. apply bind_perm_each.
  apply Forall_true. intros x. apply sort_node_shown.
Qed.

Lemma sort_tree_folders nodes : shown_folders [] (sort_tree nodes) ≡ₚ shown_folders [] nodes.
Proof.
  unfold shown_folders, sort_tree. rewrite sort_by_perm, bind_fmap_each. apply bind_perm_each.
  apply Forall_true. intros x. apply sort_node_folders.
Qed.

(** C39. The forest shows every session exactly once, as a leaf with its id under the path of its
    folder, and exactly the folders on the way to a session or to a listed empty folder; at every
    level no two folders have the same name (sessions may), folders come before sessions, each kind
    is in the order of the lower-cased names, and every folder carries the number of sessions below
    it, as a [u32]: the exact number below 2^32 of them. *)
Theorem build_exact sessions empty_folders :
  let forest := build sessions empty_folders in
  shown [] forest ≡ₚ place <$> sessions /\
  (forall p, p ∈ shown_folders [] forest <->
     (exists s, s ∈ sessions /\ on_the_way (place s).1 p) \/ exists e, e ∈ empty_folders /\ on_the_way (split_slash e) p) /\
  Forall arranged forest /\ NoDup (folder_names forest) /\ Sorted not_after forest.
Proof.
  intros forest. unfold forest, build.
  assert (level (foldl insert_session (empties empty_folders) sessions)) as [Hd Hn].
  { apply fold_invariant; [intros; by apply insert_level|apply empties_level]. }
  split_and!.
  - by rewrite sort_tree_shown, inserted_shown, empties_shown.
  - intros p. rewrite sort_tree_folders, inserted_folders, empties_folders. done.
  - unfold sort_tree. rewrite sort_by_perm. apply Forall_fmap. apply (Forall_impl _ _ _ Hd). intros x. apply sort_node_arranged.
  - unfold sort_tree. by rewrite (folder_names_perm _ _ (sort_by_perm before _)), sorted_names.
  - apply sort_by_sorted.
Qed.

End Tree.

(** A leading slash is a folder without a name whose children have the paths of the top level. *)
Lemma leading_slash_shares_path :
  full_path <$> (build (fun s => s) [] ["/a"; "a"]%string ≫= fun n => n :: children n) = [""; "a"; "a"]%string.
Proof. reflexivity. Qed.
