(* ===== verification/History.v ===== *)
(** * Undo history and conflict batches

    Two registries of small state machines that the interface drives by handle:
    [session_history.rs] (bounded undo and redo stacks over opaque snapshots) and
    [transfer_conflict.rs] (what the user decided about the conflicts of one batch).  A
    [Vec] used as a stack has its top last. *)
From Stdlib Require Import ZArith Lia.
From stdpp Require Import prelude gmap strings list.
From S2P Require Import Prelude.

Open Scope Z_scope.

(** ** Undo and redo *)
Module SessionHistory.

Definition MAX_STACK : nat := 50.

Record Snapshot := mkSnapshot { description : string; blob : list Z }.
Record State := mkState { undo_stack : list Snapshot; redo_stack : list Snapshot }.

(** [REGISTRY] and [NEXT_ID]. *)
Record Actors := mkActors { registry : gmap Z State; next_id : Z }.

Definition on (id : Z) (s : State) (a : Actors) : Actors := mkActors (<[id := s]> (registry a)) (next_id a).

(** [Vec::pop] *)
Definition pop {A} (l : list A) : option (A * list A) := match rev l with [] => None | x :: r => Some (x, rev r) end.

Definition create (a : Actors) : Z * Actors :=
  let id := next_id a in (id, mkActors (<[id := mkState [] []]> (registry a)) (wrap_u64 (id + 1))).

Definition drop_handle (id : Z) (a : Actors) : Actors := mkActors (delete id (registry a)) (next_id a).

Definition push_undo (id : Z) (s : Snapshot) (a : Actors) : Actors :=
  match registry a !! id with
  | None => a
  | Some st =>
      let u := undo_stack st ++ [s] in
      on id (mkState (if (MAX_STACK <? length u)%nat then tail u else u) []) a
  end.

Definition undo (id : Z) (current : Snapshot) (a : Actors) : option Snapshot * Actors :=
  match registry a !! id with
  | None => (None, a)
  | Some st =>
      match pop (undo_stack st) with
      | None => (None, a)
      | Some (popped, u) => (Some popped, on id (mkState u (redo_stack st ++ [current])) a)
      end
  end.

Definition redo (id : Z) (current : Snapshot) (a : Actors) : option Snapshot * Actors :=
  match registry a !! id with
  | None => (None, a)
  | Some st =>
      match pop (redo_stack st) with
      | None => (None, a)
      | Some (popped, r) => (Some popped, on id (mkState (undo_stack st ++ [current]) r) a)
      end
  end.

Definition clear (id : Z) (a : Actors) : Actors :=
  match registry a !! id with Some _ => on id (mkState [] []) a | None => a end.

Definition can_undo (id : Z) (a : Actors) : bool :=
  match registry a !! id with Some st => negb (match undo_stack st with [] => true | _ => false end) | None => false end.

Definition can_redo (id : Z) (a : Actors) : bool :=
  match registry a !! id with Some st => negb (match redo_stack st with [] => true | _ => false end) | None => false end.

Definition undo_description (id : Z) (a : Actors) : option string := registry a !! id ≫= fun st => description <$> last (undo_stack st).
Definition redo_description (id : Z) (a : Actors) : option string := registry a !! id ≫= fun st => description <$> last (redo_stack st).

End SessionHistory.

Section History.
Import SessionHistory.

Lemma pop_snoc {A} (l : list A) x : pop (l ++ [x]) = Some (x, l).
Proof. unfold pop. by rewrite rev_unit, rev_involutive. Qed.

Lemma pop_some {A} (l : list A) x r : pop l = Some (x, r) <-> l = r ++ [x].
Proof.
  split; [|by intros ->; apply pop_snoc]. unfold pop. destruct (rev l) as [|y t] eqn:E; [done|]. intros [= -> <-].
  rewrite <-(rev_involutive l), E. done.
Qed.

(** The interface: what it shows, and the actors. *)
Definition undo_step (id : Z) (s : Snapshot * Actors) : option (Snapshot * Actors) :=
  match undo id s.1 s.2 with (Some p, a) => Some (p, a) | (None, _) => None end.
Definition redo_step (id : Z) (s : Snapshot * Actors) : option (Snapshot * Actors) :=
  match redo id s.1 s.2 with (Some p, a) => Some (p, a) | (None, _) => None end.

Fixpoint times (n : nat) (f : Snapshot * Actors -> option (Snapshot * Actors)) (s : Snapshot * Actors) : option (Snapshot * Actors) :=
  match n with O => Some s | S n => f s ≫= times n f end.

Lemma on_on id s s' a : on id s (on id s' a) = on id s a.
Proof. unfold on. cbn. by rewrite insert_insert_eq. Qed.

Lemma on_self id s a : registry a !! id = Some s -> on id s a = a.
Proof. intros Hs. unfold on. rewrite insert_id by done. by destruct a. Qed.

(** One undo is taken back by one redo, and the other way around. *)
Lemma redo_undo id s s' : undo_step id s = Some s' -> redo_step id s' = Some s.
Proof.
  destruct s as [cur a]. unfold undo_step, redo_step, undo, redo. cbn [fst snd].
  destruct (registry a !! id) as [[u r]|] eqn:Hs; [|done]. cbn. destruct (pop u) as [[p u']|] eqn:Hp; [|done].
  intros [= <-]. apply pop_some in Hp as ->. cbn. rewrite lookup_insert_eq. cbn. rewrite pop_snoc, on_on. by rewrite on_self.
Qed.

Lemma times_snoc n f s s1 s2 : times n f s = Some s1 -> f s1 = Some s2 -> times (S n) f s = Some s2.
Proof.
  revert s. induction n as [|n IH]; intros s; cbn [times]; [intros [= ->] ->; done|].
  destruct (f s) as [s'|] eqn:Hf; [|done]. cbn. intros Hn Hs. specialize (IH s' Hn Hs). cbn [times] in IH. exact IH.
Qed.

(** Whatever number of changes is undone, redoing as many restores what was shown and both stacks. *)
Theorem undo_then_redo id n s s' : times n (undo_step id) s = Some s' -> times n (redo_step id) s' = Some s.
Proof.
  revert s. induction n as [|n IH]; intros s; [by intros [= ->]|]. cbn [times].
  destruct (undo_step id s) as [s1|] eqn:Hu; [|done]. cbn. intros Hn.
  apply (times_snoc n _ s' s1 s); [by apply IH|by apply redo_undo].
Qed.

(** The two stacks of a handle never hold more than fifty snapshots together. *)
Definition bounded (a : Actors) : Prop :=
  forall id st, registry a !! id = Some st -> (length (undo_stack st) + length (redo_stack st) <= MAX_STACK)%nat.

Inductive op := Create | Drop (id : Z) | Push (id : Z) (s : Snapshot) | Undo (id : Z) (s : Snapshot) | Redo (id : Z) (s : Snapshot) | Clear (id : Z).

Definition exec (a : Actors) (o : op) : Actors :=
  match o with
  | Create => (create a).2
  | Drop id => drop_handle id a
  | Push id s => push_undo id s a
  | Undo id s => (undo id s a).2
  | Redo id s => (redo id s a).2
  | Clear id => clear id a
  end.

Lemma bounded_on id st a : bounded a -> (length (undo_stack st) + length (redo_stack st) <= MAX_STACK)%nat -> bounded (on id st a).
Proof. intros Ha Hst j s. cbn. rewrite lookup_insert_Some. intros [[-> <-]|[_ Hs]]; [done|by apply (Ha j)]. Qed.

Theorem stacks_are_bounded a os : bounded a -> bounded (foldl exec a os).
Proof.
  revert a. induction os as [|o os IH]; intros a Ha; [done|]. cbn. apply IH. clear IH os.
  destruct o as [|id|id s|id s|id s|id]; cbn [exec].
  - intros j st. cbn. rewrite lookup_insert_Some. intros [[_ <-]|[_ Hs]]; [cbn; lia|by apply (Ha j)].
  - intros j st. cbn. rewrite lookup_delete_Some. intros [_ Hs]. by apply (Ha j).
  - unfold push_undo. destruct (registry a !! id) as [st|] eqn:Hs; [|done]. apply bounded_on; [done|]. specialize (Ha id st Hs). cbn [undo_stack redo_stack].
    destruct (MAX_STACK <? length (undo_stack st ++ [s]))%nat eqn:E; [|apply Nat.ltb_ge in E; cbn; lia]. assert (forall l : list Snapshot, length (tail l) = pred (length l)) as Ht by (by intros []). rewrite Ht, length_app. cbn. lia.
  - unfold undo. destruct (registry a !! id) as [st|] eqn:Hs; [|done]. destruct (pop _) as [[p u]|] eqn:Hp; [|done].
    apply pop_some in Hp. apply bounded_on; [done|]. specialize (Ha id st Hs). rewrite Hp in Ha. cbn. rewrite length_app in *. cbn in *. lia.
  - unfold redo. destruct (registry a !! id) as [st|] eqn:Hs; [|done]. destruct (pop _) as [[p u]|] eqn:Hp; [|done].
    apply pop_some in Hp. apply bounded_on; [done|]. specialize (Ha id st Hs). rewrite Hp in Ha. cbn. rewrite length_app in *. cbn in *. lia.
  - unfold clear. destruct (registry a !! id) as [st|]; [|done]. apply bounded_on; [done|]. cbn. lia.
Qed.

End History.

(** ** Conflicts of a batch *)
Module Conflict.

Inductive ConflictAction := Skip | KeepBoth | Replace | Cancel.
Record ConflictDecision := mkDecision { action : ConflictAction; apply_to_all : bool }.
Record BatchState := mkBatch { cached : option ConflictAction; cancelled : bool }.

Definition default_batch : BatchState := mkBatch None false.
Definition reset (s : BatchState) : BatchState := mkBatch None false.

Definition record_decision (d : ConflictDecision) (s : BatchState) : ConflictAction * BatchState :=
  if cancelled s then (Cancel, s)
  else
    (action d,
     match action d with
     | Cancel => mkBatch (cached s) true
     | other => if apply_to_all d then mkBatch (Some other) (cancelled s) else s
     end).

(** [BatchStateRegistry] *)
Notation Batches := (gmap string BatchState).
Definition create (handle : string) (b : Batches) : Batches := <[handle := default_batch]> b.
Definition drop (handle : string) (b : Batches) : Batches := delete handle b.
Definition cached_of (handle : string) (b : Batches) : option ConflictAction := b !! handle ≫= cached.
Definition is_cancelled (handle : string) (b : Batches) : bool := match b !! handle with Some s => cancelled s | None => false end.
Definition record (handle : string) (d : ConflictDecision) (b : Batches) : ConflictAction * Batches :=
  let '(a, s) := record_decision d (default default_batch (b !! handle)) in (a, <[handle := s]> b).

Fixpoint record_all (handle : string) (ds : list ConflictDecision) (b : Batches) : list ConflictAction * Batches :=
  match ds with
  | [] => ([], b)
  | d :: ds =>
      let '(a, b) := record handle d b in
      let '(rest, b) := record_all handle ds b in (a :: rest, b)
  end.

End Conflict.

Section Conflicts.
Import Conflict.

#[export] Instance ConflictAction_eq_dec : EqDecision ConflictAction.
Proof. solve_decision. Defined.

Fixpoint until_cancel (ds : list ConflictDecision) : list ConflictAction :=
  match ds with
  | [] => []
  | d :: ds' => match action d with Cancel => (fun _ => Cancel) <$> ds | a => a :: until_cancel ds' end
  end.

(** Decisions take effect as made until the first cancellation, which decides all that follow. *)
Theorem decisions_until_cancel handle ds b :
  is_cancelled handle b = false ->
  (record_all handle ds b).1 = until_cancel ds /\
  is_cancelled handle (record_all handle ds b).2 = bool_decide (Exists (fun d => action d = Cancel) ds).
Proof.
  assert (forall ds b, is_cancelled handle b = true ->
    (record_all handle ds b).1 = (fun _ => Cancel) <$> ds /\ is_cancelled handle (record_all handle ds b).2 = true) as Hafter.
  { clear. induction ds as [|d ds IH]; intros b Hb; [done|]. cbn [record_all]. unfold is_cancelled in Hb.
    destruct (b !! handle) as [s|] eqn:Hs; [|done]. unfold record. rewrite Hs. unfold record_decision. cbn [default from_option id]. rewrite Hb.
    destruct (IH (<[handle:=s]> b)) as [H1 H2]; [unfold is_cancelled; by rewrite lookup_insert_eq|].
    destruct (record_all _ ds _) as [rest b']. cbn in *. by rewrite H1. }
  revert b. induction ds as [|d ds IH]; intros b Hb; [cbn; by rewrite Hb|]. cbn [record_all until_cancel].
  unfold record, record_decision. assert (cancelled (default default_batch (b !! handle)) = false) as Hc.
  { unfold is_cancelled in Hb. by destruct (b !! handle). }
  rewrite Hc. set (s := match action d with Cancel => _ | _ => _ end).
  destruct (decide (action d = Cancel)) as [Ha|Ha].
  - destruct (Hafter ds (<[handle:=s]> b)) as [H1 H2]; [unfold is_cancelled, s; by rewrite lookup_insert_eq, Ha|].
    destruct (record_all _ ds _) as [rest b']. cbn in *. rewrite H1, Ha, H2. split; [done|]. symmetry. apply bool_decide_eq_true. by left.
  - destruct (IH (<[handle:=s]> b)) as [H1 H2].
    { unfold is_cancelled, s. rewrite lookup_insert_eq. destruct (action d), (apply_to_all d); cbn; done. }
    destruct (record_all _ ds _) as [rest b']. cbn in *. rewrite H1, H2. split; [by destruct (action d)|].
    apply bool_decide_ext. rewrite Exists_cons. naive_solver.
Qed.

End Conflicts.
